(* ===== verification/_CoqProject ===== *)
-Q . S2P
Prelude.v
JsData.v
JsMap.v
JsDate.v
JsJson.v
Spend.v
BitcoinTx.v
CctpMessage.v
HeaderSync.v
CctpStore.v
CctpNet.v
CctpRelay.v
CctpRelayFacts.v
Esplora.v
SpvProof.v
SpvSync.v
RpcCursor.v
AccountLock.v
RepayWatcher.v
Keys.v
Payment.v
RedeemScript.v
RepayHandler.v
BitcoinMessage.v
Faucet.v
RateLimit.v
CctpRoute.v
ProofCache.v
ProofRoute.v
LendArchive.v
LendRebuild.v
ArchiveFile.v
PositionEvents.v
DepositStatus.v
Timeline.v
VaultWatcher.v
Defindex.v
Funnel.v
Pollar.v
LendRates.v
Amounts.v
AppBitcoin.v
Rejection.v
TxLock.v
FlowEngine.v
AppStore.v
StellarTx.v
Receive.v
LoanStatus.v
AppEsplora.v
Precheck.v
ErrorText.v
StatusReads.v
LoanModel.v
Journey.v
Discover.v
PositionTx.v
DepositFlow.v
DepositFacts.v
AppRelease.v
SignetKey.v
SignetWallet.v
SignetPay.v
JsNumber.v
DeployTarget.v
RelayerConfig.v
RelayerServer.v
AppTarget.v
Funding.v
Guide.v
SdkContracts.v
SdkRelayer.v
Growth.v
EarnFlow.v
LoanCycle.v
FaucetRoute.v
