(* ===== verification/Prelude.v ===== *)
(** * Writz Protocol: verification of the off-chain programs

    Writz locks a user's BTC in a P2WSH script, lends against it on Stellar,
    and releases it when the loan is repaid. The TypeScript programs around
    the contracts are modelled here: the Bitcoin library
    ([bitcoin-script/src]), the relayer ([relayer/src]), which feeds block
    headers to the on-chain light client, serves SPV proofs, archives the
    contract's events, publishes release transactions, completes CCTP
    transfers and runs a Signet faucet, and the logic of the web app
    ([frontend/app/src/lib]), which moves a user's money through deposit,
    loan and release, and the TypeScript SDK ([packages/sdk/src]), with which
    others use the relayer and the contracts.

    ** How the parts interact

    A deposit goes to the address of a redeem script, which the app builds
    itself ([AppBitcoin]) as the library does ([RedeemScript]). The app tracks
    the funding transaction, asks the relayer for its proof and registers it
    with one [deposit()] ([DepositFlow]); a wallet's loans are found again from
    its history ([Discover]). The relayer's route ([ProofRoute], under
    [RateLimit], with [ProofCache]) strips and proves the transaction
    ([BitcoinTx], [SpvProof]) against headers it keeps submitting
    ([HeaderSync], [SpvSync]). The app shows what its reads establish
    ([LoanStatus]), accrues interest as the contract does ([LendRates]), offers
    what the contract allows ([LoanModel]), and borrows and repays
    ([PositionTx], under [TxLock]); the borrowed USDC is kept, swapped, or burned
    for another chain ([Receive]), where the relayer's CCTP relay completes the
    transfer ([CctpRelay], read through [CctpRoute]). When the loan is repaid the contract emits
    an event; the repay watcher ([RepayWatcher]) records it durably and
    publishes a release ([RepayHandler], [Spend]) signed by the protocol key
    ([Keys]); the app checks that release, has the user sign it and broadcasts
    it ([AppRelease]). The same events are archived ([LendArchive]), and the
    relayer's data can be rebuilt from them ([LendRebuild]). Both submitters
    share one Stellar account under [AccountLock], and the relayer's Bitcoin
    reads go through [Esplora]. Its routes answer where a deposit is
    ([DepositStatus]) and what happened to a loan ([Timeline]) from one index of
    the contract's events ([PositionEvents]). The faucet ([Faucet], behind the
    logins of [Pollar]) is a service of its own; the app claims from it for a
    key it makes in the browser ([SignetKey], [Funding]) and follows the first
    loan step by step ([Guide], reported to [Funnel]). The SDK fetches a proof
    from the same route and has the contract check it ([SdkRelayer],
    [SdkContracts]). Which of all this a deployment runs is decided by its
    configuration, on both sides ([RelayerServer], [AppTarget]).

    ** Files, in dependency order

    - [Prelude]: the result type, the state-and-exception monad [io] (a thrown
      exception keeps the state reached, as in JavaScript), the tactics
      [split_match], [bools] and [preserve] with the hint database
      [preserves], and shared lemmas.
    - [JsData], [JsMap], [JsDate], [JsJson]: the part of JavaScript the code uses:
      bytes, Buffer slices, hex, decimal and BigInt strings, dates;
      insertion-ordered maps and stable sorting; JSON, with the proof that what
      is written is read back.
    - [Spend] (bitcoin-script/src/spend.ts), [Keys] (keys.ts), [Payment]
      (payment.ts), [RedeemScript] (script.ts, address.ts), [BitcoinMessage]
      (message.ts): the Bitcoin library.
    - [BitcoinTx] (relayer/src/bitcoin/tx.ts), [HeaderSync] (header-sync.ts),
      [Esplora] (esplora.ts), [SpvProof] (spv.ts), [SpvSync] (spv-submit.ts and
      the tip cache of light-client.ts).
    - [RpcCursor] (rpc-cursor.ts), [AccountLock] (account-lock.ts),
      [RepayWatcher] (repay-watcher/release-store.ts and poller.ts),
      [RepayHandler] (repay-watcher/handler.ts).
    - [CctpMessage] (cctp/message.ts), [CctpStore] (store.ts), [CctpNet]
      (iris.ts, indexer.ts), [CctpRelay] (service.ts, chain.ts),
      [CctpRelayFacts], its correctness, and [CctpRoute] (routes/cctp.ts with the
      app's reading of it, lib/receive/relay.ts).
    - [Faucet] (faucet/service.ts, store.ts, nonce.ts), [FaucetRoute]
      (routes/faucet.ts), read with the app's client of it.
    - [RateLimit] (rate-limit.ts), [ProofCache] (proof-cache.ts), [ProofRoute]
      (routes/proof.ts).
    - [LendArchive] (lend-events/decode.ts, store.ts, poller.ts), [LendRebuild]
      (lend-rebuild/replay.ts, verify.ts, rebuild.ts), [ArchiveFile]
      (lend-events/archive-file.ts, routes/lend-events.ts, data-lock.ts).
    - [PositionEvents] (lend/deposit-reads.ts), [DepositStatus]
      (routes/deposit-status.ts, lend/deposit-submission.ts), [Timeline]
      (routes/timeline.ts, lend/receive-legs.ts): where a deposit is and what
      happened to a loan, read from both chains.
    - [VaultWatcher] (vault-watcher/: the vault's events and the metrics
      computed from them), [Defindex] (defindex/, routes/defindex.ts and
      routes/metrics.ts), [Funnel] (onboarding/, routes/onboarding.ts), [Pollar]
      (faucet/pollar.ts, the login the faucet asks for).
    - [LendRates] (lib/contracts/writzLend.ts of the app), with the interest of
      the contract written out as the reference; [Amounts] (what amount fields
      show and read), [AppBitcoin] (lib/bitcoin/address.ts, timelock.ts).
    - [Rejection] (lib/wallet/rejection.ts), [FlowEngine] (lib/flow/engine.ts),
      [TxLock] (lib/flow/lock.ts), [AppStore] (lib/position/store.ts and
      lib/flow: what the device keeps), [StellarTx] (lib/flow/stellarTx.ts,
      lib/flows/submit.ts), [Receive] (lib/receive: how the borrowed USDC
      reaches the borrower, and lib/flows/trustline.ts).
    - [LoanStatus] (lib/status/derive.ts), [LoanModel] (lib/loan/model.ts, with
      the contract's ratio checks as the reference), [Journey]
      (lib/borrow/journey.ts, lib/home/model.ts, lib/reclaim/model.ts).
    - [Discover] (lib/flows/discover.ts), [PositionTx] (lib/flows/borrow.ts,
      repay.ts, lend.ts, positionTx.ts), [DepositFlow] (lib/flows/deposit.ts)
      and [DepositFacts], its correctness; [AppRelease] (lib/flows/release.ts),
      with its composition with the relayer's release.
    - [AppEsplora] (lib/bitcoin/esplora.ts), [StatusReads] (lib/status/source.ts,
      client.ts, store.ts and the reads of lib/contracts/writzLend.ts),
      [Precheck] (lib/wallet/precheck.ts), [ErrorText] (lib/errors/): what the
      app reads around a loan, and what it says when something fails.
    - [SignetKey], [SignetWallet], [SignetPay] (lib/bitcoin/embedded/), [Funding]
      (lib/faucet/claim.ts, lib/onboarding/autoClaim.ts), [Guide]
      (lib/onboarding/guide.ts, funnel.ts): the test key and the guided loan.
    - [Growth] (lib/metrics/api.ts, cohort.ts, lib/earn/api.ts), [EarnFlow]
      (lib/flows/earn.ts), [LoanCycle] (lib/receive/timeline.ts).
    - [SdkContracts] (packages/sdk/src/errors.ts, hex.ts, soroban.ts, spv.ts,
      lend.ts), [SdkRelayer] (relayer.ts, index.ts).
    - [JsNumber] (texts as IEEE doubles), [DeployTarget] (deploy-target.ts),
      [RelayerConfig] (config.ts), [RelayerServer] (index.ts and the
      from-config.ts of the faucet and the relay), [AppTarget] (the app's
      config.ts and config/target.ts).

    Definitions keep the names of the code; a trailing underscore or a longer
    name marks a clash ([arrived_], [KmsSigner_create]). State is a record per
    service, each operation a computation of [io] over it, and what leaves the
    process (HTTP, the chain, KMS, the clock, randomness) is a class of
    operations on an abstract world ([RelayEnv], [WatcherEnv], [SpvEnv],
    [EsploraEnv], [HandlerEnv], [FaucetEnv], [LendChain], [IndexEnv],
    [LendStorage], [HorizonEnv], [VaultEnv], [DefindexSdk]; in the app
    [SubmitEnv], [ReceiveEnv], [DiscoverDeps], [LoanEnv], [DepositEnv], [ReleaseDeps],
    [KeyStorage], [EsploraIo], [FundingEnv], [GuideEnv], [RelayerNet], [EarnEnv]; in the
    SDK [SdkNet], [SdkRpc]) whose
    documented behaviour is a class of laws where a theorem needs it
    ([ArchiveLaws], [ExportLaws], [LendChainLaws], [IndexLaws], [VaultLaws],
    [DepositLaws], [ReleaseLaws], [ReceiveLaws], [CircleLaws], [StorageLaws], [FundingLaws],
    [GuideLaws]). A route is a client of a class of its own ([StatusDeps],
    [IndexLookup], [TimelineDeps]), which its default dependencies implement. Third-party
    code (bitcoinjs-lib, secp256k1, the Stellar SDK) enters the same way
    ([PsbtLib], [PsbtView], [PaymentLib], [ScriptLib], [MessageLib], [KeyEnv],
    [TxLib], [HistoryLib], [EmbeddedLib], [StellarLib]).

    ** What the theorems show

    - Safety of the money paths: the relay broadcasts only simulated, guarded,
      unused burns ([broadcasts_are_guarded]); the redeem script opens in
      exactly two ways ([redeem_script_spending_conditions]) and the finalizers
      produce witnesses for them; no repayment event is lost
      ([no_repayment_lost]); a release is published only for its own position
      ([handleRepayFull_publishes_justified]); the faucet's limits and its coin
      reservations hold under any interleaving ([faucet_limits],
      [faucet_no_double_spend]); every header batch stays under the fee ceiling
      ([header_sync_within_ceiling]); the account lock is exclusive and never
      wedges.
    - Safety of the app: no deposit is lost or registered twice, wherever the
      tab is closed ([no_deposit_lost_or_doubled]); no confirmed change of a
      loan is lost ([no_confirmed_update_lost]); the user signs and broadcasts
      only a release that pays as agreed ([releaseBtc_asks]), and the one the
      relayer publishes is accepted ([published_release_is_accepted]); the
      transaction lock of a tab is exclusive ([app_lock_exclusive]); a transfer
      to another chain pays the address typed and is one the relay completes
      ([transfers_are_relayed], [parseEvmAddress_is_eip55]), and a swap keeps its
      terms ([swaps_keep_the_terms]); the record of an Earn transaction follows it
      ([earn_record_follows_the_transaction]).
    - The test key: it moves between browsers whole ([key_moves_between_browsers],
      [wif_round_trip]), is never replaced ([created_key_is_kept]), and its payments
      add up ([signet_payment_adds_up]); the app asks the faucet once
      ([account_is_funded_once]) with a claim that passes all but the faucet's
      limits ([app_claims_reach_the_limits]) and has the answer as the faucet gave
      it, its outcome reported once ([app_reads_the_faucets_answers],
      [claims_are_reported_once]); the checklist goes in order
      ([checklist_is_in_order]) and a step is reported once, in a form the relayer
      reads ([step_is_reported_once], [app_events_are_read]).
    - Deployments: a target stands exactly when nothing contradicts it
      ([target_stands_iff_consistent]), a mainnet relayer serves Earn and nothing
      else ([mainnet_serves_earn_only]), and builds of the app and the relayer for
      one target agree ([builds_of_a_target_agree]).
    - The SDK: a request ends within its retries ([request_is_bounded]), every
      answer of the proof route is read as it is ([sdk_reads_the_proof_route]), and
      a served proof reaches the contract byte for byte
      ([served_proof_reaches_the_contract]); codes and hex are read as written
      ([contract_code_is_read], [reverseHex_is_its_own_inverse]).
    - What the app shows: a status is what the reads establish
      ([status_is_what_was_read]); actions and limits are the contract's
      ([offered_actions_are_allowed], [borrow_limit_is_the_contracts],
      [loan_figures_follow_the_contract]); interest is the contract's
      ([projectRates_mirrors_contract], [accrual_is_sound]); amounts read back
      ([amount_fields_read_back]); a delivery is what the relay's record says
      ([app_reads_the_relay]); a refresh never goes back to an older reading
      ([newest_refresh_is_shown], [answered_reads_settle]); requests of the same path
      are one ([esplora_calls_are_shared]); a failure names the contract that raised
      it ([raising_contract_is_named]); the page of a loan is its cycle, in the
      relayer's order ([loan_page_is_the_cycle], [app_orders_as_the_relayer]); the
      retention page's totals count depositors ([growth_page_counts_depositors]).
    - Functional correctness against references: transactions against a BIP-141
      serializer, burn messages against an encoder, DER signatures, base64 and
      cursors by round trips, coin selection by its balance equation, the
      app's Bitcoin code against the library's ([app_matches_library]).
    - The proof route answers with a proof of the transaction asked for, deep
      enough ([proof_route_serves_its_proof]), built once for concurrent
      requests ([proof_route_coalesces]); the limiter bounds every window.
    - What the relayer answers: the event index holds the chain's events once
      and in order and a forced refresh has all of them
      ([position_index_is_current]); a deposit's stage is what the reads of both
      chains establish ([deposit_status_is_what_was_read]); a timeline shows
      what happened and, when complete, all of it
      ([timeline_is_the_loans_history]), receive legs under the loan they belong
      to ([receive_legs_follow_the_rule]).
    - The vault's metrics are sums over its own events, each counted once
      ([vault_metrics_are_the_chains]); retention counts depositors
      ([retention_counts_depositors]); the counts and alerts of its routes are
      those of their answers. The onboarding funnel counts people, and counts a
      step on chain only after reading it there ([funnel_counts_people],
      [funnel_steps_are_checked]); the faucet takes only genuine logins
      ([only_genuine_logins_claim]).
    - The archive is the chain's events in order ([archive_is_the_chain]), and a
      rebuild from it restores the relayer's data or changes nothing. An export
      reads back as the archive ([export_reads_back]), and a file that is
      accepted is consistent ([accepted_files_are_consistent]).
    - Invariants and progress of the relay's state machine: final outcomes stay
      final, the daily cap, every job settles its transfer, waiting ends.
    - Error behaviour: truncated transactions are rejected, batches are
      recorded atomically, upstream faults go to the next host.

    ** Fuel and bounds

    [CctpRelay.await_fuel] is one round per millisecond of the confirmation
    window, plus two; each round sleeps at least a millisecond, and
    [awaitMessage_decides] proves that it never runs out.
    [HeaderSync.plan_loop] gets one step per height and the backoff loop its
    retry count. Loops of the code with a constant bound keep it as a [nat]
    ([RECEIPT_WAITS], [POLLS], [MAX_OUTPUTS], [MAX_PAGES_PER_POLL],
    [MAX_CYCLES], [MAX_VERIFY_ROUNDS], [COSIGN_POLLS], [MAX_PAGES],
    [READ_ATTEMPTS], [MAX_REMAINDER_REPAYS], [MAX_PAGES_PER_REFRESH],
    [OWNER_OPERATION_PAGES]). The deposit flow polls without
    end: [patience] is how many rounds the user keeps the tab open, and at its
    end the run stops with [TabClosed], as it may at any call outside.
    JavaScript numbers are integers of [Z] where the code keeps them safe
    integers; the faucet's fee rates are IEEE doubles ([SpecFloat]), and 64-bit
    and BigInt values are exact.

    ** Choices and limits

    Strings hold one byte per character. Log lines are left out; error texts
    are kept where they reach a stored record or the user. A background job of
    the relay runs as one step after the request that started it, in any order
    with other jobs and requests; a faucet claim runs as its three parts
    between [await]s; refreshes of the event index run a page at a time, in any
    order; a request of the status and timeline routes runs as one step;
    [Promise.all] runs its members in order. [Date.parse] reads the ISO form the
    code parses and nothing else. The clock is
    constant between external calls. The in-memory stores stand for the sqlite
    ones, which implement the same interfaces; the watcher's tables and the
    archive are modelled as the SQL defines them. In the app, local storage is
    taken to work, one deposit runs at a time on a device, and taking the
    transaction lock and counting it is one step. Amounts and debts are not
    negative.

    In the SDK a contract's value is taken to be of the contract's own type, and
    in the guide a stored text is one this code wrote.

    Not modelled: the components and hooks of the web app and the landing page,
    its translated texts and mock data, the live quote's timers, the lock of
    browsers with Web Locks, the contracts (Rust) except the references written
    out, generated bindings, the sqlite stores and clients of third-party
    services behind the classes above, and the archive's command lines: they hold
    no rule of the protocol that is not in a module above, or are not TypeScript
    of this repository. *)

From stdpp Require Export base list strings gmap relations.
From Stdlib Require Export ZArith Lia.
From Stdlib Require Export Strings.Byte Strings.Ascii.

#[global] Open Scope Z_scope.
#[export] Set Warnings "-clear-no-such-hyp".

(** ** Fallible computations

    A TypeScript function that may throw returns a [result]: [Ok] carries the
    returned value, [Err] the thrown one. *)

Inductive result (E A : Type) : Type :=
| Ok (a : A)
| Err (e : E).
Arguments Ok {E A} a.
Arguments Err {E A} e.

#[global] Instance result_ret {E} : MRet (result E) := λ A a, Ok a.
#[global] Instance result_bind {E} : MBind (result E) := λ A B f m,
  match m with Ok a => f a | Err e => Err e end.
#[global] Instance result_fmap {E} : FMap (result E) := λ A B f m,
  match m with Ok a => Ok (f a) | Err e => Err e end.

#[global] Instance result_eq_dec {E A} `{EqDecision E, EqDecision A} :
  EqDecision (result E A).
Proof. solve_decision. Defined.

(** [if (!c) throw e] *)
Definition ensure {E} (c : bool) (e : E) : result E () :=
  if c then Ok () else Err e.

(** [x ?? throw e], for a value the code has just tested. *)
Definition of_option {E A} (o : option A) (e : E) : result E A :=
  match o with Some a => Ok a | None => Err e end.

Definition is_ok {E A} (r : result E A) : bool :=
  match r with Ok _ => true | Err _ => false end.

(** [r2] returns whatever [r1] returns: a computation that succeeded keeps its
    result. Used for parsers on a longer buffer and loops with more fuel. *)
Definition extends {E A} (r1 r2 : result E A) : Prop := ∀ a, r1 = Ok a → r2 = Ok a.

Lemma extends_refl {E A} (r : result E A) : extends r r.
Proof. intros a H. exact H. Qed.

Lemma extends_bind {E A B} (m m' : result E A) (f f' : A → result E B) :
  extends m m' → (∀ a, extends (f a) (f' a)) → extends (m ≫= f) (m' ≫= f').
Proof.
  intros Hm Hf b. unfold mbind, result_bind. destruct m as [a|e]; [|discriminate].
  rewrite (Hm a eq_refl). apply Hf.
Qed.

Lemma bind_ok {E A B} (m : result E A) (f : A → result E B) b :
  m ≫= f = Ok b ↔ ∃ a, m = Ok a ∧ f a = Ok b.
Proof. destruct m; cbn; split; [eauto|by intros (? & [= <-] & ?)|done|by intros (? & ? & ?)]. Qed.

Lemma of_option_ok {E A} (o : option A) (e : E) a : of_option o e = Ok a ↔ o = Some a.
Proof. destruct o; cbn; split; congruence. Qed.

(** ** Effectful computations

    An [async] function that reads and writes shared state is a function of
    that state. An exception keeps the state reached when it was thrown, as in
    JavaScript: there is no rollback. *)

Definition io (S E A : Type) : Type := S → result E A * S.

#[global] Instance io_ret {S E} : MRet (io S E) := λ A a s, (Ok a, s).
#[global] Instance io_bind {S E} : MBind (io S E) := λ A B f m s,
  match m s with
  | (Ok a, s') => f a s'
  | (Err e, s') => (Err e, s')
  end.

#[global] Instance io_fmap {S E} : FMap (io S E) := λ A B f m s,
  match m s with
  | (Ok a, s') => (Ok (f a), s')
  | (Err e, s') => (Err e, s')
  end.

Section io.
Context {S E : Type}.

Definition throw {A} (e : E) : io S E A := λ s, (Err e, s).
Definition gets {A} (f : S → A) : io S E A := λ s, (Ok (f s), s).
Definition modify (f : S → S) : io S E () := λ s, (Ok (), f s).
Definition lift {A} (r : result E A) : io S E A := λ s, (r, s).

(** [try { m } catch (e) { h(e) }] *)
Definition try_catch {A} (m : io S E A) (h : E → io S E A) : io S E A := λ s,
  match m s with
  | (Ok a, s') => (Ok a, s')
  | (Err e, s') => h e s'
  end.

(** The same, when the handler's exceptions are of another type. *)
Definition handle {E' A} (m : io S E' A) (h : E' → io S E A) : io S E A := λ s,
  match m s with
  | (Ok a, s') => (Ok a, s')
  | (Err e, s') => h e s'
  end.

(** [const r = settle(m)]: the outcome as a value ([Promise.allSettled]). *)
Definition settle {A} (m : io S E A) : io S E (result E A) := λ s,
  let '(r, s') := m s in (Ok r, s').
End io.

(** ** Automation *)

(** Splits the next [match] or bind of a hypothesis or the goal, keeping the
    equation, and discards the impossible branches. *)
Ltac split_match :=
  match goal with
  | H : context [match ?x with _ => _ end] |- _ =>
      lazymatch x with context [match _ with _ => _ end] => fail | _ => idtac end;
      destruct x eqn:?; simplify_eq/=
  | |- context [match ?x with _ => _ end] =>
      lazymatch x with context [match _ with _ => _ end] => fail | _ => idtac end;
      destruct x eqn:?; simplify_eq/=
  end.

(** The same on one hypothesis only. *)
Ltac split_in H :=
  repeat (match type of H with context [match ?x with _ => _ end] =>
    lazymatch x with
    | context [match _ with _ => _ end] => fail
    | _ => destruct x eqn:?; simplify_eq/=
    end
  end).

(** Turns the boolean tests of a hypothesis into propositions. *)
Ltac bools :=
  repeat match goal with
  | H : (_ && _)%bool = true |- _ => apply andb_true_iff in H; destruct H
  | H : (_ || _)%bool = false |- _ => apply orb_false_iff in H; destruct H
  | H : negb _ = true |- _ => apply negb_true_iff in H
  | H : negb _ = false |- _ => apply negb_false_iff in H
  | H : (_ <? _) = true |- _ => apply Z.ltb_lt in H
  | H : (_ <? _) = false |- _ => apply Z.ltb_ge in H
  | H : (_ <=? _) = true |- _ => apply Z.leb_le in H
  | H : (_ <=? _) = false |- _ => apply Z.leb_gt in H
  | H : (_ =? _) = true |- _ => apply Z.eqb_eq in H
  | H : (_ =? _) = false |- _ => apply Z.eqb_neq in H
  | H : bool_decide _ = true |- _ => apply bool_decide_eq_true in H
  | H : bool_decide _ = false |- _ => apply bool_decide_eq_false in H
  end.

Create HintDb writz.
#[export] Hint Resolve extends_refl : writz.
#[export] Hint Resolve extends_bind : writz.

(** ** What an effectful computation may do to the state

    [preserves R m]: wherever [m] starts and however it ends (a value or an
    exception), the state it leaves is [R]-related to the one it found. With
    [R] a frame ("only this record changed") or an invariant ("[I] before
    implies [I] after") the rules below lift it through the control flow. *)

Definition preserves {S E A} (R : S → S → Prop) (m : io S E A) : Prop := ∀ s, R s (m s).2.

(** The relation "whatever [I] held of before, it holds of after". *)
Definition keeps {S} (I : S → Prop) : S → S → Prop := λ s s', I s → I s'.

#[export] Instance keeps_preorder {S} (I : S → Prop) : PreOrder (keeps I).
Proof. split; unfold keeps; [intros s|intros s1 s2 s3]; auto. Qed.

Section preserves.
Context {S E : Type} (R : S → S → Prop) `{!PreOrder R}.

Lemma preserves_ret {A} (a : A) : preserves R (mret a : io S E A).
Proof. intros s. reflexivity. Qed.

Lemma preserves_bind {A B} (m : io S E A) (f : A → io S E B) :
  preserves R m → (∀ a, preserves R (f a)) → preserves R (m ≫= f).
Proof.
  intros Hm Hf s. unfold mbind, io_bind. specialize (Hm s).
  destruct (m s) as [[a|e] s']; simpl in *; [|done]. etrans; [exact Hm|apply Hf].
Qed.

Lemma preserves_throw {A} (e : E) : preserves R (throw e : io S E A).
Proof. intros s. reflexivity. Qed.

Lemma preserves_gets {A} (f : S → A) : preserves R (gets f : io S E A).
Proof. intros s. reflexivity. Qed.

Lemma preserves_lift {A} (r : result E A) : preserves R (lift r).
Proof. intros s. reflexivity. Qed.

Lemma preserves_modify (f : S → S) : (∀ s, R s (f s)) → preserves R (modify f : io S E ()).
Proof. intros H s. apply H. Qed.

Lemma preserves_try_catch {A} (m : io S E A) (h : E → io S E A) :
  preserves R m → (∀ e, preserves R (h e)) → preserves R (try_catch m h).
Proof.
  intros Hm Hh s. unfold try_catch. specialize (Hm s).
  destruct (m s) as [[a|e] s']; simpl in *; [done|]. etrans; [exact Hm|apply Hh].
Qed.

Lemma preserves_handle {E' A} (m : io S E' A) (h : E' → io S E A) :
  preserves R m → (∀ e, preserves R (h e)) → preserves R (handle m h).
Proof.
  intros Hm Hh s. unfold handle. specialize (Hm s).
  destruct (m s) as [[a|e] s']; simpl in *; [done|]. etrans; [exact Hm|apply Hh].
Qed.

Lemma preserves_settle {A} (m : io S E A) : preserves R m → preserves R (settle m).
Proof. intros Hm s. unfold settle. specialize (Hm s). by destruct (m s). Qed.
End preserves.

Create HintDb preserves.
#[export] Hint Extern 0 (PreOrder _) => typeclasses eauto : preserves.
#[export] Hint Resolve preserves_ret preserves_throw preserves_gets preserves_lift : preserves.

(** Walks through the control flow of a computation; what is left are the
    calls of the component, which its own lemmas in [preserves] close. *)
Ltac preserve :=
  repeat first
    [ solve [eauto 2 with preserves]
    | match goal with
      | |- preserves _ (_ ≫= _) => apply preserves_bind; [typeclasses eauto| |intros ?]
      | |- preserves _ (try_catch _ _) =>
          apply preserves_try_catch; [typeclasses eauto| |intros ?]
      | |- preserves _ (handle _ _) =>
          apply preserves_handle; [typeclasses eauto| |intros ?]
      | |- preserves _ (settle _) => apply preserves_settle
      | |- preserves _ (let _ := _ in _) => cbv zeta
      | |- preserves _ (if ?b then _ else _) => destruct b eqn:?
      | |- preserves _ (match ?x with _ => _ end) => destruct x eqn:?
      end ].

(** ** Generic lemmas on lists and integers *)

Lemma take_app_exact {A} (l1 l2 : list A) n :
  n = length l1 → take n (l1 ++ l2) = l1.
Proof. intros ->. apply take_app_length. Qed.

Lemma drop_app_exact {A} (l1 l2 : list A) n :
  n = length l1 → drop n (l1 ++ l2) = l2.
Proof. intros ->. apply drop_app_length. Qed.

Definition sumZ (l : list Z) : Z := foldr Z.add 0 l.

Lemma sumZ_app l1 l2 : sumZ (l1 ++ l2) = sumZ l1 + sumZ l2.
Proof. unfold sumZ. induction l1 as [|x l1 IH]; simpl; [done|]. rewrite IH. lia. Qed.

(** A JavaScript [reduce((s, x) => s + f(x), 0)] is [sumZ]. *)
Lemma foldl_sumZ {A} (f : A → Z) l s :
  foldl (λ acc x, acc + f x) s l = s + sumZ (map f l).
Proof.
  revert s. induction l as [|x l IH]; intros s; simpl; [lia|].
  rewrite IH. unfold sumZ. simpl. lia.
Qed.

(** The consecutive integers [a, a+1, ..., a+n-1]. *)
Fixpoint zrange (a : Z) (n : nat) : list Z :=
  match n with
  | O => []
  | S n => a :: zrange (a + 1) n
  end.

Lemma zrange_length a n : length (zrange a n) = n.
Proof. revert a. induction n; intros a; simpl; auto. Qed.

Lemma zrange_app a n m : zrange a (n + m) = zrange a n ++ zrange (a + Z.of_nat n) m.
Proof.
  revert a. induction n as [|n IH]; intros a; simpl; [f_equal; lia|].
  rewrite IH. f_equal. f_equal. f_equal. lia.
Qed.

Lemma elem_of_zrange a n x : x ∈ zrange a n ↔ a ≤ x < a + Z.of_nat n.
Proof.
  revert a. induction n as [|n IH]; intros a; simpl.
  - split; [intros H; inversion H | lia].
  - rewrite elem_of_cons, IH. lia.
Qed.

Lemma zrange_prefix l1 l2 a n :
  l1 ++ l2 = zrange a n → l1 = zrange a (length l1) ∧ (length l1 ≤ n)%nat.
Proof.
  intros H. assert (Hn : n = (length l1 + length l2)%nat)
    by (rewrite <- (zrange_length a n), <- H, length_app; done).
  rewrite Hn, zrange_app in H. apply app_inj_1 in H as [H _]; [|by rewrite zrange_length].
  split; [done|lia].
Qed.

(** A boolean property of every integer of a range, by computation. *)
Lemma zrange_forallb (p : Z → bool) a n :
  forallb p (zrange a n) = true → ∀ z, a ≤ z < a + Z.of_nat n → p z = true.
Proof.
  intros H z Hz. rewrite forallb_forall in H. apply H.
  apply list_elem_of_In, elem_of_zrange. done.
Qed.

(** [Math.ceil(a / b)] for a positive [b]. *)
Definition ceil_div (a b : Z) : Z := - ((- a) / b).

Lemma ceil_div_spec a b : 0 < b → a ≤ b * ceil_div a b < a + b.
Proof. intros Hb. unfold ceil_div. pose proof (Z.div_mod (- a) b). pose proof (Z.mod_pos_bound (- a) b). lia. Qed.

(** The length of an array, as the JavaScript number it is. *)
Definition zlen {A} (l : list A) : Z := Z.of_nat (length l).

Lemma zlen_nonneg {A} (l : list A) : 0 ≤ zlen l.
Proof. unfold zlen. lia. Qed.

Lemma zlen_app {A} (l1 l2 : list A) : zlen (l1 ++ l2) = zlen l1 + zlen l2.
Proof. unfold zlen. rewrite length_app. lia. Qed.

(** How many elements of a list pass a test. *)
Definition count_if {A} (p : A → bool) (l : list A) : Z := zlen (filter (λ x, p x = true) l).

Lemma count_if_snoc {A} (p : A → bool) l x : count_if p (l ++ [x]) = count_if p l + if p x then 1 else 0.
Proof. unfold count_if. rewrite filter_app, filter_cons, filter_nil, zlen_app. by destruct (p x). Qed.

Lemma count_if_perm {A} (p : A → bool) l1 l2 : l1 ≡ₚ l2 → count_if p l1 = count_if p l2.
Proof. intros H. unfold count_if, zlen. by rewrite H. Qed.

Lemma count_if_nonneg {A} (p : A → bool) l : 0 ≤ count_if p l.
Proof. unfold count_if, zlen. lia. Qed.

Lemma count_if_ext {A} (p q : A → bool) l : (∀ x, x ∈ l → p x = q x) → count_if p l = count_if q l.
Proof.
  intros H. unfold count_if. f_equal. induction l as [|x l IH]; [done|]. rewrite !filter_cons.
  rewrite (H x) by left. rewrite IH by (intros; apply H; by right). done.
Qed.


Lemma zlen_cons {A} (x : A) l : zlen (x :: l) = 1 + zlen l.
Proof. unfold zlen. simpl. lia. Qed.

Lemma zlen_one {A} (l : list A) : zlen l = 1 ↔ ∃ x, l = [x].
Proof.
  unfold zlen. destruct l as [|x [|y l]]; simpl; split; intros Hl; try lia; eauto;
    by destruct Hl.
Qed.

#[export] Hint Resolve zlen_nonneg zrange_length : writz.
Arguments zlen : simpl never.
