(* ===== verification/JsData.v ===== *)
(** * JavaScript data: bytes, buffers, hex and decimal strings

    The part of the language and of Node's [Buffer] the relayer's code relies
    on. A [Buffer] is a [list byte]; a [string] holds one byte per character,
    which is what the code's hex, base64, decimal and bech32 strings are. *)

From S2P Require Import Prelude.

#[global] Instance byte_eq_dec : EqDecision byte := Byte.byte_eq_dec.

(** ** Bytes as integers *)

Definition b2z (b : byte) : Z := Z.of_N (Byte.to_N b).

(** The byte [z & 0xff]. *)
Definition z2b (z : Z) : byte :=
  match Byte.of_N (Z.to_N (z mod 256)) with Some b => b | None => x00 end.

Lemma b2z_range b : 0 ≤ b2z b < 256.
Proof.
  unfold b2z. pose proof (Byte.to_N_bounded b). lia.
Qed.

Lemma b2z_z2b z : b2z (z2b z) = z mod 256.
Proof.
  unfold b2z, z2b. pose proof (Z.mod_pos_bound z 256 ltac:(lia)) as Hb.
  destruct (Byte.of_N (Z.to_N (z mod 256))) as [b|] eqn:E.
  - apply Byte.to_of_N in E. rewrite E. lia.
  - apply Byte.of_N_None_iff in E. lia.
Qed.

Lemma z2b_b2z b : z2b (b2z b) = b.
Proof.
  unfold z2b. rewrite Z.mod_small by apply b2z_range.
  unfold b2z. rewrite N2Z.id, Byte.of_to_N. done.
Qed.

Lemma b2z_inj b1 b2 : b2z b1 = b2z b2 → b1 = b2.
Proof. intros H. rewrite <- (z2b_b2z b1), H. apply z2b_b2z. Qed.

Ltac byte_range :=
  repeat match goal with
  | b : byte |- _ => lazymatch goal with
      | _ : 0 ≤ b2z b < 256 |- _ => fail
      | _ => pose proof (b2z_range b) end
  end.

(** ** Fixed-width integers in a buffer *)

Fixpoint le_val (bs : list byte) : Z :=
  match bs with
  | [] => 0
  | b :: bs => b2z b + 256 * le_val bs
  end.

Fixpoint le_bytes (n : nat) (z : Z) : list byte :=
  match n with
  | O => []
  | S n => z2b z :: le_bytes n (z / 256)
  end.

Definition be_val (bs : list byte) : Z := le_val (rev bs).
Definition be_bytes (n : nat) (z : Z) : list byte := rev (le_bytes n z).

Lemma le_bytes_length n z : length (le_bytes n z) = n.
Proof. revert z. induction n; intros z; simpl; auto. Qed.

Lemma be_bytes_length n z : length (be_bytes n z) = n.
Proof. unfold be_bytes. rewrite length_rev. apply le_bytes_length. Qed.

Lemma le_val_range bs : 0 ≤ le_val bs < 256 ^ zlen bs.
Proof.
  induction bs as [|b bs IH]; [done|].
  rewrite zlen_cons, Z.pow_add_r by (pose proof (zlen_nonneg bs); lia).
  simpl. byte_range. lia.
Qed.

Lemma le_val_bytes n z : le_val (le_bytes n z) = z mod 256 ^ Z.of_nat n.
Proof.
  revert z. induction n as [|n IH]; intros z; simpl le_bytes.
  - simpl. rewrite Z.mod_1_r. done.
  - cbn [le_val]. rewrite IH, b2z_z2b.
    replace (Z.of_nat (S n)) with (1 + Z.of_nat n) by lia.
    rewrite Z.pow_add_r, Z.pow_1_r by lia.
    rewrite Z.rem_mul_r by lia. lia.
Qed.

Lemma le_bytes_val bs : le_bytes (length bs) (le_val bs) = bs.
Proof.
  induction bs as [|b bs IH]; [done|]. cbn [length le_bytes le_val].
  pose proof (b2z_range b). f_equal.
  - apply b2z_inj. rewrite b2z_z2b.
    replace (b2z b + 256 * le_val bs) with (b2z b + le_val bs * 256) by lia.
    rewrite Z_mod_plus_full. apply Z.mod_small. lia.
  - replace (b2z b + 256 * le_val bs) with (b2z b + le_val bs * 256) by lia.
    rewrite Z.div_add by lia. rewrite (Z.div_small (b2z b)) by lia. apply IH.
Qed.

Lemma be_val_bytes n z : be_val (be_bytes n z) = z mod 256 ^ Z.of_nat n.
Proof. unfold be_val, be_bytes. rewrite rev_involutive. apply le_val_bytes. Qed.

Lemma be_val_range bs : 0 ≤ be_val bs < 256 ^ zlen bs.
Proof. unfold be_val, zlen. rewrite <- (length_rev bs). apply le_val_range. Qed.

Lemma be_bytes_val bs : be_bytes (length bs) (be_val bs) = bs.
Proof.
  unfold be_val, be_bytes. rewrite <- (length_rev bs), le_bytes_val.
  apply rev_involutive.
Qed.

(** ** Buffer access *)

(** [buf[i]]: [undefined] out of range. *)
Definition at_ {A} (l : list A) (i : Z) : option A :=
  if i <? 0 then None else l !! Z.to_nat i.

(** [buf.subarray(start, end)]: both ends clamped, negative ones counted from
    the end of the buffer, never an error. *)
Definition clamp_index (n i : Z) : Z :=
  if i <? 0 then Z.max 0 (n + i) else Z.min i n.

Definition subarray {A} (l : list A) (s e : Z) : list A :=
  let s' := clamp_index (zlen l) s in
  let e' := clamp_index (zlen l) e in
  take (Z.to_nat (e' - s')) (drop (Z.to_nat s') l).

(** [buf.readUIntLE]/[readUIntBE] of [n] bytes: throws out of range. *)
Definition read_bytes (n : nat) (buf : list byte) (off : Z) : option (list byte) :=
  if (0 <=? off) && (off + Z.of_nat n <=? zlen buf)
  then Some (take n (drop (Z.to_nat off) buf)) else None.

Definition readUIntLE (n : nat) (buf : list byte) (off : Z) : option Z :=
  le_val <$> read_bytes n buf off.
Definition readUIntBE (n : nat) (buf : list byte) (off : Z) : option Z :=
  be_val <$> read_bytes n buf off.

Lemma at_app_r {A} (pre : list A) x post : at_ (pre ++ x :: post) (zlen pre) = Some x.
Proof.
  unfold at_, zlen. destruct (Z.of_nat (length pre) <? 0) eqn:E; [bools; lia|].
  rewrite Nat2Z.id. apply list_lookup_middle. done.
Qed.

Lemma at_none_ge {A} (l : list A) i : zlen l ≤ i → at_ l i = None.
Proof.
  unfold at_, zlen. intros. destruct (i <? 0); [done|].
  apply lookup_ge_None. lia.
Qed.

Lemma read_bytes_app pre mid post :
  read_bytes (length mid) (pre ++ mid ++ post) (zlen pre) = Some mid.
Proof.
  unfold read_bytes. rewrite !zlen_app. pose proof (zlen_nonneg post).
  pose proof (zlen_nonneg pre). fold (zlen mid).
  destruct ((0 <=? zlen pre) && (zlen pre + zlen mid <=? zlen pre + (zlen mid + zlen post))) eqn:E.
  - unfold zlen. rewrite Nat2Z.id, drop_app_length, take_app_length. done.
  - exfalso. apply andb_false_iff in E as [E|E]; bools; lia.
Qed.

Lemma readUIntLE_app n pre z post :
  0 ≤ z < 256 ^ Z.of_nat n →
  readUIntLE n (pre ++ le_bytes n z ++ post) (zlen pre) = Some z.
Proof.
  intros Hz. unfold readUIntLE.
  rewrite <- (le_bytes_length n z) at 1. rewrite read_bytes_app. simpl.
  rewrite le_val_bytes, Z.mod_small by done. done.
Qed.

Lemma readUIntBE_app n pre z post :
  0 ≤ z < 256 ^ Z.of_nat n →
  readUIntBE n (pre ++ be_bytes n z ++ post) (zlen pre) = Some z.
Proof.
  intros Hz. unfold readUIntBE.
  rewrite <- (be_bytes_length n z) at 1. rewrite read_bytes_app. simpl.
  rewrite be_val_bytes, Z.mod_small by done. done.
Qed.

Lemma subarray_app {A} (pre mid post : list A) e :
  e = zlen pre + zlen mid → subarray (pre ++ mid ++ post) (zlen pre) e = mid.
Proof.
  intros ->. unfold subarray, clamp_index. rewrite !zlen_app.
  pose proof (zlen_nonneg pre). pose proof (zlen_nonneg mid). pose proof (zlen_nonneg post).
  destruct (zlen pre <? 0) eqn:E1; [bools; lia|].
  destruct (zlen pre + zlen mid <? 0) eqn:E2; [bools; lia|].
  rewrite !Z.min_l by lia.
  rewrite (drop_app_exact pre) by (unfold zlen; lia).
  apply take_app_exact. unfold zlen. lia.
Qed.

(** ** The bytes at an offset

    [holds_at buf i bs]: the buffer holds [bs] from offset [i] on. Parsers are
    proved against it: each read consumes the front of what is held. *)
Definition holds_at (buf : list byte) (i : Z) (bs : list byte) : Prop :=
  ∃ pre post, buf = pre ++ bs ++ post ∧ i = zlen pre.

Lemma holds_at_start bs post : holds_at (bs ++ post) 0 bs.
Proof. exists [], post. done. Qed.

Lemma holds_at_app buf i bs1 bs2 :
  holds_at buf i (bs1 ++ bs2) → holds_at buf i bs1 ∧ holds_at buf (i + zlen bs1) bs2.
Proof.
  intros (pre & post & -> & ->). split.
  - exists pre, (bs2 ++ post). by rewrite <- !app_assoc.
  - exists (pre ++ bs1), post. rewrite zlen_app, <- !app_assoc. done.
Qed.

Lemma holds_at_cons buf i b bs :
  holds_at buf i (b :: bs) → holds_at buf i [b] ∧ holds_at buf (i + 1) bs.
Proof. apply (holds_at_app buf i [b]). Qed.

Lemma holds_at_bound buf i bs : holds_at buf i bs → 0 ≤ i ∧ i + zlen bs ≤ zlen buf.
Proof.
  intros (pre & post & -> & ->). rewrite !zlen_app.
  pose proof (zlen_nonneg pre). pose proof (zlen_nonneg post). lia.
Qed.

Lemma at_holds buf i b : holds_at buf i [b] → at_ buf i = Some b.
Proof. intros (pre & post & -> & ->). apply at_app_r. Qed.

Lemma subarray_holds buf i bs e :
  holds_at buf i bs → e = i + zlen bs → subarray buf i e = bs.
Proof. intros (pre & post & -> & ->) ->. by apply subarray_app. Qed.

Lemma readUIntLE_holds n buf i z :
  holds_at buf i (le_bytes n z) → 0 ≤ z < 256 ^ Z.of_nat n → readUIntLE n buf i = Some z.
Proof. intros (pre & post & -> & ->) ?. by apply readUIntLE_app. Qed.

Lemma readUIntBE_holds n buf i z :
  holds_at buf i (be_bytes n z) → 0 ≤ z < 256 ^ Z.of_nat n → readUIntBE n buf i = Some z.
Proof. intros (pre & post & -> & ->) ?. by apply readUIntBE_app. Qed.

(** Splits every [holds_at] hypothesis on a concatenation. *)
Ltac split_holds :=
  repeat match goal with
  | H : holds_at _ _ (_ ++ _) |- _ => apply holds_at_app in H as [? ?]
  end.

(** ** Strings as lists of characters *)

Abbreviation chars := Stdlib.Strings.String.list_ascii_of_string.
Abbreviation of_chars := Stdlib.Strings.String.string_of_list_ascii.

Definition slen (s : string) : Z := Z.of_nat (String.length s).

Lemma chars_length s : length (chars s) = String.length s.
Proof. induction s; simpl; auto. Qed.

Lemma of_chars_chars s : of_chars (chars s) = s.
Proof. apply Stdlib.Strings.String.string_of_list_ascii_of_string. Qed.

Lemma chars_of_chars cs : chars (of_chars cs) = cs.
Proof. apply Stdlib.Strings.String.list_ascii_of_string_of_list_ascii. Qed.

Lemma chars_inj s1 s2 : chars s1 = chars s2 → s1 = s2.
Proof. intros H. rewrite <- (of_chars_chars s1), H. apply of_chars_chars. Qed.

Lemma chars_app s1 s2 : chars (s1 +:+ s2) = chars s1 ++ chars s2.
Proof.
  induction s1 as [|c s1 IH]; [done|].
  change (c :: chars (s1 +:+ s2) = c :: (chars s1 ++ chars s2)). by rewrite IH.
Qed.

Definition string_forall (p : ascii → bool) (s : string) : bool := forallb p (chars s).

Definition ascii_z (c : ascii) : Z := Z.of_N (N_of_ascii c).

Definition in_range (lo hi : ascii) (c : ascii) : bool :=
  (ascii_z lo <=? ascii_z c) && (ascii_z c <=? ascii_z hi).

(** [s.toLowerCase()] and [s.toUpperCase()] on ASCII. *)
Definition char_lower (c : ascii) : ascii :=
  if in_range "A" "Z" c then ascii_of_N (N_of_ascii c + 32) else c.
Definition char_upper (c : ascii) : ascii :=
  if in_range "a" "z" c then ascii_of_N (N_of_ascii c - 32) else c.
Definition toLowerCase (s : string) : string := of_chars (map char_lower (chars s)).
Definition toUpperCase (s : string) : string := of_chars (map char_upper (chars s)).

(** [s.trim()]: the ASCII white space characters. *)
Definition is_space (c : ascii) : bool :=
  match ascii_z c with
  | 9 | 10 | 11 | 12 | 13 | 32 => true
  | _ => false
  end.
Fixpoint drop_spaces (cs : list ascii) : list ascii :=
  match cs with
  | c :: cs' => if is_space c then drop_spaces cs' else cs
  | [] => []
  end.
Definition trim (s : string) : string :=
  of_chars (rev (drop_spaces (rev (drop_spaces (chars s))))).

Lemma toLowerCase_length s : String.length (toLowerCase s) = String.length s.
Proof.
  unfold toLowerCase. rewrite <- (chars_length s), <- chars_length.
  rewrite Stdlib.Strings.String.list_ascii_of_string_of_list_ascii, length_map. done.
Qed.

(** ** Hexadecimal *)

Definition hex_digit (z : Z) : ascii :=
  ascii_of_N (Z.to_N (if z <? 10 then 48 + z else 87 + z)).

Definition hex_value (c : ascii) : option Z :=
  let z := ascii_z c in
  if in_range "0" "9" c then Some (z - 48)
  else if in_range "a" "f" c then Some (z - 87)
  else if in_range "A" "F" c then Some (z - 55)
  else None.

(** [/^[0-9a-fA-F]*$/] and [/^[0-9a-f]*$/] *)
Definition is_hex_char (c : ascii) : bool := bool_decide (is_Some (hex_value c)).
Definition is_lower_hex_char (c : ascii) : bool := in_range "0" "9" c || in_range "a" "f" c.

Fixpoint hex_chars (bs : list byte) : list ascii :=
  match bs with
  | [] => []
  | b :: bs => hex_digit (b2z b / 16) :: hex_digit (b2z b mod 16) :: hex_chars bs
  end.

(** [Buffer.from(s, "hex")] stops at the first pair that is not two hex
    digits, and drops an odd last character. *)
Fixpoint unhex_chars (cs : list ascii) : list byte :=
  match cs with
  | c1 :: c2 :: cs =>
      match hex_value c1, hex_value c2 with
      | Some a, Some b => z2b (16 * a + b) :: unhex_chars cs
      | _, _ => []
      end
  | _ => []
  end.

(** [buf.toString("hex")] and [Buffer.from(s, "hex")] *)
Definition to_hex (bs : list byte) : string := of_chars (hex_chars bs).
Definition from_hex (s : string) : list byte := unhex_chars (chars s).

Lemma ascii_z_of_N n : 0 ≤ n < 256 → ascii_z (ascii_of_N (Z.to_N n)) = n.
Proof. intros H. unfold ascii_z. rewrite N_ascii_embedding by lia. lia. Qed.

Lemma hex_value_digit z : 0 ≤ z < 16 → hex_value (hex_digit z) = Some z.
Proof.
  intros H. refine (proj1 (bool_decide_eq_true _) _). revert z H.
  apply (zrange_forallb (λ z, bool_decide (hex_value (hex_digit z) = Some z)) 0 16).
  vm_compute. reflexivity.
Qed.

Lemma unhex_hex_chars bs rest :
  unhex_chars (hex_chars bs ++ rest) = bs ++ unhex_chars rest.
Proof.
  induction bs as [|b bs IH]; [done|]. cbn [hex_chars app unhex_chars].
  pose proof (b2z_range b).
  rewrite (hex_value_digit (b2z b / 16)), (hex_value_digit (b2z b mod 16)).
  2: apply Z.mod_pos_bound; lia.
  2: split; [apply Z.div_pos | apply Z.div_lt_upper_bound]; lia.
  rewrite IH, <- Z.div_mod by lia. by rewrite z2b_b2z.
Qed.

Lemma from_to_hex bs : from_hex (to_hex bs) = bs.
Proof.
  unfold from_hex, to_hex. rewrite chars_of_chars.
  rewrite <- (app_nil_r (hex_chars bs)), unhex_hex_chars. apply app_nil_r.
Qed.

Lemma to_hex_inj bs1 bs2 : to_hex bs1 = to_hex bs2 → bs1 = bs2.
Proof. intros H. rewrite <- (from_to_hex bs1), H. apply from_to_hex. Qed.

Lemma hex_chars_length bs : length (hex_chars bs) = (2 * length bs)%nat.
Proof. induction bs; simpl; lia. Qed.

Lemma hex_chars_app bs1 bs2 : hex_chars (bs1 ++ bs2) = hex_chars bs1 ++ hex_chars bs2.
Proof. induction bs1; simpl; [done|]. congruence. Qed.

Lemma hex_digit_value c :
  is_lower_hex_char c = true →
  ∃ z, hex_value c = Some z ∧ 0 ≤ z < 16 ∧ hex_digit z = c.
Proof.
  intros H.
  assert (Hc : c = ascii_of_N (Z.to_N (ascii_z c))).
  { unfold ascii_z. rewrite N2Z.id. symmetry. apply ascii_N_embedding. }
  assert (Hr : 0 ≤ ascii_z c < 256).
  { unfold ascii_z. pose proof (N_ascii_bounded c). lia. }
  set (ok := λ n, let c := ascii_of_N (Z.to_N n) in
    negb (is_lower_hex_char c) || match hex_value c with
      | Some z => (0 <=? z) && (z <? 16) && bool_decide (hex_digit z = c)
      | None => false end).
  assert (Hok : ok (ascii_z c) = true).
  { revert Hr. generalize (ascii_z c). apply (zrange_forallb ok 0 256).
    vm_compute. reflexivity. }
  unfold ok in Hok. rewrite <- Hc, H in Hok. simpl in Hok.
  destruct (hex_value c) as [z|]; [|done]. bools. eauto.
Qed.

(** A hex string of even length is the encoding of the bytes it decodes to. *)
Lemma hex_unhex_chars cs :
  Nat.Even (length cs) → forallb is_lower_hex_char cs = true →
  hex_chars (unhex_chars cs) = cs.
Proof.
  revert cs. fix IH 1. intros [|c1 [|c2 cs]] Hev Hall; [done|destruct Hev as [k Hk]; simpl in Hk; lia|].
  simpl in Hall. bools.
  destruct (hex_digit_value c1) as (z1 & E1 & ? & D1); [done|].
  destruct (hex_digit_value c2) as (z2 & E2 & ? & D2); [done|].
  cbn [unhex_chars]. rewrite E1, E2. cbn [hex_chars].
  rewrite b2z_z2b, Z.mod_small by lia.
  rewrite IH; [| destruct Hev as [k Hk]; exists (k - 1)%nat; simpl in Hk; lia | done].
  replace ((16 * z1 + z2) / 16) with z1 by (apply (Z.div_unique _ _ _ z2); lia).
  replace ((16 * z1 + z2) mod 16) with z2 by (apply (Z.mod_unique _ _ z1); lia).
  congruence.
Qed.

Lemma to_from_hex s :
  Nat.Even (String.length s) → string_forall is_lower_hex_char s = true →
  to_hex (from_hex s) = s.
Proof.
  intros. apply chars_inj. unfold to_hex, from_hex. rewrite chars_of_chars.
  apply hex_unhex_chars; [|done]. by rewrite chars_length.
Qed.

(** ** Decimal *)

Definition dec_digit (z : Z) : ascii := ascii_of_N (Z.to_N (48 + z)).
Definition is_digit (c : ascii) : bool := in_range "0" "9" c.
Definition digit_value (c : ascii) : Z := ascii_z c - 48.

Fixpoint dec_chars_fuel (fuel : nat) (n : Z) : list ascii :=
  match fuel with
  | O => []
  | S fuel =>
      if n <? 10 then [dec_digit n]
      else dec_chars_fuel fuel (n / 10) ++ [dec_digit (n mod 10)]
  end.

(** The decimal digits of a non-negative integer; a number has at most as many
    decimal digits as binary ones, so the fuel is never exhausted. *)
Definition dec_chars (n : Z) : list ascii := dec_chars_fuel (S (Z.to_nat (Z.log2 n))) n.

(** [n.toString()] of an integer. *)
Definition z_to_string (n : Z) : string :=
  of_chars (if n <? 0 then "-"%char :: dec_chars (- n) else dec_chars n).

Definition dec_value (cs : list ascii) : Z :=
  foldl (λ acc c, acc * 10 + digit_value c) 0 cs.

Lemma dec_value_snoc cs c : dec_value (cs ++ [c]) = dec_value cs * 10 + digit_value c.
Proof. unfold dec_value. rewrite foldl_app. done. Qed.

Lemma digit_value_digit z : 0 ≤ z < 10 → digit_value (dec_digit z) = z.
Proof. intros. unfold digit_value, dec_digit. rewrite ascii_z_of_N; lia. Qed.

Lemma is_digit_digit z : 0 ≤ z < 10 → is_digit (dec_digit z) = true.
Proof.
  revert z. apply (zrange_forallb (λ z, is_digit (dec_digit z)) 0 10). reflexivity.
Qed.

Lemma dec_chars_fuel_value fuel n :
  0 ≤ n → n < 2 ^ Z.of_nat fuel → (0 < fuel)%nat →
  dec_value (dec_chars_fuel fuel n) = n ∧ forallb is_digit (dec_chars_fuel fuel n) = true.
Proof.
  revert n. induction fuel as [|fuel IH]; intros n Hn Hlt Hf; [lia|].
  cbn [dec_chars_fuel]. destruct (n <? 10) eqn:E; bools.
  - split; [unfold dec_value; simpl; rewrite digit_value_digit; lia|].
    simpl. rewrite is_digit_digit by lia. done.
  - assert (Hm : 0 ≤ n mod 10 < 10) by (apply Z.mod_pos_bound; lia).
    assert (2 ^ Z.of_nat (S fuel) = 2 * 2 ^ Z.of_nat fuel) as Hpow
      by (rewrite Nat2Z.inj_succ, Z.pow_succ_r; lia).
    destruct (IH (n / 10)) as [IHv IHd].
    + apply Z.div_pos; lia.
    + apply Z.div_lt_upper_bound; lia.
    + destruct fuel; [simpl in *; lia | lia].
    + rewrite dec_value_snoc, IHv, digit_value_digit, forallb_app, IHd by done.
      simpl. rewrite is_digit_digit by done. split; [|done].
      pose proof (Z.div_mod n 10). lia.
Qed.

Lemma dec_chars_spec n :
  0 ≤ n → dec_value (dec_chars n) = n ∧ forallb is_digit (dec_chars n) = true.
Proof.
  intros Hn. apply dec_chars_fuel_value; [done| |lia].
  rewrite Nat2Z.inj_succ, Z2Nat.id by apply Z.log2_nonneg.
  destruct (decide (n = 0)) as [->|]; [done|].
  apply Z.log2_spec. lia.
Qed.

Lemma dec_chars_fuel_length fuel n k :
  0 ≤ n < 10 ^ Z.of_nat k → (0 < k)%nat → (length (dec_chars_fuel fuel n) ≤ k)%nat.
Proof.
  revert n k. induction fuel as [|fuel IH]; intros n k Hn Hk; cbn [dec_chars_fuel]; [simpl; lia|].
  destruct (n <? 10) eqn:E; bools; [simpl; lia|]. rewrite length_app. simpl.
  destruct k as [|k]; [lia|]. rewrite Nat2Z.inj_succ, Z.pow_succ_r in Hn by lia.
  destruct k as [|k]; [simpl in Hn; lia|].
  pose proof (IH (n / 10) (S k)) as H. specialize (H ltac:(split; [apply Z.div_pos; lia|
    apply Z.div_lt_upper_bound; lia]) ltac:(lia)). lia.
Qed.

(** A number below [10 ^ k] has at most [k] digits. *)
Lemma dec_chars_length n k :
  0 ≤ n < 10 ^ Z.of_nat k → (0 < k)%nat → (length (dec_chars n) ≤ k)%nat.
Proof. apply dec_chars_fuel_length. Qed.

(** [s.padStart(n, c)] *)
Definition padStart (n : nat) (c : ascii) (cs : list ascii) : list ascii :=
  replicate (n - length cs) c ++ cs.

Lemma dec_value_zeros k cs : dec_value (replicate k "0"%char ++ cs) = dec_value cs.
Proof.
  unfold dec_value. rewrite foldl_app. f_equal.
  induction k as [|k IH]; [done|]. simpl. apply IH.
Qed.

Lemma padStart_length n c cs : (length cs ≤ n)%nat → length (padStart n c cs) = n.
Proof. intros. unfold padStart. rewrite length_app, length_replicate. lia. Qed.

(** [BigInt(s)]: surrounding white space is ignored, the empty string is 0, a
    [0x], [0o] or [0b] prefix selects the base (and then takes no sign), and
    anything else that is not an optionally signed decimal is a SyntaxError. *)
Definition parse_base (base : Z) (value : ascii → option Z) (cs : list ascii) : option Z :=
  match cs with
  | [] => None
  | _ => foldl (λ acc c, a ← acc; v ← value c; if v <? base then Some (a * base + v) else None)
           (Some 0) cs
  end.

Definition base_prefix (cs : list ascii) : option (Z * list ascii) :=
  match cs with
  | z :: p :: rest =>
      if negb (Ascii.eqb z "0") then None
      else if Ascii.eqb (char_lower p) "x" then Some (16, rest)
      else if Ascii.eqb (char_lower p) "o" then Some (8, rest)
      else if Ascii.eqb (char_lower p) "b" then Some (2, rest)
      else None
  | _ => None
  end.

Definition BigInt_chars (cs : list ascii) : option Z :=
  match base_prefix cs, cs with
  | _, [] => Some 0
  | Some (base, rest), _ => parse_base base hex_value rest
  | None, c :: rest =>
      if Ascii.eqb c "-" then Z.opp <$> parse_base 10 hex_value rest
      else if Ascii.eqb c "+" then parse_base 10 hex_value rest
      else parse_base 10 hex_value cs
  end.

Definition BigInt (s : string) : option Z := BigInt_chars (chars (trim s)).

Example BigInt_examples :
  (BigInt "200000000", BigInt " -12 ", BigInt "0x1f", BigInt "", BigInt "12a", BigInt "-0x1")
  = (Some 200000000, Some (-12), Some 31, Some 0, None, None).
Proof. vm_compute. reflexivity. Qed.

Lemma drop_spaces_id cs : forallb (λ c, negb (is_space c)) cs = true → drop_spaces cs = cs.
Proof. destruct cs as [|c cs]; [done|]. simpl. intros H. bools. by rewrite H. Qed.

Lemma trim_id s : string_forall (λ c, negb (is_space c)) s = true → trim s = s.
Proof.
  intros H. unfold trim, string_forall in *. rewrite (drop_spaces_id (chars s)) by done.
  rewrite drop_spaces_id, rev_involutive, of_chars_chars; [done|].
  rewrite forallb_forall in *. intros c Hc. apply H. by apply in_rev.
Qed.

(** A property of every character, by computation on the 256 of them. *)
Lemma ascii_forallb (p : ascii → bool) :
  forallb (λ n, p (ascii_of_N (Z.to_N n))) (zrange 0 256) = true → ∀ c, p c = true.
Proof.
  intros H c. pose proof (N_ascii_bounded c).
  specialize (zrange_forallb _ _ _ H (Z.of_N (N_of_ascii c)) ltac:(lia)) as Hc.
  simpl in Hc. by rewrite N2Z.id, ascii_N_embedding in Hc.
Qed.

Lemma forallb_weaken {A} (p q : A → bool) l :
  (∀ x, p x = true → q x = true) → forallb p l = true → forallb q l = true.
Proof. intros Hpq. rewrite !forallb_forall. auto. Qed.

Lemma lower_hex_char_facts c :
  is_lower_hex_char c = true →
  is_space c = false ∧ char_lower c = c ∧ is_hex_char c = true.
Proof.
  pose proof (ascii_forallb (λ c, negb (is_lower_hex_char c) ||
    (negb (is_space c) && Ascii.eqb (char_lower c) c && is_hex_char c))) as H.
  specialize (H ltac:(vm_compute; reflexivity) c). simpl in H.
  intros Hc. rewrite Hc in H. simpl in H. bools.
  split_and!; try done. by apply Ascii.eqb_eq.
Qed.

Lemma digit_facts c :
  is_digit c = true →
  is_lower_hex_char c = true ∧ hex_value c = Some (digit_value c) ∧ 0 ≤ digit_value c < 10 ∧
  Ascii.eqb c "-" = false ∧ Ascii.eqb c "+" = false ∧
  Ascii.eqb (char_lower c) "x" = false ∧ Ascii.eqb (char_lower c) "o" = false ∧
  Ascii.eqb (char_lower c) "b" = false.
Proof.
  pose proof (ascii_forallb (λ c, negb (is_digit c) ||
    (is_lower_hex_char c && bool_decide (hex_value c = Some (digit_value c)) &&
     (0 <=? digit_value c) && (digit_value c <? 10) &&
     negb (Ascii.eqb c "-") && negb (Ascii.eqb c "+") && negb (Ascii.eqb (char_lower c) "x") &&
     negb (Ascii.eqb (char_lower c) "o") && negb (Ascii.eqb (char_lower c) "b")))) as H.
  specialize (H ltac:(vm_compute; reflexivity) c). simpl in H.
  intros Hc. rewrite Hc in H. simpl in H. bools. split_and!; done || lia.
Qed.

Lemma toLowerCase_id s : string_forall is_lower_hex_char s = true → toLowerCase s = s.
Proof.
  intros H. unfold toLowerCase. rewrite <- (of_chars_chars s) at 2. f_equal.
  unfold string_forall in H. rewrite forallb_forall in H.
  rewrite <- (map_id (chars s)) at 2. apply map_ext_in. intros c Hc.
  by apply H, lower_hex_char_facts in Hc as (_ & ? & _).
Qed.

Lemma hex_digit_lower z : 0 ≤ z < 16 → is_lower_hex_char (hex_digit z) = true.
Proof. revert z. apply (zrange_forallb (λ z, is_lower_hex_char (hex_digit z)) 0 16). reflexivity. Qed.

Lemma byte_nibbles b : 0 ≤ b2z b / 16 < 16 ∧ 0 ≤ b2z b mod 16 < 16.
Proof.
  pose proof (b2z_range b). split; [split; [apply Z.div_pos|apply Z.div_lt_upper_bound]; lia|].
  apply Z.mod_pos_bound. lia.
Qed.

Lemma hex_chars_lower bs : forallb is_lower_hex_char (hex_chars bs) = true.
Proof.
  induction bs as [|b bs IH]; [done|]. simpl. pose proof (byte_nibbles b) as [? ?].
  by rewrite !hex_digit_lower, IH.
Qed.

(** [be_val] reads the most significant byte first. *)
Lemma le_val_app l1 l2 : le_val (l1 ++ l2) = le_val l1 + 256 ^ zlen l1 * le_val l2.
Proof.
  induction l1 as [|b l1 IH]; [simpl; unfold zlen; simpl; lia|].
  simpl. rewrite IH, zlen_cons, Z.pow_add_r by (pose proof (zlen_nonneg l1); lia). lia.
Qed.

Lemma zlen_rev {A} (l : list A) : zlen (rev l) = zlen l.
Proof. unfold zlen. by rewrite length_rev. Qed.

Lemma be_val_cons b bs : be_val (b :: bs) = b2z b * 256 ^ zlen bs + be_val bs.
Proof. unfold be_val. simpl. rewrite le_val_app, zlen_rev. simpl. lia. Qed.

Lemma parse_hex_chars bs a :
  foldl (λ acc c, a ← acc; v ← hex_value c; if v <? 16 then Some (a * 16 + v) else None)
    (Some a) (hex_chars bs) = Some (a * 256 ^ zlen bs + be_val bs).
Proof.
  revert a. induction bs as [|b bs IH]; intros a.
  - simpl. unfold zlen, be_val. simpl. f_equal. lia.
  - cbn [hex_chars foldl]. pose proof (byte_nibbles b) as [H1 H2].
    rewrite !hex_value_digit by done. cbn [mbind option_bind].
    destruct (b2z b / 16 <? 16) eqn:E1; bools; [|lia]. cbn [mbind option_bind].
    destruct (b2z b mod 16 <? 16) eqn:E2; bools; [|lia].
    rewrite IH, be_val_cons, zlen_cons, Z.pow_add_r by (pose proof (zlen_nonneg bs); lia).
    f_equal. pose proof (Z.div_mod (b2z b) 16 ltac:(lia)). lia.
Qed.

(** [BigInt] of the hex of a non-empty buffer is its big-endian value. *)
Lemma BigInt_hex bs : bs ≠ [] → BigInt ("0x" +:+ to_hex bs) = Some (be_val bs).
Proof.
  intros Hne. unfold BigInt. rewrite trim_id.
  - rewrite chars_app. unfold to_hex. rewrite chars_of_chars. simpl.
    unfold BigInt_chars. simpl. unfold parse_base.
    destruct (hex_chars bs) as [|c cs] eqn:E; [by destruct bs|].
    rewrite <- E, parse_hex_chars. f_equal; lia.
  - unfold string_forall. rewrite chars_app. unfold to_hex. rewrite chars_of_chars. simpl.
    apply (forallb_weaken is_lower_hex_char); [|apply hex_chars_lower].
    intros c Hc. apply negb_true_iff. by apply lower_hex_char_facts in Hc as [? _].
Qed.

Lemma parse_dec_chars cs a :
  forallb is_digit cs = true →
  foldl (λ acc c, a ← acc; v ← hex_value c; if v <? 10 then Some (a * 10 + v) else None)
    (Some a) cs = Some (foldl (λ acc c, acc * 10 + digit_value c) a cs).
Proof.
  revert a. induction cs as [|c cs IH]; intros a H; [done|]. simpl in H. bools.
  apply digit_facts in H as (_ & Hv & Hr & _). simpl. rewrite Hv. simpl.
  destruct (digit_value c <? 10) eqn:E; bools; [|lia]. by apply IH.
Qed.

Lemma BigInt_dec_chars cs :
  cs ≠ [] → forallb is_digit cs = true → BigInt (of_chars cs) = Some (dec_value cs).
Proof.
  intros Hne Hd. unfold BigInt. rewrite trim_id.
  - rewrite chars_of_chars. unfold BigInt_chars.
    assert (base_prefix cs = None) as ->.
    { destruct cs as [|c [|c2 cs]]; [done..|]. simpl in Hd. bools. simpl.
      repeat match goal with Hx : is_digit _ = true |- _ => apply digit_facts in Hx end.
      destruct_and!. destruct (negb _); [done|].
      repeat match goal with Hx : Ascii.eqb (char_lower c2) _ = false |- _ => rewrite Hx; clear Hx end.
      done. }
    destruct cs as [|c cs]; [done|]. pose proof Hd as Hd'. simpl in Hd. bools.
    apply digit_facts in H as (_ & _ & _ & -> & -> & _).
    unfold parse_base. by rewrite parse_dec_chars.
  - unfold string_forall. rewrite chars_of_chars.
    apply (forallb_weaken is_digit); [|done]. intros c Hc.
    apply digit_facts in Hc as [Hc _]. apply lower_hex_char_facts in Hc as [-> _]. done.
Qed.

Lemma dec_chars_nonempty n : dec_chars n ≠ [].
Proof.
  unfold dec_chars. cbn [dec_chars_fuel]. destruct (n <? 10); [done|].
  intros H. apply app_eq_nil in H as [_ H]. done.
Qed.

(** [BigInt(n.toString()) === n] *)
Lemma BigInt_z_to_string n : 0 ≤ n → BigInt (z_to_string n) = Some n.
Proof.
  intros Hn. unfold z_to_string. destruct (n <? 0) eqn:E; bools; [lia|].
  destruct (dec_chars_spec n Hn) as [Hv Hd].
  rewrite BigInt_dec_chars; [by rewrite Hv|apply dec_chars_nonempty|done].
Qed.

(** Whatever its sign. *)
Lemma BigInt_z_to_string_any n : BigInt (z_to_string n) = Some n.
Proof.
  destruct (decide (0 ≤ n)) as [Hn|Hn]; [by apply BigInt_z_to_string|].
  unfold z_to_string. destruct (n <? 0) eqn:E; bools; [|lia].
  destruct (dec_chars_spec (- n)) as [Hv Hd]; [lia|]. unfold BigInt. rewrite trim_id.
  - rewrite chars_of_chars. unfold BigInt_chars. simpl. unfold parse_base.
    destruct (dec_chars (- n)) as [|c cs] eqn:Ed; [by destruct (dec_chars_nonempty (- n))|].
    rewrite <- Ed in *. rewrite parse_dec_chars by done. simpl. f_equal.
    fold (dec_value (dec_chars (- n))). rewrite Hv. lia.
  - unfold string_forall. rewrite chars_of_chars. simpl.
    apply (forallb_weaken is_digit); [|done]. intros c Hc. apply digit_facts in Hc as [Hc _].
    by apply lower_hex_char_facts in Hc as [-> _].
Qed.

Arguments at_ : simpl never.
Arguments subarray : simpl never.
Arguments readUIntLE : simpl never.
Arguments readUIntBE : simpl never.
Arguments b2z : simpl never.
Arguments z2b : simpl never.

(** ** Dates *)

(** The civil date of a day number counted from 1970-01-01 (proleptic
    Gregorian calendar): [Date.prototype.getUTCFullYear] and its companions. *)
Definition civil_of_days (z : Z) : Z * Z * Z :=
  let z := z + 719468 in
  let era := z / 146097 in
  let doe := z mod 146097 in
  let yoe := (doe - doe / 1460 + doe / 36524 - doe / 146096) / 365 in
  let doy := doe - (365 * yoe + yoe / 4 - yoe / 100) in
  let mp := (5 * doy + 2) / 153 in
  let d := doy - (153 * mp + 2) / 5 + 1 in
  let m := if mp <? 10 then mp + 3 else mp - 9 in
  (yoe + era * 400 + (if m <=? 2 then 1 else 0), m, d).

Definition pad (n : nat) (z : Z) : string := of_chars (padStart n "0"%char (dec_chars z)).

Definition DAY_MS : Z := 24 * 60 * 60000.

(** [new Date(t).toISOString()], for years 0 to 9999. *)
Definition toISOString (t : Z) : string :=
  let '(y, m, d) := civil_of_days (t / DAY_MS) in
  let ms := t mod DAY_MS in
  pad 4 y +:+ "-" +:+ pad 2 m +:+ "-" +:+ pad 2 d +:+ "T" +:+
  pad 2 (ms / 3600000) +:+ ":" +:+ pad 2 (ms / 60000 mod 60) +:+ ":" +:+
  pad 2 (ms / 1000 mod 60) +:+ "." +:+ pad 3 (ms mod 1000) +:+ "Z".

Example toISOString_example : toISOString 1700000000123 = "2023-11-14T22:13:20.123Z".
Proof. vm_compute. reflexivity. Qed.

(** [s.endsWith(suffix)] *)
Definition endsWith (suffix s : string) : bool :=
  bool_decide (drop (length (chars s) - length (chars suffix)) (chars s) = chars suffix).

(** ** Substrings *)

(** [s.includes(sub)] *)
Fixpoint includes_chars (sub cs : list ascii) : bool :=
  bool_decide (take (length sub) cs = sub) || match cs with [] => false | _ :: cs => includes_chars sub cs end.
Definition includes (sub s : string) : bool := includes_chars (chars sub) (chars s).

(** ** Truthiness of an optional string *)

(** [if (o)] on an optional string. *)
Definition present (o : option string) : option string :=
  match o with Some s => if bool_decide (s = "") then None else Some s | None => None end.

Lemma present_some o a : present o = Some a ↔ o = Some a ∧ a ≠ "".
Proof. unfold present. destruct o; [case_bool_decide|]; split; intros; naive_solver. Qed.

(** A present, non-empty string: what [if (r.nonce)] tests. *)
Definition truthy (o : option string) : bool :=
  match o with Some s => negb (bool_decide (s = "")) | None => false end.

