(* ===== verification/JsMap.v ===== *)
(** * Insertion-ordered maps and stable sorting

    A JavaScript [Map] iterates its entries in insertion order, and setting a
    key it already has keeps the key's place: an association list with
    distinct keys. [Array.prototype.sort] is stable. Used where the code relies
    on that order: the stores of the relay, the watcher and the faucet, and the
    nonce book. *)

From S2P Require Import Prelude.
From Stdlib Require Import Sorting.Sorted.

Abbreviation jsmap K V := (list (K * V)).

Section jsmap.
Context {K V : Type} `{EqDecision K}.
Implicit Types (m : jsmap K V) (k : K) (v : V).

Fixpoint map_get k m : option V :=
  match m with
  | [] => None
  | (k', v) :: m => if decide (k = k') then Some v else map_get k m
  end.

Definition map_has k m : bool := bool_decide (is_Some (map_get k m)).

Fixpoint map_set k v m : jsmap K V :=
  match m with
  | [] => [(k, v)]
  | (k', v') :: m => if decide (k = k') then (k', v) :: m else (k', v') :: map_set k v m
  end.

Definition map_delete k m : jsmap K V := filter (λ e, e.1 ≠ k) m.

Definition map_keys m : list K := m.*1.
Definition map_values m : list V := m.*2.

(** [m] has one entry per key, as every [Map] has. *)
Definition map_wf m : Prop := NoDup (map_keys m).

Lemma map_get_set k k' v m :
  map_get k' (map_set k v m) = if decide (k' = k) then Some v else map_get k' m.
Proof.
  induction m as [|[k1 v1] m IH]; simpl; [done|].
  destruct (decide (k = k1)) as [->|Hne]; simpl.
  - by destruct (decide (k' = k1)).
  - rewrite IH. destruct (decide (k' = k1)), (decide (k' = k)); congruence.
Qed.

Lemma map_get_set_eq k v m : map_get k (map_set k v m) = Some v.
Proof. rewrite map_get_set. by destruct (decide (k = k)). Qed.

Lemma map_get_set_ne k k' v m : k' ≠ k → map_get k' (map_set k v m) = map_get k' m.
Proof. intros. rewrite map_get_set. by destruct (decide (k' = k)). Qed.

Lemma map_get_delete k k' m :
  map_get k' (map_delete k m) = if decide (k' = k) then None else map_get k' m.
Proof.
  unfold map_delete. induction m as [|[k1 v1] m IH]; simpl; [by destruct (decide _)|].
  rewrite filter_cons. simpl. destruct (decide (k1 ≠ k)) as [Hne|Heq]; simpl.
  - rewrite IH. destruct (decide (k' = k1)), (decide (k' = k)); congruence.
  - apply dec_stable in Heq as ->. rewrite IH.
    destruct (decide (k' = k)); [done|]. done.
Qed.

Lemma map_get_delete_ne k k' m : k' ≠ k → map_get k' (map_delete k m) = map_get k' m.
Proof. intros. rewrite map_get_delete. by destruct (decide (k' = k)). Qed.

Lemma map_get_delete_eq k m : map_get k (map_delete k m) = None.
Proof. rewrite map_get_delete. by destruct (decide (k = k)). Qed.

Lemma map_has_true k m : map_has k m = true ↔ is_Some (map_get k m).
Proof. unfold map_has. apply bool_decide_eq_true. Qed.

Lemma map_has_false k m : map_has k m = false ↔ map_get k m = None.
Proof. unfold map_has. rewrite bool_decide_eq_false. symmetry. apply eq_None_not_Some. Qed.

Lemma map_get_keys k m : is_Some (map_get k m) ↔ k ∈ map_keys m.
Proof.
  induction m as [|[k1 v1] m IH]; simpl.
  - split; [by intros [? ?] | intros H; inversion H].
  - rewrite elem_of_cons, <- IH. destruct (decide (k = k1)) as [->|]; [split; [by left|by eexists]|].
    split; [by right|by intros [?|?]].
Qed.

Lemma map_get_elem k v m : map_get k m = Some v → (k, v) ∈ m.
Proof.
  induction m as [|[k1 v1] m IH]; simpl; [done|].
  destruct (decide (k = k1)) as [->|]; intros; simplify_eq; set_solver.
Qed.

Lemma map_elem_get k v m : map_wf m → (k, v) ∈ m → map_get k m = Some v.
Proof.
  induction m as [|[k1 v1] m IH]; simpl; intros Hwf Hin; [inversion Hin|].
  inversion Hwf as [|? ? Hni Hnd]; subst.
  apply elem_of_cons in Hin as [E|Hin]; [simplify_eq; by destruct (decide _)|].
  destruct (decide (k = k1)) as [->|]; [|by apply IH].
  destruct Hni. apply (list_elem_of_fmap_2' fst _ _ _ Hin eq_refl).
Qed.

Lemma map_keys_set k v m :
  map_keys (map_set k v m) = if map_has k m then map_keys m else map_keys m ++ [k].
Proof.
  unfold map_has. induction m as [|[k1 v1] m IH]; simpl; [done|].
  destruct (decide (k = k1)) as [->|]; simpl; [done|].
  rewrite IH. by destruct (bool_decide _).
Qed.

Lemma map_set_wf k v m : map_wf m → map_wf (map_set k v m).
Proof.
  unfold map_wf. intros Hwf. rewrite map_keys_set. destruct (map_has k m) eqn:E; [done|].
  apply NoDup_app. split_and!; [done| |apply NoDup_singleton].
  intros x Hx Hin. apply list_elem_of_singleton in Hin as ->.
  apply map_get_keys, map_has_true in Hx. congruence.
Qed.

Lemma map_delete_wf k m : map_wf m → map_wf (map_delete k m).
Proof.
  unfold map_wf, map_delete. intros Hwf. apply (sublist_NoDup _ (map_keys m)); [done|].
  apply fmap_sublist, sublist_filter.
Qed.

Lemma map_set_length k v m :
  length (map_set k v m) = if map_has k m then length m else S (length m).
Proof.
  rewrite <- (length_fmap fst (map_set k v m)). fold (map_keys (map_set k v m)).
  rewrite map_keys_set. destruct (map_has k m); unfold map_keys;
    rewrite ?length_app, length_fmap; simpl; unfold map_keys; lia.
Qed.

Lemma map_delete_length k m : (length (map_delete k m) ≤ length m)%nat.
Proof. unfold map_delete. apply length_filter. Qed.

Lemma map_delete_has_length k m :
  is_Some (map_get k m) → (length (map_delete k m) < length m)%nat.
Proof.
  unfold map_delete. induction m as [|[k1 v1] m IH]; simpl; [by intros [? ?]|].
  rewrite filter_cons. simpl. destruct (decide (k = k1)) as [->|]; intros H.
  - destruct (decide (k1 ≠ k1)); [done|]. pose proof (length_filter (λ e : K * V, e.1 ≠ k1) m). lia.
  - destruct (decide (k1 ≠ k)); simpl; [apply IH in H; lia|].
    pose proof (length_filter (λ e : K * V, e.1 ≠ k) m). lia.
Qed.
End jsmap.

(** A key the map does not have goes to its end. *)
Lemma map_set_new {K V} `{EqDecision K} (k : K) (v : V) m :
  k ∉ map_keys m → map_set k v m = m ++ [(k, v)].
Proof.
  induction m as [|[k' v'] m IH]; simpl; intros H; [done|].
  apply not_elem_of_cons in H as [Hne H]. rewrite decide_False by done. f_equal. by apply IH.
Qed.

(** [localeCompare] and [ORDER BY] on strings of one form. *)
Lemma leb_trans (s1 s2 s3 : string) : String.leb s1 s2 = true → String.leb s2 s3 = true → String.leb s1 s3 = true.
Proof. intros H1%Is_true_true H2%Is_true_true. apply Is_true_true. revert H1 H2. apply (transitivity (R := String.le)). Qed.

(** ** Grouping: the list at a key, created on its first use *)

Section group.
Context {K V : Type} `{EqDecision K} (key : V → K).
Implicit Types (m : jsmap K (list V)) (l : list V) (k : K) (x : V).

Definition map_push x m : jsmap K (list V) := map_set (key x) (default [] (map_get (key x) m) ++ [x]) m.

Definition group_by l : jsmap K (list V) := foldl (λ m x, map_push x m) [] l.

Lemma group_by_snoc l x : group_by (l ++ [x]) = map_push x (group_by l).
Proof. unfold group_by. by rewrite foldl_app. Qed.

Lemma group_by_wf l : map_wf (group_by l).
Proof. induction l as [|x l IH] using rev_ind; [constructor|]. rewrite group_by_snoc. by apply map_set_wf. Qed.

Lemma group_by_get k l :
  map_get k (group_by l) = match filter (λ x, key x = k) l with [] => None | xs => Some xs end.
Proof.
  induction l as [|x l IH] using rev_ind; [done|].
  rewrite group_by_snoc, filter_app, filter_cons, filter_nil. unfold map_push. rewrite map_get_set.
  destruct (decide (k = key x)) as [->|Hne].
  - rewrite decide_True by done. rewrite IH. by destruct (filter _ l).
  - rewrite decide_False by congruence. by rewrite app_nil_r, IH.
Qed.

Lemma group_by_elem k xs l : (k, xs) ∈ group_by l → xs = filter (λ x, key x = k) l ∧ xs ≠ [].
Proof.
  intros H%map_elem_get; [|apply group_by_wf]. rewrite group_by_get in H.
  destruct (filter _ l); by simplify_eq.
Qed.

Lemma group_by_keys l k : k ∈ map_keys (group_by l) ↔ k ∈ map key l.
Proof.
  rewrite <- map_get_keys, group_by_get, list_elem_of_fmap. split.
  - destruct (filter _ l) as [|x xs] eqn:E; [by intros [? ?]|]. intros _.
    assert (x ∈ filter (λ x, key x = k) l) as Hx by (rewrite E; left).
    apply list_elem_of_filter in Hx as [? ?]. eauto.
  - intros (x & -> & Hx). destruct (filter _ l) eqn:E; [|by eexists].
    assert (x ∈ filter (λ y, key y = key x) l) as Hx' by (by apply list_elem_of_filter). rewrite E in Hx'. by apply elem_of_nil in Hx'.
Qed.
End group.

(** ** Stable sort by a numeric key *)

Section sort_by.
Context {A : Type} (key : A → Z).

Fixpoint insert_by (x : A) (l : list A) : list A :=
  match l with
  | [] => [x]
  | y :: l => if key x <=? key y then x :: y :: l else y :: insert_by x l
  end.

Definition sort_by (l : list A) : list A := foldr insert_by [] l.

Definition by_key (x y : A) : Prop := key x ≤ key y.

Lemma insert_by_perm x l : insert_by x l ≡ₚ x :: l.
Proof.
  induction l as [|y l IH]; simpl; [done|]. destruct (_ <=? _); [done|].
  rewrite IH. apply Permutation_swap.
Qed.

Lemma sort_by_perm l : sort_by l ≡ₚ l.
Proof. unfold sort_by. induction l as [|x l IH]; simpl; [done|]. by rewrite insert_by_perm, IH. Qed.

Lemma elem_of_sort_by x l : x ∈ sort_by l ↔ x ∈ l.
Proof. by rewrite sort_by_perm. Qed.

Lemma insert_by_sorted x l : StronglySorted by_key l → StronglySorted by_key (insert_by x l).
Proof.
  induction l as [|y l IH]; simpl; intros H; [by repeat constructor|].
  inversion H as [|? ? Hs Hf]; subst. destruct (key x <=? key y) eqn:E; bools.
  - constructor; [done|]. constructor; [done|].
    eapply List.Forall_impl; [|exact Hf]. unfold by_key. lia.
  - constructor; [by apply IH|]. rewrite insert_by_perm. constructor; [unfold by_key; lia|done].
Qed.

Lemma sort_by_sorted l : StronglySorted by_key (sort_by l).
Proof.
  unfold sort_by. induction l; simpl; [constructor|]. by apply insert_by_sorted.
Qed.
End sort_by.

#[export] Hint Resolve map_set_wf map_delete_wf sort_by_sorted : writz.

(** ** Stable sort by a comparison ([ORDER BY] over several columns) *)

Section sort_with.
Context {A : Type} (le : A → A → bool).

Fixpoint insert_with (x : A) (l : list A) : list A :=
  match l with
  | [] => [x]
  | y :: l => if le x y then x :: y :: l else y :: insert_with x l
  end.

Definition sort_with (l : list A) : list A := foldr insert_with [] l.

Lemma insert_with_perm x l : insert_with x l ≡ₚ x :: l.
Proof.
  induction l as [|y l IH]; simpl; [done|]. destruct (le x y); [done|].
  rewrite IH. apply Permutation_swap.
Qed.

Lemma sort_with_perm l : sort_with l ≡ₚ l.
Proof. unfold sort_with. induction l as [|x l IH]; simpl; [done|]. by rewrite insert_with_perm, IH. Qed.

(** In order, on the elements [P] the comparison orders. *)
Lemma sort_with_orders_on (P : A → Prop) l :
  (∀ x y, P x → P y → le x y = true ∨ le y x = true) →
  (∀ x y z, P x → P y → P z → le x y = true → le y z = true → le x z = true) →
  Forall P l → StronglySorted (λ x y, le x y = true) (sort_with l).
Proof.
  intros Htotal Htrans. unfold sort_with. induction 1 as [|x l Hx Hl IH]; simpl; [constructor|].
  assert (Forall P (foldr insert_with [] l)) as HP by (change (Forall P (sort_with l)); by rewrite sort_with_perm).
  revert IH HP. generalize (foldr insert_with [] l). clear l Hl. intros l.
  induction l as [|y l IH]; simpl; intros Hs HP; [by repeat constructor|].
  inversion Hs as [|? ? Hs' Hf]; subst. inversion HP as [|? ? HPy HPl]; subst. destruct (le x y) eqn:E.
  - constructor; [done|]. constructor; [done|]. rewrite Forall_forall in Hf, HPl |- *. eauto.
  - constructor; [by apply IH|]. rewrite insert_with_perm. constructor; [|done].
    destruct (Htotal x y Hx HPy); congruence.
Qed.

Context (Htotal : ∀ x y, le x y = true ∨ le y x = true)
        (Htrans : ∀ x y z, le x y = true → le y z = true → le x z = true).

Lemma sort_with_orders l : StronglySorted (λ x y, le x y = true) (sort_with l).
Proof using Htotal Htrans.
  apply (sort_with_orders_on (λ _, True)); eauto. by apply Forall_true.
Qed.
End sort_with.
