(* ===== verification/JsDate.v ===== *)
(** * Reading times

    [Date.parse] on the form [toISOString] writes, with or without the
    milliseconds; every time the code parses has this form. *)

From S2P Require Import Prelude JsData.

(** The day number of a civil date: the inverse of [civil_of_days]. *)
Definition days_of_civil (y m d : Z) : Z :=
  let y := if m <=? 2 then y - 1 else y in
  let era := y / 400 in
  let yoe := y mod 400 in
  let mp := if m <=? 2 then m + 9 else m - 3 in
  let doy := (153 * mp + 2) / 5 + d - 1 in
  let doe := 365 * yoe + yoe / 4 - yoe / 100 + doy in
  era * 146097 + doe - 719468.

Definition read_digits (n : nat) (cs : list ascii) : option (Z * list ascii) :=
  let ds := take n cs in
  if bool_decide (length ds = n) && forallb is_digit ds then Some (dec_value ds, drop n cs) else None.

Definition expect (c : ascii) (cs : list ascii) : option (list ascii) :=
  match cs with c' :: cs => if Ascii.eqb c' c then Some cs else None | [] => None end.

(** [None]: NaN. *)
Definition Date_parse (s : string) : option Z :=
  '(y, cs) ← read_digits 4 (chars s); cs ← expect "-" cs;
  '(m, cs) ← read_digits 2 cs; cs ← expect "-" cs;
  '(d, cs) ← read_digits 2 cs; cs ← expect "T" cs;
  '(hh, cs) ← read_digits 2 cs; cs ← expect ":" cs;
  '(mm, cs) ← read_digits 2 cs; cs ← expect ":" cs;
  '(ss, cs) ← read_digits 2 cs;
  '(ms, cs) ← match expect "." cs with Some cs => read_digits 3 cs | None => Some (0, cs) end;
  cs ← expect "Z" cs;
  if bool_decide (cs = []) && (1 <=? m) && (m <=? 12) && (1 <=? d) && (d <=? 31) &&
     (hh <=? 23) && (mm <=? 59) && (ss <=? 59)
  then Some (days_of_civil y m d * DAY_MS + hh * 3600000 + mm * 60000 + ss * 1000 + ms)
  else None.

Example Date_parse_seconds : Date_parse "2026-10-24T12:26:52Z" = Some 1792844812000.
Proof. vm_compute. reflexivity. Qed.

(** ** Lemmas *)

Lemma civil_parts z :
  let '(y, m, d) := civil_of_days z in 1 ≤ m ≤ 12 ∧ 1 ≤ d ≤ 31 ∧ days_of_civil y m d = z.
Proof.
  unfold civil_of_days. set (era := (z + 719468) / 146097). set (doe := (z + 719468) mod 146097).
  assert (0 ≤ doe < 146097) as Hdoe by (subst doe; apply Z.mod_pos_bound; lia).
  assert (z + 719468 = 146097 * era + doe) as Hz by (subst era doe; apply Z.div_mod; lia).
  clearbody era doe. set (yoe := (doe - doe / 1460 + doe / 36524 - doe / 146096) / 365).
  assert (0 ≤ yoe < 400 ∧ 0 ≤ doe - (365 * yoe + yoe / 4 - yoe / 100) ≤ 365) as [Hyoe Hdoy].
  { subst yoe. Z.to_euclidean_division_equations. lia. }
  clearbody yoe. set (doy := doe - (365 * yoe + yoe / 4 - yoe / 100)) in *.
  assert (doe = 365 * yoe + yoe / 4 - yoe / 100 + doy) as Hd by (subst doy; lia). clearbody doy.
  set (mp := (5 * doy + 2) / 153).
  assert (0 ≤ mp ≤ 11 ∧ 1 ≤ doy - (153 * mp + 2) / 5 + 1 ≤ 31) as [Hmp Hday].
  { subst mp. Z.to_euclidean_division_equations. lia. }
  clearbody mp. split_and!; try done; try (destruct (mp <? 10) eqn:E; bools; lia).
  unfold days_of_civil.
  assert (((if mp <? 10 then mp + 3 else mp - 9) <=? 2) = negb (mp <? 10)) as ->
    by (destruct (mp <? 10) eqn:E; bools; simpl; [apply Z.leb_gt|apply Z.leb_le]; lia).
  assert ((if negb (mp <? 10) then yoe + era * 400 + (if negb (mp <? 10) then 1 else 0) - 1
           else yoe + era * 400 + (if negb (mp <? 10) then 1 else 0)) = yoe + era * 400) as ->
    by (destruct (mp <? 10); simpl; lia).
  assert ((if negb (mp <? 10) then (if mp <? 10 then mp + 3 else mp - 9) + 9
           else (if mp <? 10 then mp + 3 else mp - 9) - 3) = mp) as -> by (destruct (mp <? 10); simpl; lia).
  rewrite Z.div_add, Z.mod_add, Z.div_small, Z.mod_small by lia. lia.
Qed.

Lemma read_digits_pad n z rest :
  0 ≤ z < 10 ^ Z.of_nat n → (0 < n)%nat → read_digits n (chars (pad n z) ++ rest) = Some (z, rest).
Proof.
  intros Hz Hn. unfold pad. rewrite chars_of_chars. destruct (dec_chars_spec z) as [Hv Hd]; [lia|].
  assert (length (padStart n "0"%char (dec_chars z)) = n) as Hl by (apply padStart_length, dec_chars_length; lia).
  unfold read_digits. rewrite take_app_exact, drop_app_exact by done. rewrite Hl.
  rewrite bool_decide_eq_true_2 by done. unfold padStart. rewrite forallb_app, Hd, dec_value_zeros, Hv.
  assert (∀ k, forallb is_digit (replicate k "0"%char) = true) as -> by (intros k; by induction k). done.
Qed.

Lemma expect_chars c cs : expect c (chars (String c "") ++ cs) = Some cs.
Proof. simpl. by rewrite Ascii.eqb_refl. Qed.

(** A time read back from what [toISOString] wrote, for years 0 to 9999. *)
Lemma Date_parse_toISOString t :
  0 ≤ (civil_of_days (t / DAY_MS)).1.1 < 10000 → Date_parse (toISOString t) = Some t.
Proof.
  intros Hy. unfold toISOString, Date_parse. pose proof (civil_parts (t / DAY_MS)) as Hc.
  destruct (civil_of_days (t / DAY_MS)) as [[y m] d]. destruct Hc as (Hm & Hd & Hdays). simpl in Hy.
  set (ms := t mod DAY_MS). assert (0 ≤ ms < 86400000) as Hms by (subst ms; apply Z.mod_pos_bound; done).
  assert (t = t / DAY_MS * DAY_MS + ms) as Ht by (subst ms; pose proof (Z.div_mod t DAY_MS ltac:(done)); lia).
  clearbody ms. rewrite !chars_app.
  assert (0 ≤ ms / 3600000 < 24 ∧ 0 ≤ ms / 60000 mod 60 < 60 ∧ 0 ≤ ms / 1000 mod 60 < 60 ∧ 0 ≤ ms mod 1000 < 1000) as (?&?&?&?).
  { Z.to_euclidean_division_equations. lia. }
  assert (ms / 3600000 * 3600000 + ms / 60000 mod 60 * 60000 + ms / 1000 mod 60 * 1000 + ms mod 1000 = ms) as Hsum.
  { Z.to_euclidean_division_equations. lia. }
  unfold mbind, option_bind.
  repeat (first [rewrite read_digits_pad by lia|rewrite expect_chars]; cbv beta iota). rewrite <- (app_nil_r (chars "Z")), expect_chars. cbv beta iota.
  rewrite Hdays.
  replace (bool_decide _ && _ && _ && _ && _ && _ && _ && _)%bool with true; [f_equal; lia|].
  symmetry. rewrite !andb_true_iff, !Z.leb_le. split_and!; [done|lia..].
Qed.
