(* ===== verification/JsJson.v ===== *)
(** * JSON

    [JSON.stringify] and [JSON.parse] on the values the code writes and reads.
    A number is an integer, kept exact, or a decimal, kept as its text; strings
    are bytes, and an escaped code point of a text becomes its UTF-8 bytes. *)

From S2P Require Import Prelude JsData JsMap.

#[local] Set Warnings "-register-all".

Inductive Json : Type :=
| j_string (s : string)
| j_number (z : Z)
| j_decimal (text : string)
| j_bool (b : bool)
| j_null
| j_array (l : list Json)
| j_object (fields : list (string * Json)).

(** ** Writing *)

Definition quote : ascii := "034"%char.
Definition backslash : ascii := "\"%char.

Definition escape (c : ascii) : list ascii :=
  let z := ascii_z c in
  if decide (c = quote) then [backslash; quote]
  else if decide (c = backslash) then [backslash; backslash]
  else if z =? 8 then [backslash; "b"%char]
  else if z =? 9 then [backslash; "t"%char]
  else if z =? 10 then [backslash; "n"%char]
  else if z =? 12 then [backslash; "f"%char]
  else if z =? 13 then [backslash; "r"%char]
  else if z <? 32 then [backslash; "u"%char; "0"%char; "0"%char; hex_digit (z / 16); hex_digit (z mod 16)]
  else [c].

Definition string_json (s : string) : list ascii := quote :: (chars s ≫= escape) ++ [quote].

Fixpoint commas (l : list (list ascii)) : list ascii :=
  match l with
  | [] => []
  | [x] => x
  | x :: l => x ++ ","%char :: commas l
  end.

Fixpoint json_chars (j : Json) : list ascii :=
  match j with
  | j_string s => string_json s
  | j_number z => chars (z_to_string z)
  | j_decimal t => chars t
  | j_bool b => chars (if b then "true" else "false")
  | j_null => chars "null"
  | j_array l => "["%char :: commas (map json_chars l) ++ ["]"%char]
  | j_object fields => "{"%char :: commas (map (λ f, string_json f.1 ++ ":"%char :: json_chars f.2) fields) ++ ["}"%char]
  end.

Definition JSON_stringify (j : Json) : string := of_chars (json_chars j).

(** ** Reading *)

Definition is_json_space (c : ascii) : bool := bool_decide (ascii_z c ∈ [32; 9; 10; 13]).

Fixpoint skip_space (cs : list ascii) : list ascii :=
  match cs with c :: rest => if is_json_space c then skip_space rest else cs | [] => [] end.

(** The UTF-8 bytes of a code point; a lone surrogate reads as U+FFFD. *)
Definition utf8_bytes (p : Z) : list ascii :=
  let b z := ascii_of_N (Z.to_N z) in
  if p <? 128 then [b p]
  else if p <? 2048 then [b (192 + p / 64); b (128 + p mod 64)]
  else if (55296 <=? p) && (p <=? 57343) then [b 239; b 191; b 189]
  else if p <? 65536 then [b (224 + p / 4096); b (128 + p / 64 mod 64); b (128 + p mod 64)]
  else [b (240 + p / 262144); b (128 + p / 4096 mod 64); b (128 + p / 64 mod 64); b (128 + p mod 64)].

Definition hex4 (a b c d : ascii) : option Z :=
  x ← hex_value a; y ← hex_value b; z ← hex_value c; w ← hex_value d;
  Some (((x * 16 + y) * 16 + z) * 16 + w).

Definition is_high (p : Z) : bool := (55296 <=? p) && (p <=? 56319).
Definition is_low (p : Z) : bool := (56320 <=? p) && (p <=? 57343).

(** What follows a backslash, except [u]. *)
Definition unescape (c : ascii) : option ascii :=
  if decide (c = quote) then Some quote
  else if decide (c = backslash) then Some backslash
  else if decide (c = "/"%char) then Some "/"%char
  else if decide (c = "b"%char) then Some "008"%char
  else if decide (c = "t"%char) then Some "009"%char
  else if decide (c = "n"%char) then Some "010"%char
  else if decide (c = "f"%char) then Some "012"%char
  else if decide (c = "r"%char) then Some "013"%char
  else None.

(** The rest of a string literal, to its closing quote. *)
Fixpoint string_rest (cs : list ascii) : option (list ascii * list ascii) :=
  match cs with
  | [] => None
  | c :: rest =>
      if decide (c = quote) then Some ([], rest)
      else if decide (c = backslash) then
        match rest with
        | [] => None
        | e :: rest =>
            if decide (e = "u"%char) then
              match rest with
              | a :: b :: c :: d :: rest =>
                  p ← hex4 a b c d;
                  if is_high p then
                    match rest with
                    | s :: u :: a :: b :: c :: d :: rest' =>
                        match (if decide (s = backslash ∧ u = "u"%char) then hex4 a b c d else None) with
                        | Some q =>
                            if is_low q then
                              '(s, cs) ← string_rest rest';
                              Some (utf8_bytes (65536 + (p - 55296) * 1024 + (q - 56320)) ++ s, cs)
                            else '(s, cs) ← string_rest rest; Some (utf8_bytes p ++ s, cs)
                        | None => '(s, cs) ← string_rest rest; Some (utf8_bytes p ++ s, cs)
                        end
                    | _ => '(s, cs) ← string_rest rest; Some (utf8_bytes p ++ s, cs)
                    end
                  else '(s, cs) ← string_rest rest; Some (utf8_bytes p ++ s, cs)
              | _ => None
              end
            else
              x ← unescape e;
              '(s, cs) ← string_rest rest; Some (x :: s, cs)
        end
      else if ascii_z c <? 32 then None
      else '(s, cs) ← string_rest rest; Some (c :: s, cs)
  end.

(** A numeral is the longest run of these characters. *)
Definition is_number_char (c : ascii) : bool :=
  is_digit c || bool_decide (c ∈ ["-"%char; "+"%char; "."%char; "e"%char; "E"%char]).

Fixpoint run_of (p : ascii → bool) (cs : list ascii) : list ascii * list ascii :=
  match cs with
  | c :: rest => if p c then let '(a, b) := run_of p rest in (c :: a, b) else ([], cs)
  | [] => ([], [])
  end.

(** [0] or digits that do not start with it *)
Definition is_natural (cs : list ascii) : bool :=
  match cs with
  | [] => false
  | [c] => is_digit c
  | c :: rest => in_range "1" "9" c && forallb is_digit rest
  end.

Definition some_digits (cs : list ascii) : bool := negb (bool_decide (cs = [])) && forallb is_digit cs.

(** [(e | E) (+ | -)? digits] *)
Definition exponent_of (cs : list ascii) : option Z :=
  match cs with
  | e :: s :: rest =>
      if negb (bool_decide (e ∈ ["e"%char; "E"%char])) then None
      else
        let ds := if bool_decide (s ∈ ["+"%char; "-"%char]) then rest else s :: rest in
        if negb (some_digits ds) then None
        else Some (if bool_decide (s = "-"%char) then - dec_value ds else dec_value ds)
  | _ => None
  end.

(** [(. digits)? exponent?], not both absent: the digits and the exponent. *)
Definition fraction_of (cs : list ascii) : option (list ascii * Z) :=
  match cs with
  | "."%char :: rest =>
      let '(ds, e) := run_of is_digit rest in
      if negb (some_digits ds) then None
      else if bool_decide (e = []) then Some (ds, 0) else pair ds <$> exponent_of e
  | _ => pair [] <$> exponent_of cs
  end.

(** [v * 10^k], where that is an integer of a double's range. *)
Definition scaled (v k : Z) : option Z :=
  if (0 <=? k) && (k <=? 300) then Some (v * 10 ^ k)
  else if (-300 <=? k) && (k <? 0) && (v mod 10 ^ (- k) =? 0) then Some (v / 10 ^ (- k))
  else None.

Definition number_of (cs : list ascii) : option Json :=
  let '(negative, body) := match cs with "-"%char :: rest => (true, rest) | _ => (false, cs) end in
  let '(ds, rest) := run_of is_digit body in
  let integer z := j_number (if negative then - z else z) in
  if negb (is_natural ds) then None
  else if bool_decide (rest = []) then Some (integer (dec_value ds))
  else
    '(fs, e) ← fraction_of rest;
    Some (match scaled (dec_value (ds ++ fs)) (e - zlen fs) with
          | Some z => integer z
          | None => j_decimal (of_chars cs)
          end).

(** A numeral as [v * 10^k]. *)
Definition number_parts (cs : list ascii) : option (Z * Z) :=
  let '(negative, body) := match cs with "-"%char :: rest => (true, rest) | _ => (false, cs) end in
  let '(ds, rest) := run_of is_digit body in
  let sign v := if negative then - v else v in
  if bool_decide (rest = []) then Some (sign (dec_value ds), 0)
  else '(fs, e) ← fraction_of rest; Some (sign (dec_value (ds ++ fs)), e - zlen fs).

(** [BigInt(Math.ceil(x))] on a number; [None]: not one of a double's range. *)
Definition ceil_number (j : Json) : option Z :=
  match j with
  | j_number z => Some z
  | j_decimal t =>
      '(v, k) ← number_parts (chars t);
      if 300 <? k then None else Some (if 0 <=? k then v * 10 ^ k else ceil_div v (10 ^ (- k)))
  | _ => None
  end.

Definition word (w : string) (j : Json) (cs : list ascii) : option (Json * list ascii) :=
  if decide (take (length (chars w)) cs = chars w) then Some (j, drop (length (chars w)) cs) else None.

(** The rest after a character, if it comes next. *)
Definition next_is (c : ascii) (cs : list ascii) : option (list ascii) :=
  match cs with c' :: cs => if decide (c' = c) then Some cs else None | [] => None end.

Fixpoint json_value (fuel : nat) (cs : list ascii) : option (Json * list ascii) :=
  match fuel with
  | O => None
  | S fuel =>
      match skip_space cs with
      | [] => None
      | c :: rest =>
          if decide (c = quote) then '(s, cs) ← string_rest rest; Some (j_string (of_chars s), cs)
          else if decide (c = "["%char) then
            match next_is "]" (skip_space rest) with
            | Some cs => Some (j_array [], cs)
            | None => '(l, cs) ← json_items fuel rest; Some (j_array l, cs)
            end
          else if decide (c = "{"%char) then
            match next_is "}" (skip_space rest) with
            | Some cs => Some (j_object [], cs)
            | None => '(fields, cs) ← json_members fuel [] rest; Some (j_object fields, cs)
            end
          else if decide (c = "t"%char) then word "true" (j_bool true) (c :: rest)
          else if decide (c = "f"%char) then word "false" (j_bool false) (c :: rest)
          else if decide (c = "n"%char) then word "null" j_null (c :: rest)
          else
            let '(ds, cs) := run_of is_number_char (c :: rest) in
            j ← number_of ds; Some (j, cs)
      end
  end
with json_items (fuel : nat) (cs : list ascii) : option (list Json * list ascii) :=
  match fuel with
  | O => None
  | S fuel =>
      '(j, cs) ← json_value fuel cs;
      match next_is "]" (skip_space cs) with
      | Some cs => Some ([j], cs)
      | None =>
          cs ← next_is "," (skip_space cs);
          '(l, cs) ← json_items fuel cs; Some (j :: l, cs)
      end
  end
with json_members (fuel : nat) (fields : jsmap string Json) (cs : list ascii) :
    option (jsmap string Json * list ascii) :=
  match fuel with
  | O => None
  | S fuel =>
      rest ← next_is quote (skip_space cs);
      '(k, cs) ← string_rest rest;
      cs ← next_is ":" (skip_space cs);
      '(j, cs) ← json_value fuel cs;
      let fields := map_set (of_chars k) j fields in
      match next_is "}" (skip_space cs) with
      | Some cs => Some (fields, cs)
      | None => cs ← next_is "," (skip_space cs); json_members fuel fields cs
      end
  end.

Definition JSON_parse (text : string) : option Json :=
  let cs := chars text in
  '(j, rest) ← json_value (S (length cs)) cs;
  if bool_decide (skip_space rest = []) then Some j else None.

(** With apostrophes for quotation marks. *)
Definition quoted (s : string) : string := of_chars (map (λ c, if decide (c = "'"%char) then quote else c) (chars s)).

Example JSON_examples :
  JSON_parse (quoted " {'a': [1, -25e-1, null], 'b': 'x\n\u00e9' , 'a':true }") =
    Some (j_object [("a", j_bool true);
                    ("b", j_string (of_chars ["x"%char; "010"%char; "195"%char; "169"%char]))]) ∧
  JSON_parse "[1.50e1,2.5,1E2,-0.0]" = Some (j_array [j_number 15; j_decimal "2.5"; j_number 100; j_number 0]) ∧
  map ceil_number [j_decimal "1.3"; j_decimal "-25e-1"; j_number 4] = [Some 2; Some (-2); Some 4] ∧
  JSON_parse "[01]" = None ∧ JSON_parse "[1,]" = None ∧
  JSON_stringify (j_array [j_string (quoted "a'b"); j_object [("k", j_number (-5))]]) = quoted "['a\'b',{'k':-5}]".
Proof. by vm_compute. Qed.

(** ** What is written is read back *)

Section json_ind.
Context (P : Json → Prop)
  (Hs : ∀ s, P (j_string s)) (Hn : ∀ z, P (j_number z)) (Hd : ∀ t, P (j_decimal t)) (Hb : ∀ b, P (j_bool b))
  (H0 : P j_null) (Ha : ∀ l, Forall P l → P (j_array l)) (Ho : ∀ fs, Forall (λ f, P f.2) fs → P (j_object fs)).

Fixpoint json_induction (j : Json) : P j :=
  match j with
  | j_string s => Hs s
  | j_number z => Hn z
  | j_decimal t => Hd t
  | j_bool b => Hb b
  | j_null => H0
  | j_array l => Ha l ((fix go l : Forall P l :=
      match l with [] => List.Forall_nil _ | x :: l => List.Forall_cons _ _ _ (json_induction x) (go l) end) l)
  | j_object fs => Ho fs ((fix go (fs : list (string * Json)) : Forall (λ f, P f.2) fs :=
      match fs with [] => List.Forall_nil _ | f :: fs => List.Forall_cons _ _ _ (json_induction f.2) (go fs) end) fs)
  end.
End json_ind.

(** Each object has a key once, and a decimal is one. *)
Fixpoint json_wf (j : Json) : Prop :=
  match j with
  | j_decimal t => number_of (chars t) = Some (j_decimal t) ∧ forallb is_number_char (chars t) = true
  | j_array l => foldr (λ x acc, json_wf x ∧ acc) True l
  | j_object fs => NoDup (map fst fs) ∧ foldr (λ f acc, json_wf f.2 ∧ acc) True fs
  | _ => True
  end.

Lemma array_wf l : json_wf (j_array l) ↔ Forall json_wf l.
Proof. simpl. induction l as [|x l IH]; simpl; rewrite ?Forall_nil, ?Forall_cons; [done|]. by rewrite IH. Qed.

Lemma object_wf fs : json_wf (j_object fs) ↔ NoDup (map fst fs) ∧ Forall (λ f, json_wf f.2) fs.
Proof.
  simpl. enough (foldr (λ f acc, json_wf f.2 ∧ acc) True fs ↔ Forall (λ f, json_wf f.2) fs) as -> by done.
  induction fs as [|f fs IH]; simpl; rewrite ?Forall_nil, ?Forall_cons; [done|]. by rewrite IH.
Qed.

(** *** Strings *)

Lemma escape_read c rest cs s :
  string_rest rest = Some (s, cs) → string_rest (escape c ++ rest) = Some (c :: s, cs).
Proof.
  intros Hr. destruct c as [[] [] [] [] [] [] [] []]; simpl; rewrite Hr; reflexivity.
Qed.

Lemma string_read s rest : string_rest ((chars s ≫= escape) ++ quote :: rest) = Some (chars s, rest).
Proof.
  generalize (chars s). clear s. intros cs. induction cs as [|c cs IH]; [done|].
  change (string_rest ((escape c ++ (cs ≫= escape)) ++ quote :: rest) = Some (c :: cs, rest)).
  rewrite <- app_assoc. by apply escape_read.
Qed.

(** *** Numbers *)

(** What may follow a value: not a character of a numeral. *)
Definition stops (cs : list ascii) : Prop := match cs with c :: _ => is_number_char c = false | [] => True end.

Lemma run_of_all p cs rest :
  forallb p cs = true → match rest with c :: _ => p c = false | [] => True end → run_of p (cs ++ rest) = (cs, rest).
Proof.
  intros Hcs Hrest. induction cs as [|c cs IH]; simpl in *.
  - destruct rest as [|c rest]; [done|]. simpl. by rewrite Hrest.
  - bools. rewrite H. by rewrite IH.
Qed.

Lemma leading_digit fuel n :
  0 < n < 2 ^ Z.of_nat fuel → ∃ c cs, dec_chars_fuel fuel n = c :: cs ∧ in_range "1" "9" c = true.
Proof.
  revert n. induction fuel as [|fuel IH]; intros n Hn; [simpl in Hn; lia|].
  rewrite Nat2Z.inj_succ, Z.pow_succ_r in Hn by lia. cbn [dec_chars_fuel]. destruct (n <? 10) eqn:E; bools.
  - eexists _, []. split; [done|]. assert (n ∈ zrange 1 9) as Hin.
    { simpl. repeat (destruct (decide (n = _)); [subst; set_solver|]). 
      assert (n = 1 ∨ n = 2 ∨ n = 3 ∨ n = 4 ∨ n = 5 ∨ n = 6 ∨ n = 7 ∨ n = 8 ∨ n = 9) as Hc by lia.
      repeat (destruct Hc as [->|Hc]; [set_solver|]). subst. set_solver. }
    simpl in Hin. repeat (apply elem_of_cons in Hin as [->|Hin]; [done|]). by apply elem_of_nil in Hin.
  - destruct (IH (n / 10)) as (c & cs & -> & Hc); [Z.to_euclidean_division_equations; lia|]. by exists c, (cs ++ [dec_digit (n mod 10)]).
Qed.

Lemma dec_chars_natural n : 0 ≤ n → is_natural (dec_chars n) = true.
Proof.
  intros Hn. destruct (decide (n = 0)) as [->|Hne]; [done|]. destruct (dec_chars_spec n Hn) as [_ Hd].
  destruct (leading_digit (S (Z.to_nat (Z.log2 n))) n) as (c & cs & E & Hc).
  { rewrite Nat2Z.inj_succ, Z2Nat.id by apply Z.log2_nonneg. split; [lia|]. apply Z.log2_spec. lia. }
  unfold dec_chars in *. rewrite E in *. simpl in Hd. bools. unfold is_natural. destruct cs; [done|]. by rewrite Hc.
Qed.

Lemma number_of_digits ds : forallb is_digit ds = true → is_natural ds = true → number_of ds = Some (j_number (dec_value ds)).
Proof.
  intros Hd Hn. unfold number_of.
  assert ((match ds with "-"%char :: rest => (true, rest) | _ => (false, ds) end) = (false, ds)) as ->.
  { destruct ds as [|c ds]; [done|]. simpl in Hd. bools. destruct c as [[] [] [] [] [] [] [] []]; done. }
  rewrite <- (app_nil_r ds) at 1. rewrite run_of_all by done. rewrite Hn. by rewrite bool_decide_eq_true_2.
Qed.

Lemma number_of_negative ds : forallb is_digit ds = true → is_natural ds = true →
  number_of ("-"%char :: ds) = Some (j_number (- dec_value ds)).
Proof.
  intros Hd Hn. unfold number_of. rewrite <- (app_nil_r ds) at 1. rewrite run_of_all by done. rewrite Hn.
  by rewrite bool_decide_eq_true_2.
Qed.

Lemma digit_is_number_char c : is_digit c = true → is_number_char c = true.
Proof. unfold is_number_char. by intros ->. Qed.

Lemma z_to_string_number z :
  number_of (chars (z_to_string z)) = Some (j_number z) ∧ forallb is_number_char (chars (z_to_string z)) = true.
Proof.
  unfold z_to_string. rewrite chars_of_chars. destruct (z <? 0) eqn:E; bools.
  - destruct (dec_chars_spec (- z)) as [Hv Hd]; [lia|]. rewrite number_of_negative; [|done|apply dec_chars_natural; lia].
    rewrite Hv. split; [do 2 f_equal; lia|]. simpl. by eapply forallb_weaken; [apply digit_is_number_char|].
  - destruct (dec_chars_spec z) as [Hv Hd]; [lia|]. rewrite number_of_digits; [|done|by apply dec_chars_natural].
    rewrite Hv. split; [done|]. by eapply forallb_weaken; [apply digit_is_number_char|].
Qed.

(** *** Values *)

(** How deep the reading goes. *)
Fixpoint need (j : Json) : nat :=
  match j with
  | j_array l => S (foldr (λ x n, S (Nat.max (need x) n)) 0%nat l)
  | j_object fs => S (foldr (λ f n, S (Nat.max (need f.2) n)) 0%nat fs)
  | _ => 1%nat
  end.
Definition items_need (l : list Json) : nat := foldr (λ x n, S (Nat.max (need x) n)) 0%nat l.
Definition fields_need (fs : list (string * Json)) : nat := foldr (λ f n, S (Nat.max (need f.2) n)) 0%nat fs.

(** The first character of a value decides how it is read. *)
Lemma numeral_read fuel ds j rest :
  number_of ds = Some j → forallb is_number_char ds = true → stops rest →
  json_value (S fuel) (ds ++ rest) = Some (j, rest).
Proof.
  intros Hn Hd Hrest. destruct ds as [|c ds]; [done|]. simpl in Hd. bools.
  pose proof (run_of_all is_number_char (c :: ds) rest) as Hrun. simpl forallb in Hrun. rewrite H, H0 in Hrun.
  specialize (Hrun eq_refl Hrest). cbn [json_value].
  assert (skip_space ((c :: ds) ++ rest) = c :: (ds ++ rest)) as ->
    by (destruct c as [[] [] [] [] [] [] [] []]; done).
  assert (c ≠ quote ∧ c ≠ "["%char ∧ c ≠ "{"%char ∧ c ≠ "t"%char ∧ c ≠ "f"%char ∧ c ≠ "n"%char) as (?&?&?&?&?&?)
    by (split_and!; intros ->; done).
  rewrite !decide_False by done. change (c :: ds ++ rest) with ((c :: ds) ++ rest). rewrite Hrun. by rewrite Hn.
Qed.

Lemma word_read w j rest : word w j (chars w ++ rest) = Some (j, rest).
Proof. unfold word. rewrite decide_True by apply take_app_length. by rewrite drop_app_length. Qed.

Definition reads_values (n : nat) : Prop := ∀ j rest,
  (need j ≤ n)%nat → json_wf j → stops rest → json_value n (json_chars j ++ rest) = Some (j, rest).
Definition reads_items (n : nat) : Prop := ∀ x l rest,
  (items_need (x :: l) ≤ n)%nat → Forall json_wf (x :: l) →
  json_items n (commas (map json_chars (x :: l)) ++ "]"%char :: rest) = Some (x :: l, rest).
Definition field_chars (f : string * Json) : list ascii := string_json f.1 ++ ":"%char :: json_chars f.2.
Definition reads_members (n : nat) : Prop := ∀ acc f fs rest,
  (fields_need (f :: fs) ≤ n)%nat → Forall (λ f, json_wf f.2) (f :: fs) → NoDup (map fst (acc ++ f :: fs)) →
  json_members n acc (commas (map field_chars (f :: fs)) ++ "}"%char :: rest) = Some (acc ++ f :: fs, rest).

Lemma commas_cons x y l rest : commas (x :: y :: l) ++ rest = x ++ ","%char :: commas (y :: l) ++ rest.
Proof. simpl. by rewrite <- app_assoc. Qed.

(** The punctuation the writer puts between values. *)
Lemma next_same (c : ascii) cs : is_json_space c = false → next_is c (skip_space (c :: cs)) = Some cs.
Proof. intros Hc. simpl. rewrite Hc. simpl. by rewrite decide_True. Qed.

Lemma next_other (c d : ascii) cs : is_json_space c = false → c ≠ d → next_is d (skip_space (c :: cs)) = None.
Proof. intros Hc Hd. simpl. rewrite Hc. simpl. by rewrite decide_False. Qed.

Ltac read_mark :=
  first [rewrite next_same by done|rewrite next_other by done]; cbn [mbind option_bind]; cbv beta iota.

Lemma items_step n : reads_values n → reads_items n → reads_items (S n).
Proof.
  intros Hv Hi x l rest Hn [Hx Hl]%Forall_cons. cbn [json_items]. unfold items_need in Hn. simpl in Hn.
  destruct l as [|y l].
  - simpl. rewrite (Hv x) by (done || lia). done.
  - rewrite !map_cons, commas_cons. rewrite (Hv x) by (done || lia).
    change (json_chars y :: map json_chars l) with (map json_chars (y :: l)).
    cbn [mbind option_bind]. cbv beta iota. do 2 read_mark.
    rewrite (Hi y l rest); [done| |done]. unfold items_need. simpl in Hn |- *. lia.
Qed.

Lemma members_step n : reads_values n → reads_members n → reads_members (S n).
Proof.
  intros Hv Hm acc [k j] fs rest Hn [Hj Hfs]%Forall_cons Hnd. cbn [json_members]. unfold fields_need in Hn. simpl in Hn, Hj.
  assert (∀ tail, field_chars (k, j) ++ tail =
    quote :: (chars k ≫= escape) ++ quote :: ":"%char :: json_chars j ++ tail) as Hfield.
  { intros tail. unfold field_chars, string_json. simpl. by rewrite <- !app_assoc. }
  assert (map_set k j acc = acc ++ [(k, j)]) as Hset.
  { apply map_set_new. rewrite map_app in Hnd. apply NoDup_app in Hnd as (_ & Hd & _).
    intros Hin. apply (Hd k Hin). left. }
  destruct fs as [|f fs].
  - simpl commas. rewrite Hfield. read_mark. rewrite string_read. cbn [mbind option_bind]. cbv beta iota.
    read_mark. rewrite (Hv j) by (done || lia). cbn [mbind option_bind]. cbv beta iota.
    read_mark. by rewrite of_chars_chars, Hset.
  - rewrite !map_cons, commas_cons. rewrite Hfield. read_mark. rewrite string_read.
    cbn [mbind option_bind]. cbv beta iota. read_mark.
    change (field_chars f :: map field_chars fs) with (map field_chars (f :: fs)).
    rewrite (Hv j) by (done || lia). cbn [mbind option_bind]. cbv beta iota. do 2 read_mark.
    rewrite of_chars_chars, Hset.
    rewrite (Hm (acc ++ [(k, j)]) f fs rest); [by rewrite <- app_assoc| |done|by rewrite <- app_assoc].
    unfold fields_need. simpl in Hn |- *. lia.
Qed.

(** A value starts with a character that is no space and closes nothing. *)
Lemma value_head j : json_wf j →
  ∃ c cs, json_chars j = c :: cs ∧ is_json_space c = false ∧ c ≠ "]"%char.
Proof.
  assert (∀ ds, forallb is_number_char ds = true → ds ≠ [] → ∃ c cs, ds = c :: cs ∧ is_json_space c = false ∧ c ≠ "]"%char) as Hnum.
  { intros [|c cs] Hd Hne; [done|]. exists c, cs. simpl in Hd. bools. split; [done|].
    destruct c as [[] [] [] [] [] [] [] []]; done. }
  destruct j as [s|z|t|b| |l|fs]; intros Hwf; try (by eexists _, _).
  - destruct (z_to_string_number z) as [Hn Hd]. apply Hnum; [done|]. intros E. simpl in E. by rewrite E in Hn.
  - destruct Hwf as [Hn Hd]. apply Hnum; [done|]. intros E. simpl in E. by rewrite E in Hn.
  - destruct b; by eexists _, _.
Qed.

Lemma value_step n : reads_items n → reads_members n → reads_values (S n).
Proof.
  intros Hi Hm j rest Hn Hwf Hrest. destruct j as [s|z|t|b| |l|fs].
  - cbn [json_value json_chars]. unfold string_json.
    change (skip_space ((quote :: ?cs) ++ ?r)) with (quote :: cs ++ r). cbv beta iota. rewrite decide_True by done.
    rewrite <- app_assoc. change ([quote] ++ rest) with (quote :: rest). rewrite string_read.
    cbn [mbind option_bind]. cbv beta iota. by rewrite of_chars_chars.
  - destruct (z_to_string_number z). by apply numeral_read.
  - destruct Hwf. by apply numeral_read.
  - destruct b; [apply (word_read "true")|apply (word_read "false")].
  - apply (word_read "null").
  - rewrite array_wf in Hwf. destruct l as [|x l]; [done|].
    cbn [json_value json_chars].
    change (skip_space (("["%char :: ?cs) ++ ?r)) with ("["%char :: cs ++ r). cbv beta iota.
    rewrite decide_False by done. rewrite decide_True by done. rewrite <- app_assoc.
    change (["]"%char] ++ rest) with ("]"%char :: rest).
    assert (∃ c cs, commas (map json_chars (x :: l)) ++ "]"%char :: rest = c :: cs ∧ is_json_space c = false ∧ c ≠ "]"%char)
      as (c & cs & E & Hsp & Hc).
    { apply Forall_cons in Hwf as [Hx _]. destruct (value_head x Hx) as (c & cs & E & ? & ?). simpl. rewrite E.
      destruct l; simpl; eauto. }
    rewrite E, next_other by done. rewrite <- E, (Hi x l rest); [done| |done].
    unfold items_need. simpl in Hn |- *. lia.
  - rewrite object_wf in Hwf. destruct Hwf as [Hnd Hwf]. destruct fs as [|f fs]; [done|].
    cbn [json_value json_chars].
    change (skip_space (("{"%char :: ?cs) ++ ?r)) with ("{"%char :: cs ++ r). cbv beta iota.
    rewrite !decide_False by done. rewrite decide_True by done. rewrite <- app_assoc.
    change (["}"%char] ++ rest) with ("}"%char :: rest). fold field_chars.
    change (λ f0 : string * Json, _) with field_chars.
    assert (∃ cs, commas (map field_chars (f :: fs)) ++ "}"%char :: rest = quote :: cs) as (cs & E).
    { unfold field_chars, string_json. simpl. destruct fs; simpl; eauto. }
    rewrite E, next_other by done.
    rewrite <- E, (Hm [] f fs rest); [done| |done|done]. unfold fields_need. simpl in Hn |- *. lia.
Qed.

Lemma reads_all n : reads_values n ∧ reads_items n ∧ reads_members n.
Proof.
  induction n as [|n (Hv & Hi & Hm)].
  - split_and!.
    + intros j rest Hn. destruct j; simpl in Hn; lia.
    + intros x l rest Hn. unfold items_need in Hn. simpl in Hn. lia.
    + intros acc f fs rest Hn. unfold fields_need in Hn. simpl in Hn. lia.
  - split_and!; [by apply value_step|by apply items_step|by apply members_step].
Qed.

(** *** The text is long enough for its own reading *)

Lemma commas_need {A} (f : A → nat) (g : A → list ascii) l :
  Forall (λ x, f x ≤ length (g x))%nat l →
  (foldr (λ x n, S (Nat.max (f x) n)) 0 l ≤ S (length (commas (map g l))))%nat.
Proof.
  induction 1 as [|x l Hx Hl IH]; [simpl; lia|]. destruct l as [|y l]; [simpl; lia|].
  change (commas (map g (x :: y :: l))) with (g x ++ ","%char :: commas (map g (y :: l))).
  rewrite length_app. set (t := commas (map g (y :: l))) in *. set (m := foldr _ 0%nat (y :: l)) in *.
  change (foldr _ 0%nat (x :: y :: l)) with (S (Nat.max (f x) m)). cbn [length]. lia.
Qed.

Lemma need_length j : json_wf j → (need j ≤ length (json_chars j))%nat.
Proof.
  induction j as [s|z|t|b| |l IH|fs IH] using json_induction; intros Hwf.
  - simpl. lia.
  - destruct (value_head _ Hwf) as (c & cs & -> & _). simpl. lia.
  - destruct (value_head _ Hwf) as (c & cs & -> & _). simpl. lia.
  - destruct b; simpl; lia.
  - simpl. lia.
  - rewrite array_wf in Hwf. cbn [need json_chars]. simpl length. rewrite length_app. simpl length.
    enough (foldr (λ x n, S (Nat.max (need x) n)) 0 l ≤ S (length (commas (map json_chars l))))%nat by lia.
    apply commas_need. rewrite Forall_forall in *. eauto.
  - rewrite object_wf in Hwf. cbn [need json_chars]. simpl length. rewrite length_app. simpl length.
    change (map _ fs) with (map field_chars fs).
    enough (foldr (λ f n, S (Nat.max (need f.2) n)) 0 fs ≤ S (length (commas (map field_chars fs))))%nat by lia.
    apply (commas_need (λ f, need f.2)). destruct Hwf as [_ Hwf]. rewrite Forall_forall in *.
    intros f Hf. specialize (IH f Hf (Hwf f Hf)). unfold field_chars. rewrite length_app. simpl. lia.
Qed.

(** [JSON.parse(JSON.stringify(j))] is [j]. *)
Lemma JSON_round_trip j : json_wf j → JSON_parse (JSON_stringify j) = Some j.
Proof.
  intros Hwf. unfold JSON_parse, JSON_stringify. rewrite chars_of_chars.
  destruct (reads_all (S (length (json_chars j)))) as [Hv _].
  specialize (Hv j []). rewrite app_nil_r in Hv. rewrite Hv; [done| |done|done].
  pose proof (need_length j Hwf). lia.
Qed.

(** *** A text stays on its line *)

Definition newline : ascii := "010"%char.

Lemma escape_one_line c : newline ∉ escape c.
Proof. destruct c as [[] [] [] [] [] [] [] []]; simpl; set_solver. Qed.

Lemma digits_one_line ds : forallb is_number_char ds = true → newline ∉ ds.
Proof. intros Hd Hin. rewrite forallb_forall in Hd. by specialize (Hd newline (proj1 (list_elem_of_In _ _) Hin)). Qed.

Lemma commas_one_line l : Forall (λ x, newline ∉ x) l → newline ∉ commas l.
Proof.
  induction 1 as [|x l Hx Hl IH]; [by intros ?%elem_of_nil|]. destruct l as [|y l]; [done|].
  change (commas (x :: y :: l)) with (x ++ ","%char :: commas (y :: l)). rewrite elem_of_app, elem_of_cons. naive_solver.
Qed.

Lemma string_one_line s : newline ∉ string_json s.
Proof.
  unfold string_json. rewrite elem_of_cons, elem_of_app, list_elem_of_singleton.
  intros [?|[(c & Hc & _)%list_elem_of_bind|?]]; [done| |done]. by apply escape_one_line in Hc.
Qed.

Lemma one_line j : json_wf j → newline ∉ json_chars j.
Proof.
  induction j as [s|z|t|b| |l IH|fs IH] using json_induction; intros Hwf; cbn [json_chars].
  - apply string_one_line.
  - apply digits_one_line, z_to_string_number.
  - apply digits_one_line, Hwf.
  - destruct b; set_solver.
  - set_solver.
  - rewrite array_wf in Hwf. rewrite elem_of_cons, elem_of_app, list_elem_of_singleton.
    intros [?|[Hin|?]]; [done| |done]. revert Hin. apply commas_one_line, Forall_map.
    rewrite Forall_forall in *. eauto.
  - rewrite object_wf in Hwf. destruct Hwf as [_ Hwf]. rewrite elem_of_cons, elem_of_app, list_elem_of_singleton.
    intros [?|[Hin|?]]; [done| |done]. revert Hin. apply commas_one_line, Forall_map.
    rewrite Forall_forall in *. intros f Hf. change (newline ∉ string_json f.1 ++ ":"%char :: json_chars f.2).
    rewrite elem_of_app, elem_of_cons.
    intros [?|[?|?]]; [by eapply string_one_line|done|by eapply IH; eauto].
Qed.
