(* ===== verification/Spend.v ===== *)
(** * Spending paths of a Writz lock ([bitcoin-script/src/spend.ts])

    Witness serialization, the two witness finalizers, and the builders of the
    release (path A) and emergency (path B) transactions. The PSBT container is
    [bitcoinjs-lib]'s: it enters as the interface [PsbtLib]. *)

From S2P Require Import Prelude JsData.

Inductive spend_error : Type :=
| OutOfRange            (* Node's ERR_OUT_OF_RANGE from [writeUInt16LE] or [readUInt16LE] *)
| VarIntOffset (offset : Z)
| VarIntTooLarge
| NoPartialSignatures
| NoWitnessScript
| NoUserSignature
| NoProtocolSignature
| PsbtError (what : string).

#[global] Instance spend_error_eq_dec : EqDecision spend_error.
Proof. solve_decision. Defined.

(** ** Variable-length integers *)

Definition encodeVarInt (n : Z) : result spend_error (list byte) :=
  if n <? 0xfd then Ok [z2b n]
  else if n <=? 0xffff then Ok (xfd :: le_bytes 2 n)
  else Err OutOfRange.

Definition readVarInt (buf : list byte) (offset : Z) : result spend_error (Z * Z) :=
  match at_ buf offset with
  | None => Err (VarIntOffset offset)
  | Some first =>
      if b2z first <? 0xfd then Ok (b2z first, 1)
      else if b2z first =? 0xfd then
        match readUIntLE 2 buf (offset + 1) with
        | Some v => Ok (v, 3)
        | None => Err OutOfRange
        end
      else Err VarIntTooLarge
  end.

(** ** Witness stacks *)

(** The [for (const item of items)] loop of [serializeWitness]. *)
Fixpoint serialize_items (items : list (list byte)) : result spend_error (list byte) :=
  match items with
  | [] => Ok []
  | item :: items =>
      len ← encodeVarInt (zlen item);
      rest ← serialize_items items;
      mret (len ++ item ++ rest)
  end.

Definition serializeWitness (items : list (list byte)) : result spend_error (list byte) :=
  count ← encodeVarInt (zlen items);
  rest ← serialize_items items;
  mret (count ++ rest).

(** The [for (let i = 0; i < count; i++)] loop of [deserializeWitness]. *)
Fixpoint deserialize_items (buf : list byte) (offset : Z) (count : nat)
    : result spend_error (list (list byte)) :=
  match count with
  | O => Ok []
  | S count =>
      '(len, lenSize) ← readVarInt buf offset;
      let offset := offset + lenSize in
      rest ← deserialize_items buf (offset + len) count;
      mret (subarray buf offset (offset + len) :: rest)
  end.

Definition deserializeWitness (buf : list byte) : result spend_error (list (list byte)) :=
  '(count, countSize) ← readVarInt buf 0;
  deserialize_items buf countSize (Z.to_nat count).

(** ** Finalizers *)

Record partial_sig : Type := { pubkey : list byte; signature : list byte }.

Record psbt_input : Type := {
  partialSig : option (list partial_sig);
  witnessScript : option (list byte);
}.

(** [partialSig.find((ps) => ps.pubkey.equals(key))] *)
Definition find_sig (key : list byte) (sigs : list partial_sig) : option partial_sig :=
  snd <$> list_find (λ ps, pubkey ps = key) sigs.

(** [input.partialSig?.length] is falsy and [input.witnessScript] is unset. *)
Definition checked_input (input : psbt_input)
    : result spend_error (list partial_sig * list byte) :=
  match partialSig input, witnessScript input with
  | None, _ | Some [], _ => Err NoPartialSignatures
  | Some _, None => Err NoWitnessScript
  | Some sigs, Some script => Ok (sigs, script)
  end.

Definition _finalizeA (input : psbt_input) (userPubkey protocolPubkey : list byte)
    : result spend_error (list byte) :=
  '(sigs, script) ← checked_input input;
  userEntry ← of_option (find_sig userPubkey sigs) NoUserSignature;
  protocolEntry ← of_option (find_sig protocolPubkey sigs) NoProtocolSignature;
  serializeWitness [signature userEntry; signature protocolEntry; [x01]; script].

Definition _finalizeB (input : psbt_input) (userPubkey : list byte)
    : result spend_error (list byte) :=
  '(sigs, script) ← checked_input input;
  userEntry ← of_option (find_sig userPubkey sigs) NoUserSignature;
  serializeWitness [signature userEntry; []; script].

(** ** Transaction builders *)

Record SpendParams : Type := {
  txidHex : string;
  vout : Z;
  amountSat : Z;
  scriptPubKey : list byte;
  redeemScript : list byte;
  recipientAddress : string;
  feeSat : Z;
}.

Record input_data : Type := {
  in_hash : string;
  in_index : Z;
  in_witnessUtxo : list byte * Z;
  in_witnessScript : list byte;
  in_sequence : Z;
}.

(** What the code uses of [bitcoin.Psbt]; a rejected argument throws. *)
Class PsbtLib (psbt : Type) : Type := {
  psbt_new : psbt;
  psbt_setLocktime : Z → psbt → psbt;
  psbt_addInput : input_data → psbt → result spend_error psbt;
  psbt_addOutput : string → Z → psbt → result spend_error psbt;
  (** Calls the finalizer on the input's data and stores the witness. *)
  psbt_input_at : psbt → Z → result spend_error psbt_input;
  psbt_set_witness : Z → list byte → psbt → result spend_error psbt;
}.

Definition SEQUENCE_LOCKTIME_ENABLED : Z := 0xfffffffe.

Section builders.
Context {psbt : Type} `{PsbtLib psbt}.

Definition buildReleaseTransaction (params : SpendParams) : result spend_error psbt :=
  p ← psbt_addInput {|
        in_hash := txidHex params;
        in_index := vout params;
        in_witnessUtxo := (scriptPubKey params, amountSat params);
        in_witnessScript := redeemScript params;
        in_sequence := 0xfffffffe;
      |} psbt_new;
  psbt_addOutput (recipientAddress params) (amountSat params - feeSat params) p.

Definition buildEmergencyTransaction (params : SpendParams) (timelockHeight : Z)
    : result spend_error psbt :=
  p ← psbt_addInput {|
        in_hash := txidHex params;
        in_index := vout params;
        in_witnessUtxo := (scriptPubKey params, amountSat params);
        in_witnessScript := redeemScript params;
        in_sequence := SEQUENCE_LOCKTIME_ENABLED;
      |} (psbt_setLocktime timelockHeight psbt_new);
  psbt_addOutput (recipientAddress params) (amountSat params - feeSat params) p.

Definition finalizePathA (p : psbt) (inputIndex : Z) (userPubkey protocolPubkey : list byte)
    : result spend_error psbt :=
  input ← psbt_input_at p inputIndex;
  w ← _finalizeA input userPubkey protocolPubkey;
  psbt_set_witness inputIndex w p.

Definition finalizePathB (p : psbt) (inputIndex : Z) (userPubkey : list byte)
    : result spend_error psbt :=
  input ← psbt_input_at p inputIndex;
  w ← _finalizeB input userPubkey;
  psbt_set_witness inputIndex w p.
End builders.

(** ** Lemmas *)

Lemma encodeVarInt_ok n :
  0 ≤ n → is_ok (encodeVarInt n) = bool_decide (n ≤ 0xffff).
Proof.
  intros Hn. unfold encodeVarInt. repeat split_match; bools;
  symmetry; apply bool_decide_eq_true || apply bool_decide_eq_false; lia.
Qed.

Lemma readVarInt_encode n pre enc post :
  0 ≤ n → encodeVarInt n = Ok enc →
  readVarInt (pre ++ enc ++ post) (zlen pre) = Ok (n, zlen enc).
Proof.
  intros Hn He. unfold encodeVarInt in He. unfold readVarInt.
  split_in He; bools.
  - rewrite at_app_r. rewrite b2z_z2b, Z.mod_small by lia.
    destruct (n <? 253) eqn:E; bools; [done|lia].
  - rewrite at_app_r. simpl.
    replace (pre ++ xfd :: z2b n :: z2b (n / 256) :: post)
      with ((pre ++ [xfd]) ++ le_bytes 2 n ++ post) by (by rewrite <- app_assoc).
    replace (zlen pre + 1) with (zlen (pre ++ [xfd])) by (rewrite zlen_app; done).
    rewrite readUIntLE_app by (simpl; lia). done.
Qed.

Lemma deserialize_serialize_items items pre enc post :
  serialize_items items = Ok enc →
  deserialize_items (pre ++ enc ++ post) (zlen pre) (length items) = Ok items.
Proof.
  revert pre enc. induction items as [|item items IH]; intros pre enc He; [done|].
  cbn [serialize_items] in He. unfold mbind, result_bind, mret, result_ret in He.
  destruct (encodeVarInt (zlen item)) as [len|] eqn:El; [|done].
  destruct (serialize_items items) as [rest|] eqn:Er; [|done].
  injection He as <-. cbn [length deserialize_items].
  rewrite <- !app_assoc.
  rewrite (readVarInt_encode (zlen item)) by (done || apply zlen_nonneg).
  unfold mbind, result_bind, mret, result_ret.
  replace (zlen pre + zlen len + zlen item) with (zlen (pre ++ len ++ item))
    by (rewrite !zlen_app; lia).
  replace (pre ++ len ++ item ++ rest ++ post) with ((pre ++ len ++ item) ++ rest ++ post)
    by (by rewrite <- !app_assoc).
  rewrite IH by done. do 2 f_equal.
  rewrite <- !app_assoc. rewrite (app_assoc pre len).
  replace (zlen pre + zlen len) with (zlen (pre ++ len)) by (rewrite zlen_app; lia).
  apply subarray_app. rewrite !zlen_app. lia.
Qed.

Lemma serialize_items_ok items :
  is_ok (serialize_items items) = forallb (λ i, bool_decide (zlen i ≤ 0xffff)) items.
Proof.
  induction items as [|item items IH]; [done|]. cbn [serialize_items forallb].
  rewrite <- encodeVarInt_ok by apply zlen_nonneg.
  unfold mbind, result_bind.
  destruct (encodeVarInt (zlen item)); [|done]. rewrite <- IH.
  destruct (serialize_items items); done.
Qed.

(** Whatever [serializeWitness] produces, [deserializeWitness] reads back. *)
Lemma deserialize_serialize items buf post :
  serializeWitness items = Ok buf → deserializeWitness (buf ++ post) = Ok items.
Proof.
  unfold serializeWitness, deserializeWitness, mbind, result_bind, mret, result_ret.
  intros Hs.
  destruct (encodeVarInt (zlen items)) as [count|] eqn:Ec; [|done].
  destruct (serialize_items items) as [rest|] eqn:Er; [|done].
  injection Hs as <-. rewrite <- app_assoc.
  pose proof (readVarInt_encode (zlen items) [] count (rest ++ post) (zlen_nonneg _) Ec) as Hc.
  change (readVarInt (count ++ rest ++ post) 0 = Ok (zlen items, zlen count)) in Hc.
  rewrite Hc.
  replace (Z.to_nat (zlen items)) with (length items) by (unfold zlen; lia).
  apply (deserialize_serialize_items items count rest post). done.
Qed.

Lemma encodeVarInt_err n e : encodeVarInt n = Err e → e = OutOfRange.
Proof. unfold encodeVarInt. intros H. split_in H; done. Qed.

Lemma serialize_items_err items e : serialize_items items = Err e → e = OutOfRange.
Proof.
  induction items as [|item items IH]; [done|]. cbn [serialize_items].
  unfold mbind, result_bind, mret, result_ret. intros H.
  destruct (encodeVarInt (zlen item)) eqn:E; [|apply encodeVarInt_err in E; congruence].
  destruct (serialize_items items); [done|]. apply IH. congruence.
Qed.

(** The stacks the two-byte length prefix can carry. *)
Definition fits (items : list (list byte)) : Prop :=
  zlen items ≤ 0xffff ∧ Forall (λ i, zlen i ≤ 0xffff) items.

Lemma serialize_items_fits items :
  is_ok (serialize_items items) = true ↔ Forall (λ i, zlen i ≤ 0xffff) items.
Proof.
  rewrite serialize_items_ok, forallb_forall, Forall_forall.
  split; intros H i Hi; apply list_elem_of_In in Hi; specialize (H i Hi).
  - by apply bool_decide_eq_true in H.
  - by apply bool_decide_eq_true.
Qed.

Lemma find_sig_key key sigs e : find_sig key sigs = Some e → pubkey e = key ∧ e ∈ sigs.
Proof.
  unfold find_sig. intros H. apply fmap_Some in H as ([i ps] & Hf & ->).
  apply list_find_Some in Hf as (Hl & Hk & _). split; [done|].
  by eapply list_elem_of_lookup_2.
Qed.

(** What the finalizers put in the witness. *)
Lemma finalizeA_items input userPubkey protocolPubkey w :
  _finalizeA input userPubkey protocolPubkey = Ok w →
  ∃ sigs script u p, partialSig input = Some sigs ∧ witnessScript input = Some script ∧
    u ∈ sigs ∧ pubkey u = userPubkey ∧ p ∈ sigs ∧ pubkey p = protocolPubkey ∧
    deserializeWitness w = Ok [signature u; signature p; [x01]; script].
Proof.
  unfold _finalizeA, checked_input, mbind, result_bind, of_option. intros H.
  destruct (partialSig input) as [[|s0 sigs]|]; try done.
  destruct (witnessScript input) as [script|]; try done.
  destruct (find_sig userPubkey _) as [u|] eqn:Eu; try done.
  destruct (find_sig protocolPubkey _) as [p|] eqn:Ep; [|done].
  apply find_sig_key in Eu as [Hu Hin]. apply find_sig_key in Ep as [Hp Hinp].
  eexists _, _, u, p. do 6 (split; [done|]).
  rewrite <- (app_nil_r w). by apply deserialize_serialize.
Qed.

Lemma finalizeB_items input userPubkey w :
  _finalizeB input userPubkey = Ok w →
  ∃ sigs script u, partialSig input = Some sigs ∧ witnessScript input = Some script ∧
    u ∈ sigs ∧ pubkey u = userPubkey ∧ deserializeWitness w = Ok [signature u; []; script].
Proof.
  unfold _finalizeB, checked_input, mbind, result_bind, of_option. intros H.
  destruct (partialSig input) as [[|s0 sigs]|]; try done.
  destruct (witnessScript input) as [script|]; try done.
  destruct (find_sig userPubkey _) as [u|] eqn:Eu; try done.
  apply find_sig_key in Eu as [Hu Hin].
  eexists _, _, u. do 4 (split; [done|]).
  rewrite <- (app_nil_r w). by apply deserialize_serialize.
Qed.

(** ** Properties *)

(** a witness stack survives serialization. [serializeWitness] succeeds
    exactly on the stacks of at most 65535 items of at most 65535 bytes, then
    [deserializeWitness] reads the same items back, also when other bytes
    follow; on any other stack it throws a range error. *)
Theorem witness_roundtrip items :
  (fits items ∧ ∃ buf, serializeWitness items = Ok buf ∧
     ∀ post, deserializeWitness (buf ++ post) = Ok items) ∨
  (¬ fits items ∧ serializeWitness items = Err OutOfRange).
Proof.
  pose proof (encodeVarInt_ok (zlen items) (zlen_nonneg _)) as Hc.
  pose proof (serialize_items_fits items) as Hi.
  destruct (serializeWitness items) as [buf|e] eqn:Es; [left|right];
    pose proof Es as Es'; unfold serializeWitness, mbind, result_bind in Es';
    destruct (encodeVarInt (zlen items)) as [count|] eqn:Ec; try done;
    destruct (serialize_items items) as [rest|] eqn:Er; try done; simpl in *.
  - symmetry in Hc. bools. split; [by split; [|apply Hi]|].
    exists buf. split; [done|]. intros post. by apply deserialize_serialize.
  - split; [|apply serialize_items_err in Er; congruence].
    intros [_ Hall]. by apply Hi in Hall.
  - symmetry in Hc. bools. split; [|apply encodeVarInt_err in Ec; congruence].
    intros [? _]. done.
  - symmetry in Hc. bools. split; [|apply encodeVarInt_err in Ec; congruence].
    intros [? _]. done.
Qed.

(** The witness [_finalizeA] builds spends through the co-signed branch
    and nothing else: it holds the signature found under the user's key, the
    signature found under the protocol's key, the byte 0x01 that [OP_IF]
    takes, and the redeem script, in that order; [_finalizeB]'s holds the
    user's signature, the empty item that takes the [OP_ELSE] branch, and the
    script. *)
Theorem finalizers_build_their_branch input userPubkey protocolPubkey w :
  (_finalizeA input userPubkey protocolPubkey = Ok w →
   ∃ sigs script u p, partialSig input = Some sigs ∧ witnessScript input = Some script ∧
     u ∈ sigs ∧ pubkey u = userPubkey ∧ p ∈ sigs ∧ pubkey p = protocolPubkey ∧
     deserializeWitness w = Ok [signature u; signature p; [x01]; script]) ∧
  (_finalizeB input userPubkey = Ok w →
   ∃ sigs script u, partialSig input = Some sigs ∧ witnessScript input = Some script ∧
     u ∈ sigs ∧ pubkey u = userPubkey ∧
     deserializeWitness w = Ok [signature u; []; script]).
Proof. split; [apply finalizeA_items|apply finalizeB_items]. Qed.

Definition example_input : psbt_input := {|
  partialSig := Some [ {| pubkey := [x03]; signature := [xbb] |};
                       {| pubkey := [x02]; signature := [xaa] |} ];
  witnessScript := Some [x63; x68];
|}.

Example finalizers_build_their_branch_witness :
  ∃ w, _finalizeA example_input [x02] [x03] = Ok w ∧
    ∃ sigs script u p, partialSig example_input = Some sigs ∧
      witnessScript example_input = Some script ∧
      u ∈ sigs ∧ pubkey u = [x02] ∧ p ∈ sigs ∧ pubkey p = [x03] ∧
      deserializeWitness w = Ok [signature u; signature p; [x01]; script].
Proof.
  eexists. split; [vm_compute; reflexivity|].
  apply (proj1 (finalizers_build_their_branch example_input [x02] [x03] _)).
  vm_compute. reflexivity.
Defined.

(** The last item of a truncated witness is silently shortened: unlike the
    relayer's [stripWitness], [deserializeWitness] slices without a bound
    check. Here the item is announced with three bytes and holds one. *)
Example deserialize_accepts_truncated :
  deserializeWitness [x01; x03; xaa] = Ok [[xaa]].
Proof. vm_compute. reflexivity. Qed.
