(* ===== verification/BitcoinTx.v ===== *)
(** * Bitcoin transactions ([relayer/src/bitcoin/tx.ts])

    Stripping the witness of a raw transaction and reading one of its outputs,
    against a reference serializer of BIP-141 transactions. *)

From S2P Require Import Prelude JsData.

Inductive tx_error : Type :=
| SliceRange (start len : Z)       (* [sliceExact]: the range runs past the buffer *)
| OffsetRange (offset : Z)         (* [readVarInt] on an [undefined] byte *)
| ReadRange (offset : Z)           (* Node's ERR_OUT_OF_RANGE of a fixed-width read *)
| VarIntUnsafe                     (* an 8-byte varint above 32 bits *)
| ValueUnsafe (value : Z)          (* a value above Number.MAX_SAFE_INTEGER *)
| OutputIndex (outputIndex outputCount : Z)
| Unreachable.

#[global] Instance tx_error_eq_dec : EqDecision tx_error.
Proof. solve_decision. Defined.

Definition MAX_SAFE_INTEGER : Z := 2 ^ 53 - 1.

(** ** Reads *)

Definition sliceExact (buf : list byte) (start len : Z) : result tx_error (list byte) :=
  let end_ := start + len in
  if zlen buf <? end_ then Err (SliceRange start len)
  else Ok (subarray buf start end_).

Definition bigUInt64ToSafeNumber (value : Z) : result tx_error Z :=
  if MAX_SAFE_INTEGER <? value then Err (ValueUnsafe value) else Ok value.

Definition read_le (n : nat) (buf : list byte) (offset : Z) : result tx_error Z :=
  of_option (readUIntLE n buf offset) (ReadRange offset).

Definition readVarInt (buf : list byte) (offset : Z) : result tx_error (Z * Z) :=
  match at_ buf offset with
  | None => Err (OffsetRange offset)
  | Some first =>
      if b2z first <? 0xfd then Ok (b2z first, 1)
      else if b2z first =? 0xfd then v ← read_le 2 buf (offset + 1); mret (v, 3)
      else if b2z first =? 0xfe then v ← read_le 4 buf (offset + 1); mret (v, 5)
      else
        lo ← read_le 4 buf (offset + 1);
        hi ← read_le 4 buf (offset + 5);
        if 0 <? hi then Err VarIntUnsafe else mret (lo, 9)
  end.

Definition segwit_marker (buf : list byte) : bool :=
  bool_decide (at_ buf 4 = Some x00) && bool_decide (at_ buf 5 = Some x01).

Definition isSegwit (rawHex : string) : bool :=
  let buf := from_hex rawHex in
  (6 <? zlen buf) && segwit_marker buf.

(** ** [stripWitness]

    The loops carry the two variables the code mutates: the offset [i] and the
    bytes pushed so far, [out]. *)

Section strip.
Context (buf : list byte).

(** [out.push(...sliceExact(buf, i, n)); i += n] *)
Definition copy (n : Z) (st : Z * list byte) : result tx_error (Z * list byte) :=
  let '(i, out) := st in
  bs ← sliceExact buf i n;
  mret (i + n, out ++ bs).

(** A varint-prefixed field copied whole. *)
Definition copy_script (st : Z * list byte) : result tx_error (Z * list byte) :=
  '(scriptLen, scriptLenSize) ← readVarInt buf (fst st);
  copy (scriptLenSize + scriptLen) st.

Fixpoint strip_inputs (inputCount : nat) (st : Z * list byte)
    : result tx_error (Z * list byte) :=
  match inputCount with
  | O => Ok st
  | S inputCount =>
      st ← copy 36 st;
      st ← copy_script st;
      st ← copy 4 st;
      strip_inputs inputCount st
  end.

Fixpoint strip_outputs (outputCount : nat) (st : Z * list byte)
    : result tx_error (Z * list byte) :=
  match outputCount with
  | O => Ok st
  | S outputCount =>
      st ← copy 8 st;
      st ← copy_script st;
      strip_outputs outputCount st
  end.

Fixpoint skip_items (stackItems : nat) (i : Z) : result tx_error Z :=
  match stackItems with
  | O => Ok i
  | S stackItems =>
      '(itemLen, itemLenSize) ← readVarInt buf i;
      skip_items stackItems (i + (itemLenSize + itemLen))
  end.

Fixpoint skip_witness (inputCount : nat) (i : Z) : result tx_error Z :=
  match inputCount with
  | O => Ok i
  | S inputCount =>
      '(stackItems, stackItemsSize) ← readVarInt buf i;
      i ← skip_items (Z.to_nat stackItems) (i + stackItemsSize);
      skip_witness inputCount i
  end.

(** The whole pass: the offset reached and the bytes kept. *)
Definition strip_walk : result tx_error (Z * list byte) :=
  st ← copy 4 (0, []);
  let st := (fst st + 2, snd st) in
  '(inputCount, inputCountLen) ← readVarInt buf (fst st);
  st ← copy inputCountLen st;
  st ← strip_inputs (Z.to_nat inputCount) st;
  '(outputCount, outputCountLen) ← readVarInt buf (fst st);
  st ← copy outputCountLen st;
  st ← strip_outputs (Z.to_nat outputCount) st;
  i ← skip_witness (Z.to_nat inputCount) (fst st);
  copy 4 (i, snd st).
End strip.

Definition stripWitness (rawHex : string) : result tx_error string :=
  if negb (isSegwit rawHex) then Ok rawHex
  else (λ st, to_hex (snd st)) <$> strip_walk (from_hex rawHex).

(** ** [parseOutput] *)

Section parse.
Context (buf : list byte).

Fixpoint skip_inputs (inputCount : nat) (i : Z) : result tx_error Z :=
  match inputCount with
  | O => Ok i
  | S inputCount =>
      let i := i + 36 in
      '(scriptLen, scriptLenSize) ← readVarInt buf i;
      skip_inputs inputCount (i + (scriptLenSize + scriptLen + 4))
  end.

(** The [for (let k = 0; k <= outputIndex; k++)] loop with [more] turns
    after this one. *)
Fixpoint parse_outputs (more : nat) (i : Z) : result tx_error (Z * string) :=
  value ← read_le 8 buf i;
  valueSat ← bigUInt64ToSafeNumber value;
  let i := i + 8 in
  '(scriptLen, scriptLenSize) ← readVarInt buf i;
  spk ← sliceExact buf (i + scriptLenSize) scriptLen;
  match more with
  | O => mret (valueSat, to_hex spk)
  | S more => parse_outputs more (i + (scriptLenSize + scriptLen))
  end.

(** From the input count, at offset [i], on. *)
Definition parse_from (outputIndex i : Z) : result tx_error (Z * string) :=
  '(inputCount, inputCountLen) ← readVarInt buf i;
  i ← skip_inputs (Z.to_nat inputCount) (i + inputCountLen);
  '(outputCount, outputCountLen) ← readVarInt buf i;
  if outputCount <=? outputIndex then Err (OutputIndex outputIndex outputCount)
  else if outputIndex <? 0 then Err Unreachable
  else parse_outputs (Z.to_nat outputIndex) (i + outputCountLen).
End parse.

Definition parseOutput (rawHex : string) (outputIndex : Z) : result tx_error (Z * string) :=
  let buf := from_hex rawHex in
  let i := 4 in
  let i := if segwit_marker buf then i + 2 else i in
  parse_from buf outputIndex i.

(** ** Reference serialization (BIP-141) *)

Record TxIn : Type := { prevout : list byte; scriptSig : list byte; sequence : list byte }.
Record TxOut : Type := { value : Z; scriptPubKey : list byte }.
Record Tx : Type := {
  version : list byte;
  ins : list TxIn;
  outs : list TxOut;
  witness : list (list (list byte));   (* one stack per input *)
  locktime : list byte;
}.

Definition compact_size (n : Z) : list byte :=
  if n <? 0xfd then [z2b n]
  else if n <=? 0xffff then xfd :: le_bytes 2 n
  else xfe :: le_bytes 4 n.

Definition ser_script (s : list byte) : list byte := compact_size (zlen s) ++ s.
Definition ser_in (t : TxIn) : list byte := prevout t ++ ser_script (scriptSig t) ++ sequence t.
Definition ser_out (t : TxOut) : list byte := le_bytes 8 (value t) ++ ser_script (scriptPubKey t).
Definition ser_stack (items : list (list byte)) : list byte :=
  compact_size (zlen items) ++ concat (map ser_script items).

Definition ser_ins (l : list TxIn) : list byte := concat (map ser_in l).
Definition ser_outs (l : list TxOut) : list byte := concat (map ser_out l).
Definition ser_witness (l : list (list (list byte))) : list byte := concat (map ser_stack l).

Definition ser_body (t : Tx) : list byte :=
  compact_size (zlen (ins t)) ++ ser_ins (ins t) ++
  compact_size (zlen (outs t)) ++ ser_outs (outs t).

Definition ser_legacy (t : Tx) : list byte := version t ++ ser_body t ++ locktime t.
Definition ser_segwit (t : Tx) : list byte :=
  version t ++ [x00; x01] ++ ser_body t ++ ser_witness (witness t) ++ locktime t.

Definition u32 (n : Z) : Prop := n < 2 ^ 32.

Definition wf_in (t : TxIn) : Prop :=
  zlen (prevout t) = 36 ∧ u32 (zlen (scriptSig t)) ∧ zlen (sequence t) = 4.
Definition wf_out (t : TxOut) : Prop :=
  0 ≤ value t < 2 ^ 64 ∧ u32 (zlen (scriptPubKey t)).
Definition wf_stack (items : list (list byte)) : Prop :=
  u32 (zlen items) ∧ Forall (λ i, u32 (zlen i)) items.

(** A transaction has at least one input; otherwise its legacy form can start
    like the SegWit marker. *)
Definition wf_tx (t : Tx) : Prop :=
  zlen (version t) = 4 ∧ zlen (locktime t) = 4 ∧
  0 < zlen (ins t) ∧ u32 (zlen (ins t)) ∧ u32 (zlen (outs t)) ∧
  Forall wf_in (ins t) ∧ Forall wf_out (outs t) ∧
  length (witness t) = length (ins t) ∧ Forall wf_stack (witness t).

(** ** Lemmas *)

Lemma compact_size_pos n : 0 < zlen (compact_size n).
Proof. unfold compact_size. repeat split_match; unfold zlen; simpl; lia. Qed.

Lemma readVarInt_at buf i n :
  holds_at buf i (compact_size n) → 0 ≤ n → u32 n →
  readVarInt buf i = Ok (n, zlen (compact_size n)).
Proof.
  unfold compact_size, u32, readVarInt, read_le. intros H Hn Hlt.
  repeat (match type of H with context [if ?c then _ else _] => destruct c eqn:?; bools end).
  - rewrite (at_holds _ _ _ H), b2z_z2b, Z.mod_small by lia.
    destruct (n <? 253) eqn:?; bools; [done|lia].
  - apply holds_at_cons in H as [Hb H]. rewrite (at_holds _ _ _ Hb). simpl.
    rewrite (readUIntLE_holds 2 buf (i + 1) n H) by (simpl; lia). done.
  - apply holds_at_cons in H as [Hb H]. rewrite (at_holds _ _ _ Hb). simpl.
    rewrite (readUIntLE_holds 4 buf (i + 1) n H) by (simpl; lia). done.
Qed.

Lemma sliceExact_at buf i bs n :
  holds_at buf i bs → n = zlen bs → sliceExact buf i n = Ok bs.
Proof.
  intros H ->. unfold sliceExact. pose proof (holds_at_bound _ _ _ H).
  destruct (zlen buf <? i + zlen bs) eqn:E; bools; [lia|].
  by rewrite (subarray_holds _ _ _ _ H eq_refl).
Qed.

Lemma copy_at buf i bs n out :
  holds_at buf i bs → n = zlen bs → copy buf n (i, out) = Ok (i + n, out ++ bs).
Proof.
  intros H Hn. unfold copy, mbind, result_bind. by rewrite (sliceExact_at _ _ _ _ H Hn).
Qed.

Lemma copy_script_at buf i s out :
  holds_at buf i (ser_script s) → u32 (zlen s) →
  copy_script buf (i, out) = Ok (i + zlen (ser_script s), out ++ ser_script s).
Proof.
  intros H Hs. unfold copy_script, mbind, result_bind. cbn [fst].
  pose proof (holds_at_app _ _ _ _ H) as [Hc _].
  rewrite (readVarInt_at _ _ _ Hc (zlen_nonneg _) Hs). cbn beta iota.
  rewrite (copy_at _ _ _ _ _ H); unfold ser_script; rewrite zlen_app; done.
Qed.

Ltac step_ok H := rewrite H; cbn [mbind result_bind fst snd].

Lemma strip_inputs_at buf l i out :
  Forall wf_in l → holds_at buf i (ser_ins l) →
  strip_inputs buf (length l) (i, out) = Ok (i + zlen (ser_ins l), out ++ ser_ins l).
Proof.
  revert i out. induction l as [|t l IH]; intros i out Hwf H.
  - simpl. rewrite app_nil_r. do 2 f_equal. unfold zlen. simpl. lia.
  - apply Forall_cons in Hwf as [(Hp & Hs & Hq) Hwf].
    unfold ser_ins in H. cbn [map concat] in H. unfold ser_in in H at 1.
    split_holds. cbn [length strip_inputs].
    step_ok (copy_at buf i (prevout t) 36 out ltac:(done) ltac:(lia)).
    rewrite <- Hp.
    step_ok (copy_script_at buf (i + zlen (prevout t)) (scriptSig t) (out ++ prevout t)
      ltac:(done) ltac:(done)).
    step_ok (copy_at buf (i + zlen (prevout t) + zlen (ser_script (scriptSig t))) (sequence t) 4
      ((out ++ prevout t) ++ ser_script (scriptSig t)) ltac:(done) ltac:(lia)).
    rewrite <- Hq.
    assert (E : i + zlen (prevout t) + zlen (ser_script (scriptSig t)) + zlen (sequence t)
                = i + zlen (ser_in t)) by (unfold ser_in; rewrite !zlen_app; lia).
    rewrite E, IH; [|done|].
    + f_equal. f_equal; [unfold ser_ins; simpl; rewrite zlen_app; lia|].
      unfold ser_ins. simpl. unfold ser_in at 2. by rewrite <- !app_assoc.
    + unfold ser_in. by match goal with H : holds_at buf _ (concat _) |- _ => exact H end.
Qed.

Lemma strip_outputs_at buf l i out :
  Forall wf_out l → holds_at buf i (ser_outs l) →
  strip_outputs buf (length l) (i, out) = Ok (i + zlen (ser_outs l), out ++ ser_outs l).
Proof.
  revert i out. induction l as [|t l IH]; intros i out Hwf H.
  - simpl. rewrite app_nil_r. do 2 f_equal. unfold zlen. simpl. lia.
  - apply Forall_cons in Hwf as [(Hv & Hs) Hwf].
    unfold ser_outs in H. cbn [map concat] in H. unfold ser_out in H at 1.
    split_holds. cbn [length strip_outputs].
    assert (Hl : zlen (le_bytes 8 (value t)) = 8) by (unfold zlen; by rewrite le_bytes_length).
    step_ok (copy_at buf i (le_bytes 8 (value t)) 8 out ltac:(done) ltac:(lia)).
    rewrite <- Hl.
    step_ok (copy_script_at buf (i + zlen (le_bytes 8 (value t))) (scriptPubKey t)
      (out ++ le_bytes 8 (value t)) ltac:(done) ltac:(done)).
    assert (E : i + zlen (le_bytes 8 (value t)) + zlen (ser_script (scriptPubKey t))
                = i + zlen (ser_out t)) by (unfold ser_out; rewrite zlen_app; lia).
    rewrite E, IH; [|done|].
    + f_equal. f_equal; [unfold ser_outs; cbn [map concat]; rewrite zlen_app; lia|].
      unfold ser_outs. cbn [map concat]. unfold ser_out at 2. by rewrite <- !app_assoc.
    + unfold ser_out. by match goal with H : holds_at buf _ (concat _) |- _ => exact H end.
Qed.

Lemma skip_items_at buf l i :
  Forall (λ s, u32 (zlen s)) l → holds_at buf i (concat (map ser_script l)) →
  skip_items buf (length l) i = Ok (i + zlen (concat (map ser_script l))).
Proof.
  revert i. induction l as [|s l IH]; intros i Hwf H.
  - simpl. f_equal. unfold zlen. simpl. lia.
  - apply Forall_cons in Hwf as [Hs Hwf]. cbn [map concat] in H. split_holds.
    pose proof (holds_at_app _ _ _ _ H) as [Hc _].
    cbn [length skip_items].
    step_ok (readVarInt_at buf i (zlen s) ltac:(done) (zlen_nonneg _) Hs).
    replace (zlen (compact_size (zlen s)) + zlen s) with (zlen (ser_script s))
      by (unfold ser_script; by rewrite zlen_app).
    rewrite IH by done. cbn [map concat]. rewrite zlen_app. f_equal. lia.
Qed.

Lemma skip_witness_at buf l i :
  Forall wf_stack l → holds_at buf i (ser_witness l) →
  skip_witness buf (length l) i = Ok (i + zlen (ser_witness l)).
Proof.
  revert i. induction l as [|st l IH]; intros i Hwf H.
  - simpl. f_equal. unfold zlen. simpl. lia.
  - apply Forall_cons in Hwf as [[Hn Hs] Hwf].
    unfold ser_witness in H. cbn [map concat] in H. unfold ser_stack in H at 1. split_holds.
    cbn [length skip_witness].
    step_ok (readVarInt_at buf i (zlen st) ltac:(done) (zlen_nonneg _) Hn).
    replace (Z.to_nat (zlen st)) with (length st) by (unfold zlen; lia).
    step_ok (skip_items_at buf st (i + zlen (compact_size (zlen st))) ltac:(done) ltac:(done)).
    assert (E : i + zlen (compact_size (zlen st)) + zlen (concat (map ser_script st))
                = i + zlen (ser_stack st)) by (unfold ser_stack; rewrite zlen_app; lia).
    rewrite E, IH; [unfold ser_witness; cbn [map concat]; rewrite zlen_app; f_equal; lia|done|].
    unfold ser_stack, ser_witness.
    by match goal with H : holds_at buf _ (concat (map ser_stack _)) |- _ => exact H end.
Qed.

Lemma skip_inputs_at buf l i :
  Forall wf_in l → holds_at buf i (ser_ins l) →
  skip_inputs buf (length l) i = Ok (i + zlen (ser_ins l)).
Proof.
  revert i. induction l as [|t l IH]; intros i Hwf H.
  - simpl. f_equal. unfold zlen. simpl. lia.
  - apply Forall_cons in Hwf as [(Hp & Hs & Hq) Hwf].
    unfold ser_ins in H. cbn [map concat] in H. unfold ser_in in H at 1. split_holds.
    match goal with Hx : holds_at buf _ (ser_script _) |- _ =>
      pose proof (holds_at_app _ _ _ _ Hx) as [Hc _] end.
    cbn [length skip_inputs]. rewrite <- Hp.
    step_ok (readVarInt_at buf _ _ Hc (zlen_nonneg _) Hs).
    assert (E : i + zlen (prevout t) + (zlen (compact_size (zlen (scriptSig t)))
                + zlen (scriptSig t) + 4) = i + zlen (ser_in t))
      by (unfold ser_in, ser_script; rewrite !zlen_app; lia).
    rewrite E, IH; [unfold ser_ins; cbn [map concat]; rewrite zlen_app; f_equal; lia|done|].
    unfold ser_in, ser_ins.
    by match goal with H : holds_at buf _ (concat (map ser_in _)) |- _ => exact H end.
Qed.

Lemma parse_outputs_at buf l i k t :
  Forall wf_out l → holds_at buf i (ser_outs l) → l !! k = Some t →
  Forall (λ t, value t ≤ MAX_SAFE_INTEGER) (take (S k) l) →
  parse_outputs buf k i = Ok (value t, to_hex (scriptPubKey t)).
Proof.
  revert i k. induction l as [|t0 l IH]; intros i k Hwf H Hk Hsafe; [done|].
  apply Forall_cons in Hwf as [[Hv Hs] Hwf]. cbn [take] in Hsafe.
  apply Forall_cons in Hsafe as [Hsafe0 Hsafe].
  unfold ser_outs in H. cbn [map concat] in H. unfold ser_out in H at 1. split_holds.
  match goal with Hx : holds_at buf _ (ser_script _) |- _ =>
    pose proof (holds_at_app _ _ _ _ Hx) as [Hc Hspk] end.
  assert (Hl : zlen (le_bytes 8 (value t0)) = 8) by (unfold zlen; by rewrite le_bytes_length).
  rewrite Hl in *.
  assert (Hread : read_le 8 buf i = Ok (value t0)).
  { unfold read_le. erewrite readUIntLE_holds; [done|done|simpl; lia]. }
  assert (Hval : bigUInt64ToSafeNumber (value t0) = Ok (value t0)).
  { unfold bigUInt64ToSafeNumber. destruct (MAX_SAFE_INTEGER <? value t0) eqn:E; bools; [lia|done]. }
  destruct k as [|k]; cbn [parse_outputs]; step_ok Hread; step_ok Hval;
    step_ok (readVarInt_at buf _ _ Hc (zlen_nonneg _) Hs);
    step_ok (sliceExact_at buf _ _ _ Hspk eq_refl).
  - simpl in Hk. by simplify_eq.
  - simpl in Hk. apply IH; try done.
    replace (i + 8 + (zlen (compact_size (zlen (scriptPubKey t0))) + zlen (scriptPubKey t0)))
      with (i + zlen (ser_out t0)) by (unfold ser_out, ser_script; rewrite !zlen_app, Hl; lia).
    unfold ser_out, ser_outs.
    by match goal with H : holds_at buf _ (concat (map ser_out _)) |- _ => exact H end.
Qed.

Lemma compact_size_head n :
  0 < n → u32 n → ∃ b rest, compact_size n = b :: rest ∧ b ≠ x00.
Proof.
  unfold compact_size, u32. intros Hn Hlt. repeat split_match; bools; eexists _, _; split; try done.
  intros Hb. apply (f_equal b2z) in Hb. rewrite b2z_z2b, Z.mod_small in Hb by lia.
  change (b2z x00) with 0 in Hb. lia.
Qed.

Lemma version_at buf (t : Tx) rest b :
  zlen (version t) = 4 → holds_at buf 0 (version t ++ b :: rest) → at_ buf 4 = Some b.
Proof.
  intros Hv H. apply holds_at_app in H as [_ H]. rewrite Hv in H.
  apply holds_at_cons in H as [H _]. by apply at_holds.
Qed.

Lemma segwit_marker_segwit t post :
  wf_tx t → segwit_marker (ser_segwit t ++ post) = true.
Proof.
  intros (Hv & _). unfold segwit_marker, ser_segwit.
  pose proof (holds_at_start (ser_segwit t) post) as H. unfold ser_segwit in H.
  rewrite (version_at _ t _ x00 Hv H).
  apply holds_at_app in H as [_ H]. rewrite Hv in H.
  apply holds_at_cons in H as [_ H]. apply holds_at_cons in H as [H _].
  change (0 + 4 + 1) with 5 in H. rewrite (at_holds _ _ _ H). done.
Qed.

Lemma segwit_marker_legacy t post :
  wf_tx t → segwit_marker (ser_legacy t ++ post) = false.
Proof.
  intros (Hv & _ & Hi & Hu & _). unfold segwit_marker.
  destruct (compact_size_head (zlen (ins t))) as (b & rest & E & Hb); [done..|].
  pose proof (holds_at_start (ser_legacy t) post) as H.
  set (buf := ser_legacy t ++ post) in *. clearbody buf.
  unfold ser_legacy, ser_body in H. rewrite E in H.
  change ((b :: rest) ++ ?x) with (b :: (rest ++ x)) in H.
  change ((b :: ?x) ++ ?y) with (b :: (x ++ y)) in H.
  rewrite (version_at _ t _ b Hv H).
  rewrite (bool_decide_eq_false_2 (Some b = Some x00)) by congruence. done.
Qed.

Lemma strip_walk_segwit t post :
  wf_tx t →
  strip_walk (ser_segwit t ++ post) = Ok (zlen (ser_segwit t), ser_legacy t).
Proof.
  intros (Hv & Hl & _ & Hui & Huo & Hins & Houts & Hwl & Hw).
  pose proof (holds_at_start (ser_segwit t) post) as H.
  set (buf := ser_segwit t ++ post) in *. clearbody buf.
  unfold ser_segwit, ser_body in H. split_holds.
  unfold strip_walk.
  step_ok (copy_at buf 0 (version t) 4 [] ltac:(done) ltac:(lia)).
  rewrite <- Hv. change (zlen [x00; x01]) with 2 in *.
  step_ok (readVarInt_at buf _ (zlen (ins t)) ltac:(done) (zlen_nonneg _) Hui).
  step_ok (copy_at buf (0 + zlen (version t) + 2)
    (compact_size (zlen (ins t))) _ ([] ++ version t) ltac:(done) eq_refl).
  replace (Z.to_nat (zlen (ins t))) with (length (ins t)) by (unfold zlen; lia).
  erewrite strip_inputs_at by done. cbn [mbind result_bind fst snd].
  step_ok (readVarInt_at buf _ (zlen (outs t)) ltac:(done) (zlen_nonneg _) Huo).
  erewrite copy_at by done. cbn [mbind result_bind fst snd].
  replace (Z.to_nat (zlen (outs t))) with (length (outs t)) by (unfold zlen; lia).
  erewrite strip_outputs_at by done. cbn [mbind result_bind fst snd].
  rewrite <- Hwl.
  match goal with Hx : holds_at buf ?i (ser_witness _) |- context [skip_witness _ _ ?j] =>
    replace j with i by (rewrite !zlen_app; lia);
    rewrite (skip_witness_at buf _ i Hw Hx) end.
  cbn [mbind result_bind fst snd].
  erewrite copy_at; [|match goal with Hx : holds_at buf ?i (locktime t) |- holds_at buf ?j _ =>
     replace j with i by (rewrite !zlen_app; lia); exact Hx end|lia].
  f_equal. f_equal.
  - unfold ser_segwit, ser_body. rewrite !zlen_app. change (zlen [x00; x01]) with 2. lia.
  - unfold ser_legacy, ser_body. simpl. by rewrite <- !app_assoc.
Qed.

(** A read that succeeded in a buffer gives the same in a longer one. *)
Lemma read_bytes_extend n buf more off bs :
  read_bytes n buf off = Some bs → read_bytes n (buf ++ more) off = Some bs.
Proof.
  unfold read_bytes. rewrite zlen_app. pose proof (zlen_nonneg more).
  destruct (_ && _) eqn:E; [|done]. bools. intros [= <-].
  destruct ((0 <=? off) && (off + Z.of_nat n <=? zlen buf + zlen more)) eqn:E2.
  - unfold zlen in *. rewrite drop_app_le by lia. rewrite take_app_le; [done|].
    rewrite length_drop. lia.
  - apply andb_false_iff in E2 as [?|?]; bools; lia.
Qed.

Lemma read_le_extend n buf more off : extends (read_le n buf off) (read_le n (buf ++ more) off).
Proof.
  intros v. unfold read_le, readUIntLE, of_option.
  destruct (read_bytes n buf off) as [bs|] eqn:E; [|done].
  by rewrite (read_bytes_extend _ _ _ _ _ E).
Qed.

Lemma readVarInt_extend buf more off : extends (readVarInt buf off) (readVarInt (buf ++ more) off).
Proof.
  unfold readVarInt. destruct (at_ buf off) as [b|] eqn:E; [|done].
  replace (at_ (buf ++ more) off) with (Some b); [|symmetry].
  2:{ unfold at_ in *. destruct (off <? 0); [done|]. by apply lookup_app_l_Some. }
  repeat case_match; try apply extends_refl; auto using read_le_extend, extends_refl with writz.
Qed.

Lemma read_le_nonneg n buf off v : read_le n buf off = Ok v → 0 ≤ v.
Proof.
  unfold read_le, readUIntLE, of_option.
  destruct (read_bytes n buf off) as [bs|]; [|done]. intros [= <-]. apply le_val_range.
Qed.

Lemma readVarInt_nonneg buf off v n : readVarInt buf off = Ok (v, n) → 0 ≤ v ∧ 1 ≤ n.
Proof.
  unfold readVarInt, mbind, result_bind, mret, result_ret. intros H.
  split_in H; byte_range; repeat match goal with
    | E : read_le _ _ _ = Ok _ |- _ => apply read_le_nonneg in E end; lia.
Qed.

(** A parsing step is [stable] when the offset it reaches lies ahead of where it
    started and it reaches the same in any longer buffer. *)
Definition stable {A B} (pa : A → Z) (pb : B → Z) (f : list byte → A → result tx_error B) : Prop :=
  ∀ buf more a b, 0 ≤ pa a → f buf a = Ok b → pa a ≤ pb b ∧ f (buf ++ more) a = Ok b.

Lemma stable_ret {A} (p : A → Z) : stable p p (λ _ a, Ok a).
Proof. intros buf more a b ? [= <-]. split; [lia|done]. Qed.

Lemma stable_bind {A B C} pa pb pc
    (f : list byte → A → result tx_error B) (g : list byte → B → result tx_error C) :
  stable pa pb f → stable pb pc g → stable pa pc (λ buf a, f buf a ≫= g buf).
Proof.
  intros Hf Hg buf more a c Hp H. unfold mbind, result_bind in *.
  destruct (f buf a) as [b|] eqn:E; [|done].
  destruct (Hf buf more a b Hp E) as [? ->].
  destruct (Hg buf more b c ltac:(lia) H) as [? ->]. split; [lia|done].
Qed.

Lemma stable_varint {A B} (pa pos : A → Z) pb (k : Z → Z → list byte → A → result tx_error B) :
  (∀ n size, 0 ≤ n → 1 ≤ size → stable pa pb (k n size)) →
  stable pa pb (λ buf a, readVarInt buf (pos a) ≫= λ '(n, size), k n size buf a).
Proof.
  intros Hk buf more a b Hp H. unfold mbind, result_bind in *.
  destruct (readVarInt buf (pos a)) as [[n size]|] eqn:E; [|done].
  rewrite (readVarInt_extend _ more _ _ E).
  apply readVarInt_nonneg in E as [? ?]. by apply (Hk n size).
Qed.

Lemma copy_bound buf n i out st' :
  copy buf n (i, out) = Ok st' → fst st' = i + n ∧ i + n ≤ zlen buf.
Proof.
  unfold copy, sliceExact, mbind, result_bind. destruct (zlen buf <? i + n) eqn:E; [done|].
  bools. intros [= <-]. done.
Qed.

Lemma copy_stable n : 0 ≤ n → stable fst fst (λ buf, copy buf n).
Proof.
  intros Hn buf more [i out] st' Hi H. cbn [fst] in *.
  pose proof (copy_bound _ _ _ _ _ H) as [-> Hb]. split; [lia|].
  revert H. unfold copy, sliceExact, mbind, result_bind. rewrite zlen_app.
  pose proof (zlen_nonneg more).
  destruct (zlen buf <? i + n) eqn:E1; [done|].
  destruct (zlen buf + zlen more <? i + n) eqn:E2; bools; [lia|].
  intros <-. do 3 f_equal. unfold subarray, clamp_index. rewrite zlen_app.
  destruct (i <? 0) eqn:E3; bools; [lia|].
  destruct (i + n <? 0) eqn:E4; bools; [lia|].
  rewrite !Z.min_l by lia. unfold zlen in *.
  rewrite drop_app_le by lia. rewrite take_app_le; [done|]. rewrite length_drop. lia.
Qed.

Lemma copy_script_stable : stable fst fst copy_script.
Proof.
  apply (stable_varint fst fst fst (λ n size buf, copy buf (size + n))).
  intros. apply copy_stable. lia.
Qed.

Lemma strip_inputs_stable n : stable fst fst (λ buf, strip_inputs buf n).
Proof.
  induction n as [|n IH]; [apply stable_ret|].
  apply (stable_bind fst fst fst (λ buf, copy buf 36)); [by apply copy_stable|].
  apply (stable_bind fst fst fst copy_script); [apply copy_script_stable|].
  by apply (stable_bind fst fst fst (λ buf, copy buf 4)); [apply copy_stable|].
Qed.

Lemma strip_outputs_stable n : stable fst fst (λ buf, strip_outputs buf n).
Proof.
  induction n as [|n IH]; [apply stable_ret|].
  apply (stable_bind fst fst fst (λ buf, copy buf 8)); [by apply copy_stable|].
  by apply (stable_bind fst fst fst copy_script); [apply copy_script_stable|].
Qed.

Lemma stable_offset {B} (d : Z) pb (f : list byte → Z → result tx_error B) :
  0 ≤ d → stable id pb f → stable id pb (λ buf i, f buf (i + d)).
Proof.
  intros Hd Hf buf more i b Hi H. unfold id in *.
  destruct (Hf buf more (i + d) b) as [? ->]; [unfold id; lia|done|]. split; [|done].
  unfold id in *. lia.
Qed.

Lemma skip_items_stable n : stable id id (λ buf, skip_items buf n).
Proof.
  induction n as [|n IH]; [apply stable_ret|].
  apply (stable_varint id id id (λ len size buf i, skip_items buf n (i + (size + len)))).
  intros len size ? ?. apply (stable_offset (size + len) id (λ buf, skip_items buf n)); [lia|done].
Qed.

Lemma skip_witness_stable n : stable id id (λ buf, skip_witness buf n).
Proof.
  induction n as [|n IH]; [apply stable_ret|].
  apply (stable_varint id id id (λ items size buf i,
    skip_items buf (Z.to_nat items) (i + size) ≫= skip_witness buf n)).
  intros items size ? ?.
  apply (stable_bind id id id (λ buf i, skip_items buf (Z.to_nat items) (i + size))); [|done].
  apply (stable_offset size id (λ buf, skip_items buf (Z.to_nat items))); [lia|].
  apply skip_items_stable.
Qed.

(** The pass that starts at the input count: [st] holds the offset and output. *)
Definition strip_tail (buf : list byte) (st : Z * list byte) : result tx_error (Z * list byte) :=
  '(inputCount, inputCountLen) ← readVarInt buf (fst st);
  st ← copy buf inputCountLen st;
  st ← strip_inputs buf (Z.to_nat inputCount) st;
  '(outputCount, outputCountLen) ← readVarInt buf (fst st);
  st ← copy buf outputCountLen st;
  st ← strip_outputs buf (Z.to_nat outputCount) st;
  i ← skip_witness buf (Z.to_nat inputCount) (fst st);
  copy buf 4 (i, snd st).

Lemma strip_end_stable n :
  stable fst fst (λ buf (st : Z * list byte),
    skip_witness buf n (fst st) ≫= λ i, copy buf 4 (i, snd st)).
Proof.
  intros buf more st st' Hp H. unfold mbind, result_bind in *.
  destruct (skip_witness buf n (fst st)) as [i|] eqn:E; [|done].
  destruct (skip_witness_stable n buf more _ _ Hp E) as [? ->]. unfold id in *.
  destruct (copy_stable 4 ltac:(lia) buf more (i, snd st) st' ltac:(simpl; lia) H) as [? ->].
  split; [simpl in *; lia|done].
Qed.

Lemma strip_tail_stable : stable fst fst strip_tail.
Proof.
  apply (stable_varint fst fst fst (λ n size buf st, _)). intros n size Hn Hs.
  apply (stable_bind fst fst fst (λ buf, copy buf size)); [apply copy_stable; lia|].
  apply (stable_bind fst fst fst (λ buf, strip_inputs buf (Z.to_nat n)));
    [apply strip_inputs_stable|].
  apply (stable_varint fst fst fst (λ n size buf st, _)). intros n' size' Hn' Hs'.
  apply (stable_bind fst fst fst (λ buf, copy buf size')); [apply copy_stable; lia|].
  apply (stable_bind fst fst fst (λ buf, strip_outputs buf (Z.to_nat n')));
    [apply strip_outputs_stable|].
  apply strip_end_stable.
Qed.

Lemma strip_walk_extend buf more : extends (strip_walk buf) (strip_walk (buf ++ more)).
Proof.
  intros st H. change (copy buf 4 (0, []) ≫= (λ st, strip_tail buf (fst st + 2, snd st)) = Ok st) in H.
  change (copy (buf ++ more) 4 (0, []) ≫= (λ st, strip_tail (buf ++ more) (fst st + 2, snd st)) = Ok st).
  unfold mbind, result_bind in *.
  destruct (copy buf 4 (0, [])) as [st1|] eqn:E; [|done].
  destruct (copy_stable 4 ltac:(lia) buf more (0, []) st1 ltac:(simpl; lia) E) as [? ->].
  by destruct (strip_tail_stable buf more (fst st1 + 2, snd st1) _ ltac:(simpl in *; lia) H) as [_ ->].
Qed.

(** The last thing the pass reads is the four-byte locktime at its end. *)
Lemma strip_walk_end buf st : strip_walk buf = Ok st → fst st ≤ zlen buf.
Proof.
  unfold strip_walk, mbind, result_bind. intros H.
  repeat match type of H with
  | match ?m with _ => _ end = _ => destruct m as [|] eqn:?; [|done]
  | (let '(_, _) := ?p in _) = _ => destruct p
  end.
  apply copy_bound in H as [-> ?]. done.
Qed.

(** ** Properties *)

(** C24: stripping the witness of a serialized transaction gives its
    non-witness serialization, the bytes whose double SHA-256 is the txid, for
    every well-formed transaction (also with bytes after it); a transaction
    without witness is returned unchanged. *)
Theorem stripWitness_correct t post :
  wf_tx t →
  stripWitness (to_hex (ser_segwit t ++ post)) = Ok (to_hex (ser_legacy t)) ∧
  stripWitness (to_hex (ser_legacy t)) = Ok (to_hex (ser_legacy t)).
Proof.
  intros Hwf. unfold stripWitness, isSegwit. rewrite !from_to_hex.
  rewrite (segwit_marker_segwit t post Hwf).
  pose proof (segwit_marker_legacy t [] Hwf) as Hleg. rewrite app_nil_r in Hleg.
  rewrite Hleg, andb_false_r. split; [|done].
  destruct (6 <? zlen (ser_segwit t ++ post)) eqn:E.
  - simpl. by rewrite (strip_walk_segwit t post Hwf).
  - exfalso. bools. destruct Hwf as (Hv & Hl & _). revert E.
    unfold ser_segwit. rewrite !zlen_app. change (zlen [x00; x01]) with 2.
    pose proof (zlen_nonneg (ser_body t)). pose proof (zlen_nonneg (ser_witness (witness t))).
    pose proof (zlen_nonneg post). lia.
Qed.

Definition example_tx : Tx := {|
  version := [x02; x00; x00; x00];
  ins := [ {| prevout := replicate 36 x11; scriptSig := []; sequence := replicate 4 xff |} ];
  outs := [ {| value := 50000; scriptPubKey := [x00; x14; xab] |};
            {| value := 7; scriptPubKey := [x51] |} ];
  witness := [ [ [x30; x44]; [x02; x03; x04] ] ];
  locktime := [x00; x00; x00; x00];
|}.

Lemma example_tx_wf : wf_tx example_tx.
Proof. unfold wf_tx, wf_in, wf_out, wf_stack, u32. simpl. repeat constructor; vm_compute; done. Qed.

Example stripWitness_correct_witness :
  stripWitness (to_hex (ser_segwit example_tx ++ [])) = Ok (to_hex (ser_legacy example_tx)).
Proof. apply (stripWitness_correct example_tx []), example_tx_wf. Defined.

(** C39: a SegWit transaction cut short anywhere is refused, never stripped into
    corrupted output: every proper prefix that still shows the marker makes
    [stripWitness] throw. *)
Theorem stripWitness_rejects_truncation t n :
  wf_tx t → 6 < n < zlen (ser_segwit t) →
  is_ok (stripWitness (to_hex (take (Z.to_nat n) (ser_segwit t)))) = false.
Proof.
  intros Hwf Hn. set (cut := take (Z.to_nat n) (ser_segwit t)).
  assert (Hlen : zlen cut = n).
  { unfold cut, zlen in *. rewrite length_take. lia. }
  assert (Hfull : ser_segwit t = cut ++ drop (Z.to_nat n) (ser_segwit t))
    by (unfold cut; by rewrite take_drop).
  pose proof (segwit_marker_segwit t [] Hwf) as Hm. rewrite app_nil_r in Hm.
  unfold stripWitness, isSegwit. rewrite from_to_hex.
  replace (segwit_marker cut) with true.
  2:{ revert Hm. rewrite Hfull. unfold segwit_marker, at_. simpl.
      unfold zlen in Hlen. rewrite !lookup_app_l by lia. done. }
  destruct (6 <? zlen cut) eqn:E; bools; [|lia]. simpl.
  destruct (strip_walk cut) as [st|] eqn:Ew; [|done]. exfalso.
  pose proof (strip_walk_end _ _ Ew).
  apply (strip_walk_extend _ (drop (Z.to_nat n) (ser_segwit t))) in Ew.
  rewrite <- Hfull in Ew.
  pose proof (strip_walk_segwit t [] Hwf) as Hs. rewrite app_nil_r, Ew in Hs.
  injection Hs as ->. simpl in *. lia.
Qed.

Example stripWitness_rejects_truncation_witness :
  is_ok (stripWitness (to_hex (take (Z.to_nat 80) (ser_segwit example_tx)))) = false.
Proof.
  apply (stripWitness_rejects_truncation example_tx 80);
    [apply example_tx_wf | vm_compute; split; reflexivity].
Defined.

Definition output_answer (t : Tx) (k : Z) : result tx_error (Z * string) :=
  match at_ (outs t) k with
  | Some o => Ok (value o, to_hex (scriptPubKey o))
  | None => Err (OutputIndex k (zlen (outs t)))
  end.

Lemma parse_from_at buf i t k :
  wf_tx t → Forall (λ o, value o ≤ MAX_SAFE_INTEGER) (outs t) → 0 ≤ k →
  holds_at buf i (ser_body t) → parse_from buf k i = output_answer t k.
Proof.
  intros (_ & _ & _ & Hui & Huo & Hins & Houts & _) Hsafe Hk H.
  unfold ser_body in H. split_holds. unfold parse_from.
  step_ok (readVarInt_at buf i (zlen (ins t)) ltac:(done) (zlen_nonneg _) Hui).
  replace (Z.to_nat (zlen (ins t))) with (length (ins t)) by (unfold zlen; lia).
  erewrite skip_inputs_at by done. cbn [mbind result_bind].
  step_ok (readVarInt_at buf _ (zlen (outs t)) ltac:(done) (zlen_nonneg _) Huo).
  unfold output_answer. destruct (zlen (outs t) <=? k) eqn:E; bools; [by rewrite at_none_ge|].
  unfold at_. destruct (k <? 0) eqn:E2; bools; [lia|].
  destruct (outs t !! Z.to_nat k) as [o|] eqn:Eo.
  - eapply parse_outputs_at; [done|done|done|]. by apply Forall_take.
  - apply lookup_ge_None in Eo. unfold zlen in E. lia.
Qed.

(** [parseOutput] reads output [k] of a serialized transaction, with or
    without witness: its value in satoshis and its script in hex when there is
    one, a range error naming the count when there is not. *)
Theorem parseOutput_correct t post k :
  wf_tx t → Forall (λ o, value o ≤ MAX_SAFE_INTEGER) (outs t) → 0 ≤ k →
  parseOutput (to_hex (ser_segwit t ++ post)) k = output_answer t k ∧
  parseOutput (to_hex (ser_legacy t ++ post)) k = output_answer t k.
Proof.
  intros Hwf Hsafe Hk. pose proof Hwf as (Hv & _).
  split; unfold parseOutput; rewrite from_to_hex.
  - rewrite (segwit_marker_segwit t post Hwf). apply parse_from_at; try done.
    pose proof (holds_at_start (ser_segwit t) post) as H. unfold ser_segwit in H at 2.
    split_holds. rewrite Hv in *. done.
  - rewrite (segwit_marker_legacy t post Hwf). apply parse_from_at; try done.
    pose proof (holds_at_start (ser_legacy t) post) as H. unfold ser_legacy in H at 2.
    split_holds. rewrite Hv in *. done.
Qed.

Example parseOutput_correct_witness :
  parseOutput (to_hex (ser_segwit example_tx ++ [])) 1 = Ok (7, "51") ∧
  parseOutput (to_hex (ser_legacy example_tx ++ [])) 1 = Ok (7, "51").
Proof.
  apply (parseOutput_correct example_tx [] 1); [apply example_tx_wf | | done].
  repeat constructor; vm_compute; discriminate.
Defined.
