(* ===== verification/CctpMessage.v ===== *)
(** * CCTP V2 burn messages ([relayer/src/cctp/message.ts])

    Decoding Circle's message layout, and the one route the relay pays gas
    for. *)

From S2P Require Import Prelude JsData.

Definition STELLAR_DOMAIN : Z := 27.
Definition BASE_DOMAIN : Z := 6.
Definition MESSAGE_VERSION : Z := 1.
Definition BURN_MESSAGE_VERSION : Z := 1.
Definition BASE_SEPOLIA_MESSAGE_TRANSMITTER : string := "0xE737e5cEBEEBa77EFE34D4aa090756590b1CE275".
Definition BASE_SEPOLIA_TOKEN_MESSENGER : string := "0x8FE6B999Dc680CcFDD5Bf7EB0974218be2542DAA".

Definition HEADER_BYTES : Z := 148.
Definition BODY_BYTES : Z := 228.

Record burn_body : Type := {
  body_version : Z;
  burnToken : string;
  mintRecipient : string;
  amount : string;
  messageSender : string;
  maxFee : string;
  feeExecuted : string;
  expirationBlock : string;
  hookData : string;
}.

Record CctpBurnMessage : Type := {
  version : Z;
  sourceDomain : Z;
  destinationDomain : Z;
  nonce : string;
  sender : string;
  recipient : string;
  destinationCaller : string;
  minFinalityThreshold : Z;
  finalityThresholdExecuted : Z;
  body : burn_body;
}.

(** [MessageRefusedError], one constructor per message text. *)
Inductive refusal : Type :=
| NotHex
| TooShort
| NotV2Burn
| NotFromStellar
| NotToBaseSepolia
| NotTokenMessenger
| NamesCaller
| CarriesHook
| BadRecipient
| ZeroAmount
| ReadFault.     (* Node's range error or BigInt's SyntaxError; unreachable, see [decodeBurnMessage_encode] *)

#[global] Instance refusal_eq_dec : EqDecision refusal.
Proof. solve_decision. Defined.

(** The text that reaches the app as a failure reason. *)
Definition refusal_text (e : refusal) : string :=
  match e with
  | NotHex => "the transfer message is not valid hex"
  | TooShort => "the transfer message is too short to be a CCTP V2 burn"
  | NotV2Burn => "the transfer is not a CCTP V2 burn"
  | NotFromStellar => "the transfer was not sent from Stellar"
  | NotToBaseSepolia => "the transfer is not addressed to Base Sepolia"
  | NotTokenMessenger => "the transfer is not a USDC mint through Circle's TokenMessenger"
  | NamesCaller =>
      "the transfer names its own caller on Base Sepolia, so the relay cannot complete it"
  | CarriesHook => "the transfer carries a hook, which the relay does not run"
  | BadRecipient => "the transfer's recipient is not a Base Sepolia address"
  | ZeroAmount => "the transfer's amount is zero"
  | ReadFault => ""
  end.

(** [s.startsWith("0x") ? s.slice(2) : s] *)
Definition strip_0x (s : string) : string :=
  match chars s with
  | z :: x :: rest => if Ascii.eqb z "0" && Ascii.eqb x "x" then of_chars rest else s
  | _ => s
  end.

Definition hexToBytes (hex : string) : result refusal (list byte) :=
  let clean := strip_0x hex in
  if negb (slen clean mod 2 =? 0) || negb (string_forall is_hex_char clean) then Err NotHex
  else Ok (from_hex clean).

Definition b32 (buf : list byte) (at_ : Z) : string := "0x" +:+ to_hex (subarray buf at_ (at_ + 32)).
Definition u256 (buf : list byte) (at_ : Z) : result refusal string :=
  z_to_string <$> of_option (BigInt (b32 buf at_)) ReadFault.
Definition readUInt32BE (buf : list byte) (off : Z) : result refusal Z :=
  of_option (readUIntBE 4 buf off) ReadFault.

Definition decodeBurnMessage (messageHex : string) : result refusal CctpBurnMessage :=
  m ← hexToBytes messageHex;
  if zlen m <? HEADER_BYTES + BODY_BYTES then Err TooShort else
  let b := subarray m HEADER_BYTES (zlen m) in
  version ← readUInt32BE m 0;
  sourceDomain ← readUInt32BE m 4;
  destinationDomain ← readUInt32BE m 8;
  minFinalityThreshold ← readUInt32BE m 140;
  finalityThresholdExecuted ← readUInt32BE m 144;
  body_version ← readUInt32BE b 0;
  amount ← u256 b 68;
  maxFee ← u256 b 132;
  feeExecuted ← u256 b 164;
  expirationBlock ← u256 b 196;
  mret {|
    version := version;
    sourceDomain := sourceDomain;
    destinationDomain := destinationDomain;
    nonce := b32 m 12;
    sender := b32 m 44;
    recipient := b32 m 76;
    destinationCaller := b32 m 108;
    minFinalityThreshold := minFinalityThreshold;
    finalityThresholdExecuted := finalityThresholdExecuted;
    body := {|
      body_version := body_version;
      burnToken := b32 b 4;
      mintRecipient := b32 b 36;
      amount := amount;
      messageSender := b32 b 100;
      maxFee := maxFee;
      feeExecuted := feeExecuted;
      expirationBlock := expirationBlock;
      hookData := "0x" +:+ to_hex (subarray b BODY_BYTES (zlen b));
    |};
  |}.

Definition zeros (n : nat) : string := of_chars (replicate n "0"%char).

Definition addressToBytes32 (address : string) : string :=
  "0x" +:+ zeros 24 +:+ strip_0x (toLowerCase address).

Definition bytes32ToAddress (value : string) : option string :=
  let hex := strip_0x (toLowerCase value) in
  if negb (slen hex =? 64) || negb (bool_decide (take 24 (chars hex) = replicate 24 "0"%char))
  then None
  else Some ("0x" +:+ of_chars (drop 24 (chars hex))).

Definition ZERO_BYTES32 : string := "0x" +:+ zeros 64.

Record RelayableBurn : Type := { rb_message : CctpBurnMessage; rb_mintRecipient : string }.

(** The checks of [assertRelayable], in the code's order. *)
Definition check_relayable (message : CctpBurnMessage) : result refusal RelayableBurn :=
  _ ← ensure ((version message =? MESSAGE_VERSION) &&
              (body_version (body message) =? BURN_MESSAGE_VERSION)) NotV2Burn;
  _ ← ensure (sourceDomain message =? STELLAR_DOMAIN) NotFromStellar;
  _ ← ensure (destinationDomain message =? BASE_DOMAIN) NotToBaseSepolia;
  _ ← ensure (bool_decide (recipient message = addressToBytes32 BASE_SEPOLIA_TOKEN_MESSENGER))
        NotTokenMessenger;
  _ ← ensure (bool_decide (destinationCaller message = ZERO_BYTES32)) NamesCaller;
  _ ← ensure (bool_decide (hookData (body message) = "0x")) CarriesHook;
  match bytes32ToAddress (mintRecipient (body message)) with
  | None => Err BadRecipient
  | Some addr =>
      if bool_decide (addr = "0x" +:+ zeros 40) then Err BadRecipient else
      v ← of_option (BigInt (amount (body message))) ReadFault;
      if v <=? 0 then Err ZeroAmount
      else Ok {| rb_message := message; rb_mintRecipient := addr |}
  end.

Definition assertRelayable (messageHex : string) : result refusal RelayableBurn :=
  message ← decodeBurnMessage messageHex;
  check_relayable message.

(** ** Reference encoding (Circle's MessageV2 and BurnMessageV2) *)

Record raw_burn : Type := {
  r_version : Z; r_source : Z; r_destination : Z;
  r_nonce : list byte; r_sender : list byte; r_recipient : list byte; r_caller : list byte;
  r_minFinality : Z; r_finalityExecuted : Z;
  r_bodyVersion : Z; r_burnToken : list byte; r_mintRecipient : list byte; r_amount : Z;
  r_messageSender : list byte; r_maxFee : Z; r_feeExecuted : Z; r_expiration : Z;
  r_hook : list byte;
}.

Definition be32 := be_bytes 4.
Definition be256 := be_bytes 32.

Definition encode_header (r : raw_burn) : list byte :=
  be32 (r_version r) ++ be32 (r_source r) ++ be32 (r_destination r) ++
  r_nonce r ++ r_sender r ++ r_recipient r ++ r_caller r ++
  be32 (r_minFinality r) ++ be32 (r_finalityExecuted r).

Definition encode_body (r : raw_burn) : list byte :=
  be32 (r_bodyVersion r) ++ r_burnToken r ++ r_mintRecipient r ++ be256 (r_amount r) ++
  r_messageSender r ++ be256 (r_maxFee r) ++ be256 (r_feeExecuted r) ++
  be256 (r_expiration r).

Definition encode_burn (r : raw_burn) : list byte :=
  encode_header r ++ encode_body r ++ r_hook r.

Definition is_u32 (z : Z) : Prop := 0 ≤ z < 256 ^ Z.of_nat 4.
Definition is_u256 (z : Z) : Prop := 0 ≤ z < 256 ^ Z.of_nat 32.
Definition is_b32 (bs : list byte) : Prop := zlen bs = 32.

Definition wf_burn (r : raw_burn) : Prop :=
  is_u32 (r_version r) ∧ is_u32 (r_source r) ∧ is_u32 (r_destination r) ∧
  is_b32 (r_nonce r) ∧ is_b32 (r_sender r) ∧ is_b32 (r_recipient r) ∧ is_b32 (r_caller r) ∧
  is_u32 (r_minFinality r) ∧ is_u32 (r_finalityExecuted r) ∧
  is_u32 (r_bodyVersion r) ∧ is_b32 (r_burnToken r) ∧ is_b32 (r_mintRecipient r) ∧
  is_u256 (r_amount r) ∧ is_b32 (r_messageSender r) ∧ is_u256 (r_maxFee r) ∧
  is_u256 (r_feeExecuted r) ∧ is_u256 (r_expiration r).

Definition hex0x (bs : list byte) : string := "0x" +:+ to_hex bs.

(** The message object a raw burn stands for. *)
Definition message_of (r : raw_burn) : CctpBurnMessage := {|
  version := r_version r; sourceDomain := r_source r; destinationDomain := r_destination r;
  nonce := hex0x (r_nonce r); sender := hex0x (r_sender r);
  recipient := hex0x (r_recipient r); destinationCaller := hex0x (r_caller r);
  minFinalityThreshold := r_minFinality r; finalityThresholdExecuted := r_finalityExecuted r;
  body := {|
    body_version := r_bodyVersion r; burnToken := hex0x (r_burnToken r);
    mintRecipient := hex0x (r_mintRecipient r); amount := z_to_string (r_amount r);
    messageSender := hex0x (r_messageSender r); maxFee := z_to_string (r_maxFee r);
    feeExecuted := z_to_string (r_feeExecuted r); expirationBlock := z_to_string (r_expiration r);
    hookData := hex0x (r_hook r);
  |};
|}.

Definition TOKEN_MESSENGER_BYTES : list byte :=
  from_hex "0000000000000000000000008fe6b999dc680ccfdd5bf7eb0974218be2542daa".

(** What Circle's routing needs to hold for the relay to pay for the mint:
    exactly the app's own burns. *)
Definition relayable (r : raw_burn) : Prop :=
  r_version r = 1 ∧ r_bodyVersion r = 1 ∧ r_source r = 27 ∧ r_destination r = 6 ∧
  r_recipient r = TOKEN_MESSENGER_BYTES ∧ r_caller r = replicate 32 x00 ∧ r_hook r = [] ∧
  take 12 (r_mintRecipient r) = replicate 12 x00 ∧
  drop 12 (r_mintRecipient r) ≠ replicate 20 x00 ∧
  0 < r_amount r.

(** ** Lemmas *)

Lemma chars_hex0x bs : chars (hex0x bs) = "0"%char :: "x"%char :: hex_chars bs.
Proof. unfold hex0x. rewrite chars_app. unfold to_hex. by rewrite chars_of_chars. Qed.

Lemma strip_hex0x bs : strip_0x (hex0x bs) = to_hex bs.
Proof. unfold strip_0x. by rewrite chars_hex0x. Qed.

Lemma slen_to_hex bs : slen (to_hex bs) = 2 * zlen bs.
Proof.
  unfold slen, to_hex, zlen. rewrite <- chars_length, chars_of_chars, hex_chars_length. lia.
Qed.

Lemma hexToBytes_hex0x bs : hexToBytes (hex0x bs) = Ok bs.
Proof.
  unfold hexToBytes. rewrite strip_hex0x, slen_to_hex, from_to_hex.
  replace (2 * zlen bs mod 2) with 0 by (rewrite Z.mul_comm, Z.mod_mul; lia).
  replace (string_forall is_hex_char (to_hex bs)) with true; [done|symmetry].
  unfold string_forall, to_hex. rewrite chars_of_chars.
  apply (forallb_weaken is_lower_hex_char); [|apply hex_chars_lower].
  intros c Hc. by apply lower_hex_char_facts in Hc as (_ & _ & ?).
Qed.

Lemma b32_at buf i bs : holds_at buf i bs → is_b32 bs → b32 buf i = hex0x bs.
Proof. intros H Hl. unfold b32. rewrite (subarray_holds _ _ _ _ H); [done|]. rewrite Hl. lia. Qed.

Lemma zlen_be n v : zlen (be_bytes n v) = Z.of_nat n.
Proof. unfold zlen. by rewrite be_bytes_length. Qed.

Lemma u256_at buf i v : holds_at buf i (be256 v) → is_u256 v → u256 buf i = Ok (z_to_string v).
Proof.
  intros H Hv. unfold u256. rewrite (b32_at _ _ _ H) by apply zlen_be.
  unfold hex0x. rewrite BigInt_hex.
  - unfold be256. by rewrite be_val_bytes, Z.mod_small by done.
  - intros E. apply (f_equal zlen) in E. unfold be256 in E. by rewrite zlen_be in E.
Qed.

Lemma u32_at buf i v : holds_at buf i (be32 v) → is_u32 v → readUInt32BE buf i = Ok v.
Proof. intros H Hv. unfold readUInt32BE. by rewrite (readUIntBE_holds 4 buf i v H Hv). Qed.

Lemma decode_header r buf :
  wf_burn r → holds_at buf 0 (encode_header r) →
  (readUInt32BE buf 0, readUInt32BE buf 4, readUInt32BE buf 8,
   readUInt32BE buf 140, readUInt32BE buf 144) =
  (Ok (r_version r), Ok (r_source r), Ok (r_destination r),
   Ok (r_minFinality r), Ok (r_finalityExecuted r)) ∧
  (b32 buf 12, b32 buf 44, b32 buf 76, b32 buf 108) =
  (hex0x (r_nonce r), hex0x (r_sender r), hex0x (r_recipient r), hex0x (r_caller r)).
Proof.
  intros (H1 & H2 & H3 & H4 & H5 & H6 & H7 & H8 & H9 & _) H.
  unfold encode_header in H. split_holds.
  unfold is_b32, be32 in *. rewrite ?zlen_be, ?H4, ?H5, ?H6, ?H7 in *. cbn [Z.of_nat] in *.
  split.
  - rewrite (u32_at buf 0 (r_version r)), (u32_at buf 4 (r_source r)),
      (u32_at buf 8 (r_destination r)), (u32_at buf 140 (r_minFinality r)),
      (u32_at buf 144 (r_finalityExecuted r)); done.
  - rewrite (b32_at buf 12 (r_nonce r)), (b32_at buf 44 (r_sender r)),
      (b32_at buf 76 (r_recipient r)), (b32_at buf 108 (r_caller r)); done.
Qed.

Lemma decode_body r buf :
  wf_burn r → holds_at buf 0 (encode_body r) →
  (readUInt32BE buf 0, u256 buf 68, u256 buf 132, u256 buf 164, u256 buf 196) =
  (Ok (r_bodyVersion r), Ok (z_to_string (r_amount r)), Ok (z_to_string (r_maxFee r)),
   Ok (z_to_string (r_feeExecuted r)), Ok (z_to_string (r_expiration r))) ∧
  (b32 buf 4, b32 buf 36, b32 buf 100) =
  (hex0x (r_burnToken r), hex0x (r_mintRecipient r), hex0x (r_messageSender r)).
Proof.
  intros (_ & _ & _ & _ & _ & _ & _ & _ & _ & H1 & H2 & H3 & H4 & H5 & H6 & H7 & H8) H.
  unfold encode_body in H. split_holds.
  unfold is_b32, be32, be256 in *. rewrite ?zlen_be, ?H2, ?H3, ?H5 in *. cbn [Z.of_nat] in *.
  split.
  - rewrite (u32_at buf 0 (r_bodyVersion r)), (u256_at buf 68 (r_amount r)),
      (u256_at buf 132 (r_maxFee r)), (u256_at buf 164 (r_feeExecuted r)),
      (u256_at buf 196 (r_expiration r)); done.
  - rewrite (b32_at buf 4 (r_burnToken r)), (b32_at buf 36 (r_mintRecipient r)),
      (b32_at buf 100 (r_messageSender r)); done.
Qed.

Lemma encode_lengths r :
  wf_burn r → zlen (encode_header r) = HEADER_BYTES ∧ zlen (encode_body r) = BODY_BYTES.
Proof.
  intros (_ & _ & _ & H4 & H5 & H6 & H7 & _ & _ & _ & H11 & H12 & _ & H14 & _).
  unfold encode_header, encode_body, be32, be256, HEADER_BYTES, BODY_BYTES, is_b32 in *.
  rewrite !zlen_app, !zlen_be. lia.
Qed.

Lemma decodeBurnMessage_encode r :
  wf_burn r → decodeBurnMessage (hex0x (encode_burn r)) = Ok (message_of r).
Proof.
  intros Hwf. unfold decodeBurnMessage. rewrite hexToBytes_hex0x. cbn [mbind result_bind].
  pose proof (encode_lengths r Hwf) as [Lh Lb]. pose proof (zlen_nonneg (r_hook r)) as Hhook.
  assert (Lm : zlen (encode_burn r) = HEADER_BYTES + (BODY_BYTES + zlen (r_hook r)))
    by (unfold encode_burn; rewrite !zlen_app; lia).
  destruct (zlen (encode_burn r) <? HEADER_BYTES + BODY_BYTES) eqn:E; bools; [lia|].
  pose proof (holds_at_start (encode_burn r) []) as H. rewrite app_nil_r in H.
  assert (Hb : subarray (encode_burn r) HEADER_BYTES (zlen (encode_burn r))
               = encode_body r ++ r_hook r).
  { apply subarray_holds; [|rewrite zlen_app; lia].
    unfold encode_burn in H at 2. apply holds_at_app in H as [_ H]. by rewrite Lh in H. }
  rewrite Hb. unfold encode_burn in H at 2. apply holds_at_app in H as [Hh _].
  destruct (decode_header r _ Hwf Hh) as [F1 F2]. rewrite !pair_equal_spec in F1. destruct F1 as [[[[-> ->] ->] ->] ->].
  rewrite !pair_equal_spec in F2. destruct F2 as [[[-> ->] ->] ->].
  pose proof (holds_at_start (encode_body r) (r_hook r)) as Hbody.
  destruct (decode_body r _ Hwf Hbody) as [F3 F4]. rewrite !pair_equal_spec in F3. destruct F3 as [[[[-> ->] ->] ->] ->].
  rewrite !pair_equal_spec in F4. destruct F4 as [[-> ->] ->]. cbn [mbind result_bind].
  rewrite (subarray_holds _ BODY_BYTES (r_hook r)); [done| |by rewrite zlen_app, Lb].
  exists (encode_body r), []. by rewrite app_nil_r, Lb.
Qed.

Lemma hex0x_inj bs1 bs2 : hex0x bs1 = hex0x bs2 ↔ bs1 = bs2.
Proof.
  split; [|by intros ->]. intros H. apply to_hex_inj.
  rewrite <- !strip_hex0x. by rewrite H.
Qed.

Lemma toLowerCase_hex0x bs : toLowerCase (hex0x bs) = hex0x bs.
Proof.
  apply chars_inj. unfold toLowerCase. rewrite chars_of_chars, chars_hex0x. simpl.
  do 2 f_equal. pose proof (hex_chars_lower bs) as H. rewrite forallb_forall in H.
  rewrite <- (map_id (hex_chars bs)) at 2. apply map_ext_in. intros c Hc.
  by apply H, lower_hex_char_facts in Hc as (_ & ? & _).
Qed.

Lemma hex_chars_zeros n : hex_chars (replicate n x00) = replicate (2 * n) "0"%char.
Proof.
  induction n as [|n IH]; [done|]. replace (2 * S n)%nat with (S (S (2 * n))) by lia.
  cbn [replicate hex_chars]. rewrite IH. done.
Qed.

Lemma hex_chars_inj bs1 bs2 : hex_chars bs1 = hex_chars bs2 ↔ bs1 = bs2.
Proof.
  split; [|by intros ->]. intros H. apply to_hex_inj. unfold to_hex. by rewrite H.
Qed.

Lemma take_hex_chars n bs : take (2 * n) (hex_chars bs) = hex_chars (take n bs).
Proof.
  revert bs. induction n as [|n IH]; intros bs; [done|].
  replace (2 * S n)%nat with (S (S (2 * n))) by lia.
  destruct bs as [|b bs]; [done|]. cbn [hex_chars take]. by rewrite IH.
Qed.

Lemma drop_hex_chars n bs : drop (2 * n) (hex_chars bs) = hex_chars (drop n bs).
Proof.
  revert bs. induction n as [|n IH]; intros bs; [done|].
  replace (2 * S n)%nat with (S (S (2 * n))) by lia.
  destruct bs as [|b bs]; [done|]. cbn [hex_chars drop]. by rewrite IH.
Qed.

Lemma chars_to_hex bs : chars (to_hex bs) = hex_chars bs.
Proof. apply chars_of_chars. Qed.

Lemma bytes32ToAddress_hex0x bs :
  is_b32 bs → bytes32ToAddress (hex0x bs) =
  if bool_decide (take 12 bs = replicate 12 x00) then Some (hex0x (drop 12 bs)) else None.
Proof.
  intros Hl. unfold bytes32ToAddress. rewrite toLowerCase_hex0x, strip_hex0x, slen_to_hex, Hl.
  rewrite !chars_to_hex. change 24%nat with (2 * 12)%nat.
  rewrite take_hex_chars, drop_hex_chars, <- (hex_chars_zeros 12).
  rewrite (bool_decide_ext _ _ (hex_chars_inj (take 12 bs) (replicate 12 x00))).
  by case_bool_decide.
Qed.

(** A decoded message never trips the reads themselves, and its nonce is the
    hex of a bytes32. *)
Lemma readUInt32BE_ok m i : 0 ≤ i → i + 4 ≤ zlen m → is_ok (readUInt32BE m i) = true.
Proof.
  intros H1 H2. unfold readUInt32BE, readUIntBE, read_bytes.
  rewrite (proj2 (Z.leb_le 0 i)) by lia. by rewrite (proj2 (Z.leb_le _ _)) by lia.
Qed.

Lemma zlen_subarray {A} (m : list A) a b :
  0 ≤ a → a ≤ b → b ≤ zlen m → zlen (subarray m a b) = b - a.
Proof.
  assert (C : ∀ n i, 0 ≤ i → i ≤ n → clamp_index n i = i).
  { intros n i H1 H2. unfold clamp_index. destruct (i <? 0) eqn:E; bools; lia. }
  intros. unfold subarray. rewrite !C by lia. unfold zlen in *.
  rewrite length_take, length_drop. lia.
Qed.

Lemma u256_ok m i :
  0 ≤ i → i + 32 ≤ zlen m → ∃ v, 0 ≤ v ∧ u256 m i = Ok (z_to_string v).
Proof.
  intros H1 H2. unfold u256, b32. rewrite BigInt_hex.
  - exists (be_val (subarray m i (i + 32))). split; [apply be_val_range|reflexivity].
  - intros E. apply (f_equal zlen) in E. rewrite zlen_subarray in E by lia.
    change (zlen []) with 0 in E. lia.
Qed.

Lemma readUInt32BE_some m i :
  0 ≤ i → i + 4 ≤ zlen m → ∃ v, readUInt32BE m i = Ok v.
Proof.
  intros H1 H2. pose proof (readUInt32BE_ok m i H1 H2) as H.
  destruct (readUInt32BE m i) as [v|]; [by exists v|done].
Qed.

Lemma decodeBurnMessage_total h :
  match decodeBurnMessage h with
  | Ok m => (∃ bs, nonce m = hex0x bs) ∧ ∃ v, 0 ≤ v ∧ amount (body m) = z_to_string v
  | Err e => e ≠ ReadFault
  end.
Proof.
  unfold decodeBurnMessage. destruct (hexToBytes h) as [m|e] eqn:Eh; cbn [mbind result_bind].
  2: { unfold hexToBytes in Eh. destruct (_ || _)%bool in Eh; by simplify_eq. }
  destruct (zlen m <? HEADER_BYTES + BODY_BYTES) eqn:E; bools; [done|].
  unfold HEADER_BYTES, BODY_BYTES in *.
  assert (Hb : zlen (subarray m 148 (zlen m)) = zlen m - 148) by (apply zlen_subarray; lia).
  set (b := subarray m 148 (zlen m)) in *.
  destruct (readUInt32BE_some m 0) as [? ->]; [lia..|].
  destruct (readUInt32BE_some m 4) as [? ->]; [lia..|].
  destruct (readUInt32BE_some m 8) as [? ->]; [lia..|].
  destruct (readUInt32BE_some m 140) as [? ->]; [lia..|].
  destruct (readUInt32BE_some m 144) as [? ->]; [lia..|].
  destruct (readUInt32BE_some b 0) as [? ->]; [lia..|].
  destruct (u256_ok b 68) as (v & Hv & ->); [lia..|].
  destruct (u256_ok b 132) as (? & _ & ->); [lia..|].
  destruct (u256_ok b 164) as (? & _ & ->); [lia..|].
  destruct (u256_ok b 196) as (? & _ & ->); [lia..|].
  cbn [mbind result_bind mret result_ret nonce amount body].
  split; [by eexists|]. by exists v.
Qed.

Lemma check_relayable_ok m rb : check_relayable m = Ok rb → rb_message rb = m.
Proof.
  unfold check_relayable, ensure, of_option, mbind, result_bind. intros H.
  repeat (case_match; try done). by simplify_eq.
Qed.

Lemma check_relayable_fault m v :
  0 ≤ v → amount (body m) = z_to_string v → check_relayable m ≠ Err ReadFault.
Proof.
  intros Hv Hm. unfold check_relayable. rewrite Hm, (BigInt_z_to_string v Hv).
  unfold ensure, of_option, mbind, result_bind. intros H. repeat (case_match; simplify_eq).
Qed.

Lemma assertRelayable_total h :
  match assertRelayable h with
  | Ok rb => ∃ bs, nonce (rb_message rb) = hex0x bs
  | Err e => e ≠ ReadFault
  end.
Proof.
  unfold assertRelayable. pose proof (decodeBurnMessage_total h) as H.
  destruct (decodeBurnMessage h) as [m|e]; cbn [mbind result_bind]; [|done].
  destruct H as [[bs Hn] (v & Hv & Ha)].
  destruct (check_relayable m) as [rb|e] eqn:E.
  - apply check_relayable_ok in E as ->. by exists bs.
  - intros ->. by apply (check_relayable_fault m v).
Qed.

(** ** Properties *)

(** the relay accepts a well-formed burn message exactly when it is one of
    the app's own transfers: version 1, Stellar to Base, minted by Circle's
    TokenMessenger, no named caller, no hook, a non-zero EVM recipient and a
    non-zero amount. What it then reports is the decoded message and the low 20
    bytes of the recipient; every other message is refused. *)
Theorem assertRelayable_accepts r :
  wf_burn r →
  (relayable r → assertRelayable (hex0x (encode_burn r)) =
     Ok {| rb_message := message_of r; rb_mintRecipient := hex0x (drop 12 (r_mintRecipient r)) |}) ∧
  (¬ relayable r → is_ok (assertRelayable (hex0x (encode_burn r))) = false).
Proof.
  intros Hwf. unfold assertRelayable. rewrite (decodeBurnMessage_encode r Hwf).
  cbn [mbind result_bind]. unfold check_relayable, ensure.
  destruct Hwf as (_ & _ & _ & _ & _ & Hrec & Hcal & _ & _ & _ & _ & Hmint & Hamt & _).
  cbn [message_of version body body_version sourceDomain destinationDomain recipient
       destinationCaller hookData mintRecipient amount].
  rewrite (bytes32ToAddress_hex0x _ Hmint), BigInt_z_to_string by (unfold is_u256 in *; lia).
  change (addressToBytes32 BASE_SEPOLIA_TOKEN_MESSENGER) with (hex0x TOKEN_MESSENGER_BYTES).
  change ZERO_BYTES32 with (hex0x (replicate 32 x00)).
  change ("0x" +:+ zeros 40) with (hex0x (replicate 20 x00)).
  change "0x" with (hex0x []).
  rewrite !(bool_decide_ext _ _ (hex0x_inj _ _)).
  unfold relayable, MESSAGE_VERSION, BURN_MESSAGE_VERSION, STELLAR_DOMAIN, BASE_DOMAIN, of_option.
  split.
  - intros (-> & -> & -> & -> & -> & -> & -> & Ht & Hd & Ha).
    rewrite !bool_decide_eq_true_2 by done. cbn [mbind result_bind andb Z.eqb Pos.eqb].
    rewrite (bool_decide_ext _ _ (hex0x_inj _ _)), bool_decide_eq_false_2 by done.
    destruct (r_amount r <=? 0) eqn:E; bools; [lia|done].
  - intros Hn. unfold mbind, result_bind.
    repeat (case_match; try done). exfalso. apply Hn. bools. simplify_eq.
    match goal with H : hex0x _ ≠ hex0x _ |- _ => rewrite hex0x_inj in H end.
    split_and!; done || lia.
Qed.

(** A burn of the app: 5 USDC from Stellar to a Base address. *)
Definition sample_burn : raw_burn := {|
  r_version := 1; r_source := 27; r_destination := 6;
  r_nonce := replicate 32 x07; r_sender := replicate 32 x01;
  r_recipient := TOKEN_MESSENGER_BYTES; r_caller := replicate 32 x00;
  r_minFinality := 2000; r_finalityExecuted := 2000;
  r_bodyVersion := 1; r_burnToken := replicate 32 x02;
  r_mintRecipient := replicate 12 x00 ++ replicate 20 xaa; r_amount := 5000000;
  r_messageSender := replicate 32 x03; r_maxFee := 0; r_feeExecuted := 0; r_expiration := 0;
  r_hook := [];
|}.

Lemma assertRelayable_accepts_witness :
  wf_burn sample_burn ∧ relayable sample_burn ∧
  assertRelayable (hex0x (encode_burn sample_burn)) =
    Ok {| rb_message := message_of sample_burn; rb_mintRecipient := hex0x (replicate 20 xaa) |}.
Proof.
  assert (H : wf_burn sample_burn) by (unfold wf_burn, is_u32, is_u256, is_b32; split_and!; (reflexivity || (simpl; lia) || (vm_compute; split; congruence))).
  assert (R : relayable sample_burn) by (unfold relayable; split_and!; vm_compute; congruence).
  split; [exact H|split; [exact R|]].
  exact (proj1 (assertRelayable_accepts sample_burn H) R).
Defined.
