(* ===== verification/HeaderSync.v ===== *)
(** * Header batches and backoff ([relayer/src/bitcoin/header-sync.ts])

    The pure planning of a header sync pass, the retry loop every Esplora call
    goes through, and the pass itself over its two dependencies. *)

From S2P Require Import Prelude JsData.

(** ** Planning *)

Record HeaderBatch : Type := { fromHeight : Z; toHeight : Z }.

#[global] Instance HeaderBatch_eq_dec : EqDecision HeaderBatch.
Proof. solve_decision. Defined.

Inductive plan_error : Type := BadBatchSize (n : Z).

Fixpoint plan_loop (fuel : nat) (start toHeight maxPerSubmit : Z) : list HeaderBatch :=
  match fuel with
  | O => []
  | S fuel =>
      if start <=? toHeight then
        {| fromHeight := start; toHeight := Z.min (start + maxPerSubmit - 1) toHeight |}
        :: plan_loop fuel (start + maxPerSubmit) toHeight maxPerSubmit
      else []
  end.

(** Each round covers a height at least, so the number of heights bounds the
    rounds. *)
Definition planHeaderBatches (fromHeight toHeight maxPerSubmit : Z) :
    result plan_error (list HeaderBatch) :=
  if maxPerSubmit <? 1 then Err (BadBatchSize maxPerSubmit)
  else Ok (plan_loop (Z.to_nat (toHeight - fromHeight + 1)) fromHeight toHeight maxPerSubmit).

Definition heights (b : HeaderBatch) : list Z :=
  zrange (fromHeight b) (Z.to_nat (toHeight b - fromHeight b + 1)).

(** ** Backoff *)

Section withBackoff.
Context {St E A : Type} (sleep : Z → St → St).

Fixpoint backoff_loop (tries : nat) (attempt : Z) (baseDelayMs : Z) (isRetryable : E → bool)
    (fn : io St E A) : io St E A :=
  try_catch fn (λ e,
    match tries with
    | O => throw e
    | S tries =>
        if negb (isRetryable e) then throw e else
        modify (sleep (baseDelayMs * 2 ^ attempt));;
        backoff_loop tries (attempt + 1) baseDelayMs isRetryable fn
    end).

Definition withBackoff (retries baseDelayMs : Z) (isRetryable : E → bool) (fn : io St E A) :
    io St E A :=
  backoff_loop (Z.to_nat retries) 0 baseDelayMs isRetryable fn.
End withBackoff.

(** ** Where a pass starts and whether it is needed *)

Definition REORG_RESUBMIT_DEPTH : Z := 6.

Definition syncStartHeight (configuredFrom : Z) (contractTipHeight : option Z) : Z :=
  match contractTipHeight with
  | None => configuredFrom
  | Some h => Z.max configuredFrom (h - REORG_RESUBMIT_DEPTH)
  end.

Record ChainTip : Type := { tip_height : Z; tip_hash : string }.

Definition hasNewHeaders (bitcoinTip : ChainTip) (contractTip : option ChainTip) : bool :=
  match contractTip with
  | None => true
  | Some c =>
      if tip_height c <? tip_height bitcoinTip then true
      else if tip_height bitcoinTip <? tip_height c then false
      else negb (bool_decide (toLowerCase (tip_hash bitcoinTip) = toLowerCase (tip_hash c)))
  end.

Definition internalHashToDisplayHex (hash : list byte) : string := to_hex (rev hash).

Definition stroopsToXlm (stroops : Z) : string :=
  let abs := Z.abs stroops in
  (if stroops <? 0 then "-" else "") +:+ z_to_string (abs / 10000000) +:+ "." +:+
  of_chars (padStart 7 "0"%char (chars (z_to_string (abs mod 10000000)))).

Definition assertWithinFeeCeiling (feeStroops maxFeeStroops : Z) : result (Z * Z) () :=
  if maxFeeStroops <? feeStroops then Err (feeStroops, maxFeeStroops) else Ok ().

(** ** A sync pass over its dependencies *)

Section syncHeaders.
Context {St E : Type} (getHeaderHex : Z → io St E string) (submitHeaders : list string → io St E ())
  (range_error : plan_error → E).

Fixpoint fetch_all (hs : list Z) : io St E (list string) :=
  match hs with
  | [] => mret []
  | h :: hs => x ← getHeaderHex h; xs ← fetch_all hs; mret (x :: xs)
  end.

Fixpoint sync_batches (through : option Z) (batches : list HeaderBatch) : io St E (option Z) :=
  match batches with
  | [] => mret through
  | b :: batches =>
      headers ← fetch_all (heights b);
      submitHeaders headers;;
      sync_batches (Some (toHeight b)) batches
  end.

Definition syncHeaders (fromHeight toHeight maxPerSubmit : Z) : io St E (option Z) :=
  match planHeaderBatches fromHeight toHeight maxPerSubmit with
  | Err e => throw (range_error e)
  | Ok batches => sync_batches None batches
  end.
End syncHeaders.

(** ** The status reported by [GET /health] *)

Record HeaderSyncStatus : Type := mkStatus {
  enabled : bool;
  lastPassAt : option string;
  bitcoinTipHeight : option Z;
  contractTipHeight : option Z;
  lastSubmittedThrough : option Z;
  lastSubmissionAt : option string;
  lastFeeXlm : option string;
  maxFeeXlm : option string;
  submissions : Z;
  skippedNoNewHeaders : Z;
  skippedFeeCeiling : Z;
  lastFeeCeilingSkip : option (string * string);
  relayerBalanceXlm : option string;
  minBalanceXlm : option string;
  balanceLow : bool;
  lastError : option string;
}.

Definition headerSyncStatus : HeaderSyncStatus :=
  mkStatus false None None None None None None None 0 0 0 None None None false None.

Definition recordRelayerBalance (status : HeaderSyncStatus) (balanceStroops minBalanceStroops : Z) :
    bool * HeaderSyncStatus :=
  let low := balanceStroops <? minBalanceStroops in
  (low, mkStatus (enabled status) (lastPassAt status) (bitcoinTipHeight status)
          (contractTipHeight status) (lastSubmittedThrough status) (lastSubmissionAt status)
          (lastFeeXlm status) (maxFeeXlm status) (submissions status)
          (skippedNoNewHeaders status) (skippedFeeCeiling status) (lastFeeCeilingSkip status)
          (Some (stroopsToXlm balanceStroops)) (Some (stroopsToXlm minBalanceStroops)) low
          (lastError status)).

(** ** Lemmas *)

Lemma plan_loop_spec fuel start to_ max_ :
  1 ≤ max_ → to_ - start + 1 ≤ Z.of_nat fuel →
  concat (map heights (plan_loop fuel start to_ max_)) = zrange start (Z.to_nat (to_ - start + 1)) ∧
  Forall (λ b, fromHeight b ≤ toHeight b < fromHeight b + max_) (plan_loop fuel start to_ max_).
Proof.
  intros Hm. revert start. induction fuel as [|fuel IH]; intros start Hf; simpl.
  - replace (Z.to_nat (to_ - start + 1)) with 0%nat by lia. by split.
  - destruct (start <=? to_) eqn:E; bools.
    + destruct (IH (start + max_)) as [H1 H2]; [lia|]. simpl. rewrite H1. split.
      * unfold heights; simpl.
        destruct (Z.le_gt_cases (start + max_ - 1) to_) as [Hle|Hgt].
        -- rewrite Z.min_l by lia. set (n := Z.to_nat (start + max_ - 1 - start + 1)).
           replace (Z.to_nat (to_ - start + 1)) with (n + Z.to_nat (to_ - (start + max_) + 1))%nat
             by (unfold n; lia).
           rewrite zrange_app. f_equal. f_equal. unfold n. lia.
        -- rewrite Z.min_r by lia. replace (Z.to_nat (to_ - (start + max_) + 1)) with 0%nat by lia.
           by rewrite app_nil_r.
      * constructor; [simpl; lia|done].
    + replace (Z.to_nat (to_ - start + 1)) with 0%nat by lia. by split.
Qed.

Lemma plan_loop_last fuel start to_ max_ :
  1 ≤ max_ → to_ - start + 1 ≤ Z.of_nat fuel → start ≤ to_ →
  ∃ bs b, plan_loop fuel start to_ max_ = bs ++ [b] ∧ toHeight b = to_.
Proof.
  intros Hm. revert start. induction fuel as [|fuel IH]; intros start Hf Hs; [lia|].
  simpl. destruct (start <=? to_) eqn:E; bools; [|lia].
  destruct (Z.le_gt_cases (start + max_) to_) as [Hle|Hgt].
  - destruct (IH (start + max_)) as (bs & b & -> & Hb); [lia|lia|]. by eexists (_ :: bs), b.
  - exists [], {| fromHeight := start; toHeight := Z.min (start + max_ - 1) to_ |}.
    split; [|simpl; lia].
    destruct fuel; simpl; [done|]. destruct (start + max_ <=? to_) eqn:E2; bools; [lia|done].
Qed.

(** *** A scripted call and a scripted chain *)

(** The [i]-th call answers [o i]; the state counts the calls and logs the
    sleeps. *)
Definition scripted {E A} (o : nat → result E A) : io (nat * list Z) E A :=
  λ s, (o s.1, (S s.1, s.2)).
Definition log_sleep (d : Z) (s : nat * list Z) : nat * list Z := (s.1, s.2 ++ [d]).

Lemma backoff_loop_spec {E A} (o : nat → result E A) ok base tries n0 at_ log :
  ∃ k, (k ≤ tries)%nat ∧
    backoff_loop log_sleep tries at_ base ok (scripted o) (n0, log) =
      (o (n0 + k)%nat,
       ((n0 + S k)%nat, log ++ map (λ i, base * 2 ^ i) (zrange at_ k))) ∧
    (∀ i, (i < k)%nat → ∃ e, o (n0 + i)%nat = Err e ∧ ok e = true) ∧
    ((k < tries)%nat → match o (n0 + k)%nat with Ok _ => True | Err e => ok e = false end).
Proof.
  revert n0 at_ log. induction tries as [|tries IH]; intros n0 at_ log; simpl.
  - exists 0%nat. rewrite Nat.add_0_r, app_nil_r. unfold try_catch, scripted. simpl.
    split_and!; [lia| |intros; lia|lia]. destruct (o n0); simpl; by rewrite Nat.add_1_r.
  - unfold try_catch, scripted at 1. simpl. destruct (o n0) as [a|e] eqn:Eo.
    + exists 0%nat. rewrite Nat.add_0_r, app_nil_r, Eo, Nat.add_1_r.
      split_and!; [lia|done|intros; lia|done].
    + destruct (ok e) eqn:Ek; simpl.
      * destruct (IH (S n0) (at_ + 1) (log ++ [base * 2 ^ at_])) as (k & Hk & Hr & Hi & Hl).
        exists (S k). rewrite !Nat.add_succ_r. split_and!; [lia| | |].
        -- unfold mbind, io_bind, modify.
           change (log_sleep (base * 2 ^ at_) (S n0, log)) with (S n0, log ++ [base * 2 ^ at_]).
           rewrite Hr. simpl. by rewrite <- app_assoc, Nat.add_succ_r.
        -- intros [|i] Hlt; [rewrite Nat.add_0_r; by exists e|]. rewrite Nat.add_succ_r.
           apply (Hi i). lia.
        -- intros Hlt. apply Hl. lia.
      * exists 0%nat. rewrite Nat.add_0_r, app_nil_r, Eo, Nat.add_1_r.
        split_and!; [lia|done|intros; lia|done].
Qed.

(** A Bitcoin source that has some headers, and a contract that accepts some
    submissions; the state is what it has accepted. *)
Section scripted_chain.
Context (hdr : Z → option string) (accepts : list (list string) → list string → bool).

Definition scripted_get (h : Z) : io (list (list string)) () string :=
  λ s, (of_option (hdr h) (), s).
Definition scripted_submit (hs : list string) : io (list (list string)) () () :=
  λ s, if accepts s hs then (Ok (), s ++ [hs]) else (Err (), s).

Lemma fetch_all_spec hs s :
  match fetch_all scripted_get hs s with
  | (Ok xs, s') => s' = s ∧ map Some xs = map hdr hs
  | (Err _, s') => s' = s
  end.
Proof.
  induction hs as [|h hs IH]; simpl; [done|].
  unfold mbind, io_bind, scripted_get. destruct (hdr h) as [x|] eqn:E; simpl; [|done].
  destruct (fetch_all _ hs s) as [[xs|] s']; simpl; [|done]. destruct IH as [-> IH].
  simpl. split; [done|]. by rewrite IH.
Qed.

Lemma sync_batches_spec through bs s0 s :
  map Some (concat s0) = map hdr (concat (map heights through)) →
  match sync_batches scripted_get scripted_submit (toHeight <$> last through) bs s with
  | (Ok t, s') => t = toHeight <$> last (through ++ bs) ∧ ∃ new, s' = s ++ new ∧
      map Some (concat (s0 ++ new)) = map hdr (concat (map heights (through ++ bs)))
  | (Err _, s') => ∃ new ds rest, s' = s ++ new ∧ bs = ds ++ rest ∧
      map Some (concat (s0 ++ new)) = map hdr (concat (map heights (through ++ ds)))
  end.
Proof.
  revert through s0 s. induction bs as [|b bs IH]; intros through s0 s H0; simpl.
  { split; [by rewrite app_nil_r|]. exists []. by rewrite !app_nil_r. }
  unfold mbind at 1, io_bind at 1. pose proof (fetch_all_spec (heights b) s) as F.
  destruct (fetch_all _ (heights b) s) as [[xs|] s1].
  2: { subst. exists [], [], (b :: bs). by rewrite !app_nil_r. }
  destruct F as [-> Hx]. unfold mbind, io_bind, scripted_submit at 1.
  destruct (accepts s xs).
  2: { exists [], [], (b :: bs). by rewrite !app_nil_r. }
  assert (H1 : map Some (concat (s0 ++ [xs])) = map hdr (concat (map heights (through ++ [b])))).
  { rewrite concat_app, !map_app, concat_app, map_app, H0. simpl. by rewrite !app_nil_r, Hx. }
  specialize (IH (through ++ [b]) (s0 ++ [xs]) (s ++ [xs]) H1).
  rewrite last_snoc in IH. simpl in IH.
  destruct (sync_batches _ _ _ bs (s ++ [xs])) as [[t|] s'].
  - destruct IH as (-> & new & -> & E). split; [by rewrite <- app_assoc|].
    exists ([xs] ++ new). rewrite !app_assoc. split; [done|]. by rewrite E, <- app_assoc.
  - destruct IH as (new & ds & rest & -> & -> & E).
    exists ([xs] ++ new), (b :: ds), rest. rewrite !app_assoc. split_and!; [done|done|].
    by rewrite E, <- app_assoc.
Qed.
End scripted_chain.

Lemma planHeaderBatches_sizes from_ to_ max_ :
  match planHeaderBatches from_ to_ max_ with
  | Ok bs => Forall (λ b, zlen (heights b) ≤ max_) bs
  | Err _ => True
  end.
Proof.
  unfold planHeaderBatches. destruct (max_ <? 1) eqn:E; bools; [done|].
  destruct (plan_loop_spec (Z.to_nat (to_ - from_ + 1)) from_ to_ max_) as [_ H2]; [lia..|].
  eapply List.Forall_impl; [|exact H2]. intros b Hb. simpl in Hb.
  unfold heights, zlen. rewrite zrange_length. lia.
Qed.

(** ** Properties *)

(** Backoff makes at most [retries + 1] calls and answers with the last one:
    every earlier call failed with a retryable error, the delays between them
    double from the base delay, and it stops early only on a success or on an
    error that is not retryable. *)
Theorem withBackoff_schedule {E A} (o : nat → result E A) ok retries base :
  ∃ k, (k ≤ Z.to_nat retries)%nat ∧
    withBackoff log_sleep retries base ok (scripted o) (0%nat, []) =
      (o k, (S k, map (λ i, base * 2 ^ i) (zrange 0 k))) ∧
    (∀ i, (i < k)%nat → ∃ e, o i = Err e ∧ ok e = true) ∧
    ((k < Z.to_nat retries)%nat → match o k with Ok _ => True | Err e => ok e = false end).
Proof. exact (backoff_loop_spec o ok base (Z.to_nat retries) 0 0 []). Qed.

(** a sync pass feeds the contract a contiguous run. Whatever the header
    source and the contract answer, the headers accepted are, in order, those
    of the heights from [fromHeight] up to some height, each once; when the
    pass returns, that height is [toHeight], which it reports. *)
Theorem syncHeaders_contiguous hdr accepts from_ to_ max_ r log :
  1 ≤ max_ → from_ ≤ to_ →
  syncHeaders (scripted_get hdr) (scripted_submit accepts) (λ _, ()) from_ to_ max_ [] = (r, log) →
  ∃ n, map Some (concat log) = map hdr (zrange from_ n) ∧ from_ + Z.of_nat n ≤ to_ + 1 ∧
    (is_ok r = true → r = Ok (Some to_) ∧ from_ + Z.of_nat n = to_ + 1).
Proof.
  intros Hm Hle. unfold syncHeaders, planHeaderBatches. rewrite (proj2 (Z.ltb_ge _ _)) by lia.
  set (f := Z.to_nat (to_ - from_ + 1)). set (bs := plan_loop f from_ to_ max_).
  destruct (plan_loop_spec f from_ to_ max_) as [Hc _]; [lia|lia|]. fold f in Hc.
  destruct (plan_loop_last f from_ to_ max_) as (bs' & b & Hb & Hto); [lia|lia|lia|].
  pose proof (sync_batches_spec hdr accepts [] bs [] [] eq_refl) as H. cbn [last fmap option_fmap option_map app] in H.
  intros E. rewrite E in H. destruct r as [t|].
  - destruct H as (-> & new & -> & Hn). exists f. unfold bs in *. rewrite Hb, last_snoc. simpl in *.
    rewrite Hc in Hn. split_and!; [done|lia|]. intros _. rewrite Hto. split; [done|lia].
  - destruct H as (new & ds & rest & -> & Hds & Hn). simpl in Hn.
    assert (Hp : concat (map heights ds) ++ concat (map heights rest) = zrange from_ f).
    { rewrite <- Hc. fold bs. by rewrite Hds, map_app, concat_app. }
    destruct (zrange_prefix _ _ _ _ Hp) as [Hd Hlen].
    exists (length (concat (map heights ds))). rewrite <- Hd. split_and!; [done|lia|done].
Qed.

(** The batches of a sync pass are the range, cut: read in order they are
    every height from [fromHeight] to [toHeight] once, each batch has between
    one and [maxPerSubmit] headers, and only a batch size below 1 is refused. *)
Theorem planHeaderBatches_partitions from_ to_ max_ :
  match planHeaderBatches from_ to_ max_ with
  | Ok bs => 1 ≤ max_ ∧ concat (map heights bs) = zrange from_ (Z.to_nat (to_ - from_ + 1)) ∧
      Forall (λ b, 1 ≤ zlen (heights b) ≤ max_) bs
  | Err (BadBatchSize n) => n = max_ ∧ max_ < 1
  end.
Proof.
  unfold planHeaderBatches. destruct (max_ <? 1) eqn:E; bools; [done|].
  destruct (plan_loop_spec (Z.to_nat (to_ - from_ + 1)) from_ to_ max_) as [H1 H2]; [lia..|].
  split_and!; [lia|done|]. eapply List.Forall_impl; [|exact H2]. intros b Hb; simpl in Hb.
  unfold heights, zlen. rewrite zrange_length. lia.
Qed.

Lemma syncHeaders_contiguous_witness :
  let hdr h := if h <? 25 then Some (z_to_string h) else None in
  ∃ r log, syncHeaders (scripted_get hdr) (scripted_submit (λ _ _, true)) (λ _, ()) 10 30 4 [] = (r, log) ∧
    ∃ n, map Some (concat log) = map hdr (zrange 10 n) ∧ n = 12%nat.
Proof.
  simpl. set (hdr h := if h <? 25 then Some (z_to_string h) else None).
  destruct (syncHeaders (scripted_get hdr) (scripted_submit (λ _ _, true)) (λ _, ()) 10 30 4 [])
    as [r log] eqn:E.
  exists r, log. split; [reflexivity|].
  destruct (syncHeaders_contiguous hdr (λ _ _, true) 10 30 4 r log) as (n & Hn & _);
    [lia|lia|exact E|].
  exists n. split; [exact Hn|]. vm_compute in E. injection E as <- <-.
  apply (f_equal length) in Hn. rewrite !length_map, zrange_length in Hn. simpl in Hn. lia.
Defined.

(** A pass resumes where the contract can extend: at most one block above the
    tip the contract holds, and [REORG_RESUBMIT_DEPTH] below it unless that is
    before the configured start. *)
Lemma syncStartHeight_no_gap from_ tip :
  from_ ≤ tip + 1 → from_ ≤ syncStartHeight from_ (Some tip) ≤ tip + 1 ∧
  (from_ + REORG_RESUBMIT_DEPTH ≤ tip →
     syncStartHeight from_ (Some tip) = tip - REORG_RESUBMIT_DEPTH).
Proof. unfold syncStartHeight, REORG_RESUBMIT_DEPTH. lia. Qed.

Lemma hasNewHeaders_false b c :
  hasNewHeaders b (Some c) = false ↔
  tip_height b < tip_height c ∨
  tip_height b = tip_height c ∧ toLowerCase (tip_hash b) = toLowerCase (tip_hash c).
Proof.
  unfold hasNewHeaders. destruct (_ <? _) eqn:E1; [bools; split; [done|lia]|].
  destruct (tip_height b <? tip_height c) eqn:E2; bools; [split; [by left|done]|].
  rewrite negb_false_iff, bool_decide_eq_true. split.
  - intros H. right. split; [lia|done].
  - intros [?|[_ ?]]; [lia|done].
Qed.
