(* ===== verification/CctpStore.v ===== *)
(** * Relay records of the CCTP relay

    [relayer/src/cctp/store.ts]: the record kept per Stellar burn, the
    in-memory store, and the view the API answers for a transfer. *)

From S2P Require Import Prelude JsData JsMap.

(** ** Data *)

Inductive RelayState : Type := sent | confirming | confirmed | submitted | arrived | failed.

Inductive FailureCode : Type :=
| confirm_timeout | rpc | out_of_gas | daily_cap | send_failed | not_mined | reverted
| unexpected | refused | mint_refused | unseen | gave_up.

Inductive MintedBy : Type := by_relay | by_other.

#[global] Instance RelayState_eq_dec : EqDecision RelayState.
Proof. solve_decision. Defined.
#[global] Instance FailureCode_eq_dec : EqDecision FailureCode.
Proof. solve_decision. Defined.
#[global] Instance MintedBy_eq_dec : EqDecision MintedBy.
Proof. solve_decision. Defined.

Record RelayRecord : Type := mkRelayRecord {
  burnHash : string;
  state : RelayState;
  nonce : option string;
  recipient : option string;
  amount : option string;
  feeExecuted : option string;
  message : option string;
  attestation : option string;
  mintHash : option string;
  mintedBy : option MintedBy;
  failure : option string;
  failureCode : option FailureCode;
  retryable : bool;
  retryAt : option Z;
  attempts : option Z;
  retryingSince : option Z;
  createdAt : Z;
  updatedAt : Z;
  submittedAt : option Z;
}.

Definition isSettled (r : RelayRecord) : bool :=
  bool_decide (state r = arrived) || bool_decide (state r = failed).

Definition isRetrying (r : RelayRecord) : bool :=
  bool_decide (state r = failed) && bool_decide (is_Some (retryAt r)).

(** ** The in-memory store *)

Definition MemoryRelayStore : Type := jsmap string RelayRecord.

Module MemoryStore.
Implicit Types (records : MemoryRelayStore).

Definition get records (burnHash : string) : option RelayRecord := map_get burnHash records.

Definition put records (record : RelayRecord) : MemoryRelayStore :=
  map_set (burnHash record) record records.

Definition submitted_since (since : Z) (r : RelayRecord) : bool :=
  match submittedAt r with Some t => since <=? t | None => false end.

Definition countSubmittedSince records (since : Z) : Z :=
  zlen (filter (λ r, submitted_since since r = true) (map_values records)).

Definition listOpen records : list RelayRecord :=
  sort_by createdAt (filter (λ r, isSettled r = false) (map_values records)).

Definition is_due (now : Z) (r : RelayRecord) : bool :=
  match retryAt r with Some t => t <=? now | None => false end.

Definition listDue records (now : Z) : list RelayRecord :=
  sort_by (λ r, default 0 (retryAt r)) (filter (λ r, is_due now r = true) (map_values records)).
End MemoryStore.
Export MemoryStore.

(** ** The API view *)

Definition BASE_SEPOLIA_EXPLORER : string := "https://sepolia.basescan.org".

(** The stages the app knows: [submitted] is shown as [confirmed]. *)
Inductive ViewKind : Type := v_sent | v_confirming | v_confirmed | v_arrived | v_failed.

#[global] Instance ViewKind_eq_dec : EqDecision ViewKind.
Proof. solve_decision. Defined.

Definition view_of_state (s : RelayState) : ViewKind :=
  match s with
  | sent => v_sent
  | confirming => v_confirming
  | confirmed => v_confirmed
  | submitted => v_confirmed
  | arrived => v_arrived
  | failed => v_failed
  end.

(** [v_mintHash] is [Some None] when the field is present with value [null]. *)
Record CctpRelayView : Type := {
  v_burnHash : string;
  v_kind : ViewKind;
  v_mintHash : option (option string);
  v_explorerUrl : option string;
  v_reason : option string;
  v_retryable : option bool;
  v_retrying : bool;
  v_nextRetryAt : option string;
  v_recipient : option string;
  v_amount : option string;
  v_feeExecuted : option string;
  v_mintedBy : option MintedBy;
  v_createdAt : string;
  v_updatedAt : string;
}.

(** [...(o ? { f: o } : {})] *)
Definition when_truthy (o : option string) : option string := if truthy o then o else None.

Definition toRelayView (r : RelayRecord) : CctpRelayView :=
  let retrying := isRetrying r in
  let kind :=
    if retrying then (if truthy (attestation r) then v_confirmed else v_confirming)
    else view_of_state (state r) in
  {|
    v_burnHash := burnHash r;
    v_kind := kind;
    v_mintHash := if decide (kind = v_arrived) then Some (mintHash r) else None;
    v_explorerUrl :=
      if decide (kind = v_arrived) then
        if truthy (mintHash r)
        then Some (BASE_SEPOLIA_EXPLORER +:+ "/tx/" +:+ default "" (mintHash r)) else None
      else None;
    v_reason :=
      if retrying then Some (default "the relay is retrying" (failure r))
      else if decide (kind = v_failed) then Some (default "the relay stopped" (failure r)) else None;
    v_retryable := if decide (kind = v_failed) then Some (retryable r) else None;
    v_retrying := retrying;
    v_nextRetryAt := if retrying then Some (toISOString (default 0 (retryAt r))) else None;
    v_recipient := when_truthy (recipient r);
    v_amount := when_truthy (amount r);
    v_feeExecuted := when_truthy (feeExecuted r);
    v_mintedBy := mintedBy r;
    v_createdAt := toISOString (createdAt r);
    v_updatedAt := toISOString (updatedAt r);
  |}.

(** A JSON value the caller sent as [burnHash]: only a string is read. *)
Definition normalizeBurnHash (raw : option string) : option string :=
  match raw with
  | None => None
  | Some raw =>
      let hash := toLowerCase (trim raw) in
      if (slen hash =? 64) && string_forall is_lower_hex_char hash then Some hash else None
  end.

Definition lookupCctpRelay (store : MemoryRelayStore) (burnHash : string) : option CctpRelayView :=
  hash ← normalizeBurnHash (Some burnHash);
  record ← get store hash;
  Some (toRelayView record).

(** ** Lemmas *)

Lemma isRetrying_true r : isRetrying r = true ↔ state r = failed ∧ is_Some (retryAt r).
Proof. unfold isRetrying. by rewrite andb_true_iff, !bool_decide_eq_true. Qed.

Lemma isSettled_true r : isSettled r = true ↔ state r = arrived ∨ state r = failed.
Proof. unfold isSettled. by rewrite orb_true_iff, !bool_decide_eq_true. Qed.

Lemma get_put st r b : get (put st r) b = if decide (b = burnHash r) then Some r else get st b.
Proof. unfold get, put. apply map_get_set. Qed.

Lemma is_due_true t r : is_due t r = true ↔ ∃ u, retryAt r = Some u ∧ u ≤ t.
Proof.
  unfold is_due. destruct (retryAt r) as [u|]; [rewrite Z.leb_le|].
  - split; [by exists u|]. by intros (? & [= ->] & ?).
  - split; [done|]. by intros (? & ? & _).
Qed.

Lemma normalizeBurnHash_spec raw h :
  normalizeBurnHash (Some raw) = Some h →
  h = toLowerCase (trim raw) ∧ slen h = 64 ∧ string_forall is_lower_hex_char h = true.
Proof.
  unfold normalizeBurnHash. destruct (_ && _)%bool eqn:E; [|done].
  apply andb_true_iff in E as [E1 E2]. apply Z.eqb_eq in E1. naive_solver.
Qed.

Lemma normalizeBurnHash_id raw h :
  normalizeBurnHash raw = Some h → normalizeBurnHash (Some h) = Some h.
Proof.
  destruct raw as [raw|]; [|done]. intros H. apply normalizeBurnHash_spec in H as (_ & Hl & Hc).
  unfold normalizeBurnHash. rewrite trim_id, (toLowerCase_id h Hc).
  - by rewrite Hl, Hc.
  - unfold string_forall in *. eapply forallb_weaken; [|exact Hc].
    intros c H. apply lower_hex_char_facts in H as (-> & _). done.
Qed.

(** ** Properties *)

(** The view never shows a dead end for a transfer the relay will retry. It
    says [failed] exactly when the record is a failure with no retry
    scheduled, and then states a reason and whether asking again starts over;
    a failure with a retry scheduled is shown in progress, flagged
    [retrying], with a reason and the time of the next attempt; [arrived] is
    shown exactly for arrived records. *)
Theorem toRelayView_stage r :
  (v_kind (toRelayView r) = v_failed ↔ state r = failed ∧ retryAt r = None) ∧
  (v_kind (toRelayView r) = v_arrived ↔ state r = arrived) ∧
  (v_kind (toRelayView r) = v_failed →
     is_Some (v_reason (toRelayView r)) ∧ v_retryable (toRelayView r) = Some (retryable r)) ∧
  (∀ t, state r = failed → retryAt r = Some t →
     v_kind (toRelayView r) ∈ [v_confirming; v_confirmed] ∧ v_retrying (toRelayView r) = true ∧
     is_Some (v_reason (toRelayView r)) ∧
     v_nextRetryAt (toRelayView r) = Some (toISOString t)) ∧
  (v_kind (toRelayView r) ≠ v_arrived → v_mintHash (toRelayView r) = None).
Proof.
  unfold toRelayView; simpl. unfold isRetrying.
  destruct (state r) eqn:Es, (retryAt r) eqn:Er; simpl;
    try destruct (truthy (attestation r)); simpl;
    rewrite ?list_elem_of_cons; split_and!; try naive_solver;
    intros; simplify_eq; split_and!; naive_solver (set_solver).
Qed.
