(* ===== verification/CctpNet.v ===== *)
(** * What the CCTP relay reads from third parties

    [relayer/src/cctp/iris.ts] (Circle's attestation service) and
    [relayer/src/cctp/indexer.ts] (a Base Sepolia log indexer): how an HTTP
    answer becomes an outcome. The network is the argument: [fetch] gives the
    answer, parsed as far as [res.json()] parses it. *)

From S2P Require Import Prelude JsData CctpMessage.

(** [s.replace(/\/+$/, "")] *)
Fixpoint drop_slashes (cs : list ascii) : list ascii :=
  match cs with
  | c :: cs' => if Ascii.eqb c "/" then drop_slashes cs' else cs
  | [] => []
  end.
Definition strip_slashes (s : string) : string := of_chars (rev (drop_slashes (rev (chars s)))).

(** The answer of a [fetch]: it throws, or it has a status and a body that may
    not be JSON. *)
Inductive http (B : Type) : Type :=
| fetch_threw
| answered (status : Z) (body : option B).
Arguments fetch_threw {B}.
Arguments answered {B} status body.

(** [res.ok] *)
Definition res_ok (status : Z) : bool := (200 <=? status) && (status <=? 299).

(** ** Iris *)

Inductive IrisLookup : Type :=
| iris_unknown
| iris_pending
| iris_complete (message attestation : string).

Inductive net_error : Type :=
| RequestFailed
| HttpStatus (status : Z)
| BadBody
| NotANonce
| RefusedQuery.

#[global] Instance net_error_eq_dec : EqDecision net_error.
Proof. solve_decision. Defined.

Record iris_message : Type := {
  im_status : option string;
  im_message : option string;
  im_attestation : option string;
}.

Definition iris_url (irisUrl burnHash : string) : string :=
  strip_slashes irisUrl +:+ "/v2/messages/" +:+ z_to_string STELLAR_DOMAIN +:+
  "?transactionHash=" +:+ toLowerCase burnHash.

(** [body.messages], absent or empty both as []. *)
Definition fetchIrisMessage
    (fetch : string → http (list iris_message)) (irisUrl burnHash : string) :
    result net_error IrisLookup :=
  match fetch (iris_url irisUrl burnHash) with
  | fetch_threw => Err RequestFailed
  | answered status body =>
      if status =? 404 then Ok iris_unknown
      else if negb (res_ok status) then Err (HttpStatus status)
      else match body with
      | None => Err BadBody
      | Some [] => Ok iris_unknown
      | Some (m :: _) =>
          match im_status m, present (im_message m), present (im_attestation m) with
          | Some st, Some msg, Some att =>
              if bool_decide (st = "complete") && negb (bool_decide (att = "PENDING"))
              then Ok (iris_complete msg att) else Ok iris_pending
          | _, _, _ => Ok iris_pending
          end
      end
  end.

(** ** The mint indexer *)

Definition MESSAGE_RECEIVED_TOPIC : string :=
  "0xff48c13eda96b1cceacc6b9edeedc9e9db9d6226afbc30146b720c19d3addb1c".

Record EtherscanLog : Type := {
  log_address : option string;
  log_topics : list (option string);
  log_transactionHash : option string;
}.

(** The body: [result] is [None] when it is not an array. *)
Definition indexer_body : Type := option (list EtherscanLog).

Record MintLog : Type := { txHash : string; caller : string }.

#[global] Instance MintLog_eq_dec : EqDecision MintLog.
Proof. solve_decision. Defined.

(** [/^0x[0-9a-f]{64}$/] *)
Definition HASH (s : string) : bool :=
  match chars s with
  | "0"%char :: "x"%char :: cs => (zlen cs =? 64) && forallb is_lower_hex_char cs
  | _ => false
  end.

Definition lower_topic (t : option string) : string :=
  match t with Some s => toLowerCase s | None => "" end.

(** One log against the nonce wanted: [Some] when it is the mint. *)
Definition accept_log (want : string) (log : EtherscanLog) : option MintLog :=
  let transmitter := toLowerCase BASE_SEPOLIA_MESSAGE_TRANSMITTER in
  let topics := map lower_topic (log_topics log) in
  if negb (bool_decide (toLowerCase <$> log_address log = Some transmitter)) then None
  else if negb (bool_decide (topics !! 0%nat = Some MESSAGE_RECEIVED_TOPIC))
          || negb (bool_decide (topics !! 2%nat = Some want)) then None
  else match toLowerCase <$> log_transactionHash log, topics !! 1%nat with
  | Some txHash, Some topic1 =>
      if HASH txHash && HASH topic1
      then Some {| txHash := txHash; caller := "0x" +:+ of_chars (drop 26 (chars topic1)) |}
      else None
  | _, _ => None
  end.

Fixpoint scan_logs (want : string) (logs : list EtherscanLog) : option MintLog :=
  match logs with
  | [] => None
  | log :: logs =>
      match accept_log want log with
      | Some found => Some found
      | None => scan_logs want logs
      end
  end.

Definition indexer_url (apiUrl want : string) : string :=
  strip_slashes apiUrl +:+ "?module=logs&action=getLogs&address=" +:+
  toLowerCase BASE_SEPOLIA_MESSAGE_TRANSMITTER +:+ "&fromBlock=0&toBlock=latest&topic0=" +:+
  MESSAGE_RECEIVED_TOPIC +:+ "&topic2=" +:+ want +:+ "&topic0_2_opr=and".

Definition findMintOnIndexer
    (fetch : string → http indexer_body) (apiUrl nonce : string) :
    result net_error (option MintLog) :=
  let want := toLowerCase nonce in
  if negb (HASH want) then Err NotANonce else
  match fetch (indexer_url apiUrl want) with
  | fetch_threw => Err RequestFailed
  | answered status body =>
      if negb (res_ok status) then Err (HttpStatus status)
      else match body with
      | None => Err BadBody
      | Some None => Err RefusedQuery
      | Some (Some logs) => Ok (scan_logs want logs)
      end
  end.

(** ** Lemmas *)

Lemma scan_logs_some want logs found :
  scan_logs want logs = Some found →
  ∃ pre log post, logs = pre ++ log :: post ∧ accept_log want log = Some found ∧
    Forall (λ l, accept_log want l = None) pre.
Proof.
  induction logs as [|log logs IH]; simpl; [done|].
  destruct (accept_log want log) as [f|] eqn:E; intros H; simplify_eq.
  - by exists [], log, logs.
  - destruct (IH H) as (pre & l & post & -> & Hl & Hpre).
    exists (log :: pre), l, post. split_and!; [done|done|by constructor].
Qed.

Lemma scan_logs_none want logs :
  scan_logs want logs = None ↔ Forall (λ l, accept_log want l = None) logs.
Proof.
  induction logs as [|log logs IH]; simpl; [by split|].
  destruct (accept_log want log) eqn:E; [|rewrite IH]; rewrite Forall_cons; naive_solver.
Qed.

(** What makes a log evidence of the mint. *)
Definition is_mint_log (want : string) (log : EtherscanLog) (found : MintLog) : Prop :=
  toLowerCase <$> log_address log = Some (toLowerCase BASE_SEPOLIA_MESSAGE_TRANSMITTER) ∧
  ∃ topic1,
    lower_topic <$> log_topics log !! 0%nat = Some MESSAGE_RECEIVED_TOPIC ∧
    lower_topic <$> log_topics log !! 1%nat = Some topic1 ∧ HASH topic1 = true ∧
    lower_topic <$> log_topics log !! 2%nat = Some want ∧
    toLowerCase <$> log_transactionHash log = Some (txHash found) ∧ HASH (txHash found) = true ∧
    caller found = "0x" +:+ of_chars (drop 26 (chars topic1)).

Lemma accept_log_spec want log found :
  accept_log want log = Some found ↔ is_mint_log want log found.
Proof.
  unfold accept_log, is_mint_log. rewrite <- !list_lookup_fmap. change (fmap lower_topic) with (map lower_topic).
  set (topics := map lower_topic (log_topics log)).
  split.
  - intros H. repeat split_match; bools; simplify_eq/=; eauto 10.
  - intros (-> & topic1 & H0 & H1 & Hh & H2 & H3 & Hh2 & Hc).
    rewrite H0, H1, H2, H3, !bool_decide_eq_true_2 by done. simpl. rewrite Hh, Hh2. simpl.
    destruct found; simpl in *; by subst.
Qed.

(** ** Properties *)

(** The relay trusts no indexer. Whatever the indexer answers, a mint is
    reported only from a log in that answer which MessageTransmitterV2 emitted,
    with the [MessageReceived] signature, the nonce asked for and a
    well-formed transaction hash and caller; "no mint" is reported only when
    the answer was read in full and no log of it qualifies; and anything else
    (a network failure, an error status, a body that is not a list of logs) is
    an error, never "no mint". *)
Theorem findMintOnIndexer_checked fetch apiUrl nonce :
  let want := toLowerCase nonce in
  match findMintOnIndexer fetch apiUrl nonce with
  | Ok (Some found) =>
      ∃ status logs log, fetch (indexer_url apiUrl want) = answered status (Some (Some logs)) ∧
        res_ok status = true ∧ log ∈ logs ∧ is_mint_log want log found
  | Ok None =>
      ∃ status logs, fetch (indexer_url apiUrl want) = answered status (Some (Some logs)) ∧
        res_ok status = true ∧ ∀ log found, log ∈ logs → ¬ is_mint_log want log found
  | Err NotANonce => HASH want = false
  | Err RequestFailed => fetch (indexer_url apiUrl want) = fetch_threw
  | Err (HttpStatus status) =>
      ∃ body, fetch (indexer_url apiUrl want) = answered status body ∧ res_ok status = false
  | Err e => e ∈ [BadBody; RefusedQuery]
  end.
Proof.
  simpl. unfold findMintOnIndexer. destruct (HASH _) eqn:Eh; simpl; [|done].
  destruct (fetch _) as [|status body] eqn:Ef; [done|].
  destruct (res_ok status) eqn:Es; simpl; [|by eexists].
  destruct body as [[logs|]|]; [|set_solver|set_solver].
  destruct (scan_logs _ logs) as [found|] eqn:E.
  - apply scan_logs_some in E as (pre & log & post & -> & Hl & _).
    exists status, (pre ++ log :: post), log. rewrite accept_log_spec in Hl.
    split_and!; [done..|set_solver|done].
  - apply scan_logs_none in E. exists status, logs. split_and!; [done..|].
    intros log found Hin Hm. apply accept_log_spec in Hm.
    rewrite Forall_forall in E. by rewrite (E log Hin) in Hm.
Qed.
