(* ===== verification/CctpRelay.v ===== *)
(** * The CCTP relay ([relayer/src/cctp/service.ts])

    A request returns at once and the work runs as one background job per
    burn. The model keeps that shape: the relay's state holds the store, the
    jobs in flight, the balance cache and the outside world, a request runs
    what the code runs before its first [await], and [finish_job] runs the
    rest of a job in one step. Jobs are serialised: their external calls do
    not interleave with another job's, which [CctpRelayFacts.job_writes] justifies
    (a job writes no other transfer's record) together with the code's own
    lock around every mint.

    [relayer/src/cctp/chain.ts] is the class [RelayEnv]. *)

From S2P Require Import Prelude JsData JsMap CctpMessage CctpNet CctpStore.

(** ** The outside world *)

Inductive SimulateOutcome : Type :=
| sim_ok
| sim_failed (transient : bool) (revert : option string).

Inductive ReceiptOutcome : Type := success | tx_reverted | pending.

Inductive SendError : Type := insufficient_funds | send_error.

#[global] Instance ReceiptOutcome_eq_dec : EqDecision ReceiptOutcome.
Proof. solve_decision. Defined.

(** [RelayChain], the HTTP services, the clock and the timer. *)
Class RelayEnv (W : Type) : Type := {
  address : string;
  env_now : W → Z;
  env_sleep : Z → W → W;
  env_iris : string → W → http (list iris_message) * W;
  env_indexer : string → W → http indexer_body * W;
  env_balanceWei : W → result string Z * W;
  env_isNonceUsed : string → W → result string bool * W;
  env_findMint : string → W → result string (option MintLog) * W;
  env_simulateReceive : string → string → W → result string SimulateOutcome * W;
  env_sendReceive : string → string → W → result SendError string * W;
  env_waitForReceipt : string → W → result string ReceiptOutcome * W;
}.

(** What [setTimeout] and the clock promise. *)
Class RelayEnvLaws (W : Type) `{RelayEnv W} : Prop := {
  sleep_elapses d w : env_now w + d ≤ env_now (env_sleep d w);
  iris_time u w : env_now w ≤ env_now (env_iris u w).2;
}.

(** ** State *)

Record RelaySettings : Type := {
  irisUrl : string;
  confirmTimeoutMs : Z;
  dailyCap : Z;
  maxOpen : Z;
  pollInitialMs : Z;
  pollMaxMs : Z;
  mintIndexerUrl : option string;
}.

(** A promise of [this.jobs], by what it still has to run. *)
Inductive job : Type :=
| JRun (burnHash : string)
| JLookup (r : RelayRecord)
| JResume (r : RelayRecord)
| JDone
| JThrew.

(** The chain calls a mint makes, newest first: the model's record of what the
    relay spent gas on, not a variable of the code. *)
Inductive chain_call : Type :=
| CNonce (nonce : string) (used : bool)
| CSimulate (message attestation : string) (ok : bool)
| CSend (message attestation : string).

Record relay (W : Type) : Type := mkRelay {
  store : MemoryRelayStore;
  jobs : jsmap string job;
  balanceCache : option (Z * Z);
  world : W;
  calls : list chain_call;
}.
Arguments mkRelay {W} store jobs balanceCache world calls.
Arguments store {W} r.
Arguments jobs {W} r.
Arguments balanceCache {W} r.
Arguments world {W} r.
Arguments calls {W} r.

Inductive exn : Type :=
| NoRecord
| ChainThrew (message : string)
| ReadThrew
| OutOfFuel.

Inductive RelayErrorCode : Type := invalid_burn_hash | not_found | relay_busy.

Definition HTTP_STATUS (c : RelayErrorCode) : Z :=
  match c with invalid_burn_hash => 400 | not_found => 404 | relay_busy => 503 end.

(** ** Constants *)

Definition UNSEEN_TIMEOUT_MS : Z := 10 * 60000.
Definition RECEIPT_WAITS : nat := 4.
Definition LOW_BALANCE_WEI : Z := 2000000000000000.
Definition BALANCE_CACHE_MS : Z := 15000.
Definition RETRY_INITIAL_MS : Z := 30000.
Definition RETRY_MAX_MS : Z := 15 * 60000.
Definition RETRY_GIVE_UP_MS : Z := 24 * 60 * 60000.
Definition MIN_RETRY_BALANCE_WEI : Z := 100000000000000.
Definition MINT_LOOKUP_ATTEMPTS : Z := 8.

Definition startOfUtcDay (t : Z) : Z := t - t mod DAY_MS.

Definition retryDelayMs (attempt : Z) : Z :=
  Z.min (RETRY_INITIAL_MS * 2 ^ Z.max 0 (attempt - 1)) RETRY_MAX_MS.

(** ** Patches: the object literals spread over a record *)

Definition set_updatedAt (t : Z) (r : RelayRecord) : RelayRecord :=
  mkRelayRecord (burnHash r) (state r) (nonce r) (recipient r) (amount r) (feeExecuted r)
    (message r) (attestation r) (mintHash r) (mintedBy r) (failure r) (failureCode r)
    (retryable r) (retryAt r) (attempts r) (retryingSince r) (createdAt r) t (submittedAt r).

Definition set_state (s : RelayState) (r : RelayRecord) : RelayRecord :=
  mkRelayRecord (burnHash r) s (nonce r) (recipient r) (amount r) (feeExecuted r)
    (message r) (attestation r) (mintHash r) (mintedBy r) (failure r) (failureCode r)
    (retryable r) (retryAt r) (attempts r) (retryingSince r) (createdAt r) (updatedAt r)
    (submittedAt r).

(** [failure], [failureCode], [retryable] and [retryAt] at once. *)
Definition set_failure (f : option string) (c : option FailureCode) (again : bool) (at_ : option Z)
    (r : RelayRecord) : RelayRecord :=
  mkRelayRecord (burnHash r) (state r) (nonce r) (recipient r) (amount r) (feeExecuted r)
    (message r) (attestation r) (mintHash r) (mintedBy r) f c again at_
    (attempts r) (retryingSince r) (createdAt r) (updatedAt r) (submittedAt r).

Definition set_streak (n : option Z) (since : option Z) (r : RelayRecord) : RelayRecord :=
  mkRelayRecord (burnHash r) (state r) (nonce r) (recipient r) (amount r) (feeExecuted r)
    (message r) (attestation r) (mintHash r) (mintedBy r) (failure r) (failureCode r)
    (retryable r) (retryAt r) n since (createdAt r) (updatedAt r) (submittedAt r).

Definition set_retryAt (at_ : option Z) (r : RelayRecord) : RelayRecord :=
  set_failure (failure r) (failureCode r) (retryable r) at_ r.

Definition set_mint (hash : option string) (by_ : option MintedBy) (r : RelayRecord) : RelayRecord :=
  mkRelayRecord (burnHash r) (state r) (nonce r) (recipient r) (amount r) (feeExecuted r)
    (message r) (attestation r) hash by_ (failure r) (failureCode r)
    (retryable r) (retryAt r) (attempts r) (retryingSince r) (createdAt r) (updatedAt r)
    (submittedAt r).

Definition set_submittedAt (t : Z) (r : RelayRecord) : RelayRecord :=
  mkRelayRecord (burnHash r) (state r) (nonce r) (recipient r) (amount r) (feeExecuted r)
    (message r) (attestation r) (mintHash r) (mintedBy r) (failure r) (failureCode r)
    (retryable r) (retryAt r) (attempts r) (retryingSince r) (createdAt r) (updatedAt r)
    (Some t).

(** The fields read from Circle's signed message. *)
Definition set_signed (rb : RelayableBurn) (msg att : string) (r : RelayRecord) : RelayRecord :=
  mkRelayRecord (burnHash r) (state r)
    (Some (CctpMessage.nonce (rb_message rb))) (Some (rb_mintRecipient rb))
    (Some (CctpMessage.amount (body (rb_message rb))))
    (Some (CctpMessage.feeExecuted (body (rb_message rb)))) (Some msg) (Some att)
    (mintHash r) (mintedBy r) (failure r) (failureCode r)
    (retryable r) (retryAt r) (attempts r) (retryingSince r) (createdAt r) (updatedAt r)
    (submittedAt r).

Section CctpRelay.
Context {W : Type} `{env : RelayEnv W} (settings : RelaySettings).

Abbreviation M := (io (relay W) exn).

(** *** Access to the state *)

Definition set_store (st : MemoryRelayStore) (s : relay W) : relay W :=
  mkRelay st (jobs s) (balanceCache s) (world s) (calls s).
Definition set_jobs (js : jsmap string job) (s : relay W) : relay W :=
  mkRelay (store s) js (balanceCache s) (world s) (calls s).
Definition set_balanceCache (c : option (Z * Z)) (s : relay W) : relay W :=
  mkRelay (store s) (jobs s) c (world s) (calls s).
Definition set_world (w : W) (s : relay W) : relay W :=
  mkRelay (store s) (jobs s) (balanceCache s) w (calls s).
Definition log_call (c : chain_call) (s : relay W) : relay W :=
  mkRelay (store s) (jobs s) (balanceCache s) (world s) (c :: calls s).

Definition now : M Z := gets (λ s, env_now (world s)).
Definition lookup_record (b : string) : M (option RelayRecord) := gets (λ s, get (store s) b).

(** A call of the world whose failure the caller sees as an exception. *)
Definition ask {A} (f : W → result string A * W) : M A := λ s,
  let '(r, w) := f (world s) in
  (match r with Ok a => Ok a | Err e => Err (ChainThrew e) end, set_world w s).

Definition isNonceUsed (nonce : string) : M bool :=
  used ← ask (env_isNonceUsed nonce);
  modify (log_call (CNonce nonce used));; mret used.

Definition is_sim_ok (o : SimulateOutcome) : bool :=
  match o with sim_ok => true | _ => false end.

Definition simulateReceive (message attestation : string) : M SimulateOutcome :=
  o ← ask (env_simulateReceive message attestation);
  modify (log_call (CSimulate message attestation (is_sim_ok o)));; mret o.

(** The broadcast, kept as a value: the code catches every exception of it. *)
Definition sendReceive (message attestation : string) : M (result SendError string) := λ s,
  let '(r, w) := env_sendReceive message attestation (world s) in
  (Ok r, log_call (CSend message attestation) (set_world w s)).

Definition sleep (ms : Z) : M () := modify (λ s, set_world (env_sleep ms (world s)) s).

Definition update (b : string) (patch : RelayRecord → RelayRecord) : M RelayRecord := λ s,
  match get (store s) b with
  | None => (Err NoRecord, s)
  | Some current =>
      let next := set_updatedAt (env_now (world s)) (patch current) in
      (Ok next, set_store (put (store s) next) s)
  end.

(** *** Failures *)

Definition fail_ (b : string) (code : FailureCode) (reason : string) : M () :=
  let retryable := negb (bool_decide (code = refused)) && negb (bool_decide (code = mint_refused)) in
  update b (λ r, set_state failed (set_failure (Some reason) (Some code) retryable None r));;
  mret ().

Definition transient (b : string) (code : FailureCode) (reason : string) : M () :=
  current ← lookup_record b;
  t ← now;
  let since := default t (current ≫= retryingSince) in
  let n := default 0 (current ≫= attempts) + 1 in
  if RETRY_GIVE_UP_MS <=? t - since then
    update b (set_streak (Some n) (Some since));;
    fail_ b gave_up ("the relay stopped after 24 hours of retrying (" +:+ reason +:+
                     "); ask again to start over")
  else
    let at_ := if bool_decide (code = daily_cap) then startOfUtcDay t + DAY_MS
               else t + retryDelayMs n in
    update b (λ r, set_state failed (set_failure (Some reason) (Some code) true (Some at_)
                     (set_streak (Some n) (Some since) r)));;
    mret ().

Definition arrived_ (b : string) (hash : option string) (by_ : MintedBy) : M () :=
  t ← now;
  update b (λ r, set_state arrived (set_mint hash (Some by_)
    (set_failure None None false (if truthy hash then None else Some (t + RETRY_INITIAL_MS))
      (set_streak None None r))));;
  mret ().

(** *** Finding a mint someone else made *)

Definition fetch_indexer (apiUrl nonce : string) : M (option MintLog) := λ s,
  let url := indexer_url apiUrl (toLowerCase nonce) in
  let '(answer, w) := env_indexer url (world s) in
  let s := if HASH (toLowerCase nonce) then set_world w s else s in
  (match findMintOnIndexer (λ _, answer) apiUrl nonce with
   | Ok found => Ok found
   | Err _ => Err (ChainThrew "indexer")
   end, s).

Definition findMintTx (nonce : string) : M (option MintLog) :=
  found ← try_catch (ask (env_findMint nonce)) (λ _, mret None);
  match found with
  | Some m => mret (Some m)
  | None =>
      match present (mintIndexerUrl settings) with
      | None => mret None
      | Some url => try_catch (fetch_indexer url nonce) (λ _, mret None)
      end
  end.

Definition mintedByOf (found : option MintLog) : MintedBy :=
  match found with
  | Some m => if bool_decide (toLowerCase (caller m) = toLowerCase address)
              then by_relay else by_other
  | None => by_other
  end.

Definition mintedElsewhere (b nonce : string) : M () :=
  found ← findMintTx nonce;
  arrived_ b (txHash <$> found) (mintedByOf found).

Definition lookupMintAgain (r : RelayRecord) : M () :=
  found ← (match present (nonce r) with Some n => findMintTx n | None => mret None end);
  match found with
  | Some m =>
      update (burnHash r) (λ c, set_mint (Some (txHash m)) (Some (mintedByOf (Some m)))
        (set_retryAt None (set_streak None (retryingSince c) c)));; mret ()
  | None =>
      t ← now;
      let n := default 0 (attempts r) + 1 in
      let more := bool_decide (is_Some (nonce r)) && (n <? MINT_LOOKUP_ATTEMPTS) in
      update (burnHash r) (λ c,
        set_retryAt (if more then Some (t + retryDelayMs (n + 1)) else None)
          (set_streak (Some n) (retryingSince c) c));; mret ()
  end.

(** *** Balance *)

Definition read_balance : M Z :=
  wei ← ask env_balanceWei;
  t ← now;
  modify (set_balanceCache (Some (t, wei)));; mret wei.

Definition canPayForMint : M bool :=
  try_catch (wei ← read_balance; mret (MIN_RETRY_BALANCE_WEI <=? wei)) (λ _, mret false).

(** Only the balance cache changes; the warning itself is a log line. *)
Definition warnIfLow : M () :=
  try_catch (read_balance;; mret ()) (λ _, mret ()).

(** *** Minting *)

Fixpoint awaitReceipt_ (waits : nat) (hash : string) : M ReceiptOutcome :=
  match waits with
  | O => mret pending
  | S waits =>
      outcome ← ask (env_waitForReceipt hash);
      if bool_decide (outcome ≠ pending) then mret outcome else awaitReceipt_ waits hash
  end.
Definition awaitReceipt : string → M ReceiptOutcome := awaitReceipt_ RECEIPT_WAITS.

(** The relay's own earlier broadcast, checked first. [true]: the job is done. *)
Definition mint_earlier (b : string) (record : RelayRecord) (n : string) : M bool :=
  match present (mintHash record) with
  | Some hash =>
      if bool_decide (mintedBy record = Some by_relay) then
        outcome ← awaitReceipt hash;
        if bool_decide (outcome = success) then
          arrived_ b (Some hash) by_relay;; mret true
        else if bool_decide (outcome = pending) then
          used ← isNonceUsed n;
          if negb used then
            transient b not_mined "the mint transaction on Base Sepolia is not mined yet";;
            mret true
          else mret false
        else mret false
      else mret false
  | None => mret false
  end.

(** The mint is broadcast: wait for its receipt. *)
Definition mint_landed (b n hash : string) : M () :=
  outcome ← awaitReceipt hash;
  if bool_decide (outcome = success) then
    arrived_ b (Some hash) by_relay;; warnIfLow
  else
    used ← isNonceUsed n;
    if used : bool then mintedElsewhere b n
    else if bool_decide (outcome = tx_reverted) then
      transient b reverted "the mint transaction reverted on Base Sepolia"
    else transient b not_mined "the mint transaction on Base Sepolia is not mined yet".

Definition submitted_ (hash : string) (t : Z) (r : RelayRecord) : RelayRecord :=
  set_state submitted (set_mint (Some hash) (Some by_relay) (set_submittedAt t r)).

(** From the broadcast on. *)
Definition mint_sent (b n hash : string) : M () :=
  t ← now;
  update b (submitted_ hash t);;
  modify (set_balanceCache None);;
  mint_landed b n hash.

(** The simulation failed: someone may have completed the transfer meanwhile. *)
Definition mint_unsimulated (b n : string) (is_transient : bool) (revert : option string) : M () :=
  used ← isNonceUsed n;
  if used : bool then mintedElsewhere b n
  else if is_transient then transient b rpc "Base Sepolia could not be reached"
  else fail_ b mint_refused ("Base Sepolia refused the mint: " +:+ default "reverted" revert).

(** Simulate, and send only what simulated. *)
Definition mint_send (b n msg att : string) : M () :=
  sim ← simulateReceive msg att;
  match sim with
  | sim_failed is_transient revert => mint_unsimulated b n is_transient revert
  | sim_ok =>
      sent ← sendReceive msg att;
      match sent with
      | Err insufficient_funds =>
          transient b out_of_gas
            "the relay is out of Base Sepolia gas; it retries once the account is refilled"
      | Err send_error => transient b send_failed "the mint could not be sent to Base Sepolia"
      | Ok hash => mint_sent b n hash
      end
  end.

Definition mint_new (b n msg att : string) : M () :=
  used ← isNonceUsed n;
  if used : bool then mintedElsewhere b n else
  today ← gets (λ s, countSubmittedSince (store s) (startOfUtcDay (env_now (world s))));
  if dailyCap settings <=? today then
    transient b daily_cap ("the relay reached its daily limit of " +:+
      z_to_string (dailyCap settings) +:+ " transfers; it resumes after 00:00 UTC")
  else mint_send b n msg att.

Definition mint (b : string) : M () :=
  record ← lookup_record b;
  match record with
  | None => mret ()
  | Some record =>
      if isSettled record then mret () else
      match present (nonce record), present (message record), present (attestation record) with
      | Some n, Some msg, Some att =>
          done ← mint_earlier b record n;
          if done : bool then mret () else mint_new b n msg att
      | _, _, _ => mret ()
      end
  end.

(** *** Waiting for Circle *)

(** [fetchIrisMessage] with its exceptions caught, as the loop does. *)
Definition iris_lookup (b : string) : M (option IrisLookup) := λ s,
  let '(answer, w) := env_iris (iris_url (irisUrl settings) b) (world s) in
  (Ok match fetchIrisMessage (λ _, answer) (irisUrl settings) b with
      | Ok l => Some l
      | Err _ => None
      end, set_world w s).

Definition the_record (b : string) : M RelayRecord :=
  r ← lookup_record b; lift (of_option r NoRecord).

Definition iris_signed (b msg att : string) : M RelayRecord :=
  match assertRelayable msg with
  | Ok rb => update b (λ r, set_state confirmed (set_signed rb msg att r))
  | Err ReadFault => throw ReadThrew
  | Err why =>
      fail_ b refused ("the relay does not complete this transfer: " +:+ refusal_text why);;
      the_record b
  end.

Definition is_pending (l : option IrisLookup) : bool :=
  match l with Some iris_pending => true | _ => false end.

(** The first sight of the burn moves its record to [confirming]. *)
Definition await_seen (l : option IrisLookup) (record : RelayRecord) : M RelayRecord :=
  if is_pending l && bool_decide (state record = sent)
  then update (burnHash record) (set_state confirming) else mret record.

(** The window has closed. *)
Definition await_over (b : string) (unseen_ : bool) : M RelayRecord :=
  (if unseen_ then
     fail_ b unseen
       "Circle has no record of this burn; check that it is a CCTP transfer sent from Stellar"
   else transient b confirm_timeout "Circle has not confirmed the transfer yet");;
  the_record b.

Fixpoint awaitMessage_loop (fuel : nat) (begun delay : Z) (record : RelayRecord) : M RelayRecord :=
  match fuel with
  | O => throw OutOfFuel
  | S fuel =>
      lookup ← iris_lookup (burnHash record);
      match lookup with
      | Some (iris_complete msg att) => iris_signed (burnHash record) msg att
      | _ =>
          record ← await_seen lookup record;
          let unseen_ := bool_decide (state record = sent) in
          let limit := if unseen_ then Z.min UNSEEN_TIMEOUT_MS (confirmTimeoutMs settings)
                       else confirmTimeoutMs settings in
          t ← now;
          if limit <=? t - begun then await_over (burnHash record) unseen_
          else
            sleep delay;;
            awaitMessage_loop fuel begun (Z.min (delay * 2) (pollMaxMs settings)) record
      end
  end.

(** Each round sleeps at least a millisecond, so this many reach the limit
    ([CctpRelayFacts.awaitMessage_decides]). *)
Definition await_fuel : nat := S (S (Z.to_nat (confirmTimeoutMs settings))).

Definition awaitMessage (start : RelayRecord) : M RelayRecord :=
  begun ← now;
  awaitMessage_loop await_fuel begun (pollInitialMs settings) start.

(** *** Jobs *)

Definition run (b : string) : M () :=
  record ← lookup_record b;
  match record with
  | None => mret ()
  | Some record =>
      if isSettled record then mret () else
      if truthy (attestation record) then mint b else
      record ← awaitMessage record;
      if isSettled record then mret () else mint b
  end.

(** What a retried record goes back to. *)
Definition resumed (r c : RelayRecord) : RelayRecord :=
  set_state (if truthy (attestation r) then confirmed else sent) (set_failure None None false None c).

Definition resumeFailed (r : RelayRecord) : M () :=
  blocked ← (if bool_decide (failureCode r = Some out_of_gas)
             then pays ← canPayForMint; mret (negb pays) else mret false);
  if blocked : bool then
    transient (burnHash r) out_of_gas (default "the relay is out of Base Sepolia gas" (failure r))
  else update (burnHash r) (resumed r);; run (burnHash r).

(** What [work()] runs before its first [await], and the job left. *)
Definition begin_job (j : job) (s : relay W) : job * relay W :=
  match j with
  | JResume r =>
      if bool_decide (failureCode r = Some out_of_gas) then (j, s) else
      match update (burnHash r) (resumed r) s with
      | (Ok _, s) => (JRun (burnHash r), s)
      | (Err _, s) => (JThrew, s)
      end
  | JLookup r =>
      if truthy (nonce r) then (j, s) else
      match lookupMintAgain r s with
      | (Ok _, s) => (JDone, s)
      | (Err _, s) => (JThrew, s)
      end
  | _ => (j, s)
  end.

Definition launch (b : string) (work : job) (s : relay W) : bool * relay W :=
  if map_has b (jobs s) then (false, s) else
  let '(j, s) := begin_job work s in
  (true, set_jobs (map_set b j (jobs s)) s).

Definition work (j : job) : M () :=
  match j with
  | JRun b => run b
  | JLookup r => lookupMintAgain r
  | JResume r => resumeFailed r
  | JDone => mret ()
  | JThrew => throw NoRecord
  end.

Definition on_throw (b : string) (_ : exn) : M () :=
  current ← lookup_record b;
  match current with
  | Some r => if bool_decide (state r ≠ arrived)
              then transient b unexpected "the relay hit an unexpected error" else mret ()
  | None => mret ()
  end.

(** The rest of the job of [b]: its work, the [catch] and the [finally]. *)
Definition finish_job (b : string) (s : relay W) : relay W :=
  match map_get b (jobs s) with
  | None => s
  | Some j =>
      let s := (try_catch (work j) (on_throw b) s).2 in
      set_jobs (map_delete b (jobs s)) s
  end.

Definition start (b : string) (s : relay W) : relay W := (launch b (JRun b) s).2.

Definition retry (b : string) (s : relay W) : bool * relay W :=
  match get (store s) b with
  | None => (false, s)
  | Some r =>
      if negb (is_due (env_now (world s)) r) then (false, s) else
      if map_has b (jobs s) || (maxOpen settings <=? zlen (jobs s)) then (false, s) else
      if bool_decide (state r = arrived) then launch b (JLookup r) s else
      if negb (isRetrying r) then (false, s) else
      launch b (JResume r) s
  end.

(** *** The relay's operations *)

(** A record for a burn asked for the first time. *)
Definition fresh_record (b : string) (t : Z) : RelayRecord :=
  mkRelayRecord b sent None None None None None None None None None None false None None None
    t t None.

(** A stopped transfer that a new request starts over. *)
Definition restarted (t : Z) (r : RelayRecord) : RelayRecord :=
  set_updatedAt t (set_state (if truthy (attestation r) then confirmed else sent)
    (set_failure None None false None (set_streak None None r))).

Definition request (raw : option string) (s : relay W) :
    result RelayErrorCode CctpRelayView * relay W :=
  match normalizeBurnHash raw with
  | None => (Err invalid_burn_hash, s)
  | Some b =>
      let t := env_now (world s) in
      let anew (record : RelayRecord) :=
        if maxOpen settings <=? zlen (jobs s) then (Err relay_busy, s)
        else (Ok (toRelayView record), start b (set_store (put (store s) record) s)) in
      match get (store s) b with
      | Some r =>
          if isRetrying r || negb (bool_decide (state r = failed) && retryable r) then
            let s := if negb (isSettled r) then start b s else (retry b s).2 in
            (of_option (toRelayView <$> get (store s) b) not_found, s)
          else anew (restarted t r)
      | None => anew (fresh_record b t)
      end
  end.

Definition status (raw : option string) (s : relay W) :
    result RelayErrorCode CctpRelayView * relay W :=
  match normalizeBurnHash raw with
  | None => (Err invalid_burn_hash, s)
  | Some b =>
      match get (store s) b with
      | None => (Err not_found, s)
      | Some _ =>
          let s := (retry b s).2 in
          (of_option (lookupCctpRelay (store s) b) not_found, s)
      end
  end.

Definition resume (s : relay W) : Z * relay W :=
  let opened := listOpen (store s) in
  (zlen opened, foldl (λ s r, start (burnHash r) s) s opened).

Definition retryDue (s : relay W) : Z * relay W :=
  foldl (λ acc r, let '(ok, s') := retry (burnHash r) acc.2 in
                  (if ok : bool then acc.1 + 1 else acc.1, s'))
    (0, s) (listDue (store s) (env_now (world s))).

Record RelayStatus : Type := {
  balanceWei : option string;
  lowBalance : option bool;
  mintsToday : Z;
  inFlight : Z;
}.

Definition info : M RelayStatus :=
  t ← now;
  cache ← gets balanceCache;
  let fresh := match cache with Some (at_, _) => t - at_ <? BALANCE_CACHE_MS | None => false end in
  wei ← (if fresh then mret (snd <$> cache)
         else try_catch (wei ← ask env_balanceWei;
                         modify (set_balanceCache (Some (t, wei)));; mret (Some wei))
                (λ _, mret None));
  gets (λ s, {|
    balanceWei := z_to_string <$> wei;
    lowBalance := (λ v, v <? LOW_BALANCE_WEI) <$> wei;
    mintsToday := countSubmittedSince (store s) (startOfUtcDay t);
    inFlight := zlen (jobs s);
  |}).

(** Everything that changes the relay's state. *)
Inductive step (s : relay W) : relay W → Prop :=
| step_request raw : step s (request raw s).2
| step_status raw : step s (status raw s).2
| step_resume : step s (resume s).2
| step_retryDue : step s (retryDue s).2
| step_finish b : step s (finish_job b s)
| step_info : step s (info s).2
| step_world w : step s (set_world w s).
End CctpRelay.
