(* ===== verification/CctpRelayFacts.v ===== *)
(** * Correctness of the CCTP relay

    Invariants of every reachable state of [CctpRelay], by induction on its
    steps, and what one job, one attempt and one wait for Circle achieve. *)

From S2P Require Import Prelude JsData JsMap CctpMessage CctpNet CctpStore CctpRelay.

(** ** The invariant of a record *)

(** A signature is only ever stored beside the message it signs, and only for
    a message the relay accepts; an arrived transfer is looked up again only
    while its mint hash is unknown. *)
Definition signed_ok (r : RelayRecord) : Prop :=
  truthy (attestation r) = true →
  ∃ msg rb, message r = Some msg ∧ assertRelayable msg = Ok rb ∧
            nonce r = Some (CctpMessage.nonce (rb_message rb)).

Definition rec_ok (b : string) (r : RelayRecord) : Prop :=
  burnHash r = b ∧ signed_ok r ∧
  (state r = arrived → is_Some (retryAt r) → truthy (mintHash r) = false).

(** A patch a job applies to the record of [b], other than recording a
    broadcast. *)
Definition good_patch (b : string) (p : RelayRecord → RelayRecord) : Prop :=
  ∀ r, rec_ok b r → rec_ok b (p r) ∧ submittedAt (p r) = submittedAt r.

Ltac patches :=
  intros rec0 (Hb0 & Hs0 & Ha0); unfold rec_ok, signed_ok in *; simpl;
  split; [split_and!; try done|done].

(** ** What the relay spends gas on *)

(** Every broadcast directly follows a successful simulation of the same
    message and signature, which directly follows the contract's answer that
    the nonce of that message, one the relay accepts, is unspent. *)
Fixpoint guarded (cs : list chain_call) : Prop :=
  match cs with
  | [] => True
  | CSend msg att :: cs' =>
      (∃ rb rest, assertRelayable msg = Ok rb ∧
         cs' = CSimulate msg att true :: CNonce (CctpMessage.nonce (rb_message rb)) false :: rest) ∧
      guarded cs'
  | _ :: cs' => guarded cs'
  end.

Definition is_send (c : chain_call) : bool := match c with CSend _ _ => true | _ => false end.

Lemma guarded_app l cs : forallb (λ c, negb (is_send c)) l = true → guarded cs → guarded (l ++ cs).
Proof.
  induction l as [|c l IH]; simpl; [done|]. intros H Hcs. bools.
  destruct c; simpl in *; [by auto..|done].
Qed.

(** The transfers broadcast in the UTC day that starts at [d]. *)
Definition in_day (d : Z) (r : RelayRecord) : bool :=
  match submittedAt r with Some t => (d <=? t) && (t <? d + DAY_MS) | None => false end.

Definition day_count (st : MemoryRelayStore) (d : Z) : Z :=
  zlen (filter (λ r, in_day d r = true) (map_values st)).

Definition count (p : RelayRecord → bool) (st : MemoryRelayStore) : Z :=
  zlen (filter (λ r, p r = true) (map_values st)).

Lemma count_cons p k r st : count p ((k, r) :: st) = (if p r then 1 else 0) + count p st.
Proof.
  unfold count, map_values. rewrite fmap_cons, filter_cons. cbn [snd].
  destruct (decide (p r = true)) as [E|E]; [by rewrite E, zlen_cons|].
  apply not_true_is_false in E. rewrite E. lia.
Qed.

Lemma count_put p r st :
  count p (put st r) =
  count p st + (if p r then 1 else 0)
    - (if default false (p <$> get st (burnHash r)) then 1 else 0).
Proof.
  unfold put, get. generalize (burnHash r) as k. intros k.
  induction st as [|[k' v] st IH]; simpl.
  - rewrite count_cons. lia.
  - destruct (decide (k = k')) as [->|]; rewrite !count_cons; [simpl; lia|]. rewrite IH. lia.
Qed.

Lemma count_weaken (p q : RelayRecord → bool) st :
  (∀ r, p r = true → q r = true) → count p st ≤ count q st.
Proof.
  intros H. induction st as [|[k v] st IH]; [done|]. rewrite !count_cons.
  specialize (H v). destruct (p v), (q v); first [lia|by discriminate (H eq_refl)].
Qed.

Lemma in_day_ext d r r' : submittedAt r' = submittedAt r → in_day d r' = in_day d r.
Proof. unfold in_day. by intros ->. Qed.

(** A state that differs in the world, or the cache, only. *)
Ltac same := split_and!; [done|done|by exists []].

Lemma touch_ok b t r : rec_ok b r → rec_ok b (set_updatedAt t r).
Proof. done. Qed.

(** Days are the multiples of [DAY_MS]. *)
Lemma day_start d t : d mod DAY_MS = 0 → d ≤ t → t < d + DAY_MS → d = startOfUtcDay t.
Proof.
  unfold startOfUtcDay, DAY_MS. intros Hd H1 H2. apply Z.mod_divide in Hd as [k ->]; [|done].
  pose proof (Z.div_mod t (24 * 60 * 60000)) as E. pose proof (Z.mod_pos_bound t (24 * 60 * 60000)).
  nia.
Qed.

Lemma startOfUtcDay_mono t t' : t ≤ t' → startOfUtcDay t ≤ startOfUtcDay t'.
Proof.
  unfold startOfUtcDay, DAY_MS. intros H.
  pose proof (Z.div_mod t (24 * 60 * 60000)). pose proof (Z.div_mod t' (24 * 60 * 60000)).
  pose proof (Z.div_le_mono t t' (24 * 60 * 60000)). lia.
Qed.

Lemma day_count_since st t t' :
  t ≤ t' → day_count st (startOfUtcDay t') ≤ countSubmittedSince st (startOfUtcDay t).
Proof.
  intros H. apply startOfUtcDay_mono in H.
  change (count (in_day (startOfUtcDay t')) st ≤ count (submitted_since (startOfUtcDay t)) st).
  apply count_weaken. intros r. unfold in_day, submitted_since.
  destruct (submittedAt r); [|done]. rewrite andb_true_iff, !Z.leb_le. lia.
Qed.

Lemma truthy_present o : truthy o = true ↔ ∃ v, present o = Some v.
Proof.
  unfold truthy, present. destruct o as [v|]; [|split; [done|by intros [? ?]]].
  case_bool_decide; simpl; split; (done || naive_solver).
Qed.

(** ** The invariant of the store and the jobs *)

Section facts.
Context {W : Type} `{env : RelayEnv W} (settings : RelaySettings).
Abbreviation M := (io (relay W) exn).
Abbreviation St := (relay W).

Definition recs_ok (s : St) : Prop := ∀ b r, get (store s) b = Some r → rec_ok b r.

Definition job_ok (s : St) (b : string) (j : job) : Prop :=
  match j with
  | JRun b' => b' = b
  | JLookup r => get (store s) b = Some r ∧ state r = arrived ∧ truthy (mintHash r) = false
  | JResume r => get (store s) b = Some r ∧ isRetrying r = true
  | JDone => True
  | JThrew => False
  end.

Definition jobs_ok (s : St) : Prop := ∀ b j, map_get b (jobs s) = Some j → job_ok s b j.

(** The clock does not step back across a simulation or a broadcast. *)
Definition clock_ok : Prop := ∀ msg att w,
  env_now w ≤ env_now (env_simulateReceive msg att w).2 ∧
  env_now w ≤ env_now (env_sendReceive msg att w).2.

Definition cap_ok (s : St) : Prop :=
  ∀ d, d mod DAY_MS = 0 → day_count (store s) d ≤ Z.max 0 (dailyCap settings).

(** The relay's spending rules survive. *)
Definition safe_kept (s s' : St) : Prop :=
  (guarded (calls s) → guarded (calls s')) ∧ (clock_ok → cap_ok s → cap_ok s').

(** What the job of [b] may do: the jobs stay, the records stay well formed,
    only the record of [b] changes, and the spending rules are kept. *)
Definition job_writes (b : string) (s s' : St) : Prop :=
  recs_ok s → jobs s' = jobs s ∧ recs_ok s' ∧
    (∀ b', b' ≠ b → get (store s') b' = get (store s) b') ∧
    (is_Some (get (store s) b) → is_Some (get (store s') b)) ∧ safe_kept s s'.

(** What a call of the outside world may do. *)
Definition same_store (s s' : St) : Prop :=
  store s' = store s ∧ jobs s' = jobs s ∧
  ∃ l, calls s' = l ++ calls s ∧ forallb (λ c, negb (is_send c)) l = true.

#[local] Instance safe_kept_preorder : PreOrder safe_kept.
Proof. split; [by intros s; split|]. intros s1 s2 s3 [A1 A2] [B1 B2]. split; auto. Qed.

#[local] Instance job_writes_preorder b : PreOrder (job_writes b).
Proof.
  split; [intros s Hs; split_and!; [done..|reflexivity]|]. intros s1 s2 s3 H12 H23 H1.
  destruct (H12 H1) as (J1 & O1 & F1 & X1 & K1), (H23 O1) as (J2 & O2 & F2 & X2 & K2).
  split_and!; [congruence|done| |by auto|by etrans]. intros b' Hb. rewrite F2, F1; done.
Qed.

#[local] Instance same_store_preorder : PreOrder same_store.
Proof.
  split; unfold same_store; [intros s; split_and!; [done..|by exists []]|].
  intros s1 s2 s3 (-> & -> & l1 & -> & H1) (-> & -> & l2 & -> & H2). split_and!; [done..|].
  exists (l2 ++ l1). rewrite app_assoc, forallb_app, H1, H2. done.
Qed.

Lemma same_safe s s' : same_store s s' → safe_kept s s'.
Proof.
  intros (E1 & E2 & l & E3 & Hl). split; [rewrite E3; by apply guarded_app|].
  intros _. unfold cap_ok. by rewrite E1.
Qed.

Lemma same_writes b s s' : same_store s s' → job_writes b s s'.
Proof.
  intros H Hs. pose proof (same_safe s s' H) as K. destruct H as (E1 & E2 & _).
  unfold recs_ok in *. rewrite E1, E2. by split_and!.
Qed.

Lemma same_store_writes b {A} (m : M A) : preserves same_store m → preserves (job_writes b) m.
Proof.
  intros H s. apply same_writes, H.
Qed.

Lemma update_eq b p s r :
  get (store s) b = Some r →
  update b p s = (Ok (set_updatedAt (env_now (world s)) (p r)),
                  set_store (put (store s) (set_updatedAt (env_now (world s)) (p r))) s).
Proof. unfold update. by intros ->. Qed.

(** Replacing the record of [b] by one broadcast at the same time, if ever. *)
Lemma put_writes b r' s :
  rec_ok b r' → (get (store s) b ≫= submittedAt) = submittedAt r' →
  job_writes b s (set_store (put (store s) r') s).
Proof.
  intros Hr Hsub Hs. pose proof (proj1 Hr) as Hb. split_and!; [done|..].
  - intros b' r0. simpl. rewrite get_put, Hb. destruct (decide (b' = b)) as [->|]; [|apply Hs].
    by intros [= <-].
  - intros b' Hne. simpl. rewrite get_put, Hb. by destruct (decide (b' = b)).
  - intros _. simpl. rewrite get_put, Hb. by destruct (decide (b = b)).
  - split; [done|]. intros _ Hc d Hd. specialize (Hc d Hd). simpl.
    change (day_count (put (store s) r') d) with (count (in_day d) (put (store s) r')).
    change (day_count (store s) d) with (count (in_day d) (store s)) in Hc.
    rewrite count_put, Hb.
    destruct (get (store s) b) as [r|]; simpl in *.
    + rewrite (in_day_ext d r r') by done. lia.
    + assert (in_day d r' = false) as -> by (unfold in_day; by rewrite <- Hsub). lia.
Qed.

Lemma update_writes b p : good_patch b p → preserves (job_writes b) (update b p : M _).
Proof.
  intros Hp s Hs. refine ((_ : job_writes b s _) Hs). unfold update.
  destruct (get (store s) b) as [r|] eqn:E; simpl; [|reflexivity].
  destruct (Hp r (Hs b r E)) as [Hok Hsub].
  apply put_writes; [by apply touch_ok|]. rewrite E. simpl. done.
Qed.

(** *** The outside world changes neither store nor jobs *)

Lemma ask_same {A} (f : W → result string A * W) : preserves same_store (ask f : M A).
Proof. intros s. unfold ask. destruct (f (world s)) as [[a|e] w]; split_and!; by try exists []. Qed.

Lemma log_same c : is_send c = false → preserves same_store (modify (log_call c) : M ()).
Proof. intros H s. split_and!; [done..|]. exists [c]. simpl. by rewrite H. Qed.

Lemma modify_same (f : St → St) :
  (∀ s, same_store s (f s)) → preserves same_store (modify f : M ()).
Proof. intros H s. apply H. Qed.

Hint Resolve ask_same : preserves.
Hint Extern 5 (preserves same_store (modify (log_call _))) =>
  (apply log_same; reflexivity) : preserves.
Hint Extern 6 (preserves same_store (modify _)) =>
  (apply modify_same; intros; same) : preserves.

Lemma isNonceUsed_same n : preserves same_store (isNonceUsed n : M _).
Proof. unfold isNonceUsed. preserve. Qed.

Lemma simulateReceive_same m a : preserves same_store (simulateReceive m a : M _).
Proof. unfold simulateReceive. preserve. Qed.

Lemma fetch_indexer_same u n : preserves same_store (fetch_indexer u n : M _).
Proof.
  intros s. unfold fetch_indexer. destruct (env_indexer _ _) as [answer w].
  destruct (HASH _), (findMintOnIndexer _ _ _); same.
Qed.
Hint Resolve isNonceUsed_same simulateReceive_same fetch_indexer_same : preserves.

Lemma findMintTx_same n : preserves same_store (findMintTx settings n : M _).
Proof. unfold findMintTx. preserve. Qed.

Lemma read_balance_same : preserves same_store (read_balance : M _).
Proof. unfold read_balance, now. preserve. Qed.
Hint Resolve findMintTx_same read_balance_same : preserves.

Lemma canPayForMint_same : preserves same_store (canPayForMint : M _).
Proof. unfold canPayForMint. preserve. Qed.

Lemma warnIfLow_same : preserves same_store (warnIfLow : M _).
Proof. unfold warnIfLow. preserve. Qed.

Lemma awaitReceipt_same n h : preserves same_store (awaitReceipt_ n h : M _).
Proof. induction n; simpl; preserve. Qed.

Lemma awaitReceipt_writes b n h : preserves (job_writes b) (awaitReceipt_ n h : M _).
Proof. apply same_store_writes, awaitReceipt_same. Qed.

Lemma isNonceUsed_writes b n : preserves (job_writes b) (isNonceUsed n : M _).
Proof. apply same_store_writes, isNonceUsed_same. Qed.

Lemma iris_lookup_same b : preserves same_store (iris_lookup settings b : M _).
Proof. intros s. unfold iris_lookup. destruct (env_iris _ _). same. Qed.
Hint Resolve canPayForMint_same warnIfLow_same awaitReceipt_same iris_lookup_same : preserves.

(** *** A job writes its own record, and keeps it well formed *)

Hint Resolve update_writes : preserves.
Hint Extern 6 (preserves (job_writes _) _) =>
  (apply same_store_writes; solve [eauto 2 with preserves]) : preserves.

Lemma fail_writes b code reason : preserves (job_writes b) (fail_ b code reason : M _).
Proof. unfold fail_. preserve. apply update_writes. patches. Qed.

Lemma transient_writes b code reason : preserves (job_writes b) (transient b code reason : M _).
Proof.
  unfold transient, lookup_record, now. preserve;
    first [apply fail_writes | apply update_writes; patches].
Qed.

Lemma arrived_writes b hash by_ : preserves (job_writes b) (arrived_ b hash by_ : M _).
Proof.
  unfold arrived_, now. preserve. apply update_writes. patches.
  intros _. destruct (truthy hash); [by intros [? ?]|done].
Qed.
Hint Resolve fail_writes transient_writes arrived_writes : preserves.

Lemma mintedElsewhere_writes b n : preserves (job_writes b) (mintedElsewhere settings b n : M _).
Proof. unfold mintedElsewhere. preserve. Qed.
Hint Resolve mintedElsewhere_writes : preserves.

Hint Extern 5 (preserves (job_writes _) (modify _)) =>
  (apply same_store_writes, modify_same; by intros) : preserves.

Lemma mint_earlier_writes b r n : preserves (job_writes b) (mint_earlier b r n : M _).
Proof. unfold mint_earlier, awaitReceipt. preserve. Qed.

Lemma mint_landed_writes b n hash :
  preserves (job_writes b) (mint_landed settings b n hash : M _).
Proof. unfold mint_landed, awaitReceipt. preserve. Qed.
Hint Resolve mint_earlier_writes mint_landed_writes : preserves.

(** Recording a broadcast, while the day is under its cap. *)
Lemma submit_writes b hash r s :
  let t := env_now (world s) in
  get (store s) b = Some r →
  (clock_ok → day_count (store s) (startOfUtcDay t) < dailyCap settings) →
  job_writes b s (set_store (put (store s) (set_updatedAt t (submitted_ hash t r))) s).
Proof.
  intros t Hr Hcap Hs. destruct (Hs b r Hr) as (Hb & Hsig & _).
  set (r' := set_updatedAt t _). assert (Hok : rec_ok b r') by done.
  split_and!; [done|..].
  - intros b' r0. simpl. rewrite get_put, (proj1 Hok). destruct (decide (b' = b)) as [->|]; [|apply Hs].
    by intros [= <-].
  - intros b' Hne. simpl. rewrite get_put, (proj1 Hok). by destruct (decide (b' = b)).
  - intros _. simpl. rewrite get_put, (proj1 Hok). by destruct (decide (b = b)).
  - split; [done|]. intros Hck Hc d Hd. specialize (Hc d Hd). specialize (Hcap Hck). simpl.
    change (count (in_day d) (put (store s) r') ≤ Z.max 0 (dailyCap settings)).
    change (count (in_day d) (store s) ≤ Z.max 0 (dailyCap settings)) in Hc.
    change (count (in_day (startOfUtcDay t)) (store s) < dailyCap settings) in Hcap.
    rewrite count_put. unfold in_day at 2. simpl.
    destruct ((d <=? t) && (t <? d + DAY_MS)) eqn:E;
      [|destruct (default false _); lia].
    assert (d = startOfUtcDay t) as -> by (bools; by apply day_start).
    destruct (default false _); lia.
Qed.

Lemma mint_sent_writes b n hash r s :
  get (store s) b = Some r →
  (clock_ok → day_count (store s) (startOfUtcDay (env_now (world s))) < dailyCap settings) →
  job_writes b s (mint_sent settings b n hash s).2.
Proof.
  intros Hr Hcap. unfold mint_sent, now, gets, modify, mbind, io_bind.
  rewrite (update_eq b _ s r Hr). etrans; [by apply (submit_writes b hash r s)|].
  etrans; [|apply mint_landed_writes]. apply same_writes. same.
Qed.

Lemma mint_unsimulated_writes b n again why :
  preserves (job_writes b) (mint_unsimulated settings b n again why : M _).
Proof. unfold mint_unsimulated. preserve. Qed.

(** When the earlier broadcast leaves the mint to do, nothing was written. *)
Lemma mint_earlier_continues b r n s s1 :
  mint_earlier b r n s = (Ok false, s1) → store s1 = store s.
Proof.
  unfold mint_earlier. destruct (present (mintHash r)) as [hash|]; [|by intros [= <-]].
  case_bool_decide; [|by intros [= <-]]. unfold mbind, io_bind.
  pose proof (awaitReceipt_same RECEIPT_WAITS hash s) as [E _]. unfold awaitReceipt.
  destruct (awaitReceipt_ _ hash s) as [[o|e] s2]; simpl in *; [|done].
  case_bool_decide; [by destruct (arrived_ b _ _ s2) as [[]]|].
  case_bool_decide; [|by intros [= <-]].
  pose proof (isNonceUsed_same n s2) as [E2 _].
  destruct (isNonceUsed n s2) as [[[]|e] s3]; simpl in *; [by intros [= <-]; congruence| |done].
  by destruct (transient b _ _ s3) as [[]].
Qed.

(** The heart of the relay: a broadcast follows its checks. *)
Lemma mint_send_writes b r rb rest msg att s :
  get (store s) b = Some r → assertRelayable msg = Ok rb →
  calls s = CNonce (CctpMessage.nonce (rb_message rb)) false :: rest →
  countSubmittedSince (store s) (startOfUtcDay (env_now (world s))) < dailyCap settings →
  job_writes b s (mint_send settings b (CctpMessage.nonce (rb_message rb)) msg att s).2.
Proof.
  intros Hr Hrb Hcalls Hcap. set (n := CctpMessage.nonce (rb_message rb)) in *.
  unfold mint_send. unfold simulateReceive, ask, modify.
  unfold mbind at 1, io_bind at 1. unfold mbind at 1, io_bind at 1.
  unfold mbind at 1, io_bind at 1. unfold mret at 1, io_ret at 1.
  destruct (env_simulateReceive msg att (world s)) as [[o|e] w1] eqn:Esim; simpl.
  2: { apply same_writes. same. }
  destruct o as [|again why]; simpl.
  2: { etrans; [|apply mint_unsimulated_writes].
       apply same_writes. split_and!; [done..|by exists [CSimulate msg att false]]. }
  unfold mbind, io_bind, sendReceive. simpl.
  destruct (env_sendReceive msg att w1) as [sent w2] eqn:Esend.
  match goal with |- context [log_call (CSend msg att) ?x] => set (s2 := log_call (CSend msg att) x) end.
  assert (J : job_writes b s s2).
  { intros Hs. split_and!; [done..|]. split; [|done]. intros Hg. simpl. rewrite Hcalls in *.
    split; [by exists rb, rest|exact Hg]. }
  assert (Ht : clock_ok → day_count (store s2) (startOfUtcDay (env_now (world s2))) <
               dailyCap settings).
  { intros Hck. destruct (Hck msg att (world s)) as [H1 _]. destruct (Hck msg att w1) as [_ H2].
    rewrite Esim in H1. rewrite Esend in H2. simpl in *.
    eapply Z.le_lt_trans; [|exact Hcap]. apply day_count_since. lia. }
  destruct sent as [hash|[|]]; (etrans; [exact J|]);
    [by apply (mint_sent_writes b n hash r s2)|apply transient_writes..].
Qed.

Lemma mint_new_writes b r rb msg att s :
  get (store s) b = Some r → assertRelayable msg = Ok rb →
  job_writes b s (mint_new settings b (CctpMessage.nonce (rb_message rb)) msg att s).2.
Proof.
  intros Hr Hrb. unfold mint_new. set (n := CctpMessage.nonce (rb_message rb)).
  unfold isNonceUsed, ask, modify. unfold mbind at 1, io_bind at 1.
  unfold mbind at 1, io_bind at 1. unfold mbind at 1, io_bind at 1. unfold mret at 1, io_ret at 1.
  destruct (env_isNonceUsed n (world s)) as [[used|e] w]; simpl; [|apply same_writes; same].
  set (s1 := log_call (CNonce n used) (set_world w s)).
  assert (J : job_writes b s s1).
  { apply same_writes. split_and!; [done..|by exists [CNonce n used]]. }
  destruct used; [etrans; [exact J|apply mintedElsewhere_writes]|].
  unfold gets, mbind, io_bind. destruct (_ <=? _) eqn:Ecap.
  - etrans; [exact J|apply transient_writes].
  - etrans; [exact J|]. bools. by eapply mint_send_writes.
Qed.

Lemma mint_writes b : preserves (job_writes b) (mint settings b : M _).
Proof.
  intros s Hs. refine ((_ : job_writes b s _) Hs). unfold mint, lookup_record, gets.
  unfold mbind at 1, io_bind at 1. destruct (get (store s) b) as [r|] eqn:Hr; [|reflexivity].
  destruct (isSettled r); [reflexivity|].
  destruct (present (nonce r)) as [n|] eqn:En; [|reflexivity].
  destruct (present (message r)) as [msg|] eqn:Em; [|reflexivity].
  destruct (present (attestation r)) as [att|] eqn:Ea; [|reflexivity].
  destruct (Hs b r Hr) as (_ & Hsig & _).
  destruct (Hsig (proj2 (truthy_present _) (ex_intro _ att Ea))) as (msg' & rb & Hm & Hrb & Hn).
  apply present_some in Em as [Em _], En as [En _]. simplify_eq.
  unfold mbind at 1, io_bind at 1.
  pose proof (mint_earlier_writes b r (CctpMessage.nonce (rb_message rb)) s) as J.
  destruct (mint_earlier b r _ s) as [[[]|e] s1] eqn:E; simpl in *; [done| |done].
  etrans; [exact J|]. destruct (J Hs) as (_ & Hs1 & _).
  apply mint_earlier_continues in E. rewrite <- E in Hr.
  by apply (mint_new_writes b r rb msg att s1).
Qed.

Hint Resolve mint_writes : preserves.

Lemma the_record_writes b : preserves (job_writes b) (the_record b : M _).
Proof. unfold the_record, lookup_record. preserve. Qed.
Hint Resolve the_record_writes : preserves.

Lemma signed_patch b msg att rb :
  assertRelayable msg = Ok rb → good_patch b (λ r, set_state confirmed (set_signed rb msg att r)).
Proof. intros H. patches. by exists msg, rb. Qed.

Lemma iris_signed_writes b msg att : preserves (job_writes b) (iris_signed b msg att : M _).
Proof.
  unfold iris_signed. destruct (assertRelayable msg) as [rb|e] eqn:E.
  - by apply update_writes, signed_patch.
  - destruct e; preserve.
Qed.
Hint Resolve iris_signed_writes : preserves.

(** *** Waiting for Circle *)

Lemma iris_lookup_eq b s : ∃ l w, iris_lookup settings b s = (Ok l, set_world w s) ∧
  w = (env_iris (iris_url (irisUrl settings) b) (world s)).2.
Proof.
  unfold iris_lookup. destruct (env_iris _ _) as [answer w]. by eexists _, w.
Qed.

Lemma await_seen_eq b l r s :
  recs_ok s → get (store s) b = Some r →
  ∃ r' s', await_seen l r s = (Ok r', s') ∧ get (store s') b = Some r' ∧
    world s' = world s ∧ job_writes b s s'.
Proof.
  intros Hs Hr. pose proof (Hs b r Hr) as (Hb & _). unfold await_seen.
  destruct (_ && _)%bool; [|exists r, s; split_and!; [done..|reflexivity]].
  rewrite Hb, (update_eq b _ s r Hr). eexists _, _. split; [done|].
  split_and!; [|done|].
  - simpl. rewrite get_put. simpl. by destruct (decide (b = burnHash r)).
  - pose proof (update_writes b (set_state confirming)) as H.
    specialize (H ltac:(patches) s). by rewrite (update_eq b _ s r Hr) in H.
Qed.

(** *** Failures, exactly *)

Lemma get_put_eq st r b : burnHash r = b → get (put st r) b = Some r.
Proof. intros <-. rewrite get_put. by destruct (decide _). Qed.

Lemma fail_eq b code reason s r :
  get (store s) b = Some r →
  let again := negb (bool_decide (code = refused)) && negb (bool_decide (code = mint_refused)) in
  let r' := set_updatedAt (env_now (world s))
              (set_state failed (set_failure (Some reason) (Some code) again None r)) in
  fail_ b code reason s = (Ok (), set_store (put (store s) r') s).
Proof. intros Hr. unfold fail_, mbind, io_bind. by rewrite (update_eq b _ s r Hr). Qed.

(** The record a transient failure leaves. *)
Definition transient_record (t : Z) (code : FailureCode) (reason : string) (r : RelayRecord) :
    RelayRecord :=
  let since := default t (retryingSince r) in
  let n := default 0 (attempts r) + 1 in
  set_updatedAt t (set_state failed
    (if RETRY_GIVE_UP_MS <=? t - since then
       set_failure (Some ("the relay stopped after 24 hours of retrying (" +:+ reason +:+
                          "); ask again to start over")) (Some gave_up) true None
         (set_streak (Some n) (Some since) r)
     else
       set_failure (Some reason) (Some code) true
         (Some (if bool_decide (code = daily_cap) then startOfUtcDay t + DAY_MS
                else t + retryDelayMs n))
         (set_streak (Some n) (Some since) r))).

Lemma put_put st r1 r2 : burnHash r1 = burnHash r2 → put (put st r1) r2 = put st r2.
Proof.
  unfold put. intros ->. generalize (burnHash r2) as k. intros k.
  induction st as [|[k' v] st IH]; simpl; [by destruct (decide (k = k))|].
  destruct (decide (k = k')) as [->|Hne]; simpl.
  - by destruct (decide (k' = k')).
  - destruct (decide (k = k')); [done|]. by rewrite IH.
Qed.

Lemma transient_eq b code reason s r :
  get (store s) b = Some r → burnHash r = b →
  transient b code reason s =
    (Ok (), set_store (put (store s) (transient_record (env_now (world s)) code reason r)) s).
Proof.
  intros Hr Hb. unfold transient, transient_record, lookup_record, now, gets.
  unfold mbind at 1, io_bind at 1. cbn beta iota. unfold mbind at 1, io_bind at 1. cbn beta iota.
  rewrite Hr. cbn [mbind option_bind].
  destruct (_ <=? _).
  - unfold mbind, io_bind. rewrite (update_eq b _ s r Hr).
    set (r1 := set_updatedAt _ (set_streak _ _ r)).
    rewrite (fail_eq b _ _ _ r1) by (simpl; by apply get_put_eq).
    simpl. unfold set_store; simpl. by rewrite put_put.
  - unfold mbind, io_bind. by rewrite (update_eq b _ s r Hr).
Qed.

Lemma transient_after b code reason s r :
  get (store s) b = Some r → burnHash r = b →
  get (store (transient b code reason s).2) b =
    Some (transient_record (env_now (world s)) code reason r).
Proof.
  intros Hr Hb. rewrite (transient_eq b code reason s r Hr Hb). simpl.
  apply get_put_eq. unfold transient_record. by destruct (_ <=? _).
Qed.

Lemma transient_record_failed t code reason r : state (transient_record t code reason r) = failed.
Proof. done. Qed.

Lemma the_record_eq b (s : St) r : get (store s) b = Some r → the_record b s = (Ok r, s).
Proof. intros Hr. unfold the_record, mbind, io_bind, lookup_record, gets, lift. simpl. by rewrite Hr. Qed.

(** The window closing leaves a failed record. *)
Lemma await_over_eq b u s r :
  get (store s) b = Some r → burnHash r = b →
  ∃ r' s', await_over b u s = (Ok r', s') ∧ get (store s') b = Some r' ∧ state r' = failed.
Proof.
  intros Hr Hb. unfold await_over. destruct u.
  - unfold mbind, io_bind. rewrite (fail_eq b unseen _ s r Hr).
    set (r' := set_updatedAt _ _). exists r', (set_store (put (store s) r') s).
    assert (E : get (put (store s) r') b = Some r') by (by apply get_put_eq).
    split; [by apply the_record_eq|]. by split.
  - unfold mbind, io_bind. pose proof (transient_after b confirm_timeout
      "Circle has not confirmed the transfer yet" s r Hr Hb) as E.
    rewrite (transient_eq b _ _ s r Hr Hb) in *. simpl in E. eexists _, (set_store _ s).
    split; [apply the_record_eq; exact E|]. split; [exact E|done].
Qed.

Lemma iris_complete_truthy (fetch : string → http (list iris_message)) u b msg att :
  fetchIrisMessage fetch u b = Ok (iris_complete msg att) → truthy (Some att) = true.
Proof.
  unfold fetchIrisMessage. intros H. split_in H.
  match goal with H : present (im_attestation _) = Some _ |- _ => apply present_some in H as [_ H] end.
  by rewrite bool_decide_eq_false_2.
Qed.

Lemma await_over_writes b u : preserves (job_writes b) (await_over b u : M _).
Proof. unfold await_over. preserve. Qed.

(** What waiting for Circle returns: the record as stored, either signed or
    stopped. *)
Definition decided (b : string) (res : result exn RelayRecord) (s' : St) : Prop :=
  match res with
  | Ok r' => get (store s') b = Some r' ∧
      (state r' = confirmed ∧ truthy (attestation r') = true ∨ state r' = failed)
  | Err e => e = OutOfFuel
  end.

Lemma iris_signed_decides b msg att s r :
  get (store s) b = Some r → burnHash r = b → truthy (Some att) = true →
  decided b (iris_signed b msg att s).1 (iris_signed b msg att s).2.
Proof.
  intros Hr Hb Ha. unfold iris_signed. pose proof (assertRelayable_total msg) as H.
  destruct (assertRelayable msg) as [rb|e].
  - rewrite (update_eq b _ s r Hr). simpl. split; [by apply get_put_eq|by left].
  - assert (E : decided b
      ((fail_ b refused ("the relay does not complete this transfer: " +:+ refusal_text e);;
        the_record b) s).1
      ((fail_ b refused ("the relay does not complete this transfer: " +:+ refusal_text e);;
        the_record b) s).2); [|by destruct e].
    unfold mbind, io_bind. rewrite (fail_eq b refused _ s r Hr).
    set (r' := set_updatedAt _ _).
    assert (E : get (store (set_store (put (store s) r') s)) b = Some r') by by apply get_put_eq.
    rewrite (the_record_eq b _ r' E). split; [exact E|by right].
Qed.

Lemma iris_lookup_complete b s msg att :
  (iris_lookup settings b s).1 = Ok (Some (iris_complete msg att)) → truthy (Some att) = true.
Proof.
  unfold iris_lookup. destruct (env_iris _ _) as [answer w]. simpl. intros H.
  destruct (fetchIrisMessage _ _ _) as [l|] eqn:E; simplify_eq.
  by apply iris_complete_truthy in E.
Qed.

Lemma awaitMessage_loop_spec fuel begun delay r b s :
  recs_ok s → get (store s) b = Some r →
  job_writes b s (awaitMessage_loop settings fuel begun delay r s).2 ∧
  decided b (awaitMessage_loop settings fuel begun delay r s).1
            (awaitMessage_loop settings fuel begun delay r s).2.
Proof.
  revert delay r s. induction fuel as [|fuel IH]; intros delay r s Hs Hr; simpl.
  { split; [reflexivity|done]. }
  pose proof (Hs b r Hr) as (Hb & _). rewrite Hb.
  destruct (iris_lookup_eq b s) as (l & w & El & _).
  pose proof (iris_lookup_same b s) as Hsame. pose proof (iris_lookup_complete b s) as Hc.
  unfold mbind, io_bind. rewrite El in *. simpl in Hsame, Hc.
  assert (Hw : job_writes b s (set_world w s)) by (by intros _).
  set (s1 := set_world w s) in *.
  assert (Hs1 : recs_ok s1) by done. assert (Hr1 : get (store s1) b = Some r) by done.
  destruct (await_seen_eq b l r s1 Hs1 Hr1) as (r2 & s2 & E2 & Hr2 & Hw2 & J2).
  destruct (J2 Hs1) as (_ & Hs2 & _). pose proof (Hs2 b r2 Hr2) as (Hb2 & _).
  destruct l as [[| |msg att]|].
  3: { split; [etrans; [exact Hw|apply iris_signed_writes]|].
       apply (iris_signed_decides b msg att s1 r Hr1 Hb). by apply (Hc msg). }
  all: rewrite E2; unfold now, gets, sleep, modify; rewrite Hb2.
  all: destruct (_ <=? _);
    [ destruct (await_over_eq b (bool_decide (state r2 = sent)) s2 r2 Hr2 Hb2)
        as (r3 & s3 & E3 & Hr3 & Hf); pose proof (await_over_writes b (bool_decide (state r2 = sent)) s2) as J3;
      rewrite E3 in *; split; [by do 2 (etrans; [done|])|by split; [|right]]
    | match goal with |- context [awaitMessage_loop _ _ _ ?d _ ?s3] =>
        destruct (IH d r2 s3 Hs2 Hr2) as [J3 D3] end;
      split; [etrans; [exact Hw|etrans; [exact J2|]]; exact J3|exact D3] ].
Qed.

(** *** Jobs *)

Lemma findMintTx_ok n (s : St) : ∃ found s1, findMintTx settings n s = (Ok found, s1).
Proof.
  unfold findMintTx, try_catch, mbind, io_bind, mret, io_ret.
  destruct (ask _ s) as [[[m|]|e] s1].
  1: by eexists _, _.
  all: destruct (present _) as [url|]; [|by eexists _, _].
  all: destruct (fetch_indexer url n s1) as [[f|e'] s2]; by eexists _, _.
Qed.

Lemma run_writes b : preserves (job_writes b) (run settings b : M _).
Proof.
  intros s Hs. refine ((_ : job_writes b s _) Hs).
  unfold run, lookup_record, gets, mbind, io_bind.
  destruct (get (store s) b) as [r|] eqn:Hr; [|reflexivity].
  destruct (isSettled r); [reflexivity|].
  destruct (truthy (attestation r)); [by apply mint_writes|].
  unfold awaitMessage, now, gets, mbind, io_bind.
  match goal with |- context [awaitMessage_loop settings ?f ?t ?d r s] =>
    destruct (awaitMessage_loop_spec f t d r b s Hs Hr) as [J _];
    destruct (awaitMessage_loop settings f t d r s) as [[r'|e] s'] end; simpl in *; [|by apply J].
  destruct (isSettled r'); [by apply J|].
  etrans; [exact J|apply mint_writes].
Qed.

Hint Resolve run_writes : preserves.

Lemma resumeFailed_writes b r :
  burnHash r = b → preserves (job_writes b) (resumeFailed settings r : M _).
Proof.
  intros <-. unfold resumeFailed. preserve.
  apply update_writes. unfold resumed. patches.
Qed.

(** Another search for the mint leaves the transfer arrived. *)
Lemma lookupMintAgain_spec b r s :
  recs_ok s → get (store s) b = Some r → state r = arrived → truthy (mintHash r) = false →
  ∃ r' s', lookupMintAgain settings r s = (Ok (), s') ∧ job_writes b s s' ∧
    get (store s') b = Some r' ∧ state r' = arrived.
Proof.
  intros Hs Hr Ha Hm. pose proof (Hs b r Hr) as (Hb & Hsig & _). unfold lookupMintAgain.
  set (m := match present (nonce r) with Some n => findMintTx settings n | None => _ end).
  assert (Hsame : preserves same_store m) by (unfold m; preserve).
  assert (Hok : ∃ found s1, m s = (Ok found, s1)).
  { unfold m. destruct (present (nonce r)) as [n|]; [|by eexists _, _]. apply findMintTx_ok. }
  destruct Hok as (found & s1 & E). specialize (Hsame s).
  unfold mbind, io_bind. rewrite E in *. pose proof (same_writes b _ _ Hsame) as J1.
  destruct Hsame as [Est _]. simpl in Est, J1.
  assert (Hr1 : get (store s1) b = Some r) by (by rewrite Est).
  assert (Hs1 : recs_ok s1) by (by unfold recs_ok; rewrite Est).
  assert (Hput : ∀ r', rec_ok b r' → submittedAt r' = submittedAt r → state r' = arrived →
    job_writes b s (set_store (put (store s1) r') s1) ∧
    get (put (store s1) r') b = Some r' ∧ state r' = arrived).
  { intros r' Hok Hsub Hst. split.
    { etrans; [exact J1|]. apply put_writes; [done|]. by rewrite Hr1. }
    split; [apply get_put_eq, Hok|done]. }
  rewrite Hb. destruct found as [f|]; unfold now, gets; rewrite (update_eq b _ s1 r Hr1);
    (eexists _, _; split; [done|]; apply Hput; [|done|exact Ha]);
    (split_and!; [done|done|]); intros _ H; [by destruct H|exact Hm].
Qed.

(** *** Steps keep the invariant and every final outcome *)

Definition inv (s : St) : Prop := recs_ok s ∧ jobs_ok s.

(** A transfer nothing changes any more: minted with its hash known, or
    refused for good. *)
Definition for_good (r : RelayRecord) : Prop :=
  state r = arrived ∧ truthy (mintHash r) = true ∨
  state r = failed ∧ retryable r = false ∧ retryAt r = None.

Definition outcome_kept (o o' : option RelayRecord) : Prop :=
  ∀ r, o = Some r →
    (state r = arrived → ∃ r', o' = Some r' ∧ state r' = arrived) ∧
    (for_good r → o' = Some r).

Definition advances (s s' : St) : Prop :=
  inv s → inv s' ∧ safe_kept s s' ∧
    ∀ b, outcome_kept (get (store s) b) (get (store s') b).

Lemma outcome_kept_refl o : outcome_kept o o.
Proof. intros r ->. split; [|done]. intros H. by exists r. Qed.

#[local] Instance advances_preorder : PreOrder advances.
Proof.
  split.
  { intros s Hs. split_and!; [done|reflexivity|]. intros b. apply outcome_kept_refl. }
  intros s1 s2 s3 H12 H23 H1. destruct (H12 H1) as (I2 & K2 & O2), (H23 I2) as (I3 & K3 & O3).
  split_and!; [done|by etrans|]. intros b r Hr. destruct (O2 b r Hr) as [A2 G2]. split.
  - intros Ha. destruct (A2 Ha) as (r2 & Hr2 & Ha2). by apply (O3 b r2 Hr2).
  - intros Hg. by apply (O3 b r (G2 Hg)).
Qed.

(** A job that writes [b] advances the relay if the outcome of [b] is kept. *)
Lemma job_advances b s s' :
  inv s → job_writes b s s' → outcome_kept (get (store s) b) (get (store s') b) →
  ∀ b', outcome_kept (get (store s) b') (get (store s') b').
Proof.
  intros [Hs _] J Ho b'. destruct (J Hs) as (_ & _ & F & _).
  destruct (decide (b' = b)) as [->|Hne]; [done|]. rewrite F by done. apply outcome_kept_refl.
Qed.

Lemma job_ok_store s s' b j :
  get (store s') b = get (store s) b → job_ok s b j → job_ok s' b j.
Proof. intros E. destruct j; simpl; rewrite ?E; done. Qed.

Lemma retrying_not_final r : isRetrying r = true → state r ≠ arrived ∧ ¬ for_good r.
Proof.
  intros [Hf [t Ht]]%isRetrying_true. split; [by rewrite Hf|].
  intros [[Ha _]|(_ & _ & Hn)]; congruence.
Qed.

Lemma retrying_outcome r o : isRetrying r = true → outcome_kept (Some r) o.
Proof. intros [Hna Hng]%retrying_not_final r' [= <-]. by split. Qed.

Lemma arrived_outcome r r' :
  state r = arrived → truthy (mintHash r) = false → state r' = arrived →
  outcome_kept (Some r) (Some r').
Proof.
  intros Ha Hm Ha' r0 [= <-]. split; [intros _; by exists r'|].
  intros [[_ Hg]|[Hg _]]; congruence.
Qed.

Lemma run_settled b s r :
  get (store s) b = Some r → isSettled r = true → run settings b s = (Ok (), s).
Proof. intros Hr Hs. unfold run, lookup_record, gets, mbind, io_bind. by rewrite Hr, Hs. Qed.

(** The whole of a job, its [catch] included. *)
Lemma on_throw_writes b e : preserves (job_writes b) (on_throw b e : M _).
Proof. unfold on_throw, lookup_record. preserve. Qed.
Hint Resolve on_throw_writes : preserves.

Lemma job_body_spec b j s :
  inv s → job_ok s b j →
  let s' := (try_catch (work settings j) (on_throw b) s).2 in
  job_writes b s s' ∧ outcome_kept (get (store s) b) (get (store s') b).
Proof.
  intros Hs Hj. destruct j as [b'|r|r| |]; cbn [work].
  - simpl in Hj; subst b'. split.
    { assert (H : preserves (job_writes b) (try_catch (run settings b) (on_throw b) : M _)) by preserve.
      apply H. }
    destruct (get (store s) b) as [r|] eqn:Hr; [|done].
    destruct (isSettled r) eqn:Es.
    + unfold try_catch. rewrite (run_settled b s r Hr Es). simpl. rewrite Hr. apply outcome_kept_refl.
    + intros r' [= <-]. split.
      * intros Ha. by rewrite (proj2 (isSettled_true r) (or_introl Ha)) in Es.
      * intros [[Ha _]|[Hf _]]; by rewrite (proj2 (isSettled_true r) ltac:(auto)) in Es.
  - destruct Hj as (Hr & Ha & Hm).
    destruct (lookupMintAgain_spec b r s (proj1 Hs) Hr Ha Hm) as (r' & s' & E & J & Hr' & Ha').
    unfold try_catch. rewrite E. simpl. rewrite Hr, Hr'. split; [done|]. by apply arrived_outcome.
  - destruct Hj as [Hr Hrt]. rewrite Hr. split; [|by apply retrying_outcome].
    assert (H : preserves (job_writes b) (try_catch (resumeFailed settings r) (on_throw b) : M _)).
    { apply preserves_try_catch; [typeclasses eauto| |intros e; preserve].
      apply resumeFailed_writes, (proj1 Hs b r Hr). }
    apply H.
  - split; [reflexivity|apply outcome_kept_refl].
  - done.
Qed.

Lemma finish_job_advances b s : advances s (finish_job settings b s).
Proof.
  intros Hs. unfold finish_job. destruct (map_get b (jobs s)) as [j|] eqn:Ej.
  2: { by apply (reflexivity (R := advances) s). }
  destruct (job_body_spec b j s Hs (proj2 Hs b j Ej)) as [J O].
  set (s' := (try_catch _ _ s).2) in *. destruct (J (proj1 Hs)) as (E & Hs' & F & _ & K).
  split_and!; [|exact K|intros b'; exact (job_advances b s s' Hs J O b')].
  split; [exact Hs'|]. intros b' j'. simpl. rewrite E, map_get_delete.
  destruct (decide (b' = b)) as [->|Hne]; [done|]. intros Hj'.
  apply (job_ok_store s); [by apply F|]. by apply (proj2 Hs).
Qed.

(** What a job runs before its first [await]. *)
Lemma begin_job_spec b j s :
  inv s → job_ok s b j →
  let '(j', s') := begin_job settings j s in
  job_writes b s s' ∧ job_ok s' b j' ∧ outcome_kept (get (store s) b) (get (store s') b).
Proof.
  intros Hs Hj. destruct j as [b'|r|r| |]; cbn [begin_job].
  1, 4, 5: split_and!; [reflexivity|done|apply outcome_kept_refl].
  - destruct Hj as (Hr & Ha & Hm). destruct (truthy (nonce r)).
    { split_and!; [reflexivity|done|apply outcome_kept_refl]. }
    destruct (lookupMintAgain_spec b r s (proj1 Hs) Hr Ha Hm) as (r' & s' & E & J & Hr' & Ha').
    rewrite E, Hr, Hr'. split_and!; [done|done|by apply arrived_outcome].
  - destruct Hj as [Hr Hrt]. destruct (bool_decide (failureCode r = _)).
    { split_and!; [reflexivity|done|apply outcome_kept_refl]. }
    pose proof (proj1 Hs b r Hr) as (Hb & _). rewrite Hb.
    assert (J : job_writes b s (update b (resumed r) s).2)
      by (apply update_writes; unfold resumed; patches).
    rewrite (update_eq b _ s r Hr) in *. simpl in J. rewrite Hr.
    split_and!; [done|done|by apply retrying_outcome].
Qed.

Lemma launch_advances b j s : job_ok s b j → advances s (launch settings b j s).2.
Proof.
  intros Hj Hs. unfold launch. destruct (map_has b (jobs s)) eqn:Eb.
  { by apply (reflexivity (R := advances) s). }
  pose proof (begin_job_spec b j s Hs Hj) as H.
  destruct (begin_job settings j s) as [j' s']. destruct H as (J & Hj' & O). simpl.
  destruct (J (proj1 Hs)) as (E & Hs' & F & _ & K).
  split_and!; [|exact K|intros b'; exact (job_advances b s s' Hs J O b')].
  split; [exact Hs'|]. intros b' j0. simpl. rewrite E, map_get_set.
  destruct (decide (b' = b)) as [->|Hne]; [by intros [= <-]|]. intros H0.
  apply (job_ok_store s); [by apply F|]. by apply (proj2 Hs).
Qed.

Lemma start_advances b s : advances s (start settings b s).
Proof. by apply launch_advances. Qed.

Lemma retry_advances b s : advances s (retry settings b s).2.
Proof.
  intros Hs. refine ((_ : advances s _) Hs). unfold retry.
  destruct (get (store s) b) as [r|] eqn:Hr; [|reflexivity].
  destruct (is_due _ r) eqn:Ed; simpl; [|reflexivity].
  destruct (_ || _)%bool; [reflexivity|].
  case_bool_decide as Ha.
  - apply launch_advances. simpl. split_and!; [done..|].
    apply is_due_true in Ed as (t & Ht & _). apply (proj1 Hs b r Hr); [done|by exists t].
  - destruct (isRetrying r) eqn:Ei; simpl; [|reflexivity]. by apply launch_advances.
Qed.

Lemma foldl_advances {A} (f : St → A → St) l s :
  (∀ a s, advances s (f s a)) → advances s (foldl f s l).
Proof.
  intros Hf. revert s. induction l as [|a l IH]; intros s; simpl; [reflexivity|].
  etrans; [apply Hf|apply IH].
Qed.

Lemma resume_advances s : advances s (resume settings s).2.
Proof. apply foldl_advances. intros. apply start_advances. Qed.

Lemma retryDue_advances s : advances s (retryDue settings s).2.
Proof.
  unfold retryDue. generalize (listDue (store s) (env_now (world s))) as l. generalize 0 as n.
  intros n l. revert n s. induction l as [|r l IH]; intros n s; simpl; [reflexivity|].
  pose proof (retry_advances (burnHash r) s) as H.
  destruct (retry settings (burnHash r) s) as [[] s']; (etrans; [exact H|apply IH]).
Qed.

(** Putting the record a request starts from. *)
Lemma put_request_advances b r' s :
  rec_ok b r' → (get (store s) b ≫= submittedAt) = submittedAt r' →
  (∀ r, get (store s) b = Some r → state r = failed ∧ retryable r = true ∧ retryAt r = None) →
  advances s (set_store (put (store s) r') s).
Proof.
  intros Hr' Hsub Hold Hs. pose proof (put_writes b r' s Hr' Hsub) as J.
  destruct (J (proj1 Hs)) as (_ & Hs' & F & _ & K). split_and!; [|exact K|].
  - split; [exact Hs'|]. intros b' j Hj. pose proof (proj2 Hs b' j Hj) as Hok.
    destruct (decide (b' = b)) as [->|Hne]; [|by apply (job_ok_store s); [apply F|]].
    destruct j as [| r | r | |]; simpl in Hok; [exact Hok|exfalso..|exact Hok|exact Hok].
    + destruct Hok as (Hr & Ha & _). destruct (Hold r Hr) as (? & _). congruence.
    + destruct Hok as (Hr & Hi). apply isRetrying_true in Hi as [_ [t Ht]].
      destruct (Hold r Hr) as (_ & _ & ?). congruence.
  - apply (job_advances b); [done|exact J|]. intros r Hr.
    destruct (Hold r Hr) as (Hf & Hy & Hn). split; [congruence|].
    intros [[? _]|(_ & ? & _)]; congruence.
Qed.

Lemma request_advances raw s : advances s (request settings raw s).2.
Proof.
  intros Hs. refine ((_ : advances s _) Hs). unfold request.
  destruct (normalizeBurnHash raw) as [b|]; [|reflexivity].
  destruct (get (store s) b) as [r|] eqn:Hr.
  - destruct (isRetrying r) eqn:Ei; simpl.
    { destruct (isSettled r); simpl; [apply retry_advances|apply start_advances]. }
    destruct (bool_decide (state r = failed) && retryable r)%bool eqn:Ef; simpl.
    2: { destruct (isSettled r); simpl; [apply retry_advances|apply start_advances]. }
    destruct (_ <=? _); [reflexivity|]. simpl.
    apply andb_true_iff in Ef as [Hf Hy]. apply bool_decide_eq_true in Hf.
    assert (Hn : retryAt r = None).
    { apply eq_None_not_Some. intros [t Ht]. apply not_true_iff_false in Ei. apply Ei.
      apply isRetrying_true. split; [done|by exists t]. }
    etrans; [apply (put_request_advances b)|apply start_advances].
    + destruct (proj1 Hs b r Hr) as (Hb & Hsig & _).
      unfold restarted. split_and!; [done|done|]. simpl. by destruct (truthy (attestation r)).
    + by rewrite Hr.
    + intros r0 Hr0. rewrite Hr in Hr0. by simplify_eq.
  - destruct (_ <=? _); [reflexivity|]. simpl.
    etrans; [apply (put_request_advances b)|apply start_advances]; [done|by rewrite Hr|congruence].
Qed.

Lemma step_advances s s' : step settings s s' → advances s s'.
Proof.
  intros [raw|raw| | |b| |w].
  - apply request_advances.
  - unfold status. destruct (normalizeBurnHash raw) as [b|]; [|reflexivity].
    destruct (get (store s) b); [apply retry_advances|reflexivity].
  - apply resume_advances.
  - apply retryDue_advances.
  - apply finish_job_advances.
  - intros Hs. assert (H : preserves same_store (info : M _)) by (unfold info, now; preserve).
    specialize (H s). pose proof (same_safe _ _ H) as K. destruct H as (E1 & E2 & _).
    unfold inv, recs_ok, jobs_ok, job_ok in *.
    rewrite E1, E2. split_and!; [apply Hs|apply Hs|apply K..|]. intros b. apply outcome_kept_refl.
  - intros Hs. split_and!; [exact Hs|done|]. intros b. apply outcome_kept_refl.
Qed.

Lemma steps_advance s s' : rtc (step settings) s s' → advances s s'.
Proof. induction 1; [reflexivity|]. etrans; [by apply step_advances|done]. Qed.

(** *** Where a job leaves its transfer *)

Definition settled (b : string) (s : St) : Prop :=
  ∃ r, get (store s) b = Some r ∧ isSettled r = true.

(** [m] leaves the record of [b] settled, unless it throws. *)
Definition settles (b : string) (m : M ()) : Prop := ∀ s,
  recs_ok s → is_Some (get (store s) b) → is_ok (m s).1 = true → settled b (m s).2.

Lemma settles_bind {A} b (m : M A) f :
  preserves (job_writes b) m → (∀ a, settles b (f a)) → settles b (m ≫= f).
Proof.
  intros Hm Hf s Hs Hr. unfold mbind, io_bind. specialize (Hm s Hs).
  destruct (m s) as [[a|e] s']; [|done]. destruct Hm as (_ & Hs' & _ & X & _).
  apply Hf; auto.
Qed.

Lemma settles_then b (m k : M ()) :
  settles b m → preserves same_store k → settles b (m;; k).
Proof.
  intros Hm Hk s Hs Hr. unfold mbind, io_bind. specialize (Hm s Hs Hr).
  destruct (m s) as [[[]|e] s']; [|done]. intros _. destruct (Hk s') as [E _].
  destruct (Hm eq_refl) as (r & Hr' & Hst). exists r. by rewrite E.
Qed.

Lemma fail_settles b code reason : settles b (fail_ b code reason).
Proof.
  intros s Hs [r Hr] _. rewrite (fail_eq b code reason s r Hr). eexists. simpl.
  split; [apply get_put_eq; apply (Hs b r Hr)|done].
Qed.

Lemma transient_settles b code reason : settles b (transient b code reason).
Proof.
  intros s Hs [r Hr] _. eexists. split; [apply transient_after; [done|apply (Hs b r Hr)]|done].
Qed.

Lemma arrived_settles b hash by_ : settles b (arrived_ b hash by_).
Proof.
  intros s Hs [r Hr] _. unfold arrived_, now, gets, mbind, io_bind.
  rewrite (update_eq b _ s r Hr). eexists. simpl.
  split; [apply get_put_eq; apply (Hs b r Hr)|done].
Qed.

Create HintDb settles.
Hint Resolve fail_settles transient_settles arrived_settles : settles.

Ltac settle_all :=
  repeat first
    [ solve [eauto 2 with settles]
    | match goal with
      | |- settles _ (_ ≫= _) => apply settles_bind; [solve [preserve]|intros ?]
      | |- settles _ (if ?c then _ else _) => destruct c eqn:?
      | |- settles _ (match ?x with _ => _ end) => destruct x eqn:?
      end ].

Lemma mintedElsewhere_settles b n : settles b (mintedElsewhere settings b n).
Proof. unfold mintedElsewhere. settle_all. Qed.
Hint Resolve mintedElsewhere_settles : settles.

Lemma mint_unsimulated_settles b n again why : settles b (mint_unsimulated settings b n again why).
Proof. unfold mint_unsimulated. settle_all. Qed.

Lemma mint_landed_settles b n hash : settles b (mint_landed settings b n hash).
Proof.
  unfold mint_landed, awaitReceipt. apply settles_bind; [preserve|]. intros o.
  case_bool_decide; [|settle_all]. apply settles_then; [eauto with settles|preserve].
Qed.
Hint Resolve mint_unsimulated_settles mint_landed_settles : settles.

(** A broadcast changes what it must not change by nothing. *)
Lemma mint_sent_settles b n hash : settles b (mint_sent settings b n hash).
Proof.
  intros s Hs [r Hr] Hok. revert Hok. unfold mint_sent, now, gets, modify, mbind, io_bind.
  rewrite (update_eq b _ s r Hr). apply mint_landed_settles.
  - intros b' r0. simpl. rewrite get_put. destruct (decide _) as [->|]; [|apply Hs].
    intros [= <-]. destruct (Hs b r Hr) as (Hb & Hsig & _). by split_and!.
  - simpl. exists (set_updatedAt (env_now (world s)) (submitted_ hash (env_now (world s)) r)).
    apply get_put_eq. apply (Hs b r Hr).
Qed.
Hint Resolve mint_sent_settles : settles.

Lemma mint_send_settles b n msg att : settles b (mint_send settings b n msg att).
Proof.
  unfold mint_send. apply settles_bind; [preserve|]. intros [|again why]; [|settle_all].
  intros s Hs Hr. unfold sendReceive, mbind, io_bind. simpl.
  destruct (env_sendReceive msg att (world s)) as [[hash|[]] w];
    [apply mint_sent_settles|apply transient_settles..]; done.
Qed.
Hint Resolve mint_send_settles : settles.

Lemma mint_new_settles b n msg att : settles b (mint_new settings b n msg att).
Proof. unfold mint_new. settle_all. Qed.

Lemma mint_earlier_settles b r n s s1 :
  recs_ok s → is_Some (get (store s) b) →
  mint_earlier b r n s = (Ok true, s1) → settled b s1.
Proof.
  intros Hs Hr. unfold mint_earlier. destruct (present (mintHash r)) as [hash|]; [|done].
  case_bool_decide; [|done]. unfold mbind, io_bind, awaitReceipt.
  pose proof (awaitReceipt_writes b RECEIPT_WAITS hash s Hs) as (_ & Hs2 & _ & X2 & _).
  destruct (awaitReceipt_ _ hash s) as [[o|e] s2]; simpl in *; [|done].
  case_bool_decide.
  { pose proof (arrived_settles b (Some hash) by_relay s2 Hs2 (X2 Hr)) as H2.
    destruct (arrived_ b _ _ s2) as [[]]; [|done]. intros [= <-]. by apply H2. }
  case_bool_decide; [|done].
  pose proof (isNonceUsed_writes b n s2 Hs2) as (_ & Hs3 & _ & X3 & _).
  destruct (isNonceUsed n s2) as [[[]|e] s3]; simpl in *; [done| |done].
  pose proof (transient_settles b not_mined "the mint transaction on Base Sepolia is not mined yet"
    s3 Hs3 (X3 (X2 Hr))) as H3.
  destruct (transient b _ _ s3) as [[]]; [|done]. intros [= <-]. by apply H3.
Qed.

(** A signed record, minted: arrived, or failed with a reason. *)
Lemma mint_settles b s r :
  recs_ok s → get (store s) b = Some r → truthy (attestation r) = true →
  is_ok (mint settings b s).1 = true → settled b (mint settings b s).2.
Proof.
  intros Hs Hr Ha. unfold mint, lookup_record, gets. unfold mbind at 1 3, io_bind at 1 3.
  rewrite Hr. destruct (isSettled r) eqn:Est; [intros _; by exists r|].
  destruct (Hs b r Hr) as (_ & Hsig & _). destruct (Hsig Ha) as (msg & rb & Hm & Hrb & Hn).
  assert (Pm : present (message r) = Some msg).
  { rewrite Hm. unfold present. case_bool_decide as E; [|done]. by rewrite E in Hrb. }
  assert (Pn : present (nonce r) = Some (CctpMessage.nonce (rb_message rb))).
  { rewrite Hn. pose proof (assertRelayable_total msg) as H. rewrite Hrb in H.
    destruct H as [bs ->]. done. }
  apply truthy_present in Ha as [att Ha]. rewrite Pm, Pn, Ha.
  unfold mbind, io_bind.
  pose proof (mint_earlier_writes b r (CctpMessage.nonce (rb_message rb)) s Hs) as (_ & Hs1 & _ & X & _).
  destruct (mint_earlier b r _ s) as [[[]|e] s1] eqn:E; simpl in *; [|apply mint_new_settles; auto|done].
  intros _. by apply (mint_earlier_settles b r _ s s1 Hs ltac:(by exists r) E).
Qed.

Lemma run_settles b s :
  recs_ok s → is_Some (get (store s) b) →
  is_ok (run settings b s).1 = true → settled b (run settings b s).2.
Proof.
  intros Hs [r Hr]. unfold run, lookup_record, gets. unfold mbind at 1 3, io_bind at 1 3. rewrite Hr.
  destruct (isSettled r) eqn:Est; [intros _; by exists r|].
  destruct (truthy (attestation r)) eqn:Ea; [by apply (mint_settles b s r)|].
  unfold awaitMessage, now, gets, mbind, io_bind.
  match goal with |- context [awaitMessage_loop settings ?f ?t ?d r s] =>
    destruct (awaitMessage_loop_spec f t d r b s Hs Hr) as [J D];
    destruct (awaitMessage_loop settings f t d r s) as [[r'|e] s'] end; simpl in *; [|done].
  destruct (J Hs) as (_ & Hs' & _). destruct D as [Hr' Hor].
  destruct (isSettled r') eqn:Est'; [intros _; by exists r'|].
  destruct Hor as [[_ Ha]|Hf]; [by apply (mint_settles b s' r')|].
  by rewrite (proj2 (isSettled_true r') (or_intror Hf)) in Est'.
Qed.

(** An exception is turned into a failure that is retried. *)
Lemma on_throw_settles b e s :
  recs_ok s → is_Some (get (store s) b) → settled b (on_throw b e s).2.
Proof.
  intros Hs [r Hr]. unfold on_throw, lookup_record, gets, mbind, io_bind. rewrite Hr.
  case_bool_decide as Ha.
  - assert (Ok1 : is_ok (transient b unexpected "the relay hit an unexpected error" s).1 = true)
      by (rewrite (transient_eq b unexpected _ s r Hr (proj1 (Hs b r Hr))); done).
    apply transient_settles; [done|by exists r|exact Ok1].
  - exists r. split; [exact Hr|]. apply isSettled_true. left.
    destruct (decide (state r = arrived)); [done|by destruct Ha].
Qed.
End facts.

(** *** The wait for Circle ends *)

Section await_ends.
Context {W : Type} `{env : RelayEnv W} {laws : RelayEnvLaws W} (settings : RelaySettings).

Lemma await_fuel_enough fuel begun delay r b (s : relay W) :
  recs_ok s → get (store s) b = Some r → 1 ≤ delay → 1 ≤ pollMaxMs settings →
  confirmTimeoutMs settings + 1 ≤ env_now (world s) - begun + Z.of_nat fuel →
  (1 ≤ fuel)%nat →
  (awaitMessage_loop settings fuel begun delay r s).1 ≠ Err OutOfFuel.
Proof.
  revert delay r s. induction fuel as [|fuel IH]; intros delay r s Hs Hr Hd Hm Hf H1; [lia|].
  simpl. pose proof (Hs b r Hr) as (Hb & _). rewrite Hb.
  destruct (iris_lookup_eq settings b s) as (l & w & El & Ew).
  unfold mbind, io_bind. rewrite El. pose proof (iris_lookup_complete settings b s) as Hc.
  rewrite El in Hc. simpl in Hc. set (s1 := set_world w s).
  assert (Ht : env_now (world s) ≤ env_now (world s1)) by (simpl; rewrite Ew; apply iris_time).
  assert (Hs1 : recs_ok s1) by done. assert (Hr1 : get (store s1) b = Some r) by done.
  destruct (await_seen_eq settings b l r s1 Hs1 Hr1) as (r2 & s2 & E2 & Hr2 & Hw2 & J2).
  destruct (J2 Hs1) as (_ & Hs2 & _). pose proof (Hs2 b r2 Hr2) as (Hb2 & _).
  assert (Hcont : (let unseen_ := bool_decide (state r2 = sent) in
    if (if unseen_ then Z.min UNSEEN_TIMEOUT_MS (confirmTimeoutMs settings)
        else confirmTimeoutMs settings) <=? env_now (world s2) - begun
    then await_over b unseen_ s2
    else awaitMessage_loop settings fuel begun (Z.min (delay * 2) (pollMaxMs settings)) r2
           (set_world (env_sleep delay (world s2)) s2)).1 ≠ Err OutOfFuel).
  { simpl. destruct (_ <=? _) eqn:E.
    - destruct (await_over_eq b (bool_decide (state r2 = sent)) s2 r2 Hr2 Hb2) as (? & ? & -> & _).
      done.
    - assert (Hn : env_now (world s2) + delay ≤ env_now (env_sleep delay (world s2)))
        by apply sleep_elapses.
      assert (Hlim : env_now (world s2) - begun < confirmTimeoutMs settings).
      { bools. destruct (bool_decide _); lia. }
      rewrite Hw2 in *. apply IH; [done|done|lia|done|simpl in *; lia|]. simpl in *. lia. }
  destruct l as [[| |msg att]|].
  3: { pose proof (iris_signed_decides b msg att s1 r Hr1 Hb (Hc msg att eq_refl)) as D.
       unfold decided in D. destruct (iris_signed b msg att s1) as [[?|e] ?] eqn:Ei; simpl in *; [done|].
       exfalso. revert Ei. unfold iris_signed. destruct (assertRelayable msg) as [rb|e'] eqn:Ea.
       - by rewrite (update_eq b _ s1 r Hr1).
       - pose proof (assertRelayable_total msg) as Hne. rewrite Ea in Hne.
         destruct e'; try done; unfold mbind, io_bind; rewrite (fail_eq b refused _ s1 r Hr1);
           unfold the_record, mbind, io_bind, lookup_record, gets, lift; simpl;
           by rewrite get_put_eq. }
  all: rewrite E2; unfold now, gets, sleep, modify; rewrite Hb2; simpl in Hcont;
    by destruct (_ <=? _).
Qed.
End await_ends.

(** ** Properties *)

(** A relay that has just started on the records a previous process left. *)
Definition initial {W} (st : MemoryRelayStore) (w : W) : relay W := mkRelay st [] None w [].

Definition stored_ok (st : MemoryRelayStore) : Prop := ∀ b r, get st b = Some r → rec_ok b r.

Lemma initial_inv {W} `{RelayEnv W} st (w : W) : stored_ok st → inv (initial st w).
Proof. intros Hst. split; [exact Hst|by intros b j]. Qed.

(** C1: the relay pays for a mint only after its checks. From any stored state,
    through any sequence of requests, polls, sweeps, restarts of open
    transfers, job runs and changes of the outside world, every broadcast it
    ever made directly followed a simulation of that very message and
    signature that succeeded, directly after the contract said that the nonce
    of that message was unspent, and the message is one [assertRelayable]
    accepts. *)
Theorem broadcasts_are_guarded {W} `{RelayEnv W} settings st (w : W) s :
  stored_ok st → rtc (step settings) (initial st w) s → guarded (calls s).
Proof.
  intros Hst Hsteps. destruct (steps_advance _ _ _ Hsteps (initial_inv st w Hst)) as (_ & [K _] & _).
  by apply K.
Qed.

(** what the relay settles stays settled. An arrived transfer stays arrived;
    a transfer that arrived with a known mint hash, or that failed for good
    (not retryable, no retry due: a refused message or mint), keeps exactly
    its record, whatever happens next. *)
Theorem outcomes_are_final {W} `{RelayEnv W} settings st (w : W) s s' b r :
  stored_ok st → rtc (step settings) (initial st w) s → rtc (step settings) s s' →
  get (store s) b = Some r →
  (state r = arrived → ∃ r', get (store s') b = Some r' ∧ state r' = arrived) ∧
  (for_good r → get (store s') b = Some r).
Proof.
  intros Hst H1 H2 Hr. destruct (steps_advance _ _ _ H1 (initial_inv st w Hst)) as (I & _).
  destruct (steps_advance _ _ _ H2 I) as (_ & _ & O). by apply O.
Qed.

(** the daily cap holds. If the stored transfers respect it and the clock
    does not step back across a simulation or a broadcast, then in every
    reachable state the transfers broadcast in any one UTC day are at most the
    cap, also when a broadcast crosses midnight. *)
Theorem daily_cap_holds {W} `{RelayEnv W} settings st (w : W) s d :
  stored_ok st → clock_ok (W := W) → cap_ok settings (initial st w) →
  rtc (step settings) (initial st w) s → d mod DAY_MS = 0 →
  day_count (store s) d ≤ Z.max 0 (dailyCap settings).
Proof.
  intros Hst Hck Hcap Hsteps.
  destruct (steps_advance _ _ _ Hsteps (initial_inv st w Hst)) as (_ & [_ K] & _). by apply K.
Qed.



Lemma retryDelayMs_bounds n : RETRY_INITIAL_MS ≤ retryDelayMs n ≤ RETRY_MAX_MS.
Proof.
  unfold retryDelayMs, RETRY_INITIAL_MS, RETRY_MAX_MS.
  pose proof (Z.pow_pos_nonneg 2 (Z.max 0 (n - 1))). lia.
Qed.

Lemma next_day t : (startOfUtcDay t + DAY_MS) mod DAY_MS = 0 ∧
  t < startOfUtcDay t + DAY_MS ≤ t + DAY_MS.
Proof.
  unfold startOfUtcDay, DAY_MS. pose proof (Z.mod_pos_bound t (24 * 60 * 60000)).
  split; [|lia]. pose proof (Z.div_mod t (24 * 60 * 60000)) as E.
  replace (t - _ + _) with ((t / (24 * 60 * 60000) + 1) * (24 * 60 * 60000)) by lia.
  apply Z.mod_mul. lia.
Qed.

(** A retry time the schedule allows: the coming UTC midnight for the daily
    cap, 30 s to 15 min from [t] for anything else. *)
Definition scheduled_at (t : Z) (code : FailureCode) (at_ : Z) : Prop :=
  if decide (code = daily_cap) then at_ mod DAY_MS = 0 ∧ t < at_ ≤ t + DAY_MS
  else t + RETRY_INITIAL_MS ≤ at_ ≤ t + RETRY_MAX_MS.

(** A transient failure is scheduled, or ends. It stores a failed, retryable
    record with the attempt counted and the start of the streak kept. Before
    24 hours of the streak have passed, the next attempt is at the coming UTC
    midnight for the daily cap and otherwise 30 s to 15 min from now; from 24
    hours on nothing is scheduled and the code is [gave_up]. *)
Theorem transient_schedules {W} `{RelayEnv W} (s : relay W) b code reason r :
  get (store s) b = Some r → burnHash r = b →
  let t := env_now (world s) in
  let since := default t (retryingSince r) in
  ∃ r', get (store (transient b code reason s).2) b = Some r' ∧
    state r' = failed ∧ retryable r' = true ∧
    attempts r' = Some (default 0 (attempts r) + 1) ∧ retryingSince r' = Some since ∧
    (t - since < RETRY_GIVE_UP_MS → failureCode r' = Some code ∧ failure r' = Some reason ∧
       ∃ at_, retryAt r' = Some at_ ∧ scheduled_at t code at_) ∧
    (RETRY_GIVE_UP_MS ≤ t - since → failureCode r' = Some gave_up ∧ retryAt r' = None).
Proof.
  intros Hr Hb t since. rewrite (transient_after b code reason s r Hr Hb). fold t.
  eexists. split; [done|]. unfold transient_record. fold since.
  destruct (RETRY_GIVE_UP_MS <=? t - since) eqn:E; bools; simpl; split_and!; try done; try lia.
  intros _. split_and!; [done|done|]. eexists. split; [done|]. unfold scheduled_at.
  destruct (decide (code = daily_cap)) as [->|Hne].
  - rewrite bool_decide_eq_true_2 by done. apply next_day.
  - rewrite bool_decide_eq_false_2 by done. pose proof (retryDelayMs_bounds (default 0 (attempts r) + 1)).
    lia.
Qed.

(** ** A concrete world

    A clock in milliseconds; Circle signs the sample burn 100 ms in, and every
    call of the chain succeeds. *)

Module Demo.
Definition burn_msg : string := hex0x (encode_burn sample_burn).

#[global] Instance demo_env : RelayEnv Z := {|
  address := "0x00000000000000000000000000000000000000aa";
  env_now w := w;
  env_sleep d w := w + Z.max 0 d;
  env_iris _ w :=
    (answered 200 (Some [
       {| im_status := Some (if w <? 100 then "pending_confirmations" else "complete");
          im_message := Some burn_msg; im_attestation := Some "0xabcd" |}]), w);
  env_indexer _ w := (fetch_threw, w);
  env_balanceWei w := (Ok 1, w);
  env_isNonceUsed _ w := (Ok false, w);
  env_findMint _ w := (Ok None, w);
  env_simulateReceive _ _ w := (Ok sim_ok, w);
  env_sendReceive _ _ w := (Ok "0xfeed", w);
  env_waitForReceipt _ w := (Ok success, w);
|}.

#[global] Instance demo_laws : RelayEnvLaws Z.
Proof. split; simpl; lia. Qed.

Definition settings : RelaySettings := {|
  irisUrl := "https://iris"; confirmTimeoutMs := 1000; dailyCap := 5; maxOpen := 3;
  pollInitialMs := 20; pollMaxMs := 60; mintIndexerUrl := None |}.

Definition hash : string := of_chars (replicate 64 "a"%char).
Definition requested : relay Z := (request settings (Some hash) (initial [] 0)).2.
Definition finished : relay Z := finish_job settings hash requested.

Lemma no_records : stored_ok [].
Proof. by intros b r. Qed.

Lemma requested_reachable : rtc (step settings) (initial [] 0) requested.
Proof. apply rtc_once. apply (step_request settings (initial [] 0) (Some hash)). Qed.

Lemma finished_reachable : rtc (step settings) (initial [] 0) finished.
Proof. eapply rtc_r; [apply requested_reachable|]. apply step_finish. Qed.

Definition sent_record : RelayRecord := fresh_record hash 0.
End Demo.

Lemma broadcasts_are_guarded_witness :
  rtc (step Demo.settings) (initial [] 0) Demo.finished ∧
  existsb is_send (calls Demo.finished) = true ∧ guarded (calls Demo.finished).
Proof.
  split; [exact Demo.finished_reachable|]. split; [vm_compute; reflexivity|].
  exact (broadcasts_are_guarded Demo.settings [] 0 Demo.finished Demo.no_records
           Demo.finished_reachable).
Defined.

Lemma outcomes_are_final_witness :
  ∃ r, get (store Demo.finished) Demo.hash = Some r ∧ for_good r ∧
    get (store (request Demo.settings (Some Demo.hash) Demo.finished).2) Demo.hash = Some r.
Proof.
  destruct (get (store Demo.finished) Demo.hash) as [r|] eqn:E; [|vm_compute in E; discriminate].
  exists r. split; [reflexivity|].
  assert (G : for_good r).
  { vm_compute in E. injection E as <-. left. split; reflexivity. }
  split; [exact G|].
  apply (outcomes_are_final Demo.settings [] 0 Demo.finished _ Demo.hash r Demo.no_records
           Demo.finished_reachable); [|exact E|exact G].
  apply rtc_once. apply (step_request Demo.settings Demo.finished (Some Demo.hash)).
Defined.

Lemma daily_cap_holds_witness :
  day_count (store Demo.finished) 0 = 1 ∧
  day_count (store Demo.finished) 0 ≤ Z.max 0 (dailyCap Demo.settings).
Proof.
  split; [vm_compute; reflexivity|].
  refine (daily_cap_holds Demo.settings [] 0 Demo.finished 0 Demo.no_records _ _
            Demo.finished_reachable eq_refl).
  - intros msg att w. split; reflexivity.
  - intros d _. simpl. vm_compute. discriminate.
Defined.



Lemma transient_schedules_witness :
  ∃ r', get (store (transient Demo.hash rpc "down" Demo.requested).2) Demo.hash = Some r' ∧
    state r' = failed ∧ retryAt r' = Some 30000.
Proof.
  destruct (transient_schedules Demo.requested Demo.hash rpc "down" Demo.sent_record)
    as (r' & Hr' & Hf & _); [vm_compute; reflexivity|vm_compute; reflexivity|].
  exists r'. split; [exact Hr'|]. split; [exact Hf|].
  vm_compute in Hr'. injection Hr' as <-. reflexivity.
Defined.
