(* ===== verification/Esplora.v ===== *)
(** * The Esplora client ([relayer/src/bitcoin/esplora.ts])

    One request path with per-host backoff and a fallback host, and the typed
    reads built on it. [JSON.parse] is an argument of the reads that use it. *)

From S2P Require Import Prelude JsData HeaderSync CctpNet.

Inductive fault : Type :=
| EsploraError (status : Z) (url body : string)
| AbortError
| NetworkError            (* fetch's TypeError *)
| Fault (message : string).

#[global] Instance fault_eq_dec : EqDecision fault.
Proof. solve_decision. Defined.

(** What [fetch] gives: an exception, or a status and the body's bytes. *)
Inductive raw_answer : Type :=
| raw_threw (f : fault)
| raw_status (status : Z) (body : list byte).

Class EsploraEnv (W : Type) : Type := {
  es_fetch : string → option string → W → raw_answer * W;
  es_sleep : Z → W → W;
}.

Definition isUpstreamUnavailable (e : fault) : bool :=
  match e with
  | EsploraError status _ _ => (status =? 429) || (500 <=? status)
  | AbortError => true
  | NetworkError => true
  | Fault _ => false
  end.

Definition isRetryableOnSameHost (e : fault) : bool :=
  isUpstreamUnavailable e && negb (bool_decide (e = AbortError)).

Record EsploraClient : Type := {
  baseUrl : string;
  retries : Z;
  retryBaseDelayMs : Z;
  fallbackBaseUrl : option string;
}.

(** [Buffer.from(body).toString()] for an ASCII body. *)
Definition text (body : list byte) : string :=
  of_chars (map (λ b, ascii_of_N (Byte.to_N b)) body).

(** [parseInt(s, 10)]: leading space and sign, then the longest run of digits. *)
Fixpoint digit_prefix (cs : list ascii) : list ascii :=
  match cs with
  | c :: cs => if is_digit c then c :: digit_prefix cs else []
  | [] => []
  end.

Definition parseInt10 (s : string) : option Z :=
  let '(neg, cs) :=
    match drop_spaces (chars s) with
    | "-"%char :: cs => (true, cs)
    | "+"%char :: cs => (false, cs)
    | cs => (false, cs)
    end in
  match digit_prefix cs with
  | [] => None
  | ds => Some (if neg : bool then - dec_value ds else dec_value ds)
  end.

Section EsploraClient.
Context {W : Type} `{EsploraEnv W}.
Abbreviation M := (io W fault).

Definition fetchWithTimeout (url : string) (post : option string) : M (list byte) := λ w,
  let '(r, w) := es_fetch url post w in
  match r with
  | raw_threw f => (Err f, w)
  | raw_status status body =>
      if res_ok status then (Ok body, w) else (Err (EsploraError status url (text body)), w)
  end.

(** One host, with its backoff. *)
Definition request_host (c : EsploraClient) (path : string) (post : option string) (host : string) :
    M (list byte) :=
  withBackoff es_sleep (retries c) (retryBaseDelayMs c) isRetryableOnSameHost
    (fetchWithTimeout (host +:+ path) post).

Fixpoint request_hosts (c : EsploraClient) (path : string) (post : option string)
    (lastError : fault) (hosts : list string) : M (list byte) :=
  match hosts with
  | [] => throw lastError
  | host :: hosts =>
      try_catch (request_host c path post host) (λ e,
        if negb (isUpstreamUnavailable e) then throw e
        else request_hosts c path post e hosts)
  end.

Definition hosts_of (c : EsploraClient) : list string :=
  baseUrl c :: match present (fallbackBaseUrl c) with Some f => [f] | None => [] end.

Definition request (c : EsploraClient) (path : string) (post : option string) : M (list byte) :=
  request_hosts c path post (Fault "") (hosts_of c).

Definition getRawTx (c : EsploraClient) (txid : string) : M string :=
  body ← request c ("/tx/" +:+ txid +:+ "/raw") None; mret (to_hex body).

Definition getBlockHashAtHeight (c : EsploraClient) (height : Z) : M string :=
  text <$> request c ("/block-height/" +:+ z_to_string height) None.

Definition getBlockHeader (c : EsploraClient) (blockHash : string) : M string :=
  text <$> request c ("/block/" +:+ blockHash +:+ "/header") None.

Definition getTipHeight (c : EsploraClient) : M Z :=
  body ← request c "/blocks/tip/height" None;
  lift (of_option (parseInt10 (trim (text body)))
    (Fault "getTipHeight: could not parse a block height from response")).

Definition broadcastTx (c : EsploraClient) (txHex : string) : M string :=
  body ← request c "/tx" (Some txHex); mret (trim (text body)).

(** The JSON reads: [parse] is [JSON.parse] at the type the code casts to. *)
Definition read_json {A} (parse : string → option A) (c : EsploraClient) (path : string) : M A :=
  body ← request c path None;
  lift (of_option (parse (text body)) (Fault "SyntaxError")).

Definition getTxInfo {A} (parse : string → option A) (c : EsploraClient) (txid : string) : M A :=
  read_json parse c ("/tx/" +:+ txid).
Definition getOutspends {A} (parse : string → option A) (c : EsploraClient) (txid : string) : M A :=
  read_json parse c ("/tx/" +:+ txid +:+ "/outspends").
Definition getMerkleProof {A} (parse : string → option A) (c : EsploraClient) (txid : string) : M A :=
  read_json parse c ("/tx/" +:+ txid +:+ "/merkle-proof").
End EsploraClient.

(** ** A scripted Esplora: the [i]-th fetch of the run answers [o url i] *)

Section scripted_esplora.
Context (o : string → nat → raw_answer).

Definition scripted_env : EsploraEnv (list string) := {|
  es_fetch url _ log := (o url (length log), log ++ [url]);
  es_sleep _ log := log;
|}.
#[local] Existing Instance scripted_env.

(** What the [i]-th fetch means to the client. *)
Definition outcome (url : string) (i : nat) : result fault (list byte) :=
  match o url i with
  | raw_threw f => Err f
  | raw_status status body =>
      if res_ok status then Ok body else Err (EsploraError status url (text body))
  end.

Lemma fetch_scripted url post log :
  fetchWithTimeout url post log = (outcome url (length log), log ++ [url]).
Proof.
  unfold fetchWithTimeout, outcome. simpl. destruct (o url (length log)); [done|].
  by destruct (res_ok _).
Qed.

Lemma sleep_scripted d log : (modify (es_sleep d) : io _ fault ()) log = (Ok (), log).
Proof. done. Qed.

Lemma host_scripted tries at_ base url post log :
  ∃ k, (k ≤ tries)%nat ∧
    backoff_loop es_sleep tries at_ base isRetryableOnSameHost (fetchWithTimeout url post) log =
      (outcome url (length log + k), log ++ replicate (S k) url).
Proof.
  revert at_ log. induction tries as [|tries IH]; intros at_ log; cbn [backoff_loop]; unfold try_catch.
  - exists 0%nat. rewrite fetch_scripted, Nat.add_0_r. split; [lia|]. by destruct (outcome _ _).
  - rewrite fetch_scripted. destruct (outcome url (length log)) as [a|e] eqn:E.
    + exists 0%nat. rewrite Nat.add_0_r, E. split; [lia|done].
    + destruct (isRetryableOnSameHost e); cbn [negb].
      * destruct (IH (at_ + 1) (log ++ [url])) as (k & Hk & Hr). exists (S k). split; [lia|].
        unfold mbind, io_bind. rewrite (sleep_scripted (base * 2 ^ at_) (log ++ [url])), Hr, length_app. simpl.
        rewrite <- app_assoc, <- Nat.add_assoc. done.
      * exists 0%nat. rewrite Nat.add_0_r, E. split; [lia|done].
Qed.

(** The whole run of a request: [n1] fetches of the primary and, only when
    its last failure says the host is unavailable, [n2] of the fallback. *)
Definition request_run (c : EsploraClient) (path : string) (r : result fault (list byte))
    (log : list string) : Prop :=
  ∃ n1, (1 ≤ n1 ≤ S (Z.to_nat (retries c)))%nat ∧
    let u1 := baseUrl c +:+ path in
    (log = replicate n1 u1 ∧ r = outcome u1 (n1 - 1) ∧
       (present (fallbackBaseUrl c) = None ∨
        match r with Ok _ => True | Err e => isUpstreamUnavailable e = false end)) ∨
    (∃ f e n2, present (fallbackBaseUrl c) = Some f ∧ (1 ≤ n2 ≤ S (Z.to_nat (retries c)))%nat ∧
       outcome u1 (n1 - 1) = Err e ∧ isUpstreamUnavailable e = true ∧
       log = replicate n1 u1 ++ replicate n2 (f +:+ path) ∧
       r = outcome (f +:+ path) (n1 + n2 - 1)).
End scripted_esplora.

(** One Esplora request makes between one and [retries + 1] fetches of the
    primary host and, exactly when a fallback is configured and the primary's
    last failure says the host is unavailable (429, 5xx, network, timeout), as
    many at most of the fallback; it answers with the last fetch it made, so a
    404 or a malformed request is never retried elsewhere. *)
Theorem request_hosts_in_order (o : string → nat → raw_answer) c path post :
  let '(r, log) := @request _ (scripted_env o) c path post [] in
  request_run o c path r log.
Proof.
  set (env := scripted_env o). unfold request, hosts_of, request_run. cbn [request_hosts].
  unfold try_catch, request_host, withBackoff.
  destruct (host_scripted o (Z.to_nat (retries c)) 0 (retryBaseDelayMs c) (baseUrl c +:+ path) post [])
    as (k1 & Hk1 & E1). fold env in E1. rewrite E1. simpl length. rewrite !Nat.add_0_l, app_nil_l.
  destruct (outcome o (baseUrl c +:+ path) k1) as [body|e] eqn:O1.
  - exists (S k1). rewrite Nat.sub_succ, Nat.sub_0_r. split; [lia|]. left. split_and!; auto.
  - destruct (isUpstreamUnavailable e) eqn:Ue; cbn [negb].
    2: { exists (S k1). rewrite Nat.sub_succ, Nat.sub_0_r. split; [lia|]. left. split_and!; auto. }
    destruct (present (fallbackBaseUrl c)) as [f|] eqn:Ef; cbn [request_hosts].
    2: { exists (S k1). rewrite Nat.sub_succ, Nat.sub_0_r. split; [lia|]. left. by split_and!; auto. }
    unfold try_catch, request_host, withBackoff.
    destruct (host_scripted o (Z.to_nat (retries c)) 0 (retryBaseDelayMs c) (f +:+ path) post
                (replicate (S k1) (baseUrl c +:+ path))) as (k2 & Hk2 & E2).
    fold env in E2. rewrite E2, length_replicate.
    assert (R : request_run o c path (outcome o (f +:+ path) (S k1 + k2))
              (replicate (S k1) (baseUrl c +:+ path) ++ replicate (S k2) (f +:+ path))).
    { exists (S k1). split; [lia|]. right. exists f, e, (S k2). rewrite Nat.sub_succ, Nat.sub_0_r.
      split_and!; [done|lia|lia|done|done|done|]. f_equal. lia. }
    unfold request_run in R. rewrite Ef in R.
    destruct (outcome o (f +:+ path) (S k1 + k2)) as [body|e2] eqn:O2; [exact R|].
    destruct (negb (isUpstreamUnavailable e2)); exact R.
Qed.
