(* ===== verification/SpvProof.v ===== *)
(** * SPV proof assembly ([relayer/src/bitcoin/spv.ts])

    [buildSPVProof] over the interface of the Esplora client it is given, and
    the client's own implementation of that interface. *)

From S2P Require Import Prelude JsData HeaderSync Esplora BitcoinTx.

(** ** Byte order *)

Fixpoint pairs (cs : list ascii) : list (list ascii) :=
  match cs with
  | a :: b :: cs => [a; b] :: pairs cs
  | _ => []
  end.

(** [hex.match(/../g).reverse().join("")]; [None] is the odd-length error. *)
Definition toInternalByteOrder (hex : string) : option string :=
  if negb (slen hex mod 2 =? 0) then None
  else Some (of_chars (concat (rev (pairs (chars hex))))).

(** ** Data *)

Record TxStatus : Type := {
  confirmed : bool;
  block_height : option Z;
}.

Record MerkleProofResponse : Type := {
  merkle : list string;
  pos : Z;
}.

Record SPVProofBundle : Type := {
  txid : string;
  rawTxNoWitness : string;
  blockHash : string;
  txIndex : Z;
  merkleProof : list string;
  headers : list string;
  blockHeight : Z;
  confirmations : Z;
  bitcoinTip : Z;
}.

Inductive proof_error : Type :=
| BadConfirmations
| UnconfirmedTxError (txid : string)
| InsufficientConfirmationsError (txid : string) (requested available : Z)
| UpstreamFault (f : fault)
| BadTransaction (e : tx_error)
| OddHex.

(** The Esplora operations a proof needs. *)
Class EsploraApi (St : Type) : Type := {
  api_getTxInfo : string → io St proof_error TxStatus;
  api_getTipHeight : io St proof_error Z;
  api_getRawTx : string → io St proof_error string;
  api_getMerkleProof : string → io St proof_error MerkleProofResponse;
  api_getBlockHashAtHeight : Z → io St proof_error string;
  api_getBlockHeader : string → io St proof_error string;
}.

Section buildSPVProof.
Context {St : Type} `{EsploraApi St}.
Abbreviation M := (io St proof_error).

(** [Promise.all(xs.map(f))], the calls in order. *)
Fixpoint promise_all {A B} (f : A → M B) (xs : list A) : M (list B) :=
  match xs with
  | [] => mret []
  | x :: xs => y ← f x; ys ← promise_all f xs; mret (y :: ys)
  end.

Definition internal (hex : string) : M string :=
  lift (of_option (toInternalByteOrder hex) OddHex).

Definition buildSPVProof (id : string) (confs : Z) : M SPVProofBundle :=
  if confs <? 1 then throw BadConfirmations else
  txInfo ← api_getTxInfo id;
  match (if confirmed txInfo then block_height txInfo else None) with
  | None => throw (UnconfirmedTxError id)
  | Some height =>
      tipHeight ← api_getTipHeight;
      let available := tipHeight - height + 1 in
      if available <? confs then throw (InsufficientConfirmationsError id confs available) else
      rawTxFull ← api_getRawTx id;
      raw ← lift (match stripWitness rawTxFull with
                  | Ok r => Ok r | Err e => Err (BadTransaction e) end);
      proof ← api_getMerkleProof id;
      blockHashes ← promise_all api_getBlockHashAtHeight (zrange height (Z.to_nat confs));
      headerHexes ← promise_all (λ hash, api_getBlockHeader (trim hash)) blockHashes;
      bh ← internal (trim (default "" (head blockHashes)));
      siblings ← promise_all internal (merkle proof);
      mret {| txid := id; rawTxNoWitness := raw; blockHash := bh; txIndex := pos proof;
              merkleProof := siblings; headers := map trim headerHexes;
              blockHeight := height; confirmations := confs; bitcoinTip := tipHeight |}
  end.
End buildSPVProof.

(** The client implements the interface; [JSON.parse] is an argument. *)
Definition lift_fault {W A} (m : io W fault A) : io W proof_error A := λ w,
  let '(r, w') := m w in
  (match r with Ok a => Ok a | Err f => Err (UpstreamFault f) end, w').

Definition client_api {W} `{EsploraEnv W} (parse_tx : string → option TxStatus)
    (parse_merkle : string → option MerkleProofResponse) (c : EsploraClient) : EsploraApi W := {|
  api_getTxInfo id := lift_fault (getTxInfo parse_tx c id);
  api_getTipHeight := lift_fault (getTipHeight c);
  api_getRawTx id := lift_fault (getRawTx c id);
  api_getMerkleProof id := lift_fault (getMerkleProof parse_merkle c id);
  api_getBlockHashAtHeight h := lift_fault (getBlockHashAtHeight c h);
  api_getBlockHeader hash := lift_fault (getBlockHeader c hash);
|}.

(** ** A source that answers from a fixed chain *)

Record chain_source : Type := {
  src_tx : string → result fault TxStatus;
  src_tip : result fault Z;
  src_raw : string → result fault string;
  src_merkle : string → result fault MerkleProofResponse;
  src_hash : Z → result fault string;
  src_header : string → result fault string;
}.

Definition fixed {A} (r : result fault A) : io () proof_error A := λ s,
  (match r with Ok a => Ok a | Err f => Err (UpstreamFault f) end, s).

Definition source_api (c : chain_source) : EsploraApi () := {|
  api_getTxInfo id := fixed (src_tx c id);
  api_getTipHeight := fixed (src_tip c);
  api_getRawTx id := fixed (src_raw c id);
  api_getMerkleProof id := fixed (src_merkle c id);
  api_getBlockHashAtHeight h := fixed (src_hash c h);
  api_getBlockHeader hash := fixed (src_header c hash);
|}.

(** ** Lemmas *)

Lemma pairs_hex bs : pairs (hex_chars bs) = map (λ b, hex_chars [b]) bs.
Proof. induction bs as [|b bs IH]; [done|]. cbn [hex_chars pairs map]. by rewrite IH. Qed.

Lemma concat_hex bs : concat (map (λ b, hex_chars [b]) bs) = hex_chars bs.
Proof. induction bs as [|b bs IH]; [done|]. rewrite map_cons, List.concat_cons, IH. done. Qed.

Lemma toInternalByteOrder_hex bs : toInternalByteOrder (to_hex bs) = Some (to_hex (rev bs)).
Proof.
  unfold toInternalByteOrder, slen, to_hex. rewrite <- chars_length, !chars_of_chars, hex_chars_length.
  replace (Z.of_nat (2 * length bs) mod 2) with 0.
  2: { replace (Z.of_nat (2 * length bs)) with (Z.of_nat (length bs) * 2) by lia. by rewrite Z.mod_mul. }
  change (negb (0 =? 0)) with false. cbv iota. by rewrite pairs_hex, <- map_rev, concat_hex.
Qed.

Lemma promise_all_spec {St A B} (f : A → io St proof_error B) (g : A → result proof_error B) xs s :
  (∀ x s, f x s = (g x, s)) →
  ∃ r, promise_all f xs s = (r, s) ∧
    match r with
    | Ok ys => Forall2 (λ x y, g x = Ok y) xs ys
    | Err e => ∃ x, g x = Err e
    end.
Proof.
  intros Hf. induction xs as [|x xs (r & IH & Hr)]; simpl; [by exists (Ok [])|].
  unfold mbind, io_bind. rewrite Hf. destruct (g x) as [y|e] eqn:Eg.
  2: { exists (Err e). split; [done|by exists x]. }
  rewrite IH. destruct r as [ys|e]; [exists (Ok (y :: ys))|exists (Err e)]; split; try done.
  by constructor.
Qed.

(** The last steps of a proof: what can still go wrong is upstream or a
    malformed hash. *)
Lemma fixed_error {A} (r : result fault A) e :
  match r with Ok a => Ok a | Err f => Err (UpstreamFault f) end = Err e → ∃ f, e = UpstreamFault f.
Proof. destruct r; intros [=]; subst. by eexists. Qed.

Lemma internal_error hex e : of_option (toInternalByteOrder hex) OddHex = Err e → e = OddHex.
Proof. destruct (toInternalByteOrder hex); by intros [= <-]. Qed.

(** ** Properties *)

(** a proof bundle is exactly the chain's own data. When [buildSPVProof]
    returns, the transaction is confirmed at [blockHeight] with at least
    [confs] blocks from there to the tip; the raw transaction is the stripped
    one, the block hash and the Merkle siblings are the source's in internal
    byte order, and the headers are those of the [confs] consecutive heights
    from [blockHeight], in order. An unconfirmed transaction and a chain too
    short are refused with their own errors. *)
Theorem buildSPVProof_bundle c id confs :
  match (@buildSPVProof _ (source_api c) id confs tt).1 with
  | Ok b =>
      1 ≤ confs ∧ txid b = id ∧ confirmations b = confs ∧
      src_tx c id = Ok {| confirmed := true; block_height := Some (blockHeight b) |} ∧
      src_tip c = Ok (bitcoinTip b) ∧ blockHeight b + confs - 1 ≤ bitcoinTip b ∧
      (∃ full, src_raw c id = Ok full ∧ stripWitness full = Ok (rawTxNoWitness b)) ∧
      (∃ p, src_merkle c id = Ok p ∧ txIndex b = pos p ∧
         Forall2 (λ s s', toInternalByteOrder s = Some s') (merkle p) (merkleProof b)) ∧
      (∃ hashes raw, Forall2 (λ h hash, src_hash c h = Ok hash)
           (zrange (blockHeight b) (Z.to_nat confs)) hashes ∧
         Forall2 (λ hash h, src_header c (trim hash) = Ok h) hashes raw ∧
         headers b = map trim raw ∧ zlen (headers b) = confs ∧
         toInternalByteOrder (trim (default "" (head hashes))) = Some (blockHash b))
  | Err (UnconfirmedTxError t) => t = id ∧
      ∃ i, src_tx c id = Ok i ∧ (confirmed i = false ∨ block_height i = None)
  | Err (InsufficientConfirmationsError t n k) => t = id ∧ n = confs ∧ k < n ∧
      ∃ h tip, src_tx c id = Ok {| confirmed := true; block_height := Some h |} ∧
        src_tip c = Ok tip ∧ k = tip - h + 1
  | Err BadConfirmations => confs < 1
  | Err _ => True
  end.
Proof.
  unfold buildSPVProof. destruct (confs <? 1) eqn:E1; bools; [done|].
  unfold mbind at 1, io_bind at 1. cbn [api_getTxInfo source_api]. unfold fixed at 1.
  destruct (src_tx c id) as [[cf bh]|] eqn:Etx; simpl; [|done].
  destruct cf; [|by split; [|eexists; split; [done|left]]].
  destruct bh as [height|]; [|by split; [|eexists; split; [done|right]]].
  unfold mbind at 1, io_bind at 1, fixed at 1. destruct (src_tip c) as [tip|] eqn:Etip; simpl; [|done].
  destruct (_ <? confs) eqn:E2; bools; simpl; [split_and!; [done..|lia|by eexists _, _]|].
  unfold mbind at 1, io_bind at 1, fixed at 1. destruct (src_raw c id) as [full|] eqn:Eraw; simpl; [|done].
  unfold mbind at 1, io_bind at 1, lift at 1. destruct (stripWitness full) as [raw|] eqn:Estrip; simpl; [|done].
  unfold mbind at 1, io_bind at 1, fixed at 1. destruct (src_merkle c id) as [p|] eqn:Em; simpl; [|done].
  unfold mbind at 1, io_bind at 1.
  destruct (promise_all_spec (λ h, fixed (src_hash c h)) (λ h, match src_hash c h with Ok a => Ok a | Err f => Err (UpstreamFault f) end)
    (zrange height (Z.to_nat confs)) tt (λ _ _, eq_refl)) as ([hashes|e] & Eh & Hh); rewrite Eh; clear Eh.
  2: { destruct Hh as [h Hh]. apply fixed_error in Hh as [f ->]. done. }
  unfold mbind at 1, io_bind at 1.
  destruct (promise_all_spec (λ hash, fixed (src_header c (trim hash))) (λ hash, match src_header c (trim hash) with Ok a => Ok a | Err f => Err (UpstreamFault f) end)
    hashes tt (λ _ _, eq_refl)) as ([raws|e] & Er & Hr); rewrite Er; clear Er.
  2: { destruct Hr as [h Hr]. apply fixed_error in Hr as [f ->]. done. }
  unfold mbind at 1, io_bind at 1, internal at 1, lift at 1.
  destruct (of_option _ OddHex) as [bh|e] eqn:Eb; [|by rewrite (internal_error _ _ Eb)].
  unfold mbind at 1, io_bind at 1.
  destruct (promise_all_spec internal (λ x, of_option (toInternalByteOrder x) OddHex) (merkle p) tt
    (λ _ _, eq_refl)) as ([sibs|e] & -> & Hs).
  2: { destruct Hs as [x Hs]. by rewrite (internal_error _ _ Hs). }
  simpl. split_and!; [lia|done|done|done|done|lia|by exists full| |].
  - exists p. split_and!; [done|done|]. eapply Forall2_impl; [exact Hs|]. simpl. intros x y Hxy.
    by destruct (toInternalByteOrder x); simplify_eq/=.
  - exists hashes, raws. assert (L : length raws = Z.to_nat confs).
    { by rewrite <- (Forall2_length _ _ _ Hr), <- (Forall2_length _ _ _ Hh), zrange_length. }
    split_and!.
    + eapply Forall2_impl; [exact Hh|]. simpl. intros x y. by destruct (src_hash c x); intros [= <-].
    + eapply Forall2_impl; [exact Hr|]. simpl. intros x y. by destruct (src_header c (trim x)); intros [= <-].
    + done.
    + unfold zlen. rewrite length_map, L. lia.
    + by destruct (toInternalByteOrder _); simplify_eq/=.
Qed.
