(* ===== verification/SpvSync.v ===== *)
(** * The header sync job ([relayer/src/bitcoin/spv-submit.ts])

    One pass ([tick]) of the background job that feeds bitcoin-spv: its
    status, the tip reads, the batches and the fee ceiling, over the chain
    calls of [SpvEnv] (the Stellar SDK and the Esplora client). Also
    [cachedTipReader] of [relayer/src/bitcoin/light-client.ts]. *)

From S2P Require Import Prelude JsData HeaderSync Esplora.

(** ** The outside world *)

(** What [get_best_tip] simulates to. *)
Inductive tip_sim : Type :=
| tip_sim_error (error : string)
| tip_sim_no_result
| tip_sim_result (tip : option (option Z * option (list byte))).

Inductive submit_sim : Type :=
| submit_sim_error (error : string)
| submit_sim_prepared (fee : Z).

Inductive submit_sent : Type := sent_error (error : string) | sent_hash (hash : string).

Inductive tx_result : Type := tx_success (feeCharged : Z) | tx_failed | tx_not_found.

Class SpvEnv (W : Type) : Type := {
  sp_now : W → Z;
  sp_sleep : Z → W → W;
  sp_getTipHeight : W → result fault Z * W;
  sp_getBlockHashAtHeight : Z → W → result fault string * W;
  sp_getBlockHeader : string → W → result fault string * W;
  sp_balance : W → result string Z * W;
  sp_getAccount : W → result string () * W;
  sp_simulateBestTip : W → result string tip_sim * W;
  sp_simulateSubmit : list string → W → result string submit_sim * W;
  sp_sendTransaction : list string → W → result string submit_sent * W;
  sp_getTransaction : string → W → result string tx_result * W;
}.

Inductive sync_exn : Type :=
| FeeCeilingExceeded (feeStroops maxFeeStroops : Z)
| Upstream (f : fault)
| Failed (message : string).

Definition fault_message (f : fault) : string :=
  match f with
  | EsploraError status url body =>
      "Esplora " +:+ z_to_string status +:+ " at " +:+ url +:+ ": " +:+
      of_chars (take 120 (chars body))
  | AbortError => "This operation was aborted"
  | NetworkError => "fetch failed"
  | Fault m => m
  end.

Definition sync_message (e : sync_exn) : string :=
  match e with
  | FeeCeilingExceeded fee maxFee =>
      "submit_headers would cost " +:+ stroopsToXlm fee +:+ " XLM, above the " +:+
      stroopsToXlm maxFee +:+ " XLM ceiling (SPV_MAX_FEE_XLM)"
  | Upstream f => fault_message f
  | Failed m => m
  end.

(** ** State *)

Record SpvConfig : Type := {
  bitcoinSpvId : option string;
  spvSyncFromHeight : option Z;
  relayerSecret : option string;
  spvMaxFeeStroops : Z;
  relayerMinBalanceStroops : Z;
}.

Definition MAX_HEADERS_PER_SUBMIT : Z := 16.
Definition HEADER_FETCH_GAP_MS : Z := 250.
Definition BALANCE_CHECK_INTERVAL_MS : Z := 10 * 60000.
Definition POLLS : nat := 60.
Definition POLL_GAP_MS : Z := 1500.

Definition isRateLimited (e : sync_exn) : bool :=
  match e with Upstream (EsploraError status _ _) => status =? 429 | _ => false end.

(** [sent] is the model's log of the transactions sent: the headers of each
    and the fee it was prepared with. *)
Record sync (W : Type) : Type := mkSync {
  status : HeaderSyncStatus;
  running : bool;
  lastBalanceCheck : Z;
  world : W;
  sent : list (list string * Z);
}.
Arguments mkSync {W} status running lastBalanceCheck world sent.
Arguments status {W} s.
Arguments running {W} s.
Arguments lastBalanceCheck {W} s.
Arguments world {W} s.
Arguments sent {W} s.

(** *** Assignments to fields of [headerSyncStatus] *)

Definition set_pass (at_ : string) (btc : Z) (contract : option Z) (st : HeaderSyncStatus) :=
  mkStatus (enabled st) (Some at_) (Some btc) contract (lastSubmittedThrough st)
    (lastSubmissionAt st) (lastFeeXlm st) (maxFeeXlm st) (submissions st) (skippedNoNewHeaders st)
    (skippedFeeCeiling st) (lastFeeCeilingSkip st) (relayerBalanceXlm st) (minBalanceXlm st)
    (balanceLow st) (lastError st).

Definition set_lastError (e : option string) (st : HeaderSyncStatus) :=
  mkStatus (enabled st) (lastPassAt st) (bitcoinTipHeight st) (contractTipHeight st)
    (lastSubmittedThrough st) (lastSubmissionAt st) (lastFeeXlm st) (maxFeeXlm st) (submissions st)
    (skippedNoNewHeaders st) (skippedFeeCeiling st) (lastFeeCeilingSkip st) (relayerBalanceXlm st)
    (minBalanceXlm st) (balanceLow st) e.

Definition count_noNew (st : HeaderSyncStatus) :=
  mkStatus (enabled st) (lastPassAt st) (bitcoinTipHeight st) (contractTipHeight st)
    (lastSubmittedThrough st) (lastSubmissionAt st) (lastFeeXlm st) (maxFeeXlm st) (submissions st)
    (skippedNoNewHeaders st + 1) (skippedFeeCeiling st) (lastFeeCeilingSkip st)
    (relayerBalanceXlm st) (minBalanceXlm st) (balanceLow st) None.

Definition count_feeSkip (at_ fee : string) (st : HeaderSyncStatus) :=
  mkStatus (enabled st) (lastPassAt st) (bitcoinTipHeight st) (contractTipHeight st)
    (lastSubmittedThrough st) (lastSubmissionAt st) (lastFeeXlm st) (maxFeeXlm st) (submissions st)
    (skippedNoNewHeaders st) (skippedFeeCeiling st + 1) (Some (at_, fee)) (relayerBalanceXlm st)
    (minBalanceXlm st) (balanceLow st) (lastError st).

Definition set_through (h : Z) (st : HeaderSyncStatus) :=
  mkStatus (enabled st) (lastPassAt st) (bitcoinTipHeight st) (contractTipHeight st) (Some h)
    (lastSubmissionAt st) (lastFeeXlm st) (maxFeeXlm st) (submissions st) (skippedNoNewHeaders st)
    (skippedFeeCeiling st) (lastFeeCeilingSkip st) (relayerBalanceXlm st) (minBalanceXlm st)
    (balanceLow st) (lastError st).

Definition count_submission (at_ fee : string) (st : HeaderSyncStatus) :=
  mkStatus (enabled st) (lastPassAt st) (bitcoinTipHeight st) (contractTipHeight st)
    (lastSubmittedThrough st) (Some at_) (Some fee) (maxFeeXlm st) (submissions st + 1)
    (skippedNoNewHeaders st) (skippedFeeCeiling st) (lastFeeCeilingSkip st) (relayerBalanceXlm st)
    (minBalanceXlm st) (balanceLow st) (lastError st).

Section spv_submit.
Context {W : Type} `{SpvEnv W} (config : SpvConfig).
Abbreviation M := (io (sync W) sync_exn).

Definition set_status (f : HeaderSyncStatus → HeaderSyncStatus) : M () :=
  modify (λ s, mkSync (f (status s)) (running s) (lastBalanceCheck s) (world s) (sent s)).
Definition set_running (b : bool) (s : sync W) : sync W :=
  mkSync (status s) b (lastBalanceCheck s) (world s) (sent s).
Definition set_world (w : W) (s : sync W) : sync W :=
  mkSync (status s) (running s) (lastBalanceCheck s) w (sent s).
Definition now : M Z := gets (λ s, sp_now (world s)).

Definition ask {A} (f : W → result string A * W) : M A := λ s,
  let '(r, w) := f (world s) in
  (match r with Ok a => Ok a | Err m => Err (Failed m) end, set_world w s).
Definition ask_esplora {A} (f : W → result fault A * W) : M A := λ s,
  let '(r, w) := f (world s) in
  (match r with Ok a => Ok a | Err e => Err (Upstream e) end, set_world w s).

Definition sleep (ms : Z) (s : sync W) : sync W := set_world (sp_sleep ms (world s)) s.

Definition checkRelayerBalance : M () :=
  try_catch
    (balance ← ask sp_balance;
     set_status (λ st, (recordRelayerBalance st balance (relayerMinBalanceStroops config)).2))
    (λ _, mret ()).

Definition readContractTip : M (option ChainTip) :=
  ask sp_getAccount;;
  sim ← ask sp_simulateBestTip;
  match sim with
  | tip_sim_error e => throw (Failed ("get_best_tip simulation failed: " +:+ e))
  | tip_sim_no_result => throw (Failed "get_best_tip simulation returned no result")
  | tip_sim_result (Some (Some height, Some hash)) =>
      mret (Some {| tip_height := height; tip_hash := internalHashToDisplayHex hash |})
  | tip_sim_result _ => mret None
  end.

(** The wait for the transaction to be included. *)
Fixpoint await_inclusion (polls : nat) (hash : string) : M () :=
  match polls with
  | O => throw (Failed ("submit_headers timed out: " +:+ hash))
  | S polls =>
      res ← ask (sp_getTransaction hash);
      match res with
      | tx_success fee =>
          t ← now; set_status (count_submission (toISOString t) (stroopsToXlm fee))
      | tx_failed => throw (Failed ("submit_headers failed: " +:+ hash))
      | tx_not_found => modify (sleep POLL_GAP_MS);; await_inclusion polls hash
      end
  end.

(** [server.sendTransaction(prepared)], logged with the fee it carries. *)
Definition sendTransaction (headers : list string) (fee : Z) : M submit_sent := λ s,
  let '(r, w) := sp_sendTransaction headers (world s) in
  (match r with Ok a => Ok a | Err m => Err (Failed m) end,
   mkSync (status s) (running s) (lastBalanceCheck s) w ((headers, fee) :: sent s)).

Definition sendHeaders (headersHex : list string) : M () :=
  ask sp_getAccount;;
  sim ← ask (sp_simulateSubmit headersHex);
  match sim with
  | submit_sim_error e => throw (Failed ("submit_headers simulation failed: " +:+ e))
  | submit_sim_prepared feeStroops =>
      lift (match assertWithinFeeCeiling feeStroops (spvMaxFeeStroops config) with
            | Ok _ => Ok ()
            | Err (fee, maxFee) => Err (FeeCeilingExceeded fee maxFee)
            end);;
      answer ← sendTransaction headersHex feeStroops;
      match answer with
      | sent_error e => throw (Failed ("submit_headers rejected: " +:+ e))
      | sent_hash hash => await_inclusion POLLS hash
      end
  end.

Definition getHeaderHex (h : Z) : M string :=
  modify (sleep HEADER_FETCH_GAP_MS);;
  hash ← withBackoff sleep 5 1000 isRateLimited (ask_esplora (sp_getBlockHashAtHeight h));
  header ← withBackoff sleep 5 1000 isRateLimited (ask_esplora (sp_getBlockHeader hash));
  mret (trim header).

(** The body of the pass, inside its [try]. *)
Definition pass (fromHeight : Z) : M () :=
  t ← now;
  last ← gets lastBalanceCheck;
  (if BALANCE_CHECK_INTERVAL_MS <=? t - last then
     modify (λ s, mkSync (status s) (running s) t (world s) (sent s));; checkRelayerBalance
   else mret ());;
  tipHeight ← ask_esplora sp_getTipHeight;
  tipHash ← ask_esplora (sp_getBlockHashAtHeight tipHeight);
  let bitcoinTip := {| tip_height := tipHeight; tip_hash := trim tipHash |} in
  contractTip ← readContractTip;
  t ← now;
  set_status (set_pass (toISOString t) tipHeight (tip_height <$> contractTip));;
  if negb (hasNewHeaders bitcoinTip contractTip) then set_status count_noNew else
  through ← syncHeaders getHeaderHex sendHeaders (λ _, Failed "RangeError")
    (syncStartHeight fromHeight (tip_height <$> contractTip)) tipHeight MAX_HEADERS_PER_SUBMIT;
  set_status (set_lastError None);;
  match through with Some h => set_status (set_through h) | None => mret () end.

Definition on_error (e : sync_exn) : M () :=
  match e with
  | FeeCeilingExceeded fee _ =>
      t ← now;
      set_status (λ st, set_lastError (Some (sync_message e))
        (count_feeSkip (toISOString t) (stroopsToXlm fee) st))
  | _ => set_status (set_lastError (Some (sync_message e)))
  end.

(** One tick of the timer. *)
Definition tick (fromHeight : Z) (s : sync W) : sync W :=
  if running s then s
  else set_running false (try_catch (pass fromHeight) on_error (set_running true s)).2.

(** [startHeaderSync]: [None] when the configuration disables it. *)
Definition startHeaderSync (s : sync W) : option (Z * sync W) :=
  match present (bitcoinSpvId config), spvSyncFromHeight config, present (relayerSecret config) with
  | Some _, Some from_, Some _ =>
      if from_ =? 0 then None else
      let st := status s in
      Some (from_, mkSync
        (mkStatus true (lastPassAt st) (bitcoinTipHeight st) (contractTipHeight st)
           (lastSubmittedThrough st) (lastSubmissionAt st) (lastFeeXlm st)
           (Some (stroopsToXlm (spvMaxFeeStroops config))) (submissions st)
           (skippedNoNewHeaders st) (skippedFeeCeiling st) (lastFeeCeilingSkip st)
           (relayerBalanceXlm st) (Some (stroopsToXlm (relayerMinBalanceStroops config)))
           (balanceLow st) (lastError st))
        false 0 (world s) (sent s))
  | _, _, _ => None
  end.
End spv_submit.

(** ** [cachedTipReader] *)

Module TipCache.
Record cache : Type := { value : option Z; fetchedAt : option Z; inflight : bool }.

Definition empty : cache := {| value := None; fetchedAt := None; inflight := false |}.

Definition fresh (ttlMs now : Z) (c : cache) : bool :=
  match fetchedAt c with Some at_ => now - at_ <? ttlMs | None => false end.

(** A call: the cached value, or joining the read in flight, or starting one
    ([starts] counts the reads the call makes). *)
Inductive answer : Type := cached (v : option Z) | joins | starts.

Definition call (ttlMs now : Z) (c : cache) : answer * cache :=
  if fresh ttlMs now c then (cached (value c), c)
  else if inflight c then (joins, c)
  else (starts, {| value := value c; fetchedAt := fetchedAt c; inflight := true |}).

(** The read settles at [now]; a failed one counts as unknown. *)
Definition settle (now : Z) (r : result string (option Z)) (c : cache) : option Z * cache :=
  let v := match r with Ok v => v | Err _ => None end in
  (v, {| value := v; fetchedAt := Some now; inflight := false |}).
End TipCache.

(** ** Lemmas *)

Section facts.
Context {W : Type} `{SpvEnv W} (config : SpvConfig).
Abbreviation M := (io (sync W) sync_exn).

(** What may be on chain: transactions within the ceiling and the batch size. *)
Definition sent_ok (t : list string * Z) : Prop :=
  zlen t.1 ≤ MAX_HEADERS_PER_SUBMIT ∧ t.2 ≤ spvMaxFeeStroops config.

Definition all_sent_ok (s : sync W) : Prop := Forall sent_ok (sent s).

Abbreviation safe := (keeps all_sent_ok).

Lemma ask_safe {A} (f : W → result string A * W) : preserves safe (ask f : M A).
Proof. intros s. unfold ask. destruct (f (world s)) as [[]]; by intros Hs. Qed.
Lemma ask_esplora_safe {A} (f : W → result fault A * W) : preserves safe (ask_esplora f : M A).
Proof. intros s. unfold ask_esplora. destruct (f (world s)) as [[]]; by intros Hs. Qed.
Lemma status_safe f : preserves safe (set_status f : M ()).
Proof. intros s. by intros Hs. Qed.
Lemma sleep_safe ms : preserves safe (modify (sleep ms) : M ()).
Proof. intros s. by intros Hs. Qed.
Lemma now_safe : preserves safe (now : M Z).
Proof. intros s. by intros Hs. Qed.
Hint Resolve ask_safe ask_esplora_safe status_safe sleep_safe now_safe : preserves.

Lemma await_inclusion_safe polls hash : preserves safe (await_inclusion polls hash : M ()).
Proof. induction polls; simpl; preserve. Qed.
Hint Resolve await_inclusion_safe : preserves.

(** A transaction is sent only within the ceiling. *)
Lemma sendHeaders_safe hs :
  zlen hs ≤ MAX_HEADERS_PER_SUBMIT → preserves safe (sendHeaders config hs : M ()).
Proof.
  intros Hl. unfold sendHeaders. apply preserves_bind; [typeclasses eauto|preserve|intros _].
  apply preserves_bind; [typeclasses eauto|preserve|intros [e|fee]]; [preserve|].
  unfold assertWithinFeeCeiling. destruct (_ <? fee) eqn:E; [preserve|bools].
  apply preserves_bind; [typeclasses eauto|preserve|intros _].
  apply preserves_bind; [typeclasses eauto| |intros [e|hash]; preserve].
  intros s. unfold sendTransaction. destruct (sp_sendTransaction hs (world s)) as [[]]; simpl;
    intros Hs; (constructor; [by split|exact Hs]).
Qed.

Lemma withBackoff_safe {A} sl retries base ok (fn : M A) :
  (∀ d, preserves safe (modify (sl d) : M ())) →
  preserves safe fn → preserves safe (withBackoff sl retries base ok fn).
Proof.
  intros Hs Hf. unfold withBackoff. generalize 0 as n. generalize (Z.to_nat retries) as k.
  intros k. induction k as [|k IH]; intros n; simpl; preserve.
Qed.

Lemma getHeaderHex_safe h : preserves safe (getHeaderHex h : M string).
Proof. unfold getHeaderHex. preserve; apply withBackoff_safe; intros; preserve. Qed.
Hint Resolve getHeaderHex_safe : preserves.

Lemma fetch_all_safe hs : preserves safe (fetch_all (getHeaderHex (W := W)) hs).
Proof. induction hs; simpl; preserve. Qed.

Lemma fetch_all_length {S X} (f : Z → io S X string) hs s xs s' :
  fetch_all f hs s = (Ok xs, s') → length xs = length hs.
Proof.
  revert s xs. induction hs as [|h hs IH]; intros s xs; simpl; [by intros [= <-]|].
  unfold mbind, io_bind. destruct (f h s) as [[x|] s1]; [|done].
  destruct (fetch_all f hs s1) as [[ys|] s2] eqn:E; [|done]. intros [= <- <-].
  simpl. by rewrite (IH _ _ E).
Qed.

Lemma sync_batches_safe bs t :
  Forall (λ b, zlen (heights b) ≤ MAX_HEADERS_PER_SUBMIT) bs →
  preserves safe (sync_batches getHeaderHex (sendHeaders config) t bs : M _).
Proof.
  intros Hb. revert t. induction Hb as [|b bs Hl Hb IH]; intros t; cbn [sync_batches]; [preserve|].
  intros s Hs. unfold mbind at 1, io_bind at 1. pose proof (fetch_all_safe (heights b) s Hs) as H1.
  destruct (fetch_all _ (heights b) s) as [[xs|] s1] eqn:E; [|exact H1].
  apply fetch_all_length in E.
  refine (preserves_bind safe _ _ _ _ s1 H1); [|intros _; apply IH].
  apply sendHeaders_safe. unfold zlen in *. by rewrite E.
Qed.

Lemma checkRelayerBalance_safe : preserves safe (checkRelayerBalance config : M ()).
Proof. unfold checkRelayerBalance. preserve. Qed.
Lemma readContractTip_safe : preserves safe (readContractTip : M _).
Proof. unfold readContractTip. preserve. Qed.
Hint Resolve checkRelayerBalance_safe readContractTip_safe : preserves.

Lemma syncHeaders_safe e from_ to_ :
  preserves safe (syncHeaders getHeaderHex (sendHeaders config) e from_ to_ MAX_HEADERS_PER_SUBMIT : M _).
Proof.
  unfold syncHeaders. pose proof (planHeaderBatches_sizes from_ to_ MAX_HEADERS_PER_SUBMIT) as Hp.
  destruct (planHeaderBatches _ _ _) as [bs|err]; [by apply sync_batches_safe|preserve].
Qed.
Hint Resolve syncHeaders_safe : preserves.

Lemma pass_safe from_ : preserves safe (pass config from_ : M ()).
Proof. unfold pass. preserve. Qed.

Lemma on_error_safe e : preserves safe (on_error e : M ()).
Proof. unfold on_error. preserve. Qed.

Lemma tick_safe from_ (s : sync W) : all_sent_ok s → all_sent_ok (tick config from_ s).
Proof.
  intros Hs. unfold tick. destruct (running s); [done|].
  refine (preserves_try_catch safe _ _ (pass_safe from_) on_error_safe _ _). exact Hs.
Qed.
End facts.

(** ** Properties *)

(** Ticks of the timer and changes of the outside world. *)
Inductive sync_step {W} `{SpvEnv W} (config : SpvConfig) (from_ : Z) (s : sync W) : sync W → Prop :=
| sync_tick : sync_step config from_ s (tick config from_ s)
| sync_world w : sync_step config from_ s (set_world w s).

(** C23: the header job never overpays. Starting from an enabled job that has
    sent nothing, in every state it reaches, whatever the chain, the fee
    simulation and Esplora answer, each transaction it has sent carries at
    most 16 headers and was prepared with a fee at most the configured
    ceiling; and no tick leaves the job marked running, so a failed pass never
    stops the next one. *)
Theorem header_sync_within_ceiling {W} `{SpvEnv W} config (s0 s1 s : sync W) from_ :
  startHeaderSync config s0 = Some (from_, s1) → sent s0 = [] →
  rtc (sync_step config from_) s1 s →
  Forall (sent_ok config) (sent s) ∧ running s = false.
Proof.
  intros Hstart Hs0 Hsteps.
  assert (Hs1 : all_sent_ok config s1 ∧ running s1 = false).
  { unfold startHeaderSync in Hstart. split_in Hstart. unfold all_sent_ok; simpl.
    rewrite Hs0. by split. }
  clear Hstart Hs0. induction Hsteps as [|s1 s2 s3 Hst _ IH]; [exact Hs1|].
  apply IH. destruct Hs1 as [Ho Hr]. destruct Hst as [|w]; [|by split].
  split; [by apply tick_safe|]. unfold tick. by rewrite Hr.
Qed.

(** A chain whose tip is 20 blocks above the contract's. *)
Module Demo.
Definition hash32 (b : byte) : list byte := replicate 32 b.
#[global] Instance demo_spv : SpvEnv Z := {|
  sp_now w := w;
  sp_sleep d w := w + d;
  sp_getTipHeight w := (Ok 120, w);
  sp_getBlockHashAtHeight h w := (Ok (z_to_string h), w);
  sp_getBlockHeader hash w := (Ok (hash +:+ "00"), w);
  sp_balance w := (Ok 5, w);
  sp_getAccount w := (Ok (), w);
  sp_simulateBestTip w := (Ok (tip_sim_result (Some (Some 100, Some (hash32 x01)))), w);
  sp_simulateSubmit hs w := (Ok (submit_sim_prepared (if w <? 5000 then 90 else 110)), w);
  sp_sendTransaction hs w := (Ok (sent_hash "tx"), w);
  sp_getTransaction h w := (Ok (tx_success 80), w);
|}.
Definition config : SpvConfig := {|
  bitcoinSpvId := Some "C"; spvSyncFromHeight := Some 50; relayerSecret := Some "S";
  spvMaxFeeStroops := 100; relayerMinBalanceStroops := 10 |}.
Definition off : sync Z := mkSync headerSyncStatus false 0 0 [].
Definition on : sync Z := match startHeaderSync config off with Some (_, s) => s | None => off end.
End Demo.

Lemma header_sync_within_ceiling_witness :
  startHeaderSync Demo.config Demo.off = Some (50, Demo.on) ∧
  length (sent (tick Demo.config 50 Demo.on)) = 1%nat ∧
  skippedFeeCeiling (status (tick Demo.config 50 Demo.on)) = 1 ∧
  Forall (sent_ok Demo.config) (sent (tick Demo.config 50 Demo.on)).
Proof.
  split; [reflexivity|]. split; [vm_compute; reflexivity|]. split; [vm_compute; reflexivity|].
  refine (proj1 (header_sync_within_ceiling Demo.config Demo.off Demo.on _ 50 eq_refl eq_refl _)).
  apply rtc_once, sync_tick.
Defined.
