(* ===== verification/RpcCursor.v ===== *)
(** * Soroban RPC events cursors ([relayer/src/rpc-cursor.ts])

    The format both watchers store, and the ledger packed into it. *)

From S2P Require Import Prelude JsData.

(** [/^\d{19}-\d{10}$/] *)
Definition isValidCursor (cursor : string) : bool :=
  let cs := chars cursor in
  (zlen cs =? 30) && forallb is_digit (take 19 cs) &&
  bool_decide (cs !! 19%nat = Some "-"%char) && forallb is_digit (drop 20 cs).

(** [None]: not a non-negative integer. *)
Definition cursorForLedger (ledger : Z) : option string :=
  if ledger <? 0 then None else
  let toid := Z.shiftl ledger 32 in
  Some (of_chars (padStart 19 "0"%char (dec_chars toid)) +:+ "-" +:+
        of_chars (replicate 10 "0"%char)).

(** [cursor.split("-")[0]] *)
Fixpoint before_dash (cs : list ascii) : list ascii :=
  match cs with
  | [] => []
  | c :: cs => if Ascii.eqb c "-" then [] else c :: before_dash cs
  end.

(** [None]: [BigInt]'s SyntaxError. *)
Definition ledgerOfCursor (cursor : string) : option Z :=
  v ← BigInt (of_chars (before_dash (chars cursor)));
  Some (Z.shiftr v 32).

Definition assertValidCursor (cursor : string) : result string () :=
  ensure (isValidCursor cursor)
    ("Invalid Soroban RPC events cursor: '" +:+ cursor +:+
     "'. Expected <19-digit TOID>-<10-digit index>").

(** The largest ledger whose TOID still has 19 digits. *)
Definition MAX_CURSOR_LEDGER : Z := 2328306436.

(** ** Lemmas *)

Lemma before_dash_app ds cs :
  forallb is_digit ds = true → before_dash (ds ++ "-"%char :: cs) = ds.
Proof.
  induction ds as [|d ds IH]; simpl; [done|]. intros H. bools.
  destruct (Ascii.eqb d "-") eqn:E; [|by rewrite IH].
  apply Ascii.eqb_eq in E as ->. done.
Qed.

Lemma is_digit_zeros n cs :
  forallb is_digit cs = true → forallb is_digit (padStart n "0"%char cs) = true.
Proof.
  intros H. unfold padStart. rewrite forallb_app, H, andb_true_r.
  generalize (n - length cs)%nat as k. intros k. by induction k.
Qed.

Lemma digits_string ds :
  forallb is_digit ds = true → ds ≠ [] → BigInt (of_chars ds) = Some (dec_value ds).
Proof. intros H Hne. by apply BigInt_dec_chars. Qed.

Lemma cursor_chars toid :
  0 ≤ toid < 10 ^ 19 →
  let ds := padStart 19 "0"%char (dec_chars toid) in
  length ds = 19%nat ∧ forallb is_digit ds = true ∧ dec_value ds = toid ∧ ds ≠ [].
Proof.
  intros Ht. destruct (dec_chars_spec toid) as [Hv Hd]; [lia|].
  assert (Hl : (length (dec_chars toid) ≤ 19)%nat) by (apply dec_chars_length; [done|lia]).
  split_and!.
  - by apply padStart_length.
  - by apply is_digit_zeros.
  - unfold padStart. by rewrite dec_value_zeros.
  - intros E. apply (f_equal length) in E. rewrite padStart_length in E by done. done.
Qed.

Lemma toid_range ledger :
  0 ≤ ledger ≤ MAX_CURSOR_LEDGER → 0 ≤ Z.shiftl ledger 32 < 10 ^ 19.
Proof. unfold MAX_CURSOR_LEDGER. rewrite Z.shiftl_mul_pow2 by lia. lia. Qed.

(** ** Properties *)

(** a ledger's cursor is one the RPC accepts, and reads back as that ledger,
    for every ledger up to 2328306436 (the last whose TOID has 19 digits). *)
Theorem cursorForLedger_roundtrip ledger :
  0 ≤ ledger ≤ MAX_CURSOR_LEDGER →
  ∃ c, cursorForLedger ledger = Some c ∧ isValidCursor c = true ∧
    assertValidCursor c = Ok () ∧ ledgerOfCursor c = Some ledger.
Proof.
  intros Hr. unfold cursorForLedger. rewrite (proj2 (Z.ltb_ge _ _)) by lia.
  pose proof (toid_range ledger Hr) as Ht. set (toid := Z.shiftl ledger 32) in *.
  destruct (cursor_chars toid Ht) as (Hl & Hd & Hv & Hne).
  set (ds := padStart 19 "0"%char (dec_chars toid)) in *.
  eexists. split; [done|].
  assert (E : chars (of_chars ds +:+ "-" +:+ of_chars (replicate 10 "0"%char)) =
              ds ++ "-"%char :: replicate 10 "0"%char).
  { rewrite chars_app, chars_of_chars. done. }
  assert (V : isValidCursor (of_chars ds +:+ "-" +:+ of_chars (replicate 10 "0"%char)) = true).
  { unfold isValidCursor. rewrite E. unfold zlen. rewrite length_app, Hl. simpl length.
    rewrite take_app_exact, Hd by done.
    rewrite lookup_app_r, Hl by lia. simpl lookup.
    rewrite drop_app_ge, Hl by lia. reflexivity. }
  split; [exact V|]. split; [unfold assertValidCursor, ensure; by rewrite V|].
  unfold ledgerOfCursor. rewrite E, before_dash_app, digits_string, Hv by done.
  simpl. f_equal. unfold toid. rewrite Z.shiftr_shiftl_l by lia. by rewrite Z.shiftl_0_r.
Qed.

Lemma cursorForLedger_roundtrip_witness :
  0 ≤ 5384349 ≤ MAX_CURSOR_LEDGER ∧
  ∃ c, cursorForLedger 5384349 = Some c ∧ ledgerOfCursor c = Some 5384349.
Proof.
  assert (H : 0 ≤ 5384349 ≤ MAX_CURSOR_LEDGER) by (unfold MAX_CURSOR_LEDGER; lia).
  split; [exact H|]. destruct (cursorForLedger_roundtrip 5384349 H) as (c & H1 & _ & _ & H2).
  exists c. split; [exact H1|exact H2].
Defined.

(** One ledger further the TOID has 20 digits: the cursor is malformed. *)
Example cursorForLedger_overflows :
  match cursorForLedger (MAX_CURSOR_LEDGER + 1) with
  | Some c => isValidCursor c = false
  | None => False
  end.
Proof. vm_compute. reflexivity. Qed.
