(* ===== verification/AccountLock.v ===== *)
(** * One transaction at a time per account ([relayer/src/account-lock.ts])

    The promise chain of [withAccountLock] as a step relation: a submitted
    task waits for the task that was last in its account's queue, runs once
    that one has settled (either way), and the queue forgets an account with
    nothing left behind it. Submissions, starts, settlements and the cleanup
    microtasks interleave freely. *)

From S2P Require Import Prelude.

Inductive progress : Type := waiting | running | settled.

#[global] Instance progress_eq_dec : EqDecision progress.
Proof. solve_decision. Defined.

(** A call of [withAccountLock]: its account, the call whose settlement it
    waits for ([None]: [Promise.resolve()]) and how far it is. *)
Record call : Type := { account : string; previous : option nat; stage : progress }.

(** [queues], holding the last call of each account by its number; [calls] are
    numbered in the order they were made. *)
Record locks : Type := { calls : list call; queues : gmap string nat }.

Definition no_locks : locks := {| calls := []; queues := ∅ |}.

Definition with_stage (p : progress) (c : call) : call :=
  {| account := account c; previous := previous c; stage := p |}.

Definition withAccountLock (a : string) (l : locks) : locks := {|
  calls := calls l ++ [{| account := a; previous := queues l !! a; stage := waiting |}];
  queues := <[a := length (calls l)]> (queues l);
|}.

(** The call [previous.then(task, task)] waits for has settled. *)
Definition ready (l : locks) (c : call) : bool :=
  match previous c with
  | None => true
  | Some d => match calls l !! d with Some p => bool_decide (stage p = settled) | None => false end
  end.

Definition set_stage (i : nat) (p : progress) (l : locks) : locks :=
  {| calls := alter (with_stage p) i (calls l); queues := queues l |}.

(** [if (queues.get(account) === settled) queues.delete(account)] *)
Definition forget (i : nat) (a : string) (l : locks) : locks :=
  if bool_decide (queues l !! a = Some i)
  then {| calls := calls l; queues := delete a (queues l) |} else l.

Inductive lock_step (l : locks) : locks → Prop :=
| step_submit a : lock_step l (withAccountLock a l)
| step_start i c :
    calls l !! i = Some c → stage c = waiting → ready l c = true →
    lock_step l (set_stage i running l)
| step_settle i c :
    calls l !! i = Some c → stage c = running → lock_step l (set_stage i settled l)
| step_forget i c :
    calls l !! i = Some c → stage c = settled → lock_step l (forget i (account c) l).

(** ** The invariant *)

(** Calls [i] and [j] of one account, [i] made first. *)
Definition earlier (l : locks) (i j : nat) (ci cj : call) : Prop :=
  (i < j)%nat ∧ calls l !! i = Some ci ∧ calls l !! j = Some cj ∧ account ci = account cj.

Record lock_inv (l : locks) : Prop := {
  inv_order : ∀ i j ci cj, earlier l i j ci cj → stage cj ≠ waiting → stage ci = settled;
  inv_first : ∀ i j ci cj, earlier l i j ci cj → previous cj = None → stage ci = settled;
  inv_link : ∀ j cj d, calls l !! j = Some cj → previous cj = Some d →
    ∃ cd, calls l !! d = Some cd ∧ account cd = account cj ∧ (d < j)%nat ∧
      ∀ i ci, earlier l i j ci cj → (i ≤ d)%nat;
  inv_queue : ∀ a d, queues l !! a = Some d →
    ∃ cd, calls l !! d = Some cd ∧ account cd = a ∧
      ∀ i ci, calls l !! i = Some ci → account ci = a → (i ≤ d)%nat;
  inv_idle : ∀ a i ci, queues l !! a = None → calls l !! i = Some ci → account ci = a →
    stage ci = settled;
}.

Lemma submit_lookup a l i c :
  calls (withAccountLock a l) !! i = Some c →
  calls l !! i = Some c ∨
  i = length (calls l) ∧ c = {| account := a; previous := queues l !! a; stage := waiting |}.
Proof.
  simpl. intros H. apply lookup_app_Some in H as [H|[Hge H]]; [by left|right].
  apply list_lookup_singleton_Some in H as [Hi <-]. split; [lia|done].
Qed.

Lemma submit_inv a l : lock_inv l → lock_inv (withAccountLock a l).
Proof.
  intros [O F L Q I].
  assert (Hlt : ∀ i c, calls l !! i = Some c → (i < length (calls l))%nat)
    by (intros i c; apply lookup_lt_Some).
  assert (Hold : ∀ i j ci cj, earlier (withAccountLock a l) i j ci cj → 
    calls l !! i = Some ci ∧ (calls l !! j = Some cj ∨ j = length (calls l) ∧
      cj = {| account := a; previous := queues l !! a; stage := waiting |})).
  { intros i j ci cj (Hij & Hi & Hj & _). apply submit_lookup in Hi, Hj.
    destruct Hi as [Hi|[-> _]]; [by split|]. exfalso.
    destruct Hj as [Hj|[-> _]]; [apply Hlt in Hj|]; lia. }
  split.
  - intros i j ci cj E Hs. destruct (Hold _ _ _ _ E) as [Hi [Hj|[_ ->]]]; [|done].
    destruct E as (? & _ & _ & ?). by apply (O i j ci cj).
  - intros i j ci cj E Hn. destruct (Hold _ _ _ _ E) as [Hi [Hj|[_ ->]]].
    + destruct E as (? & _ & _ & ?). by apply (F i j ci cj).
    + destruct E as (_ & _ & _ & Ha). by apply (I a i ci).
  - intros j cj d Hj Hp. apply submit_lookup in Hj as [Hj|[-> ->]].
    + destruct (L j cj d Hj Hp) as (cd & Hd & Ha & Hdj & Hmax). exists cd.
      split_and!; [by apply lookup_app_l_Some|done|done|].
      intros i ci E. destruct (Hold _ _ _ _ E) as [Hi _]. destruct E as (? & _ & _ & ?).
      by apply (Hmax i ci).
    + simpl in Hp. destruct (Q a d Hp) as (cd & Hd & Ha & Hmax). exists cd.
      split_and!; [by apply lookup_app_l_Some|done|by eapply Hlt|].
      intros i ci E. destruct (Hold _ _ _ _ E) as [Hi _]. destruct E as (_ & _ & _ & ?).
      by apply (Hmax i ci).
  - intros b d Hb. simpl in Hb. apply lookup_insert_Some in Hb as [[<- <-]|[Hne Hb]].
    + eexists. split; [apply list_lookup_middle; done|]. split; [done|].
      intros i ci Hi _. apply submit_lookup in Hi as [Hi|[-> _]]; [apply Hlt in Hi; lia|lia].
    + destruct (Q b d Hb) as (cd & Hd & Ha & Hmax). exists cd.
      split_and!; [by apply lookup_app_l_Some|done|].
      intros i ci Hi Hci. apply submit_lookup in Hi as [Hi|[-> ->]]; [by eapply Hmax|].
      by destruct Hne.
  - intros b i ci Hb Hi Ha. simpl in Hb. apply lookup_insert_None in Hb as [Hb Hne].
    apply submit_lookup in Hi as [Hi|[-> ->]]; [by apply (I b i ci)|by destruct Hne].
Qed.

(** Changing the stage of one call. *)
Lemma stage_lookup i p l j c :
  calls (set_stage i p l) !! j = Some c →
  ∃ c0, calls l !! j = Some c0 ∧ account c = account c0 ∧ previous c = previous c0 ∧
    stage c = (if decide (j = i) then p else stage c0).
Proof.
  simpl. intros H. destruct (decide (j = i)) as [->|Hne].
  - rewrite list_lookup_alter_eq in H. destruct (calls l !! i) as [c0|]; simplify_eq/=. by exists c0.
  - rewrite list_lookup_alter_ne in H by done. by exists c.
Qed.

Lemma stage_inv i p l c :
  lock_inv l → calls l !! i = Some c → p ≠ waiting →
  (stage c = settled → p = settled) →
  (∀ k ck, earlier l k i ck c → stage ck = settled) →
  lock_inv (set_stage i p l).
Proof.
  intros [O F L Q I] Hc Hp Hs Hearlier.
  assert (Hpull : ∀ k j ck cj, earlier (set_stage i p l) k j ck cj → ∃ ck0 cj0,
    earlier l k j ck0 cj0 ∧ previous cj = previous cj0 ∧
    (stage ck0 = settled → stage ck = settled) ∧ stage cj = (if decide (j = i) then p else stage cj0)).
  { intros k j ck cj (Hkj & Hk & Hj & Ha).
    apply stage_lookup in Hk as (ck0 & Hk & Hka & _ & Hks).
    apply stage_lookup in Hj as (cj0 & Hj & Hja & Hjp & Hjs).
    exists ck0, cj0. split_and!; [split_and!; [done..|congruence]|done| |done].
    intros H. rewrite Hks. destruct (decide (k = i)) as [->|]; [|done].
    apply Hs. by simplify_eq. }
  assert (Hlook : ∀ d c0, calls l !! d = Some c0 →
    ∃ c1, calls (set_stage i p l) !! d = Some c1 ∧ account c1 = account c0).
  { intros d c0 Hd. simpl. destruct (decide (d = i)) as [->|].
    - rewrite list_lookup_alter_eq, Hd. by eexists.
    - rewrite list_lookup_alter_ne by done. by exists c0. }
  split.
  - intros k j ck cj E Hw. destruct (Hpull _ _ _ _ E) as (ck0 & cj0 & E0 & _ & Hk & Hj).
    apply Hk. rewrite Hj in Hw. destruct (decide (j = i)) as [->|]; [|by apply (O k j ck0 cj0)].
    assert (cj0 = c) as -> by (destruct E0 as (_ & _ & ? & _); by simplify_eq).
    by apply (Hearlier k ck0).
  - intros k j ck cj E Hn. destruct (Hpull _ _ _ _ E) as (ck0 & cj0 & E0 & Hpr & Hk & _).
    apply Hk, (F k j ck0 cj0); congruence.
  - intros j cj d Hj Hpr. apply stage_lookup in Hj as (cj0 & Hj & Hja & Hjp & _).
    destruct (L j cj0 d Hj ltac:(congruence)) as (cd & Hd & Ha & Hdj & Hmax).
    destruct (Hlook d cd Hd) as (cd1 & Hd1 & Ha1). exists cd1.
    split_and!; [done|congruence|done|]. intros k ck E.
    destruct (Hpull _ _ _ _ E) as (ck0 & cj1 & E0 & _).
    assert (cj1 = cj0) as -> by (destruct E0 as (_ & _ & ? & _); by simplify_eq).
    by apply (Hmax k ck0).
  - intros a d Hq. destruct (Q a d Hq) as (cd & Hd & Ha & Hmax).
    destruct (Hlook d cd Hd) as (cd1 & Hd1 & Ha1). exists cd1. split_and!; [done|congruence|].
    intros k ck Hk Hka. apply stage_lookup in Hk as (ck0 & Hk & Hka0 & _).
    apply (Hmax k ck0); congruence.
  - intros a k ck Hq Hk Hka. apply stage_lookup in Hk as (ck0 & Hk & Hka0 & _ & Hks).
    pose proof (I a k ck0 Hq Hk ltac:(congruence)) as Hset. rewrite Hks.
    destruct (decide (k = i)) as [->|]; [|done]. apply Hs. by simplify_eq.
Qed.

Lemma forget_inv i c l :
  lock_inv l → calls l !! i = Some c → stage c = settled → lock_inv (forget i (account c) l).
Proof.
  intros [O F L Q I] Hc Hs. unfold forget. case_bool_decide as Hq; [|by split].
  split; [exact O|exact F|exact L| |]; simpl.
  - intros a d Ha. apply lookup_delete_Some in Ha as [_ Ha]. by apply Q.
  - intros a k ck Ha Hk Hka. apply lookup_delete_None in Ha as [<-|Ha]; [|by apply (I a k ck)].
    destruct (Q _ _ Hq) as (c' & Hc' & _ & Hmax). simplify_eq.
    pose proof (Hmax k ck Hk Hka) as Hle. destruct (decide (k = i)) as [->|]; [by simplify_eq|].
    apply (O k i ck c); [split_and!; [lia|done..]|by rewrite Hs].
Qed.

Lemma ready_earlier l i c :
  lock_inv l → calls l !! i = Some c → ready l c = true →
  ∀ k ck, earlier l k i ck c → stage ck = settled.
Proof.
  intros [O F L Q I] Hc Hr k ck E. unfold ready in Hr.
  destruct (previous c) as [d|] eqn:Hp; [|by apply (F k i ck c)].
  destruct (L i c d Hc Hp) as (cd & Hd & Ha & Hdi & Hmax). rewrite Hd in Hr.
  apply bool_decide_eq_true in Hr. pose proof (Hmax k ck E) as Hle.
  destruct E as (_ & Hk & _ & Hka). destruct (decide (k = d)) as [->|]; [by simplify_eq|].
  apply (O k d ck cd); [split_and!; [lia|done|done|congruence]|by rewrite Hr].
Qed.

Lemma lock_step_inv l l' : lock_inv l → lock_step l l' → lock_inv l'.
Proof.
  intros Hi [a|i c Hc Hs Hr|i c Hc Hs|i c Hc Hs].
  - by apply submit_inv.
  - apply (stage_inv i running l c); [done|done|done|by rewrite Hs|by apply ready_earlier].
  - apply (stage_inv i settled l c); [done|done|done|done|].
    intros k ck E. apply (inv_order l Hi k i ck c E). by rewrite Hs.
  - by apply forget_inv.
Qed.

Lemma no_locks_inv : lock_inv no_locks.
Proof. split; try (intros; by rewrite ?lookup_nil in *); intros i j ci cj (_ & H & _); done. Qed.

Lemma locks_inv l : rtc lock_step no_locks l → lock_inv l.
Proof.
  intros H. pose proof no_locks_inv as Hi. induction H as [|l1 l2 l3 H12 _ IH]; [done|].
  by apply IH, (lock_step_inv l1).
Qed.

(** A call that has not settled waits behind a first one that is free to move. *)
Lemma unsettled_moves l j cj :
  lock_inv l → calls l !! j = Some cj → stage cj ≠ settled →
  ∃ i ci, calls l !! i = Some ci ∧ account ci = account cj ∧ (i ≤ j)%nat ∧
    (stage ci = running ∨ stage ci = waiting ∧ ready l ci = true).
Proof.
  intros Hl. revert cj. induction j as [j IH] using lt_wf_ind. intros cj Hj Hs.
  destruct (stage cj) eqn:Es; [|by exists j, cj; auto|done].
  destruct (ready l cj) eqn:Er; [by exists j, cj; auto 10|].
  unfold ready in Er. destruct (previous cj) as [d|] eqn:Ep; [|done].
  destruct (inv_link l Hl j cj d Hj Ep) as (cd & Hd & Ha & Hdj & _). rewrite Hd in Er.
  apply bool_decide_eq_false in Er.
  destruct (IH d Hdj cd Hd Er) as (i & ci & Hi & Hai & Hle & Hst).
  exists i, ci. split_and!; [done|congruence|lia|done].
Qed.

(** ** Properties *)

(** C22: two transactions of one account never overlap, and they run in the order
    they were asked for: in every reachable state, once a call runs or has
    settled every earlier call of its account has settled, so at most one of
    them runs. *)
Theorem account_lock_exclusive l i j ci cj :
  rtc lock_step no_locks l →
  calls l !! i = Some ci → calls l !! j = Some cj → account ci = account cj →
  ((i < j)%nat → stage cj ≠ waiting → stage ci = settled) ∧
  (stage ci = running → stage cj = running → i = j).
Proof.
  intros H Hi Hj Ha. pose proof (locks_inv l H) as Hl. split.
  - intros Hij Hs. by apply (inv_order l Hl i j ci cj).
  - intros Ri Rj. destruct (Nat.lt_trichotomy i j) as [Hlt|[->|Hgt]]; [|done|]; exfalso.
    + pose proof (inv_order l Hl i j ci cj ltac:(by split_and!) ltac:(by rewrite Rj)). congruence.
    + pose proof (inv_order l Hl j i cj ci ltac:(by split_and!) ltac:(by rewrite Ri)). congruence.
Qed.

(** the lock never deadlocks: while a call of an account has not settled,
    some call of that account made no later is running or free to start. *)
Theorem account_lock_progress l j cj :
  rtc lock_step no_locks l → calls l !! j = Some cj → stage cj ≠ settled →
  ∃ i ci, calls l !! i = Some ci ∧ account ci = account cj ∧ (i ≤ j)%nat ∧
    (stage ci = running ∨ ∃ l', lock_step l l' ∧ l' = set_stage i running l ∧ stage ci = waiting).
Proof.
  intros H Hj Hs. pose proof (locks_inv l H) as Hl.
  destruct (unsettled_moves l j cj Hl Hj Hs) as (i & ci & Hi & Ha & Hle & Hst).
  exists i, ci. split_and!; [done..|]. destruct Hst as [?|[Hw Hr]]; [by left|right].
  eexists. split_and!; [by apply (step_start l i ci)|done|done].
Qed.

(** Two submitters of the relayer account: the second waits for the first. *)
Definition demo_locks : locks :=
  set_stage 0 running (withAccountLock "G1" (withAccountLock "G1" no_locks)).

Lemma demo_reachable : rtc lock_step no_locks demo_locks.
Proof.
  eapply rtc_l; [apply step_submit|]. eapply rtc_l; [apply step_submit|].
  apply rtc_once. by eapply step_start.
Qed.

Definition demo_call (i : nat) : call :=
  {| account := "G1"; previous := (if (i =? 0)%nat then None else Some 0%nat);
     stage := (if (i =? 0)%nat then running else waiting) |}.

Lemma account_lock_exclusive_witness :
  calls demo_locks = [demo_call 0; demo_call 1] ∧
  (stage (demo_call 0) = running → stage (demo_call 1) = running → 0%nat = 1%nat).
Proof.
  split; [reflexivity|].
  exact (proj2 (account_lock_exclusive demo_locks 0 1 (demo_call 0) (demo_call 1)
                  demo_reachable eq_refl eq_refl eq_refl)).
Defined.

Lemma account_lock_progress_witness :
  ∃ i ci, calls demo_locks !! i = Some ci ∧ (i ≤ 1)%nat ∧
    (stage ci = running ∨
     ∃ l', lock_step demo_locks l' ∧ l' = set_stage i running demo_locks ∧ stage ci = waiting).
Proof.
  destruct (account_lock_progress demo_locks 1 (demo_call 1) demo_reachable eq_refl)
    as (i & ci & Hi & _ & Hle & Hst); [discriminate|].
  exists i, ci. split; [exact Hi|]. split; [exact Hle|exact Hst].
Defined.
