(* ===== verification/RepayWatcher.v ===== *)
(** * The repay watcher ([relayer/src/repay-watcher/])

    The durable table of releases owed ([release-store.ts]), the poll cycle
    and the release sweep ([poller.ts]). The Soroban RPC, the publisher and
    the contract read are the class [WatcherEnv]; the event decoder is an
    argument. *)

From S2P Require Import Prelude JsData JsMap HeaderSync RpcCursor.

(** ** The release store *)

Definition BASE_RETRY_DELAY_MS : Z := 30000.
Definition MAX_RETRY_DELAY_MS : Z := 60 * 60000.
Definition MAX_RELEASE_ATTEMPTS : Z := 24.

Definition releaseRetryDelayMs (attempts : Z) : Z :=
  Z.min (BASE_RETRY_DELAY_MS * 2 ^ Z.min (attempts - 1) 20) MAX_RETRY_DELAY_MS.

(** A row of [pending_releases]; its key is [(contract_id, txid)]. *)
Record pending_row : Type := {
  first_seen_at : Z;
  attempts : Z;
  next_attempt : Z;
  last_error : option string;
}.

Record PendingRelease : Type := {
  txid : string;
  firstSeenAt : Z;
  tried : Z;
  lastError : option string;
}.

Record ReleaseSummary : Type := {
  pending : Z;
  oldestPendingAt : option Z;
  stuck : Z;
}.

(** The database: the cursor row and the pending table. *)
Record ReleaseStore : Type := mkReleaseStore {
  watcher_cursor : option string;
  pending_releases : jsmap (string * string) pending_row;
}.

Module Store.
Definition readCursor (st : ReleaseStore) : option string := watcher_cursor st.

Definition writeCursor (cursor : string) (st : ReleaseStore) : result string ReleaseStore :=
  assertValidCursor cursor;;
  mret (mkReleaseStore (Some cursor) (pending_releases st)).

(** [INSERT OR IGNORE] *)
Definition insert_ignore (contractId txid : string) (now : Z)
    (rows : jsmap (string * string) pending_row) : jsmap (string * string) pending_row :=
  if map_has (contractId, txid) rows then rows
  else map_set (contractId, txid) {| first_seen_at := now; attempts := 0; next_attempt := now;
                                     last_error := None |} rows.

(** One transaction: an exception leaves the database as it was. *)
Definition recordBatch (contractId : string) (txids : list string) (cursor : string) (now : Z)
    (st : ReleaseStore) : result string ReleaseStore :=
  writeCursor cursor (mkReleaseStore (watcher_cursor st)
    (foldl (λ rows txid, insert_ignore contractId txid now rows) (pending_releases st) txids)).

Definition is_due (contractId : string) (now : Z) (e : (string * string) * pending_row) : bool :=
  bool_decide (e.1.1 = contractId) && (next_attempt e.2 <=? now) &&
  (attempts e.2 <? MAX_RELEASE_ATTEMPTS).

(** [ORDER BY first_seen_at, txid] *)
Definition due_order (e1 e2 : (string * string) * pending_row) : bool :=
  (first_seen_at e1.2 <? first_seen_at e2.2) ||
  ((first_seen_at e1.2 =? first_seen_at e2.2) && String.leb e1.1.2 e2.1.2).

Definition due (contractId : string) (now : Z) (limit : nat) (st : ReleaseStore) :
    list PendingRelease :=
  map (λ e, {| txid := e.1.2; firstSeenAt := first_seen_at e.2; tried := attempts e.2;
               lastError := last_error e.2 |})
    (take limit (sort_with due_order
      (filter (λ e, is_due contractId now e = true) (pending_releases st)))).

Definition markFailed (contractId txid error : string) (now : Z) (st : ReleaseStore) :
    ReleaseStore :=
  match map_get (contractId, txid) (pending_releases st) with
  | None => st
  | Some r =>
      let n := attempts r + 1 in
      mkReleaseStore (watcher_cursor st)
        (map_set (contractId, txid)
           {| first_seen_at := first_seen_at r; attempts := n;
              next_attempt := now + releaseRetryDelayMs n; last_error := Some error |}
           (pending_releases st))
  end.

Definition remove (contractId txid : string) (st : ReleaseStore) : ReleaseStore :=
  mkReleaseStore (watcher_cursor st) (map_delete (contractId, txid) (pending_releases st)).

Definition summary (contractId : string) (st : ReleaseStore) : ReleaseSummary :=
  let rows := (filter (λ e, e.1.1 = contractId) (pending_releases st)).*2 in
  {| pending := zlen rows;
     oldestPendingAt := foldr (λ r o, Some (match o with
                                           | Some t => Z.min (first_seen_at r) t
                                           | None => first_seen_at r end)) None rows;
     stuck := zlen (filter (λ r, MAX_RELEASE_ATTEMPTS ≤ attempts r) rows) |}.
End Store.
Import Store.

(** ** The outside world *)

(** [getEvents] from a cursor, or from the contract's deploy ledger. *)
Inductive events_request : Type := from_cursor (c : string) | from_ledger (l : Z).

Class WatcherEnv (W ev : Type) : Type := {
  w_now : W → Z;
  w_sleep : Z → W → W;
  w_getEvents : events_request → W → result string (list ev * string) * W;
  w_handle : list byte → W → result string () * W;       (* [handleRepayFull] *)
  w_isPublished : list byte → W → result string bool * W;
}.

Record watcher (W : Type) : Type := mkWatcher { store : ReleaseStore; world : W }.
Arguments mkWatcher {W} store world.
Arguments store {W} w.
Arguments world {W} w.

Definition REPAY_FULL_TOPIC : string := "repay_full".
Definition PUBLISH_RETRIES : Z := 2.
Definition PUBLISH_RETRY_BASE_DELAY_MS : Z := 2000.
Definition DUE_LIMIT : nat := 10.

(** [message.split("\n")[0]] *)
Fixpoint first_line_chars (cs : list ascii) : list ascii :=
  match cs with
  | [] => []
  | c :: cs => if Ascii.eqb c (ascii_of_nat 10) then [] else c :: first_line_chars cs
  end.
Definition first_line (s : string) : string := of_chars (first_line_chars (chars s)).

Section poller.
Context {W ev : Type} `{WatcherEnv W ev}
  (decodeEvent : ev → option string * option (list byte))
  (contractId : string) (deployLedger : option Z).
Abbreviation M := (io (watcher W) string).

Definition set_world (w : W) (s : watcher W) : watcher W := mkWatcher (store s) w.
Definition set_store (st : ReleaseStore) (s : watcher W) : watcher W := mkWatcher st (world s).
Definition call {A} (f : W → result string A * W) : M A := λ s,
  let '(r, w) := f (world s) in (r, set_world w s).
Definition now : M Z := gets (λ s, w_now (world s)).

(** The txid of a [repay_full] event. *)
Definition repaid_txid (e : ev) : option string :=
  match decodeEvent e with
  | (Some topic0, Some t) => if bool_decide (topic0 = REPAY_FULL_TOPIC) then Some (to_hex t) else None
  | _ => None
  end.

Definition repaid (events : list ev) : list string := omap repaid_txid events.

Definition record (txids : list string) (cursor : string) (t : Z) : M () := λ s,
  match recordBatch contractId txids cursor t (store s) with
  | Ok st => (Ok (), set_store st s)
  | Err e => (Err e, s)
  end.

Definition runPollCycle : M () :=
  cursor ← gets (λ s, present (readCursor (store s)));
  request ← lift (match cursor, deployLedger with
                  | Some c, _ => Ok (from_cursor c)
                  | None, Some l => Ok (from_ledger l)
                  | None, None => Err "no cursor and WRITZ_LEND_DEPLOY_LEDGER is not set, so the watcher cannot start"
                  end);
  response ← call (w_getEvents request);
  t ← now;
  record (repaid response.1) response.2 t.

(** [withPromptRetry(handle)] *)
Definition withPromptRetry (t : list byte) : M () :=
  withBackoff (λ d s, set_world (w_sleep d (world s)) s) PUBLISH_RETRIES
    PUBLISH_RETRY_BASE_DELAY_MS (λ _, true) (call (w_handle t)).

(** One row of the sweep, its [catch] included. *)
Definition sweep_row (row : PendingRelease) : M () :=
  let t := from_hex (txid row) in
  try_catch
    (withPromptRetry t;;
     visible ← call (w_isPublished t);
     if negb visible then throw "published, but the release is not visible on chain yet" else
     modify (λ s, set_store (remove contractId (txid row) (store s)) s))
    (λ e, t ← now;
          modify (λ s, set_store (markFailed contractId (txid row) (first_line e) t (store s)) s)).

Fixpoint sweep_rows (rows : list PendingRelease) : M () :=
  match rows with
  | [] => mret ()
  | row :: rows => sweep_row row;; sweep_rows rows
  end.

Definition runReleaseSweep : M () :=
  rows ← gets (λ s, due contractId (w_now (world s)) DUE_LIMIT (store s));
  sweep_rows rows.

(** One round of [startRepayWatcher]'s loop: the new [lastError] of /health. *)
Definition loop_round (s : watcher W) : option string * watcher W :=
  match (runPollCycle;; runReleaseSweep) s with
  | (Ok _, s) => (None, s)
  | (Err e, s) => (Some (first_line e), s)
  end.
End poller.

(** ** What the RPC and the contract promise *)

(** The contract's events in order, which only grow; a release on chain stays;
    [getEvents] answers with the events right after a cursor (or all of them
    from the deploy ledger) and the cursor of the last one it looked at;
    [get_release_psbt] shows only what is on chain. *)
Class WatcherLaws (W ev : Type) `{WatcherEnv W ev} : Type := {
  chain_log : W → list ev;
  on_chain : W → list byte → Prop;
  position : string → nat;
  w_le (w w' : W) : Prop := chain_log w `prefix_of` chain_log w' ∧ ∀ t, on_chain w t → on_chain w' t;
  sleep_le d w : w_le w (w_sleep d w);
  getEvents_le q w : w_le w (w_getEvents q w).2;
  handle_le t w : w_le w (w_handle t w).2;
  isPublished_le t w : w_le w (w_isPublished t w).2;
  getEvents_slice q w evs c w' :
    w_getEvents q w = (Ok (evs, c), w') →
    let p := match q with from_cursor c0 => position c0 | from_ledger _ => 0%nat end in
    (position c ≤ length (chain_log w'))%nat ∧
    evs = take (position c - p) (drop p (chain_log w'));
  isPublished_sound t w w' : w_isPublished t w = (Ok true, w') → on_chain w' t;
}.

(** ** Lemmas on the store *)

Definition owed (contractId : string) (st : ReleaseStore) (t : string) : Prop :=
  is_Some (map_get (contractId, t) (pending_releases st)).

Lemma insert_ignore_get contractId t now rows k :
  map_get k (insert_ignore contractId t now rows) =
  match map_get k rows with
  | Some r => Some r
  | None => if decide (k = (contractId, t))
            then Some {| first_seen_at := now; attempts := 0; next_attempt := now; last_error := None |}
            else None
  end.
Proof.
  unfold insert_ignore. destruct (map_has (contractId, t) rows) eqn:E.
  - apply map_has_true in E. destruct (map_get k rows) eqn:Ek; [done|].
    destruct (decide _) as [->|]; [|done]. rewrite Ek in E. by destruct E.
  - apply map_has_false in E. rewrite map_get_set.
    destruct (decide (k = (contractId, t))) as [->|]; [by rewrite E|].
    by destruct (map_get k rows).
Qed.

Lemma insert_all_get contractId txids now rows k :
  map_get k (foldl (λ rows t, insert_ignore contractId t now rows) rows txids) =
  match map_get k rows with
  | Some r => Some r
  | None => if decide (k.1 = contractId ∧ k.2 ∈ txids)
            then Some {| first_seen_at := now; attempts := 0; next_attempt := now; last_error := None |}
            else None
  end.
Proof.
  revert rows. induction txids as [|t txids IH]; intros rows; simpl.
  - destruct (map_get k rows); [done|]. destruct (decide _) as [[_ H]|]; [inversion H|done].
  - rewrite IH, insert_ignore_get. destruct (map_get k rows); [done|].
    destruct (decide (k = (contractId, t))) as [->|Hne]; simpl.
    + rewrite decide_True by (split; [done|set_solver]). done.
    + destruct (decide (k.1 = contractId ∧ k.2 ∈ txids)) as [[H1 H2]|Hno].
      * rewrite decide_True by (split; [done|set_solver]). done.
      * rewrite decide_False; [done|]. intros [H1 H2]. apply elem_of_cons in H2 as [H2|H2]; [|by apply Hno].
        apply Hne. destruct k; simpl in *; by subst.
Qed.

Lemma recordBatch_eq contractId txids cursor now st :
  recordBatch contractId txids cursor now st =
  match assertValidCursor cursor with
  | Ok _ => Ok (mkReleaseStore (Some cursor)
      (foldl (λ rows t, insert_ignore contractId t now rows) (pending_releases st) txids))
  | Err e => Err e
  end.
Proof. unfold recordBatch, Store.writeCursor, mbind, result_bind. by destruct (assertValidCursor cursor). Qed.

Lemma assertValidCursor_ok c u : assertValidCursor c = Ok u → isValidCursor c = true.
Proof. unfold assertValidCursor, ensure. by destruct (isValidCursor c). Qed.

Lemma markFailed_owed contractId t e n st c' t' :
  owed c' (markFailed contractId t e n st) t' ↔ owed c' st t'.
Proof.
  unfold owed, markFailed. destruct (map_get (contractId, t) _) as [r|] eqn:E; [|done]. simpl.
  rewrite map_get_set. destruct (decide _) as [Hk|]; [|done]. rewrite Hk, E. by split.
Qed.

Lemma markFailed_cursor contractId t e n st :
  watcher_cursor (markFailed contractId t e n st) = watcher_cursor st.
Proof. unfold markFailed. by destruct (map_get _ _). Qed.

Lemma isValidCursor_nonempty c : isValidCursor c = true → c ≠ "".
Proof. by intros H ->. Qed.

(** ** No repayment is lost *)

Section no_loss.
Context {W ev : Type} `{laws : WatcherLaws W ev}
  (decodeEvent : ev → option string * option (list byte))
  (contractId : string) (deployLedger : option Z).
Abbreviation M := (io (watcher W) string).

(** Every [repay_full] up to the stored cursor is owed, or on chain. *)
Definition accounted (s : watcher W) : Prop :=
  ∀ c, watcher_cursor (store s) = Some c →
    c ≠ "" ∧ (position c ≤ length (chain_log (world s)))%nat ∧
    ∀ i e t, (i < position c)%nat → chain_log (world s) !! i = Some e →
      repaid_txid decodeEvent e = Some t →
      owed contractId (store s) t ∨ on_chain (world s) (from_hex t).

Abbreviation safe := (keeps accounted).

Lemma w_le_refl w : w_le w w.
Proof. by split. Qed.

Lemma world_accounted w' s : w_le (world s) w' → accounted s → accounted (set_world w' s).
Proof.
  intros [[suf Hl] Hc] Ha c Hcur. destruct (Ha c Hcur) as (Hne & Hpos & Hall). simpl.
  split; [done|]. rewrite Hl in *. split; [rewrite length_app; lia|].
  intros i e t Hi He Ht. rewrite lookup_app_l in He by lia.
  destruct (Hall i e t Hi He Ht) as [?|?]; [by left|right; by apply Hc].
Qed.

Lemma call_safe {A} (f : W → result string A * W) :
  (∀ w, w_le w (f w).2) → preserves safe (call f : M A).
Proof.
  intros Hf s Hs. unfold call. specialize (Hf (world s)). destruct (f (world s)) as [r w].
  by apply world_accounted.
Qed.

Lemma markFailed_safe f : preserves safe
  (modify (λ s, set_store (markFailed contractId (f s).1.1 (f s).1.2 (f s).2 (store s)) s) : M ()).
Proof.
  intros s Hs c. simpl. rewrite markFailed_cursor. intros Hc.
  destruct (Hs c Hc) as (? & ? & Hall). split_and!; [done..|].
  intros i e t Hi He Ht. rewrite markFailed_owed. by apply (Hall i e t).
Qed.

Lemma prompt_retry_safe t : preserves safe (withPromptRetry t : M ()).
Proof.
  unfold withPromptRetry, withBackoff. generalize 0 as n. generalize (Z.to_nat PUBLISH_RETRIES) as k.
  intros k. induction k as [|k IH]; intros n; simpl.
  - apply preserves_try_catch; [typeclasses eauto|apply call_safe, handle_le|intros e; preserve].
  - apply preserves_try_catch; [typeclasses eauto|apply call_safe, handle_le|intros e].
    apply preserves_bind; [typeclasses eauto| |done].
    intros s Hs. apply world_accounted; [apply sleep_le|done].
Qed.

Lemma remove_accounted t s :
  on_chain (world s) (from_hex t) → accounted s →
  accounted (set_store (remove contractId t (store s)) s).
Proof.
  intros Ht Ha c Hc. destruct (Ha c Hc) as (? & ? & Hall). split_and!; [done..|]. simpl.
  intros i e t' Hi He Ht'. destruct (Hall i e t' Hi He Ht') as [Ho|Ho]; [|by right].
  destruct (decide (t' = t)) as [->|Hne]; [by right|left].
  unfold owed in *. simpl. rewrite map_get_delete_ne by congruence. done.
Qed.

Lemma sweep_row_safe row : preserves safe (sweep_row contractId row : M ()).
Proof.
  unfold sweep_row. apply preserves_try_catch; [typeclasses eauto| |].
  - apply preserves_bind; [typeclasses eauto|apply prompt_retry_safe|intros _].
    intros s Hs. unfold mbind, io_bind, call.
    pose proof (isPublished_le (from_hex (txid row)) (world s)) as Hle.
    destruct (w_isPublished _ (world s)) as [[[]|e] w] eqn:E; simpl in *.
    + apply (remove_accounted (txid row) (set_world w s));
        [by eapply isPublished_sound|by apply world_accounted].
    + by apply world_accounted.
    + by apply world_accounted.
  - intros e. unfold now. apply preserves_bind; [typeclasses eauto|preserve|intros t].
    apply (markFailed_safe (λ _, (txid row, first_line e, t))).
Qed.

Lemma sweep_rows_safe rows : preserves safe (sweep_rows contractId rows : M ()).
Proof.
  induction rows as [|row rows IH]; simpl; [preserve|].
  apply preserves_bind; [typeclasses eauto|apply sweep_row_safe|done].
Qed.

Lemma poll_safe : preserves safe (runPollCycle decodeEvent contractId deployLedger : M ()).
Proof.
  intros s Hs. unfold runPollCycle, gets, lift. unfold mbind at 1, io_bind at 1.
  unfold mbind at 1, io_bind at 1.
  set (rq := match present _ with Some c => _ | None => _ end).
  destruct rq as [q|e] eqn:Eq; [|done].
  unfold mbind at 1, io_bind at 1, call. pose proof (getEvents_le q (world s)) as Hle.
  destruct (w_getEvents q (world s)) as [[[evs c']|e] w] eqn:Eg; simpl in Hle; [|by apply world_accounted].
  pose proof (world_accounted w s Hle Hs) as Hs1. apply getEvents_slice in Eg as [Hpos Hevs].
  unfold now, gets, mbind, io_bind, record. cbn [fst snd]. rewrite recordBatch_eq.
  destruct (assertValidCursor c') as [u|] eqn:Ev; [|exact Hs1]. apply assertValidCursor_ok in Ev.
  intros c [= <-]. simpl. split; [by apply isValidCursor_nonempty|]. split; [done|].
  intros i e t Hi He Ht. unfold owed. simpl. rewrite insert_all_get. simpl.
  destruct (map_get (contractId, t) (pending_releases (store s))) eqn:Eo; [by left|].
  destruct (decide (contractId = contractId ∧ t ∈ repaid decodeEvent evs)) as [|Hno]; [by left|right].
  set (p := match q with from_cursor c0 => position c0 | from_ledger _ => 0%nat end) in *.
  destruct (decide (i < p)%nat) as [Hip|Hge].
  - unfold rq in Eq. destruct q as [c0|l]; simpl in p; [|lia].
    assert (Hc0 : watcher_cursor (store s) = Some c0).
    { unfold readCursor in Eq. destruct (watcher_cursor (store s)) as [c1|] eqn:Ecur.
      - unfold present in Eq. destruct (Hs c1 Ecur) as (Hne & _).
        rewrite bool_decide_eq_false_2 in Eq by done. by simplify_eq.
      - simpl in Eq. by destruct deployLedger. }
    destruct (Hs1 c0 Hc0) as (_ & _ & Hall). destruct (Hall i e t Hip He Ht) as [Ho|Ho]; [|done].
    unfold owed in Ho. simpl in Ho. rewrite Eo in Ho. by destruct Ho.
  - destruct Hno. split; [done|]. unfold repaid. apply list_elem_of_omap. exists e. split; [|done].
    rewrite Hevs. apply list_elem_of_lookup. exists (i - p)%nat.
    rewrite lookup_take_lt by lia. rewrite lookup_drop. by replace (p + (i - p))%nat with i by lia.
Qed.

Inductive watcher_step (s : watcher W) : watcher W → Prop :=
| watcher_round : watcher_step s (loop_round decodeEvent contractId deployLedger s).2
| watcher_world w : w_le (world s) w → watcher_step s (set_world w s).

Lemma watcher_step_accounted s s' : watcher_step s s' → accounted s → accounted s'.
Proof.
  intros [|w Hle] Hs; [|by apply world_accounted].
  assert (H1 : preserves safe ((runPollCycle decodeEvent contractId deployLedger;;
            runReleaseSweep contractId) : M ())).
  { apply preserves_bind; [typeclasses eauto|apply poll_safe|intros _]. unfold runReleaseSweep.
    apply preserves_bind; [typeclasses eauto|preserve|apply sweep_rows_safe]. }
  specialize (H1 s Hs). unfold loop_round.
  by destruct ((runPollCycle decodeEvent contractId deployLedger;; runReleaseSweep contractId) s) as [[[]|e] s2].
Qed.
End no_loss.

(** *** The sweep itself *)

Lemma releaseRetryDelayMs_bounds n :
  1 ≤ n → BASE_RETRY_DELAY_MS ≤ releaseRetryDelayMs n ≤ MAX_RETRY_DELAY_MS.
Proof.
  intros Hn. unfold releaseRetryDelayMs, BASE_RETRY_DELAY_MS, MAX_RETRY_DELAY_MS.
  pose proof (Z.pow_pos_nonneg 2 (Z.min (n - 1) 20)). lia.
Qed.

(** From the first failure to the last retry: 61410 s, about 17 hours. *)
Example release_attempts_span :
  sumZ (map releaseRetryDelayMs (zrange 1 (Z.to_nat (MAX_RELEASE_ATTEMPTS - 1)))) = 61410 * 1000.
Proof. vm_compute. reflexivity. Qed.

(** ** Properties *)

(** C3: no repayment is lost. Starting from an empty database, through any poll
    rounds, crashes between rounds, RPC failures, publish failures and growth
    of the chain, every [repay_full] event the stored cursor has passed is
    either still owed in the table or its release is on chain: the cursor
    never moves over an unrecorded repayment, and a row leaves only once the
    contract shows the release. *)
Theorem no_repayment_lost {W ev} `{WatcherLaws W ev} decodeEvent contractId deployLedger
    (w0 : W) (s : watcher W) c i e t :
  rtc (watcher_step decodeEvent contractId deployLedger)
      (mkWatcher (mkReleaseStore None []) w0) s →
  readCursor (store s) = Some c → (i < position c)%nat →
  chain_log (world s) !! i = Some e → repaid_txid decodeEvent e = Some t →
  owed contractId (store s) t ∨ on_chain (world s) (from_hex t).
Proof.
  intros Hsteps Hc Hi He Ht.
  assert (Ha : accounted decodeEvent contractId s).
  { assert (Hbase : accounted decodeEvent contractId (mkWatcher (mkReleaseStore None []) w0)) by done.
    induction Hsteps as [|s1 s2 s3 H12 _ IH]; [done|]. apply IH; [done..|].
    by eapply watcher_step_accounted. }
  destruct (Ha c Hc) as (_ & _ & Hall). by apply (Hall i e t).
Qed.

(** recording a batch is atomic and idempotent. With a well-formed cursor it
    stores that cursor and leaves each of the batch's releases owed, new ones
    due at once and those already in the table with their attempts and
    backoff as they were, and no other row changes; with a malformed cursor it
    fails and the database is as it was. *)
Theorem recordBatch_atomic contractId txids cursor now st :
  match recordBatch contractId txids cursor now st with
  | Ok st' => isValidCursor cursor = true ∧ readCursor st' = Some cursor ∧
      ∀ k, map_get k (pending_releases st') =
        match map_get k (pending_releases st) with
        | Some r => Some r
        | None => if decide (k.1 = contractId ∧ k.2 ∈ txids)
                  then Some {| first_seen_at := now; attempts := 0; next_attempt := now;
                               last_error := None |} else None
        end
  | Err _ => isValidCursor cursor = false
  end.
Proof.
  rewrite recordBatch_eq. destruct (assertValidCursor cursor) as [u|] eqn:E.
  - apply assertValidCursor_ok in E. split_and!; [done|done|]. intros k. apply insert_all_get.
  - unfold assertValidCursor, ensure in E. by destruct (isValidCursor cursor).
Qed.

(** ** A concrete chain: one repayment, published at once *)

Module Demo.
Definition tx : list byte := replicate 32 xab.
Definition cursor1 : string := default "" (cursorForLedger 100).

(** The world is the list of releases on chain. *)
#[global] Instance demo_env : WatcherEnv (list (list byte)) (list byte) := {|
  w_now w := 0;
  w_sleep _ w := w;
  w_getEvents q w :=
    (Ok (match q with from_cursor c => if bool_decide (c = "") then [tx] else [] | _ => [tx] end,
         cursor1), w);
  w_handle t w := (Ok (), t :: w);
  w_isPublished t w := (Ok (bool_decide (t ∈ w)), w);
|}.

Definition demo_position (c : string) : nat := if bool_decide (c = "") then 0 else 1.

#[global] Instance demo_laws : WatcherLaws (list (list byte)) (list byte).
Proof.
  refine {| chain_log _ := [tx]; on_chain w t := t ∈ w; position := demo_position |}; simpl.
  - intros d w. split; [reflexivity|done].
  - intros d w. split; [reflexivity|done].
  - intros t w. split; [reflexivity|set_solver].
  - intros d w. split; [reflexivity|done].
  - assert (P : demo_position cursor1 = 1%nat) by (vm_compute; reflexivity).
    intros [c0|l] w evs c w' [= <- <- <-]; rewrite P; (split; [simpl; lia|]); [|done].
    unfold demo_position. by case_bool_decide.
  - intros t w w' [= E <-]. by apply bool_decide_eq_true in E.
Defined.

Definition decode (e : list byte) : option string * option (list byte) :=
  (Some REPAY_FULL_TOPIC, Some e).
Definition start : watcher (list (list byte)) := mkWatcher (mkReleaseStore None []) [].
Definition after : watcher (list (list byte)) := (loop_round decode "C" (Some 100) start).2.
End Demo.

Lemma no_repayment_lost_witness :
  readCursor (store Demo.after) = Some Demo.cursor1 ∧
  (owed "C" (store Demo.after) (to_hex Demo.tx) ∨
   on_chain (world Demo.after) (from_hex (to_hex Demo.tx))).
Proof.
  assert (E : readCursor (store Demo.after) = Some Demo.cursor1) by (vm_compute; reflexivity).
  split; [exact E|].
  refine (no_repayment_lost Demo.decode "C" (Some 100) [] Demo.after Demo.cursor1 0 Demo.tx
            (to_hex Demo.tx) _ E _ _ _).
  - apply rtc_once, watcher_round.
  - vm_compute. lia.
  - reflexivity.
  - reflexivity.
Defined.
