(* ===== verification/Keys.v ===== *)
(** * Protocol keys ([bitcoin-script/src/keys.ts])

    The conversions between what AWS KMS returns and what Bitcoin uses, and
    the choice of signer. Key parsing (WIF), KMS calls and the P2WPKH address
    encoding are arguments. *)

From S2P Require Import Prelude JsData.

Definition SECP256K1_N : Z := 0xFFFFFFFFFFFFFFFFFFFFFFFFFFFFFFFEBAAEDCE6AF48A03BBFD25E8CD0364141.
Definition SECP256K1_N_HALF : Z := SECP256K1_N / 2.

Inductive key_error : Type :=
| BadSpki
| NotSequence
| NotInteger
| BigIntSyntax           (* [BigInt("0x")] on an empty INTEGER *)
| IntegerTooLarge
| NoPublicKey (keyId : string)
| NoSignature
| RawWifOnMainnet
| NoSigner
| NotCompressed
| NoAddress
| KmsFault (message : string)
| BadWif.

(** ** Public keys *)

Definition spkiToCompressedPubkey (spki : list byte) : result key_error (list byte) :=
  let point := subarray spki (zlen spki - 65) (zlen spki) in
  if negb (zlen point =? 65) || negb (bool_decide (at_ point 0 = Some x04)) then Err BadSpki else
  let x := subarray point 1 33 in
  let y := subarray point 33 65 in
  match at_ y (zlen y - 1) with
  | Some last =>
      let prefix := if Z.land (b2z last) 1 =? 0 then x02 else x03 in
      Ok (prefix :: x)
  | None => Err BadSpki
  end.

(** ** Signatures *)

(** [z.toString(16)]: lower-case digits without leading zeros. *)
Fixpoint strip_zeros (cs : list ascii) : list ascii :=
  match cs with
  | c :: cs' => if Ascii.eqb c "0" then strip_zeros cs' else cs
  | [] => []
  end.

Definition or_zero (ds : list ascii) : list ascii :=
  match ds with [] => ["0"%char] | _ => ds end.

Definition hex_of_Z (z : Z) : list ascii :=
  let a := Z.abs z in
  let ds := strip_zeros (hex_chars (be_bytes (S (Z.to_nat (Z.log2 a / 8))) a)) in
  (if z <? 0 then ["-"%char] else []) ++ or_zero ds.

Definition leftPad32 (buf : list byte) : result key_error (list byte) :=
  if zlen buf =? 32 then Ok buf
  else if 32 <? zlen buf then Err IntegerTooLarge
  else Ok (replicate (Z.to_nat (32 - zlen buf)) x00 ++ buf).

(** [readInteger]: the value, and where the next element starts ([None] when
    the length byte is missing and the sum is NaN). *)
Definition readInteger (buf : list byte) (offset : option Z) :
    result key_error (list byte * option Z) :=
  match (off ← offset; b ← at_ buf off; if bool_decide (b = x02) then Some off else None) with
  | None => Err NotInteger
  | Some off =>
      let start := off + 2 in
      match at_ buf (off + 1) with
      | None => Ok ([], None)
      | Some l =>
          let len := b2z l in
          let value := subarray buf start (start + len) in
          let value := if (32 <? zlen value) && bool_decide (at_ value 0 = Some x00)
                       then subarray value 1 (zlen value) else value in
          Ok (value, Some (start + len))
      end
  end.

Definition low_s (s : Z) : Z := if SECP256K1_N_HALF <? s then SECP256K1_N - s else s.

Definition derEcdsaSignatureToCompactLowS (der : list byte) : result key_error (list byte) :=
  if negb (bool_decide (at_ der 0 = Some x30)) then Err NotSequence else
  r ← readInteger der (Some 2);
  s ← readInteger der (snd r);
  sBig ← of_option (BigInt ("0x" +:+ to_hex (fst s))) BigIntSyntax;
  rPad ← leftPad32 (fst r);
  sPad ← leftPad32 (unhex_chars (padStart 64 "0"%char (hex_of_Z (low_s sBig))));
  mret (rPad ++ sPad).

(** ** Signers *)

Inductive Network : Type := bitcoin | testnet | regtest.

#[global] Instance Network_eq_dec : EqDecision Network.
Proof. solve_decision. Defined.

(** An ECPair, as far as the code looks at it. *)
Record ECPair : Type := { publicKey : list byte; compressed : bool }.

Record WritzKeyPair : Type := { kp_publicKey : list byte; kp_signer : ECPair; kp_network : Network }.

Record KmsSigner : Type := { kms_keyId : string; kms_publicKey : list byte; kms_network : option Network }.

Inductive ProtocolSigner : Type := kms_signer (s : KmsSigner) | wif_signer (p : ECPair).

Class KeyEnv : Type := {
  fromWIF : string → Network → option ECPair;
  fromPrivateKey : list byte → Network → option ECPair;
  p2wpkh_address : list byte → Network → option string;
  kms_getPublicKey : string → result string (option (list byte));
  kms_sign : string → list byte → result string (option (list byte));
}.

Record ProtocolSignerOptions : Type := {
  kmsKeyId : option string;
  envPrivateKeyWif : option string;
  network : Network;
}.

Section signers.
Context `{KeyEnv}.

Definition keyPairFromPrivkey (privkeyBuf : list byte) (n : Network) :
    result key_error WritzKeyPair :=
  pair ← of_option (fromPrivateKey privkeyBuf n) BadWif;
  mret {| kp_publicKey := publicKey pair; kp_signer := pair; kp_network := n |}.

Definition keyPairFromWif (wif : string) (n : Network) : result key_error WritzKeyPair :=
  pair ← of_option (fromWIF (trim wif) n) BadWif;
  if negb (compressed pair) then Err NotCompressed else
  mret {| kp_publicKey := publicKey pair; kp_signer := pair; kp_network := n |}.

Definition pubkeyToP2WPKHAddress (pubkey : list byte) (n : Network) : result key_error string :=
  of_option (present (p2wpkh_address pubkey n)) NoAddress.

Definition kms_answer {A} (r : result string (option A)) (missing : key_error) : result key_error A :=
  match r with
  | Ok (Some a) => Ok a
  | Ok None => Err missing
  | Err m => Err (KmsFault m)
  end.

Definition KmsSigner_create (keyId : string) (n : option Network) : result key_error KmsSigner :=
  spki ← kms_answer (kms_getPublicKey keyId) (NoPublicKey keyId);
  key ← spkiToCompressedPubkey spki;
  mret {| kms_keyId := keyId; kms_publicKey := key; kms_network := n |}.

Definition KmsSigner_sign (s : KmsSigner) (hash : list byte) : result key_error (list byte) :=
  sig ← kms_answer (kms_sign (kms_keyId s) hash) NoSignature;
  derEcdsaSignatureToCompactLowS sig.

Definition resolveProtocolSigner (opts : ProtocolSignerOptions) : result key_error ProtocolSigner :=
  match present (kmsKeyId opts) with
  | Some keyId => kms_signer <$> KmsSigner_create keyId (Some (network opts))
  | None =>
      match present (envPrivateKeyWif opts) with
      | Some wif =>
          if bool_decide (network opts = bitcoin) then Err RawWifOnMainnet
          else wif_signer <$> of_option (fromWIF wif (network opts)) BadWif
      | None => Err NoSigner
      end
  end.
End signers.

(** ** Specification: a DER signature *)

(** A number's minimal DER content: enough bytes for its bits and a sign bit. *)
Definition der_bytes (z : Z) : list byte := be_bytes (S (Z.to_nat ((Z.log2 z + 1) / 8))) z.

Definition der_integer (z : Z) : list byte :=
  x02 :: z2b (zlen (der_bytes z)) :: der_bytes z.

Definition der_signature (r s : Z) : list byte :=
  x30 :: z2b (zlen (der_integer r ++ der_integer s)) :: der_integer r ++ der_integer s.

(** ** Lemmas *)

Lemma strip_zeros_pad cs n :
  (length cs ≤ n)%nat → (0 < n)%nat →
  padStart n "0"%char (or_zero (strip_zeros cs)) =
  padStart n "0"%char cs.
Proof.
  unfold padStart. revert n. induction cs as [|c cs IH]; intros n Hl Hn; simpl.
  - destruct n as [|n]; [lia|]. simpl. rewrite Nat.sub_0_r, app_nil_r.
    by rewrite <- replicate_S_end.
  - destruct (Ascii.eqb c "0") eqn:E; [|done]. apply Ascii.eqb_eq in E as ->.
    simpl in Hl. rewrite IH by lia. 
    replace (n - length cs)%nat with (S (n - S (length cs)))%nat by lia.
    by rewrite replicate_S_end, <- app_assoc.
Qed.

Lemma be_bytes_extend k n z :
  (k ≤ n)%nat → 0 ≤ z < 256 ^ Z.of_nat k →
  be_bytes n z = replicate (n - k) x00 ++ be_bytes k z.
Proof.
  intros Hk Hz. assert (E : be_val (replicate (n - k) x00 ++ be_bytes k z) = z).
  { generalize (n - k)%nat as m. induction m as [|m IH]; simpl.
    - by rewrite be_val_bytes, Z.mod_small.
    - rewrite be_val_cons, IH. done. }
  rewrite <- E at 1.
  replace n with (length (replicate (n - k) x00 ++ be_bytes k z)) at 1; [apply be_bytes_val|].
  rewrite length_app, length_replicate, be_bytes_length. lia.
Qed.

Lemma hex_chars_zero m : hex_chars (replicate m x00) = replicate (2 * m) "0"%char.
Proof.
  induction m as [|m IH]; [done|]. replace (2 * S m)%nat with (S (S (2 * m))) by lia.
  cbn [replicate hex_chars]. by rewrite IH.
Qed.

Lemma unhex_hex bs : unhex_chars (hex_chars bs) = bs.
Proof. pose proof (unhex_hex_chars bs []) as H. rewrite !app_nil_r in H. exact H. Qed.

(** The 64-digit hex of a 256-bit number is its 32 bytes. *)
Lemma hex_of_Z_bytes z :
  0 ≤ z < 256 ^ 32 → unhex_chars (padStart 64 "0"%char (hex_of_Z z)) = be_bytes 32 z.
Proof.
  intros Hz. unfold hex_of_Z. rewrite (proj2 (Z.ltb_ge z 0)), Z.abs_eq by lia. simpl app.
  set (k := S (Z.to_nat (Z.log2 z / 8))).
  assert (Hlog : 0 ≤ Z.log2 z < 256).
  { split; [apply Z.log2_nonneg|]. destruct (decide (z = 0)) as [->|]; [done|].
    apply Z.log2_lt_pow2; [lia|]. replace (2 ^ 256) with (256 ^ 32) by reflexivity. lia. }
  assert (Hk : (k ≤ 32)%nat).
  { unfold k. pose proof (Z.div_lt_upper_bound (Z.log2 z) 8 32). lia. }
  assert (Hzk : 0 ≤ z < 256 ^ Z.of_nat k).
  { split; [lia|]. destruct (decide (z = 0)) as [->|]; [apply Z.pow_pos_nonneg; lia|].
    replace (256 ^ Z.of_nat k) with (2 ^ (8 * Z.of_nat k)) by (rewrite Z.pow_mul_r by lia; done).
    apply Z.log2_lt_pow2; [lia|]. unfold k.
    pose proof (Z.div_mod (Z.log2 z) 8). pose proof (Z.mod_pos_bound (Z.log2 z) 8).
    pose proof (Z.div_pos (Z.log2 z) 8). lia. }
  rewrite strip_zeros_pad.
  - unfold padStart. rewrite hex_chars_length, be_bytes_length.
    rewrite (be_bytes_extend k 32) by done.
    rewrite <- (unhex_hex (replicate (32 - k) x00 ++ be_bytes k z)). f_equal.
    rewrite hex_chars_app, hex_chars_zero. f_equal. f_equal. lia.
  - rewrite hex_chars_length, be_bytes_length. lia.
  - lia.
Qed.

(** The content octets are the number, and fit in 33 bytes with a leading
    zero when there are 33. *)
Lemma der_bytes_spec z :
  0 ≤ z < 256 ^ 32 →
  1 ≤ zlen (der_bytes z) ≤ 33 ∧ be_val (der_bytes z) = z.
Proof.
  intros Hz. unfold der_bytes. rewrite be_val_bytes. unfold zlen. rewrite be_bytes_length.
  pose proof (Z.log2_nonneg z) as H0.
  assert (Hlog : Z.log2 z < 256).
  { destruct (decide (z = 0)) as [->|]; [done|]. apply Z.log2_lt_pow2; [lia|].
    replace (2 ^ 256) with (256 ^ 32) by reflexivity. lia. }
  pose proof (Z.div_lt_upper_bound (Z.log2 z + 1) 8 33). pose proof (Z.div_pos (Z.log2 z + 1) 8).
  split; [lia|]. apply Z.mod_small. split; [lia|].
  destruct (decide (z = 0)) as [->|]; [apply Z.pow_pos_nonneg; lia|].
  replace (256 ^ _) with (2 ^ (8 * Z.of_nat (S (Z.to_nat ((Z.log2 z + 1) / 8)))))
    by (rewrite Z.pow_mul_r by lia; done).
  apply Z.log2_lt_pow2; [lia|].
  pose proof (Z.div_mod (Z.log2 z + 1) 8). pose proof (Z.mod_pos_bound (Z.log2 z + 1) 8). lia.
Qed.

(** What [readInteger] hands on: no padding zero when that leaves 32 bytes. *)
Lemma unpadded_spec bs :
  zlen bs ≤ 33 → be_val bs < 256 ^ 32 →
  let v := if (32 <? zlen bs) && bool_decide (at_ bs 0 = Some x00)
           then subarray bs 1 (zlen bs) else bs in
  zlen v ≤ 32 ∧ be_val v = be_val bs ∧ (bs ≠ [] → v ≠ []).
Proof.
  intros Hl Hv v. subst v. destruct bs as [|b bs]; [by vm_compute|].
  rewrite zlen_cons in *. destruct (32 <? 1 + zlen bs) eqn:E; bools; simpl; [|rewrite zlen_cons, be_val_cons; split_and!; [lia|done|done]].
  rewrite be_val_cons in *. assert (Hlen : zlen bs = 32) by lia. rewrite Hlen in Hv |- *.
  pose proof (be_val_range bs). pose proof (b2z_range b).
  assert (b2z b = 0) by lia. assert (b = x00) as -> by (by apply b2z_inj).
  rewrite bool_decide_eq_true_2 by done.
  pose proof (subarray_app [x00] bs [] (1 + 32)) as Hs. rewrite app_nil_r in Hs.
  change (zlen [x00]) with 1 in Hs. simpl app in Hs. rewrite Hs by lia.
  split_and!; [lia|change (b2z x00) with 0; lia|]. intros _ ->. done.
Qed.

Lemma readInteger_der buf off z :
  holds_at buf off (der_integer z) → 0 ≤ z < 256 ^ 32 →
  ∃ v, readInteger buf (Some off) = Ok (v, Some (off + zlen (der_integer z)))
     ∧ zlen v ≤ 32 ∧ be_val v = z ∧ v ≠ [].
Proof.
  intros H Hz. destruct (der_bytes_spec z Hz) as [Hlen Hval].
  unfold der_integer in *. rewrite !zlen_cons.
  apply holds_at_cons in H as [H2 H]. apply holds_at_cons in H as [Hl H].
  apply at_holds in H2, Hl. unfold readInteger. simpl. rewrite H2. simpl.
  rewrite Hl, b2z_z2b, Z.mod_small by lia.
  replace (off + 1 + 1) with (off + 2) in H by lia.
  rewrite (subarray_holds _ _ _ _ H) by done.
  destruct (unpadded_spec (der_bytes z)) as (Hv1 & Hv2 & Hv3); [lia|lia|].
  eexists. split; [do 3 f_equal; lia|]. split_and!; [done|lia|].
  apply Hv3. intros E. rewrite E in Hlen. unfold zlen in Hlen. simpl in Hlen. lia.
Qed.

Lemma leftPad32_bytes v : zlen v ≤ 32 → leftPad32 v = Ok (be_bytes 32 (be_val v)).
Proof.
  intros Hl. unfold leftPad32. pose proof (be_val_range v) as Hv.
  rewrite (be_bytes_extend (length v) 32) by (unfold zlen in *; lia).
  rewrite be_bytes_val. destruct (zlen v =? 32) eqn:E; bools.
  - replace (32 - length v)%nat with 0%nat by (unfold zlen in *; lia). done.
  - rewrite (proj2 (Z.ltb_ge 32 (zlen v))) by lia.
    replace (Z.to_nat (32 - zlen v)) with (32 - length v)%nat by (unfold zlen in *; lia). done.
Qed.

Lemma low_s_bounds s :
  0 < s < SECP256K1_N → 0 < low_s s ≤ SECP256K1_N_HALF ∧ (low_s s = s ∨ low_s s = SECP256K1_N - s).
Proof.
  assert (SECP256K1_N = 2 * SECP256K1_N_HALF + 1) by reflexivity.
  unfold low_s. intros Hs. destruct (SECP256K1_N_HALF <? s) eqn:E; bools; lia.
Qed.

(** ** Properties *)

(** whatever signature KMS returns as the DER encoding of a pair (r, s)
    of scalars, the signer turns it into the 64 bytes [r || s'] where [s'] is
    [s] or its negation modulo the curve order, whichever is at most half the
    order (the low-S rule); trailing bytes after the encoding do not matter. *)
Theorem der_signature_to_low_s (r s : Z) (rest : list byte)
    (Hr : 0 ≤ r < SECP256K1_N) (Hs : 0 < s < SECP256K1_N) :
  ∃ s', derEcdsaSignatureToCompactLowS (der_signature r s ++ rest)
        = Ok (be_bytes 32 r ++ be_bytes 32 s')
      ∧ 0 < s' ≤ SECP256K1_N_HALF
      ∧ (s' = s ∨ s' = SECP256K1_N - s).
Proof.
  assert (HN : SECP256K1_N < 256 ^ 32) by reflexivity.
  destruct (low_s_bounds s Hs) as [Hlow Hor]. exists (low_s s). split; [|done].
  pose proof (holds_at_start (der_signature r s) rest) as H.
  set (buf := der_signature r s ++ rest) in *. unfold der_signature in H.
  apply holds_at_cons in H as [H0 H]. apply holds_at_cons in H as [_ H].
  apply holds_at_app in H as [H1 H2]. apply at_holds in H0.
  unfold derEcdsaSignatureToCompactLowS. rewrite H0, bool_decide_eq_true_2 by done. simpl negb. cbv iota.
  destruct (readInteger_der buf 2 r) as (v & -> & Hv & Hvr & _); [exact H1|lia|]. cbn [mbind result_bind snd fst].
  destruct (readInteger_der buf (2 + zlen (der_integer r)) s) as (w & -> & Hw & Hws & Hne); [exact H2|lia|].
  cbn [mbind result_bind snd fst]. rewrite BigInt_hex by done. simpl of_option. cbn [mbind result_bind].
  rewrite (leftPad32_bytes v Hv). cbn [mbind result_bind].
  assert (Hl : 0 ≤ low_s s < 256 ^ 32).
  { assert (SECP256K1_N_HALF < SECP256K1_N) by reflexivity. lia. }
  rewrite Hws, (hex_of_Z_bytes _ Hl).
  rewrite (leftPad32_bytes (be_bytes 32 _)) by (unfold zlen; rewrite be_bytes_length; done). cbn [mbind result_bind].
  by rewrite Hvr, be_val_bytes, Z.mod_small.
Qed.

Lemma der_signature_to_low_s_witness :
  ∃ s', derEcdsaSignatureToCompactLowS (der_signature 5 (SECP256K1_N - 1) ++ [])
        = Ok (be_bytes 32 5 ++ be_bytes 32 s')
      ∧ 0 < s' ≤ SECP256K1_N_HALF
      ∧ (s' = SECP256K1_N - 1 ∨ s' = SECP256K1_N - (SECP256K1_N - 1)).
Proof. apply (der_signature_to_low_s 5 (SECP256K1_N - 1) []); vm_compute; split; congruence. Defined.

Lemma subarray_length {A} (l : list A) i j :
  0 ≤ i ≤ j → j ≤ zlen l → zlen (subarray l i j) = j - i.
Proof.
  intros Hi Hj. unfold subarray, clamp_index.
  rewrite !(proj2 (Z.ltb_ge _ 0)), !Z.min_l by lia.
  unfold zlen in *. rewrite length_take, length_drop. lia.
Qed.

Lemma spki_key_length spki key : spkiToCompressedPubkey spki = Ok key → zlen key = 33.
Proof.
  unfold spkiToCompressedPubkey. set (p := subarray spki _ _).
  destruct (negb (zlen p =? 65) || _) eqn:E; [done|]. bools. cbv zeta.
  intros Hk. split_in Hk. rewrite zlen_cons, subarray_length by lia. lia.
Qed.

Lemma spki_error spki e : spkiToCompressedPubkey spki = Err e → e = BadSpki.
Proof.
  unfold spkiToCompressedPubkey. destruct (_ || _); [congruence|].
  destruct (at_ _ _); congruence.
Qed.

(** Custody of the protocol key. A configured KMS key is always used, and
    the signer then carries that key's id and a 33-byte public key. A raw WIF
    key is only ever used when no KMS key is configured and the network is
    not mainnet; on mainnet it is refused whatever it contains, and with
    neither configured there is no signer at all. *)
Theorem resolveProtocolSigner_custody `{KeyEnv} (opts : ProtocolSignerOptions) :
  match resolveProtocolSigner opts with
  | Ok (kms_signer k) =>
      present (kmsKeyId opts) = Some (kms_keyId k) ∧ zlen (kms_publicKey k) = 33
      ∧ kms_network k = Some (network opts)
  | Ok (wif_signer kp) =>
      present (kmsKeyId opts) = None ∧ network opts ≠ bitcoin
      ∧ ∃ wif, present (envPrivateKeyWif opts) = Some wif ∧ fromWIF wif (network opts) = Some kp
  | Err RawWifOnMainnet =>
      present (kmsKeyId opts) = None ∧ network opts = bitcoin
      ∧ present (envPrivateKeyWif opts) ≠ None
  | Err NoSigner => present (kmsKeyId opts) = None ∧ present (envPrivateKeyWif opts) = None
  | Err BadWif =>
      present (kmsKeyId opts) = None ∧ network opts ≠ bitcoin
      ∧ ∃ wif, present (envPrivateKeyWif opts) = Some wif ∧ fromWIF wif (network opts) = None
  | Err _ => present (kmsKeyId opts) ≠ None
  end.
Proof.
  unfold resolveProtocolSigner, KmsSigner_create, kms_answer.
  destruct (present (kmsKeyId opts)) as [id|]; simpl.
  - destruct (kms_getPublicKey id) as [[spki|]|m]; simpl; [|done|done].
    destruct (spkiToCompressedPubkey spki) as [key|e] eqn:E; simpl.
    + split_and!; [done|by eapply spki_key_length|done].
    + by rewrite (spki_error _ _ E).
  - destruct (present (envPrivateKeyWif opts)) as [wif|]; simpl; [|done].
    case_bool_decide; simpl; [done|].
    destruct (fromWIF wif (network opts)) eqn:E; simpl; eauto.
Qed.
