(* ===== verification/Payment.v ===== *)
(** * Single-key payments ([bitcoin-script/src/payment.ts])

    The faucet's transaction builder: coin selection in the order given, the
    fee at a fractional rate, change or dust. The rate is an IEEE double, and
    its product with a size is computed as the machine computes it, with the
    binary64 operations of [SpecFloat]; amounts are integers. Address parsing,
    script derivation and the PSBT signer are arguments. *)

From Stdlib Require Import Floats.SpecFloat.
From S2P Require Import Prelude JsData Keys.

(** ** Numbers *)

Definition double : Type := spec_float.
Definition of_int (z : Z) : double := binary_normalize 53 1024 z 0 false.
Definition times (x y : double) : double := SFmul 53 1024 x y.
Definition is_positive (x : double) : bool := SFltb (S754_zero false) x.

(** [Math.ceil] of a number that is not NaN: [None] is an infinity. *)
Definition ceil_double (x : double) : option Z :=
  match x with
  | S754_zero _ => Some 0
  | S754_finite s m e =>
      let a := if s then Z.neg m else Z.pos m in
      Some (if 0 <=? e then a * 2 ^ e else ceil_div a (2 ^ (- e)))
  | _ => None
  end.

(** ** Data *)

Definition P2WPKH_DUST_LIMIT_SAT : Z := 294.
Definition TX_OVERHEAD_VB : Z := 11.
Definition P2WPKH_INPUT_VB : Z := 68.

Record P2wpkhUtxo : Type := { txid : string; vout : Z; value : Z }.

Record P2wpkhPaymentParams : Type := {
  utxos : list P2wpkhUtxo;
  to : string;
  amountSat : Z;
  feeRate : double;
  signer : ECPair;
  network : Network;
}.

Record P2wpkhPayment : Type := {
  txHex : string;
  pay_txid : string;
  feeSat : Z;
  changeSat : Z;
  vsize : Z;
  inputs : list P2wpkhUtxo;
}.

Inductive payment_error : Type :=
| BadAmount
| BadFeeRate
| BadAddress
| NoPayerScript
| InsufficientFunds (availableSat : Z) (requiredSat : option Z)   (* [None]: Infinity *)
| SigningFailed (message : string).

Record spend_input : Type := {
  si_hash : string;
  si_index : Z;
  si_script : list byte;
  si_value : Z;
}.

(** What the code uses of bitcoinjs-lib: [p2wpkh] is the script of a key on a
    network and [sign] is the signed, finalized transaction of some inputs and
    outputs: its hex, its id and its virtual size. *)
Class PaymentLib : Type := {
  toOutputScript : string → Network → option (list byte);
  p2wpkh : list byte → Network → option (list byte);
  sign : Network → ECPair → list spend_input → list (list byte * Z) →
         result string (string * string * Z);
}.

(** ** Sizes and fees *)

Definition outputVbytes (script : list byte) : Z := 8 + 1 + zlen script.

Definition estimateP2wpkhVsize (inputs : Z) (outputScripts : list (list byte)) : Z :=
  TX_OVERHEAD_VB + inputs * P2WPKH_INPUT_VB + sumZ (map outputVbytes outputScripts).

Definition feeFor (rate : double) (inputs : Z) (outputScripts : list (list byte)) : option Z :=
  ceil_double (times (of_int (estimateP2wpkhVsize inputs outputScripts)) rate).

Definition total_value (us : list P2wpkhUtxo) : Z := sumZ (map value us).

(** ** Selection *)

(** The fee and the change that the selected inputs [sel] allow, if they cover
    the payment: with change first, then without. *)
Definition covered (amount : Z) (rate : double) (recipientScript changeScript : list byte)
    (sel : list P2wpkhUtxo) : option (Z * Z) :=
  let total := total_value sel in
  let with_change :=
    feeWithChange ← feeFor rate (zlen sel) [recipientScript; changeScript];
    let change := total - amount - feeWithChange in
    if P2WPKH_DUST_LIMIT_SAT <=? change then Some (feeWithChange, change) else None in
  match with_change with
  | Some r => Some r
  | None =>
      feeNoChange ← feeFor rate (zlen sel) [recipientScript];
      if feeNoChange <=? total - amount then Some (total - amount, 0) else None
  end.

Fixpoint select (amount : Z) (rate : double) (recipientScript changeScript : list byte)
    (selected us : list P2wpkhUtxo) : option (list P2wpkhUtxo * (Z * Z)) :=
  match us with
  | [] => None
  | utxo :: us =>
      let selected := selected ++ [utxo] in
      match covered amount rate recipientScript changeScript selected with
      | Some r => Some (selected, r)
      | None => select amount rate recipientScript changeScript selected us
      end
  end.

(** [Number.isSafeInteger(a) && a > 0] *)
Definition is_amount (a : Z) : bool := (0 <? a) && (a <? 2 ^ 53).

Section payment.
Context `{PaymentLib}.

Definition addressToOutputScript (address : string) (n : Network) : result payment_error (list byte) :=
  of_option (toOutputScript address n) BadAddress.

Definition psbt_input (changeScript : list byte) (u : P2wpkhUtxo) : spend_input :=
  {| si_hash := txid u; si_index := vout u; si_script := changeScript; si_value := value u |}.

Definition psbt_outputs (recipientScript changeScript : list byte) (amount change : Z) :
    list (list byte * Z) :=
  (recipientScript, amount) :: (if 0 <? change then [(changeScript, change)] else []).

Definition buildP2wpkhPayment (params : P2wpkhPaymentParams) : result payment_error P2wpkhPayment :=
  let amount := amountSat params in
  let rate := feeRate params in
  if negb (is_amount amount) then Err BadAmount else
  if negb (is_positive rate) then Err BadFeeRate else
  recipientScript ← addressToOutputScript (to params) (network params);
  changeScript ← of_option (p2wpkh (publicKey (signer params)) (network params)) NoPayerScript;
  match select amount rate recipientScript changeScript [] (utxos params) with
  | None =>
      let minFee := feeFor rate (Z.max 1 (zlen (utxos params))) [recipientScript] in
      Err (InsufficientFunds (total_value (utxos params)) (Z.add amount <$> minFee))
  | Some (selected, (fee, change)) =>
      match sign (network params) (signer params) (map (psbt_input changeScript) selected)
              (psbt_outputs recipientScript changeScript amount change) with
      | Err m => Err (SigningFailed m)
      | Ok (hex, id, size) =>
          Ok {| txHex := hex; pay_txid := id; feeSat := fee; changeSat := change;
                vsize := size; inputs := selected |}
      end
  end.
End payment.

(** ** Lemmas *)

Lemma total_value_app l1 l2 : total_value (l1 ++ l2) = total_value l1 + total_value l2.
Proof. unfold total_value. by rewrite map_app, sumZ_app. Qed.

(** What a covering selection pays. *)
Definition balanced (amount : Z) (rate : double) (rs cs : list byte) (sel : list P2wpkhUtxo)
    (fee change : Z) : Prop :=
  total_value sel = amount + fee + change ∧
  ((P2WPKH_DUST_LIMIT_SAT ≤ change ∧ feeFor rate (zlen sel) [rs; cs] = Some fee) ∨
   (change = 0 ∧ (∃ f, feeFor rate (zlen sel) [rs] = Some f ∧ f ≤ fee) ∧
    ∀ f, feeFor rate (zlen sel) [rs; cs] = Some f → fee < f + P2WPKH_DUST_LIMIT_SAT)).

Lemma covered_balanced amount rate rs cs sel fee change :
  covered amount rate rs cs sel = Some (fee, change) → balanced amount rate rs cs sel fee change.
Proof.
  unfold covered, balanced. destruct (feeFor rate (zlen sel) [rs; cs]) as [f|]; simpl.
  - destruct (_ <=? _) eqn:E; bools; simpl.
    + intros [= <- <-]. split; [lia|]. left. split; [lia|done].
    + destruct (feeFor rate (zlen sel) [rs]) as [g|]; simpl; [|done].
      destruct (g <=? _) eqn:E'; bools; [|done]. intros [= <- <-]. split; [lia|]. right.
      split_and!; [done|by exists g|]. intros ? [= <-]. lia.
  - destruct (feeFor rate (zlen sel) [rs]) as [g|]; simpl; [|done].
    destruct (g <=? _) eqn:E'; bools; [|done]. intros [= <- <-]. split; [lia|]. right.
    split_and!; [done|by exists g|done].
Qed.

(** The selection is the first covering prefix. *)
Lemma select_first amount rate rs cs selected us :
  match select amount rate rs cs selected us with
  | Some (sel, (fee, change)) =>
      ∃ n, (0 < n ≤ length us)%nat ∧ sel = selected ++ take n us
         ∧ covered amount rate rs cs sel = Some (fee, change)
         ∧ ∀ k, (0 < k < n)%nat → covered amount rate rs cs (selected ++ take k us) = None
  | None => ∀ k, (0 < k ≤ length us)%nat → covered amount rate rs cs (selected ++ take k us) = None
  end.
Proof.
  revert selected. induction us as [|u us IH]; intros selected; cbn [select].
  - simpl. intros k Hk. lia.
  - destruct (covered amount rate rs cs (selected ++ [u])) as [[fee change]|] eqn:E.
    + exists 1%nat. cbn [length take]. split_and!; [lia|lia|by rewrite take_0|done|lia].
    + specialize (IH (selected ++ [u])).
      assert (Hstep : ∀ k, (0 < k)%nat → selected ++ take k (u :: us)
                       = (selected ++ [u]) ++ take (k - 1) us).
      { intros [|k] ?; [lia|]. cbn [take]. rewrite <- app_assoc. simpl. do 3 f_equal. lia. }
      destruct (select _ _ _ _ (selected ++ [u]) us) as [[sel [fee change]]|].
      * destruct IH as (n & Hn & -> & Hc & Hmin). exists (S n).
        split_and!; [lia|simpl; lia| |done|].
        { rewrite (Hstep (S n)) by lia. do 3 f_equal. lia. }
        intros k Hk. rewrite Hstep by lia. destruct (decide (k = 1)%nat) as [->|].
        { simpl. by rewrite take_0, app_nil_r. }
        apply Hmin. lia.
      * intros k Hk. simpl in Hk. rewrite Hstep by lia. destruct (decide (k = 1)%nat) as [->|].
        { simpl. by rewrite take_0, app_nil_r. }
        apply IH. lia.
Qed.

Lemma build_inputs `{PaymentLib} p pay :
  buildP2wpkhPayment p = Ok pay → ∀ u, u ∈ inputs pay → u ∈ utxos p.
Proof.
  unfold buildP2wpkhPayment, addressToOutputScript. intros Hb u Hu.
  destruct (negb _); [done|]. destruct (negb _); [done|].
  destruct (toOutputScript _ _) as [rs|]; simpl in Hb; [|done].
  destruct (p2wpkh _ _) as [cs|]; simpl in Hb; [|done].
  pose proof (select_first (amountSat p) (feeRate p) rs cs [] (utxos p)) as Hs.
  destruct (select _ _ rs cs [] (utxos p)) as [[sel [fee change]]|]; [|done].
  destruct Hs as (n & _ & -> & _). destruct (sign _ _ _ _) as [[[hex id] size]|]; [|done].
  injection Hb as <-. simpl in Hu. by eapply elem_of_take in Hu as (i & Hi & _); eapply list_elem_of_lookup_2.
Qed.

(** ** Property *)


(** At 1.5 sat/vbyte, two inputs cover 150000 sats with change. *)
Definition demo_rate : double := S754_finite false 6755399441055744 (-52).

Example demo_fee :
  (feeFor demo_rate 1 [replicate 22 x00; replicate 22 x00], feeFor demo_rate 3 [replicate 22 x00])
  = (Some 212, Some 369).
Proof. vm_compute. reflexivity. Qed.
