(* ===== verification/RedeemScript.v ===== *)
(** * The locking script ([bitcoin-script/src/script.ts], [address.ts])

    [buildRedeemScript] as the list of items it hands to bitcoinjs-lib's
    [script.compile], the timelock arithmetic and the deposit address. The
    compiler, the number encoder, SHA-256 and the P2WSH payment are arguments;
    the laws say the first two do what bitcoinjs-lib documents.

    What the script means is stated against a reference interpreter of the
    opcodes it uses ([exec], after Bitcoin's consensus rules): it accepts a
    witness stack exactly when one of the two branches is satisfied. *)

From S2P Require Import Prelude JsData Keys Spend.

(** ** The code *)

Inductive opcode : Type :=
| OP_IF | OP_ELSE | OP_ENDIF | OP_DROP
| OP_CHECKSIG | OP_CHECKSIGVERIFY | OP_CHECKLOCKTIMEVERIFY.

(** An element of a script: an opcode number or a Buffer to push. *)
Inductive item : Type := Op (o : opcode) | Push (data : list byte).

Inductive script_error : Type :=
| BadProtocolPubkey
| BadUserPubkey
| TimelockTooLow
| BadScript
| NoP2wsh.

Record DepositAddress : Type := {
  address : string;
  scriptPubKey : list byte;
  redeemScript : list byte;
}.

Record LockingParams : Type := {
  protocolPubkey : list byte;
  userPubkey : list byte;
  timelockHeight : Z;
}.

Class ScriptLib : Type := {
  compile : list item → list byte;
  decompile : list byte → option (list item);
  number_encode : Z → list byte;
  sha256 : list byte → list byte;
  (** the address and the output script of a P2WSH payment *)
  p2wsh : list byte → Network → option string * option (list byte);
}.

Definition MIN_TIMELOCK_HEIGHT : Z := 100000.
Definition MAX_TIMELOCK_OFFSET : Z := 105000.

Section code.
Context `{ScriptLib}.

Definition script_items (protocolPubkey userPubkey : list byte) (timelockHeight : Z) : list item :=
  [ Op OP_IF;
      Push protocolPubkey; Op OP_CHECKSIGVERIFY;
      Push userPubkey; Op OP_CHECKSIG;
    Op OP_ELSE;
      Push (number_encode timelockHeight); Op OP_CHECKLOCKTIMEVERIFY; Op OP_DROP;
      Push userPubkey; Op OP_CHECKSIG;
    Op OP_ENDIF ].

Definition buildRedeemScript (protocolPubkey userPubkey : list byte) (timelockHeight : Z) :
    result script_error (list byte) :=
  if negb (zlen protocolPubkey =? 33) then Err BadProtocolPubkey
  else if negb (zlen userPubkey =? 33) then Err BadUserPubkey
  else if timelockHeight <? MIN_TIMELOCK_HEIGHT then Err TimelockTooLow
  else Ok (compile (script_items protocolPubkey userPubkey timelockHeight)).

Definition decompileRedeemScript (script : list byte) : result script_error (list item) :=
  of_option (decompile script) BadScript.

Definition deriveDepositAddress (params : LockingParams) (network : Network) :
    result script_error DepositAddress :=
  script ← buildRedeemScript (protocolPubkey params) (userPubkey params) (timelockHeight params);
  match p2wsh script network with
  | (Some addr, Some output) =>
      if truthy (Some addr)
      then Ok {| address := addr; scriptPubKey := output; redeemScript := script |}
      else Err NoP2wsh
  | _ => Err NoP2wsh
  end.

Definition redeemScriptHash (script : list byte) : list byte := sha256 script.
End code.

(** [safetyBufferBlocks = 1_008] when the argument is left out. *)
Definition computeTimelock (depositBlockHeight loanDurationBlocks : Z) (safetyBufferBlocks : option Z) : Z :=
  depositBlockHeight + loanDurationBlocks + default 1008 safetyBufferBlocks.

(** ** Reference: script numbers and the interpreter *)

(** The minimal little-endian encoding of a positive number, with room for a
    sign bit. *)
Definition scriptnum_bytes (n : Z) : list byte := rev (der_bytes n).

Definition scriptnum (bs : list byte) : Z :=
  match last bs with
  | Some b => if b2z b <? 128 then le_val bs else - (le_val bs - 128 * 256 ^ (zlen bs - 1))
  | None => 0
  end.

(** The conversion of a stack element to a boolean. *)
Definition cast_to_bool (bs : list byte) : bool :=
  negb (forallb (λ b, bool_decide (b = x00)) bs ||
        match rev bs with
        | x80 :: zs => forallb (λ b, bool_decide (b = x00)) zs
        | _ => false
        end).

(** The fields of the spending transaction the script looks at. *)
Record spending : Type := { nLockTime : Z; nSequence : Z }.

Definition LOCKTIME_THRESHOLD : Z := 500000000.

(** The CHECKLOCKTIMEVERIFY condition. *)
Definition cltv (tx : spending) (n : Z) : bool :=
  (0 <=? n) && bool_decide ((n < LOCKTIME_THRESHOLD) ↔ (nLockTime tx < LOCKTIME_THRESHOLD)) &&
  (n <=? nLockTime tx) && negb (nSequence tx =? 0xffffffff).

Section interpreter.
(** Whether a signature is valid for a key on the spending transaction. *)
Variable checksig : list byte → list byte → bool.
Variable tx : spending.

Definition of_bool (b : bool) : list byte := if b then [x01] else [].

(** One opcode on the stack, top first, in an executed branch. *)
Definition exec_op (o : opcode) (stack : list (list byte)) : option (list (list byte)) :=
  match o, stack with
  | OP_DROP, _ :: st => Some st
  | OP_CHECKSIG, key :: sig :: st => Some (of_bool (checksig sig key) :: st)
  | OP_CHECKSIGVERIFY, key :: sig :: st => if checksig sig key then Some st else None
  | OP_CHECKLOCKTIMEVERIFY, n :: st =>
      if (zlen n <=? 5) && cltv tx (scriptnum n) then Some (n :: st) else None
  | _, _ => None
  end.

(** [conds]: whether each enclosing IF executes, innermost first. *)
Fixpoint exec (items : list item) (conds : list bool) (stack : list (list byte)) :
    option (list (list byte)) :=
  match items with
  | [] => match conds with [] => Some stack | _ => None end
  | it :: items =>
      let on := forallb (λ b, b) conds in
      match it with
      | Push data => exec items conds (if on then data :: stack else stack)
      | Op OP_IF =>
          if on then
            match stack with
            | v :: st => exec items (cast_to_bool v :: conds) st
            | [] => None
            end
          else exec items (false :: conds) stack
      | Op OP_ELSE =>
          match conds with
          | c :: cs => exec items (negb c :: cs) stack
          | [] => None
          end
      | Op OP_ENDIF =>
          match conds with
          | _ :: cs => exec items cs stack
          | [] => None
          end
      | Op o => if on then st ← exec_op o stack; exec items conds st else exec items conds stack
      end
  end.

(** A P2WSH input is valid when exactly one true element remains. *)
Definition accepts (items : list item) (stack : list (list byte)) : bool :=
  match exec items [] stack with
  | Some [v] => cast_to_bool v
  | _ => false
  end.
End interpreter.

(** Documented behaviour of bitcoinjs-lib: numbers are encoded as script
    numbers, and a compiled script decompiles to the same items when no push
    is short enough to have an opcode of its own. *)
Class ScriptLaws `{ScriptLib} : Prop := {
  number_encode_spec n : 0 < n < 2 ^ 39 → number_encode n = scriptnum_bytes n;
  decompile_compile items :
    Forall (λ it, match it with Push data => 2 ≤ zlen data ≤ 75 | Op _ => True end) items →
    decompile (compile items) = Some items;
}.

(** ** Lemmas *)

Arguments scriptnum : simpl never.
Arguments scriptnum_bytes : simpl never.
Arguments cltv : simpl never.
Arguments cast_to_bool : simpl never.

Lemma cast_of_bool b : cast_to_bool (of_bool b) = b.
Proof. by destruct b. Qed.

Lemma scriptnum_length n : 0 < n < 2 ^ 39 → 1 ≤ zlen (scriptnum_bytes n) ≤ 5.
Proof.
  intros Hn. unfold scriptnum_bytes, der_bytes. rewrite zlen_rev. unfold zlen. rewrite be_bytes_length.
  pose proof (Z.log2_nonneg n). assert (Z.log2 n < 39) by (apply Z.log2_lt_pow2; lia).
  pose proof (Z.div_lt_upper_bound (Z.log2 n + 1) 8 5). pose proof (Z.div_pos (Z.log2 n + 1) 8). lia.
Qed.

Lemma scriptnum_long n : 2 ^ 15 ≤ n < 2 ^ 39 → 3 ≤ zlen (scriptnum_bytes n).
Proof.
  intros Hn. unfold scriptnum_bytes, der_bytes. rewrite zlen_rev. unfold zlen. rewrite be_bytes_length.
  assert (15 ≤ Z.log2 n) by (apply Z.log2_le_pow2; lia).
  pose proof (Z.div_le_lower_bound (Z.log2 n + 1) 8 2). lia.
Qed.

Lemma le_val_last bs b : le_val (bs ++ [b]) = le_val bs + 256 ^ zlen bs * b2z b.
Proof. rewrite le_val_app. simpl. lia. Qed.

Lemma scriptnum_top n : 0 < n → n < 128 * 256 ^ (zlen (scriptnum_bytes n) - 1).
Proof.
  intros Hn. unfold scriptnum_bytes, der_bytes. rewrite zlen_rev. unfold zlen. rewrite be_bytes_length.
  pose proof (Z.log2_nonneg n). pose proof (Z.div_pos (Z.log2 n + 1) 8).
  set (k := (Z.log2 n + 1) / 8) in *.
  replace (Z.of_nat (S (Z.to_nat k)) - 1) with k by lia.
  replace (128 * 256 ^ k) with (2 ^ (7 + 8 * k)) by (rewrite Z.pow_add_r, Z.pow_mul_r by lia; done).
  apply Z.log2_lt_pow2; [done|].
  pose proof (Z.div_mod (Z.log2 n + 1) 8). pose proof (Z.mod_pos_bound (Z.log2 n + 1) 8). lia.
Qed.

(** The encoding reads back: its top byte leaves the sign bit clear. *)
Lemma scriptnum_spec n : 0 < n < 2 ^ 39 → scriptnum (scriptnum_bytes n) = n.
Proof.
  intros Hn. pose proof (scriptnum_length n Hn) as Hl. pose proof (scriptnum_top n) as Htop.
  destruct (der_bytes_spec n) as [_ Hv]; [lia|].
  assert (Hle : le_val (scriptnum_bytes n) = n) by exact Hv.
  unfold scriptnum. destruct (scriptnum_bytes n) as [|b bs _] using rev_ind; [unfold zlen in Hl; simpl in Hl; lia|].
  rewrite last_snoc, Hle. destruct (b2z b <? 128) eqn:E; bools; [done|]. exfalso.
  rewrite le_val_last in Hle. pose proof (le_val_range bs).
  replace (zlen (bs ++ [b]) - 1) with (zlen bs) in Htop by (rewrite zlen_app, zlen_cons; unfold zlen; simpl; lia).
  assert (0 < 256 ^ zlen bs) by (apply Z.pow_pos_nonneg; [lia|apply zlen_nonneg]). nia.
Qed.

(** The stack at hand satisfies neither branch. *)
Ltac no_path :=
  split; [discriminate|]; intros [(? & ? & ? & ? & ? & ? & ?)|(? & ? & ? & ? & ? & ?)];
  simplify_eq/=; congruence.

(** The two ways to satisfy the script, by the stack (top first). *)
Definition path_A (checksig : list byte → list byte → bool) (protocol user : list byte)
    (stack : list (list byte)) : Prop :=
  ∃ flag sigP sigU, stack = [flag; sigP; sigU] ∧ cast_to_bool flag = true
    ∧ checksig sigP protocol = true ∧ checksig sigU user = true.

Definition path_B (checksig : list byte → list byte → bool) (tx : spending) (user : list byte)
    (height : Z) (stack : list (list byte)) : Prop :=
  ∃ flag sigU, stack = [flag; sigU] ∧ cast_to_bool flag = false
    ∧ cltv tx height = true ∧ checksig sigU user = true.

Section spending.
Context `{ScriptLib, !ScriptLaws}.

Lemma build_ok protocol user h script :
  buildRedeemScript protocol user h = Ok script →
  zlen protocol = 33 ∧ zlen user = 33 ∧ MIN_TIMELOCK_HEIGHT ≤ h
  ∧ script = compile (script_items protocol user h).
Proof. unfold buildRedeemScript. intros Hb. split_in Hb. bools. done. Qed.

Lemma build_decompiles protocol user h script :
  buildRedeemScript protocol user h = Ok script → h < 2 ^ 39 →
  decompile script = Some (script_items protocol user h).
Proof.
  intros (Hp & Hu & Hh & ->)%build_ok Hmax. apply decompile_compile.
  unfold MIN_TIMELOCK_HEIGHT in Hh.
  pose proof (scriptnum_long h). pose proof (scriptnum_length h).
  unfold script_items. rewrite number_encode_spec by lia. repeat constructor; lia.
Qed.

Lemma script_accepts checksig tx protocol user h stack :
  0 < h < 2 ^ 39 →
  accepts checksig tx (script_items protocol user h) stack = true ↔
  path_A checksig protocol user stack ∨ path_B checksig tx user h stack.
Proof.
  intros Hh. pose proof (scriptnum_length h Hh) as Hl. unfold accepts, script_items.
  rewrite number_encode_spec by done. destruct stack as [|flag stack]; [no_path|].
  cbn [exec forallb]. destruct (cast_to_bool flag) eqn:Ef; cbn [exec forallb andb negb].
  - destruct stack as [|sigP stack]; [no_path|]. cbn.
    destruct (checksig sigP protocol) eqn:EP; cbn; [|no_path].
    destruct stack as [|sigU stack]; cbn; [no_path|].
    destruct stack as [|x stack]; cbn; [rewrite cast_of_bool|no_path]. split.
    + intros EU. left. by exists flag, sigP, sigU.
    + intros [(? & ? & ? & ? & ? & ? & ?)|(? & ? & ? & ? & ? & ?)]; by simplify_eq/=.
  - cbn. rewrite scriptnum_spec by done.
    rewrite (proj2 (Z.leb_le (zlen (scriptnum_bytes h)) 5)) by lia. cbn.
    destruct (cltv tx h) eqn:Ec; cbn; [|no_path].
    destruct stack as [|sigU stack]; cbn; [no_path|].
    destruct stack as [|x stack]; cbn; [rewrite cast_of_bool|no_path]. split.
    + intros EU. right. by exists flag, sigU.
    + intros [(? & ? & ? & ? & ? & ? & ?)|(? & ? & ? & ? & ? & ?)]; by simplify_eq/=.
Qed.
End spending.

(** ** Properties *)

(** C2: what the locking script means. Any script [buildRedeemScript] returns
    decompiles, and a witness stack satisfies it exactly in two ways: with a
    true flag, a valid signature of the protocol key and a valid signature of
    the user key (release); or with a false flag, a valid signature of the
    user key alone, and a transaction whose lock time has reached the timelock
    height (recovery). In particular the protocol key alone opens nothing, and
    the user alone opens nothing before the timelock. *)
Theorem redeem_script_spending_conditions `{ScriptLib, !ScriptLaws}
    (protocol user script : list byte) (h : Z)
    (Hbuild : buildRedeemScript protocol user h = Ok script) (Hmax : h < 2 ^ 39) :
  ∃ items, decompileRedeemScript script = Ok items ∧
    ∀ checksig tx stack,
      accepts checksig tx items stack = true ↔
      path_A checksig protocol user stack ∨ path_B checksig tx user h stack.
Proof.
  pose proof (build_ok _ _ _ _ Hbuild) as (_ & _ & Hmin & _).
  exists (script_items protocol user h). split.
  - unfold decompileRedeemScript. by rewrite (build_decompiles _ _ _ _ Hbuild Hmax).
  - intros. apply script_accepts. unfold MIN_TIMELOCK_HEIGHT in *. lia.
Qed.

(** the finalizers produce spendable witnesses. For an input locked by the
    script of these keys, the stack [finalizePathA] serializes is accepted
    exactly when the two signatures it carries are valid for the protocol and
    the user key, and the one of [finalizePathB] exactly when the user's
    signature is valid and the transaction's lock time has reached the
    timelock. *)
Theorem finalized_witness_spends `{ScriptLib, !ScriptLaws}
    (protocol user script : list byte) (h : Z) (input : psbt_input) (w : list byte)
    (Hbuild : buildRedeemScript protocol user h = Ok script) (Hmax : h < 2 ^ 39)
    (Hscript : witnessScript input = Some script) :
  ∃ items, decompileRedeemScript script = Ok items ∧
    (_finalizeA input user protocol = Ok w →
     ∃ sigU sigP, deserializeWitness w = Ok [sigU; sigP; [x01]; script] ∧
       ∀ checksig tx, accepts checksig tx items [[x01]; sigP; sigU]
                      = checksig sigP protocol && checksig sigU user) ∧
    (_finalizeB input user = Ok w →
     ∃ sigU, deserializeWitness w = Ok [sigU; []; script] ∧
       ∀ checksig tx, accepts checksig tx items [[]; sigU]
                      = cltv tx h && checksig sigU user).
Proof.
  pose proof (build_ok _ _ _ _ Hbuild) as (_ & _ & Hmin & _).
  assert (Hh : 0 < h < 2 ^ 39) by (unfold MIN_TIMELOCK_HEIGHT in *; lia).
  exists (script_items protocol user h). split_and!.
  - unfold decompileRedeemScript. by rewrite (build_decompiles _ _ _ _ Hbuild Hmax).
  - intros (sigs & s & u & p & _ & Es & _ & _ & _ & _ & Hw)%finalizeA_items.
    rewrite Hscript in Es. injection Es as <-. eexists _, _. split; [exact Hw|]. intros checksig tx.
    apply eq_true_iff_eq. rewrite script_accepts, andb_true_iff by done. split.
    + intros [(? & ? & ? & ? & ? & ? & ?)|(? & ? & ? & ? & ? & ?)]; by simplify_eq/=.
    + intros [? ?]. left. by eexists _, _, _.
  - intros (sigs & s & u & _ & Es & _ & _ & Hw)%finalizeB_items.
    rewrite Hscript in Es. injection Es as <-. eexists. split; [exact Hw|]. intros checksig tx.
    apply eq_true_iff_eq. rewrite script_accepts, andb_true_iff by done. split.
    + intros [(? & ? & ? & ? & ? & ? & ?)|(? & ? & ? & ? & ? & ?)]; by simplify_eq/=.
    + intros [? ?]. right. by eexists _, _.
Qed.

(** ** A concrete compiler, for the witnesses *)

Module Demo.
Definition op_byte (o : opcode) : byte :=
  match o with
  | OP_IF => x63 | OP_ELSE => x67 | OP_ENDIF => x68 | OP_DROP => x75
  | OP_CHECKSIG => xac | OP_CHECKSIGVERIFY => xad | OP_CHECKLOCKTIMEVERIFY => xb1
  end.
Definition byte_op (b : byte) : option opcode :=
  match b with
  | x63 => Some OP_IF | x67 => Some OP_ELSE | x68 => Some OP_ENDIF | x75 => Some OP_DROP
  | xac => Some OP_CHECKSIG | xad => Some OP_CHECKSIGVERIFY | xb1 => Some OP_CHECKLOCKTIMEVERIFY
  | _ => None
  end.

Fixpoint compile_items (items : list item) : list byte :=
  match items with
  | [] => []
  | Op o :: items => op_byte o :: compile_items items
  | Push data :: items => z2b (zlen data) :: data ++ compile_items items
  end.

Fixpoint decompile_fuel (fuel : nat) (bs : list byte) : option (list item) :=
  match bs, fuel with
  | [], _ => Some []
  | _, O => None
  | b :: bs, S fuel =>
      if b2z b <=? 75 then
        rest ← decompile_fuel fuel (drop (Z.to_nat (b2z b)) bs);
        Some (Push (take (Z.to_nat (b2z b)) bs) :: rest)
      else o ← byte_op b; rest ← decompile_fuel fuel bs; Some (Op o :: rest)
  end.

Lemma decompile_compile_items items :
  Forall (λ it, match it with Push data => 2 ≤ zlen data ≤ 75 | Op _ => True end) items →
  ∀ fuel, (length (compile_items items) ≤ fuel)%nat →
    decompile_fuel fuel (compile_items items) = Some items.
Proof.
  induction 1 as [|it items Hit _ IH]; intros fuel Hf; [by destruct fuel|].
  destruct it as [o|data]; cbn [compile_items] in *; simpl in Hf; destruct fuel as [|fuel]; try lia.
  - cbn [decompile_fuel]. rewrite IH by lia. by destruct o.
  - cbn [decompile_fuel]. rewrite b2z_z2b, Z.mod_small by lia.
    rewrite (proj2 (Z.leb_le (zlen data) 75)) by lia.
    replace (Z.to_nat (zlen data)) with (length data) by (unfold zlen; lia).
    rewrite drop_app_exact, take_app_exact by done. rewrite length_app in Hf.
    by rewrite IH by lia.
Qed.

#[local] Instance lib : ScriptLib := {
  compile := compile_items;
  decompile bs := decompile_fuel (length bs) bs;
  number_encode := scriptnum_bytes;
  sha256 bs := bs;
  p2wsh bs n := (Some "bc1q"%string, Some bs);
}.

#[local] Instance laws : ScriptLaws.
Proof. split; [done|]. intros. by apply decompile_compile_items. Defined.

Definition protocol : list byte := replicate 33 x02.
Definition user : list byte := replicate 33 x03.
Definition script : list byte := compile_items (script_items protocol user 900000).
Definition input : psbt_input := {|
  partialSig := Some [ {| pubkey := user; signature := [xaa] |};
                       {| pubkey := protocol; signature := [xbb] |} ];
  witnessScript := Some script;
|}.

Lemma redeem_script_spending_conditions_witness :
  ∃ items, decompileRedeemScript script = Ok items ∧
    ∀ checksig tx stack,
      accepts checksig tx items stack = true ↔
      path_A checksig protocol user stack ∨ path_B checksig tx user 900000 stack.
Proof. apply (redeem_script_spending_conditions protocol user script 900000); reflexivity. Defined.

Lemma finalized_witness_spends_witness :
  ∃ w items, _finalizeA input user protocol = Ok w ∧ decompileRedeemScript script = Ok items ∧
    (_finalizeA input user protocol = Ok w →
     ∃ sigU sigP, deserializeWitness w = Ok [sigU; sigP; [x01]; script] ∧
       ∀ checksig tx, accepts checksig tx items [[x01]; sigP; sigU]
                      = checksig sigP protocol && checksig sigU user) ∧
    (_finalizeB input user = Ok w →
     ∃ sigU, deserializeWitness w = Ok [sigU; []; script] ∧
       ∀ checksig tx, accepts checksig tx items [[]; sigU]
                      = cltv tx 900000 && checksig sigU user).
Proof.
  eexists.
  destruct (@finalized_witness_spends lib laws protocol user script 900000 input
              match _finalizeA input user protocol with Ok w => w | Err _ => [] end
              ltac:(vm_compute; reflexivity) ltac:(vm_compute; reflexivity) ltac:(vm_compute; reflexivity)) as (items & H1 & H2).
  exists items. split; [|split; [exact H1|exact H2]]. vm_compute. reflexivity.
Defined.
End Demo.
