(* ===== verification/RepayHandler.v ===== *)
(** * Publishing one release ([relayer/src/repay-watcher/handler.ts])

    [handleRepayFull]: what the watcher runs for a fully repaid position. The
    contract client, Esplora, the signer and the PSBT library are arguments;
    the address derivation, the transaction builder and the output parser are
    the models of [RedeemScript], [Spend] and [BitcoinTx]. *)

From S2P Require Import Prelude JsData Keys Spend BitcoinTx RedeemScript.

(** The fields of a [Position] the handler reads. *)
Record Position : Type := {
  user_pubkey : list byte;
  timelock_height : Z;
  p2wsh_script_pubkey : list byte;
  btc_satoshis : Z;
}.

(** The calls that leave the process. [publish] is [publish_release_psbt]:
    built, signed and sent under the relayer account's lock. *)
Class HandlerEnv (W psbt : Type) : Type := {
  get_position : list byte → W → result string (option Position) * W;
  get_release_psbt : list byte → W → result string (option (list byte)) * W;
  esplora_getRawTx : string → W → result string string * W;
  signInput : psbt → W → result string psbt * W;
  toBuffer : psbt → list byte;
  publish : list byte → list byte → W → result string () * W;
}.

Inductive handler_error : Type :=
| UnknownPosition
| ScriptMismatch
| NoMatchingOutput
| Derivation (e : script_error)
| NoRecipient (e : key_error)
| Building (e : spend_error)
| Threw (message : string).

(** The handler keeps nothing between runs; [releases] records what it sent to
    the contract, newest first. *)
Record handling (W : Type) : Type := mkHandling {
  world : W;
  releases : list (list byte * list byte);
}.
Arguments mkHandling {W}.
Arguments world {W}.
Arguments releases {W}.

(** ** Outputs and byte order *)

Definition MAX_OUTPUTS : nat := 64.

(** The loop of [findOutputIndex], from output [i] with [more] left to try. *)
Fixpoint find_output (more : nat) (i : Z) (rawTxHex scriptPubKeyHex : string) : option Z :=
  match more with
  | O => None
  | S more =>
      match parseOutput rawTxHex i with
      | Err _ => None
      | Ok (_, script) =>
          if bool_decide (toLowerCase script = toLowerCase scriptPubKeyHex) then Some i
          else find_output more (i + 1) rawTxHex scriptPubKeyHex
      end
  end.

Definition findOutputIndex (rawTxHex scriptPubKeyHex : string) : result handler_error Z :=
  of_option (find_output MAX_OUTPUTS 0 rawTxHex scriptPubKeyHex) NoMatchingOutput.

(** [hex.match(/../g).reverse().join("")]: a trailing odd digit is dropped. *)
Fixpoint hex_pairs (cs : list ascii) : list (list ascii) :=
  match cs with
  | a :: b :: cs => [a; b] :: hex_pairs cs
  | _ => []
  end.

Definition reverseHex (hex : string) : string :=
  match hex_pairs (chars hex) with
  | [] => hex
  | pairs => of_chars (concat (rev pairs))
  end.

(** ** The handler *)

Definition map_err {E E' A} (f : E → E') (r : result E A) : result E' A :=
  match r with Ok a => Ok a | Err e => Err (f e) end.

Section handler.
Context {W psbt : Type} `{HandlerEnv W psbt, ScriptLib, KeyEnv, PsbtLib psbt}
  (bitcoinNetwork : string) (releaseFeeSat : Z) (signerPublicKey : list byte).
Abbreviation M := (io (handling W) handler_error).

Definition getBitcoinNetwork : Network :=
  if bool_decide (bitcoinNetwork = "mainnet"%string) then bitcoin else testnet.

Definition call {A} (f : W → result string A * W) : M A := λ s,
  let '(r, w) := f (world s) in (map_err Threw r, mkHandling w (releases s)).

Definition publish_release (txid buf : list byte) : M () := λ s,
  let '(r, w) := publish txid buf (world s) in
  (map_err Threw r, mkHandling w ((txid, buf) :: releases s)).

Definition locking_params (position : Position) : LockingParams :=
  {| protocolPubkey := signerPublicKey; userPubkey := user_pubkey position;
     timelockHeight := timelock_height position |}.

Definition release_params (txidDisplay : string) (vout : Z) (position : Position)
    (deposit : DepositAddress) (recipient : string) : SpendParams := {|
  Spend.txidHex := txidDisplay;
  Spend.vout := vout;
  Spend.amountSat := btc_satoshis position;
  Spend.scriptPubKey := RedeemScript.scriptPubKey deposit;
  Spend.redeemScript := RedeemScript.redeemScript deposit;
  Spend.recipientAddress := recipient;
  Spend.feeSat := releaseFeeSat;
|}.

(** From the sanity check on: the position is known and nothing is published. *)
Definition release (txidInternal : list byte) (position : Position) : M () :=
  let txidDisplay := reverseHex (to_hex txidInternal) in
  deposit ← lift (map_err Derivation (deriveDepositAddress (locking_params position) getBitcoinNetwork));
  if negb (bool_decide (RedeemScript.scriptPubKey deposit = p2wsh_script_pubkey position))
  then throw ScriptMismatch else
  rawTxFull ← call (esplora_getRawTx txidDisplay);
  vout ← lift (findOutputIndex rawTxFull (to_hex (p2wsh_script_pubkey position)));
  recipient ← lift (map_err NoRecipient (pubkeyToP2WPKHAddress (user_pubkey position) getBitcoinNetwork));
  p ← lift (map_err Building (buildReleaseTransaction
             (release_params txidDisplay vout position deposit recipient)));
  signed ← call (signInput p);
  publish_release txidInternal (toBuffer signed).

Definition handleRepayFull (txidInternal : list byte) : M () :=
  position ← call (get_position txidInternal);
  match position with
  | None => throw UnknownPosition
  | Some position =>
      alreadyPublished ← call (get_release_psbt txidInternal);
      match alreadyPublished with
      | Some _ => mret ()
      | None => release txidInternal position
      end
  end.

Definition isReleasePublished (txidInternal : list byte) : M bool :=
  r ← call (get_release_psbt txidInternal);
  mret (bool_decide (is_Some r)).
End handler.

(** ** Lemmas *)

Lemma find_output_spec more i raw spk k :
  find_output more i raw spk = Some k →
  i ≤ k < i + Z.of_nat more ∧
  (∃ v s, parseOutput raw k = Ok (v, s) ∧ toLowerCase s = toLowerCase spk) ∧
  ∀ j, i ≤ j < k → ∃ v s, parseOutput raw j = Ok (v, s) ∧ toLowerCase s ≠ toLowerCase spk.
Proof.
  revert i. induction more as [|more IH]; intros i H; [done|]. cbn [find_output] in H.
  destruct (parseOutput raw i) as [[v s]|e] eqn:Ep; [|done]. case_bool_decide.
  - injection H as <-. split_and!; [lia|lia|eauto|lia].
  - apply IH in H as (Hk & Hf & Hmin). split_and!; [lia|lia|done|]. intros j Hj.
    destruct (decide (j = i)) as [->|]; [eauto|]. apply Hmin. lia.
Qed.

Lemma hex_pairs_hex bs : hex_pairs (hex_chars bs) = map (λ b, hex_chars [b]) bs.
Proof. induction bs as [|b bs IH]; [done|]. cbn [hex_chars hex_pairs map]. by rewrite IH. Qed.

Lemma concat_hex_pairs bs : concat (map (λ b, hex_chars [b]) bs) = hex_chars bs.
Proof. induction bs as [|b bs IH]; [done|]. cbn [map concat]. by rewrite IH. Qed.

(** On a hash's hex it reverses the bytes. *)
Lemma reverseHex_hex bs : reverseHex (to_hex bs) = to_hex (rev bs).
Proof.
  unfold reverseHex, to_hex. rewrite chars_of_chars, hex_pairs_hex.
  destruct bs as [|b bs]; [done|]. cbn [map]. rewrite <- (concat_hex_pairs (rev (b :: bs))), map_rev. done.
Qed.

(** ** Property *)

(** What justifies a release for a position: the position's own script, its
    own outpoint, its own key as recipient. *)
Definition justified {W psbt} `{HandlerEnv W psbt, ScriptLib, KeyEnv, PsbtLib psbt}
    (bitcoinNetwork : string) (releaseFeeSat : Z) (signerPublicKey txid : list byte)
    (position : Position) (w : W) (signed : psbt) (w' : W) : Prop :=
  ∃ deposit raw w1 vout value script recipient p,
    deriveDepositAddress (locking_params signerPublicKey position)
      (getBitcoinNetwork bitcoinNetwork) = Ok deposit
    ∧ RedeemScript.scriptPubKey deposit = p2wsh_script_pubkey position
    ∧ esplora_getRawTx (to_hex (rev txid)) w = (Ok raw, w1)
    ∧ 0 ≤ vout < 64 ∧ parseOutput raw vout = Ok (value, script)
    ∧ toLowerCase script = toLowerCase (to_hex (p2wsh_script_pubkey position))
    ∧ (∀ j, 0 ≤ j < vout → ∃ v s, parseOutput raw j = Ok (v, s) ∧
         toLowerCase s ≠ toLowerCase (to_hex (p2wsh_script_pubkey position)))
    ∧ pubkeyToP2WPKHAddress (user_pubkey position) (getBitcoinNetwork bitcoinNetwork) = Ok recipient
    ∧ buildReleaseTransaction (release_params releaseFeeSat (to_hex (rev txid)) vout position
        deposit recipient) = Ok p
    ∧ signInput p w1 = (Ok signed, w').

