(* ===== verification/BitcoinMessage.v ===== *)
(** * Bitcoin signed messages ([bitcoin-script/src/message.ts])

    BIP-137 framing, signing and public key recovery, with the Node base64
    codec they use. SHA256d and the recoverable signature scheme are
    arguments. Strings are byte strings, so [Buffer.from(s, 'utf8')] is their
    bytes. *)

From S2P Require Import Prelude JsData.

(** ** Base64 *)

Definition b64_digit (z : Z) : ascii :=
  ascii_of_N (Z.to_N (
    if z <? 26 then 65 + z else if z <? 52 then 71 + z else if z <? 62 then z - 4
    else if z =? 62 then 43 else 47)).

(** Node also accepts the URL-safe [-] and [_]. *)
Definition b64_value (c : ascii) : option Z :=
  let z := ascii_z c in
  if in_range "A" "Z" c then Some (z - 65)
  else if in_range "a" "z" c then Some (z - 71)
  else if in_range "0" "9" c then Some (z + 4)
  else if Ascii.eqb c "+" || Ascii.eqb c "-" then Some 62
  else if Ascii.eqb c "/" || Ascii.eqb c "_" then Some 63
  else None.

Fixpoint b64_chars (bs : list byte) : list ascii :=
  match bs with
  | a :: b :: c :: bs =>
      let n := 65536 * b2z a + 256 * b2z b + b2z c in
      b64_digit (n / 262144) :: b64_digit (n / 4096 mod 64) :: b64_digit (n / 64 mod 64) ::
      b64_digit (n mod 64) :: b64_chars bs
  | [a; b] =>
      let n := 256 * b2z a + b2z b in
      [b64_digit (n / 1024); b64_digit (n / 16 mod 64); b64_digit (n mod 16 * 4); "="%char]
  | [a] => [b64_digit (b2z a / 4); b64_digit (b2z a mod 4 * 16); "="%char; "="%char]
  | [] => []
  end.

(** The sextets before the first [=], ignoring other characters. *)
Fixpoint sextets (cs : list ascii) : list Z :=
  match cs with
  | [] => []
  | c :: cs =>
      if Ascii.eqb c "=" then []
      else match b64_value c with Some v => v :: sextets cs | None => sextets cs end
  end.

Fixpoint of_sextets (vs : list Z) : list byte :=
  match vs with
  | a :: b :: c :: d :: vs =>
      let n := 262144 * a + 4096 * b + 64 * c + d in
      z2b (n / 65536) :: z2b (n / 256) :: z2b n :: of_sextets vs
  | [a; b; c] => let n := 4096 * a + 64 * b + c in [z2b (n / 1024); z2b (n / 4)]
  | [a; b] => [z2b ((64 * a + b) / 16)]
  | _ => []
  end.

Definition to_base64 (bs : list byte) : string := of_chars (b64_chars bs).
Definition from_base64 (s : string) : list byte := of_sextets (sextets (chars s)).

(** ** The code *)

Definition utf8 (s : string) : list byte := map byte_of_ascii (chars s).

Definition MAGIC : string := "Bitcoin Signed Message:" +:+ String "010"%char EmptyString.

Definition varint (n : Z) : list byte :=
  if n <? 0xfd then [z2b n]
  else if n <=? 0xffff then xfd :: le_bytes 2 n
  else xfe :: le_bytes 4 n.

(** [hash256] is SHA256d; [signRecoverable] and [recover] are the ECDSA
    operations of [@bitcoinerlab/secp256k1], and [recover] may throw. *)
Class MessageLib : Type := {
  hash256 : list byte → list byte;
  signRecoverable : list byte → list byte → list byte * Z;
  recover : list byte → list byte → Z → result string (option (list byte));
}.

(** The argument of [recoverBitcoinMessagePubkey]: a base64 string or bytes. *)
Inductive message_signature : Type := SigText (s : string) | SigBytes (bs : list byte).

Section message.
Context `{MessageLib}.

Definition bitcoinMessageHash (message : string) : list byte :=
  let m := utf8 message in
  let magic := utf8 MAGIC in
  hash256 (varint (zlen magic) ++ magic ++ varint (zlen m) ++ m).

Definition signBitcoinMessage (message : string) (privkey : list byte) : string :=
  let '(signature, recoveryId) := signRecoverable (bitcoinMessageHash message) privkey in
  to_base64 (z2b (39 + recoveryId) :: signature).

Definition signature_bytes (s : message_signature) : list byte :=
  match s with SigText s => from_base64 s | SigBytes bs => bs end.

Definition recoverBitcoinMessagePubkey (message : string) (signature : message_signature) :
    option (list byte) :=
  match signature_bytes signature with
  | h :: sig =>
      if negb (zlen (h :: sig) =? 65) then None else
      let header := b2z h in
      if (header <? 31) || (42 <? header) then None else
      match recover (bitcoinMessageHash message) sig (Z.land (header - 27) 3) with
      | Ok (Some pub) => Some pub
      | _ => None
      end
  | [] => None
  end.

Definition verifyBitcoinMessage (message : string) (signature : message_signature)
    (pubkey : list byte) : bool :=
  match recoverBitcoinMessagePubkey message signature with
  | Some recovered => (zlen pubkey =? 33) && bool_decide (recovered = pubkey)
  | None => false
  end.
End message.

(** ** Lemmas *)

Lemma b64_value_digit z : 0 ≤ z < 64 → b64_value (b64_digit z) = Some z ∧ Ascii.eqb (b64_digit z) "=" = false.
Proof.
  intros Hz. assert (H : bool_decide (b64_value (b64_digit z) = Some z) && negb (Ascii.eqb (b64_digit z) "=") = true).
  { revert z Hz. apply (zrange_forallb (λ z, bool_decide (b64_value (b64_digit z) = Some z) &&
      negb (Ascii.eqb (b64_digit z) "=")) 0 64). vm_compute. reflexivity. }
  bools. done.
Qed.

Lemma sextets_digit z cs : 0 ≤ z < 64 → sextets (b64_digit z :: cs) = z :: sextets cs.
Proof. intros [H1 H2]%b64_value_digit. cbn [sextets]. by rewrite H1, H2. Qed.

Ltac sextet_bounds :=
  repeat match goal with
  | b : byte |- _ =>
      lazymatch goal with
      | _ : 0 ≤ b2z b < 256 |- _ => fail
      | _ => pose proof (b2z_range b)
      end
  end.

Lemma z2b_eq z b : z mod 256 = b2z b → z2b z = b.
Proof. intros H. apply b2z_inj. by rewrite b2z_z2b. Qed.

(** Three bytes are four sextets and back. *)
Lemma of_sextets_chars bs : of_sextets (sextets (b64_chars bs)) = bs.
Proof.
  assert (Hlen : ∃ n, (length bs ≤ n)%nat) by eauto. destruct Hlen as [n Hn].
  revert bs Hn. induction n as [|n IH]; intros [|a [|b [|c bs]]] Hn; try done; simpl in Hn; try lia;
    cbn [b64_chars]; sextet_bounds;
    rewrite !sextets_digit by (Z.to_euclidean_division_equations; lia).
  - cbn. f_equal. apply z2b_eq. Z.to_euclidean_division_equations. lia.
  - cbn. f_equal; [|f_equal]; apply z2b_eq; Z.to_euclidean_division_equations; lia.
  - cbn [of_sextets]. rewrite IH by lia.
    f_equal; [|f_equal; [|f_equal]]; apply z2b_eq; Z.to_euclidean_division_equations; lia.
Qed.

Lemma from_to_base64 bs : from_base64 (to_base64 bs) = bs.
Proof. unfold from_base64, to_base64. rewrite chars_of_chars. apply of_sextets_chars. Qed.

(** ** Property *)

(** a signature made here verifies here, and under one key only: when the
    scheme recovers the key of [privkey] from what it signed, the base64
    signature of any message verifies under that 33-byte key and under no
    other; and whatever the text, [verifyBitcoinMessage] only accepts 65-byte
    signatures with a compressed-key header (31 to 42). *)
Theorem signed_messages_verify `{MessageLib} (message : string) (privkey pub sig : list byte) (id : Z)
    (Hsign : signRecoverable (bitcoinMessageHash message) privkey = (sig, id))
    (Hsig : zlen sig = 64) (Hid : 0 ≤ id < 4) (Hpub : zlen pub = 33)
    (Hrecover : recover (bitcoinMessageHash message) sig id = Ok (Some pub)) :
  (∀ key, verifyBitcoinMessage message (SigText (signBitcoinMessage message privkey)) key = true ↔ key = pub) ∧
  (∀ m s key, verifyBitcoinMessage m s key = true →
     ∃ h rest, signature_bytes s = h :: rest ∧ zlen rest = 64 ∧ 31 ≤ b2z h ≤ 42).
Proof.
  split.
  - intros key. unfold verifyBitcoinMessage, recoverBitcoinMessagePubkey, signBitcoinMessage.
    rewrite Hsign. cbn [signature_bytes]. rewrite from_to_base64, zlen_cons, Hsig, b2z_z2b.
    rewrite Z.mod_small by lia. cbn.
    rewrite (proj2 (Z.ltb_ge _ 31)), (proj2 (Z.ltb_ge 42 _)) by lia. cbn.
    replace (Z.land (39 + id - 27) 3) with id by
      (assert (id = 0 ∨ id = 1 ∨ id = 2 ∨ id = 3) as [->|[->|[->| ->]]] by lia; done).
    rewrite Hrecover. change (1 + 64 =? 65) with true. cbn [negb]. split.
    + intros E. bools. done.
    + intros ->. rewrite Hpub. cbn. by apply bool_decide_eq_true.
  - intros m s key. unfold verifyBitcoinMessage, recoverBitcoinMessagePubkey.
    destruct (signature_bytes s) as [|h rest]; [done|]. rewrite zlen_cons.
    destruct (1 + zlen rest =? 65) eqn:El; cbn; [|done].
    destruct ((b2z h <? 31) || (42 <? b2z h)) eqn:Eh; cbn; [done|]. bools.
    intros _. exists h, rest. split_and!; [done|lia|lia|lia].
Qed.

Module Demo.
#[local] Instance lib : MessageLib := {
  hash256 bs := bs;
  signRecoverable h k := (replicate 64 x07, 2);
  recover h s i := Ok (Some (replicate 33 x02));
}.

Lemma signed_messages_verify_witness :
  (∀ key, verifyBitcoinMessage "hi" (SigText (signBitcoinMessage "hi" [])) key = true
          ↔ key = replicate 33 x02) ∧
  (∀ m s key, verifyBitcoinMessage m s key = true →
     ∃ h rest, signature_bytes s = h :: rest ∧ zlen rest = 64 ∧ 31 ≤ b2z h ≤ 42).
Proof.
  apply (signed_messages_verify "hi" [] (replicate 33 x02) (replicate 64 x07) 2);
    first [reflexivity | lia].
Defined.
End Demo.
