(* ===== verification/Faucet.v ===== *)
(** * The Signet faucet ([relayer/src/faucet/service.ts], [store.ts], [nonce.ts])

    The claim path from the untrusted request body to the broadcast, the claim
    store, the nonce book and the wallet's reservations. Esplora, the login
    verifier, randomness, the clock, hashing and the Bitcoin libraries are
    arguments; the transaction builder and the message verifier are the models
    of [Payment] and [BitcoinMessage]. Error messages and log lines are left
    out: a [FaucetError] is its code and its retry delay.

    Interleaving: a claim runs in three parts, as the code's [await]s split it
    ([claim_front] up to the login check, [claim_verified] after it, and the
    locked send [claim_send]); any number of claims can be between parts. *)

From Stdlib Require Import Floats.SpecFloat.
From S2P Require Import Prelude JsData JsMap Esplora Keys Payment BitcoinMessage.

(** ** Settings and errors *)

Definition MAX_FAUCET_AMOUNT_SAT : Z := 50000.
Definition MIN_FAUCET_AMOUNT_SAT : Z := 1000.
Definition RESERVATION_TTL_MS : Z := 30 * 60000.
Definition BALANCE_CACHE_MS : Z := 15000.
Definition NONCE_TTL_MS : Z := 5 * 60000.
Definition MAX_OUTSTANDING : nat := Z.to_nat 10000.
Definition MAX_TOKEN_LENGTH : Z := 8192.

Record FaucetSettings : Type := {
  amount : Z;
  dailyCap : Z;
  ipClaimsPerWindow : Z;
  ipWindowMs : Z;
  minFeeRate : double;
  maxFeeRate : double;
  feeTargetBlocks : Z;
}.

Inductive FaucetErrorCode : Type :=
| invalid_request | invalid_address | faucet_address | nonce_invalid
| address_key_mismatch | bad_signature
| login_expired | login_invalid | login_wrong_app | login_wrong_network
| login_not_social | login_address_mismatch | login_provider_not_allowed
| login_check_unavailable
| account_already_claimed | stellar_address_already_claimed | signet_address_already_claimed
| ip_cooldown | daily_cap_reached | faucet_empty | upstream_unavailable | broadcast_rejected.

Definition HTTP_STATUS (c : FaucetErrorCode) : Z :=
  match c with
  | invalid_request | invalid_address | faucet_address | nonce_invalid
  | address_key_mismatch | bad_signature => 400
  | login_expired | login_invalid => 401
  | login_wrong_app | login_wrong_network | login_not_social | login_address_mismatch
  | login_provider_not_allowed => 403
  | login_check_unavailable => 503
  | account_already_claimed | stellar_address_already_claimed | signet_address_already_claimed => 409
  | ip_cooldown | daily_cap_reached => 429
  | faucet_empty | upstream_unavailable => 503
  | broadcast_rejected => 502
  end.

Inductive faucet_exn : Type :=
| FaucetError (code : FaucetErrorCode) (retryAfterSeconds : option Z)
| Rethrown (e : payment_error).

(** The constructor's checks. *)
Definition valid_settings (s : FaucetSettings) : bool :=
  (MIN_FAUCET_AMOUNT_SAT <=? amount s) && (amount s <=? MAX_FAUCET_AMOUNT_SAT) &&
  (1 <=? ipClaimsPerWindow s) && (0 <? ipWindowMs s).

(** ** The claim store ([MemoryClaimStore]) *)

Record ClaimRecord : Type := {
  address : string;
  ipHash : string;
  userKey : string;
  stellarAddress : string;
  claim_txid : string;
  claim_amountSat : Z;
  createdAt : Z;
}.

Module Claims.
Definition hasClaimForAddress (claims : list ClaimRecord) (a : string) : bool :=
  existsb (λ c, bool_decide (address c = a)) claims.
Definition hasClaimForUser (claims : list ClaimRecord) (u : string) : bool :=
  existsb (λ c, bool_decide (userKey c = u)) claims.
Definition hasClaimForStellarAddress (claims : list ClaimRecord) (a : string) : bool :=
  existsb (λ c, bool_decide (stellarAddress c = a)) claims.

Definition from_ip (ip : string) (since : Z) (c : ClaimRecord) : bool :=
  bool_decide (ipHash c = ip) && (since <=? createdAt c).

Definition ipClaimsSince (claims : list ClaimRecord) (ip : string) (since : Z) : list Z :=
  sort_by id (map createdAt (List.filter (from_ip ip since) claims)).

Definition countSince (claims : list ClaimRecord) (since : Z) : Z :=
  zlen (List.filter (λ c, since <=? createdAt c) claims).

(** [None]: the UNIQUE constraint fails and the store is unchanged. *)
Definition record (claims : list ClaimRecord) (c : ClaimRecord) : option (list ClaimRecord) :=
  if hasClaimForUser claims (userKey c) || hasClaimForStellarAddress claims (stellarAddress c)
     || hasClaimForAddress claims (address c)
  then None else Some (claims ++ [c]).
End Claims.

(** ** Nonces *)

Module Nonces.
Definition prune (t : Z) (issued : jsmap string Z) : jsmap string Z :=
  List.filter (λ e, t <? e.2) issued.

(** The loop that drops the oldest while the book is full. *)
Definition make_room (issued : jsmap string Z) : jsmap string Z :=
  drop (S (length issued) - MAX_OUTSTANDING) issued.

(** [t] is the clock when pruning, [t'] when the challenge is dated. *)
Definition issue (t t' : Z) (nonce : string) (issued : jsmap string Z) : Z * jsmap string Z :=
  let expiresAt := t' + NONCE_TTL_MS in
  (expiresAt, map_set nonce expiresAt (make_room (prune t issued))).

Definition consume (t : Z) (nonce : string) (issued : jsmap string Z) : bool * jsmap string Z :=
  match map_get nonce issued with
  | None => (false, issued)
  | Some expiresAt => (t <? expiresAt, map_delete nonce issued)
  end.
End Nonces.

Definition NL : string := String "010"%char EmptyString.

Definition faucetClaimMessage (nonce stellar signet : string) : string :=
  "Writz Signet faucet" +:+ NL +:+ "nonce:" +:+ nonce +:+ NL +:+ "stellar:" +:+ stellar +:+ NL
  +:+ "signet:" +:+ signet.

(** ** The request *)

(** The body's fields that are strings; any other field is [None]. *)
Definition json_body : Type := string → option string.

Record ClaimRequest : Type := {
  pollarAccessToken : string;
  req_stellar : string;
  signetAddress : string;
  signetPubkey : string;
  req_nonce : string;
  keySig : string;
}.

Definition is_base32 (c : ascii) : bool := in_range "A" "Z" c || in_range "2" "7" c.
Definition is_base64 (c : ascii) : bool :=
  in_range "A" "Z" c || in_range "a" "z" c || in_range "0" "9" c || Ascii.eqb c "+" || Ascii.eqb c "/".

Definition STELLAR_ACCOUNT (s : string) : bool :=
  match chars s with
  | c :: cs => Ascii.eqb c "G" && (length cs =? 55)%nat && forallb is_base32 cs
  | [] => false
  end.
Definition NONCE_FORMAT (s : string) : bool := (slen s =? 32) && string_forall is_lower_hex_char s.
Definition PUBKEY_HEX (s : string) : bool :=
  match chars s with
  | a :: b :: cs =>
      Ascii.eqb a "0" && (Ascii.eqb b "2" || Ascii.eqb b "3") && (length cs =? 64)%nat
      && forallb is_hex_char cs
  | _ => false
  end.
Definition BASE64 (s : string) : bool :=
  (slen s =? 88) && forallb is_base64 (take 86 (chars s))
  && forallb (λ c, is_base64 c || Ascii.eqb c "=") (drop 86 (chars s)).

Definition bad {A} : result faucet_exn A := Err (FaucetError invalid_request None).

Definition str (body : json_body) (k : string) : result faucet_exn string :=
  match body k with
  | Some v => if bool_decide (trim v = "") then bad else Ok (trim v)
  | None => bad
  end.

Definition parseClaimRequest (body : json_body) : result faucet_exn ClaimRequest :=
  token ← str body "pollarAccessToken";
  if MAX_TOKEN_LENGTH <? slen token then bad else
  stellar ← str body "stellarAddress";
  if negb (STELLAR_ACCOUNT stellar) then bad else
  signet ← str body "signetAddress";
  key ← str body "signetPubkey";
  if negb (PUBKEY_HEX key) then bad else
  nonce ← str body "nonce";
  if negb (NONCE_FORMAT nonce) then bad else
  sig ← str body "keySig";
  if negb (BASE64 sig) then bad else
  mret {| pollarAccessToken := token; req_stellar := stellar; signetAddress := signet;
          signetPubkey := toLowerCase key; req_nonce := nonce; keySig := sig |}.

(** [/^tb1[02-9ac-hj-np-z]{8,87}$/] *)
Definition is_bech32 (c : ascii) : bool :=
  Ascii.eqb c "0" || in_range "2" "9" c || Ascii.eqb c "a" || in_range "c" "h" c
  || in_range "j" "n" c || in_range "p" "z" c.
Definition BECH32_CHARS (s : string) : bool :=
  match chars s with
  | a :: b :: c :: cs =>
      Ascii.eqb a "t" && Ascii.eqb b "b" && Ascii.eqb c "1"
      && (8 <=? length cs)%nat && (length cs <=? 87)%nat && forallb is_bech32 cs
  | _ => false
  end.

Definition segwit_script (script : list byte) : bool :=
  (bool_decide (at_ script 0 = Some x00) && ((zlen script =? 22) || (zlen script =? 34)))
  || (bool_decide (at_ script 0 = Some x51) && (zlen script =? 34)).

Definition invalid {A} : result faucet_exn A := Err (FaucetError invalid_address None).

Definition normalizeSignetAddress `{PaymentLib} (raw : option string) : result faucet_exn string :=
  match raw with
  | None => invalid
  | Some raw =>
      let address := trim raw in
      let address := if bool_decide (address = toUpperCase address) then toLowerCase address else address in
      if negb (BECH32_CHARS address) then invalid else
      match addressToOutputScript address testnet with
      | Err _ => invalid
      | Ok script => if segwit_script script then Ok address else invalid
      end
  end.

(** ** The faucet *)

Record AddressUtxo : Type := { utxo : P2wpkhUtxo; utxo_confirmed : bool }.

Record VerifiedLogin : Type := { login_userKey : string; login_stellar : string }.

Class FaucetEnv (W : Type) : Type := {
  fc_now : W → Z;
  fc_getAddressUtxos : string → W → result fault (list AddressUtxo) * W;
  fc_getFeeEstimates : W → result fault (jsmap string double) * W;
  fc_broadcastTx : string → W → result fault string * W;
  fc_verify : string → string → W → result (FaucetErrorCode * option Z) VerifiedLogin * W;
  fc_randomBytes : W → list byte * W;
  fc_sha256_hex : string → string;
}.

Record Claimant : Type := {
  to_address : string;
  to_stellar : string;
  to_user : option string;
}.

(** A broadcast whose coins may be spent, for the statements about the wallet:
    when its inputs were selected, when they were reserved, their outpoints,
    and the claim recorded for it ([None] when its outcome is unknown). *)
Record payout : Type := {
  selected_at : Z;
  reserved_at : Z;
  outpoints : list string;
  claim_of : option ClaimRecord;
}.

Record faucet (W : Type) : Type := mkFaucet {
  claims : list ClaimRecord;
  issued : jsmap string Z;
  reserved : jsmap string Z;
  pendingChange : list (P2wpkhUtxo * Z);
  balanceCache : option (Z * Z);
  world : W;
  payouts : list payout;
}.
Arguments mkFaucet {W}.
Arguments claims {W}.
Arguments issued {W}.
Arguments reserved {W}.
Arguments pendingChange {W}.
Arguments balanceCache {W}.
Arguments world {W}.
Arguments payouts {W}.

Definition startOfUtcDay (t : Z) : Z := t - t mod DAY_MS.

Definition outpoint (u : P2wpkhUtxo) : string := txid u +:+ ":" +:+ z_to_string (vout u).

Definition fmax (x y : double) : double := if SFltb x y then y else x.
Definition fmin (x y : double) : double := if SFltb y x then y else x.
Definition isFinite (x : double) : bool :=
  match x with S754_zero _ | S754_finite _ _ _ => true | _ => false end.

(** [listed.sort((a, b) => Number(b.confirmed) - Number(a.confirmed) || b.value - a.value)] *)
Definition utxo_order (a b : AddressUtxo) : bool :=
  if Bool.eqb (utxo_confirmed a) (utxo_confirmed b)
  then value (utxo b) <=? value (utxo a) else utxo_confirmed a.

Section faucet.
Context {W : Type} `{FaucetEnv W, PaymentLib, MessageLib, KeyEnv}
  (settings : FaucetSettings) (wallet : WritzKeyPair) (self : string).
Abbreviation M := (io (faucet W) faucet_exn).
Abbreviation MF := (io (faucet W) fault).

Definition set_reserved r (s : faucet W) : faucet W :=
  mkFaucet (claims s) (issued s) r (pendingChange s) (balanceCache s) (world s) (payouts s).
Definition set_pending p (s : faucet W) : faucet W :=
  mkFaucet (claims s) (issued s) (reserved s) p (balanceCache s) (world s) (payouts s).
Definition set_issued i (s : faucet W) : faucet W :=
  mkFaucet (claims s) i (reserved s) (pendingChange s) (balanceCache s) (world s) (payouts s).
Definition set_balance b (s : faucet W) : faucet W :=
  mkFaucet (claims s) (issued s) (reserved s) (pendingChange s) b (world s) (payouts s).
Definition set_world w (s : faucet W) : faucet W :=
  mkFaucet (claims s) (issued s) (reserved s) (pendingChange s) (balanceCache s) w (payouts s).
Definition set_claims c (s : faucet W) : faucet W :=
  mkFaucet c (issued s) (reserved s) (pendingChange s) (balanceCache s) (world s) (payouts s).
Definition log_payout p (s : faucet W) : faucet W :=
  mkFaucet (claims s) (issued s) (reserved s) (pendingChange s) (balanceCache s) (world s)
    (p :: payouts s).

Definition now {E} : io (faucet W) E Z := gets (λ s, fc_now (world s)).
Definition ask {E A} (f : W → result E A * W) : io (faucet W) E A := λ s,
  let '(r, w) := f (world s) in (r, set_world w s).
(** A call whose exception the caller looks at. *)
Definition ask_value {A} {X} (f : W → result X A * W) : M (result X A) := λ s,
  let '(r, w) := f (world s) in (Ok r, set_world w s).
Definition refuse {A} (c : FaucetErrorCode) : M A := throw (FaucetError c None).

(** *** Wallet *)

(** From the second line of [spendable] on, at time [t]. *)
Definition spendable_at (t : Z) : MF (list P2wpkhUtxo) :=
  modify (λ s, set_pending (List.filter (λ c, t <? c.2) (pendingChange s)) s);;
  listed ← ask (fc_getAddressUtxos self);
  let listedKeys := map (λ u, outpoint (utxo u)) listed in
  modify (λ s, set_pending
    (List.filter (λ c, negb (bool_decide (outpoint c.1 ∈ listedKeys))) (pendingChange s)) s);;
  free ← gets (λ s u, negb (map_has (outpoint u) (reserved s)));
  pending ← gets pendingChange;
  mret (map utxo (sort_with utxo_order (List.filter (λ u, free (utxo u)) listed))
        ++ List.filter free (map fst pending)).

Definition spendable : MF (list P2wpkhUtxo) :=
  t ← now;
  modify (λ s, set_reserved (List.filter (λ e, t <? e.2) (reserved s)) s);;
  spendable_at t.

Definition feeRate : MF double :=
  estimates ← settle (ask fc_getFeeEstimates);
  let estimate :=
    match estimates with
    | Ok m =>
        match map_get (z_to_string (feeTargetBlocks settings)) m with
        | Some v => if isFinite v then v else minFeeRate settings
        | None => minFeeRate settings
        end
    | Err _ => minFeeRate settings
    end in
  mret (fmin (maxFeeRate settings) (fmax (minFeeRate settings) estimate)).

(** [reserve], with the time its entries expire. *)
Definition reserve (inputs : list P2wpkhUtxo) : M () :=
  t ← now;
  let keys := map outpoint inputs in
  modify (λ s, set_reserved
    (foldl (λ m k, map_set k (t + RESERVATION_TTL_MS) m) (reserved s) keys) s);;
  modify (λ s, set_pending
    (List.filter (λ c, negb (bool_decide (outpoint c.1 ∈ keys))) (pendingChange s)) s).

(** *** Limits *)

Definition checkLimits (claimant : Claimant) (ip : string) : M () :=
  t ← now;
  store ← gets claims;
  if (match to_user claimant with Some u => Claims.hasClaimForUser store u | None => false end)
  then refuse account_already_claimed else
  if Claims.hasClaimForStellarAddress store (to_stellar claimant)
  then refuse stellar_address_already_claimed else
  if Claims.hasClaimForAddress store (to_address claimant)
  then refuse signet_address_already_claimed else
  let ipClaims := Claims.ipClaimsSince store ip (t - ipWindowMs settings + 1) in
  if ipClaimsPerWindow settings <=? zlen ipClaims then
    let freesAt := default 0 (at_ ipClaims (zlen ipClaims - ipClaimsPerWindow settings))
                   + ipWindowMs settings in
    throw (FaucetError ip_cooldown (Some (Z.max 1 (ceil_div (freesAt - t) 1000))))
  else
  let dayStart := startOfUtcDay t in
  if dailyCap settings <=? Claims.countSince store dayStart then
    throw (FaucetError daily_cap_reached (Some (ceil_div (dayStart + DAY_MS - t) 1000)))
  else mret ().

(** *** Sending *)

Definition upstream {A} (e : fault) : M A := throw (FaucetError upstream_unavailable (Some 30)).

(** A 4xx other than 429: the node has refused the transaction. *)
Definition is_rejection (e : fault) : bool :=
  match e with
  | EsploraError status _ _ => (400 <=? status) && (status <? 500) && negb (status =? 429)
  | _ => false
  end.

Definition payment_params (utxos : list P2wpkhUtxo) (rate : double) (to_ : string) :
    P2wpkhPaymentParams := {|
  Payment.utxos := utxos;
  Payment.to := to_;
  Payment.amountSat := amount settings;
  Payment.feeRate := rate;
  Payment.signer := kp_signer wallet;
  Payment.network := testnet;
|}.

(** The candidates and the rate, with the time of the selection. *)
Definition select_inputs : MF (Z * list P2wpkhUtxo * double) :=
  t ← now;
  utxos ← spendable;
  rate ← feeRate;
  mret (t, utxos, rate).

Definition claim_record (claimant : Claimant) (user ip id : string) (t : Z) : ClaimRecord :=
  {| address := to_address claimant; ipHash := ip; userKey := user;
     stellarAddress := to_stellar claimant; claim_txid := id; claim_amountSat := amount settings;
     createdAt := t |}.

Definition payout_log (t r : Z) (payment : P2wpkhPayment) (c : option ClaimRecord) : payout :=
  {| selected_at := t; reserved_at := r; outpoints := map outpoint (inputs payment); claim_of := c |}.

(** The broadcast was accepted. A [record] that throws is only logged. *)
Definition paid (t0 : Z) (claimant : Claimant) (user ip : string) (payment : P2wpkhPayment) :
    M (string * string * Z * Z) :=
  let id := pay_txid payment in
  r ← now;
  reserve (inputs payment);;
  (if 0 <? changeSat payment then
     t ← now;
     modify (λ s, set_pending (pendingChange s ++
       [({| txid := id; vout := 1; value := changeSat payment |}, t + RESERVATION_TTL_MS)]) s)
   else mret ());;
  modify (set_balance None);;
  t ← now;
  modify (λ s,
    let c := claim_record claimant user ip id t in
    match Claims.record (claims s) c with
    | Some store => log_payout (payout_log t0 r payment (Some c)) (set_claims store s)
    | None => log_payout (payout_log t0 r payment None) s
    end);;
  mret (id, to_address claimant, amount settings, feeSat payment).

(** The outcome of the broadcast is unknown: the inputs are kept back. *)
Definition unknown_outcome {A} (t0 : Z) (payment : P2wpkhPayment) (e : fault) : M A :=
  r ← now;
  reserve (inputs payment);;
  modify (log_payout (payout_log t0 r payment None));;
  upstream e.

Definition send (claimant : Claimant) (user ip : string) : M (string * string * Z * Z) :=
  '(t0, utxos, rate) ← handle select_inputs upstream;
  match buildP2wpkhPayment (payment_params utxos rate (to_address claimant)) with
  | Err (InsufficientFunds _ _) => refuse faucet_empty
  | Err e => throw (Rethrown e)
  | Ok payment =>
      sent ← ask_value (fc_broadcastTx (txHex payment));
      match sent with
      | Err e =>
          if is_rejection e then refuse broadcast_rejected else unknown_outcome t0 payment e
      | Ok _ => paid t0 claimant user ip payment
      end
  end.

(** *** Claims *)

Definition hashIp (ip : string) : string := fc_sha256_hex ("writz-signet-faucet:" +:+ ip).

Definition issueNonce : M (string * Z) :=
  t ← now;
  bytes ← (λ s, let '(bs, w) := fc_randomBytes (world s) in (Ok bs, set_world w s));
  t' ← now;
  book ← gets issued;
  let '(expiresAt, book) := Nonces.issue t t' (to_hex bytes) book in
  modify (set_issued book);;
  mret (to_hex bytes, expiresAt).

Definition consume_nonce (nonce : string) : M bool :=
  t ← now;
  book ← gets issued;
  let '(ok, book) := Nonces.consume t nonce book in
  modify (set_issued book);; mret ok.

(** The checks that need no one else: shape, nonce, key control, limits. *)
Definition claim_front (body : json_body) (ip : string) : M (ClaimRequest * string) :=
  req ← lift (parseClaimRequest body);
  fresh ← consume_nonce (req_nonce req);
  if negb fresh then refuse nonce_invalid else
  address ← lift (normalizeSignetAddress (Some (signetAddress req)));
  if bool_decide (address = self) then refuse faucet_address else
  let pubkey := from_hex (signetPubkey req) in
  match pubkeyToP2WPKHAddress pubkey testnet with
  | Err _ => refuse address_key_mismatch
  | Ok derived =>
      if negb (bool_decide (derived = address)) then refuse address_key_mismatch else
      if negb (verifyBitcoinMessage (faucetClaimMessage (req_nonce req) (req_stellar req) address)
                 (SigText (keySig req)) pubkey)
      then refuse bad_signature else
      checkLimits {| to_address := address; to_stellar := req_stellar req; to_user := None |}
        (hashIp ip);;
      mret (req, address)
  end.

(** The login check and the limits of the account it names. *)
Definition claim_verified (req : ClaimRequest) (address ip : string) : M (Claimant * string) :=
  answer ← ask_value (fc_verify (pollarAccessToken req) (req_stellar req));
  match answer with
  | Err (code, retry) => throw (FaucetError code retry)
  | Ok login =>
      let claimant := {| to_address := address; to_stellar := login_stellar login;
                         to_user := Some (login_userKey login) |} in
      checkLimits claimant (hashIp ip);;
      mret (claimant, login_userKey login)
  end.

(** What runs under the faucet's lock. *)
Definition claim_send (claimant : Claimant) (user ip : string) : M (string * string * Z * Z) :=
  checkLimits claimant (hashIp ip);;
  send claimant user (hashIp ip).

(** A claim with nothing in between. *)
Definition claim (body : json_body) (ip : string) : M (string * string * Z * Z) :=
  '(req, address) ← claim_front body ip;
  '(claimant, user) ← claim_verified req address ip;
  claim_send claimant user ip.

(** *** Status *)

Record FaucetStatus : Type := {
  st_address : string;
  st_amountSats : Z;
  st_dailyCap : Z;
  st_remainingToday : Z;
  st_resetsAt : string;
  st_funded : option bool;
}.

Definition read_balance (t : Z) : M (option Z) :=
  handle (utxos ← spendable;
          let sats := total_value utxos in
          modify (set_balance (Some (t, sats)));; mret (Some sats))
         (λ _, mret None).

Definition status : M FaucetStatus :=
  t ← now;
  let dayStart := startOfUtcDay t in
  claimsToday ← gets (λ s, Claims.countSince (claims s) dayStart);
  cached ← gets balanceCache;
  balance ← (match cached with
             | Some (at_, sats) => if t - at_ <? BALANCE_CACHE_MS then mret (Some sats) else read_balance t
             | None => read_balance t
             end);
  let fee := feeFor (minFeeRate settings) 1 [replicate 34 x00; replicate 22 x00] in
  mret {|
    st_address := self;
    st_amountSats := amount settings;
    st_dailyCap := dailyCap settings;
    st_remainingToday := Z.max 0 (dailyCap settings - claimsToday);
    st_resetsAt := toISOString (dayStart + DAY_MS);
    st_funded := b ← balance;
                 Some (match fee with Some f => amount settings + f <=? b | None => false end);
  |}.
End faucet.

(** ** Lemmas on the reservations *)

Lemma map_get_filter_live (m : jsmap string Z) k t e :
  map_get k m = Some e → t < e → map_get k (List.filter (λ e, t <? e.2) m) = Some e.
Proof.
  intros Hg Ht. induction m as [|[k1 v] m IH]; [done|]. simpl in *.
  destruct (decide (k = k1)) as [->|].
  - injection Hg as ->. rewrite (proj2 (Z.ltb_lt t e)) by lia. simpl. by rewrite decide_True.
  - destruct (t <? v); simpl; [rewrite decide_False by done|]; auto.
Qed.

Lemma elem_of_map_set (m : jsmap string Z) k v x : x ∈ map_set k v m → x ∈ m ∨ x.2 = v.
Proof.
  induction m as [|[k1 v1] m IH]; simpl.
  - intros Hx. apply list_elem_of_singleton in Hx as ->. by right.
  - destruct (decide (k = k1)) as [->|]; rewrite !elem_of_cons; [intros [->|?]; auto|].
    intros [->|Hx]; [auto|]. destruct (IH Hx); auto.
Qed.

Definition set_all (v : Z) (keys : list string) (m : jsmap string Z) : jsmap string Z :=
  foldl (λ m k, map_set k v m) m keys.

Lemma set_all_get v keys m k :
  map_get k (set_all v keys m) = if decide (k ∈ keys) then Some v else map_get k m.
Proof.
  unfold set_all. revert m. induction keys as [|k1 keys IH]; intros m; cbn [foldl].
  - by rewrite decide_False by (intros H; inversion H).
  - rewrite IH, map_get_set. destruct (decide (k ∈ keys)) as [Hk|Hk].
    + by rewrite decide_True by set_solver.
    + destruct (decide (k = k1)) as [->|]; [rewrite decide_True by set_solver|rewrite decide_False by set_solver]; done.
Qed.

Lemma set_all_elem v keys m x : x ∈ set_all v keys m → x ∈ m ∨ x.2 = v.
Proof.
  unfold set_all. revert m. induction keys as [|k1 keys IH]; intros m; cbn [foldl]; [by left|].
  intros [Hx|]%IH; [|by right]. by apply elem_of_map_set in Hx.
Qed.

(** ** The store's limits *)

Definition in_window (a b t : Z) : bool := (a <=? t) && (t <? b).

(** Claims created in [[a, b)], of one address or of all. *)
Definition claims_in (a b : Z) (cs : list ClaimRecord) : list ClaimRecord :=
  List.filter (λ c, in_window a b (createdAt c)) cs.
Definition ip_claims_in (ip : string) (a b : Z) (cs : list ClaimRecord) : list ClaimRecord :=
  List.filter (λ c, bool_decide (ipHash c = ip) && in_window a b (createdAt c)) cs.

Record limits_hold (settings : FaucetSettings) (cs : list ClaimRecord) : Prop := {
  lim_users : NoDup (map userKey cs);
  lim_stellar : NoDup (map stellarAddress cs);
  lim_addresses : NoDup (map address cs);
  lim_day d : d mod DAY_MS = 0 → zlen (claims_in d (d + DAY_MS) cs) ≤ dailyCap settings;
  lim_ip ip a : zlen (ip_claims_in ip a (a + ipWindowMs settings) cs) ≤ ipClaimsPerWindow settings;
}.

Lemma zlen_filter_le {A} (p q : A → bool) l :
  (∀ x, x ∈ l → p x = true → q x = true) → zlen (List.filter p l) ≤ zlen (List.filter q l).
Proof.
  unfold zlen. induction l as [|x l IH]; intros Hpq; [done|]. simpl.
  specialize (IH ltac:(set_solver)). specialize (Hpq x ltac:(set_solver)).
  destruct (p x) eqn:Ep; [rewrite Hpq by done; simpl; lia|]. destruct (q x); simpl; lia.
Qed.

Lemma zlen_filter_none {A} (p : A → bool) l :
  (∀ x, x ∈ l → p x = false) → zlen (List.filter p l) = 0.
Proof.
  induction l as [|x l IH]; intros H; [done|]. simpl. rewrite H by set_solver. apply IH. set_solver.
Qed.

Lemma filter_snoc {A} (p : A → bool) l x :
  zlen (List.filter p (l ++ [x])) = zlen (List.filter p l) + (if p x then 1 else 0).
Proof. rewrite List.filter_app, zlen_app. simpl. by destruct (p x). Qed.

Lemma has_false {A} (f : A → string) (cs : list A) x :
  existsb (λ c, bool_decide (f c = x)) cs = false → x ∉ map f cs.
Proof.
  intros H Hin. rewrite list_elem_of_In, in_map_iff in Hin. destruct Hin as (c & <- & Hc).
  assert (existsb (λ c', bool_decide (f c' = f c)) cs = true) by
    (apply existsb_exists; exists c; split; [done|by apply bool_decide_eq_true]).
  congruence.
Qed.

Lemma NoDup_snoc {A} (l : list A) x : NoDup l → x ∉ l → NoDup (l ++ [x]).
Proof. intros Hl Hx. apply NoDup_app. split_and!; [done| |apply NoDup_singleton]. set_solver. Qed.

(** What [checkLimits] has established at time [t] when it lets a claim through. *)
Definition within_limits (settings : FaucetSettings) (cs : list ClaimRecord) (claimant : Claimant)
    (user ip : string) (t : Z) : Prop :=
  Claims.hasClaimForUser cs user = false ∧
  Claims.hasClaimForStellarAddress cs (to_stellar claimant) = false ∧
  Claims.hasClaimForAddress cs (to_address claimant) = false ∧
  zlen (List.filter (Claims.from_ip ip (t - ipWindowMs settings + 1)) cs) < ipClaimsPerWindow settings ∧
  Claims.countSince cs (startOfUtcDay t) < dailyCap settings.

Lemma startOfUtcDay_spec t : startOfUtcDay t ≤ t < startOfUtcDay t + DAY_MS ∧ startOfUtcDay t mod DAY_MS = 0.
Proof.
  unfold startOfUtcDay. pose proof (Z.mod_pos_bound t DAY_MS ltac:(reflexivity)).
  pose proof (Z.div_mod t DAY_MS ltac:(done)). split; [lia|].
  replace (t - t mod DAY_MS) with (t / DAY_MS * DAY_MS) by lia. apply Z.mod_mul. done.
Qed.

(** Two day starts in the same day are one. *)
Lemma day_start_unique d t : d mod DAY_MS = 0 → d ≤ t < d + DAY_MS → d = startOfUtcDay t.
Proof.
  intros Hd Ht. unfold startOfUtcDay. assert (HD : 0 < DAY_MS) by reflexivity.
  pose proof (Z.div_mod d DAY_MS ltac:(lia)).
  assert (t - d = t mod DAY_MS); [|lia].
  apply (Z.mod_unique t DAY_MS (d / DAY_MS)); [left|]; lia.
Qed.

(** Recording a claim checked at [t] and dated [t' ≥ t] keeps every limit. *)
Lemma record_keeps_limits settings cs claimant user ip t t' c :
  limits_hold settings cs → Forall (λ c, createdAt c ≤ t) cs → 0 < ipWindowMs settings →
  within_limits settings cs claimant user ip t → t ≤ t' →
  userKey c = user → stellarAddress c = to_stellar claimant → address c = to_address claimant →
  ipHash c = ip → createdAt c = t' →
  Claims.record cs c = Some (cs ++ [c]) ∧ limits_hold settings (cs ++ [c]).
Proof.
  intros Hl Hdated HW (Hu & Hs & Ha & Hip & Hday) Ht Eu Es Ea Ei Ec.
  rewrite Forall_forall in Hdated.
  unfold Claims.record. rewrite Eu, Es, Ea, Hu, Hs, Ha. split; [done|]. split.
  - rewrite map_app. apply NoDup_snoc; [apply Hl|]. simpl. rewrite Eu. by apply has_false.
  - rewrite map_app. apply NoDup_snoc; [apply Hl|]. simpl. rewrite Es. by apply has_false.
  - rewrite map_app. apply NoDup_snoc; [apply Hl|]. simpl. rewrite Ea. by apply has_false.
  - intros d Hd. unfold claims_in. rewrite filter_snoc.
    destruct (in_window d (d + DAY_MS) (createdAt c)) eqn:Ew; [|pose proof (lim_day _ _ Hl d Hd); unfold claims_in in *; lia].
    unfold in_window in Ew. bools. rewrite Ec in *.
    destruct (decide (d ≤ t)) as [Hdt|Hdt].
    + rewrite (day_start_unique d t Hd) in * by lia. unfold Claims.countSince in Hday.
      enough (zlen (List.filter (λ c, in_window (startOfUtcDay t) (startOfUtcDay t + DAY_MS) (createdAt c)) cs)
              ≤ zlen (List.filter (λ c, startOfUtcDay t <=? createdAt c) cs)) by lia.
      apply zlen_filter_le. unfold in_window. intros x _ Hx. bools. by apply Z.leb_le.
    + rewrite zlen_filter_none.
      * unfold Claims.countSince in Hday. pose proof (zlen_nonneg (List.filter (λ c, startOfUtcDay t <=? createdAt c) cs)). lia.
      * intros x Hx. specialize (Hdated x Hx). simpl in Hdated. unfold in_window.
        by rewrite (proj2 (Z.leb_gt d (createdAt x))) by lia.
  - intros ip' a. unfold ip_claims_in. rewrite filter_snoc.
    destruct (bool_decide (ipHash c = ip') && _) eqn:Ew; [|pose proof (lim_ip _ _ Hl ip' a); unfold ip_claims_in in *; lia].
    unfold in_window in Ew. bools. subst ip'. rewrite Ec, Ei in *.
    enough (zlen (List.filter (λ c, bool_decide (ipHash c = ip) && in_window a (a + ipWindowMs settings) (createdAt c)) cs)
            ≤ zlen (List.filter (Claims.from_ip ip (t - ipWindowMs settings + 1)) cs)) by lia.
    apply zlen_filter_le. unfold in_window, Claims.from_ip. intros x Hx Hw. bools.
    apply andb_true_iff. split; [by apply bool_decide_eq_true|]. apply Z.leb_le. lia.
Qed.

(** ** The faucet over time *)

(** Documented behaviour of the world: no call moves the clock back. *)
Class FaucetLaws W `{FaucetEnv W} : Prop := {
  now_getAddressUtxos a w : fc_now w ≤ fc_now (fc_getAddressUtxos a w).2;
  now_getFeeEstimates w : fc_now w ≤ fc_now (fc_getFeeEstimates w).2;
  now_broadcastTx tx w : fc_now w ≤ fc_now (fc_broadcastTx tx w).2;
  now_verify t a w : fc_now w ≤ fc_now (fc_verify t a w).2;
  now_randomBytes w : fc_now w ≤ fc_now (fc_randomBytes w).2;
}.

Section over_time.
Context {W : Type} `{FaucetEnv W, !FaucetLaws W, PaymentLib, MessageLib, KeyEnv}
  (settings : FaucetSettings) (wallet : WritzKeyPair) (self : string).
Implicit Types s : faucet W.

Definition time s : Z := fc_now (world s).

(** No reservation outlives its term. *)
Definition bounded s : Prop := ∀ x, x ∈ reserved s → x.2 ≤ time s + RESERVATION_TTL_MS.

(** [k] stays reserved until [until]. *)
Definition held s (k : string) (until : Z) : Prop :=
  ∃ e, map_get k (reserved s) = Some e ∧ until ≤ e.

(** Everything but a payout: time passes, claims and payouts stay, and live
    reservations stay. *)
Definition harmless s s' : Prop :=
  time s ≤ time s' ∧ claims s' = claims s ∧ payouts s' = payouts s ∧
  (bounded s → bounded s') ∧
  (bounded s → ∀ k until, time s' < until → held s k until → held s' k until).

#[local] Instance harmless_preorder : PreOrder harmless.
Proof.
  split.
  - intros s. unfold harmless. split_and!; auto with lia.
  - intros s1 s2 s3 (T1 & C1 & P1 & B1 & H1') (T2 & C2 & P2 & B2 & H2').
    unfold harmless. split_and!; [lia|congruence|congruence|auto|].
    intros Hb k until Hu Hh. apply H2'; auto. apply H1'; auto. lia.
Qed.

Lemma harmless_same s s' :
  time s ≤ time s' → claims s' = claims s → payouts s' = payouts s → reserved s' = reserved s →
  harmless s s'.
Proof.
  intros Ht Hc Hp Hr. unfold harmless, bounded, held. rewrite Hr. split_and!; auto.
  intros Hb x Hx. specialize (Hb x Hx). lia.
Qed.

Lemma now_harmless {E} : preserves harmless (now (E := E)).
Proof. apply preserves_gets. typeclasses eauto. Qed.

Lemma ask_harmless {E A} (f : W → result E A * W) :
  (∀ w, fc_now w ≤ fc_now (f w).2) → preserves harmless (ask f).
Proof.
  intros Hf s. unfold ask. specialize (Hf (world s)). destruct (f (world s)) as [r w]. simpl in *.
  by apply harmless_same.
Qed.

Lemma ask_value_harmless {X A} (f : W → result X A * W) :
  (∀ w, fc_now w ≤ fc_now (f w).2) → preserves harmless (ask_value f).
Proof.
  intros Hf s. unfold ask_value. specialize (Hf (world s)). destruct (f (world s)) as [r w]. simpl in *.
  by apply harmless_same.
Qed.

Lemma pending_harmless {E} f : preserves harmless (modify (λ s, set_pending (f s) s) : io _ E ()).
Proof. apply preserves_modify. intros s. by apply harmless_same. Qed.

Lemma balance_harmless {E} b : preserves harmless (modify (set_balance b) : io _ E ()).
Proof. apply preserves_modify. intros s. by apply harmless_same. Qed.

Lemma issued_harmless {E} i : preserves harmless (modify (set_issued i) : io _ E ()).
Proof. apply preserves_modify. intros s. by apply harmless_same. Qed.

Ltac clock :=
  intros; first [apply now_getAddressUtxos | apply now_getFeeEstimates | apply now_broadcastTx
                | apply now_verify | apply now_randomBytes].
#[local] Hint Resolve now_harmless pending_harmless balance_harmless issued_harmless : preserves.
#[local] Hint Extern 1 (preserves _ (ask _)) => apply ask_harmless; clock : preserves.
#[local] Hint Extern 1 (preserves _ (ask_value _)) => apply ask_value_harmless; clock : preserves.

(** Dropping the reservations that have expired. *)
Lemma expire_harmless s :
  harmless s (set_reserved (List.filter (λ e, time s <? e.2) (reserved s)) s).
Proof.
  unfold harmless, bounded, held, time. simpl. split_and!; [lia|done|done| |].
  - intros Hb x Hx. apply Hb. apply list_elem_of_In. apply list_elem_of_In, List.filter_In in Hx. apply Hx.
  - intros _ k until Hu (e & He & Hue). exists e. split; [|done].
    apply map_get_filter_live; [done|lia].
Qed.

Lemma spendable_at_harmless t : preserves harmless (spendable_at self t).
Proof. unfold spendable_at. preserve. Qed.

Lemma spendable_harmless : preserves harmless (spendable self).
Proof. intros s. etrans; [apply (expire_harmless s)|]. apply spendable_at_harmless. Qed.
#[local] Hint Resolve spendable_harmless : preserves.

Lemma feeRate_harmless : preserves harmless (feeRate settings).
Proof. unfold feeRate. preserve. Qed.
#[local] Hint Resolve feeRate_harmless : preserves.

Lemma select_inputs_harmless : preserves harmless (select_inputs settings self).
Proof. unfold select_inputs. preserve. Qed.
#[local] Hint Resolve select_inputs_harmless : preserves.

Lemma checkLimits_harmless c ip : preserves harmless (checkLimits settings c ip).
Proof. unfold checkLimits, refuse. preserve. Qed.
#[local] Hint Resolve checkLimits_harmless : preserves.

Lemma issueNonce_harmless : preserves harmless issueNonce.
Proof.
  unfold issueNonce. preserve. intros s. pose proof (now_randomBytes (world s)) as Hw.
  destruct (fc_randomBytes (world s)) as [bs w]. simpl in *. by apply harmless_same.
Qed.

Lemma claim_front_harmless body ip : preserves harmless (claim_front settings self body ip).
Proof. unfold claim_front, consume_nonce, refuse. preserve. Qed.

Lemma claim_verified_harmless req a ip : preserves harmless (claim_verified settings req a ip).
Proof. unfold claim_verified. preserve. Qed.

Lemma status_harmless : preserves harmless (status settings self).
Proof. unfold status, read_balance. preserve. Qed.

(** *** The send *)

Lemma spendable_at_free t s us s' :
  spendable_at self t s = (Ok us, s') → ∀ u, u ∈ us → map_get (outpoint u) (reserved s) = None.
Proof.
  unfold spendable_at, mbind, io_bind, modify, gets, ask, mret, io_ret. cbn.
  destruct (fc_getAddressUtxos self (world s)) as [[listed|e] w]; cbn; [|done].
  intros [= <- _] u Hu. apply elem_of_app in Hu as [Hu|Hu].
  - apply list_elem_of_fmap in Hu as (a & -> & Ha). rewrite sort_with_perm in Ha.
    apply list_elem_of_In, List.filter_In in Ha as [_ Ha]. bools. by apply map_has_false.
  - apply list_elem_of_In, List.filter_In in Hu as [_ Hu]. bools. by apply map_has_false.
Qed.

Lemma select_free s t0 us rate s' :
  select_inputs settings self s = (Ok (t0, us, rate), s') →
  t0 = time s ∧ ∀ u e, u ∈ us → map_get (outpoint u) (reserved s) = Some e → e ≤ t0.
Proof.
  unfold select_inputs, spendable, mbind, io_bind, now, gets, modify. cbn. fold (time s).
  destruct (spendable_at self (time s) _) as [[us'|e] s1] eqn:Es; [|done].
  destruct (feeRate settings s1) as [[rate'|e] s2]; cbn; [|done]. intros [= <- <- <- <-].
  split; [done|]. intros u e Hu He. destruct (decide (e ≤ time s)) as [|Hlt]; [done|].
  pose proof (spendable_at_free _ _ _ _ Es u Hu) as Hn. simpl in Hn.
  rewrite (map_get_filter_live _ _ (time s) e) in Hn; [done|done|lia].
Qed.

Lemma ipClaims_length cs ip since :
  zlen (Claims.ipClaimsSince cs ip since) = zlen (List.filter (Claims.from_ip ip since) cs).
Proof.
  unfold Claims.ipClaimsSince, zlen. by rewrite (Permutation_length (sort_by_perm id _)), length_map.
Qed.

Lemma checkLimits_spec claimant user ip s :
  (checkLimits settings claimant ip s).2 = s ∧
  (to_user claimant = Some user → (checkLimits settings claimant ip s).1 = Ok () →
   within_limits settings (claims s) claimant user ip (time s)).
Proof.
  unfold checkLimits, refuse, throw, mbind, io_bind, now, gets, mret, io_ret, within_limits.
  cbn -[Claims.ipClaimsSince Claims.countSince]. rewrite ipClaims_length. fold (time s). split.
  - by repeat match goal with |- context [if ?b then _ else _] => destruct b end.
  - intros ->. destruct (Claims.hasClaimForUser (claims s) user) eqn:E1; [done|].
    destruct (Claims.hasClaimForStellarAddress (claims s) _) eqn:E2; [done|].
    destruct (Claims.hasClaimForAddress (claims s) _) eqn:E3; [done|].
    destruct (ipClaimsPerWindow settings <=? _) eqn:E4; [done|].
    destruct (dailyCap settings <=? _) eqn:E5; [done|]. bools. intros _. split_and!; done || lia.
Qed.

(** What is left of the state after a broadcast. *)
Definition after_payout s (payment : P2wpkhPayment) (s' : faucet W) : Prop :=
  world s' = world s ∧
  reserved s' = set_all (time s + RESERVATION_TTL_MS) (map outpoint (inputs payment)) (reserved s).

Lemma paid_spec t0 claimant user ip payment s :
  let s' := (paid settings t0 claimant user ip payment s).2 in
  let c := claim_record settings claimant user ip (pay_txid payment) (time s) in
  after_payout s payment s' ∧
  match Claims.record (claims s) c with
  | Some store => claims s' = store ∧ payouts s' = payout_log t0 (time s) payment (Some c) :: payouts s
  | None => claims s' = claims s ∧ payouts s' = payout_log t0 (time s) payment None :: payouts s
  end.
Proof.
  unfold paid, reserve, mbind, io_bind, now, gets, modify, mret, io_ret, after_payout, time. cbn zeta.
  destruct (0 <? changeSat payment); cbn -[Claims.record set_all];
    by destruct (Claims.record (claims s) _).
Qed.

Lemma unknown_spec {A} t0 payment e s :
  let s' := (unknown_outcome (A := A) t0 payment e s).2 in
  after_payout s payment s' ∧ claims s' = claims s ∧
  payouts s' = payout_log t0 (time s) payment None :: payouts s.
Proof. done. Qed.

(** *** The invariant *)

(** No payout selects an outpoint an earlier one still holds (newest first). *)
Fixpoint no_double_spend (ps : list payout) : Prop :=
  match ps with
  | [] => True
  | p :: older =>
      (∀ q k, q ∈ older → selected_at p < reserved_at q + RESERVATION_TTL_MS →
         k ∈ outpoints p → k ∉ outpoints q) ∧ no_double_spend older
  end.

Record inv s : Prop := {
  inv_limits : limits_hold settings (claims s);
  inv_dated : Forall (λ c, createdAt c ≤ time s) (claims s);
  inv_bounded : bounded s;
  inv_held p k : p ∈ payouts s → k ∈ outpoints p → time s < reserved_at p + RESERVATION_TTL_MS →
    held s k (reserved_at p + RESERVATION_TTL_MS);
  inv_disjoint : no_double_spend (payouts s);
  inv_recorded : omap claim_of (rev (payouts s)) = claims s;
}.

Lemma inv_harmless s s' : harmless s s' → inv s → inv s'.
Proof.
  intros (Ht & Hc & Hp & Hb & Hh) [L D B H' N R]. split; rewrite ?Hc, ?Hp; auto.
  - eapply Forall_impl; [exact D|]. intros c ?. simpl in *. lia.
  - intros p k Hin Hk Hlt. apply Hh; auto. apply H'; auto. lia.
Qed.

(** The reservations after a payout. *)
Lemma payout_reservations s s' t0 payment c :
  inv s → after_payout s payment s' →
  bounded s' ∧
  ∀ p k, p ∈ payout_log t0 (time s) payment c :: payouts s → k ∈ outpoints p →
    time s' < reserved_at p + RESERVATION_TTL_MS → held s' k (reserved_at p + RESERVATION_TTL_MS).
Proof.
  intros I [Hw Hr]. assert (Ht : time s' = time s) by (unfold time; by rewrite Hw).
  unfold bounded, held. rewrite Hr, Ht. split.
  - intros x [Hx| ->]%set_all_elem; [by apply (inv_bounded _ I)|lia].
  - intros p k Hin Hk Hlt. rewrite set_all_get. destruct (decide _) as [Hd|Hd].
    + eexists. split; [done|]. apply elem_of_cons in Hin as [->|Hin]; [simpl; lia|].
      destruct (inv_held _ I p k Hin Hk Hlt) as (e & He & Hle).
      pose proof (inv_bounded _ I (k, e) (map_get_elem _ _ _ He)). simpl in *. lia.
    + apply elem_of_cons in Hin as [->|Hin]; [done|]. by apply (inv_held _ I).
Qed.

(** A new payout does not touch what earlier ones hold. *)
Lemma payout_disjoint s s1 s2 t0 us rate payment c r p :
  inv s → harmless s s2 → select_inputs settings self s = (Ok (t0, us, rate), s1) →
  buildP2wpkhPayment p = Ok payment → Payment.utxos p = us →
  no_double_spend (payout_log t0 r payment c :: payouts s2).
Proof.
  intros I Hs2 Hsel Hb Hus. destruct (select_free _ _ _ _ _ Hsel) as [-> Hfree].
  destruct Hs2 as (_ & _ & Hp & _). rewrite Hp. split; [|apply I]. simpl.
  intros q k Hq Hlt Hk Hkq. apply list_elem_of_fmap in Hk as (u & -> & Hu).
  apply (build_inputs _ _ Hb) in Hu. rewrite Hus in Hu.
  destruct (inv_held _ I q _ Hq Hkq Hlt) as (e & He & Hle).
  specialize (Hfree u e Hu He). lia.
Qed.

Lemma omap_snoc {A B} (f : A → option B) l x :
  omap f (l ++ [x]) = omap f l ++ (match f x with Some y => [y] | None => [] end).
Proof. rewrite omap_app. simpl. by destruct (f x). Qed.

Lemma recorded_snoc s p x :
  inv s → claim_of p = x →
  omap claim_of (rev (p :: payouts s)) = claims s ++ (match x with Some y => [y] | None => [] end).
Proof. intros I <-. simpl. by rewrite omap_snoc, (inv_recorded _ I). Qed.

Lemma send_keeps_inv claimant user ip s :
  0 < ipWindowMs settings → inv s → within_limits settings (claims s) claimant user ip (time s) →
  inv (send settings wallet self claimant user ip s).2.
Proof.
  intros HW I Hl. unfold send, mbind, io_bind, handle.
  destruct (select_inputs settings self s) as [[[[t0 us] rate]|e] s1] eqn:Es;
    pose proof (select_inputs_harmless s) as H1'; rewrite Es in H1'; simpl in H1';
    [|by eapply inv_harmless].
  destruct (buildP2wpkhPayment _) as [payment|err] eqn:Eb;
    [|destruct err; by eapply inv_harmless].
  unfold mbind, io_bind. pose proof (ask_value_harmless (X := fault) (fc_broadcastTx (txHex payment))) as H2'.
  specialize (H2' (λ w, now_broadcastTx _ w) s1).
  destruct (ask_value (fc_broadcastTx (txHex payment)) s1) as [sent s2] eqn:Ea. simpl in H2'.
  assert (Hs2 : harmless s s2) by (by etrans).
  pose proof (inv_harmless _ _ Hs2 I) as I2. destruct Hs2 as (Ht2 & Hc2 & Hp2 & Hrest).
  assert (Hdis : ∀ c r, no_double_spend (payout_log t0 r payment c :: payouts s2)) by
    (intros; eapply payout_disjoint; [exact I|exact (conj Ht2 (conj Hc2 (conj Hp2 Hrest)))|exact Es|exact Eb|done]).
  unfold ask_value in Ea. destruct (fc_broadcastTx _ _) as [answer w]. injection Ea as <- Ea.
  destruct answer as [id|e].
  - pose proof (paid_spec t0 claimant user ip payment s2) as [Hafter Hcl]. rewrite Hc2 in Hcl.
    set (s' := (paid settings t0 claimant user ip payment s2).2) in *. cbn zeta in Hcl.
    set (c := claim_record settings claimant user ip (pay_txid payment) (time s2)) in *.
    destruct (record_keeps_limits settings (claims s) claimant user ip (time s) (time s2) c)
      as [Hrec Hlim]; auto; [apply I|apply I|].
    rewrite Hrec in Hcl. destruct Hcl as [Hcl Hpl].
    assert (Ht' : time s' = time s2) by (unfold time; by rewrite (proj1 Hafter)).
    destruct (payout_reservations _ _ t0 _ (Some c) I2 Hafter) as [HB HH].
    split; rewrite ?Hcl, ?Hpl; auto.
    + rewrite Ht'. apply Forall_app. split; [|by repeat constructor].
      rewrite <- Hc2. apply I2.
    + rewrite (recorded_snoc s2 _ (Some c) I2) by done. by rewrite Hc2.
  - destruct (is_rejection e); [exact I2|].
    destruct (unknown_spec (A := string * string * Z * Z) t0 payment e s2) as (Hafter & Hcl & Hpl).
    set (s' := (unknown_outcome t0 payment e s2).2) in *.
    assert (Ht' : time s' = time s2) by (unfold time; by rewrite (proj1 Hafter)).
    destruct (payout_reservations _ _ t0 _ None I2 Hafter) as [HB HH].
    split; rewrite ?Hcl, ?Hpl; auto; [apply I2|rewrite Ht'; apply I2|].
    by rewrite (recorded_snoc s2 _ None I2), app_nil_r.
Qed.

(** *** Runs *)

(** Any claim at any stage, challenges, status reads, and time passing. *)
Inductive faucet_step : faucet W → faucet W → Prop :=
| step_nonce s : faucet_step s (issueNonce s).2
| step_front body ip s : faucet_step s (claim_front settings self body ip s).2
| step_verified req a ip s : faucet_step s (claim_verified settings req a ip s).2
| step_send claimant user ip s :
    to_user claimant = Some user →
    faucet_step s (claim_send settings wallet self claimant user ip s).2
| step_status s : faucet_step s (status settings self s).2
| step_time w s : fc_now (world s) ≤ fc_now w → faucet_step s (set_world w s).

Definition new_faucet (w : W) : faucet W := mkFaucet [] [] [] [] None w [].

Lemma no_double_spend_at newer p older q k :
  no_double_spend (newer ++ p :: older) → q ∈ older →
  selected_at p < reserved_at q + RESERVATION_TTL_MS → k ∈ outpoints p → k ∉ outpoints q.
Proof.
  induction newer as [|n newer IH]; simpl; intros [Hd Hn]; [by apply Hd|by apply IH].
Qed.

Lemma claim_send_keeps_inv claimant user ip s :
  0 < ipWindowMs settings → to_user claimant = Some user → inv s →
  inv (claim_send settings wallet self claimant user ip s).2.
Proof.
  intros HW Hu I. unfold claim_send, mbind, io_bind.
  destruct (checkLimits_spec claimant user (hashIp ip) s) as [Hs Hok].
  destruct (checkLimits settings claimant (hashIp ip) s) as [[[]|e] s1]; simpl in *; subst s1; [|done].
  by apply send_keeps_inv; auto.
Qed.

Lemma step_keeps_inv s s' : 0 < ipWindowMs settings → faucet_step s s' → inv s → inv s'.
Proof.
  intros HW Hstep. destruct Hstep.
  - apply inv_harmless, issueNonce_harmless.
  - apply inv_harmless, claim_front_harmless.
  - apply inv_harmless, claim_verified_harmless.
  - by apply claim_send_keeps_inv.
  - apply inv_harmless, status_harmless.
  - apply inv_harmless. by apply harmless_same.
Qed.

Lemma reachable_inv w s :
  valid_settings settings = true → 0 ≤ dailyCap settings →
  rtc faucet_step (new_faucet w) s → inv s.
Proof.
  unfold valid_settings. intros Hv Hcap Hr. bools.
  assert (I0 : inv (new_faucet w)).
  { split; simpl.
    - split; simpl; try constructor; intros; unfold claims_in, ip_claims_in, zlen; simpl; lia.
    - constructor.
    - intros x Hx. inversion Hx.
    - intros p k Hp. inversion Hp.
    - done.
    - done. }
  revert I0. induction Hr as [|s1 s2 s3 Hstep _ IH]; [done|]. intros I1. apply IH.
  by eapply step_keeps_inv.
Qed.
End over_time.

Arguments normalizeSignetAddress : simpl never.
Arguments pubkeyToP2WPKHAddress : simpl never.
Arguments verifyBitcoinMessage : simpl never.
Arguments checkLimits : simpl never.

(** ** Properties *)


(** C18: the faucet never double-spends itself. In every reachable state, the
    inputs of a broadcast - accepted, or of unknown outcome - are disjoint
    from those of every earlier one made less than the reservation term (30
    minutes) before its own inputs were selected, even when Esplora still
    lists the spent outputs. *)
Theorem faucet_no_double_spend {W} `{FaucetEnv W, !FaucetLaws W, PaymentLib, MessageLib, KeyEnv}
    (settings : FaucetSettings) (wallet : WritzKeyPair) (self : string) (w : W) (s : faucet W)
    (newer : list payout) (p : payout) (older : list payout) (q : payout) (k : string)
    (Hvalid : valid_settings settings = true) (Hcap : 0 ≤ dailyCap settings)
    (Hreach : rtc (faucet_step settings wallet self) (new_faucet w) s)
    (Hlog : payouts s = newer ++ p :: older) (Hq : q ∈ older)
    (Hterm : selected_at p < reserved_at q + RESERVATION_TTL_MS) (Hk : k ∈ outpoints p) :
  k ∉ outpoints q.
Proof.
  pose proof (inv_disjoint _ _ (reachable_inv settings wallet self w s Hvalid Hcap Hreach)) as Hd.
  rewrite Hlog in Hd. by eapply no_double_spend_at.
Qed.

(** What a claim has proved before anyone else is asked about it. The
    checks make no outside call; a well-formed request spends its challenge
    whatever comes next; and the login check is only reached with a challenge
    this faucet issued and that had not expired or been used, an address that
    is the P2WPKH address of the request's key (never the faucet's own), and a
    signature by that key over the challenge, the Stellar address and the
    Signet address together. *)
Theorem claim_front_checks {W} `{FaucetEnv W, PaymentLib, MessageLib, KeyEnv}
    (settings : FaucetSettings) (self : string) (body : json_body) (ip : string) (s : faucet W) :
  let '(r, s') := claim_front settings self body ip s in
  world s' = world s ∧ claims s' = claims s ∧ payouts s' = payouts s ∧
  (∀ req, parseClaimRequest body = Ok req → map_get (req_nonce req) (issued s') = None) ∧
  ∀ req a, r = Ok (req, a) →
    parseClaimRequest body = Ok req
    ∧ (∃ e, map_get (req_nonce req) (issued s) = Some e ∧ time s < e)
    ∧ normalizeSignetAddress (Some (signetAddress req)) = Ok a ∧ a ≠ self
    ∧ pubkeyToP2WPKHAddress (from_hex (signetPubkey req)) testnet = Ok a
    ∧ verifyBitcoinMessage (faucetClaimMessage (req_nonce req) (req_stellar req) a)
        (SigText (keySig req)) (from_hex (signetPubkey req)) = true.
Proof.
  destruct (claim_front settings self body ip s) as [r s'] eqn:E. revert E.
  unfold claim_front, consume_nonce, refuse, throw, lift, mbind, io_bind, now, gets, modify, mret, io_ret.
  destruct (parseClaimRequest body) as [req|e] eqn:Ep; cbn;
    [|intros [= <- <-]; split_and!; done].
  unfold Nonces.consume.
  destruct (map_get (req_nonce req) (issued s)) as [e|] eqn:En; cbn;
    [|intros [= <- <-]; split_and!; try done; by intros ? [= <-]].
  assert (Hgone : ∀ req', Ok req = Ok req' :> result faucet_exn _ →
            map_get (req_nonce req') (map_delete (req_nonce req) (issued s)) = None)
    by (intros ? [= <-]; apply map_get_delete_eq).
  destruct (fc_now (world s) <? e) eqn:Et; cbn;
    [bools|intros [= <- <-]; split_and!; done].
  destruct (normalizeSignetAddress (Some (signetAddress req))) as [a|x] eqn:Ea; cbn;
    [|intros [= <- <-]; split_and!; done].
  case_bool_decide as Hself; cbn; [intros [= <- <-]; split_and!; done|].
  destruct (pubkeyToP2WPKHAddress _ testnet) as [d|x] eqn:Ed; cbn;
    [|intros [= <- <-]; split_and!; done].
  case_bool_decide as Hd; cbn; [|intros [= <- <-]; split_and!; done].
  destruct (verifyBitcoinMessage _ _ _) eqn:Ev; cbn;
    [|intros [= <- <-]; split_and!; done].
  match goal with |- context [checkLimits _ ?c ?h ?x] =>
    destruct (checkLimits_spec settings c "" h x) as [Hsame _]; destruct (checkLimits settings c h x) as [[[]|er] s1] end;
    simpl in Hsame; subst s1; cbn; intros [= <- <-]; split_and!; try done.
  intros ? ? [= <- <-]. subst d. split_and!; eauto.
Qed.

(** ** A concrete faucet *)

Module Demo.
Definition demo_key : list byte := x02 :: replicate 32 x01.
Definition demo_address : string := "tb1qw508d6qejxtdg4y5r3zarvary0c5xw7kxpjzsx".
Definition demo_stellar : string := "G" +:+ of_chars (replicate 55 "A"%char).
Definition demo_script : list byte := x00 :: x14 :: replicate 20 x00.
Definition demo_utxo (id : string) : AddressUtxo :=
  {| utxo := {| txid := id; vout := 0; value := 100000 |}; utxo_confirmed := true |}.

(** The clock, and the answers to the next broadcasts. *)
Definition demo_world : Type := Z * list (result fault string).

#[local] Instance demo_env : FaucetEnv demo_world := {
  fc_now w := w.1;
  fc_getAddressUtxos _ w := (Ok (map demo_utxo ["aa"; "bb"; "cc"]), w);
  fc_getFeeEstimates w := (Ok [], w);
  fc_broadcastTx _ w :=
    match w.2 with [] => (Ok "id"%string, w) | r :: rs => (r, (w.1 + 1000, rs)) end;
  fc_verify _ a w := (Ok {| login_userKey := "user"; login_stellar := a |}, w);
  fc_randomBytes w := (replicate 16 x01, w);
  fc_sha256_hex s := s;
}.
#[local] Instance demo_laws : FaucetLaws demo_world.
Proof. split; intros; simpl; try lia. destruct w as [t [|r rs]]; simpl; lia. Defined.
#[local] Instance demo_payment : PaymentLib := {
  toOutputScript _ _ := Some demo_script;
  p2wpkh _ _ := Some demo_script;
  sign _ _ _ _ := Ok ("hex"%string, "id"%string, 110);
}.
#[local] Instance demo_message : MessageLib := {
  hash256 bs := bs;
  signRecoverable _ _ := ([], 0);
  recover _ _ _ := Ok (Some demo_key);
}.
#[local] Instance demo_keys : KeyEnv := {
  fromWIF _ _ := None;
  fromPrivateKey _ _ := None;
  p2wpkh_address k _ := if bool_decide (k = demo_key) then Some demo_address else None;
  kms_getPublicKey _ := Ok None;
  kms_sign _ _ := Ok None;
}.

Definition one_sat_per_vb : double := S754_finite false 4503599627370496 (-52).
Definition demo_settings : FaucetSettings := {|
  amount := 10000; dailyCap := 200; ipClaimsPerWindow := 5; ipWindowMs := 86400000;
  minFeeRate := one_sat_per_vb; maxFeeRate := one_sat_per_vb; feeTargetBlocks := 6 |}.
Definition demo_wallet : WritzKeyPair :=
  {| kp_publicKey := demo_key; kp_signer := {| publicKey := demo_key; compressed := true |};
     kp_network := testnet |}.
Definition demo_body : json_body := λ k,
  map_get k [ ("pollarAccessToken", "token"); ("stellarAddress", demo_stellar);
              ("signetAddress", demo_address); ("signetPubkey", to_hex demo_key);
              ("nonce", to_hex (replicate 16 x01)); ("keySig", to_base64 (x27 :: replicate 64 x00)) ].

Definition req : ClaimRequest :=
  match parseClaimRequest demo_body with
  | Ok r => r
  | Err _ => {| pollarAccessToken := ""; req_stellar := ""; signetAddress := ""; signetPubkey := "";
                req_nonce := ""; keySig := "" |}
  end.
Definition claimant : Claimant :=
  {| to_address := demo_address; to_stellar := demo_stellar; to_user := Some "user"%string |}.

Definition do_nonce (s : faucet demo_world) : faucet demo_world := (issueNonce s).2.
Definition do_front (s : faucet demo_world) : faucet demo_world :=
  (claim_front demo_settings "tb1qfaucet" demo_body "1.2.3.4" s).2.
Definition do_send (s : faucet demo_world) : faucet demo_world :=
  (claim_send demo_settings demo_wallet "tb1qfaucet" claimant "user" "1.2.3.4" s).2.

Definition start : faucet demo_world := new_faucet (1700000000000, []).
Definition paid_once : faucet demo_world := do_send (do_front (do_nonce start)).

Lemma reach_paid : rtc (faucet_step demo_settings demo_wallet "tb1qfaucet") start paid_once.
Proof.
  eapply rtc_l; [apply step_nonce|]. eapply rtc_l; [apply (step_front _ _ _ demo_body "1.2.3.4")|].
  eapply rtc_l; [|apply rtc_refl]. by apply (step_send _ _ _ claimant "user" "1.2.3.4").
Qed.

(** The whole claim pays, and one second claim of the same account does not. *)
Example claim_pays_once :
  let '(r, s) := claim demo_settings demo_wallet "tb1qfaucet" demo_body "1.2.3.4" (do_nonce start) in
  r = Ok ("id"%string, demo_address, 10000, 141) ∧ length (claims s) = 1%nat ∧
  (claim demo_settings demo_wallet "tb1qfaucet" demo_body "1.2.3.4" (do_nonce s)).1
    = Err (FaucetError stellar_address_already_claimed None).
Proof. vm_compute. split_and!; reflexivity. Qed.


(** A claim whose broadcast times out leaves no record: the same account can
    claim again, and both transactions may be mined. *)
Definition timed_out : faucet demo_world := do_send (new_faucet (1700000000000, [Err AbortError])).
Definition paid_twice : faucet demo_world := do_send timed_out.

Example unknown_outcome_pays_again :
  length (payouts paid_twice) = 2%nat ∧ length (claims timed_out) = 0%nat ∧
  length (claims paid_twice) = 1%nat.
Proof. vm_compute. split_and!; reflexivity. Qed.

Lemma reach_twice :
  rtc (faucet_step demo_settings demo_wallet "tb1qfaucet")
    (new_faucet (1700000000000, [Err AbortError])) paid_twice.
Proof.
  unfold paid_twice, timed_out, do_send.
  eapply rtc_l; [by apply (step_send _ _ _ claimant "user" "1.2.3.4")|].
  eapply rtc_l; [by apply (step_send _ _ _ claimant "user" "1.2.3.4")|]. apply rtc_refl.
Qed.

Definition no_payout : payout :=
  {| selected_at := 0; reserved_at := 0; outpoints := []; claim_of := None |}.
Definition newest : payout := List.nth 0 (payouts paid_twice) no_payout.
Definition oldest : payout := List.nth 1 (payouts paid_twice) no_payout.

Lemma twice_log : payouts paid_twice = [] ++ newest :: [oldest].
Proof. vm_compute. reflexivity. Qed.
Lemma twice_in_term : selected_at newest < reserved_at oldest + RESERVATION_TTL_MS.
Proof. vm_compute. reflexivity. Qed.
Lemma newest_outpoints : outpoints newest = ["bb:0"].
Proof. vm_compute. reflexivity. Qed.

(** Two payouts in a row, a second apart: the second spends other coins. *)
Lemma faucet_no_double_spend_witness :
  payouts paid_twice = [newest; oldest] ∧ outpoints newest = ["bb:0"] ∧ "bb:0" ∉ outpoints oldest.
Proof.
  split; [exact twice_log|]. split; [exact newest_outpoints|].
  apply (faucet_no_double_spend demo_settings demo_wallet "tb1qfaucet"
           (1700000000000, [Err AbortError]) paid_twice [] newest [oldest] oldest "bb:0"
           eq_refl ltac:(done) reach_twice twice_log ltac:(by left) twice_in_term).
  rewrite newest_outpoints. by left.
Defined.
End Demo.
