(* ===== verification/RateLimit.v ===== *)
(** * The fixed-window rate limiter ([relayer/src/rate-limit.ts])

    One window per client address, each counting the requests let through
    until it resets. *)

From S2P Require Import Prelude JsData JsMap.
From Stdlib Require Import Sorting.Sorted.

Record Window : Type := { count : Z; resetAt : Z }.

Record RateLimitOptions : Type := { limit : Z; windowMs : Z }.

Inductive verdict : Type :=
| next
| too_many (retryAfterSeconds : Z).   (* 429 *)

(** The address Express resolves, or the socket's, or one shared bucket. *)
Definition clientKey (ip remoteAddress : option string) : string :=
  match present ip with
  | Some a => a
  | None => match present remoteAddress with Some a => a | None => "unknown" end
  end.

(** [if (windows.size > 10_000) ...]: expired windows are dropped. *)
Definition prune (t : Z) (windows : jsmap string Window) : jsmap string Window :=
  if 10000 <? zlen windows then filter (λ e, ¬ (resetAt e.2 ≤ t)) windows else windows.

Definition rateLimit (o : RateLimitOptions) (t : Z) (key : string)
    (windows : jsmap string Window) : verdict * jsmap string Window :=
  let windows := prune t windows in
  match map_get key windows with
  | None => (next, map_set key {| count := 1; resetAt := t + windowMs o |} windows)
  | Some existing =>
      if resetAt existing <=? t
      then (next, map_set key {| count := 1; resetAt := t + windowMs o |} windows)
      else if limit o <=? count existing
      then (too_many (Z.max 1 (ceil_div (resetAt existing - t) 1000)), windows)
      else (next, map_set key {| count := count existing + 1; resetAt := resetAt existing |} windows)
  end.

(** ** A run of the limiter *)

(** The windows after a sequence of requests, and when those of [key] were let
    through, newest first. *)
Fixpoint limiter_run (o : RateLimitOptions) (key : string) (reqs : list (Z * string))
    (windows : jsmap string Window) (passed : list Z) : jsmap string Window * list Z :=
  match reqs with
  | [] => (windows, passed)
  | (t, k) :: reqs =>
      let '(v, windows') := rateLimit o t k windows in
      limiter_run o key reqs windows'
        (match v with next => if decide (k = key) then t :: passed else passed | _ => passed end)
  end.

(** How many of the times lie in [a, b). *)
Definition between (a b : Z) (times : list Z) : Z :=
  zlen (filter (λ t, a ≤ t < b) times).

Lemma between_cons a b t ts :
  between a b (t :: ts) = (if decide (a ≤ t < b) then 1 else 0) + between a b ts.
Proof.
  unfold between. rewrite filter_cons. destruct (decide _); [rewrite zlen_cons|]; lia.
Qed.

Lemma between_split a m b ts : a ≤ m ≤ b → between a b ts = between a m ts + between m b ts.
Proof.
  intros H. induction ts as [|t ts IH]; [done|]. rewrite !between_cons, IH.
  repeat case_decide; lia.
Qed.

Lemma between_mono a b a' b' ts : a' ≤ a → b ≤ b' → between a b ts ≤ between a' b' ts.
Proof.
  intros Ha Hb. induction ts as [|t ts IH]; [done|]. rewrite !between_cons.
  repeat case_decide; lia.
Qed.

Lemma between_nonneg a b ts : 0 ≤ between a b ts.
Proof. apply zlen_nonneg. Qed.

Lemma between_past a b ts : Forall (λ t, t < a) ts → between a b ts = 0.
Proof.
  induction 1 as [|t ts Ht _ IH]; [done|]. rewrite between_cons, IH. case_decide; lia.
Qed.

Lemma between_clip a b m ts : Forall (λ t, t < m) ts → between a b ts ≤ between a m ts.
Proof.
  induction 1 as [|t ts Ht _ IH]; [done|]. rewrite !between_cons. repeat case_decide; lia.
Qed.

(** ** The table *)

Lemma map_get_prune t k ws :
  map_wf ws →
  map_get k (prune t ws) = map_get k ws ∨
  map_get k (prune t ws) = None ∧ ∃ w, map_get k ws = Some w ∧ resetAt w ≤ t.
Proof.
  intros Hwf. unfold prune. destruct (_ <? _); [|by left].
  assert (Hwf' : map_wf (filter (λ e, ¬ (resetAt e.2 ≤ t)) ws))
    by (apply (sublist_NoDup _ (map_keys ws)); [done|apply fmap_sublist, sublist_filter]).
  destruct (map_get k ws) as [w|] eqn:E.
  - destruct (decide (resetAt w ≤ t)) as [Hle|Hgt].
    + destruct (map_get k (filter _ ws)) as [w'|] eqn:E'; [|by right; eauto].
      apply map_get_elem, list_elem_of_filter in E' as [Hn Hin].
      apply map_elem_get in Hin; [|done]. by simplify_eq.
    + left. apply map_elem_get; [done|]. apply list_elem_of_filter.
      split; [done|by apply map_get_elem].
  - left. destruct (map_get k (filter _ ws)) as [w'|] eqn:E'; [|done].
    apply map_get_elem, list_elem_of_filter in E' as [_ Hin].
    apply map_elem_get in Hin; [congruence|done].
Qed.

Lemma prune_wf t ws : map_wf ws → map_wf (prune t ws).
Proof.
  intros Hwf. unfold prune. destruct (_ <? _); [|done].
  apply (sublist_NoDup _ (map_keys ws)); [done|]. apply fmap_sublist, sublist_filter.
Qed.
#[export] Hint Resolve prune_wf : writz.

Lemma rateLimit_wf o t k ws : map_wf ws → map_wf (rateLimit o t k ws).2.
Proof. intros H. unfold rateLimit. repeat split_match; eauto with writz. Qed.

Lemma rateLimit_other o t k k' ws :
  k' ≠ k → map_get k' (rateLimit o t k ws).2 = map_get k' (prune t ws).
Proof. intros H. unfold rateLimit. repeat split_match; rewrite ?map_get_set_ne; done. Qed.

(** ** The invariant

    Of one client: [s] is when its last window began and [c] how many requests
    it let through, whether or not the table still holds it. *)
Record client_inv (o : RateLimitOptions) (key : string) (now : Z) (windows : jsmap string Window)
    (passed : list Z) (s c : Z) : Prop := {
  ci_past : Forall (λ t, t ≤ now) passed;
  ci_inside : Forall (λ t, t < s + windowMs o) passed;
  ci_start : s ≤ now;
  ci_count : between s (s + windowMs o) passed = c;
  ci_cap : c ≤ Z.max 1 (limit o);
  ci_before : ∀ a, s - windowMs o < a → between a s passed ≤ Z.max 1 (limit o);
  ci_bound : ∀ a, between a (a + windowMs o) passed ≤ 2 * Z.max 1 (limit o);
  ci_table : match map_get key windows with
    | Some w => w = {| count := c; resetAt := s + windowMs o |}
    | None => s + windowMs o ≤ now
    end;
}.

Definition limiter_inv o key now windows passed : Prop :=
  map_wf windows ∧ ∃ s c, client_inv o key now windows passed s c.

Section facts.
Context (o : RateLimitOptions) (key : string) (window_positive : 0 < windowMs o).
Implicit Types (windows : jsmap string Window) (passed : list Z).

(** The clock moves and the table is pruned. *)
Lemma client_inv_later now t windows passed s c :
  now ≤ t → map_wf windows → client_inv o key now windows passed s c →
  client_inv o key t (prune t windows) passed s c.
Proof.
  intros Ht Hwf [P I S C K B D T]. split; try done; [by eapply Forall_impl; [exact P|simpl; lia]|lia|].
  destruct (map_get_prune t key windows Hwf) as [->|(-> & w & Hw & Hr)].
  - destruct (map_get key windows); [done|lia].
  - rewrite Hw in T. subst w. simpl in Hr. lia.
Qed.

(** A request of the client opens a new window. *)
Lemma client_inv_opens t windows passed s c :
  s + windowMs o ≤ t → client_inv o key t windows passed s c →
  client_inv o key t (map_set key {| count := 1; resetAt := t + windowMs o |} windows)
    (t :: passed) t 1.
Proof.
  intros Hs [P I S C K B D _].
  assert (Hold : ∀ a b, s ≤ a → between a b passed ≤ c).
  { intros a b Ha. etrans; [apply (between_clip a b (s + windowMs o) _ I)|].
    rewrite <- C. apply between_mono; lia. }
  split; [by constructor|constructor; [lia|eapply Forall_impl; [exact I|simpl; lia]]|lia| |lia| | |].
  - rewrite between_cons, decide_True by lia.
    rewrite between_past; [done|]. eapply Forall_impl; [exact I|simpl; lia].
  - intros a Ha. rewrite between_cons, decide_False by lia. pose proof (Hold a t). lia.
  - intros a. rewrite between_cons. case_decide; [|apply D].
    pose proof (Hold a (a + windowMs o)). lia.
  - by rewrite map_get_set_eq.
Qed.

(** A request of the client is counted in the current window. *)
Lemma client_inv_counts t windows passed s c :
  t < s + windowMs o → c < limit o → client_inv o key t windows passed s c →
  client_inv o key t (map_set key {| count := c + 1; resetAt := s + windowMs o |} windows)
    (t :: passed) s (c + 1).
Proof.
  intros Ht Hc [P I S C K B D _].
  split; [by constructor|by constructor|lia| |lia| | |].
  - rewrite between_cons, decide_True by lia. lia.
  - intros a Ha. rewrite between_cons, decide_False by lia. by apply B.
  - intros a. rewrite between_cons. case_decide; [|apply D].
    destruct (decide (a ≤ s)).
    + rewrite (between_split a s) by lia. pose proof (B a ltac:(lia)).
      pose proof (between_clip s (a + windowMs o) _ _ I). lia.
    + pose proof (between_clip a (a + windowMs o) _ _ I).
      pose proof (between_mono a (s + windowMs o) s (s + windowMs o) passed). lia.
  - by rewrite map_get_set_eq.
Qed.

Lemma limiter_step now t k windows passed :
  now ≤ t → limiter_inv o key now windows passed →
  limiter_inv o key t (rateLimit o t k windows).2
    (match (rateLimit o t k windows).1 with
     | next => if decide (k = key) then t :: passed else passed | _ => passed end).
Proof.
  intros Ht (Hwf & s & c & Hci). split; [by apply rateLimit_wf|].
  pose proof (client_inv_later _ t _ _ _ _ Ht Hwf Hci) as Hci'. pose proof (ci_table _ _ _ _ _ _ _ Hci') as T.
  destruct (decide (k = key)) as [->|Hne].
  - unfold rateLimit. cbv zeta. destruct (map_get key (prune t windows)) as [w|]; simpl.
    2: { exists t, 1. by eapply client_inv_opens. }
    subst w. simpl. destruct (_ <=? t) eqn:E1; bools; simpl; [exists t, 1; by eapply client_inv_opens|].
    destruct (limit o <=? c) eqn:E2; bools; simpl; [by exists s, c|].
    exists s, (c + 1). by apply client_inv_counts.
  - exists s, c. assert (Hp : (match (rateLimit o t k windows).1 with
      | next => passed | _ => passed end) = passed) by (by destruct (rateLimit o t k windows).1).
    rewrite Hp. destruct Hci' as [P I S C K B D _]. split; try done.
    by rewrite rateLimit_other.
Qed.

Lemma default_last_cons {A} (now t : A) l : default now (last (t :: l)) = default t (last l).
Proof. rewrite last_cons. by destruct (last l). Qed.

Lemma limiter_run_inv now reqs windows passed :
  Sorted (λ a b, a.1 ≤ b.1) ((now, "") :: reqs) → limiter_inv o key now windows passed →
  let '(windows', passed') := limiter_run o key reqs windows passed in
  limiter_inv o key (default now (last reqs.*1)) windows' passed'.
Proof.
  revert now windows passed. induction reqs as [|[t k] reqs IH]; intros now windows passed Hs Hi; [done|].
  apply Sorted_inv in Hs as [Hs Hd]. apply HdRel_inv in Hd. simpl in Hd.
  pose proof (limiter_step now t k _ _ Hd Hi) as Hi'. cbn [limiter_run].
  destruct (rateLimit o t k windows) as [v windows'].
  assert (Hs' : Sorted (λ a b, a.1 ≤ b.1) ((t, "") :: reqs)).
  { apply Sorted_inv in Hs as [Hs Hh]. constructor; [done|]. destruct reqs; [done|].
    constructor. by apply HdRel_inv in Hh. }
  specialize (IH t _ _ Hs' Hi'). cbn [fst snd] in IH |- *.
  destruct (limiter_run _ _ _ _ _) as [ws' ps']. rewrite fmap_cons. cbn [fst]. by rewrite default_last_cons.
Qed.

(** No request yet: as if a window had just run out. *)
Lemma limiter_inv_start now : limiter_inv o key now [] [].
Proof.
  split; [constructor|]. exists (now - windowMs o), 0.
  split; try constructor; try (intros; unfold between; simpl); try lia; simpl; unfold zlen; simpl; lia.
Qed.
End facts.

(** ** Property *)

(** however requests arrive (the clock not going backwards), a client
    address gets at most twice the limit through in any span of one window
    length, and it is turned away only when it already got [limit] requests
    through in the last [windowMs] milliseconds. Other clients' requests and
    the dropping of expired windows never change either. *)
Theorem rate_limit_window o key reqs :
  0 < windowMs o → Sorted (λ a b, a.1 ≤ b.1) reqs →
  let '(windows, passed) := limiter_run o key reqs [] [] in
  (∀ a, between a (a + windowMs o) passed ≤ 2 * Z.max 1 (limit o)) ∧
  (∀ t seconds, (∀ t0, last reqs.*1 = Some t0 → t0 ≤ t) →
     (rateLimit o t key windows).1 = too_many seconds →
     limit o ≤ between (t - windowMs o + 1) (t + 1) passed ∧
     1 ≤ seconds ∧ (1000 * (seconds - 1) < windowMs o ∨ seconds = 1)).
Proof.
  intros Hw Hs. set (now := match reqs with [] => 0 | r :: _ => r.1 end).
  pose proof (limiter_run_inv o key Hw now reqs [] []) as H.
  destruct (limiter_run o key reqs [] []) as [windows passed] eqn:Er.
  assert (Hs' : Sorted (λ a b, a.1 ≤ b.1) ((now, "") :: reqs))
    by (subst now; constructor; [exact Hs|destruct reqs; constructor; simpl; lia]).
  destruct (H Hs' (limiter_inv_start o key Hw now)) as (Hwf & s & c & Hci).
  split; [apply Hci|]. intros t seconds Ht Hv.
  destruct (last reqs.*1) as [t0|] eqn:E.
  2: { apply last_None, fmap_nil_inv in E as ->. simpl in Er. by simplify_eq/=. }
  pose proof (client_inv_later o key _ t _ _ _ _ (Ht t0 eq_refl) Hwf Hci) as [P I S C K B D T].
  unfold rateLimit in Hv. cbv zeta in Hv. destruct (map_get key (prune t windows)) as [w|]; [subst w|done].
  simpl in Hv. destruct (_ <=? t) eqn:E1; bools; [done|].
  destruct (limit o <=? c) eqn:E2; bools; simplify_eq/=. split_and!; [|lia|].
  - etrans; [exact E2|].
    assert (P' : Forall (λ x, x < t + 1) passed) by (eapply Forall_impl; [exact P|simpl; lia]).
    etrans; [apply (between_clip _ _ _ _ P')|]. apply between_mono; lia.
  - pose proof (ceil_div_spec (s + windowMs o - t) 1000 ltac:(lia)). lia.
Qed.

(** Three requests at a limit of two, and the window after. *)
Lemma rate_limit_window_witness :
  0 < 1000 ∧
  limiter_run {| limit := 2; windowMs := 1000 |} "a"
    [(0, "a"); (5, "b"); (10, "a"); (20, "a"); (1000, "a")] [] [] =
    ([("a", {| count := 1; resetAt := 2000 |}); ("b", {| count := 1; resetAt := 1005 |})], [1000; 10; 0]) ∧
  ∀ a, between a (a + 1000) [1000; 10; 0] ≤ 4.
Proof.
  split; [lia|]. split; [reflexivity|].
  exact (proj1 (rate_limit_window {| limit := 2; windowMs := 1000 |} "a"
    [(0, "a"); (5, "b"); (10, "a"); (20, "a"); (1000, "a")] eq_refl
    ltac:(repeat first [apply Sorted_nil | apply HdRel_nil | apply Sorted_cons | apply HdRel_cons]; simpl; lia))).
Defined.

