(* ===== verification/CctpRoute.v ===== *)
(** * The relay's routes and the app that reads them
    ([relayer/src/routes/cctp.ts], [frontend/app/src/lib/receive/relay.ts])

    The three routes of the CCTP relay as they answer, in JSON, and the client
    of the app that asks for a delivery and polls it. *)

From S2P Require Import Prelude JsData JsMap JsDate JsJson RateLimit CctpMessage CctpStore CctpRelay.

(** ** What the routes answer *)

Definition kind_text (k : ViewKind) : string :=
  match k with
  | v_sent => "sent"
  | v_confirming => "confirming"
  | v_confirmed => "confirmed"
  | v_arrived => "arrived"
  | v_failed => "failed"
  end.

(** [{ k: v }] when there is one. *)
Definition field (k : string) (v : option Json) : list (string * Json) :=
  match v with Some v => [(k, v)] | None => [] end.

Definition text_or_null (o : option string) : Json := match o with Some s => j_string s | None => j_null end.

(** [res.json(view)] *)
Definition view_json (v : CctpRelayView) : Json := j_object (
  [("burnHash", j_string (v_burnHash v)); ("kind", j_string (kind_text (v_kind v)))] ++
  field "mintHash" (text_or_null <$> v_mintHash v) ++ field "explorerUrl" (j_string <$> v_explorerUrl v) ++
  field "reason" (j_string <$> v_reason v) ++ field "retryable" (j_bool <$> v_retryable v) ++
  field "retrying" (if v_retrying v then Some (j_bool true) else None) ++
  field "nextRetryAt" (j_string <$> v_nextRetryAt v) ++ field "recipient" (j_string <$> v_recipient v) ++
  field "amount" (j_string <$> v_amount v) ++ field "feeExecuted" (j_string <$> v_feeExecuted v) ++
  field "mintedBy" ((λ m, j_string (match m with by_relay => "relay" | by_other => "other" end)) <$> v_mintedBy v) ++
  [("createdAt", j_string (v_createdAt v)); ("updatedAt", j_string (v_updatedAt v))]).

Record reply : Type := { rp_status : Z; rp_retryAfter : option Z; rp_body : Json }.

Definition error_code (c : RelayErrorCode) : string :=
  match c with invalid_burn_hash => "invalid_burn_hash" | not_found => "not_found" | relay_busy => "relay_busy" end.

(** The texts and the delay of the [RelayError]s of [service.ts]. *)
Definition error_message (c : RelayErrorCode) : string :=
  match c with
  | invalid_burn_hash => "burnHash must be a Stellar transaction hash: 64 hexadecimal characters"
  | not_found => "the relay has no transfer for this burn; send it with POST /cctp/relay first"
  | relay_busy => "the relay is handling as many transfers as it can; try again shortly"
  end.
Definition error_delay (c : RelayErrorCode) : option Z := match c with relay_busy => Some 30 | _ => None end.

Definition answerError (c : RelayErrorCode) : reply := {|
  rp_status := HTTP_STATUS c; rp_retryAfter := error_delay c;
  rp_body := j_object ([("error", j_string (error_code c)); ("message", j_string (error_message c))] ++
                       field "retryAfterSeconds" (j_number <$> error_delay c)) |}.

Definition disabled (reason : string) : reply := {|
  rp_status := 503; rp_retryAfter := None;
  rp_body := j_object [("error", j_string "cctp_relay_disabled");
                       ("message", j_string ("the Writz CCTP relay is not available: " +:+ reason))] |}.

Definition attempts_refused (seconds : Z) : reply := {|
  rp_status := 429; rp_retryAfter := Some seconds;
  rp_body := j_object [("error", j_string "rate_limited");
                       ("message", j_string "too many relay requests from this address; slow down");
                       ("retryAfterSeconds", j_number seconds)] |}.

Section routes.
Context {W : Type} `{RelayEnv W} (settings : RelaySettings) (disabledReason : string) (limit : RateLimitOptions).

(** POST /cctp/relay; [None] is a router without a relay, [raw] the body's
    [burnHash] where it is text. *)
Definition post_relay (client : string) (raw : option string) (windows : jsmap string Window) (s : option (relay W))
    (now : Z) : reply * (jsmap string Window * option (relay W)) :=
  let '(v, windows) := rateLimit limit now client windows in
  match v with
  | too_many seconds => (attempts_refused seconds, (windows, s))
  | next =>
      match s with
      | None => (disabled disabledReason, (windows, None))
      | Some s =>
          let '(r, s) := request settings raw s in
          (match r with
           | Ok view =>
               {| rp_status := match v_kind view with v_arrived | v_failed => 200 | _ => 202 end; rp_retryAfter := None;
                  rp_body := view_json view |}
           | Err c => answerError c
           end, (windows, Some s))
      end
  end.

(** GET /cctp/relay/:burnHash *)
Definition get_relay (burnHash : string) (s : option (relay W)) : reply * option (relay W) :=
  match s with
  | None => (disabled disabledReason, None)
  | Some s =>
      let '(r, s) := status settings (Some burnHash) s in
      (match r with
       | Ok view => {| rp_status := 200; rp_retryAfter := None; rp_body := view_json view |}
       | Err c => answerError c
       end, Some s)
  end.

(** GET /cctp/relay; the relay's own address is an argument. *)
Definition get_info (address : string) (s : option (relay W)) : reply * option (relay W) :=
  match s with
  | None =>
      ({| rp_status := 200; rp_retryAfter := None;
          rp_body := j_object [("enabled", j_bool false); ("network", j_string "base-sepolia"); ("reason", j_string disabledReason)] |},
       None)
  | Some s =>
      let '(r, s) := info s in
      (match r with
       | Ok i =>
           {| rp_status := 200; rp_retryAfter := None;
              rp_body := j_object [("enabled", j_bool true); ("network", j_string "base-sepolia"); ("address", j_string address);
                ("balanceWei", text_or_null (balanceWei i));
                ("lowBalance", match lowBalance i with Some b => j_bool b | None => j_null end);
                ("messageTransmitter", j_string BASE_SEPOLIA_MESSAGE_TRANSMITTER); ("mintsToday", j_number (mintsToday i));
                ("dailyCap", j_number (dailyCap settings)); ("inFlight", j_number (inFlight i))] |}
       | Err _ => {| rp_status := 500; rp_retryAfter := None; rp_body := j_null |}
       end, Some s)
  end.
End routes.

(** ** The app's side *)

Inductive Delivery : Type :=
| d_pending (retrying : option (string * option string))       (* reason, nextRetryAt *)
| d_arrived (mintHash : option string)
| d_failed (reason : string) (retryable : bool)
| d_disabled (reason : string).

(** [/^0x[0-9a-fA-F]{64}$/] *)
Definition is_mint_hash (h : string) : bool :=
  match chars h with
  | z :: x :: rest => bool_decide (z = "0"%char) && bool_decide (x = "x"%char) &&
                      bool_decide (length rest = 64%nat) && forallb is_hex_char rest
  | _ => false
  end.

Definition as_text (v : option Json) : option string := match v with Some (j_string s) => Some s | _ => None end.
Definition is_true (v : option Json) : bool := match v with Some (j_bool b) => b | _ => false end.

Definition parseRelayView (body : Json) : option Delivery :=
  match body with
  | j_object b =>
      let reason := as_text (map_get "reason" b) in
      match as_text (map_get "kind" b) with
      | Some kind =>
          if bool_decide (kind ∈ ["sent"; "confirming"; "confirmed"]) then
            Some (d_pending (if is_true (map_get "retrying" b)
                             then Some (default "the relay is retrying" reason, as_text (map_get "nextRetryAt" b)) else None))
          else if decide (kind = "arrived") then
            Some (d_arrived (h ← as_text (map_get "mintHash" b); if is_mint_hash h then Some h else None))
          else if decide (kind = "failed") then
            Some (d_failed (default "the relay stopped" reason) (is_true (map_get "retryable" b)))
          else None
      | None => None
      end
  | _ => None
  end.

Definition RELAY_POLL_MS : Z := 5000.
Definition MINT_LOOKUP_POLL_MS : Z := 30000.

Definition nextRelayPoll (d : option Delivery) : option Z :=
  match d with
  | None => Some RELAY_POLL_MS
  | Some (d_pending _) => Some RELAY_POLL_MS
  | Some (d_arrived h) => if truthy h then None else Some MINT_LOOKUP_POLL_MS
  | Some _ => None
  end.

Definition member (k : string) (body : option Json) : option Json :=
  match body with Some (j_object b) => map_get k b | _ => None end.

(** [None]: a body that is no JSON. A [message] is text. *)
Definition readRelayResponse (status : Z) (body : option Json) : result string Delivery :=
  let message := as_text (member "message" body) in
  if (status =? 503) && bool_decide (as_text (member "error" body) = Some "cctp_relay_disabled")
  then Ok (d_disabled (default "the relay is not available" message))
  else if negb ((200 <=? status) && (status <=? 299))
  then Err (default ("The relay answered " +:+ z_to_string status +:+ ".") message)
  else of_option (body ≫= parseRelayView) "The relay answered something unexpected.".

Section client.
Context {W : Type} (fetch : string → option string → W → result string (Z * option Json) * W).   (* URL, POST body *)

Definition relayUrl (base path : string) : result string string :=
  if decide (base = "") then Err "No relay is configured for Base Sepolia transfers." else Ok (base +:+ "/cctp/relay" +:+ path).

Definition ask_relay (url : string) (post : option string) : io W string Delivery :=
  '(status, body) ← fetch url post;
  lift (readRelayResponse status body).

Definition startDelivery (base burnHash : string) : io W string Delivery :=
  url ← lift (relayUrl base "");
  ask_relay url (Some (JSON_stringify (j_object [("burnHash", j_string burnHash)]))).

Definition deliveryOf (base burnHash : string) : io W string Delivery :=
  url ← lift (relayUrl base ("/" +:+ burnHash));
  ask_relay url None.
End client.

(** ** The app shows what the relay's record says *)

(** What a reply reads as, once over the wire. *)
Definition read_reply (r : reply) : result string Delivery :=
  readRelayResponse (rp_status r) (JSON_parse (JSON_stringify (rp_body r))).

(** A transfer of the relay, as its user should see it. *)
Definition delivery_of (r : RelayRecord) : Delivery :=
  if isRetrying r then d_pending (Some (default "the relay is retrying" (failure r), Some (toISOString (default 0 (retryAt r)))))
  else match state r with
       | arrived => d_arrived (h ← mintHash r; if is_mint_hash h then Some h else None)
       | failed => d_failed (default "the relay stopped" (failure r)) (retryable r)
       | _ => d_pending None
       end.

Lemma map_get_app {V} k (m1 m2 : list (string * V)) :
  map_get k (m1 ++ m2) = match map_get k m1 with Some v => Some v | None => map_get k m2 end.
Proof. induction m1 as [|[k' v] m1 IH]; [done|]. simpl. by case_decide. Qed.

Lemma map_get_field k' k v : map_get k' (field k v) = if decide (k' = k) then v else None.
Proof. destruct v; simpl; [|by case_decide]. by case_decide. Qed.

Lemma field_keys k v : sublist (map fst (field k v)) [k].
Proof. destruct v; simpl; [done|]. apply sublist_nil_l. Qed.

(** The names of a view, each of them optional or not. *)
Definition view_keys : list string :=
  ["burnHash"; "kind"; "mintHash"; "explorerUrl"; "reason"; "retryable"; "retrying"; "nextRetryAt"; "recipient"; "amount";
   "feeExecuted"; "mintedBy"; "createdAt"; "updatedAt"].

Lemma field_values k v : match v with Some v => json_wf v | None => True end → Forall (λ f, json_wf f.2) (field k v).
Proof. destruct v; simpl; [|constructor]. by repeat constructor. Qed.

Lemma view_json_wf v : json_wf (view_json v).
Proof.
  apply object_wf. split.
  - apply (sublist_NoDup _ view_keys); [by apply (bool_decide_unpack _)|]. rewrite !map_app.
    change view_keys with (["burnHash"; "kind"] ++ ["mintHash"] ++ ["explorerUrl"] ++ ["reason"] ++ ["retryable"] ++
      ["retrying"] ++ ["nextRetryAt"] ++ ["recipient"] ++ ["amount"] ++ ["feeExecuted"] ++ ["mintedBy"] ++ ["createdAt"; "updatedAt"]).
    repeat (apply sublist_app; [first [apply field_keys|reflexivity]|]). reflexivity.
  - repeat (apply Forall_app; split);
      try (repeat constructor; done); apply field_values;
      repeat match goal with |- match ?f <$> ?o with _ => _ end => destruct o as [x|]; simpl; try done end.
    + by destruct x.
    + by destruct (v_retrying v).
Qed.

(** What the client looks at in a view. *)
Lemma parse_view v : parseRelayView (view_json v) =
  Some match v_kind v with
       | v_arrived => d_arrived (h ← v_mintHash v ≫= id; if is_mint_hash h then Some h else None)
       | v_failed => d_failed (default "the relay stopped" (v_reason v)) (default false (v_retryable v))
       | _ => d_pending (if v_retrying v then Some (default "the relay is retrying" (v_reason v), v_nextRetryAt v) else None)
       end.
Proof.
  unfold parseRelayView, view_json. rewrite !map_get_app, !map_get_field. simpl.
  destruct (v_kind v); simpl; do 2 f_equal.
  1-3: destruct (v_retrying v); simpl; [|done]; by destruct (v_reason v), (v_nextRetryAt v).
  - by destruct (v_mintHash v) as [[h|]|].
  - by destruct (v_reason v).
  - by destruct (v_retryable v).
Qed.

Lemma parse_record r : parseRelayView (view_json (toRelayView r)) = Some (delivery_of r).
Proof.
  rewrite parse_view. unfold delivery_of, toRelayView. cbn [v_kind v_retrying v_reason v_nextRetryAt v_mintHash v_retryable].
  destruct (isRetrying r) eqn:Er; [by destruct (truthy (attestation r))|].
  by destruct (state r).
Qed.

Lemma read_view r status delay : 200 ≤ status ≤ 299 →
  read_reply {| rp_status := status; rp_retryAfter := delay; rp_body := view_json (toRelayView r) |} = Ok (delivery_of r).
Proof.
  intros Hs. unfold read_reply, rp_status, rp_body. rewrite JSON_round_trip by apply view_json_wf.
  unfold readRelayResponse. assert ((status =? 503) = false) as -> by lia.
  assert ((200 <=? status) && (status <=? 299) = true) as -> by lia. cbn [andb negb].
  change (Some (view_json (toRelayView r)) ≫= parseRelayView) with (parseRelayView (view_json (toRelayView r))).
  by rewrite parse_record.
Qed.

Lemma read_error c : read_reply (answerError c) = Err (error_message c).
Proof. by destruct c; vm_compute. Qed.

Lemma object2_wf k1 v1 k2 v2 : k1 ≠ k2 → json_wf v1 → json_wf v2 → json_wf (j_object [(k1, v1); (k2, v2)]).
Proof.
  intros Hk H1 H2. apply object_wf. split; [|by repeat constructor]. simpl. constructor; [|apply NoDup_singleton].
  by intros ?%list_elem_of_singleton.
Qed.

Lemma read_disabled reason : read_reply (disabled reason) = Ok (d_disabled ("the Writz CCTP relay is not available: " +:+ reason)).
Proof.
  unfold read_reply, disabled, rp_status, rp_body. rewrite JSON_round_trip by (by apply object2_wf). done.
Qed.

Lemma request_view {W} `{RelayEnv W} settings raw (s : relay W) view :
  (request settings raw s).1 = Ok view → ∃ r, view = toRelayView r.
Proof.
  unfold request. destruct (normalizeBurnHash raw) as [b|]; [|done].
  assert (∀ r, ((if maxOpen settings <=? zlen (jobs s) then (Err relay_busy, s)
     else (Ok (toRelayView r), start settings b (set_store (put (store s) r) s))) : result _ _ * relay W).1 = Ok view →
     ∃ r, view = toRelayView r) as Hanew by (intros r; destruct (maxOpen settings <=? _); [done|]; intros [= <-]; by eexists).
  destruct (get (store s) b) as [r|]; [|apply Hanew]. destruct (_ || _)%bool; [|apply Hanew].
  cbv zeta. cbn [fst].
  intros Hv%of_option_ok. apply fmap_Some in Hv as (r' & _ & ->). by eexists.
Qed.

Lemma status_view {W} `{RelayEnv W} settings raw (s : relay W) view s' :
  status settings raw s = (Ok view, s') →
  ∃ b r, normalizeBurnHash raw = Some b ∧ get (store s') b = Some r ∧ view = toRelayView r.
Proof.
  unfold status. destruct (normalizeBurnHash raw) as [b|] eqn:Eb; [|done].
  destruct (get (store s) b) as [r0|]; [|done]. intros [= Hv%of_option_ok <-]. unfold lookupCctpRelay in Hv.
  rewrite (normalizeBurnHash_id _ _ Eb) in Hv. simpl in Hv. apply bind_Some in Hv as (r & Hr & [= <-]). by exists b, r.
Qed.

(** C36: The app shows what the relay's record says. Whatever the state of the
    relay and its router, each answer of the routes, written as JSON and read by
    the app's client, is the delivery of the relay's own record (pending,
    retrying with its reason and time, arrived with its mint, failed and whether
    it may be tried again), or the refusal's message, or that the relay is off;
    and the app stops polling exactly when the transfer failed for good, or
    arrived with its mint known. *)
Theorem app_reads_the_relay {W} `{RelayEnv W} settings reason limit client raw hash windows (s : option (relay W)) now :
  (let '(rep, (_, s')) := post_relay settings reason limit client raw windows s now in
   match (rateLimit limit now client windows).1, s with
   | too_many _, _ => s' = s ∧ read_reply rep = Err "too many relay requests from this address; slow down"
   | next, None => s' = None ∧ read_reply rep = Ok (d_disabled ("the Writz CCTP relay is not available: " +:+ reason))
   | next, Some rl =>
       s' = Some (request settings raw rl).2 ∧
       match (request settings raw rl).1 with
       | Ok view => ∃ r, view = toRelayView r ∧ read_reply rep = Ok (delivery_of r)
       | Err c => read_reply rep = Err (error_message c)
       end
   end) ∧
  (let '(rep, s') := get_relay settings reason hash s in
   match s with
   | None => s' = None ∧ read_reply rep = Ok (d_disabled ("the Writz CCTP relay is not available: " +:+ reason))
   | Some rl =>
       ∃ rl', s' = Some rl' ∧
       ((∃ b r, normalizeBurnHash (Some hash) = Some b ∧ get (store rl') b = Some r ∧ read_reply rep = Ok (delivery_of r)) ∨
        ∃ c, (status settings (Some hash) rl).1 = Err c ∧ read_reply rep = Err (error_message c))
   end) ∧
  (∀ r, nextRelayPoll (Some (delivery_of r)) = None ↔
     isRetrying r = false ∧ (state r = failed ∨ state r = arrived ∧ ∃ h, mintHash r = Some h ∧ is_mint_hash h = true)).
Proof.
  split_and!.
  - unfold post_relay. destruct (rateLimit limit now client windows) as [[|seconds] windows']; cbn [fst].
    2: { split; [done|]. unfold read_reply, attempts_refused, rp_status, rp_body. rewrite JSON_round_trip; [done|].
         apply object_wf. split; [by apply (bool_decide_unpack _)|by repeat constructor]. }
    destruct s as [rl|]; [|split; [done|apply read_disabled]].
    pose proof (request_view settings raw rl) as Hv. destruct (request settings raw rl) as [[view|c] rl'].
    + split; [done|]. destruct (Hv view eq_refl) as (r & ->). exists r. split; [done|].
      apply read_view. by destruct (v_kind _).
    + split; [done|apply read_error].
  - unfold get_relay. destruct s as [rl|]; [|split; [done|apply read_disabled]].
    pose proof (status_view settings (Some hash) rl) as Hv. destruct (status settings (Some hash) rl) as [[view|c] rl'].
    + exists rl'. split; [done|left]. destruct (Hv view rl' eq_refl) as (b & r & Hb & Hr & ->). exists b, r.
      split_and!; [done|done|by apply read_view].
    + exists rl'. split; [done|right]. exists c. split; [done|apply read_error].
  - intros r. unfold delivery_of. destruct (isRetrying r); [split; [done|by intros [? _]]|].
    destruct (state r); simpl; try (split; [done|by intros (_ & [?|[? _]])]).
    + destruct (mintHash r) as [h|]; simpl; [|split; [done|by intros (_ & [?|(_ & ? & ? & _)])]].
      destruct (is_mint_hash h) eqn:Eh; simpl.
      * split; [|by destruct h]. intros _. split; [done|right]. split; [done|by exists h].
      * split; [done|]. intros (_ & [?|(_ & ? & [= <-] & ?)]); [done|congruence].
    + split; [|done]. intros _. by split; [|left].
Qed.
