(* ===== verification/ProofCache.v ===== *)
(** * The bounded TTL cache ([relayer/src/proof-cache.ts])

    An insertion-ordered map kept in order of use, and the table of the
    computations under way. A promise is its number: the model of a caller
    says what it stands for. *)

From S2P Require Import Prelude JsData JsMap.

Record Entry (V : Type) : Type := { value : V; expiresAt : Z }.
Arguments value {V}. Arguments expiresAt {V}.
#[global] Arguments Build_Entry {V}.

Record Computed (V : Type) : Type := { computed : V; ttlMs : Z }.
Arguments computed {V}. Arguments ttlMs {V}.
#[global] Arguments Build_Computed {V}.

Record TtlCache (V : Type) : Type := {
  entries : jsmap string (Entry V);
  inflight : jsmap string nat;
}.
Arguments entries {V}. Arguments inflight {V}.
#[global] Arguments Build_TtlCache {V}.

Section TtlCache.
Context {V : Type}.
Implicit Types (c : TtlCache V) (m : jsmap string (Entry V)).

Definition empty_cache : TtlCache V := {| entries := []; inflight := [] |}.

Definition with_entries c m : TtlCache V := {| entries := m; inflight := inflight c |}.

Definition get (now : Z) (key : string) c : option V * TtlCache V :=
  match map_get key (entries c) with
  | None => (None, c)
  | Some entry =>
      let rest := map_delete key (entries c) in
      if expiresAt entry <=? now then (None, with_entries c rest)
      else (Some (value entry), with_entries c (map_set key entry rest))
  end.

(** [while (this.entries.size > this.maxEntries)]: the oldest entry goes. *)
Fixpoint evict (fuel : nat) (maxEntries : Z) m : jsmap string (Entry V) :=
  match fuel with
  | O => m
  | S fuel =>
      if maxEntries <? zlen m
      then match m with (oldest, _) :: _ => evict fuel maxEntries (map_delete oldest m) | [] => m end
      else m
  end.

Definition set (maxEntries now : Z) (key : string) (v : V) (ttl : Z) c : TtlCache V :=
  if (ttl <=? 0) || (maxEntries <=? 0) then c
  else
    let m := map_set key {| value := v; expiresAt := now + ttl |} (map_delete key (entries c)) in
    with_entries c (evict (length m) maxEntries m).

(** What a call of [getOrCompute] gets: a value, the promise of another
    caller, or the promise of the computation it starts. *)
Inductive lookup_outcome : Type :=
| hit (v : V)
| pending (p : nat)
| started (p : nat).

(** [fresh] numbers the promise of a new computation. *)
Definition getOrCompute (now : Z) (key : string) (fresh : nat) c : lookup_outcome * TtlCache V :=
  let '(h, c) := get now key c in
  match h with
  | Some v => (hit v, c)
  | None =>
      match map_get key (inflight c) with
      | Some p => (pending p, c)
      | None => (started fresh, {| entries := entries c; inflight := map_set key fresh (inflight c) |})
      end
  end.

(** The computation settles: [.then] keeps a value, [.finally] clears the table. *)
Definition compute_settled {E} (maxEntries now : Z) (key : string) (r : result E (Computed V)) c :
    TtlCache V :=
  let c := match r with
           | Ok x => set maxEntries now key (computed x) (ttlMs x) c
           | Err _ => c
           end in
  {| entries := entries c; inflight := map_delete key (inflight c) |}.

(** ** Lemmas *)

(** [evict] keeps the newest entries, which are some of those there were. *)
Lemma evict_suffix fuel maxEntries m :
  map_wf m → (length m ≤ fuel)%nat → 0 ≤ maxEntries →
  evict fuel maxEntries m = drop (length m - Z.to_nat maxEntries) m.
Proof.
  revert m. induction fuel as [|fuel IH]; intros m Hwf Hf Hm; simpl.
  - destruct m; [done|simpl in Hf; lia].
  - unfold zlen. destruct (_ <? _) eqn:E; bools.
    2: { replace (_ - _)%nat with 0%nat by lia. done. }
    destruct m as [|[k e] m]; [done|].
    assert (map_delete k ((k, e) :: m) = m) as ->.
    { unfold map_delete. rewrite filter_cons. simpl. rewrite decide_False by naive_solver.
      inversion Hwf as [|? ? Hk _]; subst. clear -Hk. induction m as [|[k' e'] m IH]; [done|].
      rewrite filter_cons. simpl in *. apply not_elem_of_cons in Hk as [? ?].
      rewrite decide_True by congruence. f_equal. by apply IH. }
    inversion Hwf; subst. simpl in *. rewrite IH by (done || lia).
    by replace (S (length m) - Z.to_nat maxEntries)%nat with (S (length m - Z.to_nat maxEntries)) by lia.
Qed.

Lemma drop_wf n m : map_wf m → map_wf (drop n m).
Proof.
  unfold map_wf, map_keys. intros H. rewrite fmap_drop.
  eapply sublist_NoDup; [exact H|]. apply sublist_drop.
Qed.

(** What an operation leaves was there before, or is the value just set. *)
Lemma get_entries now key c k e :
  map_wf (entries c) → map_get k (entries (get now key c).2) = Some e → map_get k (entries c) = Some e.
Proof.
  intros Hwf. unfold get. destruct (map_get key (entries c)) as [x|] eqn:E; [|done].
  destruct (_ <=? now); simpl; rewrite ?map_get_set, map_get_delete;
    destruct (decide (k = key)) as [->|]; intros; by simplify_eq.
Qed.

Lemma get_hit now key c v :
  (get now key c).1 = Some v → ∃ e, map_get key (entries c) = Some e ∧ value e = v ∧ now < expiresAt e.
Proof.
  unfold get. destruct (map_get key (entries c)) as [e|]; [|done].
  destruct (_ <=? now) eqn:E; bools; simpl; intros; simplify_eq. by exists e.
Qed.

Lemma get_wf now key c : map_wf (entries c) → map_wf (entries (get now key c).2).
Proof. intros H. unfold get. repeat split_match; simpl; eauto with writz. Qed.

Lemma get_inflight now key c : inflight (get now key c).2 = inflight c.
Proof. unfold get. by repeat split_match. Qed.

Lemma get_size now key c : (length (entries (get now key c).2) ≤ length (entries c))%nat.
Proof.
  unfold get. destruct (map_get key (entries c)) as [e|] eqn:E; [|done].
  assert (length (map_delete key (entries c)) < length (entries c))%nat
    by (apply map_delete_has_length; by rewrite E).
  destruct (_ <=? now); simpl; [lia|]. rewrite map_set_length. destruct (map_has _ _); lia.
Qed.

Lemma set_entries maxEntries now key v ttl c k e :
  map_wf (entries c) → map_get k (entries (set maxEntries now key v ttl c)) = Some e →
  map_get k (entries c) = Some e ∨ k = key ∧ e = {| value := v; expiresAt := now + ttl |} ∧ 0 < ttl.
Proof.
  intros Hwf. unfold set. destruct (_ || _) eqn:E; [by left|]. bools. cbv zeta. simpl.
  set (m := map_set _ _ _). assert (Hm : map_wf m) by (subst m; eauto with writz).
  rewrite evict_suffix by (done || lia). intros Hg. apply map_get_elem in Hg.
  assert (H' : (k, e) ∈ m) by (rewrite <- (take_drop (length m - Z.to_nat maxEntries) m), elem_of_app; by right).
  apply map_elem_get in H'; [|done]. subst m. rewrite map_get_set, map_get_delete in H'.
  destruct (decide (k = key)) as [->|]; [right; by simplify_eq|by left].
Qed.

Lemma set_wf maxEntries now key v ttl c :
  map_wf (entries c) → map_wf (entries (set maxEntries now key v ttl c)).
Proof.
  intros Hwf. unfold set. destruct (_ || _) eqn:E; [done|]. bools. cbv zeta. simpl.
  rewrite evict_suffix by (lia || eauto with writz). apply drop_wf; eauto with writz.
Qed.

Lemma set_size maxEntries now key v ttl c :
  zlen (entries c) ≤ Z.max 0 maxEntries →
  map_wf (entries c) → zlen (entries (set maxEntries now key v ttl c)) ≤ Z.max 0 maxEntries.
Proof.
  intros Hs Hwf. unfold set. destruct (_ || _) eqn:E; [done|]. bools. cbv zeta. simpl.
  rewrite evict_suffix by (lia || eauto with writz). unfold zlen. rewrite length_drop. lia.
Qed.

Lemma set_inflight maxEntries now key v ttl c : inflight (set maxEntries now key v ttl c) = inflight c.
Proof. unfold set. by destruct (_ || _). Qed.

(** What a lookup finds, and what it changes. *)
Lemma getOrCompute_spec now key fresh c o c' :
  getOrCompute now key fresh c = (o, c') →
  entries c' = entries (get now key c).2 ∧
  match o with
  | hit v => inflight c' = inflight c ∧
      ∃ e, map_get key (entries c) = Some e ∧ value e = v ∧ now < expiresAt e
  | pending p => inflight c' = inflight c ∧ map_get key (inflight c) = Some p
  | started p => p = fresh ∧ map_get key (inflight c) = None ∧ inflight c' = map_set key fresh (inflight c)
  end.
Proof.
  unfold getOrCompute. intros H. pose proof (get_inflight now key c) as Hi.
  pose proof (get_hit now key c) as Hh. destruct (get now key c) as [[v|] c1]; simpl in *.
  - simplify_eq/=. eauto.
  - rewrite Hi in H. destruct (map_get key (inflight c)) eqn:E; simplify_eq/=; eauto.
Qed.
End TtlCache.

#[export] Hint Resolve get_wf set_wf : writz.
#[global] Arguments lookup_outcome : clear implicits.
