(* ===== verification/ProofRoute.v ===== *)
(** * The SPV proof route ([relayer/src/routes/proof.ts])

    [GET /spv-proof/:txid] from the rate limiter to the answer, as a step
    relation: requests arrive, builds settle with whatever [buildSPVProof]
    gives over any Esplora, and requests whose proof is there read the light
    client's tip and answer, in any order and with the clock moving on. *)

From S2P Require Import Prelude JsData JsMap HeaderSync Esplora SpvProof RateLimit ProofCache.

(** ** Answers *)

Record SorobanArgs : Type := {
  arg_block_hash : string;
  arg_merkle_proof : list string;
  arg_tx_index : Z;
  arg_raw_tx : string;
  arg_min_confirmations : Z;
}.

(** A bundle as it is served: [bitcoinTipHeight] is left out. *)
Record ProofBody : Type := {
  p_txid : string;
  p_rawTxNoWitness : string;
  p_blockHash : string;
  p_txIndex : Z;
  p_merkleProof : list string;
  p_headers : list string;
  p_blockHeight : Z;
  p_confirmations : Z;
  p_sorobanArgs : SorobanArgs;
}.

Inductive Body : Type :=
| rate_limited (message : string) (retryAfterSeconds : Z)
| invalid_txid (message : string)
| invalid_confirmations (message : string)
| proof_found (p : ProofBody)
| unconfirmed (message : string)
| insufficient_confirmations (message : string) (requested available : Z)
| tx_not_found (message : string)
| upstream_unavailable (message : string) (retryAfterSeconds : Z)
| upstream_error (e : proof_error)     (* with its message *)
| light_client_behind (message : string)
    (requested available blockHeight lightClientTipHeight retryAfterSeconds : Z).

Record ProofResult : Type := { status : Z; body : Body }.

(** An answer: its [Retry-After] header and what is sent. *)
Record Answer : Type := { retryAfter : option Z; sent : ProofResult }.

Record ProofRouterDeps : Type := {
  limiter : RateLimitOptions;
  cacheMaxEntries : Z;
  cacheTtlMs : Z;
  headerSyncRetryAfterSeconds : Z;
  defaultConfirmations : Z;
  maxConfirmations : Z;
  bitcoinNetwork : string;
}.

Definition DEEP_CONFIRMATION_DEPTH : Z := REORG_RESUBMIT_DEPTH.
Definition SHORT_TTL_MS : Z := 15000.
Definition UPSTREAM_RETRY_AFTER_SECONDS : Z := 10.

Section route.
Context (deps : ProofRouterDeps).

(** ** From a build to a cacheable answer *)

Definition proof_body (b : SPVProofBundle) : ProofBody := {|
  p_txid := txid b;
  p_rawTxNoWitness := rawTxNoWitness b;
  p_blockHash := blockHash b;
  p_txIndex := txIndex b;
  p_merkleProof := merkleProof b;
  p_headers := headers b;
  p_blockHeight := blockHeight b;
  p_confirmations := confirmations b;
  p_sorobanArgs := {|
    arg_block_hash := blockHash b;
    arg_merkle_proof := merkleProof b;
    arg_tx_index := txIndex b;
    arg_raw_tx := rawTxNoWitness b;
    arg_min_confirmations := confirmations b;
  |};
|}.

Definition short (st : Z) (b : Body) : result proof_error (Computed ProofResult) :=
  Ok {| computed := {| status := st; body := b |}; ttlMs := SHORT_TTL_MS |}.

Definition computeProof (id : string) (built : result proof_error SPVProofBundle) :
    result proof_error (Computed ProofResult) :=
  match built with
  | Ok b =>
      let depth := bitcoinTip b - blockHeight b + 1 in
      Ok {| computed := {| status := 200; body := proof_found (proof_body b) |};
            ttlMs := if DEEP_CONFIRMATION_DEPTH <=? depth then cacheTtlMs deps else SHORT_TTL_MS |}
  | Err (UnconfirmedTxError t) =>
      short 404 (unconfirmed ("Transaction " +:+ t +:+ " is not yet confirmed"))
  | Err (InsufficientConfirmationsError t requested available) =>
      short 409 (insufficient_confirmations
        ("Requested " +:+ z_to_string requested +:+ " confirmations for " +:+ t +:+
         ", but only " +:+ z_to_string available +:+ " available") requested available)
  | Err (UpstreamFault (EsploraError st url b) as e) =>
      if (st =? 404) && endsWith ("/tx/" +:+ id) url
      then short 404 (tx_not_found ("Transaction " +:+ id +:+ " is not known to the Bitcoin " +:+
             bitcoinNetwork deps +:+ " indexer"))
      else Err e
  | Err e => Err e
  end.

(** ** The handler's parts between two awaits *)

Definition reply (st : Z) (b : Body) : Answer :=
  {| retryAfter := None; sent := {| status := st; body := b |} |}.
Definition reply_later (st seconds : Z) (b : Body) : Answer :=
  {| retryAfter := Some seconds; sent := {| status := st; body := b |} |}.

Definition too_many_answer (seconds : Z) : Answer :=
  reply_later 429 seconds (rate_limited
    ("Too many proof requests from this address; retry in " +:+ z_to_string seconds +:+ "s") seconds).

(** The txid and confirmations a request asks for, or the 400 it gets. *)
Definition parse_request (txid_ : string) (rawConf : option string) : result Answer (string * Z) :=
  if negb ((slen txid_ =? 64) && string_forall is_hex_char txid_)
  then Err (reply 400 (invalid_txid "txid must be a 64-character lowercase hex string"))
  else
    match rawConf with
    | None => Ok (toLowerCase txid_, defaultConfirmations deps)
    | Some raw =>
        match parseInt10 raw with
        | Some parsed =>
            if (parsed <? 1) || (maxConfirmations deps <? parsed)
            then Err (reply 400 (invalid_confirmations
                   ("confirmations must be an integer between 1 and " +:+ z_to_string (maxConfirmations deps))))
            else Ok (toLowerCase txid_, parsed)
        | None => Err (reply 400 (invalid_confirmations
                   ("confirmations must be an integer between 1 and " +:+ z_to_string (maxConfirmations deps))))
        end
    end.

Definition cache_key (id : string) (confs : Z) : string := id +:+ ":" +:+ z_to_string confs.

Definition upstream_answer (e : proof_error) : Answer :=
  let unavailable := match e with UpstreamFault f => isUpstreamUnavailable f | _ => false end in
  if unavailable
  then reply_later 503 UPSTREAM_RETRY_AFTER_SECONDS (upstream_unavailable
         "The Bitcoin indexer is rate limiting or unavailable; retry shortly" UPSTREAM_RETRY_AFTER_SECONDS)
  else reply 502 (upstream_error e).

(** The last part: a proof is checked against the light client's tip. *)
Definition final_answer (confs : Z) (r : ProofResult) (lcTip : option Z) : Answer :=
  match (if status r =? 200 then body r else unconfirmed ""), lcTip with
  | proof_found p, Some lcTip =>
      let needed := p_blockHeight p + confs - 1 in
      if lcTip <? needed then
        let seconds := headerSyncRetryAfterSeconds deps in
        reply_later 409 seconds (light_client_behind
          ("bitcoin-spv holds headers up to height " +:+ z_to_string lcTip +:+ " and this proof needs " +:+
           z_to_string needed +:+ "; the relayer submits new headers every " +:+ z_to_string seconds +:+
           "s, retry then")
          confs (Z.max 0 (lcTip - p_blockHeight p + 1)) (p_blockHeight p) lcTip seconds)
      else {| retryAfter := None; sent := r |}
  | _, _ => {| retryAfter := None; sent := r |}
  end.

(** ** The route's state *)

Inductive stage : Type :=
| awaiting (confs : Z) (p : nat)              (* the proof's promise *)
| resolved (confs : Z) (r : ProofResult)      (* before the tip is known *)
| answered (lcTip : option Z) (a : Answer).

Record Request : Type := {
  r_txid : string;
  r_rawConf : option string;
  r_stage : stage;
}.

(** A call of [deps.build]; [b_settled] is when and how it ended. *)
Record Build : Type := {
  b_id : string;
  b_confs : Z;
  b_settled : option (Z * result proof_error SPVProofBundle);
}.

Record Route : Type := {
  clock : Z;
  windows : jsmap string Window;
  cache : TtlCache ProofResult;
  builds : list Build;
  requests : list Request;
}.

Definition start_route : Route :=
  {| clock := 0; windows := []; cache := empty_cache; builds := []; requests := [] |}.

Definition receive (key txid_ : string) (rawConf : option string) (s : Route) : Route :=
  let '(v, windows') := rateLimit (limiter deps) (clock s) key (windows s) in
  let request st := {| r_txid := txid_; r_rawConf := rawConf; r_stage := st |} in
  let with_request c bs st := {| clock := clock s; windows := windows'; cache := c; builds := bs;
                                 requests := requests s ++ [request st] |} in
  match v with
  | too_many seconds => with_request (cache s) (builds s) (answered None (too_many_answer seconds))
  | next =>
      match parse_request txid_ rawConf with
      | Err a => with_request (cache s) (builds s) (answered None a)
      | Ok (id, confs) =>
          let '(o, c) := getOrCompute (clock s) (cache_key id confs) (length (builds s)) (cache s) in
          match o with
          | hit r => with_request c (builds s) (resolved confs r)
          | pending p => with_request c (builds s) (awaiting confs p)
          | started p =>
              with_request c (builds s ++ [{| b_id := id; b_confs := confs; b_settled := None |}])
                (awaiting confs p)
          end
      end
  end.

(** A promise settles for every request that awaits it. *)
Definition deliver (p : nat) (r : result proof_error (Computed ProofResult)) (q : Request) : Request :=
  match r_stage q with
  | awaiting confs p' =>
      if decide (p' = p) then
        {| r_txid := r_txid q; r_rawConf := r_rawConf q;
           r_stage := match r with
                      | Ok x => resolved confs (computed x)
                      | Err e => answered None (upstream_answer e)
                      end |}
      else q
  | _ => q
  end.

Definition build_settles (p : nat) (b : Build) (o : result proof_error SPVProofBundle) (s : Route) : Route :=
  let r := computeProof (b_id b) o in
  {| clock := clock s; windows := windows s;
     cache := compute_settled (cacheMaxEntries deps) (clock s) (cache_key (b_id b) (b_confs b)) r (cache s);
     builds := <[p := {| b_id := b_id b; b_confs := b_confs b; b_settled := Some (clock s, o) |}]> (builds s);
     requests := map (deliver p r) (requests s) |}.

Definition respond (i : nat) (q : Request) (confs : Z) (r : ProofResult) (lcTip : option Z) (s : Route) : Route :=
  {| clock := clock s; windows := windows s; cache := cache s; builds := builds s;
     requests := <[i := {| r_txid := r_txid q; r_rawConf := r_rawConf q;
                           r_stage := answered lcTip (final_answer confs r lcTip) |}]> (requests s) |}.

Definition set_clock (t : Z) (s : Route) : Route :=
  {| clock := t; windows := windows s; cache := cache s; builds := builds s; requests := requests s |}.

(** What [deps.build] can give: [buildSPVProof] over some Esplora in some state. *)
Definition build_gives (id : string) (confs : Z) (o : result proof_error SPVProofBundle) : Prop :=
  ∃ (St : Type) (api : EsploraApi St) (st : St), o = (@buildSPVProof St api id confs st).1.

Inductive route_step (s : Route) : Route → Prop :=
| step_clock t : clock s ≤ t → route_step s (set_clock t s)
| step_receive key txid_ rawConf : route_step s (receive key txid_ rawConf s)
| step_build p b o :
    builds s !! p = Some b → b_settled b = None → build_gives (b_id b) (b_confs b) o →
    route_step s (build_settles p b o s)
| step_respond i q confs r lcTip :
    requests s !! i = Some q → r_stage q = resolved confs r →
    route_step s (respond i q confs r lcTip s).
End route.

(** ** Keys *)

Lemma toLowerCase_slen s : slen (toLowerCase s) = slen s.
Proof. unfold slen. by rewrite toLowerCase_length. Qed.

Lemma cache_key_inj id1 id2 confs1 confs2 :
  slen id1 = 64 → slen id2 = 64 → 0 ≤ confs1 → 0 ≤ confs2 →
  cache_key id1 confs1 = cache_key id2 confs2 → id1 = id2 ∧ confs1 = confs2.
Proof.
  unfold cache_key, slen. intros H1 H2 Hc1 Hc2 H.
  apply (f_equal chars) in H. rewrite !chars_app in H.
  assert (L : length (chars id1) = length (chars id2)) by (rewrite !chars_length; lia).
  apply app_inj_1 in H as [Hi H]; [|done]. split; [by apply chars_inj|].
  apply app_inj_1 in H as [_ H]; [|done]. apply chars_inj in H.
  apply (f_equal BigInt) in H. rewrite !BigInt_z_to_string in H by done. by simplify_eq.
Qed.

(** ** What a build gives *)

Lemma build_gives_bundle id confs b :
  build_gives id confs (Ok b) →
  txid b = id ∧ confirmations b = confs ∧ blockHeight b + confs - 1 ≤ bitcoinTip b ∧ 1 ≤ confs.
Proof.
  intros (St & api & st & H). symmetry in H. unfold buildSPVProof, mbind, io_bind, mret, io_ret, throw, lift in H.
  split_in H. bools. simpl. split_and!; lia || done.
Qed.

(** ** The invariant *)

Section facts.
Context (deps : ProofRouterDeps) (confirmations_positive : 0 ≤ defaultConfirmations deps).
Implicit Types (s : Route).

Lemma parse_request_ok t raw id confs :
  parse_request deps t raw = Ok (id, confs) → id = toLowerCase t ∧ slen id = 64 ∧ 0 ≤ confs.
Proof.
  unfold parse_request. intros H. split_in H; bools;
    rewrite ?toLowerCase_slen; split_and!; (done || lia).
Qed.

Definition key_of (b : Build) : string := cache_key (b_id b) (b_confs b).

(** The answer [x] came from a build for [id] and [confs] that settled at [t]. *)
Definition came_from s (id : string) (confs t : Z) (x : Computed ProofResult) : Prop :=
  ∃ p b o, builds s !! p = Some b ∧ b_id b = id ∧ b_confs b = confs ∧ b_settled b = Some (t, o) ∧
    t ≤ clock s ∧ computeProof deps id o = Ok x.

Definition request_inv s (q : Request) : Prop :=
  match r_stage q with
  | awaiting confs p => ∃ id b, parse_request deps (r_txid q) (r_rawConf q) = Ok (id, confs) ∧
      builds s !! p = Some b ∧ b_id b = id ∧ b_confs b = confs ∧ b_settled b = None
  | resolved confs r => ∃ id t x, parse_request deps (r_txid q) (r_rawConf q) = Ok (id, confs) ∧
      came_from s id confs t x ∧ r = computed x
  | answered lcTip a => status (sent a) = 200 →
      ∃ id confs t x, parse_request deps (r_txid q) (r_rawConf q) = Ok (id, confs) ∧
        came_from s id confs t x ∧ sent a = computed x ∧ a = final_answer deps confs (computed x) lcTip
  end.

Record route_inv s : Prop := {
  ri_wf : map_wf (entries (cache s));
  ri_size : zlen (entries (cache s)) ≤ Z.max 0 (cacheMaxEntries deps);
  ri_builds : ∀ p b, builds s !! p = Some b → slen (b_id b) = 64 ∧ 0 ≤ b_confs b ∧
    ∀ t o, b_settled b = Some (t, o) → build_gives (b_id b) (b_confs b) o;
  ri_inflight : ∀ k p, map_get k (inflight (cache s)) = Some p ↔
    ∃ b, builds s !! p = Some b ∧ b_settled b = None ∧ key_of b = k;
  ri_entries : ∀ k e, map_get k (entries (cache s)) = Some e → ∃ id confs t x,
    k = cache_key id confs ∧ slen id = 64 ∧ 0 ≤ confs ∧ came_from s id confs t x ∧
    value e = computed x ∧ expiresAt e = t + ttlMs x;
  ri_requests : Forall (request_inv s) (requests s);
}.

(** Facts about settled builds stay. *)
Definition grows s s' : Prop :=
  clock s ≤ clock s' ∧
  ∀ p b, builds s !! p = Some b → b_settled b ≠ None → builds s' !! p = Some b.

Lemma came_from_grows s s' id confs t x :
  grows s s' → came_from s id confs t x → came_from s' id confs t x.
Proof.
  intros [Hc Hb] (p & b & o & Hp & ? & ? & Hs & ? & ?). exists p, b, o.
  split_and!; try done; [by apply Hb; rewrite ?Hs|lia].
Qed.

(** A request is untouched while its build, if it awaits one, is. *)
Lemma request_inv_grows s s' q :
  grows s s' →
  (∀ confs p b, r_stage q = awaiting confs p → builds s !! p = Some b → builds s' !! p = Some b) →
  request_inv s q → request_inv s' q.
Proof.
  intros Hg Ha. unfold request_inv. destruct (r_stage q) as [confs p|confs r|lcTip a]; intros H.
  - destruct H as (id & b & ? & Hb & ?). exists id, b. split_and!; try done; [by eapply Ha|naive_solver..].
  - destruct H as (id & t & x & ? & Hc & ?). exists id, t, x. eauto using came_from_grows.
  - intros Hs. destruct (H Hs) as (id & confs & t & x & ? & Hc & ?).
    exists id, confs, t, x. eauto using came_from_grows.
Qed.

Lemma entries_grow s s' :
  grows s s' → route_inv s →
  (∀ k e, map_get k (entries (cache s')) = Some e → map_get k (entries (cache s)) = Some e) →
  ∀ k e, map_get k (entries (cache s')) = Some e → ∃ id confs t x,
    k = cache_key id confs ∧ slen id = 64 ∧ 0 ≤ confs ∧ came_from s' id confs t x ∧
    value e = computed x ∧ expiresAt e = t + ttlMs x.
Proof.
  intros Hg Hi Hsub k e He. destruct (ri_entries s Hi k e (Hsub k e He)) as (id & confs & t & x & ? & ? & ? & ? & ?).
  exists id, confs, t, x. eauto 10 using came_from_grows.
Qed.

Lemma clock_inv s t : clock s ≤ t → route_inv s → route_inv (set_clock t s).
Proof.
  intros Ht Hi. assert (Hg : grows s (set_clock t s)) by (split; [done|auto]).
  pose proof Hi as [? ? ? ? ? R]. split; try done.
  - by apply (entries_grow s).
  - eapply Forall_impl; [exact R|]. intros q. apply request_inv_grows; auto.
Qed.

Definition added s (ws : jsmap string Window) (c : TtlCache ProofResult) (bs : list Build) (q : Request) : Route :=
  {| clock := clock s; windows := ws; cache := c; builds := bs; requests := requests s ++ [q] |}.

Lemma added_grows s ws c bs q :
  (∀ p b, builds s !! p = Some b → bs !! p = Some b) → grows s (added s ws c bs q).
Proof. intros H. split; [done|]. simpl. auto. Qed.

(** A new request, after the lookup of its key. *)
Lemma added_inv s ws c key q bs :
  route_inv s → entries c = entries (get (clock s) key (cache s)).2 ∨ entries c = entries (cache s) →
  (∀ p b, builds s !! p = Some b → bs !! p = Some b) →
  (∀ p b, bs !! p = Some b → slen (b_id b) = 64 ∧ 0 ≤ b_confs b ∧
    ∀ t o, b_settled b = Some (t, o) → build_gives (b_id b) (b_confs b) o) →
  (∀ k p, map_get k (inflight c) = Some p ↔ ∃ b, bs !! p = Some b ∧ b_settled b = None ∧ key_of b = k) →
  request_inv (added s ws c bs q) q → route_inv (added s ws c bs q).
Proof.
  intros Hi He Hbs Hb Hf Hq. pose proof Hi as [W Z _ _ _ R].
  pose proof (added_grows s ws c bs q Hbs) as Hg.
  split; simpl; try done.
  - destruct He as [->| ->]; eauto with writz.
  - destruct He as [->| ->]; [|done]. unfold zlen in *.
    pose proof (get_size (clock s) key (cache s)). lia.
  - apply (entries_grow s (added s ws c bs q)); [done..|]. intros k e. simpl. destruct He as [->| ->]; [|done].
    by apply get_entries.
  - apply Forall_app. split; [|by constructor].
    eapply Forall_impl; [exact R|]. intros q'. apply request_inv_grows; [done|]. simpl. auto.
Qed.

(** Answers that are no proof need nothing. *)
Lemma no_proof_inv s q lcTip a :
  r_stage q = answered lcTip a → status (sent a) ≠ 200 → request_inv s q.
Proof. intros E H. unfold request_inv. rewrite E. done. Qed.

Lemma parse_request_err t raw a : parse_request deps t raw = Err a → status (sent a) = 400.
Proof. unfold parse_request. intros H. by split_in H. Qed.

Lemma receive_inv s key t raw : route_inv s → route_inv (receive deps key t raw s).
Proof.
  intros Hi. pose proof Hi as [W Z B F E R]. unfold receive.
  destruct (rateLimit (limiter deps) (clock s) key (windows s)) as [[|n] ws].
  2: { apply (added_inv s ws (cache s) ""); auto. by eapply no_proof_inv. }
  destruct (parse_request deps t raw) as [[id confs]|a] eqn:Hp.
  2: { apply (added_inv s ws (cache s) ""); auto. eapply no_proof_inv; [done|].
       apply parse_request_err in Hp. by rewrite Hp. }
  destruct (getOrCompute _ _ _ _) as [o c] eqn:Hg. apply getOrCompute_spec in Hg as [He Ho].
  destruct (parse_request_ok _ _ _ _ Hp) as (_ & Hid & Hc).
  destruct o as [r|p|p].
  - destruct Ho as (Hf & e & Hk & <- & _). apply (added_inv s ws c (cache_key id confs)); auto.
    { by rewrite Hf. }
    destruct (E _ _ Hk) as (id' & confs' & t0 & x & Heq & Hl & Hc' & Hcf & -> & _).
    apply cache_key_inj in Heq as [<- <-]; [|done..].
    exists id, t0, x. split_and!; [done| |done]. by eapply came_from_grows, Hcf; apply added_grows.
  - destruct Ho as (Hf & Hk). apply (added_inv s ws c (cache_key id confs)); auto.
    { by rewrite Hf. }
    apply F in Hk as (b & Hb & Hs & Heq). destruct (B _ _ Hb) as (Hl & Hc' & _).
    apply cache_key_inj in Heq as [<- <-]; [|done..]. by exists (b_id b), b.
  - destruct Ho as (-> & Hk & Hf). set (b := {| b_id := id; b_confs := confs; b_settled := None |}).
    apply (added_inv s ws c (cache_key id confs)); auto.
    + intros p b' Hb. by apply lookup_app_l_Some.
    + intros p b' Hb. apply lookup_app_Some in Hb as [Hb|[_ Hb]]; [by eapply B|].
      apply list_lookup_singleton_Some in Hb as [_ <-]. done.
    + intros k p. rewrite Hf, map_get_set. split.
      * destruct (decide (k = cache_key id confs)) as [->|]; intros H; simplify_eq.
        -- exists b. split; [by apply list_lookup_middle|done].
        -- apply F in H as (b' & Hb & ?). exists b'. split; [by apply lookup_app_l_Some|done].
      * intros (b' & Hb & Hs & <-). apply lookup_app_Some in Hb as [Hb|[Hge Hb]].
        -- assert (Hk' : map_get (key_of b') (inflight (cache s)) = Some p) by (apply F; by exists b').
           rewrite decide_False by congruence. done.
        -- apply list_lookup_singleton_Some in Hb as [Hb <-]. rewrite decide_True by done. f_equal. lia.
    + exists id, b. split_and!; try done. by apply list_lookup_middle.
Qed.

(** The builds after one of them settles. *)
Lemma settled_grows s p b o :
  builds s !! p = Some b → b_settled b = None → grows s (build_settles deps p b o s).
Proof.
  intros Hp Hn. split; [done|]. intros p' b' Hp' Hs'. simpl.
  rewrite list_lookup_insert_ne; [done|]. intros ->. by simplify_eq.
Qed.

Lemma settled_builds s p b o p' b' :
  builds s !! p = Some b → builds (build_settles deps p b o s) !! p' = Some b' →
  p' = p ∧ b' = {| b_id := b_id b; b_confs := b_confs b; b_settled := Some (clock s, o) |} ∨
  p' ≠ p ∧ builds s !! p' = Some b'.
Proof.
  simpl. intros Hp H. apply list_lookup_insert_Some in H as [(-> & <- & _)|[? ?]]; [by left|by right].
Qed.

Lemma settled_came_from s p b o x :
  builds s !! p = Some b → computeProof deps (b_id b) o = Ok x →
  came_from (build_settles deps p b o s) (b_id b) (b_confs b) (clock s) x.
Proof.
  intros Hp Hx. eexists p, _, o. simpl. rewrite list_lookup_insert_eq by (by eapply lookup_lt_Some).
  split_and!; (done || lia).
Qed.

Lemma upstream_answer_status e : status (sent (upstream_answer e)) ≠ 200.
Proof. unfold upstream_answer. by destruct (match e with UpstreamFault _ => _ | _ => _ end). Qed.

Lemma deliver_inv s p b o q :
  builds s !! p = Some b → b_settled b = None → request_inv s q →
  request_inv (build_settles deps p b o s) (deliver p (computeProof deps (b_id b) o) q).
Proof.
  intros Hp Hn Hq. pose proof (settled_grows s p b o Hp Hn) as Hg. unfold deliver.
  destruct (r_stage q) as [confs p'|confs r|lcTip a] eqn:Est.
  2,3: apply (request_inv_grows s); [done| |done]; intros ? ? ? E; congruence.
  destruct (decide (p' = p)) as [->|Hne].
  2: { apply (request_inv_grows s); [done| |done]. intros confs1 p1 b1 E Hb. simplify_eq.
       simpl. rewrite list_lookup_insert_ne; [done|]. congruence. }
  unfold request_inv in Hq. rewrite Est in Hq. destruct Hq as (id & b' & Hpr & Hb & <- & <- & _). simplify_eq.
  destruct (computeProof deps (b_id b) o) as [x|e] eqn:Ex.
  - exists (b_id b), (clock s), x. split_and!; [done| |done]. by apply settled_came_from.
  - eapply no_proof_inv; [done|apply upstream_answer_status].
Qed.

Lemma settled_inflight s p b o k q :
  inflight (cache (build_settles deps p b o s)) = map_delete (key_of b) (inflight (cache s)) ∧
  (route_inv s → builds s !! p = Some b → b_settled b = None →
   map_get k (map_delete (key_of b) (inflight (cache s))) = Some q ↔
   ∃ b', builds (build_settles deps p b o s) !! q = Some b' ∧ b_settled b' = None ∧ key_of b' = k).
Proof.
  split.
  { unfold build_settles, compute_settled. simpl. destruct (computeProof _ _ _); [by rewrite set_inflight|done]. }
  intros Hi Hp Hn. assert (Hkp : map_get (key_of b) (inflight (cache s)) = Some p)
    by (apply (ri_inflight s Hi); eauto).
  rewrite map_get_delete. split.
  - destruct (decide (k = key_of b)) as [->|Hne]; [done|]. intros H.
    apply (ri_inflight s Hi) in H as (b' & Hb' & Hs & <-). exists b'. split; [|done].
    simpl. rewrite list_lookup_insert_ne; [done|]. intros ->. by simplify_eq.
  - intros (b' & Hb' & Hs & <-). apply settled_builds in Hb' as [(-> & ->)|(Hne & Hb')]; [done| |done].
    assert (Hk : map_get (key_of b') (inflight (cache s)) = Some q) by (apply (ri_inflight s Hi); eauto).
    rewrite decide_False; [done|]. intros E. rewrite E, Hkp in Hk. by simplify_eq.
Qed.

Lemma settles_inv s p b o :
  route_inv s → builds s !! p = Some b → b_settled b = None → build_gives (b_id b) (b_confs b) o →
  route_inv (build_settles deps p b o s).
Proof.
  intros Hi Hp Hn Ho. pose proof Hi as [W Z B F E R]. destruct (B p b Hp) as (Hl & Hc & _).
  pose proof (settled_grows s p b o Hp Hn) as Hg. split.
  - simpl. unfold compute_settled. simpl. destruct (computeProof _ _ _); eauto with writz.
  - simpl. unfold compute_settled. simpl. destruct (computeProof _ _ _); [|done]. by apply set_size.
  - intros p' b' Hb'. apply settled_builds in Hb' as [(-> & ->)|(_ & Hb')]; [|by eapply B|done].
    simpl. split_and!; [done..|]. intros; by simplify_eq.
  - intros k q. destruct (settled_inflight s p b o k q) as [-> H]. auto.
  - intros k e He. simpl in He. unfold compute_settled in He.
    assert (Hold : map_get k (entries (cache s)) = Some e → ∃ id confs t x, k = cache_key id confs ∧
      slen id = 64 ∧ 0 ≤ confs ∧ came_from (build_settles deps p b o s) id confs t x ∧
      value e = computed x ∧ expiresAt e = t + ttlMs x).
    { intros H. destruct (E k e H) as (id & confs & t & x & ? & ? & ? & ? & ?).
      exists id, confs, t, x. eauto 10 using came_from_grows. }
    destruct (computeProof _ _ _) as [x|] eqn:Ex; [|by apply Hold].
    apply set_entries in He as [He|(-> & -> & _)]; [by apply Hold| |done].
    exists (b_id b), (b_confs b), (clock s), x. split_and!; try done. by apply settled_came_from.
  - simpl. apply Forall_map. eapply Forall_impl; [exact R|]. intros q Hq. by apply deliver_inv.
Qed.

Lemma respond_inv s i q confs r lcTip :
  route_inv s → requests s !! i = Some q → r_stage q = resolved confs r →
  route_inv (respond deps i q confs r lcTip s).
Proof.
  intros Hi Hq Hr. pose proof Hi as [W Z B F E R].
  assert (Hg : grows s (respond deps i q confs r lcTip s)) by (split; [done|auto]).
  split; try done. simpl. apply Forall_insert.
    - eapply Forall_impl; [exact R|]. intros q'. apply request_inv_grows; auto.
    - pose proof (Forall_lookup_1 _ _ _ _ R Hq) as Hq'. unfold request_inv in Hq'. rewrite Hr in Hq'.
      destruct Hq' as (id & t & x & Hp & Hc & ->). intros H200. cbn [r_txid r_rawConf] in *.
      exists id, confs, t, x. split_and!; [done|by eapply came_from_grows| |done].
      revert H200. unfold final_answer. by repeat split_match.
Qed.

Lemma route_step_inv s s' : route_inv s → route_step deps s s' → route_inv s'.
Proof.
  intros Hi [t Ht|key t raw|p b o Hp Hn Ho|i q confs r lcTip Hq Hr].
  - by apply clock_inv.
  - by apply receive_inv.
  - by apply settles_inv.
  - by apply respond_inv.
Qed.

Lemma start_route_inv : route_inv start_route.
Proof.
  split; try done.
  - constructor.
  - simpl. unfold zlen. simpl. lia.
  - intros k p. split; [done|]. intros (b & Hb & _). done.
Qed.

Lemma route_reachable_inv s : rtc (route_step deps) start_route s → route_inv s.
Proof.
  intros H. pose proof start_route_inv as Hi. induction H as [|s1 s2 s3 H12 _ IH]; [done|].
  by apply IH, (route_step_inv s1).
Qed.

(** The only answers of status 200 are proofs. *)
Lemma computeProof_200 id o x :
  computeProof deps id o = Ok x → status (computed x) = 200 →
  ∃ b, o = Ok b ∧ body (computed x) = proof_found (proof_body b).
Proof. unfold computeProof, short. intros H Hs. repeat split_in H; eauto. Qed.
End facts.

(** ** Properties *)


(** identical requests share one build, failures are never cached and the
    cache stays within its size: in every reachable state two running builds
    are for different transactions or depths; a request that waits, waits for
    a running build of its own; and a cached answer is that of a settled
    build of its key, kept for the long TTL only if the block was at least
    [DEEP_CONFIRMATION_DEPTH] deep and for [SHORT_TTL_MS] otherwise. *)
Theorem proof_route_coalesces deps s :
  0 ≤ defaultConfirmations deps → rtc (route_step deps) start_route s →
  (∀ p1 p2 b1 b2, builds s !! p1 = Some b1 → builds s !! p2 = Some b2 →
     b_settled b1 = None → b_settled b2 = None →
     b_id b1 = b_id b2 → b_confs b1 = b_confs b2 → p1 = p2) ∧
  (∀ i q confs p, requests s !! i = Some q → r_stage q = awaiting confs p → ∃ b,
     builds s !! p = Some b ∧ b_settled b = None ∧ b_confs b = confs ∧ b_id b = toLowerCase (r_txid q)) ∧
  zlen (entries (cache s)) ≤ Z.max 0 (cacheMaxEntries deps) ∧
  (∀ k e, map_get k (entries (cache s)) = Some e → ∃ id confs t o x p b,
     k = cache_key id confs ∧ builds s !! p = Some b ∧ b_id b = id ∧ b_confs b = confs ∧
     b_settled b = Some (t, o) ∧ computeProof deps id o = Ok x ∧ value e = computed x ∧
     expiresAt e = t + match o with
       | Ok bundle => if DEEP_CONFIRMATION_DEPTH <=? bitcoinTip bundle - blockHeight bundle + 1
                      then cacheTtlMs deps else SHORT_TTL_MS
       | Err _ => SHORT_TTL_MS end).
Proof.
  intros Hd Hr. pose proof (route_reachable_inv deps Hd s Hr) as [W Z B F E R]. split_and!; [| |done|].
  - intros p1 p2 b1 b2 H1 H2 N1 N2 Hi Hc.
    assert (K1 : map_get (key_of b1) (inflight (cache s)) = Some p1) by (apply F; eauto).
    assert (K2 : map_get (key_of b2) (inflight (cache s)) = Some p2) by (apply F; eauto).
    unfold key_of in *. rewrite Hi, Hc in K1. congruence.
  - intros i q confs p Hq Hs. pose proof (Forall_lookup_1 _ _ _ _ R Hq) as Hqi.
    unfold request_inv in Hqi. rewrite Hs in Hqi. destruct Hqi as (id & b & Hp & ? & ? & ? & ?).
    apply (parse_request_ok deps Hd) in Hp as (? & _). exists b. by subst.
  - intros k e He. destruct (E k e He) as (id & confs & t & x & -> & _ & _ & Hc & Hv & Ht).
    destruct Hc as (p & b & o & Hb & Hi & Hcf & Hs & _ & Hx). exists id, confs, t, o, x, p, b.
    split_and!; try done. rewrite Ht. f_equal. unfold computeProof, short in Hx.
    split_in Hx; done.
Qed.

(** ** A run *)

Module Demo.
Definition deps : ProofRouterDeps := {|
  limiter := {| limit := 30; windowMs := 60000 |};
  cacheMaxEntries := 2; cacheTtlMs := 600000; headerSyncRetryAfterSeconds := 600;
  defaultConfirmations := 6; maxConfirmations := 20; bitcoinNetwork := "signet" |}.

(** A block at height 100 under a tip at 101. *)
Definition chain : chain_source := {|
  src_tx _ := Ok {| confirmed := true; block_height := Some 100 |};
  src_tip := Ok 101;
  src_raw _ := Ok "01000000";
  src_merkle _ := Ok {| merkle := ["0102"]; pos := 3 |};
  src_hash _ := Ok "abcd";
  src_header _ := Ok "00";
|}.

Definition id : string := of_chars (replicate 64 "a"%char).
Definition outcome : result proof_error SPVProofBundle := (@buildSPVProof _ (source_api chain) id 2 tt).1.
Definition build : Build := {| b_id := id; b_confs := 2; b_settled := None |}.

(** Two requests share one build; the first answers once the tip is known. *)
Definition waiting : Route :=
  receive deps "ip2" id (Some "2") (receive deps "ip1" (toUpperCase id) (Some "2") start_route).
Definition proved : Route := build_settles deps 0 build outcome waiting.
Definition asked : Request := default {| r_txid := ""; r_rawConf := None; r_stage := awaiting 0 0 |}
  (head (requests proved)).
Definition proof : ProofResult := match r_stage asked with
  | resolved _ r => r | _ => {| status := 0; body := invalid_txid "" |} end.
Definition served : Route := respond deps 0 asked 2 proof (Some 101) proved.

Lemma waiting_reachable : rtc (route_step deps) start_route waiting.
Proof. eapply rtc_l; [apply step_receive|]. eapply rtc_l; [apply step_receive|]. apply rtc_refl. Qed.

Lemma served_reachable : rtc (route_step deps) start_route served.
Proof.
  etrans; [apply waiting_reachable|].
  eapply rtc_l; [apply (step_build _ _ 0 build outcome); [vm_compute; reflexivity|done|]|].
  - by exists unit, (source_api chain), tt.
  - eapply rtc_l; [apply (step_respond _ _ 0 asked 2 proof (Some 101)); vm_compute; reflexivity|].
    apply rtc_refl.
Qed.

(** The light client one block short of the depth asked for. *)
Example behind : status (sent (final_answer deps 2 proof (Some 100))) = 409.
Proof. vm_compute. reflexivity. Qed.


Lemma proof_route_coalesces_witness :
  length (requests waiting) = 2%nat ∧ length (builds waiting) = 1%nat ∧
  zlen (entries (cache waiting)) ≤ 2 ∧
  ∃ b, builds waiting !! 0%nat = Some b ∧ b_settled b = None ∧ b_confs b = 2 ∧ b_id b = id.
Proof.
  destruct (proof_route_coalesces deps waiting ltac:(simpl; lia) waiting_reachable)
    as (_ & Hw & Hs & _).
  split; [vm_compute; reflexivity|]. split; [vm_compute; reflexivity|]. split; [exact Hs|].
  destruct (Hw 1%nat {| r_txid := id; r_rawConf := Some "2"; r_stage := awaiting 2 0 |} 2 0%nat
    ltac:(vm_compute; reflexivity) eq_refl) as (b & Hb & Hn & Hc & Hi).
  exists b. split; [exact Hb|]. split; [exact Hn|]. split; [exact Hc|]. rewrite Hi. vm_compute. reflexivity.
Defined.
End Demo.
