(* ===== verification/LendArchive.v ===== *)
(** * The archive of lend events ([relayer/src/lend-events/])

    Decoding an event into a row ([decode.ts]), the append-only table
    ([store.ts]) and the poll cycle ([poller.ts]), over the same RPC as the
    repay watcher's. An event's topics and value are what the SDK's [scValToNative]
    makes of them. *)

From S2P Require Import Prelude JsData JsMap RpcCursor RepayWatcher.
From S2P Require Export JsJson.
From Stdlib Require Import Sorting.Sorted.

#[local] Set Warnings "-register-all".

(** ** Values *)

Inductive Native : Type :=
| n_string (s : string)
| n_bigint (z : Z)
| n_bytes (bs : list byte)
| n_number (z : Z)
| n_bool (b : bool)
| n_null
| n_array (l : list Native)
| n_object (fields : list (string * Native)).

(** Bytes as hex and integers as decimal strings. *)
Fixpoint plain (v : Native) : Json :=
  match v with
  | n_string s => j_string s
  | n_bigint z => j_string (z_to_string z)
  | n_bytes bs => j_string (to_hex bs)
  | n_number z => j_number z
  | n_bool b => j_bool b
  | n_null => j_null
  | n_array l => j_array (map plain l)
  | n_object fs => j_object (map (λ f, (f.1, plain f.2)) fs)
  end.

(** ** Rows *)

Record RawLendEvent : Type := {
  ev_id : string;
  ev_ledger : Z;
  ev_txHash : string;
  ev_topic : list Native;
  ev_value : Native;
  ev_topicXdr : list string;     (* the topics and the value, [toXDR("base64")] *)
  ev_valueXdr : string;
}.

Record LendEventRow : Type := {
  id : string;
  contractId : string;
  ledger : Z;
  txHash : string;
  name : string;
  subject : string;
  data : string;
  rawXdr : string;
}.

Definition ARCHIVED : list string :=
  ["deposit"; "borrow"; "repay"; "repay_full"; "liquidate"; "supply"; "withdraw"].

Definition encodeRawXdr (e : RawLendEvent) : string :=
  JSON_stringify (j_object [("topic", j_array (map j_string (ev_topicXdr e))); ("value", j_string (ev_valueXdr e))]).

Definition decodeColumns (name : string) (topic : list Native) (value : Native) :
    result string (string * string) :=
  match topic with
  | _ :: t :: _ =>
      match plain t with
      | j_string subject => Ok (subject, JSON_stringify (plain value))
      | _ => Err (name +:+ " event has an unreadable subject")
      end
  | _ => Err (name +:+ " event has no subject topic")
  end.

Definition decodeLendEvent (e : RawLendEvent) (contract : string) : result string (option LendEventRow) :=
  match ev_topic e with
  | [] => Err ("event " +:+ ev_id e +:+ " has no topics")
  | n_string nm :: _ =>
      if bool_decide (nm ∈ ARCHIVED) then
        '(subj, dat) ← decodeColumns nm (ev_topic e) (ev_value e);
        mret (Some {| id := ev_id e; contractId := contract; ledger := ev_ledger e; txHash := ev_txHash e;
                      name := nm; subject := subj; data := dat; rawXdr := encodeRawXdr e |})
      else Ok None
  | _ => Ok None
  end.

(** ** The table *)

Record LendEventStore : Type := mkLendStore {
  lend_cursor : option string;
  lend_events : jsmap string LendEventRow;      (* by [id], the primary key *)
}.

Definition empty_archive : LendEventStore := mkLendStore None [].

(** [ORDER BY id] *)
Definition id_order (e1 e2 : string * LendEventRow) : bool := String.leb e1.1 e2.1.

Module Archive.
Definition readCursor (st : LendEventStore) : option string := lend_cursor st.

(** [INSERT OR IGNORE] *)
Definition insert_row (rows : jsmap string LendEventRow) (r : LendEventRow) : jsmap string LendEventRow :=
  if map_has (id r) rows then rows else map_set (id r) r rows.

(** One transaction. *)
Definition commit (rows : list LendEventRow) (cursor : string) (st : LendEventStore) :
    result string LendEventStore :=
  let m := foldl insert_row (lend_events st) rows in
  assertValidCursor cursor;; mret (mkLendStore (Some cursor) m).

Definition list_rows (contract : string) (st : LendEventStore) : list LendEventRow :=
  (sort_with id_order (filter (λ e, contractId e.2 = contract) (lend_events st))).*2.

Definition snapshot (contract : string) (st : LendEventStore) : list LendEventRow * option string :=
  (list_rows contract st, readCursor st).

(** [SELECT MAX(ledger)] *)
Definition lastLedger (contract : string) (st : LendEventStore) : option Z :=
  foldr (λ e o, Some (match o with Some l => Z.max (ledger e.2) l | None => ledger e.2 end)) None
    (filter (λ e, contractId e.2 = contract) (lend_events st)).
End Archive.
Import Archive.

(** ** The poll cycle *)

Definition MAX_PAGES_PER_POLL : nat := 20.

Record archiver (W : Type) : Type := mkArchiver { archive : LendEventStore; outside : W }.
Arguments mkArchiver {W}. Arguments archive {W}. Arguments outside {W}.

Section poller.
Context {W : Type} `{WatcherEnv W RawLendEvent}
  (contract : string) (deployLedger : option Z).
Abbreviation M := (io (archiver W) string).

Definition ask {A} (f : W → result string A * W) : M A := λ s,
  let '(r, w) := f (outside s) in (r, mkArchiver (archive s) w).

(** The rows of a page: an event that does not decode stops the cycle. *)
Fixpoint decode_page (events : list RawLendEvent) : result string (list LendEventRow) :=
  match events with
  | [] => mret []
  | e :: events =>
      row ← decodeLendEvent e contract;
      rows ← decode_page events;
      mret (match row with Some r => r :: rows | None => rows end)
  end.

Definition commit_page (rows : list LendEventRow) (cursor : string) : M () := λ s,
  match commit rows cursor (archive s) with
  | Ok st => (Ok (), mkArchiver st (outside s))
  | Err e => (Err e, s)
  end.

Fixpoint read_pages (pages : nat) : M bool :=
  match pages with
  | O => mret false
  | S pages =>
      cursor ← gets (λ s, present (readCursor (archive s)));
      request ← lift (match cursor, deployLedger with
                      | Some c, _ => Ok (from_cursor c)
                      | None, Some l => Ok (from_ledger l)
                      | None, None => Err "empty archive and WRITZ_LEND_DEPLOY_LEDGER is not set"
                      end);
      response ← ask (w_getEvents request);
      rows ← lift (decode_page response.1);
      commit_page rows response.2;;
      if bool_decide (response.1 = []) then mret true else read_pages pages
  end.

(** [true] once it reached the tip, [false] if it stopped at the page limit. *)
Definition runLendEventsCycle : M bool := read_pages MAX_PAGES_PER_POLL.

(** One round of the archive's loop, and what /health reports after it. *)
Definition archive_round (s : archiver W) : option string * archiver W :=
  match runLendEventsCycle s with
  | (Ok _, s) => (None, s)
  | (Err e, s) => (Some (first_line e), s)
  end.

(** Rounds of the loop, and whatever the world does meanwhile. *)
Inductive archive_step {L : WatcherLaws W RawLendEvent} (s : archiver W) : archiver W → Prop :=
| step_round : archive_step s (archive_round s).2
| step_world w : w_le (outside s) w → archive_step s (mkArchiver (archive s) w).
End poller.

(** ** What the RPC promises besides

    Event IDs are unique and increase along the chain, and the cursor of an
    answer is never before the one it was asked from. *)
Class ArchiveLaws (W : Type) `{WatcherLaws W RawLendEvent} : Type := {
  ids_increase w : StronglySorted (λ e1 e2, String.leb (ev_id e1) (ev_id e2) = true) (chain_log w);
  ids_unique w : NoDup (map ev_id (chain_log w));
  cursor_advances c0 w evs c w' :
    w_getEvents (from_cursor c0) w = (Ok (evs, c), w') → (position c0 ≤ position c)%nat;
}.

(** ** Lemmas *)

Lemma sort_with_sorted {A} (le : A → A → bool) l :
  StronglySorted (λ x y, le x y = true) l → sort_with le l = l.
Proof.
  induction 1 as [|x l _ IH Hx]; [done|]. simpl. fold (sort_with le l). rewrite IH.
  destruct l as [|y l]; [done|]. simpl. inversion Hx as [|? ? E ?]; subst. by rewrite E.
Qed.

Lemma StronglySorted_sublist {A} (R : A → A → Prop) l1 l2 :
  sublist l1 l2 → StronglySorted R l2 → StronglySorted R l1.
Proof.
  induction 1 as [|x l1 l2 Hs IH|x l1 l2 Hs IH]; intros H; [constructor|..];
    inversion H as [|? ? Hl Hx]; subst; [|by apply IH].
  constructor; [by apply IH|]. rewrite Forall_forall in *. eauto using elem_of_sublist.
Qed.

Section facts.
Context (contract : string).
Implicit Types (e : RawLendEvent) (r : LendEventRow).

(** A decoded row is of its event. *)
Lemma decodeLendEvent_row e r :
  decodeLendEvent e contract = Ok (Some r) → id r = ev_id e ∧ contractId r = contract.
Proof.
  unfold decodeLendEvent, mbind, result_bind, mret, result_ret. intros H. by split_in H.
Qed.

Lemma decode_page_app es1 es2 rs1 :
  decode_page contract es1 = Ok rs1 →
  decode_page contract (es1 ++ es2) =
    (rs2 ← decode_page contract es2; mret (rs1 ++ rs2)).
Proof.
  revert rs1. induction es1 as [|e es1 IH]; intros rs1; simpl.
  - intros [= <-]. unfold mbind, result_bind, mret, result_ret. by destruct (decode_page _ es2).
  - unfold mbind, result_bind, mret, result_ret in *.
    destruct (decodeLendEvent e contract) as [o|]; [|done].
    destruct (decode_page contract es1) as [rs|]; [|done]. intros [= <-].
    rewrite (IH rs eq_refl). destruct (decode_page contract es2); [|done]. by destruct o.
Qed.

(** The rows keep the events' IDs, in order, and are the contract's. *)
Lemma decode_page_ids es rs :
  decode_page contract es = Ok rs →
  sublist (map id rs) (map ev_id es) ∧ Forall (λ r, contractId r = contract) rs.
Proof.
  revert rs. induction es as [|e es IH]; intros rs; simpl; [by intros [= <-]|].
  unfold mbind, result_bind, mret, result_ret.
  destruct (decodeLendEvent e contract) as [o|] eqn:E; [|done].
  destruct (decode_page contract es) as [rs'|]; [|done].
  destruct (IH rs' eq_refl) as [Hs Hc]. intros [= <-]. destruct o as [r|].
  - apply decodeLendEvent_row in E as [Hid Hct]. simpl. rewrite Hid. split; [by constructor|by constructor].
  - split; [by constructor|done].
Qed.

(** The rows of some events, read off one by one, and whether each decodes. *)
Definition event_row e : option LendEventRow :=
  match decodeLendEvent e contract with Ok o => o | Err _ => None end.

Definition decodes e : Prop := is_ok (decodeLendEvent e contract) = true.

Lemma decode_page_rows es rs :
  decode_page contract es = Ok rs → Forall decodes es ∧ rs = omap event_row es.
Proof.
  revert rs. induction es as [|e es IH]; intros rs; simpl; [by intros [= <-]|].
  unfold mbind, result_bind, mret, result_ret, event_row, decodes in *.
  destruct (decodeLendEvent e contract) as [o|] eqn:E; [|done].
  destruct (decode_page contract es) as [rs'|]; [|done].
  destruct (IH rs' eq_refl) as [Hf ->]. intros [= <-]. split.
  - constructor; [by rewrite E|done].
  - by destruct o.
Qed.

Definition table (rs : list LendEventRow) : jsmap string LendEventRow := map (λ r, (id r, r)) rs.

Lemma table_keys rs : map_keys (table rs) = map id rs.
Proof. unfold map_keys, table. rewrite <- list_fmap_compose. done. Qed.

(** Rows not yet in the table are appended. *)
Lemma insert_rows_new m rs :
  NoDup (map_keys m ++ map id rs) → foldl insert_row m rs = m ++ table rs.
Proof.
  revert m. induction rs as [|r rs IH]; intros m Hnd; simpl; [by rewrite app_nil_r|].
  assert (Hnew : id r ∉ map_keys m).
  { apply NoDup_app in Hnd as (_ & Hd & _). intros Hin. apply (Hd _ Hin). simpl. by left. }
  unfold insert_row at 2. assert (map_has (id r) m = false) as ->.
  { apply map_has_false, eq_None_not_Some. by rewrite map_get_keys. }
  rewrite map_set_new by done. rewrite IH.
  - by rewrite <- app_assoc.
  - unfold map_keys in *. rewrite fmap_app. simpl. rewrite <- app_assoc. exact Hnd.
Qed.

Lemma list_rows_table rs c :
  StronglySorted (λ a b, String.leb a b = true) (map id rs) →
  Forall (λ r, contractId r = contract) rs → list_rows contract (mkLendStore c (table rs)) = rs.
Proof.
  intros Hs Hc. unfold list_rows. simpl. assert (filter (λ x, contractId x.2 = contract) (table rs) = table rs) as ->.
  { unfold table. clear Hs. induction Hc as [|r rs Hr _ IH]; [done|]. simpl.
    rewrite filter_cons. simpl. rewrite decide_True by done. by rewrite IH. }
  rewrite sort_with_sorted.
  - unfold table. rewrite <- list_fmap_compose. apply list_fmap_id.
  - clear Hc. unfold table. induction rs as [|r rs IH]; [constructor|].
    inversion Hs as [|? ? Hl Hx]; subst. constructor; [by apply IH|].
    apply List.Forall_map in Hx. apply List.Forall_map. exact Hx.
Qed.
End facts.

Section archive.
Context {W : Type} `{AL : ArchiveLaws W}
  (contract : string) (deployLedger : option Z).
Abbreviation M := (io (archiver W) string).

(** How much of the chain's log a cursor has passed. *)
Definition passed_events (c : option string) : nat :=
  match c with Some c => position c | None => 0%nat end.

(** The table is exactly the decoded log up to the cursor. *)
Record archive_inv (s : archiver W) : Prop := {
  ai_cursor : ∀ c, lend_cursor (archive s) = Some c → isValidCursor c = true;
  ai_within : (passed_events (lend_cursor (archive s)) ≤ length (chain_log (outside s)))%nat;
  ai_rows : ∃ rows,
    decode_page contract (take (passed_events (lend_cursor (archive s))) (chain_log (outside s)))
      = Ok rows ∧
    lend_events (archive s) = table rows;
}.

Lemma ArchiveLaws_sorted w n rows :
  decode_page contract (take n (chain_log w)) = Ok rows →
  NoDup (map id rows) ∧ StronglySorted (λ a b, String.leb a b = true) (map id rows) ∧
  Forall (λ r, contractId r = contract) rows.
Proof.
  intros Hd. apply decode_page_ids in Hd as [Hs Hc].
  assert (Hs' : sublist (map id rows) (map ev_id (chain_log w))).
  { etrans; [exact Hs|]. rewrite <- (take_drop n (chain_log w)) at 2. rewrite map_app.
    apply sublist_inserts_r. done. }
  split_and!; [|..|done].
  - eapply sublist_NoDup; [apply (ids_unique w)|exact Hs'].
  - eapply StronglySorted_sublist; [exact Hs'|]. pose proof (ids_increase w) as Hi. clear Hs Hs'.
    induction Hi as [|e l _ IH Hx]; [constructor|]. simpl. constructor; [apply IH|by apply List.Forall_map].
Qed.

Lemma world_archive_inv s w :
  w_le (outside s) w → archive_inv s → archive_inv (mkArchiver (archive s) w).
Proof.
  intros [[suf Hl] _] [Hc Hw (rows & Hd & Hr)]. split; simpl; [done|rewrite Hl, length_app; lia|].
  exists rows. split; [|done]. rewrite Hl, take_app_le by lia. done.
Qed.

Lemma archive_inv_start w : archive_inv (mkArchiver empty_archive w).
Proof. split; simpl; [done|lia|]. exists []. done. Qed.

(** The listing is the decoded log. *)
Lemma archive_inv_list s :
  archive_inv s → decode_page contract
    (take (passed_events (lend_cursor (archive s))) (chain_log (outside s))) = Ok (list_rows contract (archive s)).
Proof.
  intros [_ _ (rows & Hd & Hr)]. destruct (ArchiveLaws_sorted _ _ _ Hd) as (_ & Hs & Hc).
  rewrite Hd. f_equal. destruct (archive s) as [c m]. simpl in Hr. subst m. symmetry. by apply list_rows_table.
Qed.

(** What an operation of the archive may do: keep the invariant, let the world
    go on, and add rows at the end of the listing. *)
Definition advances (s s' : archiver W) : Prop :=
  archive_inv s' ∧ w_le (outside s) (outside s') ∧
  list_rows contract (archive s) `prefix_of` list_rows contract (archive s').

Lemma advances_refl s : archive_inv s → advances s s.
Proof. intros Hi. split_and!; [done|by split|done]. Qed.

Lemma advances_trans s1 s2 s3 : advances s1 s2 → advances s2 s3 → advances s1 s3.
Proof.
  intros (_ & [Hl1 Hc1] & Hp1) (Hi & [Hl2 Hc2] & Hp2). split_and!; [done| |by etrans].
  split; [by etrans|auto].
Qed.

Lemma world_advances s w :
  w_le (outside s) w → archive_inv s → advances s (mkArchiver (archive s) w).
Proof. intros Hle Hi. split_and!; [by apply world_archive_inv|done|done]. Qed.

(** A page right after the cursor extends the table. *)
Lemma commit_page_advances s evs rows c :
  archive_inv s → (passed_events (lend_cursor (archive s)) ≤ position c ≤ length (chain_log (outside s)))%nat →
  evs = take (position c - passed_events (lend_cursor (archive s)))
          (drop (passed_events (lend_cursor (archive s))) (chain_log (outside s))) →
  decode_page contract evs = Ok rows → advances s (commit_page rows c s).2.
Proof.
  intros Hi [Hp Hl] Hevs Hd. pose proof Hi as [Hc Hw (rows0 & Hd0 & Hr0)].
  unfold commit_page, commit, mbind, result_bind, mret, result_ret.
  destruct (assertValidCursor c) as [u|] eqn:Ec; [|by apply advances_refl]. apply assertValidCursor_ok in Ec. simpl.
  set (p := passed_events (lend_cursor (archive s))) in *. set (log := chain_log (outside s)) in *.
  assert (Hlog : take (position c) log = take p log ++ evs).
  { rewrite Hevs. replace (position c) with (p + (position c - p))%nat at 1 by lia. by rewrite take_take_drop. }
  assert (Hall : decode_page contract (take (position c) log) = Ok (rows0 ++ rows))
    by (rewrite Hlog, (decode_page_app _ _ _ _ Hd0), Hd; done).
  destruct (ArchiveLaws_sorted (outside s) _ _ Hall) as (Hnd & _ & _).
  assert (Hi' : archive_inv (mkArchiver (mkLendStore (Some c) (foldl insert_row (lend_events (archive s)) rows)) (outside s))).
  { split; simpl; [by intros ? [= <-]|done|].
    exists (rows0 ++ rows). split; [done|]. rewrite Hr0, insert_rows_new.
    - unfold table. by rewrite map_app.
    - rewrite table_keys, <- map_app. done. }
  split_and!; [done|by split|].
  pose proof (eq_trans (eq_sym Hd0) (archive_inv_list s Hi)) as E0.
  pose proof (eq_trans (eq_sym Hall) (archive_inv_list _ Hi')) as E1.
  injection E0 as E0. injection E1 as E1. cbn [archive snd] in E1 |- *. rewrite <- E0, <- E1. by exists rows.
Qed.

Lemma read_pages_advances n s : archive_inv s → advances s (read_pages contract deployLedger n s).2.
Proof.
  revert s. induction n as [|n IH]; intros s Hi; [by apply advances_refl|]. cbn [read_pages]. unfold gets, lift.
  unfold mbind at 1, io_bind at 1. unfold mbind at 1, io_bind at 1.
  destruct (match present _ with Some c => _ | None => _ end) as [q|e] eqn:Eq; [|by apply advances_refl].
  unfold mbind at 1, io_bind at 1, ask. pose proof (getEvents_le q (outside s)) as Hle.
  destruct (w_getEvents q (outside s)) as [[[evs c]|e] w] eqn:Eg; simpl in Hle; [|by apply world_advances].
  pose proof (world_advances s w Hle Hi) as Hi1. cbn [fst snd].
  unfold mbind at 1, io_bind at 1. destruct (decode_page contract evs) as [rows|e] eqn:Ed; [|done].
  assert (Hi2 : advances (mkArchiver (archive s) w) (commit_page rows c (mkArchiver (archive s) w)).2).
  { pose proof Eg as Eg'. apply getEvents_slice in Eg as [Hpos Hevs].
    assert (Hq : (match q with from_cursor c0 => position c0 | from_ledger _ => 0%nat end)
      = passed_events (lend_cursor (archive s)) ∧
      (passed_events (lend_cursor (archive s)) ≤ position c)%nat).
    { unfold Archive.readCursor in Eq. pose proof (ai_cursor s Hi) as Hne. revert Eq Hne.
      destruct (lend_cursor (archive s)) as [c0|]; simpl.
      - unfold present. case_bool_decide as Hc0; [intros _ Hv; subst; by specialize (Hv _ eq_refl)|]. intros [= <-] _.
        split; [done|]. by eapply cursor_advances.
      - destruct deployLedger; [|done]. intros [= <-] _. split; [done|lia]. }
    destruct Hq as [Hq Hadv]. rewrite Hq in Hevs. apply (commit_page_advances _ evs); [apply Hi1|done..]. }
  unfold mbind at 1, io_bind at 1. pose proof (advances_trans _ _ _ Hi1 Hi2) as Ha.
  destruct (commit_page rows c _) as [[[]|e] s2]; [|done].
  destruct (bool_decide (evs = [])); [done|]. eapply advances_trans; [exact Ha|]. apply IH, Ha.
Qed.

Lemma archive_step_inv s s' :
  archive_step contract deployLedger s s' → archive_inv s → archive_inv s'.
Proof.
  intros [|w Hle] Hi; [|by apply world_archive_inv].
  pose proof (proj1 (read_pages_advances MAX_PAGES_PER_POLL s Hi)) as H1. unfold archive_round, runLendEventsCycle.
  by destruct (read_pages _ _ _ s) as [[|] s1].
Qed.

End archive.

(** ** Property *)

(** C25: the archive is the chain's own record. Starting empty, through any
    rounds, RPC failures, undecodable events, page limits and growth of the
    chain, the listing is at every moment exactly the decoded rows of the
    events up to the stored cursor: complete, in order, each once, and with
    no event the archive should have refused. *)
Theorem archive_is_the_chain {W} `{ArchiveLaws W} contract deployLedger (w0 : W) s :
  rtc (archive_step contract deployLedger) (mkArchiver empty_archive w0) s →
  let '(rows, cursor) := snapshot contract (archive s) in
  let events := take (passed_events cursor) (chain_log (outside s)) in
  rows = omap (event_row contract) events ∧ Forall (decodes contract) events ∧
  (passed_events cursor ≤ length (chain_log (outside s)))%nat ∧ NoDup (map id rows).
Proof.
  intros Hsteps. assert (Hi : archive_inv contract s).
  { pose proof (archive_inv_start contract w0) as Hbase.
    induction Hsteps as [|s1 s2 s3 H12 _ IH]; [done|]. by eapply IH, archive_step_inv. }
  unfold snapshot. destruct (decode_page_rows _ _ _ (archive_inv_list _ _ Hi)) as [Hf Hrows].
  split_and!; [done|done|apply Hi|].
  destruct (ArchiveLaws_sorted contract _ _ _ (archive_inv_list _ _ Hi)) as (? & _). done.
Qed.

(** ** A chain of one repayment *)

Module Demo.
Definition tx : list byte := replicate 32 xab.
Definition cursor1 : string := default "" (cursorForLedger 100).
Definition repayment : RawLendEvent := {|
  ev_id := "0000000429496729600-0000000001"; ev_ledger := 100; ev_txHash := "ff";
  ev_topic := [n_string "repay_full"; n_bytes tx]; ev_value := n_object [];
  ev_topicXdr := []; ev_valueXdr := "" |}.

#[global] Instance demo_env : WatcherEnv unit RawLendEvent := {|
  w_now w := 0;
  w_sleep _ w := w;
  w_getEvents q w :=
    (Ok (match q with from_cursor c => if bool_decide (c = "") then [repayment] else [] | _ => [repayment] end,
         cursor1), w);
  w_handle t w := (Err "offline", w);
  w_isPublished t w := (Ok false, w);
|}.

Definition demo_position (c : string) : nat := if bool_decide (c = "") then 0 else 1.

#[global] Instance demo_laws : WatcherLaws unit RawLendEvent.
Proof.
  refine {| chain_log _ := [repayment]; on_chain w t := False; position := demo_position |}; simpl;
    try (intros; split; [reflexivity|done]).
  - assert (P : demo_position cursor1 = 1%nat) by (vm_compute; reflexivity).
    intros [c0|l] w evs c w' [= <- <- <-]; rewrite P; (split; [simpl; lia|]); [|done].
    unfold demo_position. by case_bool_decide.
  - done.
Defined.

#[global] Instance demo_archive_laws : ArchiveLaws unit.
Proof.
  split; simpl.
  - intros w. repeat constructor.
  - intros w. apply NoDup_singleton.
  - intros c0 w evs c w' [= _ <- _]. unfold demo_position at 1. case_bool_decide; [lia|].
    by vm_compute.
Defined.

Definition start : archiver unit := mkArchiver empty_archive tt.
Definition after : archiver unit := (archive_round "C" (Some 50) start).2.

Lemma archive_is_the_chain_witness :
  length (snapshot "C" (archive after)).1 = 1%nat ∧
  (snapshot "C" (archive after)).1 = omap (event_row "C") [repayment].
Proof.
  assert (L : length (snapshot "C" (archive after)).1 = 1%nat) by (vm_compute; reflexivity).
  assert (P : passed_events (snapshot "C" (archive after)).2 = 1%nat) by (vm_compute; reflexivity).
  pose proof (archive_is_the_chain "C" (Some 50) tt after
    (rtc_once _ _ (step_round "C" (Some 50) start))) as Ha.
  destruct (snapshot "C" (archive after)) as [rows c]. destruct Ha as [Ha _].
  split; [exact L|]. cbn [snd] in P. rewrite P in Ha. exact Ha.
Defined.
End Demo.
