(* ===== verification/LendRebuild.v ===== *)
(** * Rebuilding the lend state ([relayer/src/lend-rebuild/])

    What the archived events say the contract's state must be ([replay.ts]),
    its check against the contract ([verify.ts]) and the rebuild of the
    relayer's data from the chain ([rebuild.ts]). *)

From S2P Require Import Prelude JsData JsMap RpcCursor RepayWatcher LendArchive.
Import Archive.

(** ** Replay *)

Inductive ExpectedStatus : Type := Active | Closed | Liquidated.

#[global] Instance status_eq_dec : EqDecision ExpectedStatus.
Proof. solve_decision. Defined.

Definition status_text (s : ExpectedStatus) : string :=
  match s with Active => "Active" | Closed => "Closed" | Liquidated => "Liquidated" end.

Record ReplayedState : Type := {
  positions : jsmap string ExpectedStatus;
  scaledBySupplier : jsmap string Z;
  totalScaled : Z;
  repaidInFull : list string;
}.

Section replay.

(** [BigInt(JSON.parse(row.data).scaled_amount)] *)
Definition scaledAmount (row : LendEventRow) : result string Z :=
  match JSON_parse (data row) with
  | Some (j_object fields) =>
      match map_get "scaled_amount" fields with
      | None => Err (name row +:+ " event " +:+ id row +:+ " has no scaled_amount")
      | Some (j_string s) => of_option (BigInt s) "SyntaxError"
      | Some (j_number z) => Ok z
      | Some (j_bool b) => Ok (if b then 1 else 0)
      | Some (j_decimal _) => Err "RangeError"
      | Some _ => Err "TypeError"
      end
  | Some j_null => Err "TypeError"
  | Some _ => Err (name row +:+ " event " +:+ id row +:+ " has no scaled_amount")
  | None => Err "SyntaxError"
  end.

Definition with_position (p : string) (s : ExpectedStatus) (st : ReplayedState) : ReplayedState :=
  {| positions := map_set p s (positions st); scaledBySupplier := scaledBySupplier st;
     totalScaled := totalScaled st; repaidInFull := repaidInFull st |}.

Definition add_scaled (a : string) (z : Z) (st : ReplayedState) : ReplayedState :=
  {| positions := positions st;
     scaledBySupplier := map_set a (default 0 (map_get a (scaledBySupplier st)) + z) (scaledBySupplier st);
     totalScaled := totalScaled st; repaidInFull := repaidInFull st |}.

Definition owes_release (p : string) (st : ReplayedState) : ReplayedState :=
  {| positions := positions st; scaledBySupplier := scaledBySupplier st;
     totalScaled := totalScaled st; repaidInFull := repaidInFull st ++ [p] |}.

Definition replay_row (row : LendEventRow) (st : ReplayedState) : result string ReplayedState :=
  if bool_decide (name row = "deposit") then Ok (with_position (subject row) Active st)
  else if bool_decide (name row = "repay_full") then
    Ok (owes_release (subject row) (with_position (subject row) Closed st))
  else if bool_decide (name row = "liquidate") then Ok (with_position (subject row) Liquidated st)
  else if bool_decide (name row = "supply") then
    z ← scaledAmount row; mret (add_scaled (subject row) z st)
  else if bool_decide (name row = "withdraw") then
    z ← scaledAmount row; mret (add_scaled (subject row) (- z) st)
  else Ok st.

Fixpoint replay_rows (rows : list LendEventRow) (st : ReplayedState) : result string ReplayedState :=
  match rows with
  | [] => Ok st
  | row :: rows => st ← replay_row row st; replay_rows rows st
  end.

Definition replay (rows : list LendEventRow) : result string ReplayedState :=
  st ← replay_rows rows {| positions := []; scaledBySupplier := []; totalScaled := 0; repaidInFull := [] |};
  mret {| positions := positions st; scaledBySupplier := scaledBySupplier st;
          totalScaled := foldl Z.add 0 (map_values (scaledBySupplier st));
          repaidInFull := repaidInFull st |}.

(** ** What the rows say, read off directly *)

(** The status a row gives to position [p]. *)
Definition status_of (p : string) (row : LendEventRow) : option ExpectedStatus :=
  if bool_decide (subject row = p) then
    if bool_decide (name row = "deposit") then Some Active
    else if bool_decide (name row = "repay_full") then Some Closed
    else if bool_decide (name row = "liquidate") then Some Liquidated
    else None
  else None.

(** What a row adds to the total scaled supply. *)
Definition supply_change (row : LendEventRow) : Z :=
  match scaledAmount row with
  | Ok z => if bool_decide (name row = "supply") then z
            else if bool_decide (name row = "withdraw") then - z else 0
  | Err _ => 0
  end.

Definition is_supply (row : LendEventRow) : bool :=
  bool_decide (name row = "supply") || bool_decide (name row = "withdraw").
End replay.

(** ** The contract's views *)

Class LendChain (W : Type) : Type := {
  c_ledgerRange : W → result string (Z * Z) * W;            (* oldest, latest *)
  c_positionStatus : string → W → result string (option string) * W;
  c_scaledSupply : string → W → result string Z * W;
  c_totalScaledSupply : W → result string Z * W;
  c_hasRelease : string → W → result string bool * W;
  c_openReleases : W → result string () * W;                (* the release database *)
}.

Record VerifyResult : Type := { mismatch : option string; missingReleases : list string }.

Record ArchiveSource : Type := { source_rows : list LendEventRow; source_cursor : string }.

Record RebuildReport : Type := {
  events : Z;
  n_positions : Z;
  suppliers : Z;
  total : Z;
  n_repaidInFull : Z;
  missing : list string;
  swapped : bool;
}.

(** The rebuild's own database, and what it replaces at the end. *)
Record rebuilding (W : Type) : Type := mkRebuilding {
  temp : LendEventStore;
  live_archive : LendEventStore;
  live_releases : ReleaseStore;
  chain : W;
}.
Arguments mkRebuilding {W}. Arguments temp {W}. Arguments live_archive {W}.
Arguments live_releases {W}. Arguments chain {W}.

Definition MAX_VERIFY_ROUNDS : nat := 5.
Definition MAX_CYCLES : nat := 1000.

Section rebuild.
Context {W : Type} `{WatcherEnv W RawLendEvent} `{LendChain W}
  (contract : string) (deployLedger : Z) (archive_file : option ArchiveSource) (dryRun : bool).
Abbreviation M := (io (rebuilding W) string).

Definition view {A} (f : W → result string A * W) : M A := λ s,
  let '(r, w) := f (chain s) in (r, mkRebuilding (temp s) (live_archive s) (live_releases s) w).

(** A computation of the archive, on the temporary database. *)
Definition on_temp {A} (m : io (archiver W) string A) : M A := λ s,
  let '(r, a) := m (mkArchiver (temp s) (chain s)) in
  (r, mkRebuilding (archive a) (live_archive s) (live_releases s) (outside a)).

(** The loops of [verifyAgainstChain]: the first difference ends them. *)
Fixpoint verify_positions (ps : list (string * ExpectedStatus)) : M (option string) :=
  match ps with
  | [] => mret None
  | (txid, expected) :: ps =>
      status ← view (c_positionStatus txid);
      if bool_decide (status = Some (status_text expected)) then verify_positions ps
      else mret (Some ("position " +:+ txid +:+ ": replay says " +:+ status_text expected +:+
                       ", chain says " +:+ default "no position" status))
  end.

Fixpoint verify_suppliers (ss : list (string * Z)) : M (option string) :=
  match ss with
  | [] => mret None
  | (supplier, expected) :: ss =>
      scaled ← view (c_scaledSupply supplier);
      if scaled =? expected then verify_suppliers ss
      else mret (Some ("supplier " +:+ supplier +:+ ": replay says " +:+ z_to_string expected +:+
                       " scaled, chain says " +:+ z_to_string scaled))
  end.

Fixpoint find_missing (txids : list string) : M (list string) :=
  match txids with
  | [] => mret []
  | txid :: txids =>
      has ← view (c_hasRelease txid);
      rest ← find_missing txids;
      mret (if has : bool then rest else txid :: rest)
  end.

Definition verifyAgainstChain (st : ReplayedState) : M VerifyResult :=
  mp ← verify_positions (positions st);
  match mp with
  | Some m => mret {| mismatch := Some m; missingReleases := [] |}
  | None =>
      ms ← verify_suppliers (scaledBySupplier st);
      match ms with
      | Some m => mret {| mismatch := Some m; missingReleases := [] |}
      | None =>
          t ← view c_totalScaledSupply;
          if negb (t =? totalScaled st)
          then mret {| mismatch := Some ("total scaled supply: replay says " +:+ z_to_string (totalScaled st) +:+
                                         ", chain says " +:+ z_to_string t); missingReleases := [] |}
          else
            ms ← find_missing (repaidInFull st);
            mret {| mismatch := None; missingReleases := ms |}
      end
  end.

Fixpoint catch_up (cycles : nat) : M () :=
  match cycles with
  | O => throw "the replay did not reach the chain tip"
  | S cycles =>
      at_tip ← on_temp (runLendEventsCycle contract (Some deployLedger));
      if at_tip : bool then mret () else catch_up cycles
  end.

Definition commit_temp (rows : list LendEventRow) (cursor : string) : M () :=
  on_temp (commit_page rows cursor).

(** Can the replay start where it has to? *)
Definition check_range (oldest latest : Z) : result string () :=
  match archive_file with
  | Some a =>
      resume ← of_option (ledgerOfCursor (source_cursor a)) "SyntaxError";
      ensure (oldest <=? resume)
        ("the archive stops at ledger " +:+ z_to_string resume +:+ ", before RPC retention (oldest ledger " +:+
         z_to_string oldest +:+ "), so the events in between are in neither: use a newer archive");;
      ensure (resume <=? latest)
        ("the archive's cursor points at ledger " +:+ z_to_string resume +:+ ", past the chain tip " +:+
         z_to_string latest)
  | None =>
      ensure (oldest <=? deployLedger)
        ("the deployment ledger " +:+ z_to_string deployLedger +:+ " is outside RPC retention (oldest ledger " +:+
         z_to_string oldest +:+ "), so RPC cannot replay it")
  end.

Definition record_missing (missing : list string) (cursor : string) : M () := λ s,
  match Store.recordBatch contract missing cursor (w_now (chain s)) (live_releases s) with
  | Ok st => (Ok (), mkRebuilding (temp s) (live_archive s) st (chain s))
  | Err e => (Err e, s)
  end.

(** The swap: the new archive takes the place of the live one, and what is
    missing is recorded with its cursor. *)
Definition swap (missing : list string) (cursor : string) : M () :=
  modify (λ s, mkRebuilding (temp s) (temp s) (live_releases s) (chain s));;
  view c_openReleases;;
  record_missing missing cursor.

(** One round; [again] is what follows when events arrived meanwhile. *)
Definition verify_round (again : M RebuildReport) : M RebuildReport :=
  before ← gets (λ s, list_rows contract (temp s));
  st ← lift (replay before);
  v ← verifyAgainstChain st;
  catch_up MAX_CYCLES;;
  rows ← gets (λ s, list_rows contract (temp s));
  if negb (zlen rows =? zlen before) then again
  else
    match mismatch v with
    | Some m => throw m
    | None =>
        let report sw := {| events := zlen rows; n_positions := zlen (positions st);
                            suppliers := zlen (scaledBySupplier st); total := totalScaled st;
                            n_repaidInFull := zlen (repaidInFull st); missing := missingReleases v;
                            swapped := sw |} in
        if dryRun then mret (report false)
        else
          cursor ← gets (λ s, present (readCursor (temp s)));
          match cursor with
          | None => throw "the replay finished with no cursor"
          | Some c => swap (missingReleases v) c;; mret (report true)
          end
    end.

(** [more]: the rounds after this one. *)
Fixpoint verify_rounds (more : nat) : M RebuildReport :=
  verify_round
    match more with
    | O => throw "events kept arriving through 5 checks, try again in a quieter moment"
    | S more => verify_rounds more
    end.

Definition rebuildLendState : M RebuildReport :=
  range ← view c_ledgerRange;
  lift (check_range range.1 range.2);;
  modify (λ s, mkRebuilding empty_archive (live_archive s) (live_releases s) (chain s));;
  match archive_file with Some a => commit_temp (source_rows a) (source_cursor a) | None => mret () end;;
  catch_up MAX_CYCLES;;
  verify_rounds (MAX_VERIFY_ROUNDS - 1).
End rebuild.

(** ** The replay reads off what the rows say *)

Section replay_facts.

Lemma sum_values_set (m : jsmap string Z) k z :
  sumZ (map_values (map_set k z m)) = sumZ (map_values m) + z - default 0 (map_get k m).
Proof.
  unfold sumZ. induction m as [|[k' v] m IH]; simpl; [lia|].
  destruct (decide (k = k')) as [->|]; simpl; [lia|]. rewrite IH. lia.
Qed.

Lemma foldl_add (l : list Z) a : foldl Z.add a l = a + sumZ l.
Proof. revert a. induction l as [|x l IH]; intros a; unfold sumZ in *; simpl; [lia|]. rewrite IH. lia. Qed.

(** The effect of one row on each part of the state. *)
Lemma replay_row_spec row st st' :
  replay_row row st = Ok st' →
  (∀ p, map_get p (positions st') =
     match status_of p row with Some s => Some s | None => map_get p (positions st) end) ∧
  (∀ a, default 0 (map_get a (scaledBySupplier st')) =
     default 0 (map_get a (scaledBySupplier st)) + if bool_decide (subject row = a) then supply_change row else 0) ∧
  sumZ (map_values (scaledBySupplier st')) =
     sumZ (map_values (scaledBySupplier st)) + supply_change row ∧
  repaidInFull st' = repaidInFull st ++ (if bool_decide (name row = "repay_full") then [subject row] else []).
Proof.
  unfold replay_row, status_of, supply_change. intros H.
  repeat case_bool_decide; try congruence; unfold mbind, result_bind, mret, result_ret in H;
    try (destruct (scaledAmount row) as [z|] eqn:Ez; [|done]); simplify_eq/=;
    rewrite ?app_nil_r; (split_and!; [| | |done]);
    try (intros x; rewrite ?map_get_set; repeat case_bool_decide; repeat case_decide; simplify_eq/=; done || lia);
    try (rewrite ?sum_values_set; lia);
    try (intros a; destruct (scaledAmount row); case_bool_decide; lia);
    destruct (scaledAmount row); lia.
Qed.

Lemma replay_rows_spec rows st st' :
  replay_rows rows st = Ok st' →
  (∀ p, map_get p (positions st') =
     match last (omap (status_of p) rows) with Some s => Some s | None => map_get p (positions st) end) ∧
  (∀ a, default 0 (map_get a (scaledBySupplier st')) = default 0 (map_get a (scaledBySupplier st)) +
     sumZ (map (supply_change) (filter (λ r, subject r = a) rows))) ∧
  sumZ (map_values (scaledBySupplier st')) =
    sumZ (map_values (scaledBySupplier st)) + sumZ (map (supply_change) rows) ∧
  repaidInFull st' = repaidInFull st ++ map subject (filter (λ r, name r = "repay_full") rows).
Proof.
  revert st. induction rows as [|row rows IH]; intros st; cbn [replay_rows].
  - intros [= <-]. simpl. rewrite app_nil_r. unfold sumZ. simpl. split_and!; done || (intros; lia) || lia.
  - unfold mbind, result_bind. destruct (replay_row row st) as [st1|] eqn:E1; [|done].
    intros H. destruct (IH st1 H) as (P & S & T & R). destruct (replay_row_spec _ _ _ E1) as (P1 & S1 & T1 & R1).
    split_and!.
    + intros p. rewrite P, P1. simpl. destruct (status_of p row); [|done]. rewrite last_cons. by destruct (last _).
    + intros a. rewrite S, S1, filter_cons. unfold sumZ. destruct (decide (subject row = a)) as [Ha|Ha];
        [rewrite bool_decide_eq_true_2 by done|rewrite bool_decide_eq_false_2 by done]; simpl; lia.
    + rewrite T, T1. unfold sumZ. simpl. lia.
    + rewrite R, R1, filter_cons, <- app_assoc. f_equal.
      destruct (decide (name row = "repay_full")) as [Ha|Ha];
        [rewrite bool_decide_eq_true_2 by done|rewrite bool_decide_eq_false_2 by done]; done.
Qed.

(** the replay is what the events say: a position has the status of its
    last deposit, repay_full or liquidate event, a supplier's scaled balance
    is what it supplied less what it withdrew, the total is the same sum over
    everyone, and the positions repaid in full are those of the [repay_full]
    events, in order. It fails only on a supply or withdraw event whose
    amount cannot be read. *)
Theorem replay_reads_the_events rows :
  match replay rows with
  | Ok st =>
      (∀ p, map_get p (positions st) = last (omap (status_of p) rows)) ∧
      (∀ a, default 0 (map_get a (scaledBySupplier st)) =
         sumZ (map (supply_change) (filter (λ r, subject r = a) rows))) ∧
      totalScaled st = sumZ (map (supply_change) rows) ∧
      repaidInFull st = map subject (filter (λ r, name r = "repay_full") rows)
  | Err e => ∃ row, row ∈ rows ∧ is_supply row = true ∧ scaledAmount row = Err e
  end.
Proof.
  unfold replay, mbind, result_bind, mret, result_ret.
  destruct (replay_rows _ _) as [st|e] eqn:E; simpl.
  - destruct (replay_rows_spec _ _ _ E) as (P & S & T & R). simpl in *. rewrite foldl_add.
    split_and!; [intros p; rewrite P; by destruct (last _)|intros a; by rewrite S|by rewrite T|done].
  - revert E. match goal with |- replay_rows _ ?s = _ → _ => generalize s end.
    induction rows as [|row rows IH]; intros st; cbn [replay_rows]; [done|].
    unfold mbind, result_bind. destruct (replay_row row st) as [st1|e1] eqn:E1.
    + intros H. destruct (IH st1 H) as (r & ? & ?). exists r. split; [by right|done].
    + intros [= ->]. exists row. split; [by left|]. unfold replay_row, mbind, result_bind, is_supply in *.
      repeat case_bool_decide; try done; by destruct (scaledAmount row); simplify_eq/=.
Qed.
End replay_facts.

(** ** The watcher's decoder, on the same events *)

(** [Buffer.from(v)] of a topic; other values are no topic of these events. *)
Definition buffer_from (v : Native) : option (list byte) :=
  match v with
  | n_bytes bs => Some bs
  | n_string s => Some (map (λ c, z2b (ascii_z c)) (chars s))
  | _ => None
  end.

Definition decodeRepayFullEvent (e : RawLendEvent) : option string * option (list byte) :=
  (match ev_topic e with n_string t :: _ => Some t | _ => None end,
   match ev_topic e with _ :: t :: _ => buffer_from t | _ => None end).

(** Reads only see the chain as it is, which only grows; [get_release_psbt]
    shows only what is on chain; the contract emits [repay_full] with the
    position's txid as bytes. *)
Class LendChainLaws (W : Type) `{ArchiveLaws W} `{LendChain W} : Type := {
  ledgerRange_le w : w_le w (c_ledgerRange w).2;
  positionStatus_le t w : w_le w (c_positionStatus t w).2;
  scaledSupply_le a w : w_le w (c_scaledSupply a w).2;
  totalScaledSupply_le w : w_le w (c_totalScaledSupply w).2;
  hasRelease_le t w : w_le w (c_hasRelease t w).2;
  openReleases_le w : w_le w (c_openReleases w).2;
  hasRelease_sound t w w' : c_hasRelease t w = (Ok true, w') → on_chain w' (from_hex t);
  repay_full_shape w e rest :
    e ∈ chain_log w → ev_topic e = n_string REPAY_FULL_TOPIC :: rest → ∃ bs rest', rest = n_bytes bs :: rest';
}.

Section facts.
Context {W : Type} `{LendChainLaws W}
  (contract : string) (deployLedger : Z) (dryRun : bool).
Abbreviation M := (io (rebuilding W) string).
Implicit Types (s : rebuilding W).

Definition temp_archiver s : archiver W := mkArchiver (temp s) (chain s).
Definition temp_inv s : Prop := archive_inv contract (temp_archiver s).

Definition same_live s s' : Prop :=
  live_archive s' = live_archive s ∧ live_releases s' = live_releases s.

(** Work on the temporary database: nothing live changes. *)
Definition works s s' : Prop :=
  same_live s s' ∧ (temp_inv s → advances contract (temp_archiver s) (temp_archiver s')).

#[local] Instance works_preorder : PreOrder works.
Proof.
  split.
  - intros s. split; [done|]. apply advances_refl.
  - intros s1 s2 s3 [[A1 R1] B1] [[A2 R2] B2]. split; [split; congruence|]. intros Hi.
    pose proof (B1 Hi) as Ha. eapply advances_trans; [exact Ha|]. apply B2, Ha.
Qed.

Lemma view_works {A} (f : W → result string A * W) :
  (∀ w, w_le w (f w).2) → preserves works (view f : M A).
Proof.
  intros Hf s. unfold view. specialize (Hf (chain s)). destruct (f (chain s)) as [r w].
  split; [done|]. intros Hi. by apply world_advances.
Qed.

Lemma on_temp_works {A} (m : io (archiver W) string A) :
  (∀ a, archive_inv contract a → advances contract a (m a).2) →
  preserves works (on_temp m : M A).
Proof.
  intros Hm s. unfold on_temp. specialize (Hm (temp_archiver s)).
  destruct (m (mkArchiver (temp s) (chain s))) as [r a] eqn:E. split; [done|]. intros Hi.
  specialize (Hm Hi). unfold temp_archiver in *. rewrite E in Hm. by destruct a.
Qed.

Lemma catch_up_works n : preserves works (catch_up contract deployLedger n : M ()).
Proof.
  induction n as [|n IH]; simpl; [preserve|]. apply preserves_bind; [typeclasses eauto| |].
  - apply on_temp_works. intros a Ha. by apply read_pages_advances.
  - intros []; preserve.
Qed.

Lemma verify_positions_works ps : preserves works (verify_positions ps : M (option string)).
Proof.
  induction ps as [|[t e] ps IH]; simpl; [preserve|]. apply preserves_bind; [typeclasses eauto| |].
  - apply view_works, positionStatus_le.
  - intros o. destruct (bool_decide _); [exact IH|preserve].
Qed.

Lemma verify_suppliers_works ss : preserves works (verify_suppliers ss : M (option string)).
Proof.
  induction ss as [|[a e] ss IH]; simpl; [preserve|]. apply preserves_bind; [typeclasses eauto| |].
  - apply view_works, scaledSupply_le.
  - intros o. destruct (_ =? _); [exact IH|preserve].
Qed.

Lemma find_missing_works ts : preserves works (find_missing ts : M (list string)).
Proof.
  induction ts as [|t ts IH]; simpl; [preserve|]. apply preserves_bind; [typeclasses eauto| |].
  - apply view_works, hasRelease_le.
  - intros has. apply preserves_bind; [typeclasses eauto|exact IH|]. intros; preserve.
Qed.

Lemma verify_works st : preserves works (verifyAgainstChain st : M VerifyResult).
Proof.
  unfold verifyAgainstChain.
  apply preserves_bind; [typeclasses eauto|apply verify_positions_works|intros [|]; [preserve|]].
  apply preserves_bind; [typeclasses eauto|apply verify_suppliers_works|intros [|]; [preserve|]].
  apply preserves_bind; [typeclasses eauto|apply view_works, totalScaledSupply_le|intros t].
  destruct (negb _); [preserve|].
  apply preserves_bind; [typeclasses eauto|apply find_missing_works|intros; preserve].
Qed.

(** What is not missing is on chain. *)
Lemma find_missing_spec ts s ms s' :
  temp_inv s → find_missing ts s = (Ok ms, s') →
  ∀ t, t ∈ ts → t ∈ ms ∨ on_chain (chain s') (from_hex t).
Proof.
  revert s ms. induction ts as [|t0 ts IH]; intros s ms Hi E t Ht; [inversion Ht|].
  simpl in E. unfold mbind, io_bind, mret, io_ret in E.
  pose proof (view_works (c_hasRelease t0) (hasRelease_le t0) s) as [_ Hv].
  destruct (view (c_hasRelease t0) s) as [[has|] s1] eqn:Ev; [|done].
  specialize (Hv Hi). simpl in Hv. pose proof (proj1 Hv) as Hi1.
  pose proof (find_missing_works ts s1) as [_ Hw].
  destruct (find_missing ts s1) as [[rest|] s2] eqn:Ef; [|done]. simplify_eq.
  destruct (Hw Hi1) as (_ & [_ Hc] & _). simpl in Hc.
  apply elem_of_cons in Ht as [->|Ht].
  - destruct has; [right|left; by left]. apply Hc. unfold view in Ev.
    destruct (c_hasRelease t0 (chain s)) as [r w] eqn:Er. simplify_eq/=. by eapply hasRelease_sound.
  - destruct (IH s1 rest Hi1 Ef t Ht) as [?|?]; [left|by right]. destruct has; [done|by right].
Qed.

Lemma verify_missing st s v s' :
  temp_inv s → verifyAgainstChain st s = (Ok v, s') → mismatch v = None →
  ∀ t, t ∈ repaidInFull st → t ∈ missingReleases v ∨ on_chain (chain s') (from_hex t).
Proof.
  intros Hi E Hm. unfold verifyAgainstChain, mbind, io_bind, mret, io_ret in E.
  pose proof (verify_positions_works (positions st) s) as [_ W1].
  destruct (verify_positions _ s) as [[[m|]|] s1]; simplify_eq/=.
  pose proof (proj1 (W1 Hi)) as I1. pose proof (verify_suppliers_works (scaledBySupplier st) s1) as [_ W2].
  destruct (verify_suppliers _ s1) as [[[m|]|] s2]; simplify_eq/=.
  pose proof (proj1 (W2 I1)) as I2. pose proof (view_works c_totalScaledSupply totalScaledSupply_le s2) as [_ W3].
  destruct (view _ s2) as [[t|] s3]; simplify_eq/=.
  destruct (negb _); simplify_eq/=. pose proof (proj1 (W3 I2)) as I3.
  destruct (find_missing _ s3) as [[ms|] s4] eqn:Ef; simplify_eq/=.
  by eapply find_missing_spec.
Qed.

(** ** A rebuild that succeeds *)

Lemma row_in_page es rs e r :
  decode_page contract es = Ok rs → e ∈ es →
  decodeLendEvent e contract = Ok (Some r) → r ∈ rs.
Proof.
  revert rs. induction es as [|e0 es IH]; intros rs; simpl; [intros _ Hin; inversion Hin|].
  unfold mbind, result_bind, mret, result_ret. intros Hd Hin He.
  destruct (decodeLendEvent e0 contract) as [o|] eqn:E0; [|done].
  destruct (decode_page contract es) as [rs'|]; simplify_eq.
  apply elem_of_cons in Hin as [<-|Hin]; [rewrite He in E0; simplify_eq; by left|].
  specialize (IH rs' eq_refl Hin He). destruct o; [by right|done].
Qed.

(** A repayment the watcher sees is a [repay_full] row of the archive. *)
Lemma repaid_row w e t :
  e ∈ chain_log w → repaid_txid decodeRepayFullEvent e = Some t →
  ∃ r, decodeLendEvent e contract = Ok (Some r) ∧ name r = "repay_full" ∧ subject r = t.
Proof.
  intros He Ht. unfold repaid_txid, decodeRepayFullEvent in Ht.
  destruct (ev_topic e) as [|[t0| | | | | | |] rest] eqn:E; try done.
  assert (Ht0 : t0 = REPAY_FULL_TOPIC).
  { destruct rest as [|t1 rest']; [done|]. destruct (buffer_from t1); [|done]. by case_bool_decide. }
  subst t0. destruct (repay_full_shape w e rest He E) as (bs & rest' & ->). simpl in Ht.
  simplify_eq. unfold decodeLendEvent. rewrite E. simpl. by eexists.
Qed.

(** The live data after a swap: the archive is the chain's record up to a
    cursor the release store holds too, and no repayment up to it is lost. *)
Definition restored s : Prop :=
  ∃ c, readCursor (live_archive s) = Some c ∧ Store.readCursor (live_releases s) = Some c ∧
    (position c ≤ length (chain_log (chain s)))%nat ∧
    list_rows contract (live_archive s) =
      omap (event_row contract) (take (position c) (chain_log (chain s))) ∧
    ∀ i e t, (i < position c)%nat → chain_log (chain s) !! i = Some e →
      repaid_txid decodeRepayFullEvent e = Some t →
      owed contract (live_releases s) t ∨ on_chain (chain s) (from_hex t).

(** A failure leaves the live data as it was, unless the release database
    could not be opened: then the archive is already the new one. *)
Definition failed_cleanly s s' : Prop :=
  live_releases s' = live_releases s ∧
  (live_archive s' = live_archive s ∨
   archive_inv contract (mkArchiver (live_archive s') (chain s'))).

(** What a rebuild may leave behind. *)
Definition rebuilt s (o : result string RebuildReport * rebuilding W) : Prop :=
  match o with
  | (Ok r, s') => if swapped r then restored s' else same_live s s'
  | (Err _, s') => if dryRun then same_live s s' else failed_cleanly s s'
  end.

Lemma swap_restores s c missing :
  temp_inv s → readCursor (temp s) = Some c →
  (∀ r, r ∈ list_rows contract (temp s) → name r = "repay_full" →
     subject r ∈ missing ∨ on_chain (chain s) (from_hex (subject r))) →
  match swap contract missing c s with
  | (Ok _, s') => restored s'
  | (Err _, s') => failed_cleanly s s'
  end.
Proof.
  intros Hi Hc Hm. unfold swap, modify, view. unfold mbind at 1, io_bind at 1. unfold mbind, io_bind. cbn [chain].
  pose proof (openReleases_le (chain s)) as Hle. destruct (c_openReleases (chain s)) as [[[]|e] w]; simpl in Hle.
  2: { split; [done|right]. by apply (world_archive_inv _ (temp_archiver s)). }
  pose proof (ai_cursor _ _ Hi c Hc) as Hv. unfold record_missing.
  cbn [live_releases chain temp live_archive]. rewrite recordBatch_eq. unfold assertValidCursor, ensure. rewrite Hv. simpl.
  apply (world_archive_inv _ (temp_archiver s) w Hle) in Hi. destruct Hle as [_ Hon].
  exists c. pose proof (ai_within _ _ Hi) as Hw. pose proof (archive_inv_list _ _ Hi) as Hl.
  unfold readCursor in Hc. unfold temp_archiver in *. simpl in Hw, Hl. rewrite Hc in Hw, Hl. simpl in Hw, Hl.
  split_and!; [done|done|done|by apply decode_page_rows in Hl as [_ Hl]|]. simpl. intros i e t Hip He Ht.
  assert (Hin : e ∈ take (position c) (chain_log w)).
  { apply list_elem_of_lookup. exists i. by rewrite lookup_take_lt by lia. }
  assert (Hin' : e ∈ chain_log w) by (apply list_elem_of_lookup; by exists i).
  destruct (repaid_row _ _ _ Hin' Ht) as (r & Hr & Hn & <-).
  destruct (Hm r (row_in_page _ _ _ _ Hl Hin Hr) Hn) as [Hmiss|?]; [left|right; by apply Hon].
  unfold owed. simpl. rewrite insert_all_get. destruct (map_get _ (pending_releases _)); [done|].
  by rewrite decide_True.
Qed.

Lemma replay_repaid rows st :
  replay rows = Ok st → repaidInFull st = map subject (filter (λ r, name r = "repay_full") rows).
Proof.
  unfold replay, mbind, result_bind, mret, result_ret.
  destruct (replay_rows _ _) as [st1|] eqn:E; [|done]. intros [= <-].
  by destruct (replay_rows_spec _ _ _ E) as (_ & _ & _ & ->).
Qed.

Lemma rebuilt_works s s1 o : works s s1 → rebuilt s1 o → rebuilt s o.
Proof.
  intros [[A R] _]. unfold rebuilt, failed_cleanly, same_live. rewrite A, R. done.
Qed.

Lemma works_failed s s1 e : works s s1 → rebuilt s (Err e, s1).
Proof. intros [[A R] _]. unfold rebuilt, failed_cleanly, same_live. destruct dryRun; auto. Qed.

Lemma rebuilt_error s e : rebuilt s (Err e, s).
Proof. apply works_failed. reflexivity. Qed.

(** Nothing arrived meanwhile, so the listing is still the one replayed. *)
Lemma quiet_window s s' :
  list_rows contract (temp s) `prefix_of` list_rows contract (temp s') →
  zlen (list_rows contract (temp s')) = zlen (list_rows contract (temp s)) →
  list_rows contract (temp s') = list_rows contract (temp s).
Proof.
  intros [l E] Hl. rewrite E in *. unfold zlen in Hl. rewrite length_app in Hl.
  destruct l; [by rewrite app_nil_r|]. simpl in Hl. lia.
Qed.

Lemma verify_round_spec again s :
  (∀ s', temp_inv s' → rebuilt s' (again s')) → temp_inv s →
  rebuilt s (verify_round contract deployLedger dryRun again s).
Proof.
  intros Hagain Hi. unfold verify_round, gets, lift, throw.
  unfold mbind at 1, io_bind at 1. unfold mbind at 1, io_bind at 1.
  destruct (replay (list_rows contract (temp s))) as [st|e] eqn:Er; [|apply rebuilt_error].
  apply replay_repaid in Er. unfold mbind at 1, io_bind at 1. pose proof (verify_works st s) as W1.
  destruct (verifyAgainstChain st s) as [[v|e] s1] eqn:Ev; [|by apply works_failed].
  apply (rebuilt_works s s1); [done|]. pose proof (proj2 W1 Hi) as V1. pose proof (proj1 V1) as I1.
  pose proof (verify_missing st s v s1 Hi Ev) as Hmiss.
  unfold mbind at 1, io_bind at 1. pose proof (catch_up_works MAX_CYCLES s1) as W2.
  destruct (catch_up _ _ _ s1) as [[[]|e] s2]; [|by apply works_failed].
  apply (rebuilt_works s1 s2); [done|]. pose proof (proj2 W2 I1) as V2. pose proof (proj1 V2) as I2.
  unfold mbind at 1, io_bind at 1. destruct (_ =? _) eqn:El; bools; cbv beta iota delta [negb]; [|by apply Hagain].
  destruct (mismatch v) as [m|]; [apply rebuilt_error|]. specialize (Hmiss eq_refl).
  destruct dryRun eqn:Edry; [done|]. unfold mbind at 1, io_bind at 1.
  assert (Hq : list_rows contract (temp s2) = list_rows contract (temp s)).
  { apply quiet_window; [|done]. destruct V1 as (_ & _ & P1), V2 as (_ & _ & P2). by etrans. }
  destruct (readCursor (temp s2)) as [c|] eqn:Ec; simpl; [|apply (rebuilt_error _ "the replay finished with no cursor")].
  case_bool_decide as Hne; [apply (rebuilt_error _ "the replay finished with no cursor")|]. unfold mbind, io_bind, mret, io_ret.
  pose proof (swap_restores s2 c (missingReleases v) I2 Ec) as Hs. rewrite Hq in Hs.
  destruct (swap contract (missingReleases v) c s2) as [[[]|] s3]; unfold rebuilt; [|rewrite Edry]; apply Hs;
    intros r Hin Hn; (destruct (Hmiss (subject r)) as [?|Ho]; [|by left|right; by apply V2]);
    rewrite Er; apply list_elem_of_fmap; exists r; (split; [done|by apply list_elem_of_filter]).
Qed.

Lemma verify_rounds_spec more s :
  temp_inv s → rebuilt s (verify_rounds contract deployLedger dryRun more s).
Proof.
  revert s. induction more as [|more IH]; intros s Hi; cbn [verify_rounds]; apply verify_round_spec; try done.
  intros s' _. apply rebuilt_error.
Qed.
End facts.

(** ** Property *)


(** ** A rebuild after data loss

    The contract emitted one [repay_full], and no release is on chain. *)

Module Demo.
Import LendArchive.Demo.

#[global] Instance demo_chain : LendChain unit := {|
  c_ledgerRange w := (Ok (1, 200), w);
  c_positionStatus _ w := (Ok (Some "Closed"), w);
  c_scaledSupply _ w := (Ok 0, w);
  c_totalScaledSupply w := (Ok 0, w);
  c_hasRelease _ w := (Ok false, w);
  c_openReleases w := (Ok (), w);
|}.

#[global] Instance demo_chain_laws : LendChainLaws unit.
Proof.
  split; simpl; try (intros; split; [reflexivity|done]).
  - done.
  - intros w e rest He. apply list_elem_of_singleton in He as ->. intros [= <-]. by exists tx, [].
Defined.


(** The relayer's data is gone. *)
Definition lost : rebuilding unit := mkRebuilding empty_archive empty_archive (mkReleaseStore None []) tt.
Definition from_chain := rebuildLendState "C" 50 None false lost.

(** An archive file that leaves out every event of the position. *)
Definition pruned_file : ArchiveSource := {| source_rows := []; source_cursor := cursor1 |}.
Definition from_file := rebuildLendState "C" 50 (Some pruned_file) false lost.
End Demo.

(** The checks against the chain only visit the positions of the replay, so
    a file without them is accepted and the release owed is not recorded. *)
Example pruned_file_is_accepted :
  (∃ r, Demo.from_file.1 = Ok r ∧ swapped r = true ∧ missing r = []) ∧
  pending_releases (live_releases Demo.from_file.2) = [] ∧
  Store.readCursor (live_releases Demo.from_file.2) = Some LendArchive.Demo.cursor1 ∧
  chain_log (chain Demo.from_file.2) = [LendArchive.Demo.repayment].
Proof. vm_compute. split; [by eexists|done]. Qed.

