(* ===== verification/ArchiveFile.v ===== *)
(** * The archive as a portable file ([relayer/src/lend-events/archive-file.ts])

    Writing the archive as NDJSON and reading such a file back, the route that
    exports it ([routes/lend-events.ts]), the decoding of a stored [rawXdr]
    ([decode.ts]) and the marker of a data directory in use ([data-lock.ts]).
    [xdr.ScVal.fromXDR] followed by [scValToNative] is an argument. *)

From S2P Require Import Prelude JsData JsMap RpcCursor RepayWatcher LendArchive RateLimit.
From Stdlib Require Import Sorting.Sorted.
Import Archive.

Definition ARCHIVE_FORMAT : string := "writz-lend-events".
Definition ARCHIVE_VERSION : Z := 1.

Record ArchiveHeader : Type := {
  ah_networkPassphrase : string;
  ah_contractId : string;
  ah_firstLedger : option Z;
  ah_lastLedger : option Z;
  ah_events : Z;
  ah_cursor : string;
}.

Record ArchiveTarget : Type := { at_contractId : string; at_networkPassphrase : string }.

Record ParsedArchive : Type := { pa_header : ArchiveHeader; pa_rows : list LendEventRow }.

Inductive ArchiveRejected : Type :=
| ar_empty
| ar_not_an_object (line : Z)
| ar_not_a_header
| ar_not_a_string (line : Z) (key : string)
| ar_not_a_ledger (key : string)
| ar_other_network (network : string)
| ar_other_contract (contract : string)
| ar_bad_cursor
| ar_bad_id (line : Z) (id : string)
| ar_out_of_order (line : Z) (id : string)
| ar_past_cursor (line : Z) (id : string)
| ar_ledger_mismatch (line : Z) (id : string)
| ar_undecodable (line : Z) (message : string)
| ar_columns_mismatch (line : Z) (id : string)
| ar_wrong_count (claimed found : Z)
| ar_wrong_ends.

(** ** Writing *)

Definition or_null (z : option Z) : Json := match z with Some z => j_number z | None => j_null end.

Definition header_json (h : ArchiveHeader) : Json := j_object [
  ("format", j_string ARCHIVE_FORMAT); ("version", j_number ARCHIVE_VERSION);
  ("networkPassphrase", j_string (ah_networkPassphrase h)); ("contractId", j_string (ah_contractId h));
  ("firstLedger", or_null (ah_firstLedger h)); ("lastLedger", or_null (ah_lastLedger h));
  ("events", j_number (ah_events h)); ("cursor", j_string (ah_cursor h))].

Definition row_json (r : LendEventRow) : Json := j_object [
  ("id", j_string (id r)); ("ledger", j_number (ledger r)); ("txHash", j_string (txHash r));
  ("name", j_string (name r)); ("subject", j_string (subject r)); ("data", j_string (data r));
  ("rawXdr", j_string (rawXdr r))].

Definition header_of (target : ArchiveTarget) (rows : list LendEventRow) (cursor : string) : ArchiveHeader := {|
  ah_networkPassphrase := at_networkPassphrase target;
  ah_contractId := at_contractId target;
  ah_firstLedger := ledger <$> head rows;
  ah_lastLedger := ledger <$> last rows;
  ah_events := zlen rows;
  ah_cursor := cursor |}.

Definition archiveLines (snapshot : list LendEventRow * option string) (target : ArchiveTarget) : result string (list string) :=
  let '(rows, cursor) := snapshot in
  cursor ← of_option (present cursor) "the archive has not read the chain yet, there is nothing to export";
  mret (JSON_stringify (header_json (header_of target rows cursor)) :: map (JSON_stringify ∘ row_json) rows).

(** The file: each line and a line feed. *)
Definition file_text (lines : list string) : string := of_chars (mbind (λ l, chars l ++ [newline]) lines).

(** ** Reading *)

Definition as_text (v : option Json) : option string := match v with Some (j_string s) => Some s | _ => None end.

Section parse.
Context (fromXdr : string → result string Native).

(** Each element read in turn, the first failure thrown. *)
Fixpoint map_xdr (l : list Json) : result string (list Native) :=
  match l with
  | [] => Ok []
  | j :: l =>
      s ← of_option (as_text (Some j)) "TypeError";
      v ← fromXdr s; vs ← map_xdr l; mret (v :: vs)
  end.

(** Name ([None]: not text), subject and data. *)
Definition decodeRawXdr (raw : string) : result string (option string * string * string) :=
  match JSON_parse raw with
  | Some (j_object fields) =>
      match map_get "topic" fields with
      | Some (j_array l) =>
          topic ← map_xdr l;
          xdr ← of_option (as_text (map_get "value" fields)) "TypeError";
          value ← fromXdr xdr;
          match topic with
          | [] => Err "TypeError"
          | first :: _ =>
              let nm := match first with n_string s => Some s | _ => None end in
              '(subject, data) ← decodeColumns (default "" nm) topic value;
              mret (nm, subject, data)
          end
      | _ => Err "TypeError"
      end
  | Some _ => Err "TypeError"
  | None => Err "SyntaxError"
  end.

Definition parseLine (line : string) (n : Z) : result ArchiveRejected (jsmap string Json) :=
  match JSON_parse line with Some (j_object fields) => Ok fields | _ => Err (ar_not_an_object n) end.

Definition str (o : jsmap string Json) (key : string) (n : Z) : result ArchiveRejected string :=
  of_option (as_text (map_get key o)) (ar_not_a_string n key).

Definition ledgerOrNull (o : jsmap string Json) (key : string) : result ArchiveRejected (option Z) :=
  match map_get key o with
  | Some j_null => Ok None
  | Some (j_number z) => if 0 <? z then Ok (Some z) else Err (ar_not_a_ledger key)
  | _ => Err (ar_not_a_ledger key)
  end.

Definition is_number (v : option Json) (z : Z) : bool :=
  match v with Some (j_number z') => z' =? z | _ => false end.

(** A decimal is no count of events, like what is no number. *)
Definition parse_header (h : jsmap string Json) : result ArchiveRejected ArchiveHeader :=
  if negb (bool_decide (as_text (map_get "format" h) = Some ARCHIVE_FORMAT) &&
           is_number (map_get "version" h) ARCHIVE_VERSION) then Err ar_not_a_header
  else
    network ← str h "networkPassphrase" 1;
    contract ← str h "contractId" 1;
    first ← ledgerOrNull h "firstLedger";
    last ← ledgerOrNull h "lastLedger";
    cursor ← str h "cursor" 1;
    mret {| ah_networkPassphrase := network; ah_contractId := contract; ah_firstLedger := first;
            ah_lastLedger := last;
            ah_events := match map_get "events" h with Some (j_number z) => z | _ => -1 end;
            ah_cursor := cursor |}.

Definition check_target (h : ArchiveHeader) (expected : ArchiveTarget) : result ArchiveRejected () :=
  ensure (bool_decide (ah_networkPassphrase h = at_networkPassphrase expected)) (ar_other_network (ah_networkPassphrase h));;
  ensure (bool_decide (ah_contractId h = at_contractId expected)) (ar_other_contract (ah_contractId h));;
  ensure (isValidCursor (ah_cursor h)) ar_bad_cursor.

(** The event's ID: of an event, after the previous one, within the cursor. *)
Definition read_id (h : ArchiveHeader) (n : Z) (previous : string) (o : jsmap string Json) : result ArchiveRejected string :=
  id ← str o "id" n;
  ensure (isValidCursor id) (ar_bad_id n id);;
  ensure (negb (String.leb id previous)) (ar_out_of_order n id);;
  ensure (String.leb id (ah_cursor h)) (ar_past_cursor n id);;
  mret id.

Definition read_ledger (id : string) (n : Z) (o : jsmap string Json) : result ArchiveRejected Z :=
  match map_get "ledger" o with
  | Some (j_number z) =>
      ensure (bool_decide (Some z = ledgerOfCursor id)) (ar_ledger_mismatch n id);; mret z
  | _ => Err (ar_ledger_mismatch n id)
  end.

Definition read_row (h : ArchiveHeader) (n : Z) (previous line : string) : result ArchiveRejected LendEventRow :=
  o ← parseLine line n;
  id ← read_id h n previous o;
  ledger ← read_ledger id n o;
  txHash ← str o "txHash" n;
  name ← str o "name" n;
  subject ← str o "subject" n;
  data ← str o "data" n;
  rawXdr ← str o "rawXdr" n;
  decoded ← match decodeRawXdr rawXdr with Ok d => Ok d | Err e => Err (ar_undecodable n e) end;
  ensure (bool_decide (decoded = (Some name, subject, data))) (ar_columns_mismatch n id);;
  mret {| LendArchive.id := id; contractId := ah_contractId h; LendArchive.ledger := ledger;
          LendArchive.txHash := txHash; LendArchive.name := name; LendArchive.subject := subject;
          LendArchive.data := data; LendArchive.rawXdr := rawXdr |}.

Fixpoint read_rows (h : ArchiveHeader) (n : Z) (previous : string) (lines : list string) :
    result ArchiveRejected (list LendEventRow) :=
  match lines with
  | [] => mret []
  | line :: lines =>
      r ← read_row h n previous line;
      rs ← read_rows h (n + 1) (id r) lines;
      mret (r :: rs)
  end.

(** [text.split("\n")] *)
Fixpoint split_lines (cs : list ascii) : list (list ascii) :=
  match cs with
  | [] => [[]]
  | c :: cs =>
      if decide (c = newline) then [] :: split_lines cs
      else match split_lines cs with l :: ls => (c :: l) :: ls | [] => [[c]] end
  end.

Definition lines_of (text : string) : list string :=
  filter (λ l, trim l ≠ "") (map of_chars (split_lines (chars text))).

Definition parseArchive (text : string) (expected : ArchiveTarget) : result ArchiveRejected ParsedArchive :=
  match lines_of text with
  | [] => Err ar_empty
  | first :: lines =>
      o ← parseLine first 1;
      h ← parse_header o;
      check_target h expected;;
      rows ← read_rows h 2 "" lines;
      ensure (zlen rows =? ah_events h) (ar_wrong_count (ah_events h) (zlen rows));;
      ensure (bool_decide (ledger <$> head rows = ah_firstLedger h) && bool_decide (ledger <$> last rows = ah_lastLedger h))
        ar_wrong_ends;;
      mret {| pa_header := h; pa_rows := rows |}
  end.
End parse.

(** ** GET /lend-events/export *)

Inductive export_answer : Type :=
| ex_lending_not_configured              (* 503 *)
| ex_archive_empty                       (* 503 *)
| ex_rate_limited (retryAfterSeconds : Z)
| ex_file (text : string).

Definition exports : RateLimitOptions := {| limit := 6; windowMs := 60 * 60000 |}.

Definition export_archive (target : ArchiveTarget) (snapshot : list LendEventRow * option string) : export_answer :=
  if decide (at_contractId target = "") then ex_lending_not_configured
  else match archiveLines snapshot target with
       | Ok lines => ex_file (file_text lines)
       | Err _ => ex_archive_empty
       end.

Definition get_export (target : ArchiveTarget) (snapshot : list LendEventRow * option string) (now : Z) (client : string)
    (windows : jsmap string Window) : export_answer * jsmap string Window :=
  let '(v, windows) := rateLimit exports now client windows in
  match v with
  | too_many seconds => (ex_rate_limited seconds, windows)
  | next => (export_archive target snapshot, windows)
  end.

(** ** The marker of a data directory *)

Section lock.
Context (host : string) (pid : Z) (alive : Z → bool).

(** The lock files, by directory. *)
Abbreviation lock_files := (jsmap string string).

Definition claimDataDir (dir : string) (files : lock_files) : lock_files :=
  map_set dir (JSON_stringify (j_object [("host", j_string host); ("pid", j_number pid)])) files.

(** [isAlive]: what is not a process number has no process. *)
Definition isAlive (p : option Json) : bool := match p with Some (j_number z) => alive z | _ => false end.

Definition assertDataDirFree (dir : string) (files : lock_files) : result string () :=
  match map_get dir files ≫= JSON_parse with
  | None => Ok ()
  | Some j_null => Err "TypeError"
  | Some lock =>
      let get k := match lock with j_object fields => map_get k fields | _ => None end in
      if bool_decide (as_text (get "host") = Some host) && negb (is_number (get "pid") pid) && isAlive (get "pid")
      then Err ("a relayer is using " +:+ dir) else Ok ()
  end.
End lock.

(** ** Lines *)

Lemma split_line l rest : newline ∉ l → split_lines (l ++ newline :: rest) = l :: split_lines rest.
Proof.
  intros Hl. induction l as [|c l IH]; simpl; [done|].
  apply not_elem_of_cons in Hl as [Hc Hl]. rewrite decide_False by done. by rewrite IH.
Qed.

Lemma drop_spaces_nil cs : drop_spaces cs = [] → forallb is_space cs = true.
Proof. induction cs as [|c cs IH]; simpl; [done|]. by destruct (is_space c). Qed.

Lemma trim_visible c cs : is_space c = false → trim (of_chars (c :: cs)) ≠ "".
Proof.
  intros Hc Ht. unfold trim in Ht. rewrite chars_of_chars in Ht.
  apply (f_equal chars) in Ht. rewrite chars_of_chars in Ht. change (chars "") with (@nil ascii) in Ht.
  apply (f_equal (@rev ascii)) in Ht. rewrite rev_involutive in Ht. apply drop_spaces_nil in Ht.
  simpl in Ht. rewrite Hc in Ht. simpl in Ht. rewrite forallb_app in Ht. simpl in Ht. rewrite Hc in Ht. bools. done.
Qed.

Definition writes_line (l : string) : Prop := (newline ∉ chars l) ∧ trim l ≠ "".

Lemma lines_of_file lines : Forall writes_line lines → lines_of (file_text lines) = lines.
Proof.
  intros Hl. unfold lines_of, file_text. rewrite chars_of_chars.
  induction Hl as [|l lines [Hn Ht] _ IH]; [done|].
  change (mbind (λ l, chars l ++ [newline]) (l :: lines)) with
    ((chars l ++ [newline]) ++ mbind (λ l, chars l ++ [newline]) lines).
  rewrite <- app_assoc. change ([newline] ++ ?x) with (newline :: x).
  rewrite split_line by done. rewrite map_cons, filter_cons, of_chars_chars, decide_True by done. by rewrite IH.
Qed.

Lemma object_line fs : json_wf (j_object fs) → writes_line (JSON_stringify (j_object fs)).
Proof.
  intros Hwf. split; [|by apply trim_visible]. unfold JSON_stringify. rewrite chars_of_chars. by apply one_line.
Qed.

Lemma row_json_wf r : json_wf (row_json r).
Proof. apply object_wf. split; [|by repeat constructor]. by apply (bool_decide_unpack _). Qed.

Lemma header_json_wf h : json_wf (header_json h).
Proof.
  apply object_wf. split; [by apply (bool_decide_unpack _)|]. repeat constructor; simpl; try done;
    [by destruct (ah_firstLedger h)|by destruct (ah_lastLedger h)].
Qed.

(** ** What a file holds *)

Section facts.
Context (fromXdr : string → result string Native).
Implicit Types (r : LendEventRow) (target : ArchiveTarget).

(** A row that names its ledger, within the cursor, whose columns are what its
    [rawXdr] decodes to. *)
Record row_ok (contract cursor : string) r : Prop := {
  ro_contract : contractId r = contract;
  ro_id : isValidCursor (id r) = true;
  ro_within : String.leb (id r) cursor = true;
  ro_ledger : ledgerOfCursor (id r) = Some (ledger r);
  ro_columns : decodeRawXdr fromXdr (rawXdr r) = Ok (Some (name r), subject r, data r);
}.

(** Strictly before. *)
Definition id_lt (a b : string) : Prop := String.leb b a = false.

Lemma id_lt_trans a b c : id_lt a b → id_lt b c → id_lt a c.
Proof.
  unfold id_lt. intros Hab Hbc. destruct (String.leb c a) eqn:E; [|done]. exfalso.
  destruct (String.leb_total a b) as [H|H]; [|congruence]. pose proof (leb_trans _ _ _ E H). congruence.
Qed.

(** Rows with strictly increasing IDs. *)
Definition in_order (rows : list LendEventRow) : Prop := StronglySorted (λ r1 r2, id_lt (id r1) (id r2)) rows.

Record consistent target (p : ParsedArchive) : Prop := {
  co_header : pa_header p = header_of target (pa_rows p) (ah_cursor (pa_header p));
  co_cursor : isValidCursor (ah_cursor (pa_header p)) = true;
  co_rows : Forall (row_ok (at_contractId target) (ah_cursor (pa_header p))) (pa_rows p);
  co_order : in_order (pa_rows p);
}.

Lemma ensure_ok {E} c (e : E) u : ensure c e = Ok u → c = true.
Proof. unfold ensure. by destruct c. Qed.

Lemma str_ok o k n s : str o k n = Ok s ↔ map_get k o = Some (j_string s).
Proof.
  unfold str. rewrite of_option_ok. unfold as_text. destruct (map_get k o) as [[]|]; naive_solver.
Qed.

Lemma read_row_ok h n previous line r :
  read_row fromXdr h n previous line = Ok r →
  row_ok (ah_contractId h) (ah_cursor h) r ∧ id_lt previous (id r).
Proof.
  unfold read_row. intros (o & _ & Hr)%bind_ok. apply bind_ok in Hr as (i & Hi & Hr).
  apply bind_ok in Hr as (l & Hl & Hr). do 5 (apply bind_ok in Hr as (? & _ & Hr)).
  apply bind_ok in Hr as (d & Hd & Hr). apply bind_ok in Hr as ([] & Hc%ensure_ok & [= <-]). bools. subst d.
  unfold read_id in Hi. apply bind_ok in Hi as (i' & _ & Hi). apply bind_ok in Hi as ([] & Hv%ensure_ok & Hi).
  apply bind_ok in Hi as ([] & Ho%ensure_ok & Hi). apply bind_ok in Hi as ([] & Hw%ensure_ok & [= ->]). bools.
  unfold read_ledger in Hl. destruct (map_get "ledger" o) as [[]|]; try done.
  apply bind_ok in Hl as ([] & Hl%ensure_ok & [= ->]). bools.
  split; [|done]. split; simpl; [done..|]. by destruct (decodeRawXdr fromXdr _) as [?|?]; simplify_eq.
Qed.

Lemma read_rows_ok h lines : ∀ n previous rs,
  read_rows fromXdr h n previous lines = Ok rs →
  Forall (row_ok (ah_contractId h) (ah_cursor h)) rs ∧ in_order rs ∧ Forall (λ r, id_lt previous (id r)) rs.
Proof.
  induction lines as [|line lines IH]; intros n previous rs; cbn [read_rows].
  - intros [= <-]. repeat constructor.
  - intros (r & Hr & Hrs)%bind_ok. apply bind_ok in Hrs as (rs' & Hrs & [= <-]).
    apply read_row_ok in Hr as [Hr Hp]. apply IH in Hrs as (Hrs & Hs & Hf). split_and!; [by constructor|by constructor|].
    constructor; [done|]. eapply Forall_impl; [exact Hf|]. intros r' Hr'. by eapply id_lt_trans.
Qed.

(** An accepted file is consistent: it is for this deployment, its header says
    what its events are, they come strictly in order and within the cursor,
    each names its ledger and has the columns its [rawXdr] decodes to. *)
Theorem accepted_files_are_consistent text target p :
  parseArchive fromXdr text target = Ok p → consistent target p.
Proof.
  unfold parseArchive. destruct (lines_of text) as [|first lines]; [done|].
  intros (o & _ & Hp)%bind_ok. apply bind_ok in Hp as (h & _ & Hp). apply bind_ok in Hp as ([] & Ht & Hp).
  unfold check_target in Ht. apply bind_ok in Ht as ([] & Hn%ensure_ok & Ht). apply bind_ok in Ht as ([] & Hc%ensure_ok & Hv%ensure_ok).
  apply bind_ok in Hp as (rows & Hrows & Hp). apply bind_ok in Hp as ([] & He%ensure_ok & Hp).
  apply bind_ok in Hp as ([] & Hends%ensure_ok & [= <-]). bools. apply read_rows_ok in Hrows as (Hrows & Ho & _).
  rewrite Hc in Hrows. split; simpl; [|done..]. unfold header_of. destruct h; simpl in *. congruence.
Qed.

Lemma read_row_written h n previous r :
  row_ok (ah_contractId h) (ah_cursor h) r → id_lt previous (id r) →
  read_row fromXdr h n previous (JSON_stringify (row_json r)) = Ok r.
Proof.
  intros [Hc Hv Hw Hl Hd] Hp. unfold read_row, parseLine. rewrite JSON_round_trip by apply row_json_wf.
  unfold row_json. match goal with |- context [Ok ?o] => set (fields := o) end. unfold mbind, result_bind.
  assert (∀ k s, map_get k fields = Some (j_string s) → str fields k n = Ok s) as Hstr by (intros k s; apply str_ok).
  assert (read_id h n previous fields = Ok (id r)) as ->.
  { unfold read_id. rewrite (Hstr "id" (id r)) by done. unfold ensure, mbind, result_bind. rewrite Hv, Hw.
    unfold id_lt in Hp. by rewrite Hp. }
  cbv beta iota. assert (read_ledger (id r) n fields = Ok (ledger r)) as ->.
  { unfold read_ledger. change (map_get "ledger" fields) with (Some (j_number (ledger r))). rewrite Hl, bool_decide_eq_true_2 by done. done. }
  rewrite (Hstr "txHash" (txHash r)), (Hstr "name" (name r)), (Hstr "subject" (subject r)),
    (Hstr "data" (data r)), (Hstr "rawXdr" (rawXdr r)) by done. cbv beta iota.
  rewrite Hd. unfold ensure. rewrite bool_decide_eq_true_2 by done. simpl. rewrite <- Hc. by destruct r.
Qed.

Lemma read_rows_written h rows : ∀ n previous,
  Forall (row_ok (ah_contractId h) (ah_cursor h)) rows → in_order rows → Forall (λ r, id_lt previous (id r)) rows →
  read_rows fromXdr h n previous (map (JSON_stringify ∘ row_json) rows) = Ok rows.
Proof.
  induction rows as [|r rows IH]; intros n previous Hok Ho Hp; [done|].
  apply Forall_cons in Hok as [Hr Hok]. apply Forall_cons in Hp as [Hp _]. apply StronglySorted_inv in Ho as [Ho Hlt].
  cbn [map read_rows]. change ((JSON_stringify ∘ row_json) r) with (JSON_stringify (row_json r)).
  rewrite read_row_written by done. unfold mbind, result_bind. by rewrite (IH _ (id r)).
Qed.

Lemma ledgerOrNull_written k o z :
  map_get k o = Some (or_null z) → (∀ l, z = Some l → 0 < l) → ledgerOrNull o k = Ok z.
Proof.
  unfold ledgerOrNull. intros -> Hz. destruct z as [l|]; simpl; [|done]. specialize (Hz l eq_refl).
  by rewrite (proj2 (Z.ltb_lt _ _)).
Qed.

Lemma parse_header_written h :
  (∀ l, ah_firstLedger h = Some l → 0 < l) → (∀ l, ah_lastLedger h = Some l → 0 < l) →
  ∃ o, header_json h = j_object o ∧ parse_header o = Ok h.
Proof.
  intros Hf Hl. eexists. split; [done|]. unfold parse_header.
  match goal with |- context [str ?o "networkPassphrase" 1] => set (fields := o) end.
  change (negb _) with false. cbv iota.
  change (str fields "networkPassphrase" 1) with (@Ok ArchiveRejected _ (ah_networkPassphrase h)).
  change (str fields "contractId" 1) with (@Ok ArchiveRejected _ (ah_contractId h)).
  change (str fields "cursor" 1) with (@Ok ArchiveRejected _ (ah_cursor h)).
  rewrite (ledgerOrNull_written "firstLedger" fields (ah_firstLedger h)) by done.
  rewrite (ledgerOrNull_written "lastLedger" fields (ah_lastLedger h)) by done.
  by destruct h.
Qed.

(** What is written is read back. *)
Lemma written_file_parses target rows cursor lines :
  consistent target {| pa_header := header_of target rows cursor; pa_rows := rows |} →
  Forall (λ r, 0 < ledger r) rows →
  archiveLines (rows, Some cursor) target = Ok lines →
  parseArchive fromXdr (file_text lines) target = Ok {| pa_header := header_of target rows cursor; pa_rows := rows |}.
Proof.
  intros [_ Hv Hok Ho] Hpos. simpl in *. unfold archiveLines. intros (c & Hc & [= <-])%bind_ok.
  apply of_option_ok in Hc. change (present (Some cursor) = Some c) in Hc. apply present_some in Hc as [[= <-] _]. unfold parseArchive. set (h := header_of target rows cursor) in *.
  rewrite lines_of_file.
  2: { constructor; [apply object_line, header_json_wf|]. apply Forall_map, Forall_true. intros r. apply object_line, row_json_wf. }
  rewrite Forall_forall in Hpos.
  destruct (parse_header_written h) as (o & Ho' & Hh).
  { intros l. simpl. destruct rows as [|r rows]; simpl; [done|]. intros [= <-]. apply Hpos. by left. }
  { intros l. simpl. destruct (last rows) as [r|] eqn:El; simpl; [|done]. intros [= <-]. by apply Hpos, last_Some_elem_of. }
  assert (check_target h target = Ok ()) as Ht.
  { unfold check_target, ensure. rewrite !bool_decide_eq_true_2 by done. change (ah_cursor h) with cursor. by rewrite Hv. }
  assert (read_rows fromXdr h 2 "" (map (JSON_stringify ∘ row_json) rows) = Ok rows) as Hrows.
  { apply read_rows_written; [done..|]. rewrite Forall_forall in *. intros r Hr. unfold id_lt.
    pose proof (ro_id _ _ _ (Hok r Hr)) as Hi. by destruct (id r). }
  unfold parseLine. rewrite JSON_round_trip by apply header_json_wf. rewrite Ho'. unfold mbind, result_bind. cbv beta iota.
  rewrite Hh, Ht, Hrows. unfold ensure. change (ah_events h) with (zlen rows). rewrite Z.eqb_refl.
  by rewrite !bool_decide_eq_true_2.
Qed.
End facts.

(** ** What the relayer exports *)

(** The RPC's event IDs are cursors of their ledgers, an event a cursor has
    passed is not after it, and the SDK reads back the XDR it wrote. *)
Class ExportLaws (W : Type) `{AL : ArchiveLaws W} (fromXdr : string → result string Native) : Prop := {
  el_id w e : e ∈ chain_log w → isValidCursor (ev_id e) = true ∧ ledgerOfCursor (ev_id e) = Some (ev_ledger e) ∧ 0 < ev_ledger e;
  el_passed w c e : e ∈ take (position c) (chain_log w) → String.leb (ev_id e) c = true;
  el_xdr w e : e ∈ chain_log w →
    Forall2 (λ v x, fromXdr x = Ok v) (ev_topic e) (ev_topicXdr e) ∧ fromXdr (ev_valueXdr e) = Ok (ev_value e);
}.

Section export.
Context {W : Type} `{AL : ArchiveLaws W} (fromXdr : string → result string Native) (contract : string).

Lemma map_xdr_read vs xs : Forall2 (λ v x, fromXdr x = Ok v) vs xs → map_xdr fromXdr (map j_string xs) = Ok vs.
Proof.
  induction 1 as [|v x vs xs Hx _ IH]; [done|]. simpl. unfold mbind, result_bind. by rewrite Hx, IH.
Qed.

Lemma raw_json_wf (e : RawLendEvent) :
  json_wf (j_object [("topic", j_array (map j_string (ev_topicXdr e))); ("value", j_string (ev_valueXdr e))]).
Proof.
  apply object_wf. split; [by apply (bool_decide_unpack _)|]. repeat constructor. simpl snd.
  apply array_wf, Forall_map, Forall_true. done.
Qed.

(** The stored XDR of an archived event decodes to its row's columns. *)
Lemma archived_columns e r :
  Forall2 (λ v x, fromXdr x = Ok v) (ev_topic e) (ev_topicXdr e) → fromXdr (ev_valueXdr e) = Ok (ev_value e) →
  decodeLendEvent e contract = Ok (Some r) →
  ledger r = ev_ledger e ∧ decodeRawXdr fromXdr (rawXdr r) = Ok (Some (name r), subject r, data r).
Proof.
  intros Ht Hv. unfold decodeLendEvent. destruct (ev_topic e) as [|v topic] eqn:Etopic; [done|].
  destruct v as [nm| | | | | | |]; try done. case_bool_decide; [|done].
  intros ([subj dat] & Hc & [= <-])%bind_ok. simpl. split; [done|]. unfold decodeRawXdr, encodeRawXdr.
  rewrite JSON_round_trip by apply raw_json_wf.
  match goal with |- context [map_get "topic" ?o] => set (fields := o) end.
  change (map_get "topic" fields) with (Some (j_array (map j_string (ev_topicXdr e)))).
  change (map_get "value" fields) with (Some (j_string (ev_valueXdr e))). cbv iota. rewrite (map_xdr_read _ _ Ht).
  cbn [mbind option_bind of_option as_text]. unfold mbind, result_bind. cbv beta iota. rewrite Hv. cbv beta iota.
  change (default "" (Some nm)) with nm. by rewrite Hc.
Qed.

Lemma reachable_archive_inv deployLedger w0 s :
  rtc (archive_step contract deployLedger) (mkArchiver empty_archive w0) s → archive_inv contract s.
Proof.
  intros Hsteps. pose proof (archive_inv_start contract w0) as Hbase.
  induction Hsteps as [|s1 s2 s3 H12 _ IH]; [done|]. by eapply IH, archive_step_inv.
Qed.

Lemma strictly_sorted (l : list LendEventRow) :
  NoDup (map LendArchive.id l) → StronglySorted (λ a b, String.leb a b = true) (map LendArchive.id l) → in_order l.
Proof.
  induction l as [|r l IH]; simpl; intros Hnd Hs; [constructor|].
  apply NoDup_cons in Hnd as [Hn Hnd]. apply StronglySorted_inv in Hs as [Hs Hf]. constructor; [by apply IH|].
  rewrite Forall_forall in Hf. apply Forall_forall. intros r' Hr'. unfold id_lt. destruct (String.leb _ _) eqn:E; [|done]. exfalso.
  assert (LendArchive.id r' ∈ map LendArchive.id l) as Hin by by apply list_elem_of_fmap_2.
  apply Hn. by rewrite (String.leb_antisym _ _ (Hf _ Hin) E).
Qed.

Lemma archived_rows_ok `{!ExportLaws W fromXdr} s c :
  archive_inv contract s → lend_cursor (archive s) = Some c →
  Forall (λ r, row_ok fromXdr contract c r ∧ 0 < ledger r) (list_rows contract (archive s)).
Proof.
  intros Hi Hc. destruct (decode_page_rows _ _ _ (archive_inv_list _ _ Hi)) as [_ Hrows]. rewrite Hc in Hrows. simpl in Hrows.
  rewrite Hrows. apply Forall_forall. intros r (e & He & Hr)%list_elem_of_omap.
  assert (e ∈ chain_log (outside s)) as Hin by (by eapply elem_of_subseteq, He; apply subseteq_take).
  unfold event_row in Hr. destruct (decodeLendEvent e contract) as [o|] eqn:Ed; [|done]. subst o.
  destruct (el_id (outside s) e Hin) as (Hv & Hl & Hpos). destruct (el_xdr (outside s) e Hin) as [Ht Hx].
  destruct (archived_columns e r Ht Hx Ed) as [Hled Hcol]. apply decodeLendEvent_row in Ed as [Hid Hct].
  split; [|by rewrite Hled]. split; [done|by rewrite Hid| |by rewrite Hid, Hled|done].
  rewrite Hid. by eapply el_passed.
Qed.
End export.

(** C26: What a relayer exports, a rebuild accepts and reads back unchanged. In
    every reachable state of an archive that has read the chain, the exported
    file parses, for the same network and contract, to exactly the archive's
    rows and cursor: no row, line break or quotation mark in it is lost, and
    none of the checks refuses it. *)
Theorem export_reads_back {W} `{ExportLaws W fromXdr} contract deployLedger network (w0 : W) s cursor :
  rtc (archive_step contract deployLedger) (mkArchiver empty_archive w0) s →
  (snapshot contract (archive s)).2 = Some cursor → contract ≠ "" →
  let target := {| at_contractId := contract; at_networkPassphrase := network |} in
  ∃ text p, export_archive target (snapshot contract (archive s)) = ex_file text ∧
    parseArchive fromXdr text target = Ok p ∧
    (pa_rows p, Some (ah_cursor (pa_header p))) = snapshot contract (archive s).
Proof.
  intros Hi%reachable_archive_inv Hc Hne target. simpl in Hc. unfold readCursor in Hc.
  pose proof (ai_cursor _ _ Hi _ Hc) as Hv. pose proof (archived_rows_ok fromXdr contract s cursor Hi Hc) as Hrows.
  destruct (ArchiveLaws_sorted contract _ _ _ (archive_inv_list _ _ Hi)) as (Hnd & Hs & _).
  set (rows := list_rows contract (archive s)) in *.
  assert (snapshot contract (archive s) = (rows, Some cursor)) as -> by (unfold snapshot, readCursor; by rewrite Hc).
  apply Forall_and in Hrows as [Hok Hpos].
  assert (present (Some cursor) = Some cursor) as Hp.
  { apply present_some. split; [done|]. intros ->. done. }
  unfold export_archive. rewrite decide_False by done.
  destruct (archiveLines (rows, Some cursor) target) as [lines|e] eqn:El.
  2: { unfold archiveLines in El. rewrite Hp in El. done. }
  exists (file_text lines), {| pa_header := header_of target rows cursor; pa_rows := rows |}.
  split; [done|]. split; [|done]. apply written_file_parses; [|done..].
  split; [done|done|done|by apply strictly_sorted].
Qed.

(** A data directory is refused to a process exactly while another live process
    of this host holds it. *)
Theorem claimed_dir_is_refused host1 pid1 host2 pid2 alive dir files :
  is_ok (assertDataDirFree host2 pid2 alive dir (claimDataDir host1 pid1 dir files)) =
  negb (bool_decide (host1 = host2) && negb (pid1 =? pid2) && alive pid1).
Proof.
  unfold assertDataDirFree, claimDataDir. rewrite map_get_set_eq. simpl mbind.
  rewrite JSON_round_trip by (apply object_wf; split; [by apply (bool_decide_unpack _)|by repeat constructor]).
  set (fields := [("host", j_string host1); ("pid", j_number pid1)]).
  change (map_get "host" fields) with (Some (j_string host1)).
  change (map_get "pid" fields) with (Some (j_number pid1)). simpl.
  assert (bool_decide (Some host1 = Some host2) = bool_decide (host1 = host2)) as -> by (apply bool_decide_ext; naive_solver).
  by destruct (_ && _)%bool.
Qed.

(** ** A chain of one supply *)

Module Demo.
Definition supplied : RawLendEvent := {|
  ev_id := "0000000429496729600-0000000001"; ev_ledger := 100; ev_txHash := "ff";
  ev_topic := [n_string "supply"; n_string "GA"]; ev_value := n_object [("scaled_amount", n_bigint 7)];
  ev_topicXdr := ["QQ=="; "Qg=="]; ev_valueXdr := "Qw==" |}.

Definition fromXdr (x : string) : result string Native :=
  if decide (x = "QQ==") then Ok (n_string "supply")
  else if decide (x = "Qg==") then Ok (n_string "GA")
  else if decide (x = "Qw==") then Ok (n_object [("scaled_amount", n_bigint 7)])
  else Err "XDR Read Error".

Definition tip : string := default "" (cursorForLedger 101).
Definition passed (c : string) : nat := if bool_decide (c = tip) then 1 else 0.

#[local] Instance env : WatcherEnv bool RawLendEvent := {|
  w_now w := 0;
  w_sleep _ w := w;
  w_getEvents q w :=
    (Ok (match q with from_cursor c => if bool_decide (c = tip) then [] else [supplied] | _ => [supplied] end, tip), w);
  w_handle t w := (Err "offline", w);
  w_isPublished t w := (Ok false, w);
|}.

#[local] Instance laws : WatcherLaws bool RawLendEvent.
Proof.
  refine {| chain_log _ := [supplied]; on_chain w t := False; position := passed |}; simpl;
    try (intros; split; [reflexivity|done]).
  - assert (P : passed tip = 1%nat) by (vm_compute; reflexivity).
    intros [c0|l] w evs c w' [= <- <- <-]; rewrite P; (split; [simpl; lia|]); [|done].
    unfold passed. by case_bool_decide.
  - done.
Defined.

#[local] Instance archive_laws : ArchiveLaws bool.
Proof.
  split; simpl.
  - intros w. repeat constructor.
  - intros w. apply NoDup_singleton.
  - intros c0 w evs c w' [= _ <- _]. unfold passed at 1. case_bool_decide; [by subst|lia].
Defined.

#[local] Instance export_laws : ExportLaws bool fromXdr.
Proof.
  split; simpl.
  - intros w e ->%list_elem_of_singleton. vm_compute. by split_and!.
  - intros w c e. unfold passed. case_bool_decide; [|by intros ?%elem_of_nil].
    subst. intros ->%list_elem_of_singleton. by vm_compute.
  - intros w e ->%list_elem_of_singleton. split; [|by vm_compute].
    repeat constructor; by vm_compute.
Qed.

Definition after : archiver bool := (archive_round "C" (Some 50) (mkArchiver empty_archive true)).2.
Definition target : ArchiveTarget := {| at_contractId := "C"; at_networkPassphrase := "Test" |}.
Definition file : string :=
  match export_archive target (snapshot "C" (archive after)) with ex_file t => t | _ => "" end.

Lemma after_reachable : rtc (archive_step "C" (Some 50)) (mkArchiver empty_archive true) after.
Proof. apply (rtc_once _ _ (step_round "C" (Some 50) (mkArchiver empty_archive true))). Qed.

Lemma export_reads_back_witness :
  ∃ text p, export_archive target (snapshot "C" (archive after)) = ex_file text ∧
    parseArchive fromXdr text target = Ok p ∧ length (pa_rows p) = 1%nat.
Proof.
  assert ((snapshot "C" (archive after)).2 = Some tip) as Hc by (vm_compute; reflexivity).
  destruct (export_reads_back "C" (Some 50) "Test" true after tip after_reachable Hc ltac:(done)) as (text & p & Ht & Hp & Hr).
  exists text, p. split; [exact Ht|]. split; [exact Hp|]. apply (f_equal (λ x, length x.1)) in Hr. simpl fst in Hr.
  rewrite Hr. vm_compute. reflexivity.
Defined.

(** The file is accepted; with another amount in a column it is not. *)
Lemma accepted_files_are_consistent_witness :
  ∃ p, parseArchive fromXdr file target = Ok p ∧ consistent fromXdr target p ∧ map LendArchive.id (pa_rows p) = [ev_id supplied].
Proof.
  destruct (parseArchive fromXdr file target) as [p|e] eqn:E; [|vm_compute in E; discriminate E].
  exists p. split; [reflexivity|]. split; [exact (accepted_files_are_consistent fromXdr file target p E)|].
  vm_compute in E. injection E as <-. reflexivity.
Defined.
End Demo.
