(* ===== verification/PositionEvents.v ===== *)
(** * Position events and contract reads ([relayer/src/lend/deposit-reads.ts])

    The index of the contract's position events that the deposit-status and
    timeline routes share: how an event is decoded, the walk over the RPC's
    event pages, and the coalescing of refreshes as a step relation. Then the
    reads of the contract's storage. An event's topics and data, and a storage
    entry, are what the SDK's [scValToNative] makes of them. *)

From S2P Require Import Prelude JsData JsMap RpcCursor LendArchive.
From Stdlib Require Import Sorting.Sorted.

#[local] Set Warnings "-register-all".

(** ** Events *)

Inductive PositionEventKind : Type := k_deposit | k_borrow | k_repay | k_repay_full | k_liquidate.

#[global] Instance PositionEventKind_eq_dec : EqDecision PositionEventKind.
Proof. solve_decision. Defined.

Definition kind_of (s : string) : option PositionEventKind :=
  map_get s [("deposit", k_deposit); ("borrow", k_borrow); ("repay", k_repay);
             ("repay_full", k_repay_full); ("liquidate", k_liquidate)].

Record DecodedPositionEvent : Type := {
  de_kind : PositionEventKind;
  de_txid : string;               (* internal byte order *)
  de_account : option string;
  de_amount : option string;
}.

Record PositionEventRecord : Type := {
  pe_event : DecodedPositionEvent;
  pe_txHash : string;
  pe_ledger : Z;
  pe_closedAt : string;
}.

(** One event of an RPC answer. *)
Record RawPositionEvent : Type := {
  rv_topic : list Native;
  rv_value : option Native;
  rv_txHash : string;
  rv_ledger : Z;
  rv_closedAt : string;
}.

(** [data.k]; [None] for a missing field and for [null], as [??] sees them. *)
Definition field (k : string) (fields : list (string * Native)) : option Native :=
  match map_get k fields with Some n_null | None => None | Some v => Some v end.

Definition event_details (kind : PositionEventKind) (txid : string) (v : Native) : DecodedPositionEvent :=
  let fields := match v with n_object fields => fields | _ => [] end in
  let account := match field "borrower" fields with
                 | Some a => Some a
                 | None => match field "repayer" fields with Some a => Some a | None => field "keeper" fields end
                 end in
  {| de_kind := kind; de_txid := txid;
     de_account := match account with Some (n_string a) => Some a | _ => None end;
     de_amount := match field "usdc_amount" fields with Some (n_bigint z) => Some (z_to_string z) | _ => None end |}.

Definition decodePositionEvent (topic : list Native) (value : option Native) : option DecodedPositionEvent :=
  match topic with
  | n_string k :: t :: _ =>
      kind ← kind_of k;
      match t with
      | n_bytes txid =>
          if negb (zlen txid =? 32) then None
          else Some (match value with
                     | None => {| de_kind := kind; de_txid := to_hex txid; de_account := None; de_amount := None |}
                     | Some v => event_details kind (to_hex txid) v
                     end)
      | _ => None
      end
  | _ => None
  end.

Definition decodeDepositTxid (topic : list Native) : option string :=
  match decodePositionEvent topic None with
  | Some d => if bool_decide (de_kind d = k_deposit) then Some (de_txid d) else None
  | None => None
  end.

Definition record_of (e : RawPositionEvent) (d : DecodedPositionEvent) : PositionEventRecord :=
  {| pe_event := d; pe_txHash := rv_txHash e; pe_ledger := rv_ledger e; pe_closedAt := rv_closedAt e |}.

(** ** The RPC *)

Inductive page_request : Type :=
| after_cursor (cursor : string)
| from_start (startLedger : Z).

Record page : Type := {
  pg_events : list RawPositionEvent;
  pg_cursor : string;
  pg_latestLedger : Z;
}.

(** [getEvents] takes the page limit; [getHealth] gives the oldest ledger kept. *)
Class IndexEnv (W : Type) : Type := {
  ix_now : W → Z;
  ix_getHealth : W → result string Z * W;
  ix_getEvents : page_request → Z → W → result string page * W;
}.

Definition PAGE_LIMIT : Z := 200.
Definition MAX_PAGES_PER_REFRESH : nat := 20.

(** ** The index, and one walk *)

Record PositionEventIndex : Type := mkIndex {
  ix_records : jsmap string (list PositionEventRecord);
  ix_cursor : option string;
  ix_refreshedAt : option Z;                   (* [None]: -Infinity *)
}.

Definition empty_index : PositionEventIndex := mkIndex [] None None.

Definition same_event (d : DecodedPositionEvent) (e : RawPositionEvent) (r : PositionEventRecord) : bool :=
  bool_decide (de_kind (pe_event r) = de_kind d) && bool_decide (pe_txHash r = rv_txHash e).

Definition records_for (txid : string) (m : jsmap string (list PositionEventRecord)) : list PositionEventRecord :=
  default [] (map_get txid m).

Definition add_event (m : jsmap string (list PositionEventRecord)) (e : RawPositionEvent) :
    jsmap string (list PositionEventRecord) :=
  match decodePositionEvent (rv_topic e) (rv_value e) with
  | None => m
  | Some d =>
      let list := records_for (de_txid d) m in
      if existsb (same_event d e) list then m else map_set (de_txid d) (list ++ [record_of e d]) m
  end.

Record indexing (W : Type) : Type := mkIndexing { index : PositionEventIndex; chain : W }.
Arguments mkIndexing {W}. Arguments index {W}. Arguments chain {W}.

Section walk.
Context {W : Type} `{IndexEnv W}.
Abbreviation M := (io (indexing W) string).

Definition rpc {A} (f : W → result string A * W) : M A := λ s,
  let '(r, w) := f (chain s) in (r, mkIndexing (index s) w).

Definition set_cursor (c : option string) (ix : PositionEventIndex) : PositionEventIndex :=
  mkIndex (ix_records ix) c (ix_refreshedAt ix).
Definition add_events (es : list RawPositionEvent) (ix : PositionEventIndex) : PositionEventIndex :=
  mkIndex (foldl add_event (ix_records ix) es) (ix_cursor ix) (ix_refreshedAt ix).
Definition on_index (f : PositionEventIndex → PositionEventIndex) : M () :=
  modify (λ s, mkIndexing (f (index s)) (chain s)).

Definition cursor_ledger (c : string) : M Z := lift (of_option (ledgerOfCursor c) "SyntaxError").

(** What a page changes; [true] when the index is at the tip. *)
Definition take_page (res : page) : M bool :=
  on_index (add_events (pg_events res));;
  on_index (set_cursor (Some (pg_cursor res)));;
  if zlen (pg_events res) <? PAGE_LIMIT
  then l ← cursor_ledger (pg_cursor res); mret (pg_latestLedger res <=? l)
  else mret false.

(** One round of the loop of [walk]: [true] where the code returns. *)
Definition walk_page : M bool :=
  cursor ← gets (λ s, present (ix_cursor (index s)));
  match cursor with
  | Some c =>
      r ← settle (rpc (ix_getEvents (after_cursor c) PAGE_LIMIT));
      match r with
      | Ok res => take_page res
      | Err e =>
          oldestLedger ← rpc ix_getHealth;
          l ← cursor_ledger c;
          if oldestLedger <=? l then throw e
          else on_index (set_cursor None);; mret false
      end
  | None =>
      oldestLedger ← rpc ix_getHealth;
      res ← rpc (ix_getEvents (from_start oldestLedger) PAGE_LIMIT);
      take_page res
  end.
End walk.

(** ** Refreshes of concurrent callers *)

(** A walk: the rounds it has left, and its end: [Ok true] at the tip,
    [Ok false] after its last round; the code's promise does not tell these
    apart. [wk_seen] is how much of the chain there was when it started. *)
Record walk_run : Type := {
  wk_left : nat;
  wk_result : option (result string bool);
  wk_seen : nat;
}.

Inductive refresh_stage : Type :=
| waits (walk : nat)                   (* for a walk that was running *)
| joined (walk : nat)                  (* the walk whose end is its own *)
| returned (walk : option nat) (r : result string ()).

(** A call of [refresh]; [rc_seen] is how much of the chain there was then. *)
Record refresh_call : Type := {
  rc_force : bool;
  rc_seen : nat;
  rc_stage : refresh_stage;
}.

Record service (W : Type) : Type := mkService {
  sv_state : indexing W;
  sv_inflight : option nat;
  sv_walks : list walk_run;
  sv_calls : list refresh_call;
}.
Arguments mkService {W}. Arguments sv_state {W}. Arguments sv_inflight {W}.
Arguments sv_walks {W}. Arguments sv_calls {W}.

Section refresh.
Context {W : Type} `{IndexEnv W} (freshForMs : Z) (chain_length : W → nat).
Implicit Types (s : service W).

(** [this.inflight ??= this.walk()...]: the walk under way, or a new one. *)
Definition start_or_join (inflight : option nat) (walks : list walk_run) (seen : nat) :
    nat * option nat * list walk_run :=
  match inflight with
  | Some p => (p, Some p, walks)
  | None =>
      let p := length walks in
      (p, Some p, walks ++ [{| wk_left := MAX_PAGES_PER_REFRESH; wk_result := None; wk_seen := seen |}])
  end.

Definition is_fresh (w : W) (ix : PositionEventIndex) : bool :=
  match ix_refreshedAt ix with Some t => ix_now w - t <? freshForMs | None => false end.

Definition refresh (force : bool) s : service W :=
  let seen := chain_length (chain (sv_state s)) in
  let call st := {| rc_force := force; rc_seen := seen; rc_stage := st |} in
  if negb force && is_fresh (chain (sv_state s)) (index (sv_state s))
  then mkService (sv_state s) (sv_inflight s) (sv_walks s) (sv_calls s ++ [call (returned None (Ok ()))])
  else
    match sv_inflight s with
    | Some p => mkService (sv_state s) (sv_inflight s) (sv_walks s) (sv_calls s ++ [call (waits p)])
    | None =>
        let '(p, inflight, walks) := start_or_join None (sv_walks s) seen in
        mkService (sv_state s) inflight walks (sv_calls s ++ [call (joined p)])
    end.

Definition call_at (st : refresh_stage) (c : refresh_call) : refresh_call :=
  {| rc_force := rc_force c; rc_seen := rc_seen c; rc_stage := st |}.

(** A caller resumes when the walk [p] has ended with [r]. *)
Definition resume_call (p : nat) (r : result string ()) (seen : nat)
    (acc : option nat * list walk_run * list refresh_call) (c : refresh_call) :
    option nat * list walk_run * list refresh_call :=
  let '(inflight, walks, calls) := acc in
  let keep c := (inflight, walks, calls ++ [c]) in
  match rc_stage c with
  | joined p' => keep (if decide (p' = p) then call_at (returned (Some p) r) c else c)
  | waits p' =>
      if decide (p' = p) then
        if rc_force c && is_ok r then
          let '(q, inflight, walks) := start_or_join inflight walks seen in
          (inflight, walks, calls ++ [call_at (joined q) c])
        else keep (call_at (returned (Some p) r) c)
      else keep c
  | returned _ _ => keep c
  end.

Definition stamp (w : W) (ix : PositionEventIndex) : PositionEventIndex :=
  mkIndex (ix_records ix) (ix_cursor ix) (Some (ix_now w)).

Definition set_walk (p : nat) (left : nat) (r : option (result string bool)) (walks : list walk_run) :
    list walk_run :=
  alter (λ k, {| wk_left := left; wk_result := r; wk_seen := wk_seen k |}) p walks.

(** The walk ends: [refreshedAt] where it succeeded, [inflight] cleared, and
    then its callers run. *)
Definition walk_settles (p : nat) (r : result string bool) (st : indexing W) s : service W :=
  let st := if is_ok r then mkIndexing (stamp (chain st) (index st)) (chain st) else st in
  let '(inflight, walks, calls) :=
    foldl (resume_call p ((λ _, ()) <$> r) (chain_length (chain st)))
      (None, set_walk p 0 (Some r) (sv_walks s), []) (sv_calls s) in
  mkService st inflight walks calls.

Definition walk_round (p left : nat) s : service W :=
  match walk_page (sv_state s) with
  | (Err e, st) => walk_settles p (Err e) st s
  | (Ok true, st) => walk_settles p (Ok true) st s
  | (Ok false, st) =>
      match left with
      | O => walk_settles p (Ok false) st s
      | S _ => mkService st (sv_inflight s) (set_walk p left None (sv_walks s)) (sv_calls s)
      end
  end.
End refresh.

(** [lookup] and [history], once the refresh has returned. *)
Definition history (txidInternal : string) (ix : PositionEventIndex) : list PositionEventRecord :=
  records_for (toLowerCase txidInternal) (ix_records ix).

Record DepositRecord : Type := { dr_txHash : string; dr_ledger : Z; dr_closedAt : string }.

Definition lookup_deposit (txidInternal : string) (ix : PositionEventIndex) : option DepositRecord :=
  (λ r, {| dr_txHash := pe_txHash r; dr_ledger := pe_ledger r; dr_closedAt := pe_closedAt r |}) <$>
  List.find (λ r, bool_decide (de_kind (pe_event r) = k_deposit)) (history txidInternal ix).

(** ** Reads of the contract's storage *)

Inductive storage_key : Type := key_config | key_position (txid : list byte).

(** [readPersistent]: the entry's value, or nothing. *)
Class LendStorage (W : Type) : Type :=
  readPersistent : storage_key → W → result string (option Native) * W.

Section storage.
Context {W : Type} `{LendStorage W} (contractId : string).
Abbreviation M := (io W string).

Definition fields_of (v : option Native) : list (string * Native) :=
  match v with Some (n_object fields) => fields | _ => [] end.

Definition readMinConfirmations : M Z :=
  config ← readPersistent key_config;
  match map_get "min_confirmations" (fields_of config) with
  | Some (n_number value) =>
      if value <? 1 then throw ("writz-lend " +:+ contractId +:+ " has no readable Config::min_confirmations on this network")
      else mret value
  | _ => throw ("writz-lend " +:+ contractId +:+ " has no readable Config::min_confirmations on this network")
  end.

Definition readUsdcToken : M string :=
  config ← readPersistent key_config;
  match map_get "usdc_token" (fields_of config) with
  | Some (n_string t) => mret t
  | _ => throw ("writz-lend " +:+ contractId +:+ " has no readable Config::usdc_token on this network")
  end.

Definition positionExists (txidInternal : string) : M bool :=
  entry ← readPersistent (key_position (from_hex txidInternal));
  mret (bool_decide (is_Some entry)).

Record PositionSummary : Type := {
  ps_depositor : string;
  ps_status : string;
  ps_p2wshScriptPubkey : string;
}.

(** A falsy entry ([null], [false], [0], [""]) is taken for none. *)
Definition js_truthy (v : Native) : bool :=
  match v with
  | n_string s => negb (bool_decide (s = ""))
  | n_bigint z | n_number z => negb (z =? 0)
  | n_bool b => b
  | n_null => false
  | _ => true
  end.

Definition readPosition (txidInternal : string) : M (option PositionSummary) :=
  entry ← readPersistent (key_position (from_hex txidInternal));
  match entry with
  | None => mret None
  | Some pos =>
      if negb (js_truthy pos) then mret None
      else
        let fields := fields_of (Some pos) in
        let status := match map_get "status" fields with
                      | Some (n_array l) => head l
                      | v => v
                      end in
        match map_get "depositor" fields, map_get "p2wsh_script_pubkey" fields with
        | Some (n_string depositor), Some (n_bytes script) =>
            mret (Some {| ps_depositor := depositor;
                          ps_status := match status with Some (n_string st) => st | _ => "unknown" end;
                          ps_p2wshScriptPubkey := to_hex script |})
        | _, _ => throw ("writz-lend " +:+ contractId +:+ " holds a Position for " +:+ txidInternal +:+
                         " in an unexpected shape")
        end
  end.

(** *** What the onboarding funnel reads *)

Inductive position_status : Type := ps_active | ps_closed | ps_liquidated.

Record PositionFacts : Type := { pf_depositor : string; pf_status : position_status; pf_debtStroops : Z }.

(** [String(v)] on what [scValToNative] gives; bytes are a [Buffer], which
    prints as its text. *)
Fixpoint js_String (utf8 : list byte → string) (v : Native) : string :=
  match v with
  | n_string s => s
  | n_bigint z | n_number z => z_to_string z
  | n_bytes bs => utf8 bs
  | n_bool b => if b then "true" else "false"
  | n_null => "null"
  | n_array l =>
      (fix join (l : list Native) : string :=
         let text v := match v with n_null => "" | v => js_String utf8 v end in
         match l with
         | [] => ""
         | [v] => text v
         | v :: rest => text v +:+ "," +:+ join rest
         end) l
  | n_object _ => "[object Object]"
  end.

Definition text_of (utf8 : list byte → string) (v : option Native) : string :=
  match v with Some v => js_String utf8 v | None => "undefined" end.

Definition positionFactsOf (utf8 : list byte → string) (raw : Native) : result string PositionFacts :=
  let fields := fields_of (Some raw) in
  let statusRaw := match map_get "status" fields with
                   | Some (n_array l) => head l
                   | v => v
                   end in
  let status := toLowerCase (text_of utf8 statusRaw) in
  st ← of_option (if decide (status = "active") then Some ps_active
                  else if decide (status = "closed") then Some ps_closed
                  else if decide (status = "liquidated") then Some ps_liquidated else None)
         ("writz-lend returned an unknown position status: " +:+ text_of utf8 statusRaw);
  debt ← match map_get "usdc_debt" fields with
         | Some (n_bigint z) => mret z
         | Some n_null | None => mret 0
         | Some v => of_option (BigInt (js_String utf8 v)) "SyntaxError"
         end;
  mret {| pf_depositor := text_of utf8 (map_get "depositor" fields); pf_status := st; pf_debtStroops := debt |}.

Definition readPositionFacts (utf8 : list byte → string) (txidInternal : string) : M (option PositionFacts) :=
  raw ← readPersistent (key_position (from_hex txidInternal));
  match raw with
  | Some v => if js_truthy v then Some <$> lift (positionFactsOf utf8 v) else mret None
  | None => mret None
  end.
End storage.

(** ** What the RPC promises

    The chain's events are a growing log, in ledger order, of which the RPC
    keeps what is at or after its oldest ledger. An answer is the slice from
    where it was asked to its cursor; one that is not full and whose cursor is
    at the latest ledger has reached the end of the log. *)

Definition first_at (l : Z) (es : list RawPositionEvent) : nat := length (filter (λ e, rv_ledger e < l) es).

Class IndexLaws (W : Type) `{IndexEnv W} : Type := {
  log : W → list RawPositionEvent;
  oldest : W → Z;
  pos_of : string → nat;
  ix_le (w w' : W) : Prop := log w `prefix_of` log w' ∧ oldest w ≤ oldest w';
  getHealth_ix_le w : ix_le w (ix_getHealth w).2;
  getEvents_ix_le q n w : ix_le w (ix_getEvents q n w).2;
  ledgers_sorted w : StronglySorted (λ e1 e2, rv_ledger e1 ≤ rv_ledger e2) (log w);
  getHealth_oldest w o w' : ix_getHealth w = (Ok o, w') → oldest w ≤ o ≤ oldest w';
  getEvents_page q n w pg w' :
    ix_getEvents q n w = (Ok pg, w') →
    let p := match q with after_cursor c => pos_of c | from_start l => first_at l (log w') end in
    pg_cursor pg ≠ "" ∧ (p ≤ pos_of (pg_cursor pg) ≤ length (log w'))%nat ∧
    pg_events pg = take (pos_of (pg_cursor pg) - p) (drop p (log w'));
  getEvents_tip q n w pg w' l :
    ix_getEvents q n w = (Ok pg, w') → zlen (pg_events pg) < n →
    ledgerOfCursor (pg_cursor pg) = Some l → pg_latestLedger pg ≤ l →
    (length (log w) ≤ pos_of (pg_cursor pg))%nat;
  cursor_covers w c i e l :
    log w !! i = Some e → (i < pos_of c)%nat → ledgerOfCursor c = Some l → rv_ledger e ≤ l;
}.

(** ** Lemmas on the records *)

Definition record_for (txid : string) (e : RawPositionEvent) : option PositionEventRecord :=
  match decodePositionEvent (rv_topic e) (rv_value e) with
  | Some d => if decide (de_txid d = txid) then Some (record_of e d) else None
  | None => None
  end.

Definition event_key (r : PositionEventRecord) : PositionEventKind * string := (de_kind (pe_event r), pe_txHash r).

(** The event is in the index. *)
Definition recorded (m : jsmap string (list PositionEventRecord)) (e : RawPositionEvent)
    (d : DecodedPositionEvent) : Prop :=
  (de_kind d, rv_txHash e) ∈ event_key <$> records_for (de_txid d) m.

Lemma same_event_true d e r : same_event d e r = true ↔ event_key r = (de_kind d, rv_txHash e).
Proof.
  unfold same_event, event_key. rewrite andb_true_iff, !bool_decide_eq_true. split; [intros [-> ->]; done|].
  by intros [= -> ->].
Qed.

Lemma existsb_same d e l : existsb (same_event d e) l = true ↔ (de_kind d, rv_txHash e) ∈ event_key <$> l.
Proof.
  rewrite existsb_exists, list_elem_of_fmap. split.
  - intros (r & Hr%list_elem_of_In & Hs%same_event_true). by exists r.
  - intros (r & Hk & Hr). exists r. rewrite same_event_true. by rewrite <- list_elem_of_In.
Qed.

Lemma records_set t t' l m :
  records_for t (map_set t' l m) = if decide (t = t') then l else records_for t m.
Proof. unfold records_for. rewrite map_get_set. by case_decide. Qed.

(** What one event adds to the records of a position. *)
Lemma add_event_records t m e :
  records_for t (add_event m e) = records_for t m ++
    match record_for t e with
    | Some r => if existsb (same_event (pe_event r) e) (records_for t m) then [] else [r]
    | None => []
    end.
Proof.
  unfold add_event, record_for. destruct (decodePositionEvent _ _) as [d|]; [|by rewrite app_nil_r].
  destruct (existsb _ (records_for (de_txid d) m)) eqn:E; rewrite ?records_set; repeat case_decide; subst;
    simpl; rewrite ?E, ?app_nil_r; congruence.
Qed.

Lemma add_events_records t es m :
  sublist (records_for t m) (records_for t (foldl add_event m es)) ∧
  sublist (records_for t (foldl add_event m es)) (records_for t m ++ omap (record_for t) es) ∧
  (NoDup (event_key <$> records_for t m) → NoDup (event_key <$> records_for t (foldl add_event m es))).
Proof.
  revert m. induction es as [|e es IH]; intros m; simpl; [by rewrite app_nil_r|].
  destruct (IH (add_event m e)) as (H1 & H2 & H3). rewrite add_event_records in H1, H2, H3.
  split_and!.
  - etrans; [|exact H1]. by apply sublist_inserts_r.
  - etrans; [exact H2|]. rewrite <- app_assoc. apply sublist_app; [done|].
    destruct (record_for t e) as [r|]; [|done]. apply (sublist_app _ [r] _ (omap (record_for t) es)); [|done].
    destruct (existsb _ _); [apply sublist_nil_l|done].
  - intros Hn. apply H3. destruct (record_for t e) as [r|] eqn:Er; [|by rewrite app_nil_r].
    destruct (existsb _ _) eqn:E; [by rewrite app_nil_r|]. rewrite fmap_app. apply NoDup_app.
    split_and!; [done| |apply NoDup_singleton]. intros k Hk ->%list_elem_of_singleton.
    apply not_true_iff_false in E. apply E, existsb_same.
    unfold record_for in Er. by repeat case_match; simplify_eq/=.
Qed.

Lemma recorded_mono es m e d : recorded m e d → recorded (foldl add_event m es) e d.
Proof.
  unfold recorded. destruct (add_events_records (de_txid d) es m) as (H & _).
  intros Hin. eapply elem_of_sublist; [exact Hin|]. by apply fmap_sublist.
Qed.

Lemma add_events_recorded es m e d :
  e ∈ es → decodePositionEvent (rv_topic e) (rv_value e) = Some d → recorded (foldl add_event m es) e d.
Proof.
  revert m. induction es as [|e' es IH]; intros m Hin Hd; [by apply elem_of_nil in Hin|]. simpl.
  apply elem_of_cons in Hin as [->|Hin]; [|by apply IH]. apply recorded_mono.
  unfold recorded. rewrite add_event_records. unfold record_for. rewrite Hd, decide_True by done. simpl.
  destruct (existsb _ _) eqn:E; [apply existsb_same in E; by rewrite app_nil_r|].
  rewrite fmap_app. apply elem_of_app. right. by apply list_elem_of_singleton.
Qed.

(** ** Lemmas on positions of the log *)

Lemma omap_take_sublist {A B} (f : A → option B) n l : sublist (omap f (take n l)) (omap f l).
Proof. rewrite <- (take_drop n l) at 2. rewrite omap_app. by apply sublist_inserts_r. Qed.

Lemma first_at_spec l es i e :
  StronglySorted (λ e1 e2, rv_ledger e1 ≤ rv_ledger e2) es → es !! i = Some e →
  (i < first_at l es)%nat ↔ rv_ledger e < l.
Proof.
  intros Hs. revert i. unfold first_at. induction Hs as [|x es Hs IH Hx]; intros i He; [done|].
  rewrite filter_cons. destruct i as [|i]; simpl in He.
  - simplify_eq. case_decide; simpl; [split; [done|lia]|].
    split; [|lia]. intros Hlt. exfalso. apply H. assert (∃ y, y ∈ filter (λ e0, rv_ledger e0 < l) es) as [y Hy].
    { destruct (filter _ es) as [|y ?] eqn:E; [simpl in Hlt; lia|]. exists y. left. }
    apply list_elem_of_filter in Hy as [? Hy]. rewrite Forall_forall in Hx. specialize (Hx y Hy). simpl in Hx. lia.
  - assert (rv_ledger x ≤ rv_ledger e).
    { rewrite Forall_forall in Hx. apply Hx. by eapply list_elem_of_lookup_2. }
    specialize (IH i He). case_decide; simpl; [lia|].
    split; [|lia]. intros Hlt. rewrite <- IH. lia.
Qed.

Lemma first_at_mono l l' es es' : l ≤ l' → es `prefix_of` es' → (first_at l es ≤ first_at l' es')%nat.
Proof.
  intros Hl [k ->]. assert (first_at l es ≤ first_at l' es)%nat as H.
  { unfold first_at. induction es as [|e es IH]; [done|]. rewrite !filter_cons. repeat case_decide; simpl; lia. }
  etrans; [exact H|]. unfold first_at. rewrite filter_app, length_app. lia.
Qed.

(** ** The index follows the chain *)

Section facts.
Context {W : Type} `{IndexLaws W} (freshForMs : Z).
Implicit Types (w : W) (ix : PositionEventIndex) (st : indexing W).

#[local] Instance ix_le_preorder : PreOrder ix_le.
Proof.
  split; [by intros w; split|]. intros w1 w2 w3 [? ?] [? ?]. split; [by etrans|lia].
Qed.

(** The events of the positions [lo] to [hi] of the log are in the index. *)
Definition covers (lo hi : nat) ix w : Prop :=
  ∀ i e d, (lo ≤ i < hi)%nat → log w !! i = Some e →
    decodePositionEvent (rv_topic e) (rv_value e) = Some d → recorded (ix_records ix) e d.

(** The first event the RPC still has. *)
Definition retained w : nat := first_at (oldest w) (log w).

Record index_inv ix w : Prop := {
  ii_sound : ∃ hi, (hi ≤ length (log w))%nat ∧
    (∀ t, sublist (records_for t (ix_records ix)) (omap (record_for t) (take hi (log w)))) ∧
    match present (ix_cursor ix) with
    | Some c => pos_of c = hi ∧ ∃ lo, (lo ≤ retained w)%nat ∧ covers lo hi ix w
    | None => (hi ≤ retained w)%nat
    end;
  ii_once : ∀ t, NoDup (event_key <$> records_for t (ix_records ix));
}.

Lemma retained_mono w w' : ix_le w w' → (retained w ≤ retained w')%nat.
Proof. intros [? ?]. by apply first_at_mono. Qed.

Lemma covers_le lo hi ix w w' :
  (hi ≤ length (log w))%nat → ix_le w w' → covers lo hi ix w → covers lo hi ix w'.
Proof.
  intros Hhi [[k Hk] _] Hc i e d Hi He. apply (Hc i e d Hi).
  rewrite Hk, lookup_app_l in He by lia. done.
Qed.

Lemma take_le n w w' : ix_le w w' → (n ≤ length (log w))%nat → take n (log w') = take n (log w).
Proof. intros [[k ->] _] Hn. by rewrite take_app_le. Qed.

Lemma ix_le_length w w' : ix_le w w' → (length (log w) ≤ length (log w'))%nat.
Proof. intros [Hp _]. by apply prefix_length. Qed.

Lemma index_inv_le ix w w' : ix_le w w' → index_inv ix w → index_inv ix w'.
Proof.
  intros Hle [(hi & Hhi & Hsub & Hc) Honce]. split; [|done].
  pose proof (ix_le_length w w' Hle). pose proof (retained_mono w w' Hle). exists hi.
  split_and!; [lia|intros t; by rewrite (take_le hi w w')|].
  destruct (present _) as [c|]; [|lia]. destruct Hc as [? (lo & ? & ?)]. split; [done|].
  exists lo. split; [lia|]. by eapply covers_le.
Qed.

(** A page read where the index stood, or at what the RPC still has. *)
Lemma page_inv ix w hi lo p pg :
  pg_cursor pg ≠ "" → (hi ≤ p)%nat → (p ≤ pos_of (pg_cursor pg) ≤ length (log w))%nat →
  pg_events pg = take (pos_of (pg_cursor pg) - p) (drop p (log w)) →
  (∀ t, sublist (records_for t (ix_records ix)) (omap (record_for t) (take hi (log w)))) →
  (∀ t, NoDup (event_key <$> records_for t (ix_records ix))) →
  (lo ≤ retained w)%nat → covers lo p ix w →
  let ix' := set_cursor (Some (pg_cursor pg)) (add_events (pg_events pg) ix) in
  index_inv ix' w ∧ covers lo (pos_of (pg_cursor pg)) ix' w.
Proof.
  intros Hne Hp Hpos Hev Hsub Honce Hlo Hcov ix'. set (q := pos_of (pg_cursor pg)) in *.
  assert (Hq : take q (log w) = take p (log w) ++ pg_events pg).
  { rewrite Hev, take_take_drop. f_equal. lia. }
  assert (covers lo q ix' w) as Hcov'.
  { intros i e d Hi He Hd. unfold ix', recorded. simpl. destruct (decide (i < p)%nat).
    - apply recorded_mono. apply (Hcov i e d); [lia|done..].
    - apply add_events_recorded; [|done]. rewrite Hev. apply list_elem_of_lookup. exists (i - p)%nat.
      rewrite lookup_take_lt by lia. rewrite lookup_drop. by replace (p + (i - p))%nat with i by lia. }
  split; [|done]. split; [|intros t; apply add_events_records, Honce]. exists q. split_and!; [lia| |].
  - intros t. unfold ix'. simpl. rewrite Hq, omap_app.
    destruct (add_events_records t (pg_events pg) (ix_records ix)) as (_ & Hs & _).
    etrans; [exact Hs|]. apply sublist_app; [|done]. etrans; [apply Hsub|].
    replace (take p (log w)) with (take hi (log w) ++ take (p - hi) (drop hi (log w)))
      by (rewrite take_take_drop; f_equal; lia).
    rewrite omap_app. by apply sublist_inserts_r.
  - change (ix_cursor ix') with (Some (pg_cursor pg)).
    rewrite (proj2 (present_some (Some (pg_cursor pg)) (pg_cursor pg))) by done. eauto.
Qed.

Lemma after_restart ix w c l o :
  index_inv ix w → present (ix_cursor ix) = Some c → ledgerOfCursor c = Some l → l < o → o ≤ oldest w →
  index_inv (set_cursor None ix) w.
Proof.
  intros [(hi & Hhi & Hsub & Hc) Honce] E Hl Hlo Ho. rewrite E in Hc. destruct Hc as [Hpos _].
  split; [|done]. exists hi. split_and!; [done..|]. simpl.
  destruct (decide (hi ≤ retained w)%nat) as [|Hgt]; [done|].
  destruct (lookup_lt_is_Some_2 (log w) (retained w)) as [e He]; [lia|].
  pose proof (first_at_spec (oldest w) (log w) _ e (ledgers_sorted w) He) as Hf.
  pose proof (cursor_covers w c (retained w) e l He ltac:(lia) Hl). unfold retained in *. lia.
Qed.

(** A page's effect on the state, and what it means that it says it is at the
    tip: everything there was when it was asked for is covered. *)
Lemma take_page_inv w0 w1 st pg q n r st' :
  ix_getEvents q n w1 = (Ok pg, chain st) → n = PAGE_LIMIT → ix_le w0 w1 → index_inv (index st) w0 →
  (match q with
   | after_cursor c => present (ix_cursor (index st)) = Some c
   | from_start o => present (ix_cursor (index st)) = None ∧ oldest w0 ≤ o ≤ oldest (chain st)
   end) →
  take_page pg st = (r, st') →
  index_inv (index st') (chain st') ∧ chain st' = chain st ∧
  (r = Ok true → covers (retained (chain st')) (length (log w1)) (index st') (chain st')).
Proof.
  intros Hg -> Hle0 [(hi & Hhi & Hsub & Hc) Honce] Hq Ht.
  pose proof (getEvents_ix_le q PAGE_LIMIT w1) as Hle1. rewrite Hg in Hle1. simpl in Hle1.
  assert (Hle : ix_le w0 (chain st)) by (by etrans).
  destruct (getEvents_page _ _ _ _ _ Hg) as (Hne & Hpos & Hev).
  assert (∃ lo p, (hi ≤ p)%nat ∧ (p ≤ pos_of (pg_cursor pg) ≤ length (log (chain st)))%nat ∧
    pg_events pg = take (pos_of (pg_cursor pg) - p) (drop p (log (chain st))) ∧
    (lo ≤ retained (chain st))%nat ∧ covers lo p (index st) (chain st)) as (lo & p & Hhp & Hp & He & Hlo & Hcov).
  { pose proof (retained_mono _ _ Hle).
    destruct q as [c|o]; [rewrite Hq in Hc|destruct Hq as [Hq Ho]; rewrite Hq in Hc].
    - destruct Hc as [<- (lo & ? & ?)]. exists lo, (pos_of c). split_and!; try done; try lia.
      by eapply covers_le.
    - exists (first_at o (log (chain st))), (first_at o (log (chain st))). split_and!; try (by apply Hpos); try done.
      + etrans; [exact Hc|]. by apply first_at_mono; [lia|apply Hle].
      + by apply first_at_mono; [lia|].
      + intros i e d Hi. lia. }
  assert (∀ t, sublist (records_for t (ix_records (index st))) (omap (record_for t) (take hi (log (chain st))))) as Hsub'.
  { intros t. by rewrite (take_le hi _ _ Hle). }
  destruct (page_inv (index st) (chain st) hi lo p pg Hne Hhp Hp He Hsub' Honce Hlo Hcov) as [Hinv Hcov'].
  pose proof (getEvents_tip q PAGE_LIMIT w1 pg (chain st)) as Htip.
  unfold take_page, on_index, cursor_ledger, mbind, io_bind, modify, lift, mret, io_ret in Ht. simpl in Ht.
  split_in Ht; (split; [done|]); (split; [done|]); intros Hr; simplify_eq.
  bools. apply of_option_ok in Heqr0. specialize (Htip _ Hg ltac:(done) Heqr0 ltac:(done)).
  intros i e d Hi Hlk Hd. apply (Hcov' i e d); [|done..]. simpl in Hi. lia.
Qed.

(** Whatever was recorded is still. *)
Definition keeps_records ix ix' : Prop := ∀ e d, recorded (ix_records ix) e d → recorded (ix_records ix') e d.

Lemma take_page_keeps pg st : keeps_records (index st) (index (take_page pg st).2).
Proof.
  intros e d Hr. unfold take_page, on_index, cursor_ledger, mbind, io_bind, modify, lift, mret, io_ret. simpl.
  assert (recorded (ix_records (set_cursor (Some (pg_cursor pg)) (add_events (pg_events pg) (index st)))) e d)
    by (by apply recorded_mono).
  by repeat case_match; simplify_eq.
Qed.

(** One round of a walk. *)
Lemma covers_sub lo hi hi' ix w : (hi ≤ hi')%nat → covers lo hi' ix w → covers lo hi ix w.
Proof. intros Hle Hc i e d Hi. apply (Hc i e d). lia. Qed.

Lemma walk_page_inv st r st' :
  index_inv (index st) (chain st) → walk_page st = (r, st') →
  index_inv (index st') (chain st') ∧ ix_le (chain st) (chain st') ∧ keeps_records (index st) (index st') ∧
  (r = Ok true → covers (retained (chain st')) (length (log (chain st))) (index st') (chain st')).
Proof.
  intros Hinv Hw. unfold walk_page, on_index, rpc, settle, gets, throw, modify, mbind, io_bind, mret, io_ret in Hw. simpl in Hw.
  destruct (present (ix_cursor (index st))) as [c|] eqn:Ec.
  - pose proof (getEvents_ix_le (after_cursor c) PAGE_LIMIT (chain st)) as Hle.
    destruct (ix_getEvents _ _ _) as [[pg|e] w] eqn:Eg; simpl in Hw, Hle.
    + set (st1 := mkIndexing (index st) w) in Hw. pose proof (take_page_keeps pg st1) as Hk. rewrite Hw in Hk.
      destruct (take_page_inv (chain st) (chain st) st1 pg (after_cursor c) PAGE_LIMIT r st' Eg eq_refl
        ltac:(done) Hinv Ec Hw) as (? & Hc & ?). rewrite Hc in *. done.
    + pose proof (getHealth_ix_le w) as Hle'. destruct (ix_getHealth w) as [[o|e'] w'] eqn:Eh; simpl in Hw, Hle';
        assert (ix_le (chain st) w') by (by etrans);
        [|simplify_eq/=; split_and!; eauto using index_inv_le; by intros ?].
      pose proof (getHealth_oldest w o w' Eh) as Ho.
      unfold cursor_ledger, lift in Hw. destruct (ledgerOfCursor c) as [l|] eqn:El; simpl in Hw;
        [|simplify_eq/=; split_and!; eauto using index_inv_le; by intros ?].
      destruct (o <=? l) eqn:Eo; simplify_eq/=; split_and!; eauto using index_inv_le; try by intros ?.
      bools. eapply after_restart; eauto using index_inv_le. lia.
  - pose proof (getHealth_ix_le (chain st)) as Hle. destruct (ix_getHealth (chain st)) as [[o|e] w] eqn:Eh;
      simpl in Hw, Hle; [|simplify_eq/=; split_and!; eauto using index_inv_le; by intros ?].
    pose proof (getHealth_oldest _ o w Eh) as Ho.
    pose proof (getEvents_ix_le (from_start o) PAGE_LIMIT w) as Hle'.
    destruct (ix_getEvents _ _ _) as [[pg|e] w'] eqn:Eg; simpl in Hw, Hle'; assert (ix_le (chain st) w') by (by etrans);
      [|simplify_eq/=; split_and!; eauto using index_inv_le; by intros ?].
    set (st1 := mkIndexing (index st) w') in Hw. pose proof (take_page_keeps pg st1) as Hk. rewrite Hw in Hk.
    destruct Hle' as [? Hold].
    destruct (take_page_inv (chain st) w st1 pg (from_start o) PAGE_LIMIT r st' Eg eq_refl
      ltac:(done) Hinv ltac:(split; [done|simpl; lia]) Hw) as (? & Hc & Hcov). rewrite Hc in *. split_and!; try done.
    intros Hr. eapply covers_sub; [|by apply Hcov]. by apply ix_le_length.
Qed.

(** *** Concurrent refreshes *)

Definition chain_length w : nat := length (log w).

(** Steps of the index: the chain moves on, a caller asks for a refresh, the
    walk under way reads a page. *)
Inductive index_step (s : service W) : service W → Prop :=
| step_chain w : ix_le (chain (sv_state s)) w →
    index_step s (mkService (mkIndexing (index (sv_state s)) w) (sv_inflight s) (sv_walks s) (sv_calls s))
| step_call force : index_step s (refresh freshForMs chain_length force s)
| step_walk p k left : sv_walks s !! p = Some k → wk_result k = None → wk_left k = S left →
    index_step s (walk_round chain_length p left s).

Definition start_service w : service W := mkService (mkIndexing empty_index w) None [] [].

Definition call_inv (inflight : option nat) (walks : list walk_run) (c : refresh_call) : Prop :=
  match rc_stage c with
  | waits p => inflight = Some p
  | joined p => inflight = Some p ∧
      (rc_force c = true → ∃ k, walks !! p = Some k ∧ (rc_seen c ≤ wk_seen k)%nat)
  | returned (Some p) r => rc_force c = true → is_ok r = true →
      ∃ k b, walks !! p = Some k ∧ wk_result k = Some (Ok b) ∧ (rc_seen c ≤ wk_seen k)%nat
  | returned None _ => rc_force c = false
  end.

Definition walk_inv st (inflight : option nat) (p : nat) (k : walk_run) : Prop :=
  (wk_seen k ≤ length (log (chain st)))%nat ∧ (wk_result k = None ↔ inflight = Some p) ∧
  (wk_result k = Some (Ok true) → covers (retained (chain st)) (wk_seen k) (index st) (chain st)).

Record service_inv (s : service W) : Prop := {
  si_index : index_inv (index (sv_state s)) (chain (sv_state s));
  si_walks : ∀ p k, sv_walks s !! p = Some k → walk_inv (sv_state s) (sv_inflight s) p k;
  si_inflight : ∀ p, sv_inflight s = Some p → is_Some (sv_walks s !! p);
  si_calls : ∀ c, c ∈ sv_calls s →
    (rc_seen c ≤ length (log (chain (sv_state s))))%nat ∧ call_inv (sv_inflight s) (sv_walks s) c;
}.

Lemma covers_later st st' hi :
  (hi ≤ length (log (chain st)))%nat → ix_le (chain st) (chain st') → keeps_records (index st) (index st') →
  covers (retained (chain st)) hi (index st) (chain st) →
  covers (retained (chain st')) hi (index st') (chain st').
Proof.
  intros Hhi Hle Hk Hc i e d Hi He Hd. apply Hk.
  pose proof (retained_mono _ _ Hle). pose proof (covers_le _ _ _ _ _ Hhi Hle Hc) as Hc'.
  apply (Hc' i e d); [lia|done..].
Qed.

Lemma walk_inv_later st st' inflight p k :
  ix_le (chain st) (chain st') → keeps_records (index st) (index st') →
  walk_inv st inflight p k → walk_inv st' inflight p k.
Proof.
  intros Hle Hk (? & ? & Hc). pose proof (ix_le_length _ _ Hle). split_and!; [lia|done|].
  intros Hr. eapply covers_later; eauto.
Qed.

Lemma service_inv_later s st' :
  ix_le (chain (sv_state s)) (chain st') → keeps_records (index (sv_state s)) (index st') →
  index_inv (index st') (chain st') → service_inv s →
  service_inv (mkService st' (sv_inflight s) (sv_walks s) (sv_calls s)).
Proof.
  intros Hle Hk Hi [_ Hw Hin Hc]. pose proof (ix_le_length _ _ Hle). split; simpl; eauto using walk_inv_later.
  intros c Hin'. destruct (Hc c Hin'). split; [lia|done].
Qed.

Definition walks_inv st (inflight : option nat) (walks : list walk_run) : Prop :=
  (∀ p k, walks !! p = Some k → walk_inv st inflight p k) ∧ ∀ p, inflight = Some p → is_Some (walks !! p).

(** A new walk, when none is running. *)
Lemma start_inv st walks :
  walks_inv st None walks →
  let '(p, inflight, walks') := start_or_join None walks (length (log (chain st))) in
  walks_inv st inflight walks' ∧ inflight = Some p ∧
  (∃ k, walks' !! p = Some k ∧ wk_seen k = length (log (chain st))) ∧
  ∀ c, call_inv None walks c → call_inv inflight walks' c.
Proof.
  intros [Hw _]. simpl. set (k := {| wk_left := _ |}).
  assert (Hk : (walks ++ [k]) !! length walks = Some k) by (by apply list_lookup_middle).
  split_and!; [split| |by exists k|].
  - intros p k' Hl. destruct (decide (p = length walks)) as [Ep|Hne]; [subst p|].
    + simplify_eq. unfold walk_inv. simpl. split_and!; [done|done|by intros ?].
    + assert (p < length walks)%nat.
      { apply lookup_lt_Some in Hl as Hlt. rewrite length_app in Hlt. simpl in Hlt. lia. }
      rewrite lookup_app_l in Hl by lia. destruct (Hw p k' Hl) as (? & Hr & ?). split_and!; [done| |done].
      rewrite Hr. split; [done|]. intros [= Ep]. lia.
  - intros p [= <-]. by rewrite Hk.
  - done.
  - intros c. unfold call_inv. destruct (rc_stage c) as [|p|[p|] r]; try done; [by intros [? ?]|].
    intros Hc Hf Hr. destruct (Hc Hf Hr) as (k' & b & Hl & ? & ?). exists k', b. split_and!; [|done..].
    rewrite lookup_app_l; [done|]. by eapply lookup_lt_Some.
Qed.

Lemma refresh_inv force s : service_inv s → service_inv (refresh freshForMs chain_length force s).
Proof.
  intros [Hi Hw Hin Hc]. unfold refresh. destruct (negb force && _) eqn:E.
  - bools. split; simpl; try done. intros c [Hold|Hnew%list_elem_of_singleton]%elem_of_app; [by apply Hc|].
    subst. by split.
  - destruct (sv_inflight s) as [p|] eqn:Ep.
    + split; simpl; try done.
      intros c [Hold|Hnew%list_elem_of_singleton]%elem_of_app; [by apply Hc|]. by subst.
    + pose proof (start_inv (sv_state s) (sv_walks s) (conj Hw Hin)) as Hs. unfold chain_length.
      destruct (start_or_join _ _ _) as [[p inflight] walks]. destruct Hs as ([? ?] & -> & (k & Hk & Hks) & Hcs).
      split; simpl; try done. intros c [Hold|Hnew%list_elem_of_singleton]%elem_of_app.
      * destruct (Hc c Hold). by split; [|apply Hcs].
      * subst. split; [done|]. simpl. split; [done|]. intros _. exists k. simpl. by rewrite Hks.
Qed.

(** The calls as a settled walk wakes them one after another. *)
Definition woken st (walks0 walks : list walk_run) (inflight : option nat) (calls : list refresh_call) : Prop :=
  walks_inv st inflight walks ∧ walks0 `prefix_of` walks ∧
  (∀ q, inflight = Some q → ∃ k, walks !! q = Some k ∧ wk_seen k = length (log (chain st))) ∧
  ∀ c, c ∈ calls → (rc_seen c ≤ length (log (chain st)))%nat ∧ call_inv inflight walks c.

Lemma woken_snoc st walks0 walks inflight calls c :
  woken st walks0 walks inflight calls → (rc_seen c ≤ length (log (chain st)))%nat →
  call_inv inflight walks c → woken st walks0 walks inflight (calls ++ [c]).
Proof.
  intros (? & ? & ? & Hc) Hs Hi. split_and!; try done.
  by intros c' [Hin| ->%list_elem_of_singleton]%elem_of_app; [apply Hc|].
Qed.

Lemma resume_inv st walks p k r (r' : result string ()) walks0 :
  walks !! p = Some k → wk_result k = None → walks0 = set_walk p 0 (Some r) walks → r' = ((λ _, ()) <$> r) →
  ∀ calls inflight ws done_,
  (∀ c, c ∈ calls → (rc_seen c ≤ length (log (chain st)))%nat ∧ call_inv (Some p) walks c) →
  woken st walks0 ws inflight done_ →
  let '(inflight', ws', done_') := foldl (resume_call p r' (length (log (chain st)))) (inflight, ws, done_) calls in
  woken st walks0 ws' inflight' done_'.
Proof.
  intros Hk Hr0 -> ->. induction calls as [|c calls IH]; intros inflight ws done_ Hcs Hw; [done|].
  destruct (Hcs c) as [Hseen Hc]; [left|]. pose proof (λ c' H', Hcs c' (proj2 (elem_of_cons calls c' c) (or_intror H'))) as Hcs'.
  assert (Hkeep : ∀ c', rc_seen c' = rc_seen c → (∀ i ws', set_walk p 0 (Some r) walks `prefix_of` ws' → call_inv i ws' c') →
    woken st (set_walk p 0 (Some r) walks) ws inflight (done_ ++ [c'])).
  { intros c' E Hc'. apply woken_snoc; [done|by rewrite E|]. apply Hc', Hw. }
  assert (Hp : ∀ ws', set_walk p 0 (Some r) walks `prefix_of` ws' →
    ws' !! p = Some {| wk_left := 0; wk_result := Some r; wk_seen := wk_seen k |}).
  { intros ws' Hpre. eapply prefix_lookup_Some; [|exact Hpre]. unfold set_walk. by rewrite list_lookup_alter_eq, Hk. }
  simpl. unfold call_inv in Hc. destruct (rc_stage c) as [p'|p'|o r0] eqn:Est.
  - injection Hc as <-. rewrite decide_True by done. destruct (rc_force c && _) eqn:Ef.
    + destruct Hw as (Hwi & Hpre & Hin & Hd). destruct inflight as [q|]; simpl.
      * apply IH; [done|]. apply woken_snoc; [by split_and!|done|]. unfold call_inv. simpl. split; [done|].
        intros _. destruct (Hin q eq_refl) as (k' & ? & Hks). exists k'. by rewrite Hks.
      * pose proof (start_inv st ws Hwi) as Hs. simpl in Hs. destruct Hs as (Hwi' & _ & (k' & Hk' & Hks) & Hcall).
        apply IH; [done|]. apply woken_snoc; [|done|].
        -- split_and!; [done|by apply prefix_app_r|intros q [= <-]; eauto|].
           intros c' H'. destruct (Hd c' H'). by split; [|apply Hcall].
        -- unfold call_inv. simpl. split; [done|]. intros _. exists k'. by rewrite Hks.
    + apply IH; [done|]. apply Hkeep; [done|]. intros i ws' _. unfold call_inv. simpl. intros Hf Hr. by rewrite Hf, Hr in Ef.
  - destruct Hc as [[= <-] Hc]. rewrite decide_True by done. apply IH; [done|]. apply Hkeep; [done|].
    intros i ws' Hpre. unfold call_inv. simpl. intros Hf Hr. destruct (Hc Hf) as (k' & Hk' & ?). simplify_eq.
    destruct r as [b|]; [|done]. eexists _, b. split_and!; [by apply Hp|done|done].
  - apply IH; [done|]. apply Hkeep; [done|]. intros i ws' Hpre. unfold call_inv. rewrite Est.
    destruct o as [q|]; [|done]. intros Hf Hr. destruct (Hc Hf Hr) as (k' & b & Hq & Hb & ?). exists k', b.
    split_and!; [|done..]. eapply prefix_lookup_Some; [|exact Hpre]. unfold set_walk.
    rewrite list_lookup_alter_ne; [done|]. intros ->. congruence.
Qed.

Lemma walk_settles_inv p k r st s :
  service_inv s → sv_walks s !! p = Some k → wk_result k = None →
  ix_le (chain (sv_state s)) (chain st) → keeps_records (index (sv_state s)) (index st) →
  index_inv (index st) (chain st) → (r = Ok true → covers (retained (chain st)) (wk_seen k) (index st) (chain st)) →
  service_inv (walk_settles chain_length p r st s).
Proof.
  intros Hs Hk Hr0 Hle Hkeep Hi Hcov. unfold walk_settles.
  set (st' := if is_ok r then _ else st). pose proof (ix_le_length _ _ Hle).
  assert (chain st' = chain st ∧ ix_records (index st') = ix_records (index st) ∧ index_inv (index st') (chain st')) as (Hc & Hrec & Hi').
  { subst st'. destruct (is_ok r); [|done]. split_and!; [done..|]. by destruct Hi. }
  assert (walks_inv st' None (set_walk p 0 (Some r) (sv_walks s))) as Hw0.
  { split; [|done]. intros q kq. unfold set_walk. pose proof (si_walks s Hs) as Hw.
    assert (Hp : sv_inflight s = Some p) by (by apply (Hw p k Hk)).
    destruct (decide (q = p)) as [->|Hne].
    - rewrite list_lookup_alter_eq, Hk. intros [= <-]. destruct (Hw p k Hk) as (? & _ & _).
      unfold walk_inv. simpl. rewrite Hc. split_and!; [lia|done|]. intros [= ->]. intros i e d Hb He Hd.
      unfold recorded. rewrite Hrec. by apply (Hcov eq_refl i e d).
    - rewrite list_lookup_alter_ne by done. intros Hq.
      assert (Hkeep' : keeps_records (index (sv_state s)) (index st')) by (intros e d Hr; unfold recorded; rewrite Hrec; by apply Hkeep).
      rewrite <- Hc in Hle. destruct (walk_inv_later _ _ _ q kq Hle Hkeep' (Hw q kq Hq)) as (? & Hn & ?). split_and!; [done| |done]. rewrite Hn, Hp. split; [intros [= ->]|]; done. }
  pose proof (resume_inv st' (sv_walks s) p k r _ _ Hk Hr0 eq_refl eq_refl (sv_calls s) None
    (set_walk p 0 (Some r) (sv_walks s)) []) as Hres. unfold chain_length.
  destruct (foldl _ _ _) as [[inflight walks] calls]. destruct Hres as ((? & ?) & _ & _ & ?).
  - intros c Hin. destruct (si_calls s Hs c Hin). rewrite Hc. split; [lia|].
    by rewrite <- (proj1 (proj1 (proj2 (si_walks s Hs p k Hk))) Hr0) at 1.
  - split_and!; try done. intros c Hin. by apply elem_of_nil in Hin.
  - by split.
Qed.

Lemma index_step_inv s s' : index_step s s' → service_inv s → service_inv s'.
Proof.
  intros Hstep Hs. destruct Hstep as [w Hle|force|p k left Hk Hr Hl].
  - apply service_inv_later; [done|by intros e d|eapply index_inv_le; [exact Hle|apply Hs]|done].
  - by apply refresh_inv.
  - unfold walk_round. destruct (walk_page (sv_state s)) as [r st] eqn:E.
    destruct (walk_page_inv _ _ _ (si_index s Hs) E) as (Hi & Hle & Hkeep & Hcov).
    assert (Hset : ∀ r, (r = Ok true → covers (retained (chain st)) (wk_seen k) (index st) (chain st)) →
      service_inv (walk_settles chain_length p r st s)) by (intros; by eapply walk_settles_inv).
    destruct r as [[]|e]; [|destruct left as [|left]|]; try (by apply Hset).
    + apply Hset. intros _. eapply covers_sub; [|by apply Hcov]. by apply (si_walks s Hs p k).
    + destruct (service_inv_later s st Hle Hkeep Hi Hs) as [? Hw Hin Hc]. simpl in *.
      assert (∀ q kq, sv_walks s !! q = Some kq → ∃ k', set_walk p (S left) None (sv_walks s) !! q = Some k' ∧
        wk_seen k' = wk_seen kq ∧ wk_result k' = wk_result kq) as Hset1.
      { intros q kq Hq. unfold set_walk. rewrite list_lookup_alter, Hq. case_decide; subst; simpl; [|by eauto].
        rewrite Hk. simplify_eq. eauto. }
      assert (∀ q k', set_walk p (S left) None (sv_walks s) !! q = Some k' → ∃ kq, sv_walks s !! q = Some kq ∧
        wk_seen k' = wk_seen kq ∧ wk_result k' = wk_result kq) as Hset2.
      { intros q k'. unfold set_walk. rewrite list_lookup_alter. case_decide; subst; [|by eauto].
        rewrite Hk. intros [= <-]. eauto. }
      split; simpl; [done| | |].
      * intros q k' (kq & Hq & E1 & E2)%Hset2. specialize (Hw q kq Hq). unfold walk_inv. by rewrite E1, E2.
      * intros q [kq Hq]%Hin. destruct (Hset1 q kq Hq) as (k' & ? & _). by exists k'.
      * intros c Hc'. destruct (Hc c Hc') as [? Hci]. split; [done|]. unfold call_inv in *.
        destruct (rc_stage c) as [|q|[q|] r]; try done.
        -- destruct Hci as [? Hf]. split; [done|]. intros (k' & Hq & ?)%Hf.
           destruct (Hset1 q k' Hq) as (k2 & ? & E1 & _). exists k2. by rewrite E1.
        -- intros Hf Hr'. destruct (Hci Hf Hr') as (k' & b & Hq & ? & ?).
           destruct (Hset1 q k' Hq) as (k2 & ? & E1 & E2). exists k2, b. rewrite E1, E2. done.
Qed.

Lemma reachable_service_inv w s : rtc index_step (start_service w) s → service_inv s.
Proof.
  intros Hr. assert (service_inv (start_service w)) as H1.
  { split; simpl; try done; [|by intros c Hc%elem_of_nil]. split; [|intros t; constructor].
    exists 0%nat. split_and!; [lia| |simpl; lia]. intros t. by rewrite take_0. }
  induction Hr as [|s1 s2 s3 Hstep _ IH]; [done|]. by apply IH, (index_step_inv s1).
Qed.

End facts.

(** ** A small chain *)

Module Demo.
Definition demo_txid : list byte := replicate 32 x00.
Definition demo_event (kind : string) (hash : string) (l : Z) : RawPositionEvent :=
  {| rv_topic := [n_string kind; n_bytes demo_txid];
     rv_value := Some (n_object [("borrower", n_string "GUSER"); ("usdc_amount", n_bigint 50000000)]);
     rv_txHash := hash; rv_ledger := l; rv_closedAt := "2026-10-24T12:26:52Z" |}.
Definition demo_log : list RawPositionEvent := [demo_event "deposit" "aa" 1; demo_event "borrow" "bb" 2].

(** Ledger 3, in its high 32 bits. *)
Definition tip_cursor : string := "12884901888-0".
Definition demo_pos (c : string) : nat := if decide (c = tip_cursor) then 2 else 0.

#[local] Instance demo_env : IndexEnv () := {|
  ix_now _ := 0;
  ix_getHealth w := (Ok 1, w);
  ix_getEvents q _ w :=
    (Ok {| pg_events := drop (match q with after_cursor c => demo_pos c | from_start l => first_at l demo_log end) demo_log;
           pg_cursor := tip_cursor; pg_latestLedger := 3 |}, w);
|}.

#[local] Instance demo_laws : IndexLaws ().
Proof.
  refine {| log _ := demo_log; oldest _ := 1; pos_of := demo_pos |}; try (intros; done).
  - intros _. repeat constructor; simpl; lia.
  - intros w o w' [= <- <-]. lia.
  - intros q n w pg w' [= <- <-]. simpl. split; [done|].
    assert (∀ p, (p ≤ 2)%nat → drop p demo_log = take (demo_pos tip_cursor - p) (drop p demo_log)) as Hall
      by (by intros [|[|[|]]] ?; try lia).
    assert (match q with after_cursor c => demo_pos c | from_start l => first_at l demo_log end ≤ 2)%nat.
    { destruct q as [c|l]; [unfold demo_pos; case_decide; lia|]. etrans; [apply length_filter|done]. }
    split; [|by apply Hall]. change (demo_pos tip_cursor) with 2%nat. simpl in *. lia.
  - intros q n w pg w' l [= <- <-] _ _ _. reflexivity.
  - intros w c i e l He Hi Hl. simpl in Hi. unfold demo_pos in Hi.
    destruct (decide (c = tip_cursor)) as [->|]; [|lia].
    assert (ledgerOfCursor tip_cursor = Some 3) as E by (vm_compute; done). simplify_eq.
    destruct i as [|[|]]; simpl in He; simplify_eq; simpl; lia.
Defined.

(** A forced refresh, and the one page it takes. *)
Definition demo_service : service () :=
  walk_round chain_length 0 19 (refresh 5000 chain_length true (start_service ())).

Lemma demo_service_reachable : rtc (index_step 5000) (start_service ()) demo_service.
Proof.
  eapply rtc_l; [apply (step_call _ _ true)|]. eapply rtc_once, step_walk; reflexivity.
Qed.

End Demo.
