(* ===== verification/DepositStatus.v ===== *)
(** * Deposit status ([relayer/src/routes/deposit-status.ts, lend/deposit-submission.ts])

    Where a deposit is, from its Bitcoin transaction to its registration: how
    a named Stellar transaction is matched to the deposit it is claimed for,
    how the stage is derived from what both chains say, and the route around
    it. XDR objects are the tagged unions the code inspects. *)

From S2P Require Import Prelude JsData JsMap Esplora SpvProof RateLimit ProofCache PositionEvents.

(** ** Transactions of Stellar *)

Inductive ScError : Type :=
| sceContract (code : Z)
| sceHost (type code : string).        (* ["sceBudget"], ["scecExceededLimit"] *)

Inductive ScVal : Type :=
| scvBytes (bs : list byte)
| scvError (e : ScError)
| scvOther.

Record invoke_call : Type := {
  ic_contract : string;
  ic_function : string;
  ic_args : list ScVal;
}.

Inductive operation : Type :=
| invoke_contract (call : invoke_call)
| other_host_function
| other_operation.

Inductive envelope : Type :=
| envelopeTypeTx (ops : list operation)
| envelopeTypeTxFeeBump (inner : list operation)
| other_envelope.

Record DiagnosticEvent : Type := {
  dg_contractId : option string;
  dg_topics : list ScVal;
}.

Inductive op_result : Type :=
| opInner_invoke (code : string)
| opInner_other (type : string)
| op_other (code : string).

Record inner_result : Type := {
  ir_code : string;
  ir_results : list op_result;
}.

Inductive tx_result : Type :=
| plain_result (r : inner_result)
| fee_bump_result (r : inner_result).    (* [txFeeBumpInner...], with the pair's result *)

Inductive TransactionLookup : Type :=
| NOT_FOUND
| found_tx (success : bool) (ledger createdAt : Z) (env : envelope) (r : tx_result)
    (diagnostics : option (list DiagnosticEvent))
| other_status (status : string).

Inductive SubmissionCheck : Type :=
| sc_not_found
| sc_mismatch
| sc_success (ledger : Z) (closedAt : string)
| sc_failed (ledger : Z) (closedAt reason : string) (errorCode : option Z).

(** ** Errors of the contract ([lend/writz-lend-errors.ts]) *)

Definition WRITZ_LEND_ERRORS : list (Z * string) :=
  [(1, "AlreadyInitialized"); (2, "NotInitialized"); (3, "Unauthorized"); (4, "SpvVerificationFailed");
   (5, "OutputNotFound"); (6, "DepositTooSmall"); (7, "PositionAlreadyExists"); (8, "PositionNotFound");
   (9, "PositionNotActive"); (10, "ExceedsCollateralRatio"); (11, "InsufficientLiquidity");
   (12, "RepayExceedsDebt"); (13, "InsufficientSupply"); (14, "PositionHealthy"); (15, "Overflow");
   (16, "InvalidScriptPubKey"); (17, "Paused"); (18, "OraclePriceUnavailable"); (19, "OraclePriceStale");
   (20, "InvalidUserPubkey"); (21, "ScriptPubKeyMismatch"); (22, "InvalidTimelock");
   (23, "InvalidProtocolPubkey"); (24, "ExposureCapExceeded"); (25, "InvalidKeyProof");
   (26, "ZeroShareAmount"); (27, "InvalidDepositParams"); (28, "InvalidEntryTtl");
   (29, "UserKeyIsProtocolKey"); (30, "TimelockTooSoon"); (31, "StaleBitcoinTip");
   (32, "LiquidationWindowClosed"); (33, "InvalidTimelockParams")].

(** ** Matching a submission to its deposit *)

Definition RAW_TX_ARG : nat := 4.

Section submission.
Context (sha256 : list byte → list byte) (contractId : string).

Definition sha256d (data : list byte) : list byte := sha256 (sha256 data).

Definition operations (env : envelope) : list operation :=
  match env with
  | envelopeTypeTx ops => ops
  | envelopeTypeTxFeeBump ops => ops
  | other_envelope => []
  end.

Fixpoint deposit_of_operations (ops : list operation) : option string :=
  match ops with
  | [] => None
  | invoke_contract call :: ops =>
      if negb (bool_decide (ic_contract call = contractId)) then deposit_of_operations ops
      else if negb (bool_decide (ic_function call = "deposit")) then deposit_of_operations ops
      else match ic_args call !! RAW_TX_ARG with
           | Some (scvBytes rawTx) => Some (to_hex (sha256d rawTx))
           | _ => deposit_of_operations ops
           end
  | _ :: ops => deposit_of_operations ops
  end.

Definition depositTxidOfEnvelope (env : envelope) : option string := deposit_of_operations (operations env).

(** [name.startsWith(prefix) ? name.slice(prefix.length) : name] *)
Definition hostName (name prefix : string) : string :=
  if bool_decide (take (String.length prefix) (chars name) = chars prefix)
  then of_chars (drop (String.length prefix) (chars name)) else name.

Definition resultCode (r : tx_result) : string :=
  let inner := match r with plain_result i | fee_bump_result i => i end in
  let code := ir_code inner in
  if negb (bool_decide (code = "txFailed")) then code
  else match ir_results inner with
       | [] => code
       | op_other name :: _ => name
       | opInner_invoke name :: _ => name
       | opInner_other name :: _ => name
       end.

(** The error topics of the diagnostic events, with whether the contract
    itself emitted them. *)
Definition error_topics (events : list DiagnosticEvent) : list (bool * ScError) :=
  d ← events;
  t ← dg_topics d;
  match t with
  | scvError e => [(bool_decide (dg_contractId d = Some contractId), e)]
  | _ => []
  end.

(** The loop over them, [anyContract] and [anyHost] its variables. *)
Fixpoint first_error (topics : list (bool * ScError)) (anyContract : option (string * Z)) (anyHost : option string) :
    option (string * option Z) :=
  match topics with
  | [] =>
      match anyContract, anyHost with
      | Some (reason, code), _ => Some (reason, Some code)
      | None, Some reason => Some (reason, None)
      | None, None => None
      end
  | (fromLend, sceContract code) :: topics =>
      match (if fromLend : bool then map_get code WRITZ_LEND_ERRORS else None) with
      | Some name => Some (name, Some code)
      | None =>
          first_error topics
            (match anyContract with
             | Some c => Some c
             | None => Some ("Error(Contract, #" +:+ z_to_string code +:+ ")", code)
             end) anyHost
      end
  | (_, sceHost type code) :: topics =>
      first_error topics anyContract
        (match anyHost with
         | Some h => Some h
         | None => Some ("Error(" +:+ hostName type "sce" +:+ ", " +:+ hostName code "scec" +:+ ")")
         end)
  end.

Definition failureReason (r : tx_result) (events : list DiagnosticEvent) : string * option Z :=
  match first_error (error_topics events) None None with
  | Some e => e
  | None => (resultCode r, None)
  end.

(** [s.replace(".000Z", "Z")] on a time of whole seconds *)
Definition isoSeconds (unixSeconds : Z) : string :=
  let cs := chars (toISOString (unixSeconds * 1000)) in
  of_chars (take (length cs - 5) cs) +:+ "Z".

Definition check_lookup (txidInternal : string) (tx : TransactionLookup) : result string SubmissionCheck :=
  match tx with
  | NOT_FOUND => Ok sc_not_found
  | other_status status => Err ("Stellar RPC returned an unknown transaction status " +:+ status)
  | found_tx success ledger createdAt env r diagnostics =>
      if negb (bool_decide (depositTxidOfEnvelope env = Some (toLowerCase txidInternal))) then Ok sc_mismatch
      else
        let closedAt := isoSeconds createdAt in
        if success : bool then Ok (sc_success ledger closedAt)
        else
          let '(reason, errorCode) := failureReason r (default [] diagnostics) in
          Ok (sc_failed ledger closedAt reason errorCode)
  end.

Definition checkDepositSubmission {W} (getTransaction : string → W → result string TransactionLookup * W)
    (txidInternal hash : string) : io W string SubmissionCheck :=
  tx ← getTransaction hash;
  lift (check_lookup txidInternal tx).
End submission.

(** ** The status *)

Definition STATUS_TTL_MS : Z := 5000.
Definition UPSTREAM_RETRY_AFTER_SECONDS : Z := 10.
Definition SUBMISSION_WINDOW_MS : Z := 360000.
Definition FIRST_SEEN_TTL_MS : Z := 24 * 60 * 60 * 1000.

Inductive DepositStage : Type :=
| ds_unseen | ds_mempool | ds_confirming | ds_ready | ds_submitted | ds_verified | ds_failed.

#[global] Instance DepositStage_eq_dec : EqDecision DepositStage.
Proof. solve_decision. Defined.

Inductive Registration : Type :=
| unregistered
| registered (record : option DepositRecord).

Definition is_registered (r : Registration) : bool := match r with registered _ => true | unregistered => false end.

Inductive submission_status : Type := sub_not_found | sub_success | sub_failed.

Record DepositSubmission : Type := {
  sb_stellarTxHash : string;
  sb_status : submission_status;
  sb_ledger : option Z;
  sb_closedAt : option string;
  sb_reason : option string;
  sb_errorCode : option Z;
}.

Record DepositStatus : Type := {
  st_txid : string;
  st_stage : DepositStage;
  st_confirmations : option Z;
  st_required : Z;
  st_blockHeight : option Z;
  st_proofReady : option bool;
  st_lightClientTipHeight : option Z;
  st_stellarTxHash : option string;
  st_ledger : option Z;
  st_verifiedAt : option string;
  st_submission : option DepositSubmission;
}.

Record SubmissionQuery : Type := { sq_hash : string; sq_elapsedMs : Z }.

Inductive status_error : Type :=
| StellarTxMismatchError
| StellarUnavailableError (message : string)
| BitcoinUnavailable (f : fault).

Class StatusDeps (W : Type) : Type := {
  dp_bitcoinTx : string → W → result fault (option TxStatus) * W;
  dp_bitcoinTip : W → result fault Z * W;
  dp_required : W → result string Z * W;
  dp_registration : string → W → result string Registration * W;
  dp_submission : string → string → W → result string SubmissionCheck * W;
  dp_lightClientTip : W → option Z * W;
  dp_now : W → Z;
}.

(** Display byte order to internal byte order. *)
Definition toInternalTxid (display : string) : string := to_hex (rev (from_hex display)).

Definition submissionView (hash : string) (check : SubmissionCheck) : DepositSubmission :=
  match check with
  | sc_not_found | sc_mismatch =>
      {| sb_stellarTxHash := hash; sb_status := sub_not_found; sb_ledger := None; sb_closedAt := None;
         sb_reason := None; sb_errorCode := None |}
  | sc_success ledger closedAt =>
      {| sb_stellarTxHash := hash; sb_status := sub_success; sb_ledger := Some ledger;
         sb_closedAt := Some closedAt; sb_reason := None; sb_errorCode := None |}
  | sc_failed ledger closedAt reason errorCode =>
      {| sb_stellarTxHash := hash; sb_status := sub_failed; sb_ledger := Some ledger;
         sb_closedAt := Some closedAt; sb_reason := Some reason; sb_errorCode := errorCode |}
  end.

(** [verified]: the registering transaction, its ledger and its time. *)
Definition verified_by (registration : Registration) (query : option SubmissionQuery)
    (check : option SubmissionCheck) : option string * option Z * option string :=
  match registration with
  | registered (Some r) => (Some (dr_txHash r), Some (dr_ledger r), Some (dr_closedAt r))
  | registered None =>
      match check, query with
      | Some (sc_success ledger closedAt), Some q => (Some (sq_hash q), Some ledger, Some closedAt)
      | _, _ => (None, None, None)
      end
  | unregistered => (None, None, None)
  end.

Definition block_of (tx : option TxStatus) : option Z :=
  match tx with Some t => if confirmed t then block_height t else None | None => None end.

Definition confirmations_of (blockHeight tip : option Z) : Z :=
  match blockHeight, tip with Some h, Some t => Z.max 1 (t - h + 1) | _, _ => 0 end.

(** Both chains' answers decide the stage, Stellar's first. *)
Definition stage_of (registration : Registration) (check : option SubmissionCheck) (query : option SubmissionQuery)
    (tx : option TxStatus) (blockHeight : option Z) (proofReady : bool) : DepositStage :=
  if is_registered registration then ds_verified
  else
    match check, blockHeight, query with
    | Some (sc_failed _ _ _ _), _, _ => ds_failed
    | Some (sc_success _ _), _, _ => ds_submitted
    | check, blockHeight, query =>
        let in_flight := match check, blockHeight, query with
                         | Some sc_not_found, Some _, Some q => sq_elapsedMs q <? SUBMISSION_WINDOW_MS
                         | _, _, _ => false
                         end in
        if in_flight : bool then ds_submitted
        else match tx with
             | None => ds_unseen
             | Some t => if negb (confirmed t) then ds_mempool else if proofReady then ds_ready else ds_confirming
             end
    end.

Section status.
Context {W : Type} `{StatusDeps W}.
Abbreviation M := (io W status_error).

Definition reading {E A} (wrap : E → status_error) (m : io W E A) : M A := handle m (λ e, throw (wrap e)).

(** [Promise.all] of the reads of Stellar. *)
Definition read_stellar (txidInternal : string) (query : option SubmissionQuery) :
    M (Z * Registration * option SubmissionCheck) :=
  required ← reading StellarUnavailableError dp_required;
  registration ← reading StellarUnavailableError (dp_registration txidInternal);
  check ← match query with
          | Some q => c ← reading StellarUnavailableError (dp_submission txidInternal (sq_hash q)); mret (Some c)
          | None => mret None
          end;
  mret (required, registration, check).

Definition read_bitcoin (txid : string) : M (option TxStatus * option Z) :=
  tx ← reading BitcoinUnavailable (dp_bitcoinTx txid);
  tip ← match tx with
        | Some t => if confirmed t then Some <$> reading BitcoinUnavailable dp_bitcoinTip else mret None
        | None => mret None
        end;
  mret (tx, tip).

Definition light_client_tip : M (option Z) := λ w, let '(r, w) := dp_lightClientTip w in (Ok r, w).

Definition computeStatus (txid : string) (query : option SubmissionQuery) : M DepositStatus :=
  let txidInternal := toInternalTxid txid in
  stellarResult ← settle (read_stellar txidInternal query);
  bitcoinResult ← settle (read_bitcoin txid);
  stellar ← lift stellarResult;
  let '(required, registration, check) := stellar in
  match check with
  | Some sc_mismatch => throw StellarTxMismatchError
  | _ =>
      let submission := match query, check with Some q, Some c => Some (submissionView (sq_hash q) c) | _, _ => None end in
      let '(stellarTxHash, ledger, verifiedAt) := verified_by registration query check in
      match bitcoinResult with
      | Err e =>
          if negb (is_registered registration) then throw e
          else mret {| st_txid := txid; st_stage := ds_verified; st_confirmations := None; st_required := required;
                       st_blockHeight := None; st_proofReady := None; st_lightClientTipHeight := None;
                       st_stellarTxHash := stellarTxHash; st_ledger := ledger; st_verifiedAt := verifiedAt;
                       st_submission := submission |}
      | Ok (tx, tip) =>
          let blockHeight := block_of tx in
          let confirmations := confirmations_of blockHeight tip in
          '(lightClientTipHeight, proofReady) ←
            match blockHeight with
            | Some h =>
                if required <=? confirmations
                then lcTip ← light_client_tip;
                     mret (lcTip, match lcTip with None => true | Some t => h + required - 1 <=? t end)
                else mret (None, false)
            | None => mret (None, false)
            end;
          mret {| st_txid := txid;
                  st_stage := stage_of registration check query tx blockHeight proofReady;
                  st_confirmations := Some confirmations; st_required := required;
                  st_blockHeight := blockHeight; st_proofReady := Some proofReady;
                  st_lightClientTipHeight := lightClientTipHeight;
                  st_stellarTxHash := stellarTxHash; st_ledger := ledger; st_verifiedAt := verifiedAt;
                  st_submission := submission |}
      end
  end.
End status.

(** The default dependencies: the event index first, then the contract's
    storage, then the index again. *)
Class IndexLookup (W : Type) : Type := {
  il_lookup : string → W → result string (option DepositRecord) * W;
  il_refresh : W → result string () * W;       (* [refresh(true)] *)
}.

Definition default_registration {W} `{IndexLookup W, LendStorage W} (txidInternal : string) :
    io W string Registration :=
  record ← il_lookup txidInternal;
  match record with
  | Some r => mret (registered (Some r))
  | None =>
      exists_ ← positionExists txidInternal;
      if negb exists_ then mret unregistered
      else
        il_refresh;;
        record ← il_lookup txidInternal;
        mret (registered record)
  end.

Definition default_bitcoinTx {W} (getTxInfo : string → W → result fault TxStatus * W) (txid : string) :
    io W fault (option TxStatus) :=
  try_catch (Some <$> getTxInfo txid) (λ e,
    match e with
    | EsploraError status url _ => if (status =? 404) && endsWith ("/tx/" +:+ txid) url then mret None else throw e
    | _ => throw e
    end).

(** ** The route *)

Inductive StatusBody : Type :=
| sb_rate_limited (retryAfterSeconds : Z)
| sb_invalid_txid
| sb_invalid_stellar_tx
| sb_lending_not_configured (message : string)
| sb_found (s : DepositStatus)
| sb_stellar_tx_mismatch
| sb_stellar_unavailable (message : string)
| sb_upstream_unavailable
| sb_upstream_error (f : fault).

Record StatusAnswer : Type := { an_status : Z; an_retryAfter : option Z; an_body : StatusBody }.

Inductive query_param : Type := q_absent | q_text (s : string) | q_other.

Definition is_hex64 (s : string) : bool := (slen s =? 64) && string_forall is_hex_char s.

Record StatusRoute (W : Type) : Type := mkRoute {
  sr_windows : jsmap string Window;
  sr_cache : TtlCache DepositStatus;
  sr_firstSeen : TtlCache Z;
  sr_world : W;
}.
Arguments mkRoute {W}. Arguments sr_windows {W}. Arguments sr_cache {W}.
Arguments sr_firstSeen {W}. Arguments sr_world {W}.

Section route.
Context {W : Type} `{StatusDeps W} (limiter : RateLimitOptions) (notConfiguredReason : option string).

Definition status_answer (r : result status_error DepositStatus) : StatusAnswer :=
  let answer s b := {| an_status := s; an_retryAfter := None; an_body := b |} in
  let later b := {| an_status := 503; an_retryAfter := Some UPSTREAM_RETRY_AFTER_SECONDS; an_body := b |} in
  match r with
  | Ok s => answer 200 (sb_found s)
  | Err StellarTxMismatchError => answer 400 sb_stellar_tx_mismatch
  | Err (StellarUnavailableError m) => later (sb_stellar_unavailable m)
  | Err (BitcoinUnavailable f) =>
      if isUpstreamUnavailable f then later sb_upstream_unavailable else answer 502 (sb_upstream_error f)
  end.

(** The first sighting of [key], which this request is when there is none. *)
Definition first_sighting (key : string) (now : Z) (c : TtlCache Z) : Z * TtlCache Z :=
  match get now key c with
  | (Some since, c) => (since, c)
  | (None, c) => (now, set 10000 now key now FIRST_SEEN_TTL_MS c)
  end.

(** A request for a txid and a hash, both normalized. *)
Definition serve_status (txid : string) (hash : option string) (s : StatusRoute W) :
    result status_error DepositStatus * StatusRoute W :=
  let key := match hash with Some h => txid +:+ ":" +:+ h | None => txid end in
  let now := dp_now (sr_world s) in
  match getOrCompute now key 0 (sr_cache s) with
  | (hit v, c) => (Ok v, mkRoute (sr_windows s) c (sr_firstSeen s) (sr_world s))
  | (_, c) =>
      let '(query, seen) :=
        match hash with
        | Some h => let '(since, seen) := first_sighting key now (sr_firstSeen s) in
                    (Some {| sq_hash := h; sq_elapsedMs := now - since |}, seen)
        | None => (None, sr_firstSeen s)
        end in
      let '(r, w) := computeStatus txid query (sr_world s) in
      let kept := (λ v, {| computed := v; ttlMs := STATUS_TTL_MS |}) <$> r in
      (r, mkRoute (sr_windows s) (compute_settled 1000 (dp_now w) key kept c) seen w)
  end.

Definition handle_status (client txid : string) (stellarTx : query_param) (s : StatusRoute W) :
    StatusAnswer * StatusRoute W :=
  let answer code retry b := {| an_status := code; an_retryAfter := retry; an_body := b |} in
  let '(v, windows) := rateLimit limiter (dp_now (sr_world s)) client (sr_windows s) in
  let s := mkRoute windows (sr_cache s) (sr_firstSeen s) (sr_world s) in
  match v with
  | too_many seconds => (answer 429 (Some seconds) (sb_rate_limited seconds), s)
  | next =>
      if negb (is_hex64 txid) then (answer 400 None sb_invalid_txid, s)
      else if match stellarTx with q_absent => false | q_text h => negb (is_hex64 h) | q_other => true end
      then (answer 400 None sb_invalid_stellar_tx, s)
      else
        match present notConfiguredReason with
        | Some reason => (answer 503 None (sb_lending_not_configured reason), s)
        | None =>
            let hash := match stellarTx with q_text h => Some (toLowerCase h) | _ => None end in
            let '(r, s) := serve_status (toLowerCase txid) hash s in
            (status_answer r, s)
        end
  end.
End route.

(** ** Which deposit a transaction makes *)

Section submission_facts.
Context (sha256 : list byte → list byte) (contractId : string).

(** An envelope that calls [deposit] of the contract with the Bitcoin
    transaction whose txid, in internal byte order, is [txid]. *)
Definition deposits (env : envelope) (txid : string) : Prop :=
  ∃ call rawTx, invoke_contract call ∈ operations env ∧ ic_contract call = contractId ∧
    ic_function call = "deposit" ∧ ic_args call !! RAW_TX_ARG = Some (scvBytes rawTx) ∧
    txid = to_hex (sha256d sha256 rawTx).

Lemma depositTxidOfEnvelope_deposits env txid :
  depositTxidOfEnvelope sha256 contractId env = Some txid → deposits env txid.
Proof.
  unfold depositTxidOfEnvelope, deposits. induction (operations env) as [|[call| |] ops IH]; simpl; [done|..].
  2-3: intros (c & r & ? & ?)%IH; exists c, r; split; [by right|done].
  assert (deposit_of_operations sha256 contractId ops = Some txid → ∃ call' rawTx,
    invoke_contract call' ∈ invoke_contract call :: ops ∧ ic_contract call' = contractId ∧
    ic_function call' = "deposit" ∧ ic_args call' !! RAW_TX_ARG = Some (scvBytes rawTx) ∧
    txid = to_hex (sha256d sha256 rawTx)) as Hrest.
  { intros (c & r & ? & ?)%IH. exists c, r. split; [by right|done]. }
  case_bool_decide; simpl; [|done]. case_bool_decide; simpl; [|done].
  destruct (ic_args call !! RAW_TX_ARG) as [[raw| |]|] eqn:E; try done.
  intros [= <-]. exists call, raw. split; [left|done].
Qed.

Definition decisive (c : SubmissionCheck) : bool :=
  match c with sc_success _ _ | sc_failed _ _ _ _ => true | _ => false end.

(** Only a transaction that makes this deposit decides about it. *)
Lemma check_lookup_decisive txid tx c :
  check_lookup sha256 contractId txid tx = Ok c → decisive c = true →
  ∃ success ledger createdAt env r d, tx = found_tx success ledger createdAt env r d ∧
    deposits env (toLowerCase txid) ∧ (success = true ↔ ∃ l t, c = sc_success l t).
Proof.
  destruct tx as [|success ledger createdAt env r d|]; simpl; intros Hc Hd; simplify_eq/=.
  unfold deposits. split_in Hc; simplify_eq/=; bools; eexists _, _, _, _, _, _;
    (split_and!; [done|by apply depositTxidOfEnvelope_deposits|naive_solver]).
Qed.

(** What the contract itself names wins over any other error. *)
Lemma first_error_names topics anyContract anyHost name code :
  map_get code WRITZ_LEND_ERRORS = Some name → (true, sceContract code) ∈ topics →
  (∀ c n, (true, sceContract c) ∈ topics → map_get c WRITZ_LEND_ERRORS = Some n → c = code) →
  first_error topics anyContract anyHost = Some (name, Some code).
Proof.
  intros Hname. revert anyContract anyHost. induction topics as [|[b [c|t c]] topics IH]; cbn [first_error]; intros aC aH Hin Hu.
  - by apply elem_of_nil in Hin.
  - assert (Hu' : ∀ c n, (true, sceContract c) ∈ topics → map_get c WRITZ_LEND_ERRORS = Some n → c = code)
      by (intros c' n Hc'; apply Hu; by right).
    destruct b; [destruct (map_get c WRITZ_LEND_ERRORS) as [n|] eqn:E|].
    + assert (c = code) as -> by (eapply Hu; [left|done]). by rewrite Hname in E; simplify_eq.
    + apply elem_of_cons in Hin as [[= <-]|Hin]; [by rewrite Hname in E|by apply IH].
    + apply elem_of_cons in Hin as [[=]|Hin]; by apply IH.
  - apply elem_of_cons in Hin as [[=]|Hin]. apply IH; [done|]. intros c' n Hc'. apply Hu. by right.
Qed.
End submission_facts.

(** ** What a stage says *)

Section status_facts.
Context {W : Type} `{StatusDeps W} (sha256 : list byte → list byte) (contractId : string)
  (getTransaction : string → W → result string TransactionLookup * W).

(** The submission check is that of [deposit-submission.ts]. *)
Hypothesis submission_checked : ∀ txid hash,
  dp_submission txid hash = checkDepositSubmission sha256 contractId getTransaction txid hash.

(** At some moment of the run the call answered [a]. *)
Definition gave {E A} (call : W → result E A * W) (a : A) : Prop := ∃ w, (call w).1 = Ok a.

(** A transaction called [hash] that makes this deposit ended so. *)
Definition deposit_ended (txid hash : string) (success : bool) : Prop :=
  ∃ ledger createdAt env r d, gave (getTransaction hash) (found_tx success ledger createdAt env r d) ∧
    deposits sha256 contractId env (toLowerCase (toInternalTxid txid)).

Definition in_block (txid : string) (h tip : Z) : Prop :=
  ∃ t, gave (dp_bitcoinTx txid) (Some t) ∧ confirmed t = true ∧ block_height t = Some h ∧ gave dp_bitcoinTip tip.

(** What Bitcoin alone says of the deposit. *)
Definition bitcoin_says (txid : string) (required : Z) (stage : DepositStage) : Prop :=
  match stage with
  | ds_unseen => gave (dp_bitcoinTx txid) None
  | ds_mempool => ∃ t, gave (dp_bitcoinTx txid) (Some t) ∧ confirmed t = false
  | ds_ready => ∃ h tip, in_block txid h tip ∧ required ≤ Z.max 1 (tip - h + 1) ∧
      ∃ lc w, (dp_lightClientTip w).1 = lc ∧ ∀ l, lc = Some l → h + required - 1 ≤ l
  | ds_confirming => ∃ t, gave (dp_bitcoinTx txid) (Some t) ∧ confirmed t = true ∧
      ∀ h, block_height t = Some h → ∃ tip, gave dp_bitcoinTip tip ∧
        (Z.max 1 (tip - h + 1) < required ∨
         ∃ l w, (dp_lightClientTip w).1 = Some l ∧ l < h + required - 1)
  | _ => False
  end.

(** What a stage says of both chains. *)
Definition stage_says (txid : string) (query : option SubmissionQuery) (required : Z) (stage : DepositStage) : Prop :=
  match stage with
  | ds_verified => ∃ r, gave (dp_registration (toInternalTxid txid)) (registered r)
  | _ => gave (dp_registration (toInternalTxid txid)) unregistered ∧
      match stage with
      | ds_failed => ∃ q, query = Some q ∧ deposit_ended txid (sq_hash q) false
      | ds_submitted => ∃ q, query = Some q ∧
          (deposit_ended txid (sq_hash q) true ∨
           (gave (getTransaction (sq_hash q)) NOT_FOUND ∧ sq_elapsedMs q < SUBMISSION_WINDOW_MS ∧
            ∃ h tip, in_block txid h tip))
      | stage => bitcoin_says txid required stage
      end
  end.

Lemma handle_ok {A E1 E2} (wrap : E1 → E2) (m : io W E1 A) w a w' :
  handle m (λ e, throw (wrap e)) w = (Ok a, w') → m w = (Ok a, w').
Proof. unfold handle, throw. destruct (m w) as [[]]; naive_solver. Qed.

(** The check a request's query got, if it had one. *)
Definition checked (txid : string) (query : option SubmissionQuery) (check : option SubmissionCheck) : Prop :=
  match query, check with
  | None, None => True
  | Some q, Some c =>
      match c with
      | sc_success _ _ => deposit_ended txid (sq_hash q) true
      | sc_failed _ _ _ _ => deposit_ended txid (sq_hash q) false
      | sc_not_found => gave (getTransaction (sq_hash q)) NOT_FOUND
      | sc_mismatch => True
      end
  | _, _ => False
  end.

Lemma submission_read txid q w c w' :
  dp_submission (toInternalTxid txid) (sq_hash q) w = (Ok c, w') → checked txid (Some q) (Some c).
Proof using submission_checked.
  rewrite submission_checked. unfold checkDepositSubmission, mbind, io_bind, lift.
  destruct (getTransaction (sq_hash q) w) as [[tx|e] w1] eqn:Eg; [|done]. intros [= Hc <-].
  assert (gave (getTransaction (sq_hash q)) tx) as Hgave by (exists w; by rewrite Eg).
  pose proof (check_lookup_decisive sha256 contractId _ _ _ Hc) as Hd.
  destruct c as [| |l t|l t r e]; simpl in *; try done.
  - destruct tx as [|s ? ? ? ? ?|]; simpl in Hc; [done| |done]. split_in Hc; by simplify_eq.
  - destruct (Hd eq_refl) as (s & ? & ? & env & ? & ? & -> & ? & [_ Hs]). rewrite (Hs ltac:(eauto)) in *.
    eexists _, _, _, _, _. eauto.
  - destruct (Hd eq_refl) as (s & ? & ? & env & ? & ? & -> & ? & [Hs _]).
    destruct s; [destruct (Hs eq_refl) as (? & ? & ?); done|]. eexists _, _, _, _, _. eauto.
Qed.

Lemma read_stellar_ok txid query w required registration check w' :
  read_stellar (toInternalTxid txid) query w = (Ok (required, registration, check), w') →
  gave dp_required required ∧ gave (dp_registration (toInternalTxid txid)) registration ∧ checked txid query check.
Proof using submission_checked.
  unfold read_stellar, reading, mbind, io_bind, mret, io_ret.
  destruct (handle dp_required _ w) as [[r|e] w1] eqn:E1; [|done]. apply handle_ok in E1.
  destruct (handle (dp_registration _) _ w1) as [[g|e] w2] eqn:E2; [|done]. apply handle_ok in E2.
  destruct query as [q|]; simpl.
  - destruct (handle (dp_submission _ _) _ w2) as [[c|e] w3] eqn:E3; [|done]. apply handle_ok in E3.
    intros [= <- <- <- <-]. split_and!; [exists w; by rewrite E1|exists w1; by rewrite E2|by eapply submission_read].
  - intros [= <- <- <- <-]. split_and!; [exists w; by rewrite E1|exists w1; by rewrite E2|done].
Qed.

Lemma read_bitcoin_ok txid w tx tip w' :
  read_bitcoin txid w = (Ok (tx, tip), w') →
  gave (dp_bitcoinTx txid) tx ∧
  match tx with
  | Some t => if confirmed t then ∃ z, tip = Some z ∧ gave dp_bitcoinTip z else tip = None
  | None => tip = None
  end.
Proof.
  unfold read_bitcoin, reading, fmap, io_fmap, mbind, io_bind, mret, io_ret.
  destruct (handle (dp_bitcoinTx _) _ w) as [[t|e] w1] eqn:E1; [|done]. apply handle_ok in E1.
  assert (gave (dp_bitcoinTx txid) t) by (exists w; by rewrite E1).
  destruct t as [t|]; [destruct (confirmed t) eqn:Ec|]; simpl.
  - destruct (handle dp_bitcoinTip _ w1) as [[z|e] w2] eqn:E2; [|done]. apply handle_ok in E2.
    intros [= <- <- <-]. rewrite Ec. split; [done|]. exists z. split; [done|]. exists w1. by rewrite E2.
  - intros [= <- <- <-]. by rewrite Ec.
  - by intros [= <- <- <-].
Qed.

(** The stage is what the reads say, given what the light client answered. *)
Lemma stage_of_says txid query required registration check tx tip lc proofReady :
  gave (dp_registration (toInternalTxid txid)) registration → checked txid query check →
  check ≠ Some sc_mismatch → gave (dp_bitcoinTx txid) tx →
  match tx with
  | Some t => if confirmed t then ∃ z, tip = Some z ∧ gave dp_bitcoinTip z else tip = None
  | None => tip = None
  end →
  (∀ h, block_of tx = Some h →
     if required <=? confirmations_of (Some h) tip
     then ∃ w, (dp_lightClientTip w).1 = lc ∧ proofReady = match lc with None => true | Some t => h + required - 1 <=? t end
     else proofReady = false) →
  (block_of tx = None → proofReady = false) →
  stage_says txid query required (stage_of registration check query tx (block_of tx) proofReady).
Proof.
  intros Hreg Hchk Hmis Htx Htip Hlc Hnone. unfold stage_of.
  destruct registration as [|rec]; simpl; [|by exists rec].
  assert (Hblock : ∀ h, block_of tx = Some h → ∃ tip', tip = Some tip' ∧ in_block txid h tip').
  { intros h. unfold block_of. destruct tx as [t|]; [|done]. destruct (confirmed t) eqn:Ec; [|done].
    intros Hh. destruct Htip as (z & -> & Hz). exists z. split; [done|]. by exists t. }
  assert (stage_says txid query required (match tx with
    | None => ds_unseen
    | Some t => if negb (confirmed t) then ds_mempool else if proofReady then ds_ready else ds_confirming end)) as Hbtc.
  { destruct tx as [t|]; [|done]. destruct (confirmed t) eqn:Ec; simpl; [|by eauto].
    unfold block_of in *. rewrite Ec in *. destruct proofReady eqn:Ep; simpl.
    - split; [done|]. destruct (block_height t) as [h|] eqn:Eh; [|by specialize (Hnone eq_refl)].
      destruct (Hblock h eq_refl) as (tip' & -> & Hin). exists h, tip'. specialize (Hlc h eq_refl). simpl in Hlc.
      destruct (required <=? _) eqn:E; [|done]. bools. destruct Hlc as (w & Hw & Hl). split_and!; [done|done|].
      exists lc, w. split; [done|]. intros l ->. symmetry in Hl. by bools.
    - split; [done|]. exists t. split_and!; [done..|]. intros h Eh.
      destruct (Hblock h Eh) as (tip' & -> & Hin). exists tip'. split; [by destruct Hin as (? & ? & ? & ? & ?)|].
      specialize (Hlc h Eh). simpl in Hlc. destruct (required <=? _) eqn:E; bools; [right|by left].
      destruct Hlc as (w & Hw & Hl). destruct lc as [l|]; [|done]. symmetry in Hl. bools. eauto. }
  destruct query as [q|], check as [c|]; simpl in Hchk; try done.
  destruct c as [| |l z|l z r e]; try done; simpl.
  - destruct (block_of tx) as [h|] eqn:Eb; [|done]. destruct (sq_elapsedMs q <? _) eqn:Ew; [|done]. bools.
    split; [done|]. exists q. split; [done|]. right. destruct (Hblock h eq_refl) as (tip' & _ & ?). eauto.
  - split; [done|]. exists q. auto.
  - split; [done|]. exists q. auto.
Qed.

(** What a run that answers does with its reads. *)
Lemma computeStatus_run txid query w required registration check w1 rb w2 st w' :
  read_stellar (toInternalTxid txid) query w = (Ok (required, registration, check), w1) →
  read_bitcoin txid w1 = (rb, w2) → computeStatus txid query w = (Ok st, w') →
  check ≠ Some sc_mismatch ∧
  match rb with
  | Err e => is_registered registration = true ∧
      st_stage st = ds_verified ∧ st_required st = required ∧ st_blockHeight st = None ∧
      st_stellarTxHash st = (verified_by registration query check).1.1
  | Ok (tx, tip) => ∃ lc proofReady,
      st_stage st = stage_of registration check query tx (block_of tx) proofReady ∧ st_required st = required ∧
      st_blockHeight st = block_of tx ∧ st_confirmations st = Some (confirmations_of (block_of tx) tip) ∧
      st_stellarTxHash st = (verified_by registration query check).1.1 ∧
      (∀ h, block_of tx = Some h →
         if required <=? confirmations_of (Some h) tip
         then ∃ w, (dp_lightClientTip w).1 = lc ∧
              proofReady = match lc with None => true | Some t => h + required - 1 <=? t end
         else proofReady = false) ∧
      (block_of tx = None → proofReady = false)
  end.
Proof.
  unfold computeStatus, settle, lift, mbind, io_bind. intros -> -> Hrun. simpl in Hrun.
  assert (check ≠ Some sc_mismatch) as Hmis by (intros ->; discriminate Hrun). split; [done|].
  set (sub := match query with Some q => _ | None => None end) in Hrun.  clearbody sub.
  destruct (verified_by registration query check) as [[hash ledger] verifiedAt] eqn:Ev.
  match type of Hrun with match check with Some _ => _ | None => ?rest end _ = _ =>
    assert (rest w2 = (Ok st, w')) as Hrest by (destruct check as [[]|]; first [exact Hrun|discriminate Hrun]) end.
  clear Hrun. unfold mret, io_ret, throw in Hrest. destruct rb as [[tx tip]|e].
  - destruct (block_of tx) as [h|] eqn:Eh; [destruct (required <=? _) eqn:Er|].
    + unfold light_client_tip in Hrest. destruct (dp_lightClientTip w2) as [lc w3] eqn:El.
      injection Hrest as <- <-. exists lc. eexists. split_and!; try reflexivity; [|done].
      intros ? [= <-]. simpl in Er |- *. rewrite Er. exists w2. by rewrite El.
    + injection Hrest as <- <-. exists None, false. split_and!; try reflexivity.
      intros ? [= <-]. simpl in Er |- *. by rewrite Er.
    + injection Hrest as <- <-. exists None, false. by split_and!.
  - destruct registration; [discriminate Hrest|]. by injection Hrest as <- <-.
Qed.

End status_facts.

(** ** A deposit's way *)

Definition stage_rank (s : DepositStage) : Z :=
  match s with
  | ds_unseen => 0 | ds_mempool => 1 | ds_confirming => 2 | ds_ready => 3
  | ds_submitted => 4 | ds_failed => 4 | ds_verified => 5
  end.

(** What the light client's answer makes of a block, as [computeStatus] does. *)
Definition proof_ready (required h tip lc : Z) : bool :=
  (required <=? confirmations_of (Some h) (Some tip)) && (h + required - 1 <=? lc).

(** A transaction is seen, then enters a block it stays in. *)
Definition tx_advances (tx tx' : option TxStatus) : Prop :=
  match tx with
  | None => True
  | Some t => ∃ t', tx' = Some t' ∧ (confirmed t = true → confirmed t' = true ∧ block_height t' = block_height t)
  end.

(** While Bitcoin, the light client and the registration only move on, a
    deposit nothing was named for never goes back a stage. *)
Lemma stage_advances required r r' tx tx' h tip tip' lc lc' :
  (is_registered r = true → is_registered r' = true) → tx_advances tx tx' → tip ≤ tip' → lc ≤ lc' →
  (∀ t, tx = Some t ∨ tx' = Some t → confirmed t = true → block_height t = Some h) →
  stage_rank (stage_of r None None tx (block_of tx) (proof_ready required h tip lc)) ≤
  stage_rank (stage_of r' None None tx' (block_of tx') (proof_ready required h tip' lc')).
Proof.
  intros Hr Htx Htip Hlc Hh. unfold stage_of.
  destruct (is_registered r') eqn:Er'; [repeat case_match; simpl; lia|].
  destruct (is_registered r) eqn:Er; [by specialize (Hr eq_refl)|].
  assert (Hready : proof_ready required h tip lc = true → proof_ready required h tip' lc' = true).
  { unfold proof_ready, confirmations_of. intros ?. bools. apply andb_true_iff. rewrite !Z.leb_le. lia. }
  unfold tx_advances in Htx. destruct tx as [t|]; simpl.
  - destruct Htx as (t' & -> & Hc). destruct (confirmed t) eqn:Ec; simpl.
    + destruct (Hc eq_refl) as [-> _]. simpl. repeat case_match; simpl; try lia; naive_solver.
    + repeat case_match; simpl; lia.
  - repeat case_match; simpl; lia.
Qed.

(** ** A deposit call that failed *)

Module Demo.
Definition raw_tx : list byte := [x01; x02].
Definition demo_call : invoke_call :=
  {| ic_contract := "CLEND"; ic_function := "deposit";
     ic_args := [scvOther; scvOther; scvOther; scvOther; scvBytes raw_tx] |}.
Definition demo_lookup : TransactionLookup :=
  found_tx false 7 1792844812 (envelopeTypeTxFeeBump [other_operation; invoke_contract demo_call])
    (plain_result {| ir_code := "txFailed"; ir_results := [opInner_invoke "invokeHostFunctionTrapped"] |})
    (Some [{| dg_contractId := Some "COTHER"; dg_topics := [scvOther; scvError (sceContract 22)] |};
           {| dg_contractId := Some "CLEND"; dg_topics := [scvError (sceContract 21)] |}]).

Definition demo_getTransaction (_ : string) (w : ()) : result string TransactionLookup * () := (Ok demo_lookup, w).

(** With the identity for SHA-256, in display order. *)
Definition demo_txid : string := to_hex (rev raw_tx).
Definition demo_query : option SubmissionQuery := Some {| sq_hash := "aa"; sq_elapsedMs := 0 |}.

#[local] Instance demo_deps : StatusDeps () := {|
  dp_bitcoinTx _ w := (Ok (Some {| confirmed := true; block_height := Some 100 |}), w);
  dp_bitcoinTip w := (Ok 105, w);
  dp_required w := (Ok 3, w);
  dp_registration _ w := (Ok unregistered, w);
  dp_submission txid hash := checkDepositSubmission (λ bs, bs) "CLEND" demo_getTransaction txid hash;
  dp_lightClientTip w := (Some 110, w);
  dp_now _ := 0;
|}.

Definition demo_status : DepositStatus :=
  {| st_txid := demo_txid; st_stage := ds_failed; st_confirmations := Some 6; st_required := 3;
     st_blockHeight := Some 100; st_proofReady := Some true; st_lightClientTipHeight := Some 110;
     st_stellarTxHash := None; st_ledger := None; st_verifiedAt := None;
     st_submission := Some {| sb_stellarTxHash := "aa"; sb_status := sub_failed; sb_ledger := Some 7;
       sb_closedAt := Some "2026-10-24T12:26:52Z"; sb_reason := Some "ScriptPubKeyMismatch";
       sb_errorCode := Some 21 |} |}.

Lemma demo_checked txid hash :
  dp_submission txid hash = checkDepositSubmission (λ bs, bs) "CLEND" demo_getTransaction txid hash.
Proof. reflexivity. Qed.


(** Without the name, the same deposit waits to be registered. *)
Example demo_ready : st_stage <$> (computeStatus demo_txid None ()).1 = Ok ds_ready.
Proof. reflexivity. Qed.
End Demo.
