(* ===== verification/Timeline.v ===== *)
(** * The timeline of a loan ([relayer/src/routes/timeline.ts, lend/receive-legs.ts])

    How an owner's operations are named and attributed to one of its loans,
    how the events of the loan are put in order, and how the answer is built
    from the contract's events, Bitcoin and Horizon, each of which may fail. *)

From S2P Require Import Prelude JsData JsMap JsDate CctpStore Esplora SpvProof RateLimit ProofCache LendArchive PositionEvents DepositStatus.
From Stdlib Require Import Sorting.Sorted.

#[local] Set Warnings "-register-all".

(** ** Operations of the owner *)

Inductive OwnerOperationKind : Type := oo_borrow | oo_repay | oo_swap | oo_burn_to_base_sepolia.

#[global] Instance OwnerOperationKind_eq_dec : EqDecision OwnerOperationKind.
Proof. solve_decision. Defined.

(** A time in ms; [None] is NaN. *)
Record OwnerOperation : Type := {
  oo_kind : OwnerOperationKind;
  oo_txHash : string;
  oo_at : option Z;
  oo_asset : option string;
}.

Record ReceiveContext : Type := {
  rx_owner : string;
  rx_writzLend : string;
  rx_soroswapRouter : string;
  rx_tokenMessengerMinter : string;
  rx_usdcToken : string;
  rx_swapTokens : list (string * string);
  rx_baseDomain : Z;
}.

Record HorizonOperation : Type := {
  hz_paging_token : string;
  hz_type : string;
  hz_source_account : string;
  hz_transaction_hash : string;
  hz_transaction_successful : option bool;
  hz_created_at : string;
  hz_function : option string;
  hz_parameters : option (list string);        (* their values, base64 XDR *)
}.

(** [Number(v)] of a scalar; [None] is NaN. *)
Definition js_Number (v : Native) : option Z :=
  match v with
  | n_number z | n_bigint z => Some z
  | n_string s => BigInt s
  | n_bool b => Some (if b then 1 else 0)
  | n_null => Some 0
  | _ => None
  end.

Section classify.
(** [scValToNative(xdr.ScVal.fromXDR(value, "base64"))]; [None] where it throws. *)
Context (decode : string → option Native).

Definition is_text (v : option Native) (s : string) : bool :=
  match v with Some (n_string t) => bool_decide (t = s) | _ => false end.

(** The ticker a swap's path ends in, when it starts at the pool's USDC. *)
Definition swapped_into (ctx : ReceiveContext) (path : option Native) : option string :=
  match path with
  | Some (n_array path) =>
      if (2 <=? zlen path) && is_text (head path) (rx_usdcToken ctx) then
        match last path with Some (n_string end_) => present (map_get end_ (rx_swapTokens ctx)) | _ => None end
      else None
  | _ => None
  end.

Definition classifyOperation (op : HorizonOperation) (ctx : ReceiveContext) : option OwnerOperation :=
  if negb (bool_decide (hz_type op = "invoke_host_function")) || bool_decide (hz_transaction_successful op = Some false)
  then None
  else if negb (bool_decide (hz_source_account op = rx_owner ctx)) then None
  else if negb (bool_decide (hz_function op = Some "HostFunctionTypeHostFunctionTypeInvokeContract")) then None
  else
    let params := default [] (hz_parameters op) in
    if zlen params <? 2 then None
    else
      match mapM decode params with
      | None => None
      | Some values =>
          let contract := values !! 0%nat in
          let method := values !! 1%nat in
          let args := drop 2 values in
          let leg kind asset := Some {| oo_kind := kind; oo_txHash := hz_transaction_hash op;
                                        oo_at := Date_parse (hz_created_at op); oo_asset := asset |} in
          if is_text contract (rx_writzLend ctx) then
            if is_text method "borrow" then leg oo_borrow None
            else if is_text method "repay" then leg oo_repay None else None
          else if is_text contract (rx_soroswapRouter ctx) && is_text method "swap_exact_tokens_for_tokens" then
            match swapped_into ctx (args !! 2%nat) with Some asset => leg oo_swap (Some asset) | None => None end
          else if is_text contract (rx_tokenMessengerMinter ctx) && is_text method "deposit_for_burn" then
            if is_text (args !! 0%nat) (rx_owner ctx) &&
               bool_decide ((args !! 2%nat) ≫= js_Number = Some (rx_baseDomain ctx)) &&
               is_text (args !! 4%nat) (rx_usdcToken ctx)
            then leg oo_burn_to_base_sepolia None else None
          else None
      end.
End classify.

(** The loop of [attributeReceiveLegs], [open] its variable. *)
Fixpoint attribute_from (open : bool) (operations : list OwnerOperation) (borrowHashes : list string) :
    list OwnerOperation :=
  match operations with
  | [] => []
  | op :: rest =>
      match oo_kind op with
      | oo_borrow => attribute_from (bool_decide (oo_txHash op ∈ borrowHashes)) rest borrowHashes
      | oo_repay => attribute_from false rest borrowHashes
      | _ => if open then op :: attribute_from open rest borrowHashes else attribute_from open rest borrowHashes
      end
  end.

Definition attributeReceiveLegs (operations : list OwnerOperation) (borrowHashes : list string) :
    list OwnerOperation := attribute_from false operations borrowHashes.

(** ** Reading them from Horizon *)

Definition HORIZON_PAGE : Z := 200.

(** A status, and the records of its body. *)
Class HorizonEnv (W : Type) : Type :=
  hz_fetch : string → W → result string (Z * result string (option (list HorizonOperation))) * W.

Fixpoint strip_slashes (cs : list ascii) : list ascii :=
  match cs with c :: cs' => if Ascii.eqb c "/" then strip_slashes cs' else cs | [] => [] end.

(** [horizonUrl.replace(/\/+$/, "")] *)
Definition trim_slashes (s : string) : string := of_chars (rev (strip_slashes (rev (chars s)))).

Definition operations_url (horizonUrl owner cursor : string) : string :=
  trim_slashes horizonUrl +:+ "/accounts/" +:+ owner +:+ "/operations?order=asc&limit=" +:+
  z_to_string HORIZON_PAGE +:+ "&cursor=" +:+ cursor.

Section horizon.
Context {W : Type} `{HorizonEnv W} (horizonUrl owner : string).
Abbreviation M := (io W string).

Fixpoint fetch_pages (pages : nat) (cursor : string) (operations : list HorizonOperation) :
    M (list HorizonOperation * bool) :=
  match pages with
  | O => mret (operations, true)
  | S pages =>
      res ← hz_fetch (operations_url horizonUrl owner cursor);
      let '(status, body) := res in
      if status =? 404 then mret (operations, false)
      else if negb ((200 <=? status) && (status <=? 299))
      then throw ("Horizon " +:+ z_to_string status +:+ " reading the operations of " +:+ owner)
      else
        records ← lift body;
        let records := default [] records in
        let operations := operations ++ records in
        if zlen records <? HORIZON_PAGE then mret (operations, false)
        else match last records with
             | Some r => fetch_pages pages (hz_paging_token r) operations
             | None => throw "TypeError"
             end
  end.

Definition fetchOwnerOperations (fromLedger : Z) (maxPages : nat) : M (list HorizonOperation * bool) :=
  fetch_pages maxPages (z_to_string (Z.shiftl fromLedger 32)) [].
End horizon.

(** ** Events in order *)

Inductive TimelineKind : Type := tk_btc_lock | tk_verified | tk_borrowed | tk_received | tk_repaid | tk_released.
Inductive TimelineChain : Type := on_bitcoin | on_stellar | on_base_sepolia.

#[global] Instance TimelineKind_eq_dec : EqDecision TimelineKind.
Proof. solve_decision. Defined.
#[global] Instance TimelineChain_eq_dec : EqDecision TimelineChain.
Proof. solve_decision. Defined.

(** [Unix ms | null], or the NaN of a time that did not parse. *)
Inductive EventTime : Type := at_ms (t : Z) | at_null | at_nan.

#[global] Instance EventTime_eq_dec : EqDecision EventTime.
Proof. solve_decision. Defined.

Record TimelineEvent : Type := {
  te_kind : TimelineKind;
  te_chain : TimelineChain;
  te_hash : string;
  te_at : EventTime;
  te_detail : option string;
}.

Definition RANK (k : TimelineKind) : Z :=
  match k with
  | tk_btc_lock => 0 | tk_verified => 1 | tk_borrowed => 2 | tk_received => 3 | tk_repaid => 4 | tk_released => 5
  end.
Definition PHASE (k : TimelineKind) : Z :=
  match k with
  | tk_btc_lock => 0 | tk_verified => 1 | tk_borrowed | tk_received | tk_repaid => 2 | tk_released => 3
  end.

(** [`${e.kind}:${e.hash}`] *)
Definition event_id (e : TimelineEvent) : TimelineKind * string := (te_kind e, te_hash e).

Fixpoint unique_from (seen : list (TimelineKind * string)) (events : list TimelineEvent) : list TimelineEvent :=
  match events with
  | [] => []
  | e :: rest =>
      if bool_decide (event_id e ∈ seen) then unique_from seen rest
      else e :: unique_from (event_id e :: seen) rest
  end.

(** [ta < tb ? -1 : 1] where [ta !== tb], [null] standing for infinity. *)
Definition compare_times (a b : EventTime) : Z :=
  match a, b with
  | at_ms x, at_ms y => if x =? y then 0 else if x <? y then -1 else 1
  | at_ms _, at_null => -1
  | at_null, at_null => 0
  | at_null, at_ms _ => 1
  | at_nan, _ | _, at_nan => 1
  end.

Definition compare_events (a b : nat * TimelineEvent) : Z :=
  let p := PHASE (te_kind a.2) - PHASE (te_kind b.2) in
  if negb (p =? 0) then p
  else
    let t := compare_times (te_at a.2) (te_at b.2) in
    if negb (t =? 0) then t
    else
      let r := RANK (te_kind a.2) - RANK (te_kind b.2) in
      if negb (r =? 0) then r else Z.of_nat a.1 - Z.of_nat b.1.

Definition orderTimeline (events : list TimelineEvent) : list TimelineEvent :=
  (sort_with (λ a b, compare_events a b <=? 0) (imap pair (unique_from [] events))).*2.

(** ** The timeline *)

Definition TIMELINE_TTL_MS : Z := 10000.
Definition OWNER_OPERATION_PAGES : nat := 5.

Record BlockStatus : Type := { bs_confirmed : bool; bs_block_time : option Z }.
Record TxWithOutputs : Type := { tw_status : BlockStatus; tw_scripts : list string }.
Record Outspend : Type := { os_spent : bool; os_txid : option string; os_status : option BlockStatus }.
Record MintRecord : Type := { mr_mintHash : string; mr_at : option Z }.

Class TimelineDeps (W : Type) : Type := {
  tl_history : string → W → result string (list PositionEventRecord) * W;
  tl_position : string → W → result string (option PositionSummary) * W;
  tl_bitcoinTx : string → W → result string (option TxWithOutputs) * W;
  tl_outspends : string → W → result string (list Outspend) * W;
  tl_ownerOperations : string → Z → W → result string (list OwnerOperation * bool) * W;
  tl_mint : string → W → option MintRecord;
  tl_url : TimelineChain → string → string;
  tl_now : W → Z;
}.

Record Timeline : Type := {
  tl_btcTxid : string;
  tl_positionId : string;
  tl_owner : option string;
  tl_status : option string;
  tl_complete : bool;
  tl_gaps : list string;
  tl_events : list (TimelineEvent * string);      (* with their pages *)
}.

Inductive timeline_error : Type :=
| TimelineStellarUnavailable (message : string)
| PositionNotFoundError.

(** [status?.confirmed && status.block_time ? status.block_time * 1000 : null] *)
Definition blockTimeMs (s : option BlockStatus) : EventTime :=
  match s with
  | Some b =>
      match bs_block_time b with
      | Some t => if bs_confirmed b && negb (t =? 0) then at_ms (t * 1000) else at_null
      | None => at_null
      end
  | None => at_null
  end.

Definition time_of (t : option Z) : EventTime := match t with Some z => at_ms z | None => at_nan end.

Definition event (kind : TimelineKind) (chain : TimelineChain) (hash : string) (at_ : EventTime) : TimelineEvent :=
  {| te_kind := kind; te_chain := chain; te_hash := hash; te_at := at_; te_detail := None |}.
Definition event_with (detail : string) (kind : TimelineKind) (chain : TimelineChain) (hash : string)
    (at_ : EventTime) : TimelineEvent :=
  {| te_kind := kind; te_chain := chain; te_hash := hash; te_at := at_; te_detail := Some detail |}.

(** What the contract's own events show. *)
Definition history_event (e : PositionEventRecord) : TimelineEvent :=
  let at_ := time_of (Date_parse (pe_closedAt e)) in
  match de_kind (pe_event e) with
  | k_deposit => event tk_verified on_stellar (pe_txHash e) at_
  | k_borrow => event tk_borrowed on_stellar (pe_txHash e) at_
  | k_repay | k_repay_full => event tk_repaid on_stellar (pe_txHash e) at_
  | k_liquidate => event_with "by liquidation" tk_repaid on_stellar (pe_txHash e) at_
  end.

Definition borrows_of (history : list PositionEventRecord) : list PositionEventRecord :=
  filter (λ e, de_kind (pe_event e) = k_borrow) history.

Definition owner_of (position : option PositionSummary) (borrows : list PositionEventRecord) : option string :=
  match position with
  | Some p => Some (ps_depositor p)
  | None => match borrows with b :: _ => de_account (pe_event b) | [] => None end
  end.

(** [Math.min(...ledgers)] of at least one *)
Definition min_ledger (borrows : list PositionEventRecord) : Z :=
  match borrows with
  | [] => 0
  | b :: rest => foldl (λ m e, Z.min m (pe_ledger e)) (pe_ledger b) rest
  end.

(** The index of the first output that carries [script]. *)
Definition find_output (script : string) (scripts : list string) : option nat :=
  fst <$> list_find (λ s, s = script) scripts.

Definition gap_old : string :=
  "stellar: this position is older than the Stellar RPC event window; its earlier steps are not shown".
Definition gap_script : string :=
  "bitcoin: no output of this transaction carries the position's script, so its release cannot be looked up".
Definition gap_bitcoin (message : string) : string :=
  "bitcoin: the indexer could not be read, so the release was not checked (" +:+ message +:+ ")".
Definition gap_truncated : string :=
  "stellar: the owner has more operations than one timeline reads; later receive legs may be missing".
Definition gap_operations (message : string) : string :=
  "stellar: the owner's operations could not be read, so receive legs are not shown (" +:+ message +:+ ")".

Section timeline.
Context {W : Type} `{TimelineDeps W}.
Abbreviation M := (io W timeline_error).
Abbreviation steps := (list TimelineEvent * list string)%type.

Definition tl_read {A} (m : W → result string A * W) : M (result string A) := λ w,
  let '(r, w) := m w in (Ok r, w).

(** The lock, then the transaction that spent the locked output. *)
Definition bitcoin_steps (btcTxid : string) (position : option PositionSummary) : M steps :=
  r ← tl_read (tl_bitcoinTx btcTxid);
  match r with
  | Err e => mret ([event tk_btc_lock on_bitcoin btcTxid at_null], [gap_bitcoin e])
  | Ok tx =>
      let lock := event tk_btc_lock on_bitcoin btcTxid (blockTimeMs (tw_status <$> tx)) in
      match tx, position with
      | Some t, Some p =>
          match find_output (ps_p2wshScriptPubkey p) (tw_scripts t) with
          | Some vout =>
              s ← tl_read (tl_outspends btcTxid);
              match s with
              | Err e => mret ([lock], [gap_bitcoin e])
              | Ok spends =>
                  mret (match spends !! vout with
                        | Some spend =>
                            match (if os_spent spend then present (os_txid spend) else None) with
                            | Some txid => ([lock; event tk_released on_bitcoin txid (blockTimeMs (os_status spend))], [])
                            | None => ([lock], [])
                            end
                        | None => ([lock], [])
                        end)
              end
          | None => mret ([lock], [gap_script])
          end
      | _, _ => mret ([lock], [])
      end
  end.

(** What a leg shows: the operation, and the mint of a burn. *)
Definition leg_steps (w : W) (leg : OwnerOperation) : list TimelineEvent :=
  match oo_kind leg with
  | oo_swap =>
      [event_with ("as " +:+ default "another asset" (oo_asset leg)) tk_received on_stellar (oo_txHash leg)
         (time_of (oo_at leg))]
  | oo_burn_to_base_sepolia =>
      event_with "sent to Base Sepolia" tk_received on_stellar (oo_txHash leg) (time_of (oo_at leg)) ::
      match tl_mint (oo_txHash leg) w with
      | Some m => [event_with "on Base Sepolia" tk_received on_base_sepolia (mr_mintHash m) (time_of (mr_at m))]
      | None => []
      end
  | _ => []
  end.

Definition receive_steps (owner : option string) (borrows : list PositionEventRecord) : M steps :=
  match present owner with
  | Some owner =>
      if bool_decide (borrows = []) then mret ([], [])
      else
        r ← tl_read (tl_ownerOperations owner (min_ledger borrows));
        match r with
        | Err e => mret ([], [gap_operations e])
        | Ok (operations, truncated) =>
            legs ← gets (λ w, attributeReceiveLegs operations (map pe_txHash borrows) ≫= leg_steps w);
            mret (legs, if truncated : bool then [gap_truncated] else [])
        end
  | None => mret ([], [])
  end.

Definition computeTimeline (btcTxid : string) : M Timeline :=
  let positionId := toInternalTxid btcTxid in
  rh ← tl_read (tl_history positionId);
  rp ← tl_read (tl_position positionId);
  history ← match rh with Ok h => mret h | Err e => throw (TimelineStellarUnavailable e) end;
  position ← match rp with Ok p => mret p | Err e => throw (TimelineStellarUnavailable e) end;
  if bool_decide (history = []) && bool_decide (position = None) then throw PositionNotFoundError
  else
    let borrows := borrows_of history in
    let owner := owner_of position borrows in
    let old := if existsb (λ e, bool_decide (de_kind (pe_event e) = k_deposit)) history then [] else [gap_old] in
    '(bitcoin_events, bitcoin_gaps) ← bitcoin_steps btcTxid position;
    '(receive_events, receive_gaps) ← receive_steps owner borrows;
    let events := bitcoin_events ++ map history_event history ++ receive_events in
    let gaps := old ++ bitcoin_gaps ++ receive_gaps in
    mret {| tl_btcTxid := btcTxid; tl_positionId := positionId; tl_owner := owner;
            tl_status := ps_status <$> position;
            tl_complete := bool_decide (gaps = []); tl_gaps := gaps;
            tl_events := map (λ e, (e, tl_url (te_chain e) (te_hash e))) (orderTimeline events) |}.
End timeline.

(** The default dependencies. *)
Definition mintFromRelayView (view : option CctpRelayView) : option MintRecord :=
  v ← view;
  if bool_decide (v_kind v = v_arrived) then
    h ← present (v_mintHash v ≫= λ m, m);
    Some {| mr_mintHash := h; mr_at := Date_parse (v_updatedAt v) |}
  else None.

Definition default_ownerOperations {W} `{HorizonEnv W} (decode : string → option Native) (horizonUrl : string)
    (ctx : ReceiveContext) (fromLedger : Z) : io W string (list OwnerOperation * bool) :=
  r ← fetchOwnerOperations horizonUrl (rx_owner ctx) fromLedger OWNER_OPERATION_PAGES;
  mret (omap (λ op, classifyOperation decode op ctx) r.1, r.2).

(** ** The route *)

Inductive TimelineBody : Type :=
| tb_rate_limited (retryAfterSeconds : Z)
| tb_invalid_txid
| tb_lending_not_configured (message : string)
| tb_found (t : Timeline)
| tb_position_not_found
| tb_stellar_unavailable (message : string).

Record TimelineAnswer : Type := { ta_status : Z; ta_retryAfter : option Z; ta_body : TimelineBody }.

Record TimelineRoute (W : Type) : Type := mkTimelineRoute {
  tr_windows : jsmap string Window;
  tr_cache : TtlCache Timeline;
  tr_world : W;
}.
Arguments mkTimelineRoute {W}. Arguments tr_windows {W}. Arguments tr_cache {W}. Arguments tr_world {W}.

Section route.
Context {W : Type} `{TimelineDeps W} (limiter : RateLimitOptions) (notConfiguredReason : option string).

Definition timeline_answer (r : result timeline_error Timeline) : TimelineAnswer :=
  match r with
  | Ok t => {| ta_status := 200; ta_retryAfter := None; ta_body := tb_found t |}
  | Err PositionNotFoundError => {| ta_status := 404; ta_retryAfter := None; ta_body := tb_position_not_found |}
  | Err (TimelineStellarUnavailable m) =>
      {| ta_status := 503; ta_retryAfter := Some UPSTREAM_RETRY_AFTER_SECONDS; ta_body := tb_stellar_unavailable m |}
  end.

(** One request from its arrival to its answer. *)
Definition handle_timeline (client btcTxid : string) (s : TimelineRoute W) : TimelineAnswer * TimelineRoute W :=
  let answer code retry b := {| ta_status := code; ta_retryAfter := retry; ta_body := b |} in
  let '(v, windows) := rateLimit limiter (tl_now (tr_world s)) client (tr_windows s) in
  let s := mkTimelineRoute windows (tr_cache s) (tr_world s) in
  match v with
  | too_many seconds => (answer 429 (Some seconds) (tb_rate_limited seconds), s)
  | next =>
      if negb (is_hex64 btcTxid) then (answer 400 None tb_invalid_txid, s)
      else
        match present notConfiguredReason with
        | Some reason => (answer 503 None (tb_lending_not_configured reason), s)
        | None =>
            let normalized := toLowerCase btcTxid in
            match getOrCompute (tl_now (tr_world s)) normalized 0 (tr_cache s) with
            | (hit t, c) => (timeline_answer (Ok t), mkTimelineRoute windows c (tr_world s))
            | (_, c) =>
                let '(r, w) := computeTimeline normalized (tr_world s) in
                let kept := (λ t, {| computed := t; ttlMs := TIMELINE_TTL_MS |}) <$> r in
                (timeline_answer r,
                 mkTimelineRoute windows (compute_settled 1000 (tl_now w) normalized kept c) w)
            end
        end
  end.
End route.

(** ** The rule for receive legs *)

Definition is_leg (op : OwnerOperation) : bool :=
  match oo_kind op with oo_swap | oo_burn_to_base_sepolia => true | _ => false end.

(** The owner's latest borrow or repayment. *)
Definition last_action (before : list OwnerOperation) : option OwnerOperation :=
  last (filter (λ op, is_leg op = false) before).

(** A leg after these operations belongs to the loan of these borrows: the
    owner's latest action is one of them. *)
Definition belongs (borrowHashes : list string) (before : list OwnerOperation) : bool :=
  match last_action before with
  | Some b => bool_decide (oo_kind b = oo_borrow) && bool_decide (oo_txHash b ∈ borrowHashes)
  | None => false
  end.

Lemma last_action_snoc before op :
  last_action (before ++ [op]) = if is_leg op then last_action before else Some op.
Proof.
  unfold last_action. rewrite filter_app, filter_cons, filter_nil.
  destruct (is_leg op); simpl; [by rewrite app_nil_r|]. by rewrite last_snoc.
Qed.

Lemma omap_fmap_ext {A B C} (f : A → option C) (g : B → option C) (h : A → B) (l : list A) :
  (∀ x, f x = g (h x)) → omap f l = omap g (h <$> l).
Proof.
  intros Hx. induction l as [|x l IH]; [done|]. cbn. rewrite Hx. destruct (g (h x)); [f_equal|]; exact IH.
Qed.

Lemma attribute_from_rule ops hashes before :
  attribute_from (belongs hashes before) ops hashes =
  omap (λ i, op ← ops !! i; if is_leg op && belongs hashes (before ++ take i ops) then Some op else None)
    (seq 0 (length ops)).
Proof.
  revert before. induction ops as [|op ops IH]; intros before; [done|].
  assert (Hrest : attribute_from (belongs hashes (before ++ [op])) ops hashes =
    omap (λ i, op' ← (op :: ops) !! i; if is_leg op' && belongs hashes (before ++ take i (op :: ops)) then Some op' else None)
      (seq 1 (length ops))).
  { rewrite IH, <- fmap_S_seq. apply omap_fmap_ext. intros i. simpl. by rewrite <- app_assoc. }
  cbn [length seq omap list_omap]. rewrite take_0, app_nil_r. simpl ((op :: ops) !! 0%nat).
  assert (Hb : belongs hashes (before ++ [op]) =
    if is_leg op then belongs hashes before
    else bool_decide (oo_kind op = oo_borrow) && bool_decide (oo_txHash op ∈ hashes)).
  { unfold belongs. rewrite last_action_snoc. by destruct (is_leg op). }
  rewrite Hb in Hrest. unfold is_leg in *. simpl. destruct (oo_kind op); simpl in *; rewrite <- ?Hrest; try done;
    by destruct (belongs hashes before).
Qed.

Lemma attributed_is_leg open ops hashes leg : leg ∈ attribute_from open ops hashes → is_leg leg = true.
Proof.
  revert open. induction ops as [|op ops IH]; intros open; simpl; [by intros ?%elem_of_nil|].
  destruct (oo_kind op) eqn:E; [by apply IH..| |]; destruct open; try by apply IH.
  all: intros [->|?]%elem_of_cons; [unfold is_leg; by rewrite E|by eapply IH].
Qed.

(** A swap or burn of the owner is shown under a loan exactly when the
    owner's latest borrow or repayment before it, on any loan, is one of that
    loan's borrows; so no leg is shown under two loans. *)
Theorem receive_legs_follow_the_rule ops hashes :
  attributeReceiveLegs ops hashes =
    omap (λ i, op ← ops !! i; if is_leg op && belongs hashes (take i ops) then Some op else None)
      (seq 0 (length ops)) ∧
  ∀ others i, belongs hashes (take i ops) = true → belongs others (take i ops) = true →
    ∃ hash, hash ∈ hashes ∧ hash ∈ others.
Proof.
  split; [apply (attribute_from_rule ops hashes [])|]. intros others i. unfold belongs.
  destruct (last_action _) as [b|]; [|done]. intros H1 H2. bools. eauto.
Qed.

(** ** Ordering *)

Lemma unique_from_spec seen events :
  NoDup (event_id <$> unique_from seen events) ∧ sublist (unique_from seen events) events ∧
  (∀ e, e ∈ unique_from seen events → event_id e ∉ seen) ∧
  (∀ e, e ∈ events → event_id e ∈ seen ∨ event_id e ∈ event_id <$> unique_from seen events).
Proof.
  revert seen. induction events as [|e events IH]; intros seen; simpl.
  - split_and!; [constructor|done|..]; by intros e ?%elem_of_nil.
  - case_bool_decide as Hs.
    + destruct (IH seen) as (Hn & Hsub & Hnot & Hall). split_and!; [done|by constructor|done|].
      intros e' [->|Hin]%elem_of_cons; auto.
    + destruct (IH (event_id e :: seen)) as (Hn & Hsub & Hnot & Hall). split_and!.
      * rewrite fmap_cons. constructor; [|done]. intros (e' & He & Hin)%list_elem_of_fmap.
        apply (Hnot e' Hin). rewrite <- He. left.
      * by constructor.
      * intros e' [->|Hin]%elem_of_cons; [done|]. specialize (Hnot e' Hin). set_solver.
      * intros e' [->|Hin]%elem_of_cons; [right; left|]. rewrite fmap_cons.
        destruct (Hall e' Hin) as [[->|?]%elem_of_cons|?]; [right; left|by left|right; by right].
Qed.

(** [a] comes no later than [b] in a loan's cycle. *)
Definition no_later (a b : TimelineEvent) : Prop :=
  PHASE (te_kind a) < PHASE (te_kind b) ∨
  (PHASE (te_kind a) = PHASE (te_kind b) ∧
   (compare_times (te_at a) (te_at b) < 0 ∨
    (te_at a = te_at b ∧ RANK (te_kind a) ≤ RANK (te_kind b)))).

Definition known_order (t : EventTime) : Prop := t ≠ at_nan.

Lemma compare_times_zero a b : compare_times a b = 0 → a = b.
Proof. destruct a as [x| |], b as [y| |]; simpl; try done. repeat case_match; intros; bools; try lia. by subst. Qed.

(** The lexicographic reading of the comparison. *)
Lemma compare_events_lex a b :
  compare_events a b ≤ 0 ↔
  let p := PHASE (te_kind a.2) - PHASE (te_kind b.2) in
  let t := compare_times (te_at a.2) (te_at b.2) in
  let r := RANK (te_kind a.2) - RANK (te_kind b.2) in
  p < 0 ∨ (p = 0 ∧ (t < 0 ∨ (t = 0 ∧ (r < 0 ∨ (r = 0 ∧ Z.of_nat a.1 ≤ Z.of_nat b.1))))).
Proof.
  unfold compare_events. destruct (PHASE _ - _ =? 0) eqn:Ep; simpl; bools; [|lia].
  destruct (compare_times _ _ =? 0) eqn:Et; simpl; bools; [|lia].
  destruct (RANK _ - _ =? 0) eqn:Er; simpl; bools; lia.
Qed.

Lemma compare_events_le a b : (compare_events a b <=? 0) = true → no_later a.2 b.2.
Proof.
  intros H%Z.leb_le%compare_events_lex. unfold no_later. simpl in H.
  destruct H as [|[Hp [Ht|[Ht Hr]]]]; [left; lia|right; split; [lia|by left]|].
  right. split; [lia|]. right. split; [by apply compare_times_zero|lia].
Qed.

Lemma compare_times_opp a b :
  known_order a → known_order b → compare_times b a = - compare_times a b.
Proof.
  unfold known_order. destruct a as [x| |], b as [y| |]; simpl; try done. intros _ _.
  repeat case_match; bools; lia.
Qed.

Lemma compare_times_trans a b c :
  known_order a → known_order b → known_order c →
  compare_times a b ≤ 0 → compare_times b c ≤ 0 →
  compare_times a c ≤ 0 ∧ (compare_times a c = 0 → compare_times a b = 0 ∧ compare_times b c = 0).
Proof.
  unfold known_order. destruct a as [x| |], b as [y| |], c as [z| |]; simpl; try done.
  all: intros _ _ _; repeat case_match; bools; try lia; by split_and!.
Qed.

(** The comparison orders events whose times are known or missing. *)
Lemma compare_events_orders :
  let le a b := compare_events a b <=? 0 in let P (a : nat * TimelineEvent) := known_order (te_at a.2) in
  (∀ a b, P a → P b → le a b = true ∨ le b a = true) ∧
  (∀ a b c, P a → P b → P c → le a b = true → le b c = true → le a c = true).
Proof.
  simpl. split.
  - intros a b Ha Hb. rewrite !Z.leb_le, !compare_events_lex. simpl. rewrite (compare_times_opp _ _ Ha Hb). lia.
  - intros a b c Ha Hb Hc. rewrite !Z.leb_le, !compare_events_lex. simpl.
    pose proof (compare_times_trans _ _ _ Ha Hb Hc) as Ht.
    set (x := compare_times (te_at a.2) (te_at b.2)) in *. set (y := compare_times (te_at b.2) (te_at c.2)) in *.
    set (z := compare_times (te_at a.2) (te_at c.2)) in *. clearbody x y z.
    intros [H1|[H1 H1']] [H2|[H2 H2']]; [left; lia..|]. right. split; [lia|].
    destruct Ht as [Hz Hz0]; [lia..|]. destruct (decide (z = 0)) as [E|]; [|left; lia].
    destruct (Hz0 E) as [-> ->]. right. split; [done|]. lia.
Qed.

(** The events of a timeline: one for each kind and hash, none invented and
    none dropped, and, when their times parse, in the order of the cycle. *)
Lemma orderTimeline_spec events :
  NoDup (event_id <$> orderTimeline events) ∧
  (∀ e, e ∈ orderTimeline events → e ∈ events) ∧
  (∀ e, e ∈ events → event_id e ∈ event_id <$> orderTimeline events) ∧
  ((∀ e, e ∈ orderTimeline events → known_order (te_at e)) → StronglySorted no_later (orderTimeline events)).
Proof.
  destruct (unique_from_spec [] events) as (Hn & Hsub & _ & Hall). unfold orderTimeline.
  set (u := unique_from [] events) in *. set (le := λ a b, compare_events a b <=? 0).
  assert (Hu : (imap pair u).*2 = u).
  { apply list_eq. intros i. rewrite list_lookup_fmap, list_lookup_imap. by destruct (u !! i). }
  assert (Hperm : (sort_with le (imap pair u)).*2 ≡ₚ u) by (rewrite sort_with_perm; by rewrite Hu).
  split_and!.
  - by rewrite Hperm.
  - intros e. rewrite Hperm. intros He. by eapply elem_of_sublist.
  - intros e He. rewrite Hperm. by destruct (Hall e He) as [Hin%elem_of_nil|].
  - intros Hk. destruct compare_events_orders as [Htot Htr].
    pose proof (sort_with_orders_on le (λ a, known_order (te_at a.2)) (imap pair u) Htot Htr) as Hs.
    assert (Forall (λ a, known_order (te_at a.2)) (imap pair u)) as HF.
    { apply Forall_forall. intros a Ha. apply Hk. rewrite Hperm, <- Hu. by apply list_elem_of_fmap_2. }
    specialize (Hs HF). clear -Hs. induction Hs as [|a l _ IH Ha]; simpl; [constructor|]. constructor; [done|].
    apply Forall_forall. intros e (b & -> & Hb)%list_elem_of_fmap. apply compare_events_le.
    by apply (proj1 (Forall_forall _ _) Ha).
Qed.

(** ** What a timeline shows *)

Section facts.
Context {W : Type} `{TimelineDeps W}.
Implicit Types (w : W) (e : TimelineEvent).

(** The transaction that spent the output the position locked. *)
Definition spent_by (btcTxid : string) (position : option PositionSummary) (hash : string) : Prop :=
  ∃ p tx vout spends spend, position = Some p ∧ gave (tl_bitcoinTx btcTxid) (Some tx) ∧
    tw_scripts tx !! vout = Some (ps_p2wshScriptPubkey p) ∧ gave (tl_outspends btcTxid) spends ∧
    spends !! vout = Some spend ∧ os_spent spend = true ∧ os_txid spend = Some hash.

(** A leg of the owner's that belongs to one of these borrows. *)
Definition leg_of (position : option PositionSummary) (borrows : list PositionEventRecord) (truncated : bool)
    (leg : OwnerOperation) : Prop :=
  ∃ owner ops, owner_of position borrows = Some owner ∧
    gave (tl_ownerOperations owner (min_ledger borrows)) (ops, truncated) ∧
    leg ∈ attributeReceiveLegs ops (map pe_txHash borrows).

(** Why an event is in the timeline. *)
Definition happened (btcTxid : string) (history : list PositionEventRecord) (position : option PositionSummary) e : Prop :=
  match te_kind e with
  | tk_btc_lock => te_hash e = btcTxid
  | tk_verified | tk_borrowed | tk_repaid => ∃ h, h ∈ history ∧ e = history_event h
  | tk_released => spent_by btcTxid position (te_hash e)
  | tk_received => ∃ leg truncated, leg_of position (borrows_of history) truncated leg ∧
      ((te_chain e = on_stellar ∧ te_hash e = oo_txHash leg) ∨
       (te_chain e = on_base_sepolia ∧ oo_kind leg = oo_burn_to_base_sepolia ∧
        ∃ w m, tl_mint (oo_txHash leg) w = Some m ∧ te_hash e = mr_mintHash m))
  end.

Lemma tl_read_gave {A} (m : W → result string A * W) w a w' : m w = (Ok a, w') → gave m a.
Proof. intros Hm. exists w. by rewrite Hm. Qed.

Lemma lock_output_spec script scripts vout :
  find_output script scripts = Some vout → scripts !! vout = Some script.
Proof.
  unfold find_output. destruct (list_find _ scripts) as [[i s]|] eqn:E; [|done]. intros [= <-].
  by apply list_find_Some in E as (? & -> & _).
Qed.

(** *** Bitcoin *)

(** Both reads were made, and a release that is there is among the events. *)
Definition bitcoin_checked (btcTxid : string) (position : option PositionSummary) (events : list TimelineEvent) : Prop :=
  ∃ tx, gave (tl_bitcoinTx btcTxid) tx ∧
    ∀ t p, tx = Some t → position = Some p →
      ∃ vout spends, tw_scripts t !! vout = Some (ps_p2wshScriptPubkey p) ∧ gave (tl_outspends btcTxid) spends ∧
        ∀ spend hash, spends !! vout = Some spend → os_spent spend = true → os_txid spend = Some hash → hash ≠ "" →
          (tk_released, hash) ∈ event_id <$> events.

(** The lock, and the release if the locked output is spent. *)
Definition bitcoin_shows (btcTxid : string) (position : option PositionSummary) (events : list TimelineEvent)
    (gaps : list string) : Prop :=
  (tk_btc_lock, btcTxid) ∈ event_id <$> events ∧
  (∀ e, e ∈ events → (te_kind e = tk_btc_lock ∧ te_hash e = btcTxid) ∨
     (te_kind e = tk_released ∧ spent_by btcTxid position (te_hash e))) ∧
  (∀ e, e ∈ events → known_order (te_at e)) ∧
  (gaps = [] → bitcoin_checked btcTxid position events).

Lemma blockTimeMs_known s : known_order (blockTimeMs s).
Proof. unfold known_order, blockTimeMs. by repeat case_match. Qed.

Lemma lock_shown btcTxid position t gaps :
  known_order t →
  (gaps = [] → bitcoin_checked btcTxid position [event tk_btc_lock on_bitcoin btcTxid t]) →
  bitcoin_shows btcTxid position [event tk_btc_lock on_bitcoin btcTxid t] gaps.
Proof.
  intros Ht Hg. split_and!; [left| | |exact Hg].
  - intros e ->%list_elem_of_singleton. by left.
  - by intros e ->%list_elem_of_singleton.
Qed.

(** The spending transaction an output's record names. *)
Definition spender (spend : option Outspend) : option (string * EventTime) :=
  s ← spend;
  h ← (if os_spent s then present (os_txid s) else None);
  Some (h, blockTimeMs (os_status s)).

Lemma spender_shown btcTxid p tx vout spends t :
  gave (tl_bitcoinTx btcTxid) (Some tx) → tw_scripts tx !! vout = Some (ps_p2wshScriptPubkey p) →
  gave (tl_outspends btcTxid) spends → known_order t →
  bitcoin_shows btcTxid (Some p)
    (event tk_btc_lock on_bitcoin btcTxid t ::
     match spender (spends !! vout) with Some (h, at_) => [event tk_released on_bitcoin h at_] | None => [] end) [].
Proof.
  intros Htx Hv Hsp Ht. destruct (spender (spends !! vout)) as [[h at_]|] eqn:E; simpl.
  - unfold spender in E. destruct (spends !! vout) as [s|] eqn:Es; [|done]. simpl in E.
    destruct (os_spent s) eqn:Eo; [|done]. destruct (present (os_txid s)) as [h'|] eqn:Ep; [|done].
    apply present_some in Ep as [Ep _]. simplify_eq/=. split_and!; [left|..].
    + intros e [->| ->%list_elem_of_singleton]%elem_of_cons; [by left|right]. split; [done|]. by exists p, tx, vout, spends, s.
    + intros e [->| ->%list_elem_of_singleton]%elem_of_cons; [done|]. apply blockTimeMs_known.
    + intros _. exists (Some tx). split; [done|]. intros ? ? [= <-] [= <-]. exists vout, spends.
      split_and!; [done..|]. intros s' h' Hs' _ Hh _. simplify_eq. right. left.
  - apply lock_shown; [done|]. intros _. exists (Some tx). split; [done|]. intros ? ? [= <-] [= <-].
    exists vout, spends. split_and!; [done..|]. intros s h Hs Ho Hh Hne. unfold spender in E.
    rewrite Hs in E. simpl in E. rewrite Ho in E. by rewrite (proj2 (present_some _ h)) in E.
Qed.

Lemma bitcoin_steps_spec btcTxid position w r w' :
  bitcoin_steps btcTxid position w = (r, w') →
  ∃ events gaps, r = Ok (events, gaps) ∧ bitcoin_shows btcTxid position events gaps.
Proof.
  unfold bitcoin_steps, tl_read, mbind, io_bind, mret, io_ret.
  destruct (tl_bitcoinTx btcTxid w) as [[tx|er] w1] eqn:Eb.
  2: { intros [= <- <-]. eexists _, _. split; [done|]. by apply lock_shown. }
  apply tl_read_gave in Eb. pose proof (blockTimeMs_known (tw_status <$> tx)) as Ht.
  destruct tx as [t|]; [destruct position as [p|]|].
  - destruct (find_output _ _) as [vout|] eqn:Ev.
    2: { intros [= <- <-]. eexists _, _. split; [done|]. by apply lock_shown. }
    apply lock_output_spec in Ev. destruct (tl_outspends btcTxid w1) as [[spends|er] w2] eqn:Eo.
    2: { intros [= <- <-]. eexists _, _. split; [done|]. by apply lock_shown. }
    apply tl_read_gave in Eo. intros [= <- <-]. pose proof (spender_shown btcTxid p t vout spends _ Eb Ev Eo Ht) as Hs.
    eexists _, _. split; [|exact Hs]. unfold spender. destruct (spends !! vout) as [s|]; [|done]. simpl.
    destruct (os_spent s); [|done]. by destruct (present (os_txid s)).
  - intros [= <- <-]. eexists _, _. split; [done|]. apply lock_shown; [done|]. intros _. by exists (Some t).
  - intros [= <- <-]. eexists _, _. split; [done|]. apply lock_shown; [done|]. intros _. by exists None.
Qed.

(** *** The owner's legs *)

Definition receive_shows (position : option PositionSummary) (borrows : list PositionEventRecord)
    (events : list TimelineEvent) (gaps : list string) : Prop :=
  (∀ e, e ∈ events → te_kind e = tk_received ∧ ∃ leg truncated, leg_of position borrows truncated leg ∧
     ((te_chain e = on_stellar ∧ te_hash e = oo_txHash leg) ∨
      (te_chain e = on_base_sepolia ∧ oo_kind leg = oo_burn_to_base_sepolia ∧
       ∃ w m, tl_mint (oo_txHash leg) w = Some m ∧ te_hash e = mr_mintHash m))) ∧
  (gaps = [] → ∀ owner, owner_of position borrows = Some owner → owner ≠ "" → borrows ≠ [] →
     ∃ ops, gave (tl_ownerOperations owner (min_ledger borrows)) (ops, false) ∧
       ∀ leg, leg ∈ attributeReceiveLegs ops (map pe_txHash borrows) →
         (tk_received, oo_txHash leg) ∈ event_id <$> events).

Lemma leg_steps_shown w leg e :
  e ∈ leg_steps w leg → te_kind e = tk_received ∧
    ((te_chain e = on_stellar ∧ te_hash e = oo_txHash leg) ∨
     (te_chain e = on_base_sepolia ∧ oo_kind leg = oo_burn_to_base_sepolia ∧
      ∃ w m, tl_mint (oo_txHash leg) w = Some m ∧ te_hash e = mr_mintHash m)).
Proof.
  unfold leg_steps. destruct (oo_kind leg) eqn:Ek; [by intros ?%elem_of_nil..| |].
  - intros ->%list_elem_of_singleton. by split; [|left].
  - intros [->|He]%elem_of_cons; [by split; [|left]|].
    destruct (tl_mint (oo_txHash leg) w) as [m|] eqn:Em; [|by apply elem_of_nil in He].
    apply list_elem_of_singleton in He as ->. split; [done|]. right. split_and!; [done..|]. eauto.
Qed.

Lemma leg_steps_has w leg :
  is_leg leg = true → (tk_received, oo_txHash leg) ∈ event_id <$> leg_steps w leg.
Proof. unfold is_leg, leg_steps. destruct (oo_kind leg); [done..|left|left]. Qed.

Lemma receive_steps_spec position borrows w r w' :
  receive_steps (owner_of position borrows) borrows w = (r, w') →
  ∃ events gaps, r = Ok (events, gaps) ∧ receive_shows position borrows events gaps.
Proof.
  unfold receive_steps, tl_read, gets, mbind, io_bind, mret, io_ret.
  assert (Hnone : ∀ gaps, (gaps = [] → ∀ owner, owner_of position borrows = Some owner → owner ≠ "" → borrows ≠ [] → False) →
    receive_shows position borrows [] gaps).
  { intros gaps Hg. split; [by intros e ?%elem_of_nil|]. intros Hn owner H1 H2 H3. by destruct (Hg Hn owner). }
  destruct (present (owner_of position borrows)) as [owner|] eqn:Eo.
  2: { intros [= <- <-]. eexists _, _. split; [done|]. apply Hnone. intros _ owner Ho Hne _.
       by rewrite (proj2 (present_some _ owner)) in Eo. }
  apply present_some in Eo as [Eo _]. case_bool_decide as Eb.
  { intros [= <- <-]. eexists _, _. split; [done|]. by apply Hnone. }
  destruct (tl_ownerOperations owner _ w) as [[[ops truncated]|er] w1] eqn:Et.
  2: { intros [= <- <-]. eexists _, _. split; [done|]. by apply Hnone. }
  apply tl_read_gave in Et. intros [= <- <-]. eexists _, _. split; [done|]. split.
  - intros e (leg & He & Hl)%list_elem_of_bind. destruct (leg_steps_shown _ _ _ He) as [? Hsh]. split; [done|].
    exists leg, truncated. split; [by exists owner, ops|done].
  - destruct truncated; [done|]. intros _ owner' Eo' _ _. simplify_eq. exists ops. split; [done|].
    intros leg Hl. pose proof (leg_steps_has w1 leg (attributed_is_leg _ _ _ _ Hl)) as Hh.
    apply list_elem_of_fmap in Hh as (e & Hid & He). rewrite Hid. apply list_elem_of_fmap_2.
    apply list_elem_of_bind. eauto.
Qed.

(** *** The whole timeline *)

Lemma history_event_kind h :
  te_kind (history_event h) = tk_verified ∨ te_kind (history_event h) = tk_borrowed ∨ te_kind (history_event h) = tk_repaid.
Proof. unfold history_event. destruct (de_kind _); auto. Qed.

(** The parts a timeline is made of. *)
Lemma computeTimeline_run btcTxid w t w' :
  computeTimeline btcTxid w = (Ok t, w') →
  ∃ history position bitcoin bitcoin_gaps legs leg_gaps,
    gave (tl_history (toInternalTxid btcTxid)) history ∧ gave (tl_position (toInternalTxid btcTxid)) position ∧
    (history ≠ [] ∨ position ≠ None) ∧
    bitcoin_shows btcTxid position bitcoin bitcoin_gaps ∧ receive_shows position (borrows_of history) legs leg_gaps ∧
    map fst (tl_events t) = orderTimeline (bitcoin ++ map history_event history ++ legs) ∧
    (∀ e url, (e, url) ∈ tl_events t → url = tl_url (te_chain e) (te_hash e)) ∧
    (tl_complete t = true → bitcoin_gaps = [] ∧ leg_gaps = [] ∧ ∃ h, h ∈ history ∧ de_kind (pe_event h) = k_deposit).
Proof.
  unfold computeTimeline. unfold tl_read at 1 2. unfold mbind, io_bind.
  destruct (tl_history _ w) as [[history|er] w1] eqn:Eh; simpl; [|by destruct (tl_position _ w1)].
  destruct (tl_position _ w1) as [[position|er] w2] eqn:Ep; simpl; [|done].
  apply tl_read_gave in Eh, Ep. destruct (bool_decide (history = []) && bool_decide (position = None)) eqn:En; [done|].
  destruct (bitcoin_steps btcTxid position w2) as [rb w3] eqn:Eb.
  destruct (bitcoin_steps_spec _ _ _ _ _ Eb) as (bitcoin & bitcoin_gaps & -> & Hb).
  destruct (receive_steps _ _ w3) as [rl w4] eqn:El.
  destruct (receive_steps_spec _ _ _ _ _ El) as (legs & leg_gaps & -> & Hl).
  unfold mret, io_ret. intros [= <- <-]. exists history, position, bitcoin, bitcoin_gaps, legs, leg_gaps. simpl.
  split_and!; try done.
  - destruct history; [right|by left]. intros ->. by rewrite !bool_decide_eq_true_2 in En.
  - rewrite map_map. by apply map_id.
  - intros e url (e' & [= -> ->] & _)%list_elem_of_fmap. done.
  - intros Hc%bool_decide_eq_true. apply app_eq_nil in Hc as [Hold [-> ->]%app_eq_nil]. split_and!; [done..|].
    destruct (existsb _ history) eqn:Ex; [|done]. apply existsb_exists in Ex as (h & Hin%list_elem_of_In & Hd).
    exists h. by bools.
Qed.

End facts.

(** ** Reading an account from Horizon *)

Section horizon_facts.
Context {W : Type} `{HorizonEnv W} (horizonUrl owner : string) (ops : list HorizonOperation) (before : string → nat).

(** Horizon serves the account's operations after the cursor, oldest first, and
    an operation's paging token is the cursor after it. *)
Hypothesis served : ∀ cursor w, ∃ w', hz_fetch (operations_url horizonUrl owner cursor) w =
  (Ok (200, Ok (Some (take 200 (drop (before cursor) ops)))), w').
Hypothesis tokens : ∀ i op, ops !! i = Some op → before (hz_paging_token op) = S i.

(** The pages hold the next operations in order, none twice and none left
    out, and the walk says that it stopped early when it filled every page. *)
Lemma fetch_pages_spec pages cursor acc w :
  ∃ w', fetch_pages horizonUrl owner pages cursor acc w =
    (Ok (acc ++ take (200 * pages) (drop (before cursor) ops),
         bool_decide (200 * pages ≤ length (drop (before cursor) ops))%nat), w').
Proof using served tokens.
  revert cursor acc w. induction pages as [|pages IH]; intros cursor acc w.
  - exists w. rewrite take_0, app_nil_r. by rewrite bool_decide_eq_true_2 by lia.
  - remember (200 * S pages)%nat as k eqn:Hk. destruct (served cursor w) as [w1 Hs]. cbn [fetch_pages]. unfold mbind, io_bind, lift, mret, io_ret. rewrite Hs. cbn.
    set (rest := drop (before cursor) ops). set (n := length rest).
    assert (Hlen : length (take 200 rest) = Nat.min 200 n) by apply length_take.
    destruct (zlen (take 200 rest) <? HORIZON_PAGE) eqn:E; unfold zlen, HORIZON_PAGE in E; rewrite Hlen in E; bools.
    + exists w1. rewrite bool_decide_eq_false_2 by (fold n; lia). by rewrite !(take_ge rest) by (fold n; lia).
    + destruct (last (take 200 rest)) as [op|] eqn:El.
      2: { apply last_None in El. assert (length (take 200 rest) = 0%nat) by (by rewrite El). lia. }
      rewrite last_lookup, Hlen in El. replace (Init.Nat.pred (200 `min` n)) with 199%nat in El by lia.
      rewrite lookup_take_lt in El by lia. subst rest. rewrite lookup_drop in El.
      destruct (IH (hz_paging_token op) (acc ++ take 200 (drop (before cursor) ops)) w1) as [w2 Hw]. exists w2.
      rewrite Hw, (tokens _ _ El). replace (S (before cursor + 199)) with (before cursor + 200)%nat by lia.
      rewrite <- (drop_drop ops), <- app_assoc. f_equal. f_equal. f_equal.
      * f_equal. rewrite take_take_drop. f_equal. lia.
      * apply bool_decide_ext. rewrite length_drop. fold n. lia.
Qed.
End horizon_facts.

(** The mint shown for a burn is the arrived transfer's, at the time its record
    last changed. *)
Lemma mint_of_record r m :
  mintFromRelayView (Some (toRelayView r)) = Some m →
  0 ≤ (civil_of_days (updatedAt r / DAY_MS)).1.1 < 10000 →
  state r = arrived ∧ mintHash r = Some (mr_mintHash m) ∧ mr_at m = Some (updatedAt r).
Proof.
  unfold mintFromRelayView, mbind, option_bind. case_bool_decide as Hk; [|done].
  unfold toRelayView in *. simpl in *. rewrite decide_True by done.
  destruct (present (mintHash r)) as [h|] eqn:Ep; [|done]. intros [= <-] Hy. simpl.
  apply present_some in Ep as [-> _]. rewrite Date_parse_toISOString by done. split_and!; [|done|done].
  destruct (isRetrying r); [by destruct (truthy _)|]. by destruct (state r).
Qed.

(** ** A loan taken as EURC and released *)

Module Demo.
Definition script : string := "0020aa".
Definition recorded_event (kind : PositionEventKind) (hash : string) (l : Z) (closedAt : string) : PositionEventRecord :=
  {| pe_event := {| de_kind := kind; de_txid := "aa"; de_account := Some "GUSER"; de_amount := None |};
     pe_txHash := hash; pe_ledger := l; pe_closedAt := closedAt |}.
Definition operation (kind : OwnerOperationKind) (hash : string) (asset : option string) : OwnerOperation :=
  {| oo_kind := kind; oo_txHash := hash; oo_at := Date_parse "2026-10-24T12:30:00Z"; oo_asset := asset |}.

#[local] Instance demo_deps : TimelineDeps () := {|
  tl_history _ w := (Ok [recorded_event k_deposit "d1" 10 "2026-10-24T12:26:52Z";
                         recorded_event k_borrow "b1" 11 "2026-10-24T12:28:00Z";
                         recorded_event k_repay_full "r1" 20 "2026-10-25T12:28:00Z"], w);
  tl_position _ w := (Ok (Some {| ps_depositor := "GUSER"; ps_status := "Closed"; ps_p2wshScriptPubkey := script |}), w);
  tl_bitcoinTx _ w := (Ok (Some {| tw_status := {| bs_confirmed := true; bs_block_time := Some 1792844759 |};
                                   tw_scripts := ["0014bb"; script] |}), w);
  tl_outspends _ w := (Ok [{| os_spent := false; os_txid := None; os_status := None |};
                           {| os_spent := true; os_txid := Some "cc"; os_status := None |}], w);
  tl_ownerOperations _ _ w := (Ok ([operation oo_borrow "b1" None; operation oo_swap "s1" (Some "EURC");
                                    operation oo_repay "r1" None; operation oo_swap "s2" (Some "XLM")], false), w);
  tl_mint _ _ := None;
  tl_url _ hash := hash;
  tl_now _ := 0;
|}.

Definition demo_timeline : Timeline :=
  match (computeTimeline "aa" ()).1 with
  | Ok t => t
  | Err _ => {| tl_btcTxid := ""; tl_positionId := ""; tl_owner := None; tl_status := None; tl_complete := false;
                tl_gaps := []; tl_events := [] |}
  end.

Example demo_events :
  (map (λ e, (te_kind e.1, te_hash e.1, te_detail e.1)) (tl_events demo_timeline), tl_complete demo_timeline) =
    ([(tk_btc_lock, "aa", None); (tk_verified, "d1", None); (tk_borrowed, "b1", None);
      (tk_received, "s1", Some "as EURC"); (tk_repaid, "r1", None); (tk_released, "cc", None)], true).
Proof. vm_compute. reflexivity. Qed.

End Demo.
