(* ===== verification/VaultWatcher.v ===== *)
(** * The vault watcher and its metrics ([relayer/src/vault-watcher/])

    The event store ([event-store.ts]) and the cursor ([cursor-store.ts]), the
    events seeded at boot ([genesis-events.ts]), the poll cycle ([poller.ts]),
    and what is published from the stored rows: the value in the vault
    ([metrics.ts]) and the retention of its depositors ([retention.ts]). What
    [scValToNative] makes of an event's value has the type the code gives it. *)

From S2P Require Import Prelude JsData JsMap JsDate RpcCursor RepayWatcher LendArchive.
From Stdlib Require Import Sorting.Sorted.

(** ** Events *)

Inductive VaultEventKind : Type := ve_deposit | ve_withdraw.

#[global] Instance VaultEventKind_eq_dec : EqDecision VaultEventKind.
Proof. solve_decision. Defined.

Record VaultEvent : Type := {
  vv_cursor : string;
  vv_kind : VaultEventKind;
  vv_depositor : string;
  vv_amountStroops : string;
  vv_ledger : Z;
  vv_txHash : string;
  vv_closeTime : Z;
}.

Record VaultValue : Type := {
  vn_depositor : option string;
  vn_withdrawer : option string;
  vn_amounts : option (list Z);
  vn_amounts_withdrawn : option (list Z);
}.

Record RawVaultEvent : Type := {
  rw_id : string;
  rw_topic : list Native;
  rw_value : VaultValue;
  rw_ledger : Z;
  rw_closedAt : string;
  rw_txHash : string;
}.

Definition CONTRACT_TAG : string := "DeFindexVault".

Record DecodedVaultEvent : Type := {
  dv_kind : option VaultEventKind;
  dv_depositor : option string;
  dv_amountStroops : option string;
}.

Definition other_event : DecodedVaultEvent := {| dv_kind := None; dv_depositor := None; dv_amountStroops := None |}.

Definition kind_of_tag (t : option Native) : option VaultEventKind :=
  match t with
  | Some (n_string s) =>
      if decide (s = "deposit") then Some ve_deposit else if decide (s = "withdraw") then Some ve_withdraw else None
  | _ => None
  end.

Definition decodeVaultEvent (topic : list Native) (value : VaultValue) : DecodedVaultEvent :=
  match topic !! 0%nat with
  | Some (n_string tag) =>
      if decide (tag = CONTRACT_TAG) then
        match kind_of_tag (topic !! 1%nat) with
        | Some kind =>
            let depositor := match kind with ve_deposit => vn_depositor value | ve_withdraw => vn_withdrawer value end in
            let amounts := default [] (match kind with ve_deposit => vn_amounts value
                                       | ve_withdraw => vn_amounts_withdrawn value end) in
            let total := foldl Z.add 0 amounts in
            {| dv_kind := Some kind; dv_depositor := depositor;
               dv_amountStroops := _ ← present depositor; Some (z_to_string total) |}
        | None => other_event
        end
      else other_event
  | _ => other_event
  end.

(** ** The store: one row per event, [UNIQUE (tx_hash, depositor, kind, amount)] *)

Abbreviation row_key := (string * string * VaultEventKind * string)%type.

Definition key_of (e : VaultEvent) : row_key := (vv_txHash e, vv_depositor e, vv_kind e, vv_amountStroops e).

Record VaultStore : Type := mkVaultStore {
  vs_cursor : option string;
  vs_rows : list VaultEvent;                     (* by id *)
}.

Definition empty_vault : VaultStore := mkVaultStore None [].

(** [INSERT OR IGNORE] *)
Definition insertVaultEvent (e : VaultEvent) (st : VaultStore) : VaultStore :=
  if bool_decide (key_of e ∈ map key_of (vs_rows st)) then st
  else mkVaultStore (vs_cursor st) (vs_rows st ++ [e]).

(** [ORDER BY ledger_close_time] *)
Definition readAllVaultEvents (st : VaultStore) : list VaultEvent := sort_by vv_closeTime (vs_rows st).

(** ** The outside: Soroban RPC, and whether the disk takes a write *)

Class VaultEnv (W : Type) : Type := {
  vw_getEvents : events_request → W → result string (list RawVaultEvent * string) * W;
  vw_getLatestLedger : W → result string Z * W;
  vw_disk : W → result string () * W;
}.

Record vault_watcher (W : Type) : Type := mkVault { rows : VaultStore; around : W }.
Arguments mkVault {W}. Arguments rows {W}. Arguments around {W}.

(** *** Events that predate the watcher *)

Definition TESTNET_PASSPHRASE : string := "Test SDF Network ; September 2015".
Definition MAINNET_PASSPHRASE : string := "Public Global Stellar Network ; September 2015".

Definition GENESIS_VAULT_ID : string := "CBMHGL7GGGHODEDDJ5H2LKJEFHJWBRSQUKOXMC4FKOFDZK5HBKW6PI2S".
Definition GENESIS_VAULT_EVENTS : list VaultEvent := [
  {| vv_cursor := "backfill:horizon:tx-e80b9bab14"; vv_kind := ve_deposit;
     vv_depositor := "GB2BSYQS3FRJ5LZSSIDF3ZCSG5MKWJT5SZ3OZO4QRCAMCR357YAVPTWT";
     vv_amountStroops := "200000000"; vv_ledger := 4473923;
     vv_txHash := "e80b9bab145824fab252846b1c95da9d57cfb93cbdeab7ae7a91d4105450bf61";
     vv_closeTime := 1788393202 |}].

Definition MAINNET_GENESIS_VAULT_ID : string := "CDODNWQY54F4WS7AZ5Z3AAIWRLKBFUMXHNOFEM4H3UNCTMFK4RF2A6GU".
Definition MAINNET_GENESIS_VAULT_EVENTS : list VaultEvent := [
  {| vv_cursor := "backfill:horizon:tx-a157bddff9"; vv_kind := ve_deposit;
     vv_depositor := "GBQRR7SXDZFKQCUHFAIVYEDVQTD6DTWC2OKMNS63ETF2ORG6KJZUO7NH";
     vv_amountStroops := "200000000"; vv_ledger := 64706364;
     vv_txHash := "a157bddff915ecbfea9bab72dd0ed0fd5d324bf9b3e571b323521e281e51357d";
     vv_closeTime := 1790817602 |}].

Definition GENESIS : list (string * string * list VaultEvent) := [
  (GENESIS_VAULT_ID, TESTNET_PASSPHRASE, GENESIS_VAULT_EVENTS);
  (MAINNET_GENESIS_VAULT_ID, MAINNET_PASSPHRASE, MAINNET_GENESIS_VAULT_EVENTS)].

Definition genesis_of (vaultId networkPassphrase : string) : list VaultEvent :=
  match list_find (λ g, g.1.1 = trim vaultId ∧ g.1.2 = trim networkPassphrase) GENESIS with
  | Some (_, g) => g.2
  | None => []
  end.

Section watcher.
Context {W : Type} `{VaultEnv W}.
Abbreviation M := (io (vault_watcher W) string).

Definition ask_rpc {A} (f : W → result string A * W) : M A := λ s,
  let '(r, w) := f (around s) in (r, mkVault (rows s) w).

Definition on_rows (f : VaultStore → VaultStore) : M () := modify (λ s, mkVault (f (rows s)) (around s)).

(** [persist], by default [insertVaultEvent]: a full disk throws. A row whose
    time is NaN ([None]) is one the table refuses ([NOT NULL], under
    [OR IGNORE]). *)
Definition persist (row : option VaultEvent) : M () :=
  ask_rpc vw_disk;;
  match row with Some e => on_rows (insertVaultEvent e) | None => mret () end.

(** A failed write is logged and the next one tried: how many were written. *)
Fixpoint seed_all (events : list VaultEvent) : M Z :=
  match events with
  | [] => mret 0
  | e :: events =>
      r ← settle (persist (Some e));
      n ← seed_all events;
      mret (if is_ok r then 1 + n else n)
  end.

Definition seedGenesisVaultEvents (vaultId networkPassphrase : string) : M Z :=
  seed_all (genesis_of vaultId networkPassphrase).

(** *** One poll *)

(** What is persisted of an event, if it is one to keep: its row, or [None]
    where the close time does not parse. *)
Definition vault_row (cursor : string) (e : RawVaultEvent) : option (option VaultEvent) :=
  let d := decodeVaultEvent (rw_topic e) (rw_value e) in
  kind ← dv_kind d;
  depositor ← present (dv_depositor d);
  amount ← dv_amountStroops d;
  Some (ms ← Date_parse (rw_closedAt e);
        Some {| vv_cursor := cursor; vv_kind := kind; vv_depositor := depositor; vv_amountStroops := amount;
                vv_ledger := rw_ledger e; vv_txHash := rw_txHash e; vv_closeTime := ms / 1000 |}).

(** [true]: handled, nothing failed. *)
Definition handle_event (cursor : string) (e : RawVaultEvent) : M bool :=
  match vault_row cursor e with
  | Some row => r ← settle (persist row); mret (is_ok r)
  | None => mret true
  end.

(** The loop over a batch: [true] when every event was handled. *)
Fixpoint persist_all (cursor : string) (events : list RawVaultEvent) : M bool :=
  match events with
  | [] => mret true
  | e :: events =>
      ok ← handle_event cursor e;
      rest ← persist_all cursor events;
      mret (ok && rest)
  end.

Definition writeCursor (cursor : string) : M () :=
  lift (assertValidCursor cursor);; on_rows (λ st, mkVaultStore (Some cursor) (vs_rows st)).

Definition runVaultPollCycle : M () :=
  persistedCursor ← gets (λ s, present (vs_cursor (rows s)));
  response ← match persistedCursor with
             | Some c => ask_rpc (vw_getEvents (from_cursor c))
             | None => l ← ask_rpc vw_getLatestLedger; ask_rpc (vw_getEvents (from_ledger l))
             end;
  handled ← persist_all response.2 response.1;
  if handled : bool then writeCursor response.2 else mret ().

(** A round of the loop: an error is logged. *)
Definition poll_round (s : vault_watcher W) : vault_watcher W := (runVaultPollCycle s).2.
End watcher.

(** ** The value in the vault *)

Record TvlSummary : Type := { netDepositedStroops : Z; uniqueDepositors : Z }.

(** The loop's two variables; [BigInt] throws on a string that is no integer. *)
Definition tvl_step (acc : result string (Z * list string)) (e : VaultEvent) : result string (Z * list string) :=
  '(net, depositors) ← acc;
  amount ← of_option (BigInt (vv_amountStroops e)) "SyntaxError";
  match vv_kind e with
  | ve_deposit =>
      mret (net + amount, if bool_decide (vv_depositor e ∈ depositors) then depositors
                          else depositors ++ [vv_depositor e])
  | ve_withdraw => mret (net - amount, depositors)
  end.

Definition computeTvlSummary (events : list VaultEvent) : result string TvlSummary :=
  '(net, depositors) ← foldl tvl_step (Ok (0, [])) events;
  mret {| netDepositedStroops := net; uniqueDepositors := zlen depositors |}.

(** ** Retention *)

Definition THIRTY_DAYS_SECONDS : Z := 30 * 24 * 60 * 60.

Record CohortRetention : Type := { cohort : string; depositors : Z; eligible : Z; retained : Z }.

Definition utcDay (unixSeconds : Z) : string := String.substring 0 10 (toISOString (unixSeconds * 1000)).

Definition first_deposit (events : list VaultEvent) : option Z :=
  match filter (λ e, vv_kind e = ve_deposit) events with
  | [] => None
  | e :: rest => Some (foldl (λ m e, Z.min m (vv_closeTime e)) (vv_closeTime e) rest)
  end.

(** What a depositor still held at the cutoff. *)
Fixpoint net_at (cutoff : Z) (events : list VaultEvent) (net : Z) : result string Z :=
  match events with
  | [] => mret net
  | e :: events =>
      if cutoff <? vv_closeTime e then net_at cutoff events net
      else
        amount ← of_option (BigInt (vv_amountStroops e)) "SyntaxError";
        net_at cutoff events (match vv_kind e with ve_deposit => net + amount | ve_withdraw => net - amount end)
  end.

(** One depositor's part in the cohorts. *)
Definition add_depositor (nowSeconds : Z) (cohorts : jsmap string CohortRetention) (events : list VaultEvent) :
    result string (jsmap string CohortRetention) :=
  match first_deposit events with
  | None => mret cohorts
  | Some first =>
      let day := utcDay first in
      let cutoff := first + THIRTY_DAYS_SECONDS in
      let c := default {| cohort := day; depositors := 0; eligible := 0; retained := 0 |} (map_get day cohorts) in
      if nowSeconds <? cutoff
      then mret (map_set day {| cohort := cohort c; depositors := depositors c + 1; eligible := eligible c;
                                retained := retained c |} cohorts)
      else
        net ← net_at cutoff events 0;
        mret (map_set day {| cohort := cohort c; depositors := depositors c + 1; eligible := eligible c + 1;
                             retained := if 0 <? net then retained c + 1 else retained c |} cohorts)
  end.

(** [a.cohort.localeCompare(b.cohort)], on days of one form. *)
Definition cohort_order (a b : CohortRetention) : bool := String.leb (cohort a) (cohort b).

Definition computeRetentionCohorts (events : list VaultEvent) (now : Z) : result string (list CohortRetention) :=
  let byDepositor := group_by vv_depositor events in
  cohorts ← foldl (λ acc evs, cohorts ← acc; add_depositor (now / 1000) cohorts evs) (Ok []) (map_values byDepositor);
  mret (sort_with cohort_order (map_values cohorts)).

(** ** What the RPC promises

    The contract's events are a growing log; an answer is the slice from where
    it was asked to its cursor. *)

Definition ledger_at (l : Z) (es : list RawVaultEvent) : nat := length (filter (λ e, rw_ledger e < l) es).

Class VaultLaws (W : Type) `{VaultEnv W} : Type := {
  vlog : W → list RawVaultEvent;
  vpos : string → nat;
  v_le (w w' : W) : Prop := vlog w `prefix_of` vlog w';
  vault_getEvents_le q w : v_le w (vw_getEvents q w).2;
  vault_getLatestLedger_le w : v_le w (vw_getLatestLedger w).2;
  vault_disk_le w : v_le w (vw_disk w).2;
  vault_getEvents_slice q w evs c w' :
    vw_getEvents q w = (Ok (evs, c), w') →
    let p := match q with from_cursor c0 => vpos c0 | from_ledger l => ledger_at l (vlog w') end in
    (p ≤ vpos c ≤ length (vlog w'))%nat ∧ evs = take (vpos c - p) (drop p (vlog w'));
}.

(** ** Lemmas *)

Section facts.
Context {W : Type} `{VL : VaultLaws W} (vaultId passphrase : string).
Implicit Types (s : vault_watcher W) (e : RawVaultEvent) (r : VaultEvent).

Definition stored (k : row_key) s : Prop := k ∈ map key_of (vs_rows (rows s)).

(** The key an event is stored under, whatever the batch's cursor. *)
Definition vault_key e : option row_key := o ← vault_row "" e; key_of <$> o.

Lemma vault_row_key c e r : vault_row c e = Some (Some r) → vault_key e = Some (key_of r).
Proof.
  unfold vault_key, vault_row, mbind, option_bind. intros Hr. split_in Hr. by destruct (Date_parse _); simplify_eq/=.
Qed.

Lemma vault_key_row c e k : vault_key e = Some k → ∃ r, vault_row c e = Some (Some r) ∧ key_of r = k.
Proof.
  unfold vault_key, vault_row, mbind, option_bind. intros Hk. split_in Hk.
  destruct (Date_parse _); simplify_eq/=. eauto.
Qed.

(** Where a row comes from. *)
Definition origin (w : W) r : Prop :=
  r ∈ genesis_of vaultId passphrase ∨ ∃ e c, e ∈ vlog w ∧ vault_row c e = Some (Some r).

Record vault_inv s : Prop := {
  vi_cursor : ∀ c, vs_cursor (rows s) = Some c → isValidCursor c = true ∧ (vpos c ≤ length (vlog (around s)))%nat;
  vi_keys : NoDup (map key_of (vs_rows (rows s)));
  vi_rows : ∀ r, r ∈ vs_rows (rows s) → origin (around s) r;
}.

(** What every call but [writeCursor] may do: add rows. *)
Definition adds_rows s s' : Prop :=
  v_le (around s) (around s') ∧ vs_cursor (rows s') = vs_cursor (rows s) ∧
  vs_rows (rows s) `prefix_of` vs_rows (rows s').

#[local] Instance v_le_preorder : PreOrder v_le.
Proof. split; unfold v_le; [intros w; reflexivity|]. intros w1 w2 w3 ? ?. by etrans. Qed.

#[local] Instance adds_rows_preorder : PreOrder adds_rows.
Proof.
  split; [intros s; split_and!; reflexivity|]. intros s1 s2 s3 (? & E1 & ?) (? & E2 & ?).
  split_and!; [by etrans|congruence|by etrans].
Qed.

Lemma stored_mono k s s' : adds_rows s s' → stored k s → stored k s'.
Proof.
  unfold stored. intros (_ & _ & [suf ->]) Hk. rewrite map_app. apply elem_of_app. by left.
Qed.

Lemma insert_rows r st :
  (vs_rows (insertVaultEvent r st) = vs_rows st) ∨
  ((key_of r ∉ map key_of (vs_rows st)) ∧ vs_rows (insertVaultEvent r st) = vs_rows st ++ [r]).
Proof. unfold insertVaultEvent. case_bool_decide; [by left|by right]. Qed.

Lemma persist_adds o : preserves adds_rows (persist o).
Proof.
  unfold persist. apply preserves_bind; [typeclasses eauto| |].
  - intros s. unfold ask_rpc. pose proof (vault_disk_le (around s)) as Hle.
    destruct (vw_disk (around s)) as [r w]. split_and!; [exact Hle|reflexivity|reflexivity].
  - intros []. destruct o as [r|]; [|solve [preserve]].
    intros s. unfold on_rows, modify. simpl. split_and!; simpl; [reflexivity|unfold insertVaultEvent; by case_bool_decide|].
    destruct (insert_rows r (rows s)) as [->|[_ ->]]; [done|by exists [r]].
Qed.

#[local] Hint Resolve persist_adds : preserves.

Lemma handle_event_adds c e : preserves adds_rows (handle_event c e).
Proof. unfold handle_event. preserve. Qed.

#[local] Hint Resolve handle_event_adds : preserves.

Lemma persist_all_adds c es : preserves adds_rows (persist_all c es).
Proof. induction es as [|e es IH]; simpl; preserve. Qed.

Lemma seed_all_adds es : preserves adds_rows (seed_all es).
Proof. induction es as [|r es IH]; simpl; preserve. Qed.

(** A write that succeeded is in the table. *)
Lemma persist_stored r s s' : persist (Some r) s = (Ok (), s') → stored (key_of r) s'.
Proof.
  unfold persist, ask_rpc, on_rows, modify, mbind, io_bind. destruct (vw_disk _) as [[u|] w]; [|done].
  intros [= <-]. unfold stored. simpl. unfold insertVaultEvent. case_bool_decide as Hin; [done|].
  simpl. rewrite map_app. apply elem_of_app. right. left.
Qed.

Lemma persist_all_stored c es s s' e k :
  persist_all c es s = (Ok true, s') → e ∈ es → vault_key e = Some k → stored k s'.
Proof.
  revert s. induction es as [|e' es IH]; intros s Hp He Hk; [by apply elem_of_nil in He|].
  cbn [persist_all] in Hp. unfold mbind at 1, io_bind at 1 in Hp.
  destruct (handle_event c e' s) as [[ok|] s1] eqn:E1; [|done].
  unfold mbind at 1, io_bind at 1 in Hp. pose proof (persist_all_adds c es s1) as Hadd.
  destruct (persist_all c es s1) as [[rest|] s2] eqn:E2; [|done]. injection Hp as Hok <-.
  apply andb_true_iff in Hok as [-> ->]. apply elem_of_cons in He as [->|He]; [|by eapply IH].
  apply (stored_mono _ s1); [done|]. apply (vault_key_row c) in Hk as (r & Hr & <-).
  unfold handle_event in E1. rewrite Hr in E1. unfold mbind, io_bind, settle in E1.
  destruct (persist (Some r) s) as [[[]|] s3] eqn:E3; simpl in E1; [|done].
  injection E1 as <-. exact (persist_stored _ _ _ E3).
Qed.

(** *** The invariant *)

Lemma origin_le w w' r : v_le w w' → origin w r → origin w' r.
Proof.
  intros [suf Hsuf] [?|(e & c & He & ?)]; [by left|right]. exists e, c. split; [|done].
  rewrite Hsuf. apply elem_of_app. by left.
Qed.

Lemma inv_outside s w : v_le (around s) w → vault_inv s → vault_inv (mkVault (rows s) w).
Proof.
  intros Hle [Hc Hk Hr]. pose proof Hle as [suf Hsuf]. split; simpl; [|done|intros r Hin; exact (origin_le _ _ _ Hle (Hr r Hin))].
  intros c ?%Hc. rewrite Hsuf, length_app. split; [naive_solver|lia].
Qed.

Lemma persist_inv o s :
  (∀ r w, o = Some r → v_le (around s) w → origin w r) → vault_inv s → vault_inv (persist o s).2.
Proof.
  intros Ho Hi. unfold persist, ask_rpc, mbind, io_bind. pose proof (vault_disk_le (around s)) as Hle.
  destruct (vw_disk (around s)) as [[[]|] w]; simpl in *; [|by apply inv_outside].
  pose proof (inv_outside _ _ Hle Hi) as Hi1. destruct o as [r|]; [|done].
  destruct Hi1 as [Hc Hk Hr]. unfold on_rows, modify. split; simpl in *.
  - unfold insertVaultEvent. by case_bool_decide.
  - destruct (insert_rows r (rows s)) as [->|[Hnew ->]]; [done|]. rewrite map_app.
    apply NoDup_app. split_and!; [done| |apply NoDup_singleton].
    intros k Hin ->%list_elem_of_singleton. done.
  - intros r'. destruct (insert_rows r (rows s)) as [->|[_ ->]]; [apply Hr|].
    intros [?| ->%list_elem_of_singleton]%elem_of_app; [by apply Hr|]. by apply (Ho r w).
Qed.

Lemma seed_inv es s : (∀ r, r ∈ es → r ∈ genesis_of vaultId passphrase) → vault_inv s → vault_inv (seed_all es s).2.
Proof.
  revert s. induction es as [|r es IH]; intros s Hes Hi; [done|]. cbn [seed_all].
  unfold mbind at 1, io_bind at 1, settle.
  assert (vault_inv (persist (Some r) s).2) as Hi1.
  { apply persist_inv; [|done]. intros r' w [= <-] _. left. apply Hes. left. }
  destruct (persist (Some r) s) as [x s1]. unfold mbind, io_bind. simpl in Hi1.
  specialize (IH s1 ltac:(intros; apply Hes; by right) Hi1). by destruct (seed_all es s1) as [[|] s2].
Qed.

Lemma persist_all_inv c es s : (∀ e, e ∈ es → e ∈ vlog (around s)) → vault_inv s → vault_inv (persist_all c es s).2.
Proof.
  revert s. induction es as [|e es IH]; intros s Hes Hi; [done|]. cbn [persist_all].
  unfold mbind at 1, io_bind at 1.
  assert (vault_inv (handle_event c e s).2) as Hi1.
  { unfold handle_event. destruct (vault_row c e) as [o|] eqn:Er; [|done]. unfold mbind, io_bind, settle.
    pose proof (persist_inv o s) as Hp. destruct (persist o s) as [x s1]. apply Hp; [|done].
    intros r w -> [suf Hw]. right. exists e, c. split; [|done]. rewrite Hw. apply elem_of_app. left. apply Hes. left. }
  destruct (handle_event_adds c e s) as [Hle _].
  destruct (handle_event c e s) as [[ok|] s1]; [|done]. simpl in *. unfold mbind, io_bind.
  assert (∀ e, e ∈ es → e ∈ vlog (around s1)) as Hes1.
  { intros e' He'. destruct Hle as [suf ->]. apply elem_of_app. left. apply Hes. by right. }
  specialize (IH s1 Hes1 Hi1). by destruct (persist_all c es s1) as [[|] s2].
Qed.

(** *** A cycle *)

(** Every event between two positions of the log is stored. *)
Definition has_events (lo hi : nat) s : Prop :=
  ∀ i e k, (lo ≤ i < hi)%nat → vlog (around s) !! i = Some e → vault_key e = Some k → stored k s.

(** Where a cycle starts to read: its cursor, or the tip on its first run. *)
Definition starts_at s (p : nat) (w : W) : Prop :=
  match vs_cursor (rows s) with
  | Some c => p = vpos c
  | None => ∃ l w0, (vw_getLatestLedger w0).1 = Ok l ∧ p = ledger_at l (vlog w)
  end.

(** What a cycle does besides adding rows: nothing, or move the cursor past
    events that are all stored. *)
Definition moves s s' : Prop :=
  vs_cursor (rows s') = vs_cursor (rows s) ∨
  ∃ c p w, vs_cursor (rows s') = Some c ∧ starts_at s p w ∧ v_le w (around s') ∧
    (p ≤ vpos c ≤ length (vlog (around s')))%nat ∧ has_events p (vpos c) s'.

Definition cycled s s' : Prop :=
  vault_inv s' ∧ v_le (around s) (around s') ∧ vs_rows (rows s) `prefix_of` vs_rows (rows s') ∧ moves s s'.

Lemma cycled_adds s s' : vault_inv s' → adds_rows s s' → cycled s s'.
Proof. intros Hi (? & ? & ?). split_and!; [done..|by left]. Qed.

Lemma lookup_prefix (w w' : W) i e :
  v_le w w' → (i < length (vlog w))%nat → vlog w' !! i = Some e → vlog w !! i = Some e.
Proof. intros [suf ->] Hi. by rewrite lookup_app_l. Qed.

(** From the answer of the RPC to the end of the cycle. *)
Definition finish (evs : list RawVaultEvent) (c : string) : io (vault_watcher W) string () :=
  handled ← persist_all c evs; if handled : bool then writeCursor c else mret ().

Lemma finish_cycled s w q w0 evs c p :
  vault_inv s → v_le (around s) w → vw_getEvents q w0 = (Ok (evs, c), w) → starts_at s p w →
  p = (match q with from_cursor c0 => vpos c0 | from_ledger l => ledger_at l (vlog w) end) →
  cycled s (finish evs c (mkVault (rows s) w)).2.
Proof.
  intros Hi Hle Hg Hst Hp. apply vault_getEvents_slice in Hg as [Hpos Hevs]. rewrite <- Hp in *.
  set (s1 := mkVault (rows s) w). assert (adds_rows s s1) as H01 by (split_and!; [exact Hle|reflexivity|reflexivity]).
  assert (vault_inv (persist_all c evs s1).2) as Hi2.
  { apply persist_all_inv; [|by apply inv_outside]. intros e. rewrite Hevs. intros He%elem_of_take. 
    destruct He as (i & He & _). rewrite lookup_drop in He. by eapply list_elem_of_lookup_2. }
  pose proof (persist_all_adds c evs s1) as H12. pose proof (adds_rows_preorder.(@PreOrder_Transitive _ _) _ _ _ H01 H12) as H02.
  unfold finish, mbind, io_bind. destruct (persist_all c evs s1) as [[[]|e] s2] eqn:E; simpl in *;
    [|by apply cycled_adds..].
  unfold writeCursor, mbind, io_bind, lift. destruct (assertValidCursor c) as [u|] eqn:Ec; [|by apply cycled_adds].
  apply assertValidCursor_ok in Ec. destruct H02 as (Hle2 & Hc2 & Hrows). destruct H12 as (Hle12 & _).
  pose proof Hle12 as [suf Hlog]. change (around s1) with w in Hlog. assert (vpos c ≤ length (vlog (around s2)))%nat as Hlen by (rewrite Hlog, length_app; lia).
  unfold on_rows, modify. simpl. split_and!; simpl; [|done|done|right].
  - destruct Hi2. split; simpl; [by intros ? [= <-]|done|done].
  - exists c, p, w. split_and!; simpl; [done|done|done|lia|done|].
    intros i e k Hi' He Hk. unfold stored. simpl. eapply (persist_all_stored c evs s1 s2 e k E); [|done].
    rewrite Hevs. apply elem_of_take. exists (i - p)%nat. split; [|lia]. rewrite lookup_drop.
    replace (p + (i - p))%nat with i by lia. eapply lookup_prefix; [exact Hle12|simpl; lia|done].
Qed.

Lemma cycle_cycled s : vault_inv s → cycled s (poll_round s).
Proof.
  intros Hi. assert (cycled s s) as Hrefl by (apply cycled_adds; [done|reflexivity]).
  assert (∀ w, v_le (around s) w → cycled s (mkVault (rows s) w)) as Hout.
  { intros w Hle. apply cycled_adds; [by apply inv_outside|]. split_and!; [exact Hle|reflexivity|reflexivity]. }
  unfold poll_round, runVaultPollCycle. unfold mbind at 1, io_bind at 1, gets.
  destruct (present (vs_cursor (rows s))) as [c0|] eqn:Ep.
  - apply present_some in Ep as [Ec _]. unfold mbind at 1, io_bind at 1, ask_rpc.
    pose proof (vault_getEvents_le (from_cursor c0) (around s)) as Hle.
    destruct (vw_getEvents (from_cursor c0) (around s)) as [[[evs c]|e] w] eqn:Eg; simpl in Hle; [|by apply Hout].
    apply (finish_cycled s w (from_cursor c0) (around s) evs c (vpos c0)); try done. unfold starts_at. by rewrite Ec.
  - assert (vs_cursor (rows s) = None) as Ec.
    { destruct (vs_cursor (rows s)) as [c|] eqn:E; [|done]. destruct (vi_cursor s Hi c E) as [Hv _].
      unfold present in Ep. case_bool_decide; [by subst|done]. }
    unfold mbind at 1, io_bind at 1. unfold mbind at 1, io_bind at 1, ask_rpc at 1.
    pose proof (vault_getLatestLedger_le (around s)) as Hle1.
    destruct (vw_getLatestLedger (around s)) as [[l|e] w1] eqn:El; simpl in Hle1; [|by apply Hout].
    unfold ask_rpc. simpl. pose proof (vault_getEvents_le (from_ledger l) w1) as Hle2.
    destruct (vw_getEvents (from_ledger l) w1) as [[[evs c]|e] w] eqn:Eg; simpl in Hle2; [|apply Hout; by etrans].
    apply (finish_cycled s w (from_ledger l) w1 evs c (ledger_at l (vlog w))); try done; [by etrans|].
    unfold starts_at. rewrite Ec. exists l, (around s). by rewrite El.
Qed.

(** *** A run: boots, polls, and whatever the world does meanwhile *)

Inductive vault_step s : vault_watcher W → Prop :=
| vault_boot : vault_step s (seedGenesisVaultEvents vaultId passphrase s).2
| vault_poll : vault_step s (poll_round s)
| vault_world w : v_le (around s) w → vault_step s (mkVault (rows s) w).

Lemma step_cycled s s' : vault_step s s' → vault_inv s → cycled s s'.
Proof.
  intros [| |w Hle] Hi; [|by apply cycle_cycled|].
  - apply cycled_adds; [by apply seed_inv|apply seed_all_adds].
  - apply cycled_adds; [by apply inv_outside|]. split_and!; [exact Hle|reflexivity|reflexivity].
Qed.

Lemma vault_inv_start w : vault_inv (mkVault empty_vault w).
Proof. split; simpl; [done|constructor|by intros r Hr%elem_of_nil]. Qed.

Lemma reachable_vault_inv s s' : rtc vault_step s s' → vault_inv s → vault_inv s'.
Proof. induction 1 as [|s1 s2 s3 H12 _ IH]; intros Hi; [done|]. by apply IH, (step_cycled s1). Qed.

(** The cursor has passed stored events only, since it was at [lo]. *)
Definition caught_up (lo : nat) s : Prop :=
  ∃ c, vs_cursor (rows s) = Some c ∧ (lo ≤ vpos c)%nat ∧ has_events lo (vpos c) s.

Lemma caught_up_step lo s s' : vault_step s s' → vault_inv s → caught_up lo s → caught_up lo s'.
Proof.
  intros Hstep Hi (c & Hc & Hlo & Hev). destruct (step_cycled _ _ Hstep Hi) as (_ & Hle & [suf Hrows] & Hm).
  assert (has_events lo (vpos c) s') as Hev'.
  { intros i e k Hb He Hk. unfold stored. rewrite Hrows, map_app. apply elem_of_app. left.
    eapply Hev; [done| |done]. eapply lookup_prefix; [exact Hle| |done].
    destruct (vi_cursor s Hi c Hc). lia. }
  destruct Hm as [E|(c' & p & w & Hc' & Hst & _ & Hp & Hev2)]; [exists c; rewrite E; by split_and!|].
  unfold starts_at in Hst. rewrite Hc in Hst. subst p. exists c'. split_and!; [done|lia|].
  intros i e k Hb. destruct (decide (i < vpos c)%nat); [apply Hev'|apply Hev2]; lia.
Qed.

Lemma caught_up_steps lo s s' : rtc vault_step s s' → vault_inv s → caught_up lo s → caught_up lo s'.
Proof.
  induction 1 as [|s1 s2 s3 H12 _ IH]; intros Hi Hc; [done|].
  apply IH; [by apply (step_cycled s1)|by eapply caught_up_step].
Qed.

(** *** What the rows add up to *)

Definition amount_of r : Z := default 0 (BigInt (vv_amountStroops r)).
Definition signed r : Z := match vv_kind r with ve_deposit => amount_of r | ve_withdraw => - amount_of r end.
Definition sum_signed (l : list VaultEvent) : Z := foldr (λ r acc, signed r + acc) 0 l.

Definition readable r : Prop := is_Some (BigInt (vv_amountStroops r)).

Lemma amount_read r : readable r → BigInt (vv_amountStroops r) = Some (amount_of r).
Proof. intros [a Ha]. unfold amount_of. by rewrite Ha. Qed.

Lemma sum_signed_app l1 l2 : sum_signed (l1 ++ l2) = sum_signed l1 + sum_signed l2.
Proof. induction l1 as [|r l1 IH]; simpl; lia. Qed.

Lemma sum_signed_perm l1 l2 : l1 ≡ₚ l2 → sum_signed l1 = sum_signed l2.
Proof. induction 1; simpl; lia. Qed.

Lemma origin_readable w r : origin w r → readable r.
Proof.
  intros [Hr|(e & c & _ & Hr)].
  - unfold genesis_of in Hr. destruct (list_find _ GENESIS) as [[i g]|] eqn:E; [|by apply elem_of_nil in Hr].
    apply list_find_Some in E as (Hg & _). apply list_elem_of_lookup_2 in Hg.
    repeat (apply elem_of_cons in Hg as [->|Hg]); [..|by apply elem_of_nil in Hg];
      apply list_elem_of_singleton in Hr as ->; unfold readable; vm_compute; by eexists.
  - unfold vault_row, mbind, option_bind in Hr. split_in Hr. destruct (Date_parse _); simplify_eq/=.
    unfold readable. simpl. enough (∃ total, s0 = z_to_string total) as [total ->] by (by rewrite BigInt_z_to_string_any).
    revert Heqo1. unfold decodeVaultEvent, other_event, mbind, option_bind.
    repeat case_match; simpl; intros; simplify_eq; eauto.
Qed.

(** Who has deposited. *)
Definition depositors_are (ds : list string) (l : list VaultEvent) : Prop :=
  NoDup ds ∧ ∀ d, d ∈ ds ↔ ∃ r, r ∈ l ∧ vv_kind r = ve_deposit ∧ vv_depositor r = d.

Lemma tvl_fold l : Forall readable l → ∃ ds, foldl tvl_step (Ok (0, [])) l = Ok (sum_signed l, ds) ∧ depositors_are ds l.
Proof.
  induction l as [|r l IH] using rev_ind; intros Hl.
  { exists []. split; [done|]. split; [constructor|]. intros d. split; [by intros ?%elem_of_nil|].
    intros (r & ?%elem_of_nil & _). done. }
  apply Forall_app in Hl as [Hl [Hr _]%Forall_cons]. destruct (IH Hl) as (ds & E & Hnd & Hds).
  rewrite foldl_app, E. simpl. unfold mbind, result_bind. rewrite (amount_read r Hr). simpl.
  rewrite sum_signed_app. simpl. unfold signed, depositors_are. setoid_rewrite elem_of_app. setoid_rewrite list_elem_of_singleton.
  destruct (vv_kind r) eqn:Ek.
  - case_bool_decide as Hin.
    + exists ds. split; [do 2 f_equal; lia|]. split; [done|]. intros d. rewrite Hds. naive_solver.
    + exists (ds ++ [vv_depositor r]). split; [do 2 f_equal; lia|]. split.
      * apply NoDup_app. split_and!; [done| |apply NoDup_singleton]. by intros d Hd ->%list_elem_of_singleton.
      * intros d. rewrite elem_of_app, list_elem_of_singleton, Hds. naive_solver.
  - exists ds. split; [do 2 f_equal; lia|]. split; [done|]. intros d. rewrite Hds. naive_solver congruence.
Qed.

Lemma computeTvlSummary_ok l : Forall readable l → ∃ t ds, computeTvlSummary l = Ok t ∧
  netDepositedStroops t = sum_signed l ∧ depositors_are ds l ∧ uniqueDepositors t = zlen ds.
Proof.
  intros Hl. destruct (tvl_fold l Hl) as (ds & E & Hds). unfold computeTvlSummary. rewrite E.
  eexists _, ds. split_and!; [done|done|done|done].
Qed.

(** *** Properties *)

End facts.

(** ** Retention, counted depositor by depositor *)

Section retention.
Implicit Types (g events : list VaultEvent) (day : string) (gs : list (list VaultEvent)).

(** The depositor of these events joined on [day], reached the mark, and held
    a positive balance at it. *)
Definition joined day g : bool := bool_decide (utcDay <$> first_deposit g = Some day).
Definition reached_mark (nowSeconds : Z) g : bool :=
  match first_deposit g with Some f => f + THIRTY_DAYS_SECONDS <=? nowSeconds | None => false end.
Definition held_at_mark g : bool :=
  match first_deposit g with
  | Some f => 0 <? sum_signed (filter (λ e, vv_closeTime e ≤ f + THIRTY_DAYS_SECONDS) g)
  | None => false
  end.

Definition tally (nowSeconds : Z) day gs : CohortRetention := {|
  cohort := day;
  depositors := count_if (joined day) gs;
  eligible := count_if (λ g, joined day g && reached_mark nowSeconds g) gs;
  retained := count_if (λ g, joined day g && reached_mark nowSeconds g && held_at_mark g) gs |}.

(** The events of each depositor. *)
Definition per_depositor events : list (list VaultEvent) :=
  map (λ d, filter (λ e, vv_depositor e = d) events) (remove_dups (map vv_depositor events)).

Lemma net_at_sum cutoff g n :
  Forall readable g → net_at cutoff g n = Ok (n + sum_signed (filter (λ e, vv_closeTime e ≤ cutoff) g)).
Proof.
  intros Hg. revert n. induction Hg as [|e g He Hg IH]; intros n; cbn [net_at filter]; [by rewrite Z.add_0_r|].
  rewrite filter_cons. destruct (cutoff <? vv_closeTime e) eqn:E; bools.
  - rewrite decide_False by lia. apply IH.
  - rewrite decide_True by lia. unfold mbind, result_bind. rewrite (amount_read e He). simpl. rewrite IH.
    unfold signed. f_equal. destruct (vv_kind e); lia.
Qed.

(** The map after some depositors: one entry per day someone joined. *)
Definition tallies (nowSeconds : Z) gs (m : jsmap string CohortRetention) : Prop :=
  map_wf m ∧ ∀ day, map_get day m = if 0 <? count_if (joined day) gs then Some (tally nowSeconds day gs) else None.

Lemma tally_snoc nowSeconds day gs g :
  tally nowSeconds day (gs ++ [g]) = {|
    cohort := day;
    depositors := count_if (joined day) gs + (if joined day g then 1 else 0);
    eligible := count_if (λ g, joined day g && reached_mark nowSeconds g) gs +
      (if joined day g && reached_mark nowSeconds g then 1 else 0);
    retained := count_if (λ g, joined day g && reached_mark nowSeconds g && held_at_mark g) gs +
      (if joined day g && reached_mark nowSeconds g && held_at_mark g then 1 else 0) |}.
Proof. unfold tally. by rewrite !count_if_snoc. Qed.

(** No one of an empty day is in its other counts either. *)
Lemma tally_empty nowSeconds day gs : count_if (joined day) gs = 0 →
  tally nowSeconds day gs = {| cohort := day; depositors := 0; eligible := 0; retained := 0 |}.
Proof.
  intros H. assert (∀ p, count_if (λ g, joined day g && p g) gs = 0) as Hp.
  { intros p. pose proof (count_if_nonneg (λ g, joined day g && p g) gs). enough (count_if (λ g, joined day g && p g) gs ≤ count_if (joined day) gs) by lia.
    clear. induction gs as [|g gs IH] using rev_ind; [done|]. rewrite !count_if_snoc.
    destruct (joined day g), (p g); simpl; lia. }
  unfold tally. f_equal; [done|apply Hp|]. rewrite <- (Hp (λ g, reached_mark nowSeconds g && held_at_mark g)).
  apply count_if_ext. intros g _. by rewrite andb_assoc.
Qed.

Lemma add_depositor_tallies nowSeconds gs g m :
  Forall readable g → tallies nowSeconds gs m →
  ∃ m', add_depositor nowSeconds m g = Ok m' ∧ tallies nowSeconds (gs ++ [g]) m'.
Proof.
  intros Hg [Hwf Hm]. unfold add_depositor. destruct (first_deposit g) as [first|] eqn:Ef.
  2: { exists m. split; [done|]. split; [done|]. intros day. rewrite count_if_snoc, tally_snoc, Hm.
       unfold joined. rewrite Ef. simpl. rewrite !Z.add_0_r. done. }
  set (day0 := utcDay first).
  set (c := default _ (map_get day0 m)).
  assert (c = tally nowSeconds day0 gs) as Hc.
  { subst c. rewrite Hm. destruct (0 <? count_if (joined day0) gs) eqn:E; [done|]. bools.
    symmetry. apply tally_empty. pose proof (count_if_nonneg (joined day0) gs). lia. }
  assert (∀ c', c' = tally nowSeconds day0 (gs ++ [g]) → tallies nowSeconds (gs ++ [g]) (map_set day0 c' m)) as Hset.
  { intros c' ->. split; [by apply map_set_wf|]. intros day. rewrite map_get_set, count_if_snoc.
    destruct (decide (day = day0)) as [->|Hne].
    - assert (joined day0 g = true) as -> by (unfold joined; rewrite Ef; by apply bool_decide_eq_true).
      pose proof (count_if_nonneg (joined day0) gs). destruct (0 <? _) eqn:E; bools; [done|lia].
    - assert (joined day g = false) as Hj.
      { unfold joined. rewrite Ef. apply bool_decide_eq_false. simpl. intros [= <-]. done. }
      rewrite Hm, tally_snoc, Hj. simpl. by rewrite !Z.add_0_r. }
  assert (joined day0 g = true) as Hj by (unfold joined; rewrite Ef; by apply bool_decide_eq_true).
  destruct (nowSeconds <? first + THIRTY_DAYS_SECONDS) eqn:En; bools.
  - eexists. split; [done|]. apply Hset. rewrite tally_snoc, Hc, Hj.
    assert (reached_mark nowSeconds g = false) as -> by (unfold reached_mark; rewrite Ef; apply Z.leb_gt; lia).
    simpl. by rewrite !Z.add_0_r.
  - unfold mbind, result_bind. rewrite (net_at_sum _ _ _ Hg). eexists. split; [done|]. apply Hset.
    rewrite tally_snoc, Hc, Hj.
    assert (reached_mark nowSeconds g = true) as -> by (unfold reached_mark; rewrite Ef; apply Z.leb_le; lia).
    unfold held_at_mark. rewrite Ef, Z.add_0_l. simpl. f_equal. by destruct (0 <? _); rewrite ?Z.add_0_r.
Qed.

Lemma cohorts_fold nowSeconds gs :
  Forall (Forall readable) gs →
  ∃ m, foldl (λ acc evs, cohorts ← acc; add_depositor nowSeconds cohorts evs) (Ok []) gs = Ok m ∧
    tallies nowSeconds gs m.
Proof.
  induction gs as [|g gs IH] using rev_ind; intros Hgs.
  - exists []. split; [done|]. split; [constructor|done].
  - apply Forall_app in Hgs as [Hgs [Hg _]%Forall_cons]. destruct (IH Hgs) as (m & E & Hm).
    destruct (add_depositor_tallies nowSeconds gs g m Hg Hm) as (m' & E' & Hm').
    exists m'. split; [|done]. rewrite foldl_app, E. done.
Qed.

Lemma group_values events : map_values (group_by vv_depositor events) ≡ₚ per_depositor events.
Proof.
  unfold per_depositor, map_values. pose proof (group_by_wf vv_depositor events) as Hwf.
  assert ((group_by vv_depositor events).*2 =
    map (λ d, filter (λ e, vv_depositor e = d) events) (map_keys (group_by vv_depositor events))) as ->.
  { unfold map_keys. rewrite <- list_fmap_compose. apply list_fmap_ext. intros i [k xs] Hi.
    apply list_elem_of_lookup_2 in Hi. by apply group_by_elem in Hi as [-> _]. }
  apply fmap_Permutation, NoDup_Permutation; [done|apply NoDup_remove_dups|].
  intros d. by rewrite group_by_keys, elem_of_remove_dups.
Qed.

(** Retention counts depositors, each once, on the day of their first
    deposit: a cohort is listed exactly when someone joined that day, with how
    many did, how many of those have reached their own 30-day mark, and how
    many of these still held a positive balance at it; cohorts are listed in
    order of their days. *)
Theorem retention_counts_depositors events now :
  Forall readable events →
  ∃ cs, computeRetentionCohorts events now = Ok cs ∧
    StronglySorted (λ a b, String.leb (cohort a) (cohort b) = true) cs ∧ NoDup (map cohort cs) ∧
    ∀ c, c ∈ cs ↔ c = tally (now / 1000) (cohort c) (per_depositor events) ∧ 0 < depositors c.
Proof.
  intros Hr. destruct (cohorts_fold (now / 1000) (map_values (group_by vv_depositor events))) as (m & E & Hwf & Hm).
  { rewrite Forall_forall. intros xs Hin. apply list_elem_of_fmap in Hin as ([k xs'] & -> & Hin).
    apply group_by_elem in Hin as [-> _]. rewrite Forall_forall in Hr |- *.
    intros r [_ Hin]%list_elem_of_filter. by apply Hr. }
  unfold computeRetentionCohorts. rewrite E.
  assert (∀ day, map_get day m = if 0 <? count_if (joined day) (per_depositor events)
    then Some (tally (now / 1000) day (per_depositor events)) else None) as Hper.
  { intros day. rewrite Hm. unfold tally. by rewrite !(count_if_perm _ _ _ (group_values events)). }
  assert (∀ k c, (k, c) ∈ m → cohort c = k) as Hkey.
  { intros k c Hin%map_elem_get; [|done]. rewrite Hm in Hin. split_in Hin. done. }
  assert (map cohort (map_values m) = map_keys m) as Hkeys.
  { unfold map_values, map_keys. rewrite <- list_fmap_compose. apply list_fmap_ext. intros i [k c] Hi.
    apply list_elem_of_lookup_2 in Hi. by apply Hkey. }
  eexists. split; [done|]. split_and!.
  - apply sort_with_orders; unfold cohort_order; [intros x y; apply String.leb_total|intros x y z; apply leb_trans].
  - rewrite sort_with_perm. by rewrite Hkeys.
  - intros c. rewrite sort_with_perm. unfold map_values. split.
    + intros Hin. apply list_elem_of_fmap in Hin as ([k c'] & -> & Hin). simpl. pose proof (Hkey _ _ Hin) as <-.
      apply map_elem_get in Hin; [|done]. rewrite Hper in Hin. destruct (0 <? _) eqn:Epos; [|done]. bools.
      injection Hin as Hin. split; [done|]. by rewrite <- Hin.
    + intros [Hc Hpos]. rewrite Hc in Hpos. simpl in Hpos.
      apply list_elem_of_fmap. exists (cohort c, c). split; [done|]. apply map_get_elem. rewrite Hper.
      destruct (0 <? _) eqn:E0; bools; [by rewrite <- Hc|lia].
Qed.
End retention.

(** ** A vault with a few deposits *)

Module Demo.
Definition deposit_of (who hash : string) (amount l : Z) : RawVaultEvent := {|
  rw_id := ""; rw_topic := [n_string CONTRACT_TAG; n_string "deposit"];
  rw_value := {| vn_depositor := Some who; vn_withdrawer := None; vn_amounts := Some [amount];
                 vn_amounts_withdrawn := None |};
  rw_ledger := l; rw_closedAt := "2026-10-24T12:26:52Z"; rw_txHash := hash |}.

Definition chain_of : list RawVaultEvent := [deposit_of "GA" "aa" 50000000 7; deposit_of "GB" "bb" 70000000 8].

(** The latest ledger, and whether the disk takes a write. *)
Definition world : Type := Z * bool.

Definition tip_cursor : string := "0000000034359738368-0000000000".

#[local] Instance demo_env : VaultEnv world := {|
  vw_getEvents q w :=
    (Ok (match q with from_cursor _ => [] | from_ledger l => filter (λ e, l ≤ rw_ledger e) chain_of end, tip_cursor), w);
  vw_getLatestLedger (w : world) := (Ok w.1, w);
  vw_disk (w : world) := (if w.2 then Ok () else Err "SQLITE_FULL", w);
|}.

#[local] Instance demo_laws : VaultLaws world.
Proof.
  refine {| vlog _ := chain_of; vpos _ := 2%nat |}; try (intros; reflexivity).
  intros [c|l] w evs c' w' [= <- <- <-]; [split; [simpl; lia|done]|]. unfold ledger_at, chain_of.
  rewrite !filter_cons, !filter_nil. simpl.
  destruct (decide (7 < l)), (decide (8 < l)), (decide (l ≤ 7)), (decide (l ≤ 8)); try lia; simpl; (split; [lia|done]).
Defined.

Definition start : vault_watcher world := mkVault empty_vault (7, true).


(** A first batch that the disk refused is not read again: the cursor was not
    written, and the next first run starts at a later tip. *)
Example failed_first_batch_is_lost :
  let s1 := poll_round (mkVault empty_vault (7, false)) in
  let s2 := poll_round (mkVault (rows s1) (8, true)) in
  vs_cursor (rows s2) = Some tip_cursor ∧ map vv_txHash (vs_rows (rows s2)) = ["bb"].
Proof. by vm_compute. Qed.

(** Two deposits of one amount in one transaction are stored as one. *)
Example same_amount_twice_counts_once :
  let e := deposit_of "GA" "aa" 50000000 7 in
  length (vs_rows (rows (persist_all tip_cursor [e; e] start).2)) = 1%nat.
Proof. by vm_compute. Qed.

Definition event_on (kind : VaultEventKind) (who amount : string) (t : Z) : VaultEvent :=
  {| vv_cursor := ""; vv_kind := kind; vv_depositor := who; vv_amountStroops := amount; vv_ledger := 1;
     vv_txHash := amount; vv_closeTime := t |}.

Lemma retention_counts_depositors_witness :
  let events := [event_on ve_deposit "GA" "100" 86400; event_on ve_deposit "GB" "70" 86500;
                 event_on ve_withdraw "GB" "70" 90000; event_on ve_deposit "GC" "5" 4000000] in
  ∃ cs, computeRetentionCohorts events 4000000000 = Ok cs ∧
    (∀ c, c ∈ cs ↔ c = tally 4000000 (cohort c) (per_depositor events) ∧ 0 < depositors c) ∧
    cs = [{| cohort := "1970-01-02"; depositors := 2; eligible := 2; retained := 1 |};
          {| cohort := "1970-02-16"; depositors := 1; eligible := 0; retained := 0 |}].
Proof.
  intros events. destruct (retention_counts_depositors events 4000000000) as (cs & E & _ & _ & Hc).
  { repeat constructor; by eexists. }
  exists cs. split_and!; [exact E|exact Hc|]. assert (Ok cs = Ok cs :> result string _) as E' by reflexivity.
  rewrite <- E in E' at 1. vm_compute in E'. injection E' as <-. reflexivity.
Defined.
End Demo.
