(* ===== verification/Defindex.v ===== *)
(** * The DeFindex routes of the relayer

    How an error of the DeFindex API is answered
    ([relayer/src/defindex/errors.ts]), the counts of what each route answered
    and the alerts they raise ([defindex/metrics.ts]), the four routes
    ([routes/defindex.ts]) and the metrics built on the vault's stored events
    ([routes/metrics.ts]). The SDK is a class of calls; durations and the yield
    are IEEE doubles, token amounts the integers the API sends. *)

From Stdlib Require Import Floats.SpecFloat.
From S2P Require Import Prelude JsData JsMap RateLimit Payment Faucet DepositStatus VaultWatcher.

(** ** Numbers *)

Definition plus (x y : double) : double := SFadd 53 1024 x y.
Definition minus (x y : double) : double := SFsub 53 1024 x y.
Definition divide (x y : double) : double := SFdiv 53 1024 x y.

(** [Math.round]: the nearest integer, halves up; [None] is not finite. *)
Definition round_double (x : double) : option Z :=
  match x with
  | S754_zero _ => Some 0
  | S754_finite s m e =>
      let a := if s then Z.neg m else Z.pos m in
      Some (if 0 <=? e then a * 2 ^ e else (2 * a + 2 ^ (- e)) / 2 ^ (1 - e))
  | _ => None
  end.

(** [Number] of a string of digits. *)
Definition Number_digits (s : string) : double := of_int (dec_value (chars s)).

(** ** Errors *)

Definition CONTRACT_ERROR_NAMES : list (Z * string) := [
  (100, "NotInitialized"); (102, "StrategyDoesNotSupportAsset"); (110, "AmountNotAllowed");
  (117, "InsufficientAmount"); (122, "WrongAssetAddress"); (124, "AmountOverTotalSupply");
  (130, "Unauthorized"); (141, "StrategyPausedOrNotFound"); (142, "StrategyWithdrawError");
  (143, "StrategyInvestError"); (144, "StrategyPaused"); (160, "InsufficientOutputAmount")].

Record DefindexApiErrorBody : Type := {
  ab_error : option string;
  ab_message : option string;
  ab_stellarErrorCode : option string;
  ab_context : option string;
}.

(** What a call throws: an answer of the API, or anything else. *)
Inductive sdk_fault : Type :=
| api_error (body : DefindexApiErrorBody)
| other_throw (message : string).

Fixpoint skip_to_digit (cs : list ascii) : list ascii :=
  match cs with [] => [] | c :: rest => if is_digit c then cs else skip_to_digit rest end.
Fixpoint take_digits (cs : list ascii) : list ascii :=
  match cs with [] => [] | c :: rest => if is_digit c then c :: take_digits rest else [] end.

(** [haystack.match(/\d+/)] *)
Definition first_number (s : string) : option Z :=
  match take_digits (skip_to_digit (chars s)) with [] => None | ds => Some (dec_value ds) end.

Fixpoint join_spaces (l : list string) : string :=
  match l with [] => "" | [s] => s | s :: rest => s +:+ " " +:+ join_spaces rest end.

Definition extractContractErrorCode (b : DefindexApiErrorBody) : option Z :=
  first_number (join_spaces (omap id [ab_stellarErrorCode b; ab_context b; ab_message b])).

Definition contract_error_name (code : Z) : option string :=
  snd <$> (snd <$> list_find (λ e, e.1 = code) CONTRACT_ERROR_NAMES).

Definition AUTH_ERRORS : list string := ["Unauthorized"; "Forbidden"; "TokenExpired"; "InvalidCredentials"].

Definition mapDefindexError (err : sdk_fault) : Z * string :=
  match err with
  | other_throw _ => (502, "DeFindex API unavailable")
  | api_error b =>
      match ab_error b with
      | Some e =>
          if decide (e = "ContractError") then
            match extractContractErrorCode b ≫= contract_error_name with
            | Some name => (502, name)
            | None => (502, default "ContractError" (ab_message b))
            end
          else if decide (e = "NotFound") then (404, default "vault not found" (ab_message b))
          else if decide (e ∈ ["BadRequest"; "ValidationFailed"])
          then (400, default "invalid request to DeFindex" (ab_message b))
          else if decide (e ∈ AUTH_ERRORS) then (500, "DeFindex API authentication failed - check DEFINDEX_API_KEY")
          else if decide (e = "TooManyRequests") then (502, "DeFindex API rate limit exceeded")
          else (502, default "DeFindex API unavailable" (ab_message b))
      | None => (502, default "DeFindex API unavailable" (ab_message b))
      end
  end.

(** ** Counts and alerts *)

Inductive VaultRoute : Type := vr_apy | vr_position | vr_deposit | vr_withdraw.

#[global] Instance VaultRoute_eq_dec : EqDecision VaultRoute.
Proof. solve_decision. Defined.

Record RouteStats : Type := {
  rs_requests : Z;
  rs_clientErrors : Z;
  rs_serverErrors : Z;
  rs_rateLimited : Z;
  rs_totalMs : double;
  rs_maxMs : double;
  rs_consecutiveServerErrors : Z;
  rs_lastServerErrorAt : option string;
}.

Definition ALERT_AFTER_CONSECUTIVE_FAILURES : Z := 5.

Definition emptyStats : RouteStats := {|
  rs_requests := 0; rs_clientErrors := 0; rs_serverErrors := 0; rs_rateLimited := 0;
  rs_totalMs := S754_zero false; rs_maxMs := S754_zero false;
  rs_consecutiveServerErrors := 0; rs_lastServerErrorAt := None |}.

(** The lines an operator is paged by. *)
Inductive alert : Type :=
| failing (route : VaultRoute) (status : Z)
| recovered (route : VaultRoute) (failures : Z).

(** An answer that was sent: its status, how long it took, and when. *)
Record answered : Type := { an_route : VaultRoute; an_code : Z; an_durationMs : double; an_at : Z }.

(** The stats of the answer's route, and the alert it raises. *)
Definition record_answer (a : answered) (s : RouteStats) : RouteStats * option alert :=
  let status := an_code a in
  let counted client server limited streak last := {|
    rs_requests := rs_requests s + 1; rs_clientErrors := rs_clientErrors s + client;
    rs_serverErrors := rs_serverErrors s + server; rs_rateLimited := rs_rateLimited s + limited;
    rs_totalMs := plus (rs_totalMs s) (an_durationMs a); rs_maxMs := fmax (rs_maxMs s) (an_durationMs a);
    rs_consecutiveServerErrors := streak; rs_lastServerErrorAt := last |} in
  if 500 <=? status then
    let streak := rs_consecutiveServerErrors s + 1 in
    (counted 0 1 0 streak (Some (toISOString (an_at a))),
     if streak =? ALERT_AFTER_CONSECUTIVE_FAILURES then Some (failing (an_route a) status) else None)
  else
    ((if status =? 429 then counted 0 0 1 0 (rs_lastServerErrorAt s)
      else if 400 <=? status then counted 1 0 0 0 (rs_lastServerErrorAt s)
      else counted 0 0 0 0 (rs_lastServerErrorAt s)),
     if ALERT_AFTER_CONSECUTIVE_FAILURES <=? rs_consecutiveServerErrors s
     then Some (recovered (an_route a) (rs_consecutiveServerErrors s)) else None).

Definition stats_of (route : VaultRoute) (m : jsmap VaultRoute RouteStats) : RouteStats :=
  default emptyStats (map_get route m).

Definition initial_stats : jsmap VaultRoute RouteStats :=
  map (λ r, (r, emptyStats)) [vr_apy; vr_position; vr_deposit; vr_withdraw].

Definition recordVaultRequest (a : answered) (m : jsmap VaultRoute RouteStats) :
    jsmap VaultRoute RouteStats * option alert :=
  let '(s, al) := record_answer a (stats_of (an_route a) m) in (map_set (an_route a) s m, al).

Record VaultRouteSnapshot : Type := {
  sn_requests : Z;
  sn_clientErrors : Z;
  sn_serverErrors : Z;
  sn_rateLimited : Z;
  sn_avgMs : option Z;
  sn_maxMs : option Z;
  sn_failing : bool;
  sn_lastServerErrorAt : option string;
}.

Definition snapshot_of (s : RouteStats) : VaultRouteSnapshot := {|
  sn_requests := rs_requests s; sn_clientErrors := rs_clientErrors s;
  sn_serverErrors := rs_serverErrors s; sn_rateLimited := rs_rateLimited s;
  sn_avgMs := if rs_requests s =? 0 then Some 0 else round_double (divide (rs_totalMs s) (of_int (rs_requests s)));
  sn_maxMs := round_double (rs_maxMs s);
  sn_failing := ALERT_AFTER_CONSECUTIVE_FAILURES <=? rs_consecutiveServerErrors s;
  sn_lastServerErrorAt := rs_lastServerErrorAt s |}.

Definition vaultMetricsSnapshot (m : jsmap VaultRoute RouteStats) : list (VaultRoute * VaultRouteSnapshot) :=
  map (λ e, (e.1, snapshot_of e.2)) m.

Definition resetVaultMetrics (m : jsmap VaultRoute RouteStats) : jsmap VaultRoute RouteStats :=
  foldl (λ m r, map_set r emptyStats m) m [vr_apy; vr_position; vr_deposit; vr_withdraw].

(** ** The routes *)

Class DefindexSdk (W : Type) : Type := {
  dx_getVaultAPY : string → W → result sdk_fault double * W;
  dx_getVaultBalance : string → string → W → result sdk_fault (Z * list Z) * W;
  dx_depositToVault : string → string → list double → bool → W → result sdk_fault (option string) * W;
  dx_withdrawFromVault : string → string → list double → W → result sdk_fault (option string) * W;
  dx_getVaultInfo : string → W → result sdk_fault (list string) * W;   (* [totalManagedFunds[i].total_amount] *)
  dx_now : W → Z;
  dx_performance : W → double;
}.

Inductive vault_request : Type :=
| get_apy
| get_position (address : query_param)
| post_deposit (caller amountStroops : query_param)
| post_withdraw (caller amountStroops : query_param).

Definition route_of (q : vault_request) : VaultRoute :=
  match q with
  | get_apy => vr_apy
  | get_position _ => vr_position
  | post_deposit _ _ => vr_deposit
  | post_withdraw _ _ => vr_withdraw
  end.

Inductive vault_body : Type :=
| vb_apy (apy : double)
| vb_position (dfTokens underlyingStroops : string)
| vb_xdr (xdr : string)
| vb_error (error : string)
| vb_rate_limited.

Record vault_answer : Type := { va_status : Z; va_retryAfter : option Z; va_body : vault_body }.

(** [/^G[A-Z2-7]{55}$/] *)
Definition is_stellar_address (s : string) : bool :=
  match chars s with
  | c :: cs => Ascii.eqb c "G" && (zlen cs =? 55) && forallb (λ c, in_range "A" "Z" c || in_range "2" "7" c) cs
  | [] => false
  end.

(** [/^[1-9]\d*$/] *)
Definition is_stroop_amount (s : string) : bool :=
  match chars s with
  | c :: cs => in_range "1" "9" c && forallb is_digit cs
  | [] => false
  end.

Definition text_where (p : string → bool) (q : query_param) : option string :=
  match q with q_text s => if p s then Some s else None | _ => None end.

Record defindex_app (W : Type) : Type := mkDefindex {
  da_reads : jsmap string Window;
  da_txs : jsmap string Window;
  da_stats : jsmap VaultRoute RouteStats;
  da_alerts : list alert;                        (* the log, oldest first *)
  da_world : W;
}.
Arguments mkDefindex {W}. Arguments da_reads {W}. Arguments da_txs {W}. Arguments da_stats {W}.
Arguments da_alerts {W}. Arguments da_world {W}.

Definition vaultReadLimiter : RateLimitOptions := {| limit := 60; windowMs := 60000 |}.
Definition vaultTxLimiter : RateLimitOptions := {| limit := 10; windowMs := 60000 |}.

Section routes.
Context {W : Type} `{DefindexSdk W} (defindexVaultId : option string).

Definition reply (status : Z) (b : vault_body) : vault_answer :=
  {| va_status := status; va_retryAfter := None; va_body := b |}.

(** [try { ... } catch (err) { mapDefindexError }] *)
Definition or_error {A} (r : result sdk_fault A) (f : A → vault_answer) : vault_answer :=
  match r with
  | Ok a => f a
  | Err e => let '(status, error) := mapDefindexError e in reply status (vb_error error)
  end.

Definition not_configured : vault_answer := reply 500 (vb_error "DEFINDEX_VAULT_ID not configured").

Definition xdr_reply (x : option string) : vault_answer :=
  match present x with
  | Some x => reply 200 (vb_xdr x)
  | None => reply 502 (vb_error "DeFindex API did not return a transaction to sign")
  end.

(** A transaction is built for a caller and a positive amount only. *)
Definition build_tx (caller amountStroops : query_param)
    (call : string → string → list double → W → result sdk_fault (option string) * W) (w : W) : vault_answer * W :=
  match text_where is_stellar_address caller with
  | None => (reply 400 (vb_error "caller must be a Stellar G... public key"), w)
  | Some c =>
      match text_where is_stroop_amount amountStroops with
      | None => (reply 400 (vb_error "amountStroops must be a positive integer string (USDC stroops)"), w)
      | Some a =>
          match present defindexVaultId with
          | None => (not_configured, w)
          | Some vault => let '(r, w) := call vault c [Number_digits a] w in (or_error r xdr_reply, w)
          end
      end
  end.

Definition vault_handler (q : vault_request) (w : W) : vault_answer * W :=
  match q with
  | get_apy =>
      match present defindexVaultId with
      | None => (not_configured, w)
      | Some vault =>
          let '(r, w) := dx_getVaultAPY vault w in
          (or_error r (λ apy, reply 200 (vb_apy (divide apy (of_int 100)))), w)
      end
  | get_position address =>
      match text_where is_stellar_address address with
      | None => (reply 400 (vb_error "address must be a Stellar G... public key"), w)
      | Some a =>
          match present defindexVaultId with
          | None => (not_configured, w)
          | Some vault =>
              let '(r, w) := dx_getVaultBalance vault a w in
              (or_error r (λ b, reply 200 (vb_position (z_to_string b.1) (z_to_string (default 0 (head b.2))))), w)
          end
      end
  | post_deposit caller amountStroops =>
      build_tx caller amountStroops (λ vault c amounts, dx_depositToVault vault c amounts true) w
  | post_withdraw caller amountStroops => build_tx caller amountStroops dx_withdrawFromVault w
  end.

Definition limited (seconds : Z) : vault_answer :=
  {| va_status := 429; va_retryAfter := Some seconds; va_body := vb_rate_limited |}.

(** The limiter, which reads and transactions have one of each, then the handler. *)
Definition limit_and_handle (client : string) (q : vault_request) (s : defindex_app W) :
    vault_answer * defindex_app W :=
  let t := dx_now (da_world s) in
  let run s := let '(a, w) := vault_handler q (da_world s) in
               (a, mkDefindex (da_reads s) (da_txs s) (da_stats s) (da_alerts s) w) in
  match q with
  | get_apy | get_position _ =>
      let '(v, ws) := rateLimit vaultReadLimiter t client (da_reads s) in
      let s := mkDefindex ws (da_txs s) (da_stats s) (da_alerts s) (da_world s) in
      match v with too_many seconds => (limited seconds, s) | next => run s end
  | _ =>
      let '(v, ws) := rateLimit vaultTxLimiter t client (da_txs s) in
      let s := mkDefindex (da_reads s) ws (da_stats s) (da_alerts s) (da_world s) in
      match v with too_many seconds => (limited seconds, s) | next => run s end
  end.

(** [trackVaultRoute] around both: what is recorded when the answer is sent. *)
Definition vault_request_answered (client : string) (q : vault_request) (s : defindex_app W) :
    vault_answer * answered * defindex_app W :=
  let start := dx_performance (da_world s) in
  let '(a, s) := limit_and_handle client q s in
  let w := da_world s in
  let rec := {| an_route := route_of q; an_code := va_status a;
                an_durationMs := minus (dx_performance w) start; an_at := dx_now w |} in
  let '(m, al) := recordVaultRequest rec (da_stats s) in
  (a, rec, mkDefindex (da_reads s) (da_txs s) m (da_alerts s ++ match al with Some x => [x] | None => [] end) w).

(** GET /metrics/tvl *)

Inductive tvl_answer : Type :=
| tvl_ok (tvlStroops onChainTvlStroops : string) (uniqueDepositors : Z) (divergent : bool)   (* and the warning *)
| tvl_error (status : Z) (error : string)
| tvl_throws (e : string).

Definition metrics_tvl (events : list VaultEvent) (w : W) : tvl_answer * W :=
  match present defindexVaultId with
  | None => (tvl_error 500 "DEFINDEX_VAULT_ID not configured", w)
  | Some vault =>
      match computeTvlSummary events with
      | Err e => (tvl_throws e, w)
      | Ok t =>
          let '(r, w) := dx_getVaultInfo vault w in
          let failed e := let '(status, error) := mapDefindexError e in tvl_error status error in
          (match r with
           | Err e => failed e
           | Ok funds =>
               let onChain := default "0" (head funds) in
               match BigInt onChain with
               | None => failed (other_throw "SyntaxError")
               | Some c =>
                   let net := netDepositedStroops t in
                   tvl_ok (z_to_string net) onChain (uniqueDepositors t)
                     ((0 <? net) && (net * 20 <? Z.abs (c - net) * 100))
               end
           end, w)
      end
  end.
End routes.

(** ** Properties *)

(** The API refusing our own key is ours to fix: it is never answered as the
    caller's error, nor under the name of the contract's own [Unauthorized]. *)
Lemma our_key_is_not_the_callers_fault b e :
  ab_error b = Some e → e ∈ AUTH_ERRORS →
  let '(status, error) := mapDefindexError (api_error b) in
  status = 500 ∧ Forall (λ n, n.2 ≠ error) CONTRACT_ERROR_NAMES.
Proof.
  intros Hb He. unfold AUTH_ERRORS in He. unfold mapDefindexError. rewrite Hb.
  repeat (apply elem_of_cons in He as [->|He]; [split; [done|by repeat constructor]|]). by apply elem_of_nil in He.
Qed.

Section facts.
Context {W : Type} `{DefindexSdk W} (defindexVaultId : option string).
Implicit Types (s : defindex_app W) (h : list answered) (route : VaultRoute).

(** *** What the answers of a route add up to *)

Definition answers_of route h : list answered := filter (λ a, an_route a = route) h.

Definition is_server_error (a : answered) : bool := 500 <=? an_code a.

Fixpoint leading_errors (l : list answered) : Z :=
  match l with [] => 0 | a :: l => if is_server_error a then 1 + leading_errors l else 0 end.

(** How many of a route's last answers are server errors. *)
Definition streak route h : Z := leading_errors (rev (answers_of route h)).

(** The alert an answer raises, after those before it. *)
Definition alert_after h (a : answered) : option alert :=
  let before := streak (an_route a) h in
  if is_server_error a
  then if before =? 4 then Some (failing (an_route a) (an_code a)) else None
  else if 5 <=? before then Some (recovered (an_route a) before) else None.

Fixpoint alerts_from (before : list answered) h : list alert :=
  match h with
  | [] => []
  | a :: h => option_list (alert_after before a) ++ alerts_from (before ++ [a]) h
  end.
Definition alerts_of h : list alert := alerts_from [] h.

(** The counts are those of the answers. *)
Definition counts_answers h route (st : RouteStats) : Prop :=
  let answers := answers_of route h in
  rs_requests st = zlen answers ∧
  rs_serverErrors st = zlen (filter (λ a, 500 ≤ an_code a) answers) ∧
  rs_rateLimited st = zlen (filter (λ a, an_code a = 429) answers) ∧
  rs_clientErrors st = zlen (filter (λ a, 400 ≤ an_code a < 500 ∧ an_code a ≠ 429) answers) ∧
  rs_consecutiveServerErrors st = streak route h.

Lemma answers_of_snoc route h a :
  answers_of route (h ++ [a]) = answers_of route h ++ (if decide (an_route a = route) then [a] else []).
Proof. unfold answers_of. by rewrite filter_app, filter_cons, filter_nil. Qed.

Lemma streak_snoc route h a : streak route (h ++ [a]) =
  if decide (an_route a = route) then (if is_server_error a then 1 + streak route h else 0) else streak route h.
Proof.
  unfold streak. rewrite answers_of_snoc. case_decide; [|by rewrite app_nil_r]. by rewrite rev_unit.
Qed.

Lemma zlen_filter_snoc {A} (P : A → Prop) `{∀ x, Decision (P x)} l x :
  zlen (filter P (l ++ [x])) = zlen (filter P l) + (if decide (P x) then 1 else 0).
Proof. rewrite filter_app, filter_cons, filter_nil, zlen_app. by case_decide. Qed.

Lemma alerts_of_snoc h a : alerts_of (h ++ [a]) = alerts_of h ++ option_list (alert_after h a).
Proof.
  unfold alerts_of. enough (∀ before, alerts_from before (h ++ [a]) =
    alerts_from before h ++ option_list (alert_after (before ++ h) a)) as -> by done.
  induction h as [|b h IH]; intros before; simpl; [by rewrite !app_nil_r|].
  by rewrite IH, <- app_assoc, <- (assoc_L app).
Qed.

Lemma leading_errors_nonneg l : 0 ≤ leading_errors l.
Proof. induction l as [|a l IH]; simpl; [lia|]. destruct (is_server_error a); lia. Qed.

(** One answer: the counts go on, and the alert is the one due. *)
Lemma record_answer_counts h a st :
  counts_answers h (an_route a) st →
  counts_answers (h ++ [a]) (an_route a) (record_answer a st).1 ∧ (record_answer a st).2 = alert_after h a.
Proof.
  unfold counts_answers. rewrite answers_of_snoc, streak_snoc, !decide_True by done.
  rewrite zlen_app, !zlen_filter_snoc. intros (Hr & Hs & Hl & Hc & Hk).
  unfold record_answer, alert_after, is_server_error. change (zlen [a]) with 1.
  destruct (500 <=? an_code a) eqn:E5; bools.
  - simpl. rewrite Hr, Hs, Hl, Hc, Hk. split.
    + split_and!; repeat case_decide; lia.
    + unfold ALERT_AFTER_CONSECUTIVE_FAILURES. destruct (streak _ h =? 4) eqn:E; bools.
      * by rewrite E.
      * destruct (_ =? 5) eqn:E'; bools; [lia|done].
  - simpl. rewrite <- Hk. split; [|done].
    destruct (an_code a =? 429) eqn:E4; [|destruct (400 <=? an_code a) eqn:E0]; bools; simpl;
      rewrite Hr, Hs, Hl, Hc; split_and!; repeat case_decide; lia.
Qed.

Lemma other_route_counts h a route st :
  an_route a ≠ route → counts_answers h route st → counts_answers (h ++ [a]) route st.
Proof.
  intros Hne. unfold counts_answers. rewrite answers_of_snoc, streak_snoc, !decide_False by done.
  by rewrite app_nil_r.
Qed.

(** *** A run of the routes *)

(** The app and the answers it has sent, oldest first. *)
Inductive route_step : defindex_app W * list answered → defindex_app W * list answered → Prop :=
| a_request client q s h a rec s' :
    vault_request_answered defindexVaultId client q s = (a, rec, s') → route_step (s, h) (s', h ++ [rec])
| world_moves s h w : route_step (s, h) (mkDefindex (da_reads s) (da_txs s) (da_stats s) (da_alerts s) w, h).

Definition stats_inv s h : Prop :=
  (∀ route, counts_answers h route (stats_of route (da_stats s))) ∧ da_alerts s = alerts_of h.

Lemma handled_keeps_stats client q s : let s' := (limit_and_handle defindexVaultId client q s).2 in
  da_stats s' = da_stats s ∧ da_alerts s' = da_alerts s.
Proof.
  unfold limit_and_handle. assert (∀ w, ∃ a w', vault_handler defindexVaultId q w = (a, w')) as Hv
    by (intros w; destruct (vault_handler _ _ _); eauto).
  destruct q; destruct (rateLimit _ _ _ _) as [[|n] ws]; try done;
    simpl da_world; destruct (Hv (da_world s)) as (a & w' & ->); done.
Qed.

Lemma request_stats client q s h a rec s' :
  vault_request_answered defindexVaultId client q s = (a, rec, s') → stats_inv s h → stats_inv s' (h ++ [rec]).
Proof.
  intros E [Hcount Halerts]. unfold vault_request_answered in E.
  pose proof (handled_keeps_stats client q s) as [Hst Hal].
  destruct (limit_and_handle _ client q s) as [a1 s1]. simpl in Hst, Hal.
  set (r := {| an_route := _ |}) in E. pose proof (record_answer_counts h r _ (Hcount (an_route r))) as [Hc Ha].
  unfold recordVaultRequest in E. rewrite Hst in E.
  destruct (record_answer r _) as [st al]. simpl in Hc, Ha. injection E as <- <- <-. split; simpl.
  - intros route. unfold stats_of. rewrite map_get_set. destruct (decide (route = route_of q)) as [->|Hne].
    + exact Hc.
    + apply other_route_counts; [simpl; congruence|apply Hcount].
  - rewrite alerts_of_snoc, Hal, Halerts, <- Ha. by destruct al.
Qed.

(** What /health says of the vault's routes is what they answered. After
    any requests, in any order, the counts of each route are those of its own
    answers, sorted by status, whatever produced them (the limiter, a check,
    the API); a route is called failing exactly while its last five answers or
    more are server errors; and the alerts in the log are one at the fifth
    error of each such streak, and one at the first answer after it. *)
Theorem vault_stats_are_the_answers w s h :
  rtc route_step (mkDefindex [] [] initial_stats [] w, []) (s, h) →
  (∀ route, counts_answers h route (stats_of route (da_stats s))) ∧
  (∀ route, sn_failing (snapshot_of (stats_of route (da_stats s))) = true ↔ 5 ≤ streak route h) ∧
  da_alerts s = alerts_of h.
Proof.
  intros Hr. assert (stats_inv s h) as [Hc Ha].
  { remember (mkDefindex [] [] initial_stats [] w, []) as x eqn:Ex. remember (s, h) as y eqn:Ey.
    assert (stats_inv x.1 x.2) as Hx by (subst x; split; [by intros []|done]). clear Ex.
    revert s h Ey. induction Hr as [x|x y z Hxy _ IH]; intros s h ->; [done|].
    apply IH; [|done]. destruct Hxy as [client q s1 h1 a rec s2 E|s1 h1 w1]; [by eapply request_stats|done]. }
  split_and!; [done| |done]. intros route. destruct (Hc route) as (_ & _ & _ & _ & Hk).
  unfold snapshot_of. simpl. rewrite Hk. apply Z.leb_le.
Qed.

(** A transaction is asked of the API only for a Stellar account and a positive
    amount, and its answer is the only source of one. *)
Lemma transactions_are_for_valid_requests caller amount
    (call : string → string → list double → W → result sdk_fault (option string) * W) w x w' :
  build_tx defindexVaultId caller amount call w = (reply 200 (vb_xdr x), w') →
  ∃ vault c a, defindexVaultId = Some vault ∧ caller = q_text c ∧ amount = q_text a ∧
    is_stellar_address c = true ∧ is_stroop_amount a = true ∧ call vault c [Number_digits a] w = (Ok (Some x), w').
Proof.
  unfold build_tx, text_where, reply. destruct caller as [|c|]; try done.
  destruct (is_stellar_address c) eqn:Ec; [|done]. destruct amount as [|a|]; try done.
  destruct (is_stroop_amount a) eqn:Ea; [|done]. destruct (present defindexVaultId) as [vault|] eqn:Ev; [|done].
  apply present_some in Ev as [Ev _]. destruct (call vault c [Number_digits a] w) as [[o|e] w1] eqn:E; simpl.
  - unfold xdr_reply. destruct (present o) as [y|] eqn:Ey; [|done]. apply present_some in Ey as [-> _].
    intros [= -> ->]. exists vault, c, a. done.
  - by destruct (mapDefindexError e).
Qed.
End facts.

(** ** A route that fails for a while *)

Module Demo.
#[local] Instance demo_sdk : DefindexSdk (list Z) := {|
  dx_getVaultAPY _ w := (Err (other_throw "ECONNREFUSED"), w);
  dx_getVaultBalance _ _ w := (Ok (5, [6]), w);
  dx_depositToVault _ _ _ _ w := (Ok (Some "AAAA"), w);
  dx_withdrawFromVault _ _ _ w := (Ok None, w);
  dx_getVaultInfo _ w := (Ok ["100"], w);
  dx_now w := 0;
  dx_performance w := S754_zero false;
|}.

Definition ask_apy (x : defindex_app (list Z) * list answered) : defindex_app (list Z) * list answered :=
  let '(_, rec, s) := vault_request_answered (Some "CVAULT") "1.2.3.4" get_apy x.1 in (s, x.2 ++ [rec]).

Definition start : defindex_app (list Z) * list answered := (mkDefindex [] [] initial_stats [] [], []).

Lemma vault_stats_are_the_answers_witness :
  let x := ask_apy (ask_apy (ask_apy (ask_apy (ask_apy (ask_apy start))))) in
  sn_failing (snapshot_of (stats_of vr_apy (da_stats x.1))) = true ∧
  da_alerts x.1 = alerts_of x.2 ∧ da_alerts x.1 = [failing vr_apy 502].
Proof.
  split_and!; [vm_compute; reflexivity| |vm_compute; reflexivity].
  assert (∀ y, route_step (Some "CVAULT") y (ask_apy y)) as Hstep.
  { intros [s h]. unfold ask_apy. cbn [fst snd]. destruct (vault_request_answered _ _ _ _) as [[a rec] s'] eqn:E.
    by eapply a_request. }
  assert (rtc (route_step (Some "CVAULT")) start (ask_apy (ask_apy (ask_apy (ask_apy (ask_apy (ask_apy start)))))))
    as Hx by (do 6 (eapply rtc_l; [apply Hstep|]); apply rtc_refl).
  revert Hx. generalize (ask_apy (ask_apy (ask_apy (ask_apy (ask_apy (ask_apy start)))))). intros [s h] Hx.
  apply (vault_stats_are_the_answers (Some "CVAULT") [] s h Hx).
Defined.

(** The route sends the API a double: an amount past 2^53 stroops is rounded. *)
Example amounts_past_double_precision_are_rounded :
  Number_digits "9007199254740993" = Number_digits "9007199254740992".
Proof. by vm_compute. Qed.
End Demo.
