(* ===== verification/Funnel.v ===== *)
(** * The onboarding funnel ([relayer/src/onboarding/], [routes/onboarding.ts])

    The rows of the funnel ([store.ts]), the steps the app reports and the
    faucet's outcomes, checked against the contract where they can be, and the
    summary counted from the rows ([funnel.ts]), with the routes around them. A
    subject is [hmac] of the address; what the contract holds is read through
    an argument, by default [readPositionFacts]. *)

From S2P Require Import Prelude JsData JsMap LendArchive PositionEvents DepositStatus RateLimit Faucet.
From Stdlib Require Import Sorting.Sorted.

(** ** Steps *)

Inductive FunnelStep : Type :=
| fs_sign_in | fs_key_created | fs_faucet_paid | fs_deposit | fs_borrow | fs_repay | fs_release.

#[global] Instance FunnelStep_eq_dec : EqDecision FunnelStep.
Proof. solve_decision. Defined.

Definition step_name (st : FunnelStep) : string :=
  match st with
  | fs_sign_in => "sign_in"
  | fs_key_created => "key_created"
  | fs_faucet_paid => "faucet_paid"
  | fs_deposit => "deposit"
  | fs_borrow => "borrow"
  | fs_repay => "repay"
  | fs_release => "release"
  end.

Definition REPORTED_STEPS : list string := ["sign_in"; "key_created"; "deposit"; "borrow"; "repay"; "release"].
Definition CHAIN_STEPS : list string := ["deposit"; "borrow"; "repay"; "release"].
Definition FUNNEL_STEPS : list FunnelStep :=
  [fs_sign_in; fs_key_created; fs_faucet_paid; fs_deposit; fs_borrow; fs_repay; fs_release].

Inductive FunnelErrorCode : Type :=
| fe_invalid_request | fe_not_on_chain | fe_not_owner | fe_step_not_reached | fe_chain_unavailable | fe_not_configured.

Definition funnel_http (c : FunnelErrorCode) : Z :=
  match c with
  | fe_invalid_request => 400
  | fe_not_on_chain => 422
  | fe_not_owner => 403
  | fe_step_not_reached => 422
  | fe_chain_unavailable => 503
  | fe_not_configured => 503
  end.

Record StepReport : Type := {
  sr_step : string;
  sr_stellarAddress : string;
  sr_channel : string;
  sr_txid : option string;
}.

(** The body of a report: a field is text, something else, or missing. *)
Record report_body : Type := {
  rb_step : query_param;
  rb_stellarAddress : query_param;
  rb_channel : query_param;
  rb_txid : query_param;
}.

Definition text_that (p : string → bool) (q : query_param) : result FunnelErrorCode string :=
  match q with q_text s => if p s then Ok s else Err fe_invalid_request | _ => Err fe_invalid_request end.

Definition parseStepReport (b : report_body) : result FunnelErrorCode StepReport :=
  step ← text_that (λ s, bool_decide (s ∈ REPORTED_STEPS)) (rb_step b);
  address ← text_that STELLAR_ACCOUNT (rb_stellarAddress b);
  channel ← match rb_channel b with
            | q_absent => Ok "wallet"
            | q => text_that (λ c, bool_decide (c ∈ ["social"; "wallet"])) q
            end;
  txid ← (if bool_decide (step ∈ CHAIN_STEPS)
          then Some ∘ toLowerCase <$> text_that is_hex64 (rb_txid b) else Ok None);
  mret {| sr_step := step; sr_stellarAddress := address; sr_channel := channel; sr_txid := txid |}.

Definition positionReached (step : string) (p : PositionFacts) : bool :=
  if decide (step ∈ ["deposit"; "repay"]) then true
  else if decide (step = "borrow")
  then (0 <? pf_debtStroops p) || match pf_status p with ps_active => false | _ => true end
  else if decide (step = "release") then match pf_status p with ps_closed => true | _ => false end
  else false.

(** ** The rows *)

Record FunnelRow : Type := {
  fr_subject : string;
  fr_step : string;
  fr_outcome : string;
  fr_channel : string;
  fr_verified : bool;
  fr_createdAt : Z;
}.

Definition row_id (r : FunnelRow) : string * string * string := (fr_subject r, fr_step r, fr_outcome r).

(** [record]: [true] when it was new. *)
Definition record_row (r : FunnelRow) (rows : list FunnelRow) : bool * list FunnelRow :=
  if bool_decide (row_id r ∈ map row_id rows) then (false, rows) else (true, rows ++ [r]).

(** [rows()]: oldest first. *)
Definition oldest_first (rows : list FunnelRow) : list FunnelRow := sort_by fr_createdAt rows.

(** ** Recording *)

Record funnel (W : Type) : Type := mkFunnel { fn_rows : list FunnelRow; fn_world : W }.
Arguments mkFunnel {W}. Arguments fn_rows {W}. Arguments fn_world {W}.

Record reported : Type := { rp_recorded : bool; rp_verified : bool }.

Section recording.
Context {W : Type} (hmac : string → string)
  (readPosition : option (string → W → result string (option PositionFacts) * W)) (now : W → Z).
Abbreviation M := (io (funnel W) FunnelErrorCode).

Definition subjectOf (stellarAddress : string) : string := hmac ("stellar:" +:+ stellarAddress).

Definition read_position (txid : string) : M (option PositionFacts) := λ s,
  match readPosition with
  | None => (Err fe_not_configured, s)
  | Some read =>
      let '(r, w) := read txid (fn_world s) in
      (match r with Ok p => Ok p | Err _ => Err fe_chain_unavailable end, mkFunnel (fn_rows s) w)
  end.

(** The step must be one the reporter's own loan has gone through. *)
Definition check_chain_step (r : StepReport) : M () :=
  p ← read_position (default "" (sr_txid r));
  match p with
  | None => throw fe_not_on_chain
  | Some p =>
      if negb (bool_decide (pf_depositor p = sr_stellarAddress r)) then throw fe_not_owner
      else if negb (positionReached (sr_step r) p) then throw fe_step_not_reached
      else mret ()
  end.

Definition add_row (f : Z → FunnelRow) : M bool := λ s,
  let '(new, rows) := record_row (f (now (fn_world s))) (fn_rows s) in (Ok new, mkFunnel rows (fn_world s)).

Definition report (body : report_body) : M reported :=
  r ← lift (parseStepReport body);
  let chain := bool_decide (sr_step r ∈ CHAIN_STEPS) in
  (if chain then check_chain_step r else mret ());;
  recorded ← add_row (λ t, {| fr_subject := subjectOf (sr_stellarAddress r); fr_step := sr_step r; fr_outcome := "ok";
                              fr_channel := sr_channel r; fr_verified := chain; fr_createdAt := t |});
  mret {| rp_recorded := recorded; rp_verified := chain |}.

(** [/^[a-z_]{1,48}$/] *)
Definition is_outcome (s : string) : bool :=
  (1 <=? slen s) && (slen s <=? 48) && string_forall (λ c, in_range "a" "z" c || Ascii.eqb c "_") s.

Definition recordFaucet (stellarAddress : query_param) (outcome : string) : M () :=
  match stellarAddress with
  | q_text address =>
      if negb (STELLAR_ACCOUNT address) then mret ()
      else if negb (is_outcome outcome) then mret ()
      else
        _ ← add_row (λ t, {| fr_subject := subjectOf address; fr_step := "faucet_claim"; fr_outcome := outcome;
                             fr_channel := "social"; fr_verified := bool_decide (outcome = "paid"); fr_createdAt := t |});
        mret ()
  | _ => mret ()
  end.

(** POST /metrics/onboarding/events *)
Inductive event_answer : Type :=
| ev_accepted (r : reported)              (* 202 *)
| ev_refused (status : Z) (code : FunnelErrorCode)
| ev_rate_limited (retryAfterSeconds : Z).

Definition post_event (limiter : RateLimitOptions) (client : string) (body : report_body)
    (s : jsmap string Window * funnel W) : event_answer * (jsmap string Window * funnel W) :=
  let '(v, windows) := rateLimit limiter (now (fn_world s.2)) client s.1 in
  match v with
  | too_many seconds => (ev_rate_limited seconds, (windows, s.2))
  | next =>
      match report body s.2 with
      | (Ok r, f) => (ev_accepted r, (windows, f))
      | (Err c, f) => (ev_refused (funnel_http c) c, (windows, f))
      end
  end.
End recording.

(** The reader of the running relayer. *)
Definition reader_from_config {W} `{LendStorage W} (utf8 : list byte → string) (txidDisplay : string) :
    io W string (option PositionFacts) := readPositionFacts utf8 (toInternalTxid txidDisplay).

(** ** The summary *)

Abbreviation FunnelCounts := (FunnelStep → Z).
Definition zero : FunnelCounts := λ _, 0.
Definition bump (st : FunnelStep) (c : FunnelCounts) : FunnelCounts := λ st', if decide (st' = st) then c st + 1 else c st'.

Definition step_named (s : string) : option FunnelStep :=
  snd <$> list_find (λ st, step_name st = s) FUNNEL_STEPS.

(** The step a row counts toward: none for a refusal of the faucet. *)
Definition stepOf (r : FunnelRow) : option FunnelStep :=
  if decide (fr_step r = "faucet_claim") then (if decide (fr_outcome r = "paid") then Some fs_faucet_paid else None)
  else step_named (fr_step r).

(** Chain steps count only once they were checked. *)
Definition counted_step (r : FunnelRow) : option FunnelStep :=
  st ← stepOf r;
  if bool_decide (step_name st ∈ CHAIN_STEPS) && negb (fr_verified r) then None else Some st.

Record tallying : Type := mkTally {
  ta_totals : FunnelCounts;
  ta_social : FunnelCounts;
  ta_outcomes : jsmap string Z;
  ta_days : jsmap string FunnelCounts;
  ta_reached : FunnelStep → list string;
}.

Definition day_of (t : Z) : string := String.substring 0 10 (toISOString t).

(** One row of the loop of [summary]. *)
Definition tally_row (socialSubjects : list string) (a : tallying) (r : FunnelRow) : tallying :=
  let outcomes := if decide (fr_step r = "faucet_claim")
                  then map_set (fr_outcome r) (default 0 (map_get (fr_outcome r) (ta_outcomes a)) + 1) (ta_outcomes a)
                  else ta_outcomes a in
  let skip := mkTally (ta_totals a) (ta_social a) outcomes (ta_days a) (ta_reached a) in
  match counted_step r with
  | None => skip
  | Some st =>
      let seen := ta_reached a st in
      if bool_decide (fr_subject r ∈ seen) then skip
      else
        let day := day_of (fr_createdAt r) in
        mkTally (bump st (ta_totals a))
          (if bool_decide (fr_subject r ∈ socialSubjects) then bump st (ta_social a) else ta_social a)
          outcomes
          (map_set day (bump st (default zero (map_get day (ta_days a)))) (ta_days a))
          (λ st', if decide (st' = st) then seen ++ [fr_subject r] else ta_reached a st')
  end.

Definition social_subjects (rows : list FunnelRow) : list string :=
  map fr_subject (filter (λ r, fr_channel r = "social") rows).

Record OnboardingSummary : Type := {
  os_asOf : string;
  os_contract : option string;
  os_activatedSocialUsers : Z;
  os_socialUsersWithDeposit : Z;
  os_totals : FunnelCounts;
  os_social : FunnelCounts;
  os_faucetOutcomes : jsmap string Z;
  os_daily : list (string * FunnelCounts);
}.

(** [a.localeCompare(b)], on days of one form. *)
Definition day_order (a b : string * FunnelCounts) : bool := String.leb a.1 b.1.

Definition summary (contractId : option string) (now : Z) (rows : list FunnelRow) : OnboardingSummary :=
  let rows := oldest_first rows in
  let a := foldl (tally_row (social_subjects rows)) (mkTally zero zero [] [] (λ _, [])) rows in
  let with_deposit := filter (λ s, s ∈ ta_reached a fs_deposit) (ta_reached a fs_faucet_paid) in
  {| os_asOf := toISOString now;
     os_contract := contractId;
     os_activatedSocialUsers := zlen (filter (λ s, s ∈ ta_reached a fs_borrow) with_deposit);
     os_socialUsersWithDeposit := zlen with_deposit;
     os_totals := ta_totals a;
     os_social := ta_social a;
     os_faucetOutcomes := ta_outcomes a;
     os_daily := sort_with day_order (ta_days a) |}.

(** ** People and steps

    What the counts should be, said of the rows themselves. *)

Section facts.
Implicit Types (rows : list FunnelRow) (r : FunnelRow) (st : FunnelStep) (s day : string).

Definition reaches st s r : bool := bool_decide (counted_step r = Some st) && bool_decide (fr_subject r = s).

(** The people who reached a step. *)
Definition people st rows : list string :=
  remove_dups (map fr_subject (filter (λ r, counted_step r = Some st) rows)).

(** The day of the first row that says so. *)
Definition first_day st rows s : option string :=
  (λ r, day_of (fr_createdAt r)) <$> head (filter (λ r, reaches st s r = true) rows).

Definition is_social rows s : bool := bool_decide (s ∈ social_subjects rows).

Definition claims_with (outcome : string) r : bool :=
  bool_decide (fr_step r = "faucet_claim") && bool_decide (fr_outcome r = outcome).

Lemma people_elem st rows s : s ∈ people st rows ↔ ∃ r, r ∈ rows ∧ reaches st s r = true.
Proof.
  unfold people, reaches. rewrite elem_of_remove_dups, list_elem_of_fmap. setoid_rewrite list_elem_of_filter.
  setoid_rewrite andb_true_iff. setoid_rewrite bool_decide_eq_true. naive_solver.
Qed.

Lemma first_day_snoc st rows r s : first_day st (rows ++ [r]) s =
  match first_day st rows s with
  | Some d => Some d
  | None => if reaches st s r then Some (day_of (fr_createdAt r)) else None
  end.
Proof.
  unfold first_day. rewrite filter_app, filter_cons, filter_nil.
  destruct (filter (λ r, reaches st s r = true) rows); simpl; [by destruct (reaches st s r)|done].
Qed.

Lemma first_day_some st rows s : is_Some (first_day st rows s) ↔ ∃ r, r ∈ rows ∧ reaches st s r = true.
Proof.
  unfold first_day. split.
  - destruct (filter _ rows) as [|r l] eqn:E; [by intros [? ?]|]. intros _. exists r.
    assert (r ∈ filter (λ r, reaches st s r = true) rows) as Hr by (rewrite E; left).
    by apply list_elem_of_filter in Hr as [? ?].
  - intros (r & Hr & Hc). destruct (filter _ rows) as [|r' l] eqn:E; [|by eexists].
    assert (r ∈ filter (λ r, reaches st s r = true) rows) as Hin by (by apply list_elem_of_filter).
    rewrite E in Hin. by apply elem_of_nil in Hin.
Qed.

Record tally_inv (social : list string) rows (a : tallying) : Prop := {
  ti_nodup st : NoDup (ta_reached a st);
  ti_reached st s : s ∈ ta_reached a st ↔ ∃ r, r ∈ rows ∧ reaches st s r = true;
  ti_totals st : ta_totals a st = zlen (ta_reached a st);
  ti_social st : ta_social a st = count_if (λ s, bool_decide (s ∈ social)) (ta_reached a st);
  ti_wf : map_wf (ta_days a);
  ti_days day st : default zero (map_get day (ta_days a)) st =
    count_if (λ s, bool_decide (first_day st rows s = Some day)) (ta_reached a st);
  ti_outcomes o : default 0 (map_get o (ta_outcomes a)) = count_if (claims_with o) rows;
}.

Lemma outcomes_snoc o r rows m :
  default 0 (map_get o m) = count_if (claims_with o) rows →
  default 0 (map_get o (if decide (fr_step r = "faucet_claim")
    then map_set (fr_outcome r) (default 0 (map_get (fr_outcome r) m) + 1) m else m)) =
  count_if (claims_with o) (rows ++ [r]).
Proof.
  intros H. rewrite count_if_snoc, <- H. unfold claims_with. case_decide as Hc.
  - rewrite map_get_set, (bool_decide_eq_true_2 _ Hc). simpl.
    destruct (decide (o = fr_outcome r)) as [->|Hne]; [by rewrite bool_decide_eq_true_2|].
    rewrite bool_decide_eq_false_2 by congruence. lia.
  - rewrite (bool_decide_eq_false_2 _ Hc). simpl. lia.
Qed.

(** A row that adds no one to a step changes no count of it. *)
Lemma first_day_kept st rows r s :
  (∃ r, r ∈ rows ∧ reaches st s r = true) → first_day st (rows ++ [r]) s = first_day st rows s.
Proof. intros [d Hd]%first_day_some. by rewrite first_day_snoc, Hd. Qed.

Lemma tally_skip social rows a r :
  tally_inv social rows a →
  (∀ st s, reaches st s r = true → s ∈ ta_reached a st) →
  tally_inv social (rows ++ [r]) (mkTally (ta_totals a) (ta_social a)
    (if decide (fr_step r = "faucet_claim")
     then map_set (fr_outcome r) (default 0 (map_get (fr_outcome r) (ta_outcomes a)) + 1) (ta_outcomes a)
     else ta_outcomes a) (ta_days a) (ta_reached a)).
Proof.
  intros [Hnd Hr Ht Hs Hwf Hd Ho] Hnew. split; simpl; try done.
  - intros st s. rewrite Hr. setoid_rewrite elem_of_app. setoid_rewrite list_elem_of_singleton. split; [naive_solver|].
    intros (r' & [?| ->] & Hc); [by eauto|]. by apply Hr, Hnew.
  - intros day st. rewrite Hd. apply count_if_ext. intros s Hin. apply Hr in Hin. by rewrite first_day_kept.
  - intros o. by apply outcomes_snoc.
Qed.

Lemma reaches_iff st s r : reaches st s r = true ↔ counted_step r = Some st ∧ fr_subject r = s.
Proof. unfold reaches. by rewrite andb_true_iff, !bool_decide_eq_true. Qed.

Lemma tally_row_inv social rows a r :
  tally_inv social rows a → tally_inv social (rows ++ [r]) (tally_row social a r).
Proof.
  intros Hi. unfold tally_row. destruct (counted_step r) as [st|] eqn:Ec.
  2: { apply tally_skip; [done|]. intros st s [? _]%reaches_iff. congruence. }
  case_bool_decide as Hin; [apply tally_skip; [done|]|].
  { intros st' s [Hc <-]%reaches_iff. by simplify_eq. }
  destruct Hi as [Hnd Hr Ht Hs Hwf Hd Ho].
  assert (∀ st' s, reaches st' s r = true ↔ st' = st ∧ s = fr_subject r) as Hre.
  { intros st' s. rewrite reaches_iff, Ec. naive_solver. }
  assert (first_day st rows (fr_subject r) = None) as Hnone.
  { apply eq_None_not_Some. intros Hsome%first_day_some. by apply Hin, Hr. }
  split; simpl.
  - intros st'. case_decide; [|done]. apply NoDup_app. split_and!; [done| |apply NoDup_singleton].
    by intros s ? ->%list_elem_of_singleton.
  - intros st' s. setoid_rewrite elem_of_app. setoid_rewrite list_elem_of_singleton. case_decide as Hst; [subst st'|].
    + rewrite elem_of_app, list_elem_of_singleton, Hr. split.
      * intros [(r' & ? & ?)| ->]; [by eauto|]. exists r. split; [by right|]. by apply Hre.
      * intros (r' & [?| ->] & Hc); [left; by eauto|]. right. by apply Hre in Hc as [_ ->].
    + rewrite Hr. split; [naive_solver|]. intros (r' & [?| ->] & Hc); [by eauto|]. by apply Hre in Hc as [? _].
  - intros st'. unfold bump. rewrite !Ht. case_decide; [subst|done]. by rewrite zlen_app.
  - intros st'. case_decide as Hst; [subst st'|]; [rewrite count_if_snoc|]; case_bool_decide; unfold bump;
      rewrite ?Hs, ?decide_True, ?decide_False by done; try done; lia.
  - by apply map_set_wf.
  - intros day st'. rewrite map_get_set.
    destruct (decide (st' = st)) as [->|Hst].
    + rewrite count_if_snoc, first_day_snoc, Hnone, (proj2 (Hre st _)) by done.
      rewrite (count_if_ext _ (λ s, bool_decide (first_day st rows s = Some day)) (ta_reached a st)), <- Hd
        by (intros s ?%Hr; by rewrite first_day_kept).
      destruct (decide (day = day_of (fr_createdAt r))) as [->|Hne].
      * rewrite bool_decide_eq_true_2 by done. simpl. unfold bump. by rewrite decide_True.
      * rewrite bool_decide_eq_false_2 by congruence. lia.
    + rewrite (count_if_ext _ (λ s, bool_decide (first_day st' rows s = Some day)) (ta_reached a st')), <- Hd
        by (intros s ?%Hr; by rewrite first_day_kept).
      case_decide; [|done]. subst day. simpl. unfold bump. by rewrite decide_False.
  - intros o. by apply outcomes_snoc.
Qed.

Lemma tally_inv_all social rows :
  tally_inv social rows (foldl (tally_row social) (mkTally zero zero [] [] (λ _, [])) rows).
Proof.
  induction rows as [|r rows IH] using rev_ind.
  - split; simpl; try done; [intros; constructor| |constructor].
    intros st s. split; [by intros ?%elem_of_nil|]. by intros (r & ?%elem_of_nil & _).
  - rewrite foldl_app. by apply tally_row_inv.
Qed.

Lemma reached_people social rows a st : tally_inv social rows a → ta_reached a st ≡ₚ people st rows.
Proof.
  intros Hi. apply NoDup_Permutation; [apply Hi|apply NoDup_remove_dups|]. intros s. rewrite people_elem. apply Hi.
Qed.

(** How many of a day's entry of the list a step has. *)
Definition on_day day (daily : list (string * FunnelCounts)) st : Z := default zero (map_get day daily) st.

Lemma sorted_days (m : jsmap string FunnelCounts) :
  map_wf m → map_wf (sort_with day_order m) ∧ ∀ day, map_get day (sort_with day_order m) = map_get day m.
Proof.
  intros Hwf. assert (sort_with day_order m ≡ₚ m) as Hp by apply sort_with_perm.
  assert (map_wf (sort_with day_order m)) as Hwf' by (unfold map_wf, map_keys in *; by rewrite Hp).
  split; [done|]. intros day. apply option_eq. intros c. split; intros H%map_get_elem.
  - apply map_elem_get; [done|]. by rewrite <- Hp.
  - apply map_elem_get; [done|]. by rewrite Hp.
Qed.

(** The summary counts people, not events. Each step counts the distinct
    subjects with a row for it (a chain step only where it was checked, a claim
    only where it paid), "social" those of them with a row of a social login,
    each day those who first reached the step on it, the faucet's outcomes
    its claims; and the headline counts the paid subjects who have a verified
    deposit, and those who also have a verified borrow. *)
Theorem funnel_counts_people contractId now rows0 :
  let rows := oldest_first rows0 in let sm := summary contractId now rows0 in
  (∀ st, os_totals sm st = zlen (people st rows)) ∧
  (∀ st, os_social sm st = count_if (is_social rows) (people st rows)) ∧
  (∀ day st, on_day day (os_daily sm) st = count_if (λ s, bool_decide (first_day st rows s = Some day)) (people st rows)) ∧
  StronglySorted (λ a b, String.leb a.1 b.1 = true) (os_daily sm) ∧ NoDup (map fst (os_daily sm)) ∧
  (∀ o, default 0 (map_get o (os_faucetOutcomes sm)) = count_if (claims_with o) rows) ∧
  os_socialUsersWithDeposit sm = zlen (filter (λ s, s ∈ people fs_deposit rows) (people fs_faucet_paid rows)) ∧
  os_activatedSocialUsers sm =
    zlen (filter (λ s, s ∈ people fs_deposit rows ∧ s ∈ people fs_borrow rows) (people fs_faucet_paid rows)).
Proof.
  intros rows sm. pose proof (tally_inv_all (social_subjects rows) rows) as Hi.
  unfold sm, summary. fold rows. set (a := foldl _ _ rows) in *. clearbody a. simpl.
  pose proof (λ st, reached_people _ _ _ st Hi) as Hp. destruct (sorted_days (ta_days a) (ti_wf _ _ _ Hi)) as [Hwf Hget].
  assert (∀ st s, s ∈ ta_reached a st ↔ s ∈ people st rows) as Hel by (intros st s; by rewrite Hp).
  split_and!.
  - intros st. rewrite (ti_totals _ _ _ Hi). unfold zlen. by rewrite Hp.
  - intros st. rewrite (ti_social _ _ _ Hi). by apply count_if_perm.
  - intros day st. unfold on_day. rewrite Hget, (ti_days _ _ _ Hi). by apply count_if_perm.
  - apply sort_with_orders; unfold day_order; [intros x y; apply String.leb_total|intros x y z; apply leb_trans].
  - done.
  - apply (ti_outcomes _ _ _ Hi).
  - unfold zlen. rewrite (Hp fs_faucet_paid). do 2 f_equal. apply list_filter_iff. apply Hel.
  - unfold zlen. rewrite list_filter_filter, (Hp fs_faucet_paid). do 2 f_equal. apply list_filter_iff.
    intros s. rewrite !Hel. tauto.
Qed.
End facts.

(** ** What a row of the funnel rests on *)

Section checked.
Context {W : Type} (hmac : string → string)
  (readPosition : option (string → W → result string (option PositionFacts) * W)) (now : W → Z).
Implicit Types (s : funnel W) (r : FunnelRow).

(** The contract was read and held a loan of this person's in such a state. *)
Definition loan_seen (subject step : string) : Prop :=
  ∃ read txid p, readPosition = Some read ∧ gave (read txid) (Some p) ∧
    subject = subjectOf hmac (pf_depositor p) ∧ positionReached step p = true.

Definition row_ok r : Prop :=
  (∃ address, STELLAR_ACCOUNT address = true ∧ fr_subject r = subjectOf hmac address) ∧
  (fr_step r ∈ CHAIN_STEPS → loan_seen (fr_subject r) (fr_step r)).

Record funnel_inv s : Prop := {
  fi_once : NoDup (map row_id (fn_rows s));
  fi_rows : ∀ r, r ∈ fn_rows s → row_ok r;
}.

Lemma add_row_inv f s : funnel_inv s → row_ok (f (now (fn_world s))) → funnel_inv (add_row now f s).2.
Proof.
  intros [Hnd Hr] Hok. unfold add_row, record_row. case_bool_decide as Hin; [done|]. split; simpl.
  - rewrite map_app. apply NoDup_app. split_and!; [done| |apply NoDup_singleton].
    by intros x Hx ->%list_elem_of_singleton.
  - intros r [?| ->%list_elem_of_singleton]%elem_of_app; [by apply Hr|done].
Qed.

Lemma text_that_ok p q t : text_that p q = Ok t → q = q_text t ∧ p t = true.
Proof. unfold text_that. intros H. split_in H. done. Qed.

Lemma parse_ok b (r : StepReport) : parseStepReport b = Ok r → STELLAR_ACCOUNT (sr_stellarAddress r) = true.
Proof.
  unfold parseStepReport. intros (step & _ & (a & Ha & (c & _ & (t & _ & [= <-])%bind_ok)%bind_ok)%bind_ok)%bind_ok.
  by apply text_that_ok in Ha as [_ ?].
Qed.

(** A step that passed the check was seen on the contract. *)
Lemma check_chain_step_ok (r : StepReport) s s' :
  check_chain_step readPosition r s = (Ok (), s') →
  loan_seen (subjectOf hmac (sr_stellarAddress r)) (sr_step r).
Proof.
  unfold check_chain_step, read_position, mbind, io_bind. destruct readPosition as [read|] eqn:Er; [|done].
  destruct (read (default "" (sr_txid r)) (fn_world s)) as [[[p|]|e] w] eqn:E; try done.
  destruct (negb (bool_decide _)) eqn:Eo; [done|]. destruct (negb (positionReached _ _)) eqn:Ep; [done|]. intros _. bools.
  exists read, (default "" (sr_txid r)), p. split_and!; [done| |congruence|done].
  exists (fn_world s). by rewrite E.
Qed.

Lemma check_chain_step_rows (r : StepReport) s : fn_rows (check_chain_step readPosition r s).2 = fn_rows s.
Proof.
  unfold check_chain_step, read_position, mbind, io_bind, throw. destruct readPosition as [read|]; [|done].
  destruct (read (default "" (sr_txid r)) (fn_world s)) as [[[p|]|e] w]; try done. by repeat case_match.
Qed.

Lemma report_inv body s : funnel_inv s → funnel_inv (report hmac readPosition now body s).2.
Proof.
  intros Hi. unfold report, lift. unfold mbind at 1, io_bind at 1.
  destruct (parseStepReport body) as [r|e] eqn:Ep; [|done]. apply parse_ok in Ep.
  case_bool_decide as Hc; unfold mbind at 1, io_bind at 1.
  - pose proof (check_chain_step_rows r s) as Hrows. pose proof (check_chain_step_ok r s) as Hok.
    destruct (check_chain_step readPosition r s) as [[[]|e] s1]; simpl in Hrows.
    + assert (funnel_inv s1) as Hi1 by (destruct Hi; split; by rewrite Hrows).
      unfold mbind, io_bind.
      match goal with |- context [add_row now ?f s1] => pose proof (add_row_inv f s1 Hi1) as Ha end.
      destruct (add_row _ _ s1) as [[b|] s2]; apply Ha; (split; [by eexists|]; intros _; by eapply Hok).
    + destruct Hi. split; simpl; by rewrite Hrows.
  - unfold mret, io_ret, mbind, io_bind.
    match goal with |- context [add_row now ?f s] => pose proof (add_row_inv f s Hi) as Ha end.
    destruct (add_row _ _ s) as [[b|] s2]; apply Ha; (split; [by eexists|done]).
Qed.

Lemma recordFaucet_inv address outcome s : funnel_inv s → funnel_inv (recordFaucet hmac now address outcome s).2.
Proof.
  intros Hi. unfold recordFaucet. destruct address as [|a|]; try done.
  destruct (negb (STELLAR_ACCOUNT a)) eqn:Ea; [done|]. destruct (negb (is_outcome outcome)); [done|]. bools.
  unfold mbind, io_bind. match goal with |- context [add_row now ?f s] => pose proof (add_row_inv f s Hi) as Hadd end.
  destruct (add_row _ _ s) as [[b|] s2]; apply Hadd; (split; [by eexists|]);
    intros Hin; repeat (apply elem_of_cons in Hin as [?|Hin]; [done|]); by apply elem_of_nil in Hin.
Qed.

(** Reports, claims, and whatever the world does meanwhile. *)
Inductive funnel_step s : funnel W → Prop :=
| a_report body : funnel_step s (report hmac readPosition now body s).2
| a_claim address outcome : funnel_step s (recordFaucet hmac now address outcome s).2
| a_world w : funnel_step s (mkFunnel (fn_rows s) w).

Lemma reachable_funnel_inv w s : rtc funnel_step (mkFunnel [] w) s → funnel_inv s.
Proof.
  intros Hr. assert (funnel_inv (mkFunnel [] w)) as H0 by (split; simpl; [constructor|by intros r ?%elem_of_nil]).
  induction Hr as [|s1 s2 s3 H12 _ IH]; [done|]. apply IH. destruct H12 as [body|a o|w'];
    [by apply report_inv|by apply recordFaucet_inv|by destruct H0].
Qed.

(** A deposit, borrow, repayment or release is counted for a person only
    after the relayer read, on the contract, a loan that belongs to that
    person's address in a state the step implies, whatever was posted and in
    whatever order; and a person is one row per step and outcome, stored as the
    keyed hash of a Stellar address. *)
Theorem funnel_steps_are_checked w s :
  rtc funnel_step (mkFunnel [] w) s →
  NoDup (map row_id (fn_rows s)) ∧
  (∀ r, r ∈ fn_rows s → ∃ address, STELLAR_ACCOUNT address = true ∧ fr_subject r = subjectOf hmac address) ∧
  (∀ st subject, step_name st ∈ CHAIN_STEPS → subject ∈ people st (oldest_first (fn_rows s)) →
     loan_seen subject (step_name st)).
Proof.
  intros [Hnd Hr]%reachable_funnel_inv. split_and!; [done|intros r Hin; by apply Hr|].
  intros st subject Hst (r & Hin & [Hc <-]%reaches_iff)%people_elem. unfold oldest_first in Hin.
  rewrite elem_of_sort_by in Hin. apply Hr in Hin as [_ Hseen].
  assert (fr_step r = step_name st) as Hname.
  { unfold counted_step, stepOf, step_named in Hc. destruct (decide (fr_step r = "faucet_claim")).
    - case_decide; simpl in Hc; [|done]. injection Hc as <-.
      repeat (apply elem_of_cons in Hst as [?|Hst]; [done|]); by apply elem_of_nil in Hst.
    - destruct (list_find _ FUNNEL_STEPS) as [[i st']|] eqn:E; [|done]. simpl in Hc.
      destruct (_ && _)%bool; [done|]. injection Hc as ->. by apply list_find_Some in E as (_ & ? & _). }
  rewrite <- Hname. apply Hseen. by rewrite Hname.
Qed.
End checked.

(** ** A short funnel *)

Module Demo.
Definition address : string := "GAAAAAAAAAAAAAAAAAAAAAAAAAAAAAAAAAAAAAAAAAAAAAAAAAAAAAAA".
Definition hmac (s : string) : string := "h:" +:+ s.
Definition txid : string := to_hex (replicate 32 xab).

Definition read (_ : string) (w : Z) : result string (option PositionFacts) * Z :=
  (Ok (Some {| pf_depositor := address; pf_status := ps_active; pf_debtStroops := 10 |}), w).

Definition body (step : string) : report_body := {|
  rb_step := q_text step; rb_stellarAddress := q_text address; rb_channel := q_absent; rb_txid := q_text txid |}.

Definition clock (w : Z) : Z := w.

Definition run : funnel Z :=
  let post step s := (report hmac (Some read) clock (body step) s).2 in
  post "release" (post "borrow" (post "deposit" (recordFaucet hmac clock (q_text address) "paid" (mkFunnel [] 0)).2)).

(** Deposit and borrow are counted, the release is refused. *)
Lemma funnel_steps_are_checked_witness :
  map (os_totals (summary None 0 (fn_rows run))) FUNNEL_STEPS = [0; 0; 1; 1; 1; 0; 0] ∧
  os_activatedSocialUsers (summary None 0 (fn_rows run)) = 1 ∧ NoDup (map row_id (fn_rows run)).
Proof.
  split_and!; [vm_compute; reflexivity|vm_compute; reflexivity|].
  assert (rtc (funnel_step hmac (Some read) clock) (mkFunnel [] 0) run) as Hr.
  { unfold run. eapply rtc_l; [apply a_claim|]. do 3 (eapply rtc_l; [apply a_report|]). apply rtc_refl. }
  apply (funnel_steps_are_checked hmac (Some read) clock 0 run Hr).
Defined.

(** A refused claim, which proves no sign-in, makes its address a social one. *)
Example refused_claim_counts_as_social :
  let s := (recordFaucet hmac clock (q_text address) "login_invalid"
             (report hmac (Some read) clock (body "deposit") (mkFunnel [] 0)).2).2 in
  os_social (summary None 0 (fn_rows s)) fs_deposit = 1.
Proof. by vm_compute. Qed.
End Demo.
