(* ===== verification/Pollar.v ===== *)
(** * The check of a Pollar login ([relayer/src/faucet/pollar.ts])

    One call of Pollar's Server API and a reading of its answer, field by
    field. The API is a class of one call, which answers whether the response
    is a success, its status, and its body where it is JSON. *)

From S2P Require Import Prelude JsData JsMap LendArchive Faucet.

Class PollarApi (W : Type) : Type := {
  pa_verify : string → W → result string (Z * option Json) * W;   (* the token; [None]: no JSON body *)
  pa_sha256_hex : string → string;
}.

Record PollarVerifierOptions : Type := { po_applicationId : string; po_allowEmail : bool }.

Inductive pollar_exn : Type :=
| refused (code : FaucetErrorCode) (retryAfterSeconds : option Z)   (* a [FaucetError] *)
| type_error.

Section verify.
Context {W : Type} `{PollarApi W} (opts : PollarVerifierOptions).

Definition userKeyFor (userId : string) : string := pa_sha256_hex ("writz-signet-faucet-user:" +:+ userId).

Definition unavailable {A} : result pollar_exn A := Err (refused login_check_unavailable (Some 30)).
Definition refuse_login {A} (c : FaucetErrorCode) : result pollar_exn A := Err (refused c None).

(** [v?.k] on a value that is not null: a field of an object, and nothing of
    anything else. *)
Definition json_field (k : string) (v : Json) : option Json :=
  match v with j_object fields => map_get k fields | _ => None end.

Definition json_text (v : option Json) : option string := match v with Some (j_string s) => Some s | _ => None end.

Definition is_json_text (v : option Json) (s : string) : bool := bool_decide (json_text v = Some s).

(** [if (!v)] *)
Definition json_truthy (v : option Json) : bool :=
  match v with
  | Some (j_string s) => negb (bool_decide (s = ""))
  | Some (j_number z) => negb (z =? 0)
  | Some (j_bool b) => b
  | Some j_null | None => false
  | Some _ => true
  end.

(** From the content of a verified token to the login. *)
Definition check_content (stellarAddress userId : string) (c : Json) : result pollar_exn VerifiedLogin :=
  if negb (is_json_text (json_field "applicationId" c) (po_applicationId opts)) then refuse_login login_wrong_app
  else if negb (is_json_text (json_field "network" c) "testnet") then refuse_login login_wrong_network
  else
    let wallet := json_field "wallet" c in
    let social := json_truthy wallet && is_json_text (wallet ≫= json_field "type") "internal" in
    match (if social then json_text (wallet ≫= json_field "address") else None) with
    | None => refuse_login login_not_social
    | Some address =>
        if negb (bool_decide (address = stellarAddress)) then refuse_login login_address_mismatch
        else
          let provider := toLowerCase (default "" (json_text (json_field "authProvider" c))) in
          if negb (po_allowEmail opts) && (includes "email" provider || includes "otp" provider)
          then refuse_login login_provider_not_allowed
          else Ok {| login_userKey := userKeyFor userId; login_stellar := stellarAddress |}
    end.

(** A body that is not null. *)
Definition check_body (stellarAddress : string) (status : Z) (body : Json) : result pollar_exn VerifiedLogin :=
  let code := default "" (json_text (json_field "code" body)) in
  if negb ((200 <=? status) && (status <=? 299)) then
    if decide (code = "SDK_AUTH_TOKEN_EXPIRED") then refuse_login login_expired
    else if decide (code = "SDK_AUTH_INVALID_TOKEN") then refuse_login login_invalid
    else if decide (code = "SDK_TOKEN_WRONG_APPLICATION") then refuse_login login_wrong_app
    else unavailable
  else
    match json_field "success" body, json_field "content" body with
    | Some (j_bool true), Some content =>
        match json_text (json_field "userId" content) with
        | Some userId =>
            if negb (bool_decide (code = "SERVER_TOKEN_VERIFIED")) || bool_decide (userId = "") then unavailable
            else check_content stellarAddress userId content
        | None => unavailable
        end
    | _, _ => unavailable
    end.

(** The answer of the API: a failure of ours is never the login's. *)
Definition check_answer (stellarAddress : string) (status : Z) (json : option Json) : result pollar_exn VerifiedLogin :=
  match json with
  | Some j_null => Err type_error                     (* [null.code] *)
  | Some body => check_body stellarAddress status body
  | None => check_body stellarAddress status (j_object [])
  end.

Definition verify (token stellarAddress : string) : io W pollar_exn VerifiedLogin := λ w,
  match pa_verify token w with
  | (Err _, w) => (unavailable, w)
  | (Ok (status, json), w) => (check_answer stellarAddress status json, w)
  end.
End verify.

(** ** Properties *)

Section facts.
Context {W : Type} `{PollarApi W} (opts : PollarVerifierOptions).

Lemma is_json_text_true v s : is_json_text v s = true ↔ v = Some (j_string s).
Proof.
  unfold is_json_text. rewrite bool_decide_eq_true. destruct v as [[]|]; simpl; naive_solver.
Qed.

Lemma json_text_some v s : json_text v = Some s ↔ v = Some (j_string s).
Proof. destruct v as [[]|]; simpl; naive_solver. Qed.

(** What a login must be for its account to be paid. *)
Definition genuine (stellarAddress userId : string) (c : Json) : Prop :=
  json_field "applicationId" c = Some (j_string (po_applicationId opts)) ∧
  json_field "network" c = Some (j_string "testnet") ∧
  (∃ wallet, json_field "wallet" c = Some wallet ∧ json_field "type" wallet = Some (j_string "internal") ∧
     json_field "address" wallet = Some (j_string stellarAddress)) ∧
  (po_allowEmail opts = true ∨ ∀ p, json_field "authProvider" c = Some (j_string p) →
     includes "email" (toLowerCase p) = false ∧ includes "otp" (toLowerCase p) = false).

Lemma check_content_ok a u c l : check_content opts a u c = Ok l ↔
  l = {| login_userKey := userKeyFor u; login_stellar := a |} ∧ genuine a u c.
Proof.
  unfold check_content, genuine, refuse_login.
  destruct (is_json_text (json_field "applicationId" c) _) eqn:E1; simpl.
  2: { split; [done|]. intros (_ & H1%is_json_text_true & _). congruence. }
  destruct (is_json_text (json_field "network" c) _) eqn:E2; simpl.
  2: { split; [done|]. intros (_ & _ & H2%is_json_text_true & _). congruence. }
  apply is_json_text_true in E1, E2.
  destruct (json_field "wallet" c) as [wallet|] eqn:Ew.
  2: { simpl. split; [done|]. intros (_ & _ & _ & (? & ? & _) & _). done. }
  change (Some wallet ≫= json_field "type") with (json_field "type" wallet).
  change (Some wallet ≫= json_field "address") with (json_field "address" wallet).
  assert (json_truthy (Some wallet) && is_json_text (json_field "type" wallet) "internal" =
    is_json_text (json_field "type" wallet) "internal") as -> by (destruct wallet; simpl; by rewrite ?andb_false_r).
  destruct (is_json_text (json_field "type" wallet) _) eqn:E3.
  2: { split; [done|]. intros (_ & _ & _ & (? & [= <-] & Ht%is_json_text_true & _) & _). congruence. }
  apply is_json_text_true in E3. destruct (json_text (json_field "address" wallet)) as [addr|] eqn:E4.
  2: { split; [done|]. intros (_ & _ & _ & (? & [= <-] & _ & Ha%json_text_some) & _). congruence. }
  apply json_text_some in E4. case_bool_decide as Ha; simpl.
  2: { split; [done|]. intros (_ & _ & _ & (? & [= <-] & _ & Ha') & _). congruence. }
  subst addr. destruct (negb (po_allowEmail opts) && _)%bool eqn:Ep.
  - split; [done|]. intros (_ & _ & _ & _ & [Hal|Hp]).
    + rewrite Hal in Ep. done.
    + exfalso. apply andb_true_iff in Ep as [_ Ep].
      destruct (json_text (json_field "authProvider" c)) as [p|] eqn:E5; [|done].
      apply json_text_some in E5. destruct (Hp p E5) as [H1 H2]. simpl in Ep. rewrite H1, H2 in Ep. done.
  - split.
    + intros [= <-]. split_and!; [done|done|done|by exists wallet|].
      destruct (po_allowEmail opts); [by left|right]. intros p Hp. rewrite Hp in Ep. simpl in Ep.
      by apply orb_false_iff in Ep.
    + by intros [-> _].
Qed.

Lemma check_body_ok a status body l : check_body opts a status body = Ok l ↔
  200 ≤ status ≤ 299 ∧ json_field "code" body = Some (j_string "SERVER_TOKEN_VERIFIED") ∧
  ∃ c u, json_field "success" body = Some (j_bool true) ∧ json_field "content" body = Some c ∧
    json_field "userId" c = Some (j_string u) ∧ u ≠ "" ∧ genuine a u c ∧
    l = {| login_userKey := userKeyFor u; login_stellar := a |}.
Proof.
  unfold check_body, unavailable, refuse_login. set (code := default _ _).
  destruct (_ && _)%bool eqn:Est; simpl; [|split].
  2: { intros Hx. by repeat case_decide. }
  2: { intros [Hs _]. apply andb_false_iff in Est as [?|?]; bools; lia. }
  bools. destruct (json_field "success" body) as [[| | |[]| | |]|];
    try (split; [done|]; intros (_ & _ & ? & ? & ? & _); congruence).
  destruct (json_field "content" body) as [c|]; [|split; [done|]; intros (_ & _ & ? & ? & _ & ? & _); congruence].
  destruct (json_text (json_field "userId" c)) as [u|] eqn:Eu.
  2: { split; [done|]. intros (_ & _ & ? & ? & _ & [= <-] & Hx%json_text_some & _). congruence. }
  apply json_text_some in Eu. destruct (bool_decide (code = "SERVER_TOKEN_VERIFIED")) eqn:Ec; simpl.
  2: { split; [done|]. intros (_ & Hx%json_text_some & _). bools. unfold code in Ec. by rewrite Hx in Ec. }
  bools. assert (json_field "code" body = Some (j_string "SERVER_TOKEN_VERIFIED")) as Hcode.
  { unfold code in Ec. destruct (json_text (json_field "code" body)) as [s|] eqn:Es; simpl in Ec; [|done].
    apply json_text_some in Es. congruence. }
  case_bool_decide as Hu.
  - split; [done|]. intros (_ & _ & c' & u' & _ & [= <-] & ? & ? & _). congruence.
  - rewrite check_content_ok. split.
    + intros [-> Hg]. split_and!; [lia..|done|]. by exists c, u.
    + intros (_ & _ & c' & u' & _ & [= <-] & Hu' & _ & Hg & ->). split; [congruence|]. done.
Qed.

Lemma check_body_refused a status body code retry :
  check_body opts a status body = Err (refused code retry) → code ≠ login_check_unavailable →
  ((status < 200 ∨ 299 < status) ∧
   (code, json_field "code" body) ∈ [(login_expired, Some (j_string "SDK_AUTH_TOKEN_EXPIRED"));
     (login_invalid, Some (j_string "SDK_AUTH_INVALID_TOKEN"));
     (login_wrong_app, Some (j_string "SDK_TOKEN_WRONG_APPLICATION"))]) ∨
  (200 ≤ status ≤ 299 ∧ json_field "code" body = Some (j_string "SERVER_TOKEN_VERIFIED") ∧
   ∃ c u, json_field "content" body = Some c ∧ ¬ genuine a u c).
Proof.
  intros Hc Hcode. unfold check_body, unavailable, refuse_login in Hc. set (t := default _ _) in Hc.
  assert (∀ s, t = s → s ≠ "" → json_field "code" body = Some (j_string s)) as Ht.
  { intros s <- Hne. unfold t in *. destruct (json_text (json_field "code" body)) as [x|] eqn:E; simpl in *; [|done].
    by apply json_text_some in E. }
  destruct (_ && _)%bool eqn:Est; simpl in Hc.
  - right. bools. split; [lia|]. destruct (json_field "success" body) as [[| | |[]| | |]|]; try (by simplify_eq).
    destruct (json_field "content" body) as [c|]; [|by simplify_eq].
    destruct (json_text (json_field "userId" c)) as [u|]; [|by simplify_eq].
    destruct (bool_decide (t = "SERVER_TOKEN_VERIFIED")) eqn:Ec; simpl in Hc; [|by simplify_eq]. bools.
    case_bool_decide; [by simplify_eq|]. split; [by apply Ht|]. exists c, u. split; [done|]. intros Hg.
    assert (check_content opts a u c = Ok {| login_userKey := userKeyFor u; login_stellar := a |}) as E
      by (by apply check_content_ok). congruence.
  - left. apply andb_false_iff in Est. split; [destruct Est; bools; lia|].
    repeat case_decide; simplify_eq; (erewrite Ht by done); set_solver.
Qed.

(** C34: A login is accepted exactly when Pollar verified the token for this app, on
    testnet, as a social login whose own wallet is the address that claims (and
    not by email, unless that is allowed); what is stored of the user is a
    hash. Every other answer refuses, and it refuses the user's login only
    where Pollar said so of the token, or showed another app, network, wallet,
    address or provider. *)
Theorem only_genuine_logins_claim token a w l w' :
  verify opts token a w = (Ok l, w') ↔
  ∃ status body c u, pa_verify token w = (Ok (status, Some body), w') ∧ 200 ≤ status ≤ 299 ∧
    json_field "code" body = Some (j_string "SERVER_TOKEN_VERIFIED") ∧
    json_field "success" body = Some (j_bool true) ∧ json_field "content" body = Some c ∧
    json_field "userId" c = Some (j_string u) ∧ u ≠ "" ∧ genuine a u c ∧
    l = {| login_userKey := userKeyFor u; login_stellar := a |}.
Proof.
  unfold verify. destruct (pa_verify token w) as [[[status json]|e] w1] eqn:Ev.
  2: { split; [done|]. intros (? & ? & ? & ? & ? & _). congruence. }
  split.
  - intros [= Hc <-]. destruct json as [body|].
    + assert (check_body opts a status body = Ok l) as (? & ? & c & u & ?)%check_body_ok by (by destruct body).
      exists status, body, c, u. by destruct_and!.
    + apply check_body_ok in Hc as (_ & ? & _). done.
  - intros (status' & body & c & u & [= -> -> ->] & Hs & Hcode & Hrest). f_equal.
    assert (check_body opts a status' body = Ok l) as Hb by (apply check_body_ok; split_and!; [lia..|done|by exists c, u]).
    by destruct body.
Qed.

(** A refusal that is the login's own fault is Pollar's word, or what a verified
    token showed. *)
Theorem refusals_blame_the_right_side token a w code retry w' :
  verify opts token a w = (Err (refused code retry), w') → code ≠ login_check_unavailable →
  ∃ status body, pa_verify token w = (Ok (status, Some body), w') ∧
    (((status < 200 ∨ 299 < status) ∧
     (code, json_field "code" body) ∈ [(login_expired, Some (j_string "SDK_AUTH_TOKEN_EXPIRED"));
       (login_invalid, Some (j_string "SDK_AUTH_INVALID_TOKEN"));
       (login_wrong_app, Some (j_string "SDK_TOKEN_WRONG_APPLICATION"))]) ∨
     200 ≤ status ≤ 299 ∧ json_field "code" body = Some (j_string "SERVER_TOKEN_VERIFIED") ∧
     ∃ c u, json_field "content" body = Some c ∧ ¬ genuine a u c).
Proof.
  intros Hv Hcode. unfold verify in Hv. destruct (pa_verify token w) as [[[status json]|e] w1] eqn:Ev.
  2: { injection Hv as <- _ _. done. }
  injection Hv as Hc <-. destruct json as [body|].
  - exists status, body. split; [done|]. apply (check_body_refused a status body code retry); [|done]. by destruct body.
  - apply check_body_refused in Hc as [(_ & Hin)|(_ & ? & _)]; [|done..].
    repeat (apply elem_of_cons in Hin as [?|Hin]; [done|]). by apply elem_of_nil in Hin.
Qed.
End facts.

(** ** One login *)

Module Demo.
#[local] Instance demo_api : PollarApi () := {|
  pa_verify token w :=
    (Ok (200, Some (j_object [("success", j_bool true); ("code", j_string "SERVER_TOKEN_VERIFIED");
      ("content", j_object [("userId", j_string "u1"); ("applicationId", j_string "app"); ("network", j_string "testnet");
        ("wallet", j_object [("type", j_string "internal"); ("address", j_string "GA")]);
        ("authProvider", j_string token)])])), w);
  pa_sha256_hex s := s;
|}.

Definition opts : PollarVerifierOptions := {| po_applicationId := "app"; po_allowEmail := false |}.

Lemma refusals_blame_the_right_side_witness :
  (verify opts "google" "GA" ()).1 = Ok {| login_userKey := "writz-signet-faucet-user:u1"; login_stellar := "GA" |} ∧
  (verify opts "Email-OTP" "GA" ()).1 = Err (refused login_provider_not_allowed None) ∧
  ∃ status body, pa_verify "Email-OTP" () = (Ok (status, Some body), ()) ∧ status = 200.
Proof.
  split_and!; [vm_compute; reflexivity|vm_compute; reflexivity|].
  destruct (refusals_blame_the_right_side opts "Email-OTP" "GA" () login_provider_not_allowed None ())
    as (status & body & Hv & _); [vm_compute; reflexivity|done|].
  exists status, body. split; [exact Hv|]. by injection Hv as <- _.
Defined.
End Demo.
