(* ===== verification/LendRates.v ===== *)
(** * Loans and interest as the app reads them ([frontend/app/src/lib/contracts/writzLend.ts])

    The app accrues interest itself, between two transactions of the contract,
    to show a debt as of the latest ledger: [projectRates] mirrors
    [rates::project] of the contract (contracts/writz-lend/src/rates.rs),
    which is written out below with its saturating 128-bit arithmetic as the
    reference. [BigInt] division truncates, as [Z.quot] does. *)

From S2P Require Import Prelude JsData.

(** ** Transaction ids *)

Definition internalTxid (displayHex : string) : list byte := rev (from_hex displayHex).
Definition displayTxid (internal : list byte) : string := to_hex (rev internal).

(** ** Interest *)

Definition INDEX_ONE : Z := 10 ^ 18.
Definition BP_SCALE : Z := 10000.
Definition U_OPTIMAL_BP : Z := 7500.
Definition SLOPE1_BP : Z := 800.
Definition SLOPE2_BP : Z := 20000.
Definition LEDGERS_PER_YEAR : Z := 6311520.

(** The fields of [ProtocolState] that accrual reads. *)
Record RateState : Type := {
  borrow_index : Z;
  supply_index : Z;
  index_ledger : Z;
  total_borrowed : Z;
  total_scaled_supply : Z;
}.

Definition totalSupplyAssets (p : RateState) (supplyIndex : Z) : Z :=
  (total_scaled_supply p * supplyIndex) ÷ INDEX_ONE.

Definition borrowRateBp (totalBorrowed supplyAssets : Z) : Z :=
  if (supplyAssets =? 0) || (totalBorrowed =? 0) then 0 else
  let u := (totalBorrowed * BP_SCALE) ÷ supplyAssets in
  let u := if u >? BP_SCALE then BP_SCALE else u in
  if u <=? U_OPTIMAL_BP then (u * SLOPE1_BP) ÷ U_OPTIMAL_BP
  else SLOPE1_BP + ((u - U_OPTIMAL_BP) * SLOPE2_BP) ÷ (BP_SCALE - U_OPTIMAL_BP).

Record Projection : Type := { borrowIndex : Z; supplyIndex : Z; totalBorrowed : Z }.

Definition projectRates (p : RateState) (ledger : Z) : Projection :=
  let elapsed := Z.max 0 (ledger - index_ledger p) in
  if elapsed =? 0
  then {| borrowIndex := borrow_index p; supplyIndex := supply_index p; totalBorrowed := total_borrowed p |}
  else
    let rate := borrowRateBp (total_borrowed p) (totalSupplyAssets p (supply_index p)) in
    let borrowIndex :=
      if rate >? 0
      then borrow_index p + (borrow_index p * rate * elapsed) ÷ (LEDGERS_PER_YEAR * BP_SCALE)
      else borrow_index p in
    if (total_borrowed p >? 0) && (borrowIndex >? borrow_index p) then
      let delta := (total_borrowed p * (borrowIndex - borrow_index p)) ÷ borrow_index p in
      let lenders := delta - (delta * 1500) ÷ BP_SCALE in
      {| borrowIndex := borrowIndex;
         supplyIndex :=
           if total_scaled_supply p >? 0
           then supply_index p + (lenders * INDEX_ONE) ÷ total_scaled_supply p
           else supply_index p;
         totalBorrowed := total_borrowed p + delta |}
    else {| borrowIndex := borrowIndex; supplyIndex := supply_index p; totalBorrowed := total_borrowed p |}.

(** ** Positions and pool totals *)

Inductive RawStatus : Type := Active | Closed | Liquidated.
Inductive ChainPositionStatus : Type := active | closed | liquidated.

#[global] Instance ChainPositionStatus_eq_dec : EqDecision ChainPositionStatus.
Proof. solve_decision. Defined.

Record RawPosition : Type := {
  btc_txid : list byte;
  btc_satoshis : Z;
  usdc_debt : Z;
  debt_index : Z;
  depositor : string;
  raw_status : RawStatus;
  timelock_height : Z;
  user_pubkey : list byte;
  p2wsh_script_pubkey : list byte;
}.

Definition debtAt (p : RawPosition) (borrowIndex : Z) : Z :=
  if (usdc_debt p =? 0) || (debt_index p <=? 0) then usdc_debt p
  else (usdc_debt p * borrowIndex) ÷ debt_index p.

Record ChainPosition : Type := {
  cp_txid : string;
  cp_status : ChainPositionStatus;
  cp_depositor : string;
  cp_collateralSats : Z;
  cp_debtStroops : Z;
  cp_storedDebtStroops : Z;
  cp_timelockHeight : Z;
  cp_userPubkey : string;
  cp_scriptPubKey : string;
  cp_ledger : Z;
}.

Definition STATUS (s : RawStatus) : ChainPositionStatus :=
  match s with Active => active | Closed => closed | Liquidated => liquidated end.

Definition toChainPosition (raw : RawPosition) (proto : RateState) (ledger : Z) : ChainPosition := {|
  cp_txid := displayTxid (btc_txid raw);
  cp_status := STATUS (raw_status raw);
  cp_depositor := depositor raw;
  cp_collateralSats := btc_satoshis raw;
  cp_debtStroops := debtAt raw (borrowIndex (projectRates proto ledger));
  cp_storedDebtStroops := usdc_debt raw;
  cp_timelockHeight := timelock_height raw;
  cp_userPubkey := to_hex (user_pubkey raw);
  cp_scriptPubKey := to_hex (p2wsh_script_pubkey raw);
  cp_ledger := ledger;
|}.

Record PoolState : Type := { ps_totalSupplied : Z; ps_totalBorrowed : Z; ps_available : Z }.

Definition poolStateAt (proto : RateState) (ledger : Z) : PoolState :=
  let r := projectRates proto ledger in
  let totalSupplied := totalSupplyAssets proto (supplyIndex r) in
  {| ps_totalSupplied := totalSupplied;
     ps_totalBorrowed := totalBorrowed r;
     ps_available := if totalSupplied >? totalBorrowed r then totalSupplied - totalBorrowed r else 0 |}.

(** ** Reference: the contract's [rates::project] *)

Module Contract.
Definition I128_MAX : Z := 2 ^ 127 - 1.
Definition I128_MIN : Z := - 2 ^ 127.

Definition sat (z : Z) : Z := Z.max I128_MIN (Z.min I128_MAX z).

Definition borrow_rate_bp (total_borrowed total_supply_assets : Z) : Z :=
  if (total_supply_assets =? 0) || (total_borrowed =? 0) then 0 else
  let u_bp := Z.min (sat (total_borrowed * BP_SCALE) ÷ total_supply_assets) BP_SCALE in
  if u_bp <=? U_OPTIMAL_BP then sat (u_bp * SLOPE1_BP) ÷ U_OPTIMAL_BP
  else
    let excess := u_bp - U_OPTIMAL_BP in
    let excess_rate := sat (excess * SLOPE2_BP) ÷ (BP_SCALE - U_OPTIMAL_BP) in
    sat (SLOPE1_BP + excess_rate).

Definition accrue_interest (debt rate_bp ledgers_elapsed : Z) : Z :=
  if (ledgers_elapsed =? 0) || (debt =? 0) || (rate_bp =? 0) then debt
  else
    let interest := sat (sat (debt * rate_bp) * ledgers_elapsed) ÷ sat (LEDGERS_PER_YEAR * BP_SCALE) in
    sat (debt + interest).

Definition grow_index (index rate_bp ledgers_elapsed : Z) : Z :=
  if (ledgers_elapsed <=? 0) || (rate_bp <=? 0) then index
  else accrue_interest index rate_bp ledgers_elapsed.

(** The first three components of the result; [current_ledger.saturating_sub]
    is at 0 for unsigned ledgers. *)
Definition project (proto : RateState) (current_ledger : Z) : Projection :=
  let elapsed := Z.max 0 (current_ledger - index_ledger proto) in
  if 0 <? elapsed then
    let assets := sat (total_scaled_supply proto * supply_index proto) ÷ INDEX_ONE in
    let rate := borrow_rate_bp (total_borrowed proto) assets in
    let new_index := grow_index (borrow_index proto) rate elapsed in
    if (0 <? total_borrowed proto) && (borrow_index proto <? new_index) then
      let delta := sat (total_borrowed proto * (new_index - borrow_index proto)) ÷ borrow_index proto in
      let fee := sat (delta * 1500) ÷ BP_SCALE in
      let lender_share := delta - fee in
      {| borrowIndex := new_index;
         supplyIndex :=
           if 0 <? total_scaled_supply proto
           then sat (supply_index proto + sat (lender_share * INDEX_ONE) ÷ total_scaled_supply proto)
           else supply_index proto;
         totalBorrowed := sat (total_borrowed proto + delta) |}
    else {| borrowIndex := new_index; supplyIndex := supply_index proto; totalBorrowed := total_borrowed proto |}
  else {| borrowIndex := borrow_index proto; supplyIndex := supply_index proto;
          totalBorrowed := total_borrowed proto |}.
End Contract.

(** A pool the contract may be in: indexes from 1 to about 18, up to 7.2
    billion USDC borrowed or supplied (7 decimals). *)
Record sane (p : RateState) : Prop := {
  sane_borrow_index : INDEX_ONE ≤ borrow_index p < 2 ^ 64;
  sane_supply_index : INDEX_ONE ≤ supply_index p < 2 ^ 64;
  sane_borrowed : 0 ≤ total_borrowed p < 2 ^ 56;
  sane_supply : 0 ≤ total_scaled_supply p < 2 ^ 56;
}.

(** ** Lemmas *)

Lemma sat_id z : - 2 ^ 127 ≤ z < 2 ^ 127 → Contract.sat z = z.
Proof. unfold Contract.sat, Contract.I128_MIN, Contract.I128_MAX. lia. Qed.

Lemma mul_bounds a b m n : 0 ≤ a < 2 ^ m → 0 ≤ b < 2 ^ n → 0 ≤ m → 0 ≤ n → 0 ≤ a * b < 2 ^ (m + n).
Proof. intros. rewrite Z.pow_add_r by done. nia. Qed.

Lemma quot_range a b : 0 ≤ a → 0 < b → 0 ≤ a ÷ b ∧ b * (a ÷ b) ≤ a < b * (a ÷ b) + b.
Proof.
  intros Ha Hb. rewrite Z.quot_div_nonneg by done.
  pose proof (Z.div_mod a b). pose proof (Z.mod_pos_bound a b Hb). pose proof (Z.div_pos a b Ha Hb). lia.
Qed.

Lemma quot_mono a b c : 0 ≤ a ≤ b → 0 < c → a ÷ c ≤ b ÷ c.
Proof. intros. apply Z.quot_le_mono; lia. Qed.

Definition MAX_RATE_BP : Z := SLOPE1_BP + SLOPE2_BP.

(** The utilisation lies between 0 and 100%. *)
Lemma borrowRateBp_range b s : 0 ≤ b → 0 ≤ s → 0 ≤ borrowRateBp b s ≤ MAX_RATE_BP.
Proof.
  intros Hb Hs. unfold borrowRateBp. destruct ((s =? 0) || (b =? 0)) eqn:E; [by vm_compute|]. bools.
  pose proof (quot_range (b * BP_SCALE) s ltac:(unfold BP_SCALE; nia) ltac:(lia)) as [Hu _].
  set (u := (b * BP_SCALE) ÷ s) in *.
  set (u' := if u >? BP_SCALE then BP_SCALE else u).
  assert (Hu' : 0 ≤ u' ≤ BP_SCALE) by (unfold u'; destruct (Z.gtb_spec u BP_SCALE); unfold BP_SCALE in *; lia).
  clearbody u'. unfold MAX_RATE_BP, SLOPE1_BP, SLOPE2_BP, U_OPTIMAL_BP, BP_SCALE in *.
  destruct (u' <=? 7500) eqn:E; bools.
  - pose proof (quot_range (u' * 800) 7500). lia.
  - pose proof (quot_range ((u' - 7500) * 20000) (10000 - 7500)). lia.
Qed.

Lemma borrow_rate_same b s :
  0 ≤ b < 2 ^ 56 → 0 ≤ s → Contract.borrow_rate_bp b s = borrowRateBp b s.
Proof.
  intros Hb Hs. unfold Contract.borrow_rate_bp, borrowRateBp.
  destruct ((s =? 0) || (b =? 0)) eqn:E; [done|]. bools.
  rewrite (sat_id (b * BP_SCALE)) by (unfold BP_SCALE; lia).
  pose proof (quot_range (b * BP_SCALE) s ltac:(unfold BP_SCALE; lia) ltac:(lia)) as [Hu _].
  set (u := (b * BP_SCALE) ÷ s) in *.
  replace (Z.min u BP_SCALE) with (if u >? BP_SCALE then BP_SCALE else u)
    by (destruct (Z.gtb_spec u BP_SCALE); lia).
  set (u' := if u >? BP_SCALE then BP_SCALE else u).
  assert (Hu' : 0 ≤ u' ≤ BP_SCALE) by (unfold u'; destruct (Z.gtb_spec u BP_SCALE); unfold BP_SCALE in *; lia).
  clearbody u'. unfold SLOPE1_BP, SLOPE2_BP, U_OPTIMAL_BP, BP_SCALE in *.
  pose proof (quot_range ((u' - 7500) * 20000) (10000 - 7500)).
  destruct (u' <=? 7500) eqn:E; bools; rewrite !sat_id by (try rewrite sat_id; lia); done.
Qed.

(** What an interval adds, with the guards of the code. *)
Definition growth (p : RateState) (elapsed : Z) : Z :=
  (borrow_index p * borrowRateBp (total_borrowed p) (totalSupplyAssets p (supply_index p)) * elapsed)
  ÷ (LEDGERS_PER_YEAR * BP_SCALE).

Definition interest (p : RateState) (elapsed : Z) : Z :=
  (total_borrowed p * growth p elapsed) ÷ borrow_index p.

(** The part of the interest that goes to the lenders: 85%, rounded up. *)
Definition lenders_share (delta : Z) : Z := delta - (delta * 1500) ÷ BP_SCALE.

Definition supply_growth (p : RateState) (elapsed : Z) : Z :=
  if total_scaled_supply p >? 0
  then (lenders_share (interest p elapsed) * INDEX_ONE) ÷ total_scaled_supply p else 0.

Lemma lenders_share_range d : 0 ≤ d → 0 ≤ lenders_share d ≤ d.
Proof.
  intros Hd. unfold lenders_share, BP_SCALE. pose proof (quot_range (d * 1500) 10000). lia.
Qed.

Lemma lenders_share_mono d d' : 0 ≤ d ≤ d' → lenders_share d ≤ lenders_share d'.
Proof.
  intros Hd. unfold lenders_share, BP_SCALE.
  pose proof (quot_range (d * 1500) 10000). pose proof (quot_range (d' * 1500) 10000). lia.
Qed.

Section sane.
Variable p : RateState.
Hypothesis Hp : sane p.

Let assets := totalSupplyAssets p (supply_index p).
Let rate := borrowRateBp (total_borrowed p) assets.

Lemma index_one_range : 2 ^ 59 < INDEX_ONE < 2 ^ 60.
Proof. by vm_compute. Qed.

Lemma assets_nonneg : 0 ≤ assets.
Proof.
  destruct Hp. pose proof index_one_range. apply quot_range; [apply Z.mul_nonneg_nonneg; lia|lia].
Qed.

Lemma rate_range : 0 ≤ rate ≤ MAX_RATE_BP.
Proof. apply borrowRateBp_range; [by destruct Hp; lia|apply assets_nonneg]. Qed.

Lemma growth_nonneg elapsed : 0 ≤ elapsed → 0 ≤ growth p elapsed.
Proof.
  intros He. pose proof rate_range. destruct Hp. pose proof index_one_range.
  apply quot_range; [|by vm_compute]. fold assets. fold rate. apply Z.mul_nonneg_nonneg; [nia|done].
Qed.

Lemma growth_mono e e' : 0 ≤ e ≤ e' → growth p e ≤ growth p e'.
Proof.
  intros He. pose proof rate_range. destruct Hp. pose proof index_one_range.
  apply quot_mono; [|by vm_compute]. fold assets. fold rate.
  assert (0 ≤ borrow_index p * rate) by nia. nia.
Qed.

Lemma interest_mono e e' : 0 ≤ e ≤ e' → 0 ≤ interest p e ≤ interest p e'.
Proof.
  intros He. pose proof (growth_mono e e' He). pose proof (growth_nonneg e (proj1 He)).
  destruct Hp. pose proof index_one_range. split.
  - apply quot_range; [nia|lia].
  - apply quot_mono; [nia|lia].
Qed.

Lemma supply_growth_mono e e' : 0 ≤ e ≤ e' → 0 ≤ supply_growth p e ≤ supply_growth p e'.
Proof.
  intros He. pose proof (interest_mono e e' He) as [Hi Hm]. pose proof index_one_range.
  pose proof (lenders_share_range (interest p e) Hi). pose proof (lenders_share_mono _ _ (conj Hi Hm)).
  unfold supply_growth. destruct (Z.gtb_spec (total_scaled_supply p) 0); [|lia]. split.
  - apply quot_range; [nia|done].
  - apply quot_mono; [nia|done].
Qed.

Lemma interest_zero e : growth p e = 0 ∨ total_borrowed p = 0 → interest p e = 0.
Proof.
  pose proof index_one_range. pose proof (sane_borrow_index p Hp). unfold interest.
  intros [-> | ->]; rewrite ?Z.mul_0_r; apply Z.quot_0_l; lia.
Qed.

Lemma supply_growth_zero e : interest p e = 0 → supply_growth p e = 0.
Proof.
  intros Hi. unfold supply_growth. rewrite Hi. change (lenders_share 0 * INDEX_ONE) with 0.
  destruct (Z.gtb_spec (total_scaled_supply p) 0); [apply Z.quot_0_l; lia|done].
Qed.

(** The projection without its guards: they only skip additions of nothing. *)
Lemma projectRates_eq ledger :
  projectRates p ledger =
  let e := Z.max 0 (ledger - index_ledger p) in
  {| borrowIndex := borrow_index p + growth p e;
     supplyIndex := supply_index p + supply_growth p e;
     totalBorrowed := total_borrowed p + interest p e |}.
Proof.
  cbv zeta. unfold projectRates. set (e := Z.max 0 (ledger - index_ledger p)).
  pose proof (growth_nonneg e ltac:(lia)) as Hg. pose proof rate_range as Hr.
  pose proof (sane_borrowed p Hp) as Hb. fold assets. fold rate.
  assert (Hn : interest p e = 0 → {| borrowIndex := borrow_index p + growth p e;
      supplyIndex := supply_index p + supply_growth p e; totalBorrowed := total_borrowed p + interest p e |}
    = {| borrowIndex := borrow_index p + growth p e; supplyIndex := supply_index p;
         totalBorrowed := total_borrowed p |}).
  { intros Hi. by rewrite (supply_growth_zero e Hi), Hi, !Z.add_0_r. }
  assert (Hg0 : rate = 0 ∨ e = 0 → growth p e = 0).
  { unfold growth. fold assets. fold rate. by intros [-> | ->]; rewrite ?Z.mul_0_r, ?Z.mul_0_l. }
  destruct (e =? 0) eqn:Ee; bools.
  { assert (growth p e = 0) as E by auto. by rewrite Hn, E, Z.add_0_r by (apply interest_zero; auto). }
  replace (if rate >? 0 then borrow_index p + _ else borrow_index p) with (borrow_index p + growth p e).
  2: { destruct (Z.gtb_spec rate 0); [done|]. rewrite Hg0 by lia. lia. }
  replace (borrow_index p + growth p e - borrow_index p) with (growth p e) by lia.
  destruct (Z.gtb_spec (total_borrowed p) 0); simpl; [|by rewrite Hn by (apply interest_zero; lia)].
  destruct (Z.gtb_spec (borrow_index p + growth p e) (borrow_index p)); [|by rewrite Hn by (apply interest_zero; lia)].
  f_equal. unfold supply_growth, lenders_share, interest. destruct (_ >? 0); lia.
Qed.

Lemma growth_bound e : 0 ≤ e < 2 ^ 26 →
  0 ≤ borrow_index p * rate < 2 ^ 79 ∧ 0 ≤ borrow_index p * rate * e < 2 ^ 105 ∧ 0 ≤ growth p e < 2 ^ 70.
Proof.
  intros He. pose proof (growth_nonneg e ltac:(lia)). pose proof rate_range. destruct Hp. pose proof index_one_range.
  assert (rate < 2 ^ 15) by (unfold MAX_RATE_BP, SLOPE1_BP, SLOPE2_BP in *; lia).
  assert (Hm1 : 0 ≤ borrow_index p * rate < 2 ^ (64 + 15)) by (apply mul_bounds; lia).
  assert (Hm2 : 0 ≤ borrow_index p * rate * e < 2 ^ (64 + 15 + 26)) by (apply mul_bounds; lia).
  split_and!; try lia. unfold growth. fold assets. fold rate.
  pose proof (quot_range (borrow_index p * rate * e) (LEDGERS_PER_YEAR * BP_SCALE) ltac:(lia) ltac:(by vm_compute)).
  unfold LEDGERS_PER_YEAR, BP_SCALE in *. lia.
Qed.

Lemma grow_index_same e : 0 < e < 2 ^ 26 →
  Contract.grow_index (borrow_index p) rate e = borrow_index p + growth p e ∧
  (if rate >? 0 then borrow_index p + (borrow_index p * rate * e) ÷ (LEDGERS_PER_YEAR * BP_SCALE)
   else borrow_index p) = borrow_index p + growth p e.
Proof.
  intros He. destruct (growth_bound e ltac:(lia)) as (H1 & H2 & H3). pose proof rate_range. pose proof index_one_range.
  pose proof (sane_borrow_index p Hp). unfold growth in H3 |- *. fold assets in H3 |- *. fold rate in H3 |- *.
  unfold Contract.grow_index, Contract.accrue_interest. rewrite (proj2 (Z.leb_gt e 0)) by lia. simpl.
  destruct (Z.gtb_spec rate 0).
  - rewrite (proj2 (Z.leb_gt rate 0)), (proj2 (Z.eqb_neq e 0)), (proj2 (Z.eqb_neq (borrow_index p) 0)),
      (proj2 (Z.eqb_neq rate 0)) by lia. simpl.
    rewrite (sat_id (borrow_index p * rate)), (sat_id (borrow_index p * rate * e)),
      (sat_id (LEDGERS_PER_YEAR * BP_SCALE)) by (unfold LEDGERS_PER_YEAR, BP_SCALE; lia).
    by rewrite sat_id by lia.
  - rewrite (proj2 (Z.leb_le rate 0)) by lia. replace rate with 0 by lia. by rewrite Z.mul_0_r, Z.add_0_r.
Qed.

(** Within the bounds nothing saturates, for up to ten years. *)
Lemma project_same ledger :
  ledger - index_ledger p ≤ 10 * LEDGERS_PER_YEAR → Contract.project p ledger = projectRates p ledger.
Proof.
  intros Hl. unfold projectRates, Contract.project. set (e := Z.max 0 (ledger - index_ledger p)).
  assert (He : 0 ≤ e < 2 ^ 26) by (unfold LEDGERS_PER_YEAR in *; lia).
  destruct (growth_bound e He) as (_ & _ & Hg). destruct Hp as [Hbi Hsi Hb Hs]. pose proof index_one_range as H1.
  rewrite (sat_id (total_scaled_supply p * supply_index p)) by nia.
  fold (totalSupplyAssets p (supply_index p)). fold assets.
  rewrite borrow_rate_same by (apply assets_nonneg || done). fold rate.
  destruct (Z.eqb_spec e 0) as [->|Hne]; [done|]. rewrite (proj2 (Z.ltb_lt 0 e)) by lia.
  destruct (grow_index_same e ltac:(lia)) as [-> ->]. rewrite !Z.gtb_ltb. destruct (_ && _); [|done].
  replace (borrow_index p + growth p e - borrow_index p) with (growth p e) by lia.
  assert (Hm : 0 ≤ total_borrowed p * growth p e < 2 ^ (56 + 70)) by (apply mul_bounds; lia).
  rewrite (sat_id (total_borrowed p * growth p e)) by lia. fold (interest p e).
  assert (Hi : 0 ≤ interest p e < 2 ^ 67).
  { unfold interest. pose proof (quot_range (total_borrowed p * growth p e) (borrow_index p)). nia. }
  rewrite (sat_id (interest p e * 1500)) by lia. fold (lenders_share (interest p e)).
  pose proof (lenders_share_range (interest p e)).
  rewrite (sat_id (lenders_share (interest p e) * INDEX_ONE)), (sat_id (total_borrowed p + interest p e)) by nia.
  f_equal. destruct (Z.ltb_spec 0 (total_scaled_supply p)); [|done]. apply sat_id.
  pose proof (quot_range (lenders_share (interest p e) * INDEX_ONE) (total_scaled_supply p)). nia.
Qed.

(** What the lenders hold grows by at most their share of the interest. *)
Lemma supply_assets_growth e : 0 ≤ e →
  assets ≤ totalSupplyAssets p (supply_index p + supply_growth p e) ≤ assets + lenders_share (interest p e).
Proof.
  intros He. pose proof (supply_growth_mono e e ltac:(lia)) as [Hg _].
  pose proof (interest_mono e e ltac:(lia)) as [Hi _]. pose proof (lenders_share_range _ Hi).
  destruct Hp as [_ Hsi _ Hs]. pose proof index_one_range. unfold assets, totalSupplyAssets. split.
  - apply quot_mono; [nia|lia].
  - rewrite !Z.quot_div_nonneg by nia. rewrite <- Z.div_add by lia. apply Z.div_le_mono; [lia|].
    rewrite Z.mul_add_distr_l. apply Z.add_le_mono_l. unfold supply_growth.
    destruct (Z.gtb_spec (total_scaled_supply p) 0); [|nia].
    pose proof (quot_range (lenders_share (interest p e) * INDEX_ONE) (total_scaled_supply p)). nia.
Qed.
End sane.

Lemma displayTxid_internalTxid hex :
  String.length hex = 64%nat → string_forall is_lower_hex_char hex = true → displayTxid (internalTxid hex) = hex.
Proof. intros Hl Hh. unfold displayTxid, internalTxid. rewrite rev_involutive. apply to_from_hex; [|done]. rewrite Hl. by exists 32%nat. Qed.

(** ** Properties *)


(** interest only flows from borrowers to lenders. As ledgers pass the
    borrow index, the supply index, the borrowed total and with them every
    debt only grow; the lenders are never credited more than the borrowers
    owe in addition; so what the app shows as available never grows by
    waiting, never is negative and never exceeds what the pool holds. *)
Theorem accrual_is_sound p l l' (Hp : sane p) (Hl : index_ledger p ≤ l ≤ l') :
  let r := projectRates p l in let r' := projectRates p l' in
  (borrow_index p ≤ borrowIndex r ≤ borrowIndex r' ∧ supply_index p ≤ supplyIndex r ≤ supplyIndex r' ∧
   total_borrowed p ≤ totalBorrowed r ≤ totalBorrowed r') ∧
  (∀ d, 0 ≤ usdc_debt d → 0 < debt_index d ≤ borrow_index p →
     usdc_debt d ≤ debtAt d (borrowIndex r) ≤ debtAt d (borrowIndex r')) ∧
  (totalSupplyAssets p (supplyIndex r) - totalSupplyAssets p (supply_index p) ≤ totalBorrowed r - total_borrowed p) ∧
  (let a := ps_available (poolStateAt p l) in
   0 ≤ a ≤ totalSupplyAssets p (supplyIndex r) ∧
   a ≤ Z.max 0 (totalSupplyAssets p (supply_index p) - total_borrowed p)).
Proof.
  cbv zeta. unfold poolStateAt. rewrite !projectRates_eq by done. cbn.
  rewrite (Z.max_r 0 (l - index_ledger p)), (Z.max_r 0 (l' - index_ledger p)) by lia.
  set (e := l - index_ledger p). set (e' := l' - index_ledger p).
  assert (He : 0 ≤ e ≤ e') by lia.
  pose proof (growth_nonneg p Hp e (proj1 He)). pose proof (growth_mono p Hp e e' He).
  pose proof (supply_growth_mono p Hp e e' He). pose proof (interest_mono p Hp e e' He) as [Hi _].
  pose proof (interest_mono p Hp e e' He). pose proof (lenders_share_range _ Hi).
  pose proof (supply_assets_growth p Hp e (proj1 He)). pose proof (assets_nonneg p Hp).
  pose proof index_one_range. pose proof (sane_borrow_index p Hp). pose proof (sane_borrowed p Hp). split_and!; try lia.
  - intros d Hd Hi'. unfold debtAt. destruct ((usdc_debt d =? 0) || (debt_index d <=? 0)); [lia|]. split.
    + rewrite Z.quot_div_nonneg by nia. apply Z.div_le_lower_bound; nia.
    + apply quot_mono; nia.
  - destruct (Z.gtb_spec (totalSupplyAssets p (supply_index p + supply_growth p e)) (total_borrowed p + interest p e)); lia.
  - destruct (Z.gtb_spec (totalSupplyAssets p (supply_index p + supply_growth p e)) (total_borrowed p + interest p e)); lia.
  - destruct (Z.gtb_spec (totalSupplyAssets p (supply_index p + supply_growth p e)) (total_borrowed p + interest p e)); lia.
Qed.

(** ** A concrete pool *)

Module Demo.
(** 1,000,000 USDC supplied, 800,000 borrowed: 48% a year. *)
Definition pool : RateState := {|
  borrow_index := INDEX_ONE; supply_index := INDEX_ONE; index_ledger := 1000;
  total_borrowed := 8 * 10 ^ 12; total_scaled_supply := 10 ^ 13 |}.

Lemma pool_sane : sane pool.
Proof. split; vm_compute; intuition congruence. Defined.

Example one_year :
  projectRates pool (1000 + LEDGERS_PER_YEAR) =
  {| borrowIndex := 1480000000000000000; supplyIndex := 1326400000000000000; totalBorrowed := 11840000000000 |}.
Proof. vm_compute. reflexivity. Qed.


Lemma accrual_is_sound_witness :
  borrow_index pool ≤ borrowIndex (projectRates pool 2000) ≤ borrowIndex (projectRates pool 3000).
Proof. apply (accrual_is_sound pool 2000 3000); [apply pool_sane|vm_compute; intuition congruence]. Defined.
End Demo.
