(* ===== verification/Amounts.v ===== *)
(** * Amounts as the app shows and reads them

    Satoshis and stroops are integers; the user sees and types decimals. The
    formatting and parsing of [frontend/app/src/lib/borrow/journey.ts],
    [loan/model.ts], [earn/amount.ts], [onboarding/defaults.ts] and
    [funds/model.ts]. Each regular expression of the code is the boolean
    function it decides; a parsed amount is [Ok], a message for the user is
    [Err]. *)

From S2P Require Import Prelude JsData.

Definition SATS_PER_BTC : Z := 100000000.
Definition STROOPS_PER_UNIT : Z := 10000000.
Definition STROOP : Z := 10000000.
(** [STROOP / 100n] *)
Definition cent : Z := STROOP ÷ 100.

(** ** Strings of digits *)

(** [n.toLocaleString("en-US")]: a comma before every third digit from the right. *)
Fixpoint group_digits (cs : list ascii) : list ascii :=
  match cs with
  | [] => []
  | c :: cs =>
      c :: (if (0 <? zlen cs) && (zlen cs mod 3 =? 0) then ","%char :: group_digits cs else group_digits cs)
  end.

Definition toLocaleString (n : Z) : string :=
  of_chars (if n <? 0 then "-"%char :: group_digits (dec_chars (- n)) else group_digits (dec_chars n)).

(** [n.toString().padStart(k, "0")] *)
Definition padded (k : nat) (n : Z) : string := of_chars (padStart k "0" (chars (z_to_string n))).

(** [s.padEnd(k, "0")] *)
Definition padEnd (k : nat) (cs : list ascii) : list ascii := cs ++ replicate (k - length cs) "0"%char.

(** [s.replace(/0+$/, "")] *)
Fixpoint drop_zeros (cs : list ascii) : list ascii :=
  match cs with c :: cs' => if Ascii.eqb c "0" then drop_zeros cs' else cs | [] => [] end.
Definition strip_zeros (cs : list ascii) : list ascii := rev (drop_zeros (rev cs)).

(** [s.replace(",", ".")]: the first comma. *)
Fixpoint comma_to_dot (cs : list ascii) : list ascii :=
  match cs with
  | c :: cs => if Ascii.eqb c "," then "."%char :: cs else c :: comma_to_dot cs
  | [] => []
  end.

(** [s.replace(/,/g, "")] and [s.replace(/\s/g, "")] *)
Definition remove_commas (cs : list ascii) : list ascii := List.filter (λ c, negb (Ascii.eqb c ",")) cs.
Definition remove_spaces (cs : list ascii) : list ascii := List.filter (λ c, negb (is_space c)) cs.

(** The longest prefix of digits and what follows it. *)
Fixpoint span_digits (cs : list ascii) : list ascii * list ascii :=
  match cs with
  | c :: cs' => if is_digit c then let '(d, r) := span_digits cs' in (c :: d, r) else ([], cs)
  | [] => ([], [])
  end.

(** The end, or a point and digits to the end. *)
Definition optional_fraction (cs : list ascii) : bool :=
  match cs with
  | [] => true
  | c :: cs => Ascii.eqb c "." && forallb is_digit cs
  end.

(** The test for a plain decimal: digits, and a fraction if there is a point. *)
Definition is_decimal (cs : list ascii) : bool := optional_fraction (snd (span_digits cs)).

(** One or more groups of a comma and three digits, then as above. *)
Fixpoint comma_groups (cs : list ascii) : bool :=
  match cs with
  | s :: a :: b :: c :: rest =>
      Ascii.eqb s "," && is_digit a && is_digit b && is_digit c && (optional_fraction rest || comma_groups rest)
  | _ => false
  end.

(** The test for a number with thousands commas: one to three digits, then
    groups. *)
Definition is_grouped (cs : list ascii) : bool :=
  let '(d, r) := span_digits cs in
  (1 <=? zlen d) && (zlen d <=? 3) && comma_groups r.

(** [const [whole = "", frac = ""] = v.split(".")], of a string with at most
    one point. *)
Definition split_point (cs : list ascii) : list ascii * list ascii :=
  let '(whole, rest) := span_digits cs in (whole, tail rest).

(** [BigInt(whole || "0") * unit + BigInt(frac.padEnd(k, "0") || "0")], where
    [whole] and [frac] are digits. *)
Definition fixed_point (k : nat) (whole frac : list ascii) : Z :=
  dec_value whole * 10 ^ Z.of_nat k + dec_value (padEnd k frac).

(** ** Bitcoin *)

Definition formatBtc (sats : Z) : string :=
  let neg := sats <? 0 in
  let abs := if neg then - sats else sats in
  (if neg then "-" else "") +:+ z_to_string (abs ÷ SATS_PER_BTC) +:+ "." +:+ padded 8 (Z.rem abs SATS_PER_BTC).

(** [satsToBtcInput] *)
Definition satsToBtcInput (sats : Z) : string :=
  let whole := z_to_string (sats ÷ SATS_PER_BTC) in
  let frac := of_chars (strip_zeros (chars (padded 8 (Z.rem sats SATS_PER_BTC)))) in
  if bool_decide (frac = "") then whole else whole +:+ "." +:+ frac.

(** [MIN_DEPOSIT_SATS] is a setting of the deployment. *)
Definition parseBtcAmount (MIN_DEPOSIT_SATS : Z) (input : string) : result string Z :=
  let v := comma_to_dot (chars (trim input)) in
  if bool_decide (v = []) then Err "Enter an amount."
  else if negb (is_decimal v) || bool_decide (v = ["."%char]) then Err "Enter a number, like 0.05."
  else
    let '(whole, frac) := split_point v in
    if 8 <? zlen frac then Err "BTC has at most 8 decimals."
    else
      let sats := fixed_point 8 whole frac in
      if sats <=? 0 then Err "Enter an amount above 0."
      else if sats <? MIN_DEPOSIT_SATS then Err ("Minimum " +:+ formatBtc MIN_DEPOSIT_SATS +:+ " BTC.")
      else Ok sats.

Definition DEPOSIT_FEE_RESERVE_SATS : Z := 1000.
Definition DEPOSIT_STEP_SATS : Z := 1000.

Definition suggestDepositSats (balanceSats minDepositSats : Z) : option Z :=
  let usable := balanceSats - DEPOSIT_FEE_RESERVE_SATS in
  let rounded := usable - Z.rem usable DEPOSIT_STEP_SATS in
  if minDepositSats <=? rounded then Some rounded else None.

(** ** USDC *)

(** Rounded down to [decimals] places, 2 or 7. *)
Definition formatUsdc (stroops : Z) (decimals : nat) : string :=
  let unit := 10 ^ Z.of_nat decimals in
  let units := stroops ÷ (STROOPS_PER_UNIT ÷ unit) in
  toLocaleString (units ÷ unit) +:+ "." +:+ padded decimals (Z.rem units unit).

Definition formatUsd (stroops : Z) : string := "$" +:+ toLocaleString (stroops ÷ STROOPS_PER_UNIT).

Definition parseUsdcAmount (input : string) : result string Z :=
  let v := remove_spaces (chars (trim input)) in
  if bool_decide (v = []) then Err "Enter an amount."
  else
    let v := if is_grouped v then remove_commas v else comma_to_dot v in
    if negb (is_decimal v) || bool_decide (v = ["."%char]) then Err "Enter a number, like 200."
    else
      let '(whole, frac) := split_point v in
      if 7 <? zlen frac then Err "USDC has at most 7 decimals."
      else
        let stroops := fixed_point 7 whole frac in
        if stroops <=? 0 then Err "Enter an amount above 0." else Ok stroops.

Definition toFieldValue (stroops : Z) : string :=
  let cents := stroops ÷ cent in
  toLocaleString (cents ÷ 100) +:+ "." +:+ padded 2 (Z.rem cents 100).

Definition toExactFieldValue (stroops : Z) : string :=
  let frac := of_chars (padEnd 2 (strip_zeros (chars (padded 7 (Z.rem stroops STROOP))))) in
  toLocaleString (stroops ÷ STROOP) +:+ "." +:+ frac.

(** [fmtUsdc] and [toStroops] of the Earn page. *)
Definition fmtUsdc (stroops : Z) : string :=
  let negative := stroops <? 0 in
  let abs := if negative then - stroops else stroops in
  let whole := toLocaleString (abs ÷ STROOP) in
  let frac := of_chars (strip_zeros (chars (padded 7 (Z.rem abs STROOP)))) in
  (if negative then "-" else "") +:+ whole +:+ (if bool_decide (frac = "") then "" else "." +:+ frac).

Definition toStroops (input : string) : option Z :=
  let trimmed := remove_commas (chars (trim input)) in
  if negb (is_decimal trimmed) || bool_decide (trimmed = []) || bool_decide (trimmed = ["."%char]) then None
  else
    let '(whole, frac) := split_point trimmed in
    if 7 <? zlen frac then None
    else
      let stroops := fixed_point 7 whole frac in
      if 0 <? stroops then Some stroops else None.

Definition SUGGESTED_BORROW_SHARE_PERCENT : Z := 25.
Definition CENT_STROOPS : Z := 100000.

Definition suggestBorrowStroops (maxStroops : Z) : option Z :=
  let quarter := (maxStroops * SUGGESTED_BORROW_SHARE_PERCENT) ÷ 100 in
  let rounded := quarter - Z.rem quarter CENT_STROOPS in
  if 0 <? rounded then Some rounded else None.

Definition repayShortfallStroops (debtStroops walletStroops : Z) : Z :=
  let short := debtStroops - walletStroops in
  if short <=? 0 then 0 else (short ÷ CENT_STROOPS + 1) * CENT_STROOPS.

(** *** Moving money in and out of the pool ([funds/model.ts]) *)

Record Withdrawable : Type := { wd_stroops : Z; wd_limitedByPool : bool }.

Definition withdrawable (held : Z) (liquidity : option Z) : Withdrawable :=
  match liquidity with
  | None => {| wd_stroops := held; wd_limitedByPool := false |}
  | Some l =>
      if held <=? l then {| wd_stroops := held; wd_limitedByPool := false |}
      else {| wd_stroops := if 0 <? l then l else 0; wd_limitedByPool := true |}
  end.

Definition checkAmount (input : string) (max : option Z) (over : Z → string) : result string Z :=
  stroops ← parseUsdcAmount input;
  match max with
  | Some max => if max <? stroops then Err (over max) else Ok stroops
  | None => Ok stroops
  end.

Example amount_examples :
  (formatBtc 5000000, formatUsdc 20000000000 2, formatUsd 600000000000, toExactFieldValue 14026712345,
   parseUsdcAmount "1,402.67", parseUsdcAmount "1,4", parseUsdcAmount " 12 000 ", parseUsdcAmount "1,40,2",
   toStroops (fmtUsdc 12345000000), parseBtcAmount 10000 "0,05", satsToBtcInput 19000)
  = ("0.05000000", "2,000.00", "$60,000", "1,402.6712345", Ok 14026700000, Ok 14000000, Ok 120000000000,
     Err "Enter a number, like 200.", Some 12345000000, Ok 5000000, "0.00019").
Proof. vm_compute. reflexivity. Qed.

(** ** Lemmas *)

Lemma span_digits_app ds rest :
  forallb is_digit ds = true → (if rest is c :: _ then is_digit c else false) = false →
  span_digits (ds ++ rest) = (ds, rest).
Proof.
  intros Hd Hr. induction ds as [|d ds IH]; simpl in *.
  - destruct rest as [|c rest]; [done|]. simpl. by rewrite Hr.
  - bools. by rewrite H, IH.
Qed.

Lemma split_point_app ds fs :
  forallb is_digit ds = true → split_point (ds ++ "."%char :: fs) = (ds, fs).
Proof. intros Hd. unfold split_point. by rewrite span_digits_app. Qed.

Lemma split_point_digits ds : forallb is_digit ds = true → split_point ds = (ds, []).
Proof.
  intros Hd. unfold split_point. pose proof (span_digits_app ds [] Hd eq_refl) as E.
  rewrite app_nil_r in E. by rewrite E.
Qed.

Lemma is_decimal_app ds fs :
  forallb is_digit ds = true → forallb is_digit fs = true → is_decimal (ds ++ "."%char :: fs) = true.
Proof. intros Hd Hf. unfold is_decimal. rewrite span_digits_app by done. simpl. done. Qed.

Lemma is_decimal_digits ds : forallb is_digit ds = true → is_decimal ds = true.
Proof.
  intros Hd. unfold is_decimal. pose proof (span_digits_app ds [] Hd eq_refl) as E.
  rewrite app_nil_r in E. by rewrite E.
Qed.

Lemma digit_plain c :
  is_digit c = true → is_space c = false ∧ Ascii.eqb c "," = false ∧ Ascii.eqb c "." = false.
Proof.
  pose proof (ascii_forallb (λ c, negb (is_digit c) ||
    (negb (is_space c) && negb (Ascii.eqb c ",") && negb (Ascii.eqb c "."))) eq_refl c) as H.
  cbv beta in H. intros E. rewrite E in H. simpl in H. by bools.
Qed.

(** *** Thousands *)

Lemma zlen_nil {A} : zlen (A := A) [] = 0.
Proof. done. Qed.

Lemma mod3 k j : 0 ≤ j < 3 → (3 * k + j) mod 3 = j.
Proof. intros Hj. rewrite Z.add_comm, Z.mul_comm, Z_mod_plus_full. by apply Z.mod_small. Qed.

Lemma remove_commas_digits ds : forallb is_digit ds = true → remove_commas ds = ds.
Proof.
  induction ds as [|d ds IH]; [done|]. simpl. intros H. bools.
  destruct (digit_plain d) as (_ & -> & _); [done|]. simpl. by rewrite IH.
Qed.

Lemma remove_commas_group ds : forallb is_digit ds = true → remove_commas (group_digits ds) = ds.
Proof.
  induction ds as [|d ds IH]; [done|]. simpl. intros H. bools.
  destruct (digit_plain d) as (_ & -> & _); [done|]. simpl.
  destruct ((0 <? zlen ds) && (zlen ds mod 3 =? 0)); simpl; by rewrite IH.
Qed.

Lemma group_digits_plain (p : ascii → bool) ds :
  p ","%char = true → forallb p ds = true → forallb p (group_digits ds) = true.
Proof.
  intros Hp. induction ds as [|d ds IH]; [done|]. simpl. intros H. bools.
  rewrite H. destruct ((0 <? zlen ds) && (zlen ds mod 3 =? 0)); simpl; rewrite IH by done; [by rewrite Hp|done].
Qed.

(** The comma comes where a multiple of three digits is left. *)
Lemma group_digits_comma d ds :
  ds ≠ [] → zlen ds mod 3 = 0 → group_digits (d :: ds) = d :: ","%char :: group_digits ds.
Proof.
  intros Hn Hm. simpl. destruct ds; [done|]. rewrite Hm, zlen_cons.
  rewrite (proj2 (Z.ltb_lt 0 _)) by (pose proof (zlen_nonneg ds); lia). done.
Qed.

Lemma group_digits_next d ds :
  ds = [] ∨ zlen ds mod 3 ≠ 0 → group_digits (d :: ds) = d :: group_digits ds.
Proof.
  intros H. simpl. destruct ds; [done|]. destruct H as [H|H]; [done|].
  rewrite (proj2 (Z.eqb_neq _ 0)) by done. by rewrite andb_false_r.
Qed.

Lemma group_digits_small ds : zlen ds ≤ 3 → group_digits ds = ds.
Proof.
  intros H. destruct ds as [|a [|b [|c [|d ds]]]]; try reflexivity.
  rewrite !zlen_cons in H. pose proof (zlen_nonneg ds). lia.
Qed.

Lemma comma_groups_group k : ∀ ds t,
  zlen ds = 3 * (Z.of_nat k + 1) → forallb is_digit ds = true → optional_fraction t = true →
  comma_groups (","%char :: group_digits ds ++ t) = true.
Proof.
  induction k as [|k IH]; intros ds t Hl Hd Ht;
    (destruct ds as [|a [|b [|c ds]]]; rewrite ?zlen_cons, ?zlen_nil in Hl; try lia); simpl in Hd; bools.
  - destruct ds as [|d ds]; [|rewrite zlen_cons in Hl; pose proof (zlen_nonneg ds); lia]. simpl.
    by rewrite H, H0, H1, Ht.
  - assert (zlen ds = 3 * (Z.of_nat k + 1)) as Hds by lia.
    pose proof (mod3 (Z.of_nat k + 1)) as Hm.
    rewrite (group_digits_next a), (group_digits_next b), (group_digits_comma c).
    + simpl. rewrite H, H0, H1. simpl. exact (IH ds t Hds H2 Ht).
    + intros ->. rewrite zlen_nil in Hds. lia.
    + by rewrite Hds, <- (Z.add_0_r (3 * _)), Hm.
    + right. rewrite !zlen_cons, Hds, Z.add_comm, Hm; lia.
    + right. rewrite !zlen_cons, Hds, Z.add_assoc, Z.add_comm, Hm; lia.
Qed.

(** More than three digits, grouped: up to three, a comma, and groups of three. *)
Lemma group_digits_app d1 d2 k :
  1 ≤ zlen d1 ≤ 3 → 0 ≤ k → zlen d2 = 3 * (k + 1) →
  group_digits (d1 ++ d2) = d1 ++ ","%char :: group_digits d2.
Proof.
  intros H1 Hk H2. assert (d2 ≠ []) as Hn by (intros ->; rewrite zlen_nil in H2; lia).
  pose proof (mod3 (k + 1)) as Hm. rewrite <- H2 in Hm.
  assert (zlen d2 mod 3 = 0) by (rewrite <- (Z.add_0_r (zlen d2)); apply Hm; lia).
  destruct d1 as [|a [|b [|c [|d d1]]]]; rewrite ?zlen_cons, ?zlen_nil in H1;
    try (pose proof (zlen_nonneg d1)); try lia; cbn [app].
  - by rewrite group_digits_comma.
  - rewrite group_digits_next by (right; rewrite zlen_cons, Z.add_comm, Hm; lia). by rewrite group_digits_comma.
  - rewrite (group_digits_next a), (group_digits_next b), group_digits_comma; [done..| |];
      right; rewrite !zlen_cons, ?Z.add_assoc, Z.add_comm, Hm; lia.
Qed.

Lemma is_grouped_group ds t :
  3 < zlen ds → forallb is_digit ds = true → optional_fraction t = true →
  is_grouped (group_digits ds ++ t) = true.
Proof.
  intros Hl Hd Ht. set (k := (zlen ds - 1) / 3 - 1). set (j := (zlen ds - 1) mod 3 + 1).
  assert (zlen ds = 3 * (k + 1) + j ∧ 0 ≤ k ∧ 1 ≤ j ≤ 3) as (Hk & Hk0 & Hj).
  { subst k j. pose proof (Z.div_mod (zlen ds - 1) 3). pose proof (Z.mod_pos_bound (zlen ds - 1) 3). lia. }
  assert (zlen (take (Z.to_nat j) ds) = j ∧ zlen (drop (Z.to_nat j) ds) = 3 * (k + 1)) as [H1 H2].
  { unfold zlen in *. rewrite length_take, length_drop. lia. }
  rewrite <- (take_drop (Z.to_nat j) ds), (group_digits_app _ _ k) by lia.
  rewrite <- (take_drop (Z.to_nat j) ds), forallb_app in Hd. bools.
  unfold is_grouped. rewrite <- app_assoc, <- app_comm_cons, span_digits_app by done.
  rewrite (comma_groups_group (Z.to_nat k)) by (done || lia).
  rewrite !(proj2 (Z.leb_le _ _)) by lia. done.
Qed.

(** *** Fractions *)

Lemma drop_zeros_app cs : ∃ j, cs = replicate j "0"%char ++ drop_zeros cs.
Proof.
  induction cs as [|c cs [j IH]]; [by exists 0%nat|]. simpl.
  destruct (Ascii.eqb c "0") eqn:E; [|by exists 0%nat].
  apply Ascii.eqb_eq in E as ->. exists (S j). simpl. by f_equal.
Qed.

Lemma strip_zeros_app cs : ∃ j, cs = strip_zeros cs ++ replicate j "0"%char.
Proof.
  destruct (drop_zeros_app (rev cs)) as [j E]. exists j. unfold strip_zeros.
  apply (f_equal (@rev ascii)) in E. rewrite rev_involutive, rev_app_distr in E. rewrite E at 1.
  f_equal. rewrite rev_alt. apply reverse_replicate.
Qed.

(** Zeros dropped and added back. *)
Lemma padEnd_strip cs k m :
  length cs = k → (m ≤ k)%nat → padEnd k (padEnd m (strip_zeros cs)) = cs.
Proof.
  intros Hl Hm. destruct (strip_zeros_app cs) as [j E]. rewrite E in Hl at 1.
  rewrite length_app, length_replicate in Hl. rewrite E at 2. unfold padEnd.
  rewrite <- app_assoc, <- replicate_add, !length_app, !length_replicate. do 2 f_equal. lia.
Qed.

Lemma digits_padEnd m cs : forallb is_digit cs = true → forallb is_digit (padEnd m cs) = true.
Proof. intros H. unfold padEnd. rewrite forallb_app, H. by induction (m - length cs)%nat. Qed.

Lemma digits_strip cs : forallb is_digit cs = true → forallb is_digit (strip_zeros cs) = true.
Proof.
  destruct (strip_zeros_app cs) as [j E]. rewrite E at 1. rewrite forallb_app. intros H. by bools.
Qed.

Lemma zlen_padEnd_strip cs m : zlen (padEnd m (strip_zeros cs)) ≤ Z.max (Z.of_nat m) (zlen cs).
Proof.
  destruct (strip_zeros_app cs) as [j E]. rewrite E at 2. rewrite zlen_app. unfold padEnd, zlen.
  rewrite length_app, !length_replicate. lia.
Qed.

Lemma padded_spec k n :
  (0 < k)%nat → 0 ≤ n < 10 ^ Z.of_nat k →
  length (chars (padded k n)) = k ∧ forallb is_digit (chars (padded k n)) = true ∧
  dec_value (chars (padded k n)) = n.
Proof.
  intros Hk Hn. unfold padded, z_to_string. rewrite (proj2 (Z.ltb_ge n 0)), !chars_of_chars by lia.
  destruct (dec_chars_spec n) as [Hv Hd]; [lia|]. split_and!.
  - apply padStart_length, dec_chars_length; done || lia.
  - unfold padStart. rewrite forallb_app, Hd. by induction (k - length (dec_chars n))%nat.
  - unfold padStart. by rewrite dec_value_zeros.
Qed.

(** *** Reading what was written *)

Definition no_space (c : ascii) : bool := negb (is_space c).

Lemma digits_no_space ds : forallb is_digit ds = true → forallb no_space ds = true.
Proof. apply forallb_weaken. intros c H. unfold no_space. by destruct (digit_plain c H) as (-> & _). Qed.

Lemma remove_spaces_id cs : forallb no_space cs = true → remove_spaces cs = cs.
Proof.
  induction cs as [|c cs IH]; [done|]. simpl. intros H. bools. unfold no_space in *. rewrite H. by rewrite IH.
Qed.

Lemma comma_to_dot_digits cs : forallb is_digit cs = true → comma_to_dot cs = cs.
Proof.
  induction cs as [|c cs IH]; [done|]. simpl. intros H. bools.
  destruct (digit_plain c) as (_ & -> & _); [done|]. by rewrite IH.
Qed.

Lemma comma_to_dot_id ds fs :
  forallb is_digit ds = true → forallb is_digit fs = true →
  comma_to_dot (ds ++ "."%char :: fs) = ds ++ "."%char :: fs.
Proof.
  intros Hd Hf. induction ds as [|d ds IH]; simpl in *.
  - by rewrite comma_to_dot_digits.
  - bools. destruct (digit_plain d) as (_ & -> & _); [done|]. by rewrite IH.
Qed.

Lemma chars_locale n : 0 ≤ n → chars (toLocaleString n) = group_digits (dec_chars n).
Proof. intros H. unfold toLocaleString. rewrite (proj2 (Z.ltb_ge n 0)) by lia. apply chars_of_chars. Qed.

Lemma chars_number n : 0 ≤ n → chars (z_to_string n) = dec_chars n.
Proof. intros H. unfold z_to_string. rewrite (proj2 (Z.ltb_ge n 0)) by lia. apply chars_of_chars. Qed.

Lemma trim_plain s : forallb no_space (chars s) = true → trim s = s.
Proof. apply trim_id. Qed.

(** A grouped number with a fraction reads as its digits. *)
Lemma read_grouped ds fs :
  forallb is_digit ds = true → forallb is_digit fs = true →
  let v := group_digits ds ++ "."%char :: fs in
  (if is_grouped v then remove_commas v else comma_to_dot v) = ds ++ "."%char :: fs ∧
  remove_commas v = ds ++ "."%char :: fs ∧ forallb no_space v = true.
Proof.
  intros Hd Hf v. assert (remove_commas v = ds ++ "."%char :: fs) as E.
  { subst v. unfold remove_commas. rewrite List.filter_app.
    change (List.filter _ (group_digits ds)) with (remove_commas (group_digits ds)).
    rewrite remove_commas_group by done. simpl. f_equal. f_equal. by apply remove_commas_digits. }
  split_and!; [|done|].
  - destruct (decide (3 < zlen ds)) as [Hl|Hl].
    + subst v. by rewrite is_grouped_group.
    + destruct (is_grouped v); [done|]. subst v. rewrite group_digits_small by lia. by apply comma_to_dot_id.
  - subst v. rewrite forallb_app. simpl. rewrite (digits_no_space fs) by done.
    by rewrite group_digits_plain by (done || by apply digits_no_space).
Qed.

Lemma parseUsdcAmount_reads s n fs :
  0 ≤ n → chars s = group_digits (dec_chars n) ++ "."%char :: fs →
  forallb is_digit fs = true → fs ≠ [] → zlen fs ≤ 7 →
  let stroops := n * 10 ^ 7 + dec_value (padEnd 7 fs) in
  parseUsdcAmount s = (if stroops <=? 0 then Err "Enter an amount above 0." else Ok stroops) ∧
  toStroops s = (if 0 <? stroops then Some stroops else None).
Proof.
  intros Hn Hs Hf Hne Hl stroops. destruct (dec_chars_spec n Hn) as [Hv Hd].
  destruct (read_grouped (dec_chars n) fs Hd Hf) as (E1 & E2 & E3).
  unfold parseUsdcAmount, toStroops. rewrite trim_plain, Hs by (rewrite Hs; done).
  rewrite remove_spaces_id, E1, E2 by done.
  assert (∀ l, l ++ "."%char :: fs ≠ []) as Hn0 by (by intros []).
  assert (dec_chars n ++ "."%char :: fs ≠ ["."%char]) as Hn1.
  { pose proof (dec_chars_nonempty n). destruct (dec_chars n) as [|d ds]; [done|]. by intros [= _ [_ [=]]%app_eq_nil]. }
  rewrite is_decimal_app, split_point_app by done.
  rewrite (bool_decide_eq_false_2 _ (Hn0 _)), (bool_decide_eq_false_2 _ Hn1), (bool_decide_eq_false_2 _ (Hn0 _)).
  rewrite (proj2 (Z.ltb_ge 7 _)) by done. unfold fixed_point. by rewrite Hv.
Qed.

Lemma toStroops_reads s n fs :
  0 ≤ n → forallb is_digit fs = true → zlen fs ≤ 7 →
  chars s = group_digits (dec_chars n) ++ (if bool_decide (fs = []) then [] else "."%char :: fs) →
  let stroops := n * 10 ^ 7 + dec_value (padEnd 7 fs) in
  toStroops s = if 0 <? stroops then Some stroops else None.
Proof.
  intros Hn Hf Hl Hs stroops. case_bool_decide as Hfs; [|by apply parseUsdcAmount_reads].
  subst fs. rewrite app_nil_r in Hs. destruct (dec_chars_spec n Hn) as [Hv Hd].
  unfold toStroops. rewrite trim_plain, Hs by (rewrite Hs; apply group_digits_plain; [done|by apply digits_no_space]).
  rewrite remove_commas_group, is_decimal_digits, split_point_digits by done.
  rewrite !bool_decide_eq_false_2; [|by intros E; rewrite E in Hd|apply dec_chars_nonempty].
  simpl. unfold fixed_point. by rewrite Hv.
Qed.

Lemma quot_rem_bounds a b : 0 ≤ a → 0 < b → a = (a ÷ b) * b + Z.rem a b ∧ 0 ≤ a ÷ b ∧ 0 ≤ Z.rem a b < b.
Proof.
  intros Ha Hb. pose proof (Z.quot_rem a b). pose proof (Z.quot_pos a b). pose proof (Z.rem_bound_pos a b). lia.
Qed.

Lemma parseUsdcAmount_positive input s : parseUsdcAmount input = Ok s → 0 < s.
Proof.
  unfold parseUsdcAmount. intros H. repeat (split_match; simplify_eq/=); bools; lia.
Qed.

Lemma toExactFieldValue_reads s :
  0 < s → parseUsdcAmount (toExactFieldValue s) = Ok s ∧ toStroops (toExactFieldValue s) = Some s.
Proof.
  intros Hs. destruct (quot_rem_bounds s STROOP) as (E & Hq & Hr); [lia|done|].
  destruct (padded_spec 7 (Z.rem s STROOP)) as (Hl & Hd & Hv); [lia|exact Hr|].
  set (P := chars (padded 7 (Z.rem s STROOP))) in *. set (fs := padEnd 2 (strip_zeros P)).
  destruct (parseUsdcAmount_reads (toExactFieldValue s) (s ÷ STROOP) fs) as [E1 E2].
  - done.
  - unfold toExactFieldValue. by rewrite !chars_app, chars_locale, chars_of_chars.
  - by apply digits_padEnd, digits_strip.
  - subst fs. unfold padEnd. destruct (strip_zeros P) as [|? ?]; done.
  - pose proof (zlen_padEnd_strip P 2). unfold zlen in *. subst fs. lia.
  - rewrite E1, E2. subst fs. rewrite padEnd_strip, Hv by (done || lia).
    rewrite (proj2 (Z.leb_gt _ 0)), (proj2 (Z.ltb_lt 0 _)) by (unfold STROOP in *; lia).
    split; f_equal; unfold STROOP in *; lia.
Qed.

Lemma toFieldValue_reads s :
  0 < s → parseUsdcAmount (toFieldValue s) =
    if s <? cent then Err "Enter an amount above 0." else Ok (s - s mod cent).
Proof.
  intros Hs. destruct (quot_rem_bounds s cent) as (E & Hq & Hr); [lia|done|].
  destruct (quot_rem_bounds (s ÷ cent) 100) as (E' & Hq' & Hr'); [lia|done|].
  rewrite (Z.rem_mod_nonneg s cent) in * by (done || lia).
  destruct (padded_spec 2 (Z.rem (s ÷ cent) 100)) as (Hl & Hd & Hv); [lia|exact Hr'|].
  set (fs := chars (padded 2 (Z.rem (s ÷ cent) 100))) in *.
  destruct (parseUsdcAmount_reads (toFieldValue s) (s ÷ cent ÷ 100) fs) as [-> _].
  - done.
  - unfold toFieldValue. by rewrite !chars_app, chars_locale.
  - done.
  - by intros ->.
  - unfold zlen. lia.
  - assert (dec_value (padEnd 7 fs) = Z.rem (s ÷ cent) 100 * cent) as ->.
    { unfold padEnd. rewrite Hl. simpl. unfold dec_value in *. rewrite foldl_app, Hv. simpl.
      change (digit_value "0") with 0. change cent with 100000. lia. }
    assert (s ÷ cent ÷ 100 * 10 ^ 7 + Z.rem (s ÷ cent) 100 * cent = s - s mod cent) as ->
      by (change cent with 100000 in *; lia).
    destruct (s <? cent) eqn:Hc; bools.
    + rewrite Z.mod_small by lia. by rewrite Z.sub_diag.
    + rewrite (proj2 (Z.leb_gt _ 0)); [done|]. lia.
Qed.

Lemma fmtUsdc_reads s : 0 < s → toStroops (fmtUsdc s) = Some s.
Proof.
  intros Hs. destruct (quot_rem_bounds s STROOP) as (E & Hq & Hr); [lia|done|].
  destruct (padded_spec 7 (Z.rem s STROOP)) as (Hl & Hd & Hv); [lia|exact Hr|].
  unfold fmtUsdc. rewrite (proj2 (Z.ltb_ge s 0)) by lia.
  set (P := chars (padded 7 (Z.rem s STROOP))) in *.
  rewrite (toStroops_reads _ (s ÷ STROOP) (strip_zeros P)); [|done|by apply digits_strip| |].
  - assert (padEnd 7 (strip_zeros P) = P) as ->.
    { rewrite <- (padEnd_strip P 7 0) at 2 by (done || lia). unfold padEnd. simpl. by rewrite app_nil_r. }
    rewrite Hv, (proj2 (Z.ltb_lt 0 _)); f_equal; unfold STROOP in *; lia.
  - pose proof (zlen_padEnd_strip P 0) as H. unfold padEnd in H. simpl in H. rewrite app_nil_r in H. unfold zlen in *. lia.
  - rewrite !chars_app, chars_locale by done. simpl. f_equal.
    destruct (strip_zeros P) as [|c cs] eqn:Ez; [done|].
    rewrite !bool_decide_eq_false_2; [|done|by intros ?%(f_equal chars)].
    by rewrite chars_app, chars_of_chars.
Qed.

(** A number of bitcoins with a fraction, or without one, reads as its digits. *)
Lemma parseBtcAmount_reads MIN s n fs :
  0 ≤ n → chars s = dec_chars n ++ (if bool_decide (fs = []) then [] else "."%char :: fs) →
  forallb is_digit fs = true → zlen fs ≤ 8 →
  let sats := n * 10 ^ 8 + dec_value (padEnd 8 fs) in
  0 < sats → MIN ≤ sats → parseBtcAmount MIN s = Ok sats.
Proof.
  intros Hn Hs Hf Hl sats Hpos Hmin. destruct (dec_chars_spec n Hn) as [Hv Hd].
  pose proof (dec_chars_nonempty n) as Hne.
  assert (forallb no_space (chars s) = true ∧ comma_to_dot (chars s) = chars s ∧ is_decimal (chars s) = true ∧
    split_point (chars s) = (dec_chars n, fs) ∧ chars s ≠ [] ∧ chars s ≠ ["."%char]) as (E1 & E2 & E3 & E4 & E5 & E6).
  { rewrite Hs. case_bool_decide as Hfs.
    - subst fs. rewrite app_nil_r. split_and!; try done.
      + by apply digits_no_space.
      + by apply comma_to_dot_digits.
      + by apply is_decimal_digits.
      + by apply split_point_digits.
      + intros E. by rewrite E in Hd.
    - split_and!.
      + rewrite forallb_app. simpl. by rewrite !digits_no_space.
      + by apply comma_to_dot_id.
      + by apply is_decimal_app.
      + by apply split_point_app.
      + by destruct (dec_chars n).
      + destruct (dec_chars n) as [|d ds]; [done|]. by intros [= _ [_ [=]]%app_eq_nil]. }
  unfold parseBtcAmount. rewrite trim_plain, E2, E3, E4, !bool_decide_eq_false_2 by done.
  rewrite (proj2 (Z.ltb_ge 8 _)) by done. unfold fixed_point. rewrite Hv. change (10 ^ Z.of_nat 8) with (10 ^ 8). fold sats.
  by rewrite (proj2 (Z.leb_gt sats 0)), (proj2 (Z.ltb_ge sats MIN)).
Qed.

Lemma btc_fields_read MIN s :
  0 < s → MIN ≤ s → parseBtcAmount MIN (formatBtc s) = Ok s ∧ parseBtcAmount MIN (satsToBtcInput s) = Ok s.
Proof.
  intros Hs Hmin. destruct (quot_rem_bounds s SATS_PER_BTC) as (E & Hq & Hr); [lia|done|].
  destruct (padded_spec 8 (Z.rem s SATS_PER_BTC)) as (Hl & Hd & Hv); [lia|exact Hr|].
  unfold formatBtc, satsToBtcInput. rewrite (proj2 (Z.ltb_ge s 0)) by lia.
  set (P := chars (padded 8 (Z.rem s SATS_PER_BTC))) in *.
  assert (s ÷ SATS_PER_BTC * 10 ^ 8 + dec_value P = s) as Hval by (rewrite Hv; unfold SATS_PER_BTC in *; lia).
  assert (padEnd 8 P = P ∧ padEnd 8 (strip_zeros P) = P) as [Hp1 Hp2].
  { split; [unfold padEnd; by rewrite Hl, app_nil_r|].
    rewrite <- (padEnd_strip P 8 0) at 2 by (done || lia). unfold padEnd. simpl. by rewrite app_nil_r. }
  split.
  - rewrite (parseBtcAmount_reads _ _ (s ÷ SATS_PER_BTC) P); rewrite ?Hp1; try lia; try done.
    + by rewrite Hval.
    + rewrite !chars_app, chars_number by done. simpl. rewrite bool_decide_eq_false_2; [done|]. by intros ->.
    + unfold zlen. lia.
  - rewrite (parseBtcAmount_reads _ _ (s ÷ SATS_PER_BTC) (strip_zeros P)); rewrite ?Hp2; try lia; try done.
    + by rewrite Hval.
    + destruct (strip_zeros P) as [|c cs]; [by rewrite app_nil_r, <- chars_number|].
      rewrite !bool_decide_eq_false_2; [|done|by intros ?%(f_equal chars)].
      by rewrite !chars_app, chars_of_chars, chars_number.
    + by apply digits_strip.
    + pose proof (zlen_padEnd_strip P 0) as H. unfold padEnd in H. simpl in H. rewrite app_nil_r in H.
      unfold zlen in *. lia.
Qed.

(** What the app writes into an amount field reads back: to the stroop where
    the field is exact, to the cent below where it shows cents (an amount
    under a cent is refused), and satoshis from the contract's minimum on. *)
Theorem amount_fields_read_back MIN s :
  0 < s →
  parseUsdcAmount (toExactFieldValue s) = Ok s ∧
  toStroops (fmtUsdc s) = Some s ∧
  parseUsdcAmount (toFieldValue s) =
    (if s <? cent then Err "Enter an amount above 0." else Ok (s - s mod cent)) ∧
  (MIN ≤ s → parseBtcAmount MIN (formatBtc s) = Ok s ∧ parseBtcAmount MIN (satsToBtcInput s) = Ok s).
Proof.
  intros Hs. split_and!.
  - by apply toExactFieldValue_reads.
  - by apply fmtUsdc_reads.
  - by apply toFieldValue_reads.
  - by apply btc_fields_read.
Qed.

Lemma amount_fields_read_back_witness :
  toExactFieldValue 14026712345 = "1,402.6712345" ∧ toFieldValue 14026712345 = "1,402.67" ∧
  parseUsdcAmount "1,402.6712345" = Ok 14026712345 ∧ parseUsdcAmount "1,402.67" = Ok 14026700000.
Proof.
  destruct (amount_fields_read_back 10000 14026712345 ltac:(lia)) as (E1 & _ & E2 & _).
  split; [reflexivity|]. split; [reflexivity|]. split; [exact E1|exact E2].
Defined.

(** The USDC bought for a full repayment covers the debt, and by at most a cent. *)
Lemma repayShortfall_covers debt wallet :
  wallet < debt → debt < wallet + repayShortfallStroops debt wallet ≤ debt + CENT_STROOPS.
Proof.
  intros H. unfold repayShortfallStroops. rewrite (proj2 (Z.leb_gt _ 0)) by lia.
  destruct (quot_rem_bounds (debt - wallet) CENT_STROOPS); [lia|done|]. lia.
Qed.

(** A checked amount is positive and within the cap. *)
Lemma checkAmount_ok input max over s :
  checkAmount input max over = Ok s → parseUsdcAmount input = Ok s ∧ 0 < s ∧ ∀ m, max = Some m → s ≤ m.
Proof.
  unfold checkAmount. intros H. apply bind_ok in H as (s' & Hp & H).
  pose proof (parseUsdcAmount_positive _ _ Hp). destruct max as [m|]; [|naive_solver].
  destruct (m <? s') eqn:E; bools; simplify_eq. split_and!; [done|done|]. by intros ? [= <-].
Qed.
