(* ===== verification/AppBitcoin.v ===== *)
(** * The app's own Bitcoin library ([frontend/app/src/lib/bitcoin])

    The web app builds the deposit address and the release witness itself
    ([address.ts]), as a second implementation of [bitcoin-script] that must
    agree with it, and finds a deposit's output and timelock again from the
    funding transaction alone ([timelock.ts]). bitcoinjs-lib is [ScriptLib] of
    [RedeemScript], plus the decoder of a transaction's outputs. *)

From S2P Require Import Prelude JsData Keys Spend RedeemScript RepayHandler.

(** ** [address.ts] *)

Definition encodeVarInt (n : Z) : result spend_error (list byte) :=
  if n <? 0 then Err OutOfRange
  else if n <? 0xfd then Ok [z2b n]
  else if 0xffff <? n then Err OutOfRange
  else Ok (xfd :: le_bytes 2 n).

(** The [for (const item of items)] loop. *)
Fixpoint witness_parts (items : list (list byte)) : result spend_error (list byte) :=
  match items with
  | [] => Ok []
  | item :: items =>
      len ← encodeVarInt (zlen item);
      rest ← witness_parts items;
      mret (len ++ item ++ rest)
  end.

Definition serializeWitness (items : list (list byte)) : result spend_error (list byte) :=
  count ← encodeVarInt (zlen items);
  rest ← witness_parts items;
  mret (count ++ rest).

Record P2WSHAddress : Type := {
  address : string;
  scriptPubKey : list byte;
  redeemScript : list byte;
}.

Section code.
Context `{ScriptLib} (network : Network).

Definition buildRedeemScript (protocolPubkey userPubkey : list byte) (timelockHeight : Z) :
    result script_error (list byte) :=
  if negb (zlen protocolPubkey =? 33) then Err BadProtocolPubkey
  else if negb (zlen userPubkey =? 33) then Err BadUserPubkey
  else if timelockHeight <? 100000 then Err TimelockTooLow
  else Ok (compile [
    Op OP_IF;
    Push protocolPubkey;
    Op OP_CHECKSIGVERIFY;
    Push userPubkey;
    Op OP_CHECKSIG;
    Op OP_ELSE;
    Push (number_encode timelockHeight);
    Op OP_CHECKLOCKTIMEVERIFY;
    Op OP_DROP;
    Push userPubkey;
    Op OP_CHECKSIG;
    Op OP_ENDIF ]).

Definition deriveP2WSH (protocolPubkeyHex userPubkeyHex : string) (timelockHeight : Z) :
    result script_error P2WSHAddress :=
  let protocolPubkey := from_hex protocolPubkeyHex in
  let userPubkey := from_hex userPubkeyHex in
  script ← buildRedeemScript protocolPubkey userPubkey timelockHeight;
  let '(addr, output) := p2wsh script network in
  match present addr, output with
  | Some address, Some output =>
      Ok {| address := address; scriptPubKey := output; redeemScript := script |}
  | _, _ => Err NoP2wsh
  end.
End code.

(** The finalizer [finalizePathA] hands to bitcoinjs-lib. *)
Definition finalize_input (protocolPubkey userPubkey : list byte) (input : psbt_input) :
    result spend_error (list byte) :=
  let sigs := default [] (partialSig input) in
  protocolEntry ← of_option (find_sig protocolPubkey sigs) NoProtocolSignature;
  userEntry ← of_option (find_sig userPubkey sigs) NoUserSignature;
  script ← of_option (witnessScript input) NoWitnessScript;
  serializeWitness [signature userEntry; signature protocolEntry; [x01]; script].

(** ** [timelock.ts] *)

Definition TIMELOCK_TARGET_MARGIN : Z := 52560.
Definition TIMELOCK_STEP : Z := 1000.
Definition MAX_TIMELOCK_MARGIN : Z := 105000.

Definition chooseDepositTimelock (tipHeight : Z) : Z :=
  ceil_div (tipHeight + TIMELOCK_TARGET_MARGIN) TIMELOCK_STEP * TIMELOCK_STEP.

Record DepositOutput : Type := {
  timelockHeight : Z;
  vout : Z;
  valueSats : Z;
}.

(** [Transaction.fromHex(...).outs] as (script, value). *)
Class TxLib : Type := tx_outs : string → option (list (list byte * Z)).

Inductive find_error : Type := BadTransaction | BadDerivation (e : script_error).

(** [for (let h = newest; h >= oldest; h -= TIMELOCK_STEP)]: [steps] bounds the
    rounds. *)
Fixpoint heights_down (steps : nat) (h oldest : Z) : list Z :=
  match steps with
  | O => []
  | S steps => if h >=? oldest then h :: heights_down steps (h - TIMELOCK_STEP) oldest else []
  end.

(** [if (hintTimelock)]: an absent or zero hint is none. *)
Definition hint_of (hintTimelock : option Z) : list Z :=
  match hintTimelock with Some h => if h =? 0 then [] else [h] | None => [] end.

Definition candidates (tipHeight : Z) (hintTimelock : option Z) : list Z :=
  let newest := chooseDepositTimelock tipHeight in
  let oldest := chooseDepositTimelock (Z.max 0 (tipHeight - MAX_TIMELOCK_MARGIN)) in
  hint_of hintTimelock ++
  filter (λ h, Some h ≠ hintTimelock)
    (heights_down (Z.to_nat ((newest - oldest) / TIMELOCK_STEP + 1)) newest oldest).

Section timelock.
Context `{ScriptLib, TxLib} (network : Network).

(** The loop over the candidates. *)
Fixpoint try_candidates (protocolHex userHex : string) (outs : list (list byte * Z)) (hs : list Z) :
    result find_error (option DepositOutput) :=
  match hs with
  | [] => Ok None
  | h :: hs =>
      lock ← map_err BadDerivation (deriveP2WSH network protocolHex userHex h);
      match list_find (λ o : list byte * Z, o.1 = scriptPubKey lock) outs with
      | Some (i, o) => Ok (Some {| timelockHeight := h; vout := Z.of_nat i; valueSats := o.2 |})
      | None => try_candidates protocolHex userHex outs hs
      end
  end.

Definition findDepositOutput (rawTxHex protocolHex userHex : string) (tipHeight : Z)
    (hintTimelock : option Z) : result find_error (option DepositOutput) :=
  outs ← of_option (tx_outs rawTxHex) BadTransaction;
  try_candidates protocolHex userHex outs (candidates tipHeight hintTimelock).
End timelock.

(** ** Reference: the contract's window (spv-types/src/script.rs) *)

Definition timelock_in_bounds (timelock_height confirmed_height : Z) : Prop :=
  confirmed_height + 1008 ≤ timelock_height ≤ confirmed_height + 105000.

(** ** Lemmas *)

Lemma encodeVarInt_same n : 0 ≤ n → encodeVarInt n = Spend.encodeVarInt n.
Proof.
  intros Hn. unfold encodeVarInt, Spend.encodeVarInt. repeat split_match; bools; done || lia.
Qed.

Lemma witness_parts_same items : witness_parts items = serialize_items items.
Proof.
  induction items as [|item items IH]; [done|]. cbn [witness_parts serialize_items].
  by rewrite encodeVarInt_same, IH by apply zlen_nonneg.
Qed.

Lemma serializeWitness_same items : serializeWitness items = Spend.serializeWitness items.
Proof.
  unfold serializeWitness, Spend.serializeWitness.
  by rewrite encodeVarInt_same, witness_parts_same by apply zlen_nonneg.
Qed.

(** The app's record of an address as the library's. *)
Definition as_deposit (a : P2WSHAddress) : DepositAddress := {|
  RedeemScript.address := address a;
  RedeemScript.scriptPubKey := scriptPubKey a;
  RedeemScript.redeemScript := redeemScript a;
|}.

Lemma deriveP2WSH_same `{ScriptLib} network ph uh h :
  as_deposit <$> deriveP2WSH network ph uh h =
  deriveDepositAddress {| RedeemScript.protocolPubkey := from_hex ph; RedeemScript.userPubkey := from_hex uh;
                          RedeemScript.timelockHeight := h |} network.
Proof.
  unfold deriveP2WSH, deriveDepositAddress. cbn [RedeemScript.protocolPubkey RedeemScript.userPubkey
    RedeemScript.timelockHeight].
  change (RedeemScript.buildRedeemScript (from_hex ph)) with (buildRedeemScript (from_hex ph)).
  destruct (buildRedeemScript _ _ _) as [script|e]; [|done].
  unfold mbind, result_bind. destruct (p2wsh script network) as [[a|] [o|]]; try done;
    cbn; unfold truthy, present; destruct (decide (a = "")) as [->|];
    rewrite ?bool_decide_eq_false_2 by done; done.
Qed.

Lemma finalize_input_same protocol user input w :
  finalize_input protocol user input = Ok w ↔ _finalizeA input user protocol = Ok w.
Proof.
  unfold finalize_input, _finalizeA, checked_input, mbind, result_bind, of_option.
  destruct (partialSig input) as [[|s sigs]|]; simpl default; try (split; intros; discriminate).
  destruct (witnessScript input) as [script|];
    destruct (find_sig protocol (s :: sigs)) as [p|]; destruct (find_sig user (s :: sigs)) as [u|];
    try (split; intros; discriminate).
  by rewrite serializeWitness_same.
Qed.

Lemma chooseDepositTimelock_spec t :
  t + TIMELOCK_TARGET_MARGIN ≤ chooseDepositTimelock t < t + TIMELOCK_TARGET_MARGIN + TIMELOCK_STEP ∧
  (TIMELOCK_STEP | chooseDepositTimelock t).
Proof.
  unfold chooseDepositTimelock. pose proof (ceil_div_spec (t + TIMELOCK_TARGET_MARGIN) TIMELOCK_STEP eq_refl).
  unfold TIMELOCK_STEP in *. split; [lia|]. by exists (ceil_div (t + TIMELOCK_TARGET_MARGIN) 1000).
Qed.

Lemma chooseDepositTimelock_mono t t' : t ≤ t' → chooseDepositTimelock t ≤ chooseDepositTimelock t'.
Proof.
  intros Ht. unfold chooseDepositTimelock, ceil_div, TIMELOCK_STEP.
  pose proof (Z.div_le_mono (- (t' + TIMELOCK_TARGET_MARGIN)) (- (t + TIMELOCK_TARGET_MARGIN)) 1000). lia.
Qed.

(** The loop visits every multiple of the step between its ends. *)
Lemma heights_down_complete steps h oldest k :
  0 ≤ k → oldest ≤ h - TIMELOCK_STEP * k → k < Z.of_nat steps →
  h - TIMELOCK_STEP * k ∈ heights_down steps h oldest.
Proof.
  unfold TIMELOCK_STEP. revert h k. induction steps as [|steps IH]; intros h k Hk Ho Hs; [lia|].
  cbn [heights_down]. destruct (h >=? oldest) eqn:E; [|lia]. apply elem_of_cons.
  destruct (decide (k = 0)) as [->|]; [left; lia|right].
  replace (h - 1000 * k) with (h - TIMELOCK_STEP - 1000 * (k - 1)) by (unfold TIMELOCK_STEP; lia).
  apply IH; unfold TIMELOCK_STEP; lia.
Qed.

Lemma heights_down_lower steps h oldest x : x ∈ heights_down steps h oldest → oldest ≤ x.
Proof.
  revert h. induction steps as [|steps IH]; intros h; cbn [heights_down]; [by intros ?%elem_of_nil|].
  destruct (h >=? oldest) eqn:E; [|by intros ?%elem_of_nil].
  intros [->|Hx]%elem_of_cons; [lia|by eapply IH].
Qed.

(** A height the app locked a deposit under while the tip was [made]. *)
Lemma candidates_complete tip hint made :
  0 ≤ made ≤ tip → tip - MAX_TIMELOCK_MARGIN ≤ made →
  chooseDepositTimelock made ∈ candidates tip hint.
Proof.
  intros Hm Hw. unfold candidates. apply elem_of_app.
  destruct (chooseDepositTimelock_spec made) as [Hb1 [a Ha]]. unfold TIMELOCK_TARGET_MARGIN in Hb1.
  destruct (decide (Some (chooseDepositTimelock made) = hint)) as [<-|Hne].
  { left. unfold hint_of. destruct (_ =? 0) eqn:E; bools; [lia|by apply list_elem_of_singleton]. }
  right. apply list_elem_of_filter. split; [done|].
  set (newest := chooseDepositTimelock tip). set (oldest := chooseDepositTimelock (_ `max` _)).
  assert (oldest ≤ chooseDepositTimelock made ≤ newest) by (split; apply chooseDepositTimelock_mono; lia).
  destruct (chooseDepositTimelock_spec tip) as [_ [b Hb]]. fold newest in Hb.
  assert (E : chooseDepositTimelock made = newest - TIMELOCK_STEP * (b - a)) by lia.
  assert (b - a ≤ (newest - oldest) / TIMELOCK_STEP)
    by (apply Z.div_le_lower_bound; unfold TIMELOCK_STEP in *; lia).
  rewrite E. apply heights_down_complete; unfold TIMELOCK_STEP in *; lia.
Qed.

(** No candidate is below the least height the script allows. *)
Lemma candidates_valid tip hint h :
  152440 ≤ tip → (∀ x, hint = Some x → x = 0 ∨ 100000 ≤ x) → h ∈ candidates tip hint → 100000 ≤ h.
Proof.
  intros Ht Hh Hin. unfold candidates in Hin. apply elem_of_app in Hin as [Hin|Hin].
  - unfold hint_of in Hin. destruct hint as [x|]; [|by apply elem_of_nil in Hin].
    destruct (x =? 0) eqn:E; bools; [by apply elem_of_nil in Hin|].
    apply list_elem_of_singleton in Hin as ->. destruct (Hh _ eq_refl); lia.
  - apply list_elem_of_filter in Hin as [_ Hin%heights_down_lower].
    pose proof (chooseDepositTimelock_spec (Z.max 0 (tip - MAX_TIMELOCK_MARGIN))) as [Hc _].
    unfold MAX_TIMELOCK_MARGIN, TIMELOCK_TARGET_MARGIN in *. lia.
Qed.

(** The candidate of an output: the lock derived for it is that output's
    script, and no earlier output has it. *)
Definition pays `{ScriptLib} network ph uh (outs : list (list byte * Z)) (d : DepositOutput) : Prop :=
  ∃ lock i, deriveP2WSH network ph uh (timelockHeight d) = Ok lock ∧ vout d = Z.of_nat i ∧
    outs !! i = Some (scriptPubKey lock, valueSats d) ∧
    ∀ j o, (j < i)%nat → outs !! j = Some o → o.1 ≠ scriptPubKey lock.

Lemma try_candidates_spec `{ScriptLib} network ph uh outs hs :
  (∀ h, h ∈ hs → is_ok (deriveP2WSH network ph uh h) = true) →
  ∃ r, try_candidates network ph uh outs hs = Ok r ∧
    match r with
    | Some d => pays network ph uh outs d ∧ timelockHeight d ∈ hs
    | None => ∀ h lock, h ∈ hs → deriveP2WSH network ph uh h = Ok lock → scriptPubKey lock ∉ outs.*1
    end.
Proof.
  induction hs as [|h hs IH]; intros Hd; cbn [try_candidates].
  { eexists. split; [done|]. by intros h lock ?%elem_of_nil. }
  pose proof (Hd h (list_elem_of_here _ _)) as Hh.
  destruct (deriveP2WSH network ph uh h) as [lock|e] eqn:El; [clear Hh|done]. cbn.
  destruct (list_find _ outs) as [[i o]|] eqn:Ef.
  - eexists. split; [done|]. cbn. split; [|apply list_elem_of_here].
    apply list_find_Some in Ef as (Hi & Ho & Hmin).
    exists lock, i. cbn. split_and!; [done|done| |by eauto].
    by destruct o; simpl in *; subst.
  - destruct IH as (r & -> & Hr); [by intros x Hx; apply Hd; right|].
    exists r. split; [done|]. destruct r as [d|].
    + destruct Hr. split; [done|]. by right.
    + intros x lx [->|Hx]%elem_of_cons Hlx; [|by eapply Hr].
      intros (o & Ho & Hin)%list_elem_of_fmap. apply list_find_None in Ef.
      rewrite Forall_forall in Ef. assert (lx = lock) as -> by congruence. by apply (Ef o Hin).
Qed.

(** ** Properties *)

(** C31: the app builds what the protocol's library builds. Its address, output
    script and redeem script are those of [deriveDepositAddress] for the same
    keys and height, errors included, so a deposit made through the app is
    locked by the script the relayer releases; and its finalizer accepts
    exactly the inputs [_finalizeA] accepts, with the same witness. *)
Theorem app_matches_library `{ScriptLib} (network : Network) :
  (∀ ph uh h,
     as_deposit <$> deriveP2WSH network ph uh h =
     deriveDepositAddress {| RedeemScript.protocolPubkey := from_hex ph;
                             RedeemScript.userPubkey := from_hex uh;
                             RedeemScript.timelockHeight := h |} network) ∧
  (∀ protocol user input w,
     finalize_input protocol user input = Ok w ↔ _finalizeA input user protocol = Ok w).
Proof. split; intros; [apply deriveP2WSH_same|apply finalize_input_same]. Qed.

(** a deposit can always be found again from its transaction. Once the
    chain is past block 152,440, with well-formed keys, the search never
    throws on a readable transaction; an output it returns is the first one
    paying the lock of the height it returns; and it returns one whenever the
    transaction pays the lock the app chose at any tip of the last 105,000
    blocks, or the hinted one. That chosen height is within the contract's
    window for every confirmation up to 51,552 blocks later. *)
Theorem findDepositOutput_finds `{ScriptLib, TxLib} (network : Network) raw ph uh tip hint outs
    (Hraw : tx_outs raw = Some outs)
    (Hkeys : zlen (from_hex ph) = 33 ∧ zlen (from_hex uh) = 33)
    (Hp2wsh : ∀ script, ∃ addr output, addr ≠ "" ∧ p2wsh script network = (Some addr, Some output))
    (Htip : 152440 ≤ tip) (Hhint : ∀ h, hint = Some h → h = 0 ∨ 100000 ≤ h) :
  ∃ r, findDepositOutput network raw ph uh tip hint = Ok r ∧
    (∀ d, r = Some d → pays network ph uh outs d) ∧
    (∀ made lock, 0 ≤ made ≤ tip → tip - MAX_TIMELOCK_MARGIN ≤ made →
       deriveP2WSH network ph uh (chooseDepositTimelock made) = Ok lock →
       scriptPubKey lock ∈ outs.*1 →
       r ≠ None ∧ ∀ confirmed, made ≤ confirmed ≤ made + 51552 →
                    timelock_in_bounds (chooseDepositTimelock made) confirmed) ∧
    (∀ h lock, hint = Some h → h ≠ 0 → deriveP2WSH network ph uh h = Ok lock →
       scriptPubKey lock ∈ outs.*1 → r ≠ None).
Proof.
  unfold findDepositOutput. rewrite Hraw. cbn.
  destruct (try_candidates_spec network ph uh outs (candidates tip hint)) as (r & Hr & Hspec).
  { intros h Hin. pose proof (candidates_valid _ _ _ Htip Hhint Hin).
    destruct Hkeys as [Hp Hu]. unfold deriveP2WSH, buildRedeemScript. rewrite Hp, Hu.
    destruct (h <? 100000) eqn:E; bools; [lia|]. cbn.
    destruct (Hp2wsh (compile (script_items (from_hex ph) (from_hex uh) h))) as (a & o & Ha & Ep).
    unfold script_items in Ep. rewrite Ep. cbn. by rewrite bool_decide_eq_false_2. }
  exists r. split; [exact Hr|]. split_and!.
  - intros d ->. apply Hspec.
  - intros made lock Hm Hw Hl Hin. split.
    + intros ->. by apply (Hspec _ lock (candidates_complete tip hint made Hm Hw)).
    + intros c Hc. pose proof (chooseDepositTimelock_spec made) as [Hb _].
      unfold timelock_in_bounds, TIMELOCK_TARGET_MARGIN, TIMELOCK_STEP in *. lia.
  - intros h lock -> Hh Hl Hin ->. apply (Hspec h lock); [|done..].
    unfold candidates, hint_of. apply elem_of_app. left.
    destruct (h =? 0) eqn:E; bools; [done|by apply list_elem_of_singleton].
Qed.

(** ** A concrete search *)

Module Demo.
#[local] Existing Instance RedeemScript.Demo.lib.

Definition protocolHex : string := to_hex RedeemScript.Demo.protocol.
Definition userHex : string := to_hex RedeemScript.Demo.user.

(** Paid while the tip was at 260,000: the lock chosen was 313,000. *)
Definition lock_script : list byte :=
  match deriveP2WSH testnet protocolHex userHex 313000 with Ok l => scriptPubKey l | Err _ => [] end.

Definition outs : list (list byte * Z) := [([x00], 700); (lock_script, 25000)].

#[local] Instance txs : TxLib := λ _, Some outs.

Example found_without_a_hint :
  findDepositOutput testnet "00" protocolHex userHex 261500 None =
  Ok (Some {| timelockHeight := 313000; vout := 1; valueSats := 25000 |}).
Proof. vm_compute. reflexivity. Qed.

Lemma findDepositOutput_finds_witness :
  ∃ r, findDepositOutput testnet "00" protocolHex userHex 261500 None = Ok r ∧ r ≠ None.
Proof.
  destruct (findDepositOutput_finds testnet "00" protocolHex userHex 261500 None outs) as (r & Hr & _ & Hf & _).
  - reflexivity.
  - split; vm_compute; reflexivity.
  - intros script. exists "bc1q"%string, script. split; [discriminate|reflexivity].
  - lia.
  - discriminate.
  - exists r. split; [exact Hr|].
    destruct (deriveP2WSH testnet protocolHex userHex 313000) as [lock|e] eqn:El; [|vm_compute in El; discriminate].
    refine (proj1 (Hf 260000 lock _ _ El _)); [lia|unfold MAX_TIMELOCK_MARGIN; lia|].
    apply list_elem_of_fmap. exists (lock_script, 25000). split; [unfold lock_script; rewrite El; reflexivity|].
    right. left.
Defined.
End Demo.
