(* ===== verification/Rejection.v ===== *)
(** * Declined signatures ([frontend/app/src/lib/wallet/rejection.ts])

    A wallet says that its user declined in words of its own. The two patterns
    of the code are matched as the regular expressions they are: an
    alternative, without regard to case, between two word boundaries. *)

From S2P Require Import Prelude JsData.

Inductive Wallet : Type := stellar | bitcoin.

#[global] Instance Wallet_eq_dec : EqDecision Wallet.
Proof. solve_decision. Defined.

(** ** Word patterns *)

(** [\w] *)
Definition is_word_char (c : ascii) : bool :=
  in_range "a" "z" c || in_range "A" "Z" c || in_range "0" "9" c || bool_decide (c = "_"%char).

(** [\b] between these two neighbours; [None] is an end of the text. *)
Definition boundary (before after : option ascii) : bool :=
  xorb (from_option is_word_char false before) (from_option is_word_char false after).

(** The word, in any case, and then [\b]: the character before the boundary is
    the last one matched. *)
Fixpoint word_here (prev : option ascii) (word cs : list ascii) : bool :=
  match word, cs with
  | [], _ => boundary prev (head cs)
  | w :: word, c :: cs => bool_decide (w = char_lower c) && word_here (Some c) word cs
  | _ :: _, [] => false
  end.

(** [/\b(w1|w2|...)\b/i.test(text)] *)
Fixpoint words_from (words : list string) (prev : option ascii) (cs : list ascii) : bool :=
  (boundary prev (head cs) && existsb (λ w, word_here prev (chars w) cs) words)
  || match cs with [] => false | c :: cs => words_from words (Some c) cs end.

Definition has_word (words : list string) (text : string) : bool :=
  words_from words None (chars text).

(** [/\b(reject(ed|s|ing)?|declin(e|ed|es|ing)|denied)\b/i] *)
Definition decision_words : list string :=
  ["reject"; "rejected"; "rejects"; "rejecting"; "decline"; "declined"; "declines"; "declining"; "denied"].

(** [/\b(cancel(ed|led|s)?|dismiss(ed)?|closed)\b/i] *)
Definition ambiguous_words : list string :=
  ["cancel"; "canceled"; "cancelled"; "cancels"; "dismiss"; "dismissed"; "closed"].

(** [/\b(user|you|modal|popup|window|prompt|request)\b/i] *)
Definition actor_words : list string := ["user"; "you"; "modal"; "popup"; "window"; "prompt"; "request"].

Definition isUserRejection (message : string) : bool :=
  has_word decision_words message || (has_word ambiguous_words message && has_word actor_words message).

(** ** Thrown values *)

Definition SIGNATURE_REJECTED : string := "SignatureRejected".

(** What may be thrown: the class of this file, another [Error] with its
    message, a string, or anything else, with its [message] if it has one that
    is a string, and what [String(e)] gives. *)
Inductive thrown : Type :=
| SignatureRejectedError (wallet : Wallet) (walletName : option string)
| JsError (message : string)
| JsString (s : string)
| JsValue (message : option string) (text : string).

#[global] Instance thrown_eq_dec : EqDecision thrown.
Proof. solve_decision. Defined.

Definition errorMessage (e : thrown) : string :=
  match e with
  | SignatureRejectedError _ _ => SIGNATURE_REJECTED
  | JsError message => message
  | JsString s => s
  | JsValue (Some message) _ => message
  | JsValue None text => text
  end.

Definition isSignatureRejected (e : thrown) : bool :=
  match e with
  | SignatureRejectedError _ _ => true
  | _ => bool_decide (errorMessage e = SIGNATURE_REJECTED)
  end.

Definition walletLabel (e : thrown) : string :=
  match e with
  | SignatureRejectedError wallet walletName =>
      match present walletName with
      | Some n => n
      | None => match wallet with bitcoin => "Xverse" | stellar => "your wallet" end
      end
  | _ => "your wallet"
  end.

Definition asRejection (e : thrown) (wallet : Wallet) (walletName : option string) : option thrown :=
  match e with
  | SignatureRejectedError _ _ => Some e
  | _ =>
      if bool_decide (errorMessage e = SIGNATURE_REJECTED) || isUserRejection (errorMessage e)
      then Some (SignatureRejectedError wallet walletName)
      else None
  end.

Definition withRejection {S A} (wallet : Wallet) (walletName : option string) (call : io S thrown A) :
    io S thrown A :=
  try_catch call (λ e, throw (default e (asRejection e wallet walletName))).

(** ** Lemmas *)

(** What [withRejection] throws is a declined signature exactly when the
    wallet's own error was one. *)
Definition declined (e : thrown) : bool :=
  isSignatureRejected e || isUserRejection (errorMessage e).

Lemma asRejection_spec e w name :
  isSignatureRejected (default e (asRejection e w name)) = declined e ∧
  (declined e = false → default e (asRejection e w name) = e).
Proof.
  unfold declined, asRejection, isSignatureRejected. destruct e; simpl; try done;
    case_bool_decide; simpl; try done; destruct (isUserRejection _); simpl; rewrite ?bool_decide_eq_false_2; done.
Qed.

Lemma withRejection_ok {S A} w name (call : io S thrown A) s a s' :
  call s = (Ok a, s') → withRejection w name call s = (Ok a, s').
Proof. intros H. unfold withRejection, try_catch. by rewrite H. Qed.

Lemma withRejection_err {S A} w name (call : io S thrown A) s e s' :
  call s = (Err e, s') → withRejection w name call s = (Err (default e (asRejection e w name)), s').
Proof. intros H. unfold withRejection, try_catch. by rewrite H. Qed.

Example wallets_declining :
  map isUserRejection
    ["User declined access"; "The user rejected this request."; "Action canceled by the user";
     "the connection was closed"; "request cancelled"; "Rejections are logged"; "PREREJECTED"; "You closed the popup"] =
  [true; true; true; false; true; false; false; true].
Proof. vm_compute. reflexivity. Qed.
