(* ===== verification/TxLock.v ===== *)
(** * One transaction at a time in the app ([frontend/app/src/lib/flow/lock.ts])

    The lock registry of a tab where the browser has no Web Locks: a set of
    held names with a queue of waiting grants each, and what the tab knows of
    the transactions of other tabs. A call of [holdLock] is a request with a
    number; [granted] holds the requests whose release function is out. Taking
    the transaction lock and counting it is one step. With Web Locks the browser
    keeps the set and the queues. *)

From S2P Require Import Prelude JsData.

Definition txLockName (account : string) : string := "writz.tx." +:+ account.
Definition depositLockName (account : string) : string := "writz.deposit." +:+ account.
Definition indexLockName (owner : string) : string := "writz.index." +:+ owner.

Record registry : Type := mkRegistry {
  localHeld : gset string;
  localWaiters : gmap string (list nat);
  granted : gmap nat string;
  here : gmap string Z;
  elsewhere : gset string;
}.

Definition no_registry : registry := mkRegistry ∅ ∅ ∅ ∅ ∅.

Inductive TxLockState : Type := lock_free | lock_here | lock_elsewhere.

#[global] Instance TxLockState_eq_dec : EqDecision TxLockState.
Proof. solve_decision. Defined.

Definition here_count (account : string) (r : registry) : Z := default 0 (here r !! account).

Definition txLockState (account : string) (r : registry) : TxLockState :=
  if 0 <? here_count account r then lock_here
  else if bool_decide (account ∈ elsewhere r) then lock_elsewhere else lock_free.

(** ** Holding and releasing *)

(** [grant] *)
Definition grant (i : nat) (name : string) (r : registry) : registry :=
  mkRegistry ({[name]} ∪ localHeld r) (localWaiters r) (<[i := name]> (granted r)) (here r) (elsewhere r).

Definition waiters (name : string) (r : registry) : list nat := default [] (localWaiters r !! name).

Definition set_waiters (name : string) (ws : list nat) (r : registry) : registry :=
  mkRegistry (localHeld r) (<[name := ws]> (localWaiters r)) (granted r) (here r) (elsewhere r).

Inductive hold_answer : Type := held_now | not_available | queued.

Definition holdLock (i : nat) (name : string) (ifAvailable : bool) (r : registry) : hold_answer * registry :=
  if negb (bool_decide (name ∈ localHeld r)) then (held_now, grant i name r)
  else if ifAvailable then (not_available, r)
  else (queued, set_waiters name (waiters name r ++ [i]) r).

(** The release function of request [i]; the first waiter is granted at once. *)
Definition release (i : nat) (r : registry) : registry :=
  match granted r !! i with
  | None => r
  | Some name =>
      let r := mkRegistry (localHeld r ∖ {[name]}) (localWaiters r) (delete i (granted r)) (here r) (elsewhere r) in
      match waiters name r with
      | [] => r
      | next :: rest => grant next name (set_waiters name rest r)
      end
  end.

(** The abort signal of a waiting request. *)
Definition abort (i : nat) (name : string) (r : registry) : registry :=
  match localWaiters r !! name with
  | Some q => set_waiters name (filter (λ g, g ≠ i) q) r
  | None => r
  end.

(** ** Transactions *)

Definition set_here (account : string) (n : Z) (r : registry) : registry :=
  mkRegistry (localHeld r) (localWaiters r) (granted r) (<[account := n]> (here r)) (elsewhere r).

(** [withTxLock] up to [fn]: [None] is [TxBusyError]. *)
Definition withTxLock (i : nat) (account : string) (r : registry) : option registry :=
  match holdLock i (txLockName account) true r with
  | (held_now, r) => Some (set_here account (here_count account r + 1) r)
  | _ => None
  end.

(** Its [finally], however [fn] ended. *)
Definition end_tx (i : nat) (account : string) (r : registry) : registry :=
  let r := release i r in set_here account (default 1 (here r !! account) - 1) r.

(** ** Other tabs *)

Definition set_elsewhere (e : gset string) (r : registry) : registry :=
  mkRegistry (localHeld r) (localWaiters r) (granted r) (here r) e.

(** [channel.onmessage] *)
Definition onmessage (account : string) (busy : bool) (r : registry) : registry :=
  if bool_decide (account = "") then r
  else set_elsewhere (if busy then {[account]} ∪ elsewhere r else elsewhere r ∖ {[account]}) r.

(** A round of [scheduleRecheck] on one account; [held] is the browser's
    answer, [None] when it has none. *)
Definition recheck (account : string) (held : option bool) (r : registry) : registry :=
  match held with Some false => set_elsewhere (elsewhere r ∖ {[account]}) r | _ => r end.

(** [subscribeTxLock], when the lock table has answered. *)
Definition subscribed (account : string) (held : bool) (r : registry) : registry :=
  if held && bool_decide (txLockState account r = lock_free) then set_elsewhere ({[account]} ∪ elsewhere r) r else r.

(** ** All runs of a tab *)

Definition fresh (i : nat) (r : registry) : Prop :=
  granted r !! i = None ∧ ∀ name, i ∉ waiters name r.

(** The other users of [holdLock]: the deposit page and the loan numbers. *)
Definition other_lock (name : string) : Prop := ∃ a, name = depositLockName a ∨ name = indexLockName a.

Inductive tab_step (r : registry) : registry → Prop :=
| tab_hold i name ifAvailable :
    fresh i r → other_lock name → tab_step r (holdLock i name ifAvailable r).2
| tab_release i name : granted r !! i = Some name → other_lock name → tab_step r (release i r)
| tab_abort i name : other_lock name → tab_step r (abort i name r)
| tab_tx i account r' : fresh i r → withTxLock i account r = Some r' → tab_step r r'
| tab_tx_end i account : granted r !! i = Some (txLockName account) → tab_step r (end_tx i account r)
| tab_message account busy : tab_step r (onmessage account busy r)
| tab_recheck account held : tab_step r (recheck account held r)
| tab_subscribed account held : tab_step r (subscribed account held r).

(** ** The invariant *)

Lemma txLockName_inj a b : txLockName a = txLockName b → a = b.
Proof.
  unfold txLockName. intros H. apply chars_inj. apply (f_equal chars) in H. rewrite !chars_app in H. by simplify_eq/=.
Qed.

Lemma other_not_tx name a : other_lock name → name ≠ txLockName a.
Proof. intros [b [-> | ->]]; discriminate. Qed.

(** Each held name has one request, and requests wait only behind a held name;
    the transaction lock is never waited for. *)
Record lock_ok (r : registry) : Prop := {
  ok_held name : name ∈ localHeld r ↔ ∃ i, granted r !! i = Some name;
  ok_unique i j name : granted r !! i = Some name → granted r !! j = Some name → i = j;
  ok_behind name i : i ∈ waiters name r → name ∈ localHeld r ∧ granted r !! i = None;
  ok_queues name name' i : i ∈ waiters name r → i ∈ waiters name' r → name = name';
  ok_nodup name : NoDup (waiters name r);
  ok_tx a : waiters (txLockName a) r = [];
}.

(** The count of a tab's own transactions is that of its transaction locks. *)
Definition here_ok (r : registry) : Prop :=
  ∀ a, here_count a r = if decide (txLockName a ∈ localHeld r) then 1 else 0.

Lemma waiters_set name ws r name' :
  waiters name' (set_waiters name ws r) = if decide (name' = name) then ws else waiters name' r.
Proof.
  unfold waiters. simpl. case_decide; [subst; by rewrite lookup_insert_eq|by rewrite lookup_insert_ne].
Qed.

Lemma here_set a n r b : here_count b (set_here a n r) = if decide (b = a) then n else here_count b r.
Proof.
  unfold here_count. simpl. case_decide; [subst; by rewrite lookup_insert_eq|by rewrite lookup_insert_ne].
Qed.

Lemma ok_elsewhere e r : lock_ok r → lock_ok (set_elsewhere e r).
Proof. intros [H1 H2 H3 H4 H5 H6]. by split. Qed.

Lemma ok_set_here a n r : lock_ok r → lock_ok (set_here a n r).
Proof. intros [H1 H2 H3 H4 H5 H6]. by split. Qed.

(** Granting a free name to a request that is not queued. *)
Lemma ok_grant i name r : lock_ok r → fresh i r → (name ∉ localHeld r) → lock_ok (grant i name r).
Proof.
  intros [H1 H2 H3 H4 H5 H6] [Hi Hw] Hn. split; try done.
  - intros n. simpl. rewrite elem_of_union, elem_of_singleton, H1. split.
    + intros [->|[j Hj]]; [exists i; by rewrite lookup_insert_eq|]. exists j. rewrite lookup_insert_ne; [done|]. congruence.
    + intros [j Hj]. apply lookup_insert_Some in Hj as [[_ <-]|[_ Hj]]; eauto.
  - intros j k n Hj Hk. simpl in *. apply lookup_insert_Some in Hj as [[<- <-]|[Hij Hj]], Hk as [[Hik E]|[Hik Hk]]; subst; try done.
    + destruct Hn. apply H1. eauto.
    + destruct Hn. apply H1. eauto.
    + by eapply H2.
  - intros n j Hj. destruct (H3 n j Hj) as [? ?]. simpl. split; [set_solver|].
    rewrite lookup_insert_ne; [done|]. intros ->. by apply (Hw n).
Qed.

(** Queueing a new request, and taking requests out of a queue. *)
Lemma ok_queue i name r :
  lock_ok r → fresh i r → name ∈ localHeld r → (∀ a, name ≠ txLockName a) →
  lock_ok (set_waiters name (waiters name r ++ [i]) r).
Proof.
  intros [H1 H2 H3 H4 H5 H6] [Hi Hw] Hn Htx. split; try done.
  - intros n j. rewrite waiters_set. simpl. case_decide; [subst n|by apply H3].
    rewrite elem_of_app, list_elem_of_singleton. intros [Hj| ->]; [by apply H3|done].
  - intros n n' j. rewrite !waiters_set. repeat case_decide; subst; try done; rewrite ?elem_of_app, ?list_elem_of_singleton.
    + intros [Hj| ->] Hj'; [by eapply H4|by destruct (Hw n')].
    + intros Hj [Hj'| ->]; [by eapply H4|by destruct (Hw n)].
    + by apply H4.
  - intros n. rewrite waiters_set. case_decide; [subst n|done]. apply NoDup_app. split_and!; [done| |by apply NoDup_singleton].
    intros j Hj ->%list_elem_of_singleton. by apply (Hw name).
  - intros a. rewrite waiters_set. by rewrite decide_False by auto.
Qed.

Lemma ok_shrink name ws r : lock_ok r → sublist ws (waiters name r) → lock_ok (set_waiters name ws r).
Proof.
  intros [H1 H2 H3 H4 H5 H6] Hs. assert (∀ j, j ∈ ws → j ∈ waiters name r) as Hin by (intros j Hj; by eapply elem_of_sublist).
  split; try done.
  - intros n j. rewrite waiters_set. simpl. case_decide; subst; auto.
  - intros n n' j. rewrite !waiters_set. repeat case_decide; subst; eauto.
  - intros n. rewrite waiters_set. case_decide; [|done]. by eapply sublist_NoDup.
  - intros a. rewrite waiters_set. case_decide; [subst|done]. rewrite H6 in Hs. by apply sublist_nil_r in Hs.
Qed.

Lemma ok_free i name r :
  lock_ok r → granted r !! i = Some name → waiters name r = [] →
  lock_ok (mkRegistry (localHeld r ∖ {[name]}) (localWaiters r) (delete i (granted r)) (here r) (elsewhere r)).
Proof.
  intros [H1 H2 H3 H4 H5 H6] Hi Hw. split; try done.
  - intros n. simpl. rewrite elem_of_difference, elem_of_singleton, H1. split.
    + intros [[j Hj] Hn]. exists j. rewrite lookup_delete_ne; [done|]. congruence.
    + intros [j Hj]. apply lookup_delete_Some in Hj as [Hij Hj]. split; [eauto|]. intros ->. by destruct (H2 i j name).
  - intros j k n Hj Hk. simpl in *. apply lookup_delete_Some in Hj as [_ Hj], Hk as [_ Hk]. by eapply H2.
  - intros n j Hj. destruct (H3 n j Hj) as [Hn Hg]. simpl. split.
    + apply elem_of_difference. split; [done|]. rewrite elem_of_singleton. intros ->.
      change (waiters name _) with (waiters name r) in Hj. rewrite Hw in Hj. by apply elem_of_nil in Hj.
    + rewrite lookup_delete_None. auto.
Qed.

(** A held name passes from one request to another. *)
Lemma ok_hand_over i next name r :
  lock_ok r → granted r !! i = Some name → fresh next r →
  lock_ok (mkRegistry (localHeld r) (localWaiters r) (<[next := name]> (delete i (granted r))) (here r) (elsewhere r)).
Proof.
  intros [H1 H2 H3 H4 H5 H6] Hi [Hn Hw]. split; try done.
  - intros n. simpl. rewrite H1. split.
    + intros [j Hj]. destruct (decide (j = i)) as [->|Hji].
      * exists next. rewrite lookup_insert_eq. congruence.
      * exists j. rewrite lookup_insert_ne, lookup_delete_ne by congruence. done.
    + intros [j Hj]. apply lookup_insert_Some in Hj as [[_ <-]|[_ Hj]]; [eauto|].
      apply lookup_delete_Some in Hj as [_ Hj]. eauto.
  - intros j k n Hj Hk. simpl in *.
    apply lookup_insert_Some in Hj as [[<- <-]|[_ Hj]], Hk as [[<- E]|[_ Hk]]; try done;
      rewrite ?lookup_delete_Some in *.
    + destruct Hk as [Hik Hk]. by destruct (H2 i k name).
    + subst n. destruct Hj as [Hij Hj]. by destruct (H2 i j name).
    + destruct Hj as [_ Hj], Hk as [_ Hk]. by eapply H2.
  - intros n j Hj. destruct (H3 n j Hj) as [? Hg]. simpl. split; [done|].
    rewrite lookup_insert_None, lookup_delete_None. split; [auto|]. intros ->. by apply (Hw n).
Qed.

(** Releasing hands the name to the first that waits for it, or frees it. *)
Lemma release_spec i name r :
  lock_ok r → granted r !! i = Some name →
  lock_ok (release i r) ∧ here (release i r) = here r ∧
  match waiters name r with
  | [] => localHeld (release i r) = localHeld r ∖ {[name]}
  | next :: rest =>
      localHeld (release i r) = localHeld r ∧ granted (release i r) !! next = Some name ∧
      waiters name (release i r) = rest
  end.
Proof.
  intros Hok Hi. unfold release. rewrite Hi.
  change (waiters name (mkRegistry (localHeld r ∖ {[name]}) (localWaiters r) (delete i (granted r)) (here r) (elsewhere r)))
    with (waiters name r).
  destruct (waiters name r) as [|next rest] eqn:Hw; [by split_and!; [apply ok_free|..]|].
  assert (name ∈ localHeld r) as Hn by (apply (ok_held r Hok); eauto).
  assert ({[name]} ∪ localHeld r ∖ {[name]} = localHeld r) as Hset.
  { rewrite <- union_difference_L; [done|]. by apply singleton_subseteq_l. }
  assert (lock_ok (set_waiters name rest r)) as Hok'.
  { apply ok_shrink; [done|]. rewrite Hw. by apply sublist_cons. }
  assert (fresh next (set_waiters name rest r)) as Hf.
  { destruct (ok_behind r Hok name next) as [_ Hg]; [rewrite Hw; by left|]. split; [done|].
    intros n. rewrite waiters_set. pose proof (ok_nodup r Hok name) as Hnd. rewrite Hw in Hnd. inversion Hnd; subst.
    case_decide; [done|]. intros Hin. assert (n = name); [|done]. apply (ok_queues r Hok n name next); [done|].
    rewrite Hw. by left. }
  unfold grant, set_waiters. simpl. rewrite Hset. split_and!; [|done|done| |].
  - apply (ok_hand_over i next name (set_waiters name rest r)); done.
  - by rewrite lookup_insert_eq.
  - unfold waiters. simpl. by rewrite lookup_insert_eq.
Qed.

Lemma abort_ok i name r : lock_ok r → lock_ok (abort i name r).
Proof.
  intros Hok. unfold abort. destruct (localWaiters r !! name) as [q|] eqn:E; [|done].
  apply ok_shrink; [done|]. unfold waiters. rewrite E. apply sublist_filter.
Qed.

Lemma withTxLock_spec i account r r' :
  lock_ok r → fresh i r → withTxLock i account r = Some r' →
  (txLockName account ∉ localHeld r) ∧ lock_ok r' ∧ localHeld r' = {[txLockName account]} ∪ localHeld r ∧
  granted r' = <[i := txLockName account]> (granted r) ∧
  ∀ b, here_count b r' = if decide (b = account) then here_count account r + 1 else here_count b r.
Proof.
  intros Hok Hf. unfold withTxLock, holdLock. case_bool_decide as Hn; simpl; [done|]. intros [= <-].
  split_and!; try done; [by apply ok_set_here, ok_grant|]. intros b. rewrite here_set. done.
Qed.

(** ** Theorems *)

Definition tab_inv (r : registry) : Prop := lock_ok r ∧ here_ok r.

Lemma tab_step_inv r r' : tab_step r r' → tab_inv r → tab_inv r'.
Proof.
  intros Hstep [Hok Hhere]. destruct Hstep as [i name av Hf Ho|i name Hi Ho|i name Ho|i a r' Hf Hr|i a Hi|a busy|a held|a held].
  - unfold holdLock. case_bool_decide as Hn; simpl.
    + destruct av; [by split|]. split; [|done]. apply ok_queue; try done. intros a. by apply other_not_tx.
    + split; [by apply ok_grant|]. intros a. unfold here_count in *. simpl. specialize (Hhere a). unfold here_count in Hhere.
      pose proof (other_not_tx name a Ho). rewrite Hhere. repeat case_decide; set_solver.
  - destruct (release_spec i name r Hok Hi) as (Hok' & Hh & Hl). split; [done|]. intros a. unfold here_count. rewrite Hh.
    fold (here_count a r). rewrite Hhere. pose proof (other_not_tx name a Ho).
    destruct (waiters name r); [rewrite Hl|destruct Hl as [-> _]; done]. repeat case_decide; set_solver.
  - split; [by apply abort_ok|]. intros a. unfold abort. destruct (localWaiters r !! name); [|apply Hhere]. exact (Hhere a).
  - destruct (withTxLock_spec i a r r' Hok Hf Hr) as (Hn & Hok' & Hl & _ & Hc). split; [done|]. intros b.
    rewrite Hc, Hl, !Hhere. destruct (decide (b = a)) as [->|Hb]; repeat case_decide; try done; try set_solver.
  - destruct (release_spec i _ r Hok Hi) as (Hok' & Hh & Hl). rewrite (ok_tx r Hok) in Hl.
    split; [by apply ok_set_here|]. intros b. unfold end_tx. rewrite here_set. unfold here_count. rewrite Hh. fold (here_count b r).
    rewrite Hhere. simpl. rewrite Hl. destruct (decide (b = a)) as [->|Hb].
    + assert (txLockName a ∈ localHeld r) as Hin by (apply (ok_held r Hok); eauto).
      pose proof (Hhere a) as Ha. rewrite decide_True in Ha by done. unfold here_count in Ha.
      destruct (here r !! a) as [n|]; simpl in *; [|lia]. case_decide; [set_solver|lia].
    + assert (txLockName b ≠ txLockName a) by (intros ?%txLockName_inj; done). repeat case_decide; set_solver.
  - unfold onmessage. case_bool_decide; [by split|]. split; [by apply ok_elsewhere|done].
  - destruct held as [[]|]; try by split. split; [by apply ok_elsewhere|done].
  - unfold subscribed. destruct (_ && _); [|by split]. split; [by apply ok_elsewhere|done].
Qed.

Lemma tab_reachable r : rtc tab_step no_registry r → tab_inv r.
Proof.
  intros Hr. assert (tab_inv no_registry) as H0.
  { split; [split|]; try done.
    - intros name. split; [set_solver|]. intros [i Hi]. done.
    - intros name i Hi. unfold waiters in Hi. simpl in Hi. rewrite lookup_empty in Hi. by apply elem_of_nil in Hi.
    - intros name name' i Hi. unfold waiters in Hi. simpl in Hi. rewrite lookup_empty in Hi. by apply elem_of_nil in Hi.
    - intros name. unfold waiters. simpl. rewrite lookup_empty. constructor.
  }
  revert H0. induction Hr as [|r r' r'' Hs _ IH]; [done|]. intros H. by apply IH, (tab_step_inv r).
Qed.

(** In every run of a tab, a lock has one holder at a time and a transaction of
    an account runs alone: a second one is refused while the first runs, and
    only then, and the page shows "here" exactly while it does. Requests wait
    only while their lock is held, and releasing it hands it to the one that
    waits longest. *)
Theorem app_lock_exclusive r :
  rtc tab_step no_registry r →
  (∀ i j name, granted r !! i = Some name → granted r !! j = Some name → i = j) ∧
  (∀ i account, withTxLock i account r = None ↔ ∃ j, granted r !! j = Some (txLockName account)) ∧
  (∀ account, txLockState account r = lock_here ↔ ∃ j, granted r !! j = Some (txLockName account)) ∧
  (∀ i name, i ∈ waiters name r → ∃ j, granted r !! j = Some name ∧ j ≠ i) ∧
  (∀ j name next rest, granted r !! j = Some name → waiters name r = next :: rest →
     granted (release j r) !! next = Some name ∧ waiters name (release j r) = rest).
Proof.
  intros [Hok Hhere]%tab_reachable. split_and!.
  - by apply ok_unique.
  - intros i account. rewrite <- (ok_held r Hok). unfold withTxLock, holdLock. by case_bool_decide.
  - intros account. rewrite <- (ok_held r Hok). unfold txLockState. rewrite Hhere.
    destruct (decide (txLockName account ∈ localHeld r)) as [Hin|Hin]; simpl; [done|].
    case_bool_decide; by split.
  - intros i name Hi. destruct (ok_behind r Hok name i Hi) as [Hn Hg]. apply (ok_held r Hok) in Hn as [j Hj].
    exists j. split; [done|]. congruence.
  - intros j name next rest Hj Hw. destruct (release_spec j name r Hok Hj) as (_ & _ & Hs). rewrite Hw in Hs. naive_solver.
Qed.

(** A deposit page waits for another, and is granted when that one leaves. *)
Definition two_pages : registry :=
  (holdLock 2 (depositLockName "GUSER") false (holdLock 1 (depositLockName "GUSER") true no_registry).2).2.

Lemma two_pages_reachable : rtc tab_step no_registry two_pages.
Proof.
  assert (∀ i, i ≠ 1%nat → fresh i (holdLock 1 (depositLockName "GUSER") true no_registry).2) as Hf.
  { intros i Hi. split; [|intros name; apply not_elem_of_nil].
    change (<[1%nat := depositLockName "GUSER"]> (∅ : gmap nat string) !! i = None). by rewrite lookup_insert_ne. }
  eapply rtc_l; [|eapply rtc_l; [|reflexivity]].
  - apply (tab_hold _ 1 (depositLockName "GUSER") true); [|exists "GUSER"%string; by left].
    split; [done|intros name; apply not_elem_of_nil].
  - apply (tab_hold _ 2 (depositLockName "GUSER") false); [by apply Hf|exists "GUSER"%string; by left].
Qed.

Lemma app_lock_exclusive_witness :
  granted (release 1 two_pages) !! 2%nat = Some (depositLockName "GUSER") ∧ waiters (depositLockName "GUSER") (release 1 two_pages) = [].
Proof.
  destruct (app_lock_exclusive two_pages two_pages_reachable) as (_ & _ & _ & _ & H).
  apply (H 1%nat); vm_compute; reflexivity.
Defined.
