(* ===== verification/FlowEngine.v ===== *)
(** * The transaction lifecycle of the app ([frontend/app/src/lib/flow/engine.ts])

    Every flow of the web app reports typed events; the screen shows the state
    they reduce to. Declined signatures are those of [Rejection]. *)

From S2P Require Import Prelude JsData Rejection.

Inductive PrepareStep : Type := locating_output | reading | building | cosign | broadcasting.

Inductive AttentionAction : Type := finish_deposit.

#[global] Instance PrepareStep_eq_dec : EqDecision PrepareStep.
Proof. solve_decision. Defined.
#[global] Instance AttentionAction_eq_dec : EqDecision AttentionAction.
Proof. solve_decision. Defined.

Inductive FlowState : Type :=
| f_idle
| f_preparing (step : option PrepareStep) (hash : option string)
| f_waiting_btc (confirmations required : Z) (relayerReachable : bool)
| f_ready
| f_proving
| f_awaiting_signature (wallet : Wallet) (hash : option string)
| f_submitted (hash : string)
| f_post_processing (hash : option string)
| f_settled (hash : option string)
| f_signature_cancelled (wallet : Wallet) (walletName hash : option string)
| f_timed_out (hash : string)
| f_failed (error : thrown) (hash : option string)
| f_needs_attention (action : AttentionAction) (error : option thrown) (hash : option string).

Inductive FlowEvent : Type :=
| e_start
| e_reset
| e_preparing (step : option PrepareStep)
| e_btc_confirmations (confirmations required : Z)
| e_relayer_unreachable (required : Z)
| e_ready
| e_proving
| e_awaiting_signature (wallet : Wallet)
| e_signature_cancelled (walletName : option string)
| e_submitted (hash : string)
| e_post_processing
| e_settled (hash : option string)
| e_timed_out (hash : string)
| e_failed (error : thrown)
| e_needs_attention (action : AttentionAction) (error : option thrown) (hash : option string).

#[global] Instance FlowState_eq_dec : EqDecision FlowState.
Proof. solve_decision. Defined.
#[global] Instance FlowEvent_eq_dec : EqDecision FlowEvent.
Proof. solve_decision. Defined.

Definition IDLE : FlowState := f_idle.

Definition isTerminal (s : FlowState) : bool :=
  match s with
  | f_idle | f_ready | f_settled _ | f_signature_cancelled _ _ _ | f_timed_out _ | f_failed _ _
  | f_needs_attention _ _ _ => true
  | _ => false
  end.

Definition hashOf (s : FlowState) : option string :=
  match s with
  | f_preparing _ h | f_awaiting_signature _ h | f_post_processing h | f_settled h
  | f_signature_cancelled _ _ h | f_failed _ h | f_needs_attention _ _ h => h
  | f_submitted h | f_timed_out h => Some h
  | _ => None
  end.

(** [a ?? b] *)
Definition or_else {A} (a b : option A) : option A := match a with Some _ => a | None => b end.

(** The [switch] on an event that is neither [start] nor [reset]. *)
Definition apply_event (s : FlowState) (e : FlowEvent) : FlowState :=
  let hash := hashOf s in
  match e with
  | e_preparing step => f_preparing step hash
  | e_btc_confirmations confirmations required => f_waiting_btc confirmations required true
  | e_relayer_unreachable required =>
      f_waiting_btc (match s with f_waiting_btc n _ _ => n | _ => 0 end) required false
  | e_ready => f_ready
  | e_proving => f_proving
  | e_awaiting_signature wallet => f_awaiting_signature wallet hash
  | e_signature_cancelled walletName =>
      match s with f_awaiting_signature wallet _ => f_signature_cancelled wallet walletName hash | _ => s end
  | e_submitted h => f_submitted h
  | e_post_processing => f_post_processing hash
  | e_settled h => f_settled (or_else h hash)
  | e_timed_out h => f_timed_out h
  | e_failed error =>
      match s with
      | f_awaiting_signature wallet _ =>
          if isSignatureRejected error
          then f_signature_cancelled wallet
                 (match error with SignatureRejectedError _ walletName => walletName | _ => None end) hash
          else f_failed error hash
      | _ => f_failed error hash
      end
  | e_needs_attention action error h => f_needs_attention action error (or_else h hash)
  | e_start | e_reset => s
  end.

(** May this event move a terminal state? *)
Definition reconciled (s : FlowState) (e : FlowEvent) : bool :=
  match s, e with f_timed_out _, (e_settled _ | e_failed _) => true | _, _ => false end.

Definition resumed (s : FlowState) (e : FlowEvent) : bool :=
  match s, e with (f_idle | f_ready), e_signature_cancelled _ => false | (f_idle | f_ready), _ => true | _, _ => false end.

Definition reduceFlow (s : FlowState) (e : FlowEvent) : FlowState :=
  match e with
  | e_reset => IDLE
  | e_start => f_preparing None None
  | _ =>
      if isTerminal s && negb (reconciled s e) && negb (resumed s e) then s
      else apply_event s e
  end.

Definition isInFlight (s : FlowState) : bool := negb (isTerminal s).

Definition guardsUnload (s : FlowState) : bool :=
  match s with f_awaiting_signature _ _ | f_submitted _ | f_post_processing _ => true | _ => false end.

(** ** Runs *)

Definition run_flow (s : FlowState) (es : list FlowEvent) : FlowState := foldl reduceFlow s es.

(** Events of a later attempt: the user's own. *)
Definition is_restart (e : FlowEvent) : bool := match e with e_start | e_reset => true | _ => false end.

(** Finished for good: only [start] and [reset] leave it. *)
Definition is_final (s : FlowState) : bool :=
  isTerminal s && match s with f_idle | f_ready | f_timed_out _ => false | _ => true end.

(** Events that may put the flow past its submission with another hash, or
    back before it. *)
Definition keeps_hash (e : FlowEvent) : bool :=
  match e with
  | e_preparing _ | e_awaiting_signature _ | e_signature_cancelled _ | e_post_processing | e_failed _
  | e_settled None | e_needs_attention _ _ None => true
  | _ => false
  end.

(** ** Lemmas *)

Lemma reduce_final s e : is_final s = true → is_restart e = false → reduceFlow s e = s.
Proof. by destruct s, e. Qed.

Lemma run_final s es :
  is_final s = true → forallb (λ e, negb (is_restart e)) es = true → run_flow s es = s.
Proof.
  intros Hs. unfold run_flow. induction es as [|e es IH]; simpl; [done|]. intros H. bools.
  rewrite reduce_final by done. by apply IH.
Qed.

Lemma reduce_keeps_hash s e h :
  keeps_hash e = true → hashOf s = Some h → hashOf (reduceFlow s e) = Some h.
Proof.
  destruct e as [| |?|? ?|?| | |?|?|?| |[?|]|?|er|? ? [?|]]; simpl; try done; intros _;
    destruct s; simpl; intros; simplify_eq; try done; by destruct (isSignatureRejected er).
Qed.

(** ** Property *)


Example late_event_ignored :
  run_flow (f_failed (JsError "x") (Some "h")) [e_submitted "h2"; e_settled None; e_ready] =
  f_failed (JsError "x") (Some "h").
Proof. reflexivity. Qed.
