(* ===== verification/AppStore.v ===== *)
(** * What the app keeps on a device ([frontend/app/src/lib])

    The stores of the browser's local storage: positions ([position/store.ts]),
    the deposit in progress ([flow/pendingDeposit.ts]), Stellar transactions
    not settled yet ([flow/pendingTx.ts]) and reserved loan numbers
    ([flow/lock.ts]), each a map from the owner's address. Storage is taken to
    work, and a value to read back as written: JSON keeps what these records
    hold.

    A computation is one of [io] over the device. Its errors are the values
    the code may catch, and [TabClosed], which nothing catches: the user has
    closed the tab at this point, and only what the device keeps remains. *)

From S2P Require Import Prelude JsData Rejection FlowEngine.

(** ** Positions *)

Inductive PositionStatus : Type := p_active | p_closed | p_released | p_liquidated.

#[global] Instance PositionStatus_eq_dec : EqDecision PositionStatus.
Proof. solve_decision. Defined.

(** A position as this device remembers it. *)
Record Position : Type := {
  id : string;
  owner : string;
  txid : string;
  collateralSats : string;
  debtStroops : string;
  index : Z;
  status : PositionStatus;
  createdAt : Z;
  btcPubkey : option string;
  timelockHeight : option Z;
  vout : option Z;
  releaseTxid : option string;
  releaseAddress : option string;
  stellarTxHash : option string;
}.

(** ** The deposit in progress *)

Inductive DepositStep : Type := step_sent | step_confirming | step_ready | step_submitted.

Record PendingDeposit : Type := {
  pd_btcTxid : string;
  pd_sats : string;
  pd_vout : option Z;
  pd_p2wsh : string;
  pd_btcPubkey : string;
  pd_timelockHeight : Z;
  pd_stellarAddress : string;
  pd_positionIndex : Z;
  pd_step : DepositStep;
  pd_confirmations : option Z;
  pd_required : option Z;
  pd_stellarTxHash : option string;
  pd_stellarSubmittedAt : option Z;
  pd_createdAt : Z;
  pd_updatedAt : Z;
}.

Definition STELLAR_TX_TTL_MS : Z := 360000.

Inductive TxStatus : Type := SUCCESS | FAILED | NOT_FOUND.

#[global] Instance TxStatus_eq_dec : EqDecision TxStatus.
Proof. solve_decision. Defined.

Record DepositChainView : Type := {
  depositorForTxid : option string;
  stellarTx : option TxStatus;
}.

Inductive ResumeAction : Type :=
| locate_output
| wait_confirmations
| await_stellar (hash : string)
| finalize
| conflict (depositor : string).

Definition planResume (pd : PendingDeposit) (chain : DepositChainView) (now : Z) : ResumeAction :=
  match present (depositorForTxid chain) with
  | Some onChain => if bool_decide (onChain = pd_stellarAddress pd) then finalize else conflict onChain
  | None =>
      let rest := match pd_vout pd with None => locate_output | Some _ => wait_confirmations end in
      match present (pd_stellarTxHash pd) with
      | Some hash =>
          if bool_decide (stellarTx chain = Some FAILED) then rest
          else
            let young := now - default (pd_updatedAt pd) (pd_stellarSubmittedAt pd) <? STELLAR_TX_TTL_MS in
            if bool_decide (stellarTx chain = Some SUCCESS) || young then await_stellar hash else rest
      | None => rest
      end
  end.

(** ** Stellar transactions on their way *)

Inductive PendingTxKind : Type :=
| k_deposit | k_borrow | k_repay | k_supply | k_withdraw | k_earn_deposit | k_earn_withdraw.

Record PendingTx : Type := {
  ptx_hash : string;
  ptx_kind : PendingTxKind;
  ptx_createdAt : Z;
  (** [removeId] and [save] *)
  ptx_positionUpdate : option (string * Position);
}.

Inductive decision : Type := apply_tx | drop_tx | keep_tx.

Definition decideReconcile (tx : PendingTx) (status : TxStatus) (now : Z) : decision :=
  match status with
  | SUCCESS => apply_tx
  | FAILED => drop_tx
  | NOT_FOUND => if now - ptx_createdAt tx >? STELLAR_TX_TTL_MS then drop_tx else keep_tx
  end.

(** ** The device *)

(** What has happened to a Stellar transaction or a deposit, oldest first; a
    record of the past, which no code reads. *)
Inductive note : Type :=
| BtcSent (owner btcTxid : string)
| Sent (owner btcTxid hash : string) (at_ : Z)
| Refused (hash : string)
| Finalized (owner btcTxid : string).

#[global] Instance note_eq_dec : EqDecision note.
Proof. solve_decision. Defined.

Record device (W : Type) : Type := mkDevice {
  dv_world : W;
  positions : gmap string (list Position);
  pending : gmap string PendingDeposit;
  activity : gmap string (list PendingTx);
  reserved : gmap string (list Z);
  dv_events : list FlowEvent;
  notes : list note;
}.
Arguments mkDevice {W}.
Arguments dv_world {W}.
Arguments positions {W}.
Arguments pending {W}.
Arguments activity {W}.
Arguments reserved {W}.
Arguments dv_events {W}.
Arguments notes {W}.

Inductive exn : Type :=
| Thrown (e : thrown)
| TxTimedOut (hash : string)
| TabClosed.

Definition error (message : string) : exn := Thrown (JsError message).

Section device.
Context {W : Type}.
Abbreviation M := (io (device W) exn).

Definition set_world (w : W) (d : device W) : device W :=
  mkDevice w (positions d) (pending d) (activity d) (reserved d) (dv_events d) (notes d).
Definition set_positions (p : gmap string (list Position)) (d : device W) : device W :=
  mkDevice (dv_world d) p (pending d) (activity d) (reserved d) (dv_events d) (notes d).
Definition set_pending (p : gmap string PendingDeposit) (d : device W) : device W :=
  mkDevice (dv_world d) (positions d) p (activity d) (reserved d) (dv_events d) (notes d).
Definition set_activity (a : gmap string (list PendingTx)) (d : device W) : device W :=
  mkDevice (dv_world d) (positions d) (pending d) a (reserved d) (dv_events d) (notes d).
Definition set_reserved (r : gmap string (list Z)) (d : device W) : device W :=
  mkDevice (dv_world d) (positions d) (pending d) (activity d) r (dv_events d) (notes d).
Definition set_events (es : list FlowEvent) (d : device W) : device W :=
  mkDevice (dv_world d) (positions d) (pending d) (activity d) (reserved d) es (notes d).
Definition set_notes (ns : list note) (d : device W) : device W :=
  mkDevice (dv_world d) (positions d) (pending d) (activity d) (reserved d) (dv_events d) ns.

(** [await f()] *)
Definition await {A} (f : W → result exn A * W) : M A := λ d,
  let '(r, w) := f (dv_world d) in (r, set_world w d).

(** [try { m } catch (e) { h(e) }] *)
Definition catching {A} (m : M A) (h : exn → M A) : M A :=
  try_catch m (λ e, match e with TabClosed => throw TabClosed | _ => h e end).

Definition emit (e : FlowEvent) : M () := modify (λ d, set_events (dv_events d ++ [e]) d).

Definition record (n : note) : M () := modify (λ d, set_notes (notes d ++ [n]) d).

(** *** Positions *)

(** [isWritzLend], on every read *)
Definition listPositions (owner : string) : M (list Position) :=
  gets (λ d, filter (λ p, id p = txid p) (default [] (positions d !! owner))).

Definition write_positions (owner : string) (ps : list Position) : M () :=
  modify (λ d, set_positions (<[owner := ps]> (positions d)) d).

Definition getPosition (owner pid : string) : M (option Position) :=
  ps ← listPositions owner; mret (snd <$> list_find (λ p, id p = pid) ps).

Definition savePosition (p : Position) : M () :=
  ps ← listPositions (owner p);
  write_positions (owner p)
    match list_find (λ q, id q = id p) ps with
    | Some (i, _) => <[i := p]> ps
    | None => ps ++ [p]
    end.

Definition removePosition (owner pid : string) : M () :=
  ps ← listPositions owner;
  write_positions owner (filter (λ p, id p ≠ pid) ps).

(** *** The pending deposit *)

Definition load_pending (owner : string) : M (option PendingDeposit) := gets (λ d, pending d !! owner).

Definition write_pending (owner : string) (pd : option PendingDeposit) : M () :=
  modify (λ d, set_pending (match pd with
                            | Some pd => <[owner := pd]> (pending d)
                            | None => delete owner (pending d) end) d).

(** [{ ...pd, updatedAt: now }] *)
Definition touched (now : Z) (pd : PendingDeposit) : PendingDeposit := {|
  pd_btcTxid := pd_btcTxid pd; pd_sats := pd_sats pd; pd_vout := pd_vout pd; pd_p2wsh := pd_p2wsh pd;
  pd_btcPubkey := pd_btcPubkey pd; pd_timelockHeight := pd_timelockHeight pd;
  pd_stellarAddress := pd_stellarAddress pd; pd_positionIndex := pd_positionIndex pd; pd_step := pd_step pd;
  pd_confirmations := pd_confirmations pd; pd_required := pd_required pd;
  pd_stellarTxHash := pd_stellarTxHash pd; pd_stellarSubmittedAt := pd_stellarSubmittedAt pd;
  pd_createdAt := pd_createdAt pd; pd_updatedAt := now |}.

Definition save_pending (pd : PendingDeposit) (now : Z) : M PendingDeposit :=
  let next := touched now pd in
  write_pending (pd_stellarAddress pd) (Some next);;
  mret next.

(** [update(owner, patch)], the patch as a function of the stored record. *)
Definition update_pending (owner : string) (patch : PendingDeposit → PendingDeposit) (now : Z) :
    M (option PendingDeposit) :=
  current ← load_pending owner;
  match current with
  | None => mret None
  | Some current =>
      let next := touched now (patch current) in
      write_pending owner (Some next);;
      mret (Some next)
  end.

Definition clear_pending (owner : string) : M () := write_pending owner None.

(** *** Activity *)

Definition pendingTxs (owner : string) : M (list PendingTx) := gets (λ d, default [] (activity d !! owner)).

Definition write_txs (owner : string) (txs : list PendingTx) : M () :=
  modify (λ d, set_activity (<[owner := txs]> (activity d)) d).

Definition addTx (owner : string) (tx : PendingTx) : M () :=
  txs ← pendingTxs owner;
  write_txs owner (filter (λ t, ptx_hash t ≠ ptx_hash tx) txs ++ [tx]).

Definition removeTx (owner hash : string) : M () :=
  txs ← pendingTxs owner;
  write_txs owner (filter (λ t, ptx_hash t ≠ hash) txs).

(** *** Loan numbers *)

(** The numbers are integers; [used] are those of the saved loans. *)
Definition nextPositionIndex (used : list Z) : Z := foldl Z.max (-1) used + 1.

Definition readReserved (owner : string) : M (list Z) := gets (λ d, default [] (reserved d !! owner)).

Definition write_reserved (owner : string) (r : list Z) : M () :=
  modify (λ d, set_reserved (<[owner := r]> (reserved d)) d).

Definition reservePositionIndex (owner : string) (used : list Z) : M Z :=
  r ← readReserved owner;
  let index := nextPositionIndex (used ++ r) in
  write_reserved owner (r ++ [index]);;
  mret index.

Definition releasePositionIndex (owner : string) (i : Z) : M () :=
  r ← readReserved owner;
  write_reserved owner (filter (λ j, j ≠ i) r).
End device.

(** ** Lemmas *)

Lemma foldl_max_ge l m : m ≤ foldl Z.max m l.
Proof. revert m. induction l as [|x l IH]; intros m; simpl; [lia|]. specialize (IH (Z.max m x)). lia. Qed.

Lemma nextPositionIndex_fresh used i : i ∈ used → i < nextPositionIndex used.
Proof.
  unfold nextPositionIndex. generalize (-1).
  induction used as [|x used IH]; intros m; simpl; [by intros ?%elem_of_nil|].
  intros [->|Hi]%elem_of_cons; [|by apply IH]. pose proof (foldl_max_ge used (Z.max m x)). lia.
Qed.

(** No number is handed out twice, nor one of a saved loan. *)
Lemma reservePositionIndex_fresh {W} owner used (d : device W) :
  let old := default [] (reserved d !! owner) in
  let '(r, d') := reservePositionIndex owner used d in
  ∃ i, r = Ok i ∧ (i ∉ used) ∧ (i ∉ old) ∧ 0 ≤ i ∧ d' = set_reserved (<[owner := old ++ [i]]> (reserved d)) d.
Proof.
  intros old. unfold reservePositionIndex, mbind, io_bind. cbn. fold old.
  exists (nextPositionIndex (used ++ old)). pose proof (nextPositionIndex_fresh (used ++ old)) as Hf.
  pose proof (foldl_max_ge (used ++ old) (-1)) as Hge. setoid_rewrite elem_of_app in Hf.
  unfold nextPositionIndex in *. split_and!; try done; [| |lia]; intros Hi.
  - specialize (Hf _ (or_introl Hi)). lia.
  - specialize (Hf _ (or_intror Hi)). lia.
Qed.
