(* ===== verification/StellarTx.v ===== *)
(** * Stellar transactions of the app
    ([frontend/app/src/lib/flow/stellarTx.ts, lib/flows/submit.ts])

    A contract call is simulated (again while the node lags), signed by the
    wallet, recorded by the caller before anything reaches the network, sent
    and awaited. The transaction is the SDK's; signing and sending it are
    operations of [SubmitEnv], [bidInclusionFeeOnly] a part of signing. *)

From S2P Require Import Prelude JsData Rejection FlowEngine AppStore.

(** How [tx.send()] ends; the ledger it landed in, when the answer has it. *)
Inductive send_outcome : Type :=
| sent_ok (ledger : option Z)
| failed_on_chain
| TransactionStillPending
| SendFailed (e : exn)
| send_threw (e : exn).

Class SubmitEnv (W tx : Type) : Type := {
  d_sleep : Z → W → result exn () * W;
  d_getTxStatus : string → W → result exn TxStatus * W;
  (** [tx.sign] with the wallet: the hash of the signed transaction *)
  sign_tx : tx → W → result exn string * W;
  send_tx : tx → W → send_outcome * W;
}.

Definition isTransientSimulationError (message : string) : bool :=
  includes "TRY_AGAIN_LATER" message || includes "txBadSeq" message.

Definition exn_message (e : exn) : string :=
  match e with Thrown t => errorMessage t | TxTimedOut _ => "ConfirmationTimedOut" | TabClosed => "" end.

Section submit.
Context {W tx : Type} `{SubmitEnv W tx}.
Abbreviation M := (io (device W) exn).

(** A hash the network answers [FAILED] for is refused for good. *)
Definition getTxStatus (hash : string) : M TxStatus :=
  st ← await (d_getTxStatus hash);
  (if bool_decide (st = FAILED) then record (Refused hash) else mret ());;
  mret st.

(** [simulateWithRetry], [attempts] left, the [i]-th of them next. *)
Fixpoint simulate_retry {A} (attempts : nat) (i : Z) (build : M A) : M A :=
  match attempts with
  | O => build
  | S attempts =>
      catching build (λ e,
        if isTransientSimulationError (exn_message e)
        then await (d_sleep (Z.min (2500 + (i - 1) * 1000) 6000));; simulate_retry attempts (i + 1) build
        else throw e)
  end.

(** Eight attempts. *)
Definition simulateWritzLend {A} (build : M A) : M A := simulate_retry 7 1 build.

Definition rejection_of (e : exn) : option thrown :=
  match e with Thrown t => asRejection t Rejection.stellar None | _ => None end.

Definition signAndSubmit {A} (t : tx) (onSigned : string → M A) (onDropped : A → M ()) : M (string * A * option Z) :=
  emit (e_awaiting_signature Rejection.stellar);;
  hash ← catching (await (sign_tx t)) (λ e,
    match rejection_of e with
    | Some rejected =>
        emit (e_signature_cancelled (match rejected with SignatureRejectedError _ n => n | _ => None end));;
        throw (Thrown rejected)
    | None => throw e
    end);
  a ← onSigned hash;
  emit (e_submitted hash);;
  o ← (λ d, let '(o, w) := send_tx t (dv_world d) in (Ok o, set_world w d));
  match o with
  | sent_ok ledger => mret (hash, a, ledger)
  | failed_on_chain =>
      record (Refused hash);; onDropped a;; throw (error ("Transaction failed on-chain: " +:+ hash))
  | TransactionStillPending => throw (TxTimedOut hash)
  | SendFailed e => record (Refused hash);; onDropped a;; throw e
  | send_threw e => throw e
  end.

End submit.
