(* ===== verification/Receive.v ===== *)
(** * Receiving a loan ([frontend/app/src/lib/receive/], [lib/flows/trustline.ts])

    The borrowed USDC stays in the wallet, is swapped on Stellar, or is burned
    for another chain. The calls for it ([cctp.ts], [swap.ts], [call.ts]), the
    trustline a swap may need, the choice the borrower makes ([options.ts],
    [assets.ts], [intent.ts]) and the two actions of [useReceive.ts]. A contract
    call is the datum [ContractCall]; building it, the network, Horizon and the
    wallet are [ReceiveEnv], Keccak an argument. *)

From S2P Require Import Prelude JsData JsMap JsJson CctpMessage Rejection FlowEngine AppStore StellarTx.

(** ** Contract calls *)

Inductive ScVal : Type :=
| sc_address (a : string)
| sc_i128 (z : Z)
| sc_u32 (z : Z)
| sc_u64 (z : Z)
| sc_bytes (bs : list byte)
| sc_path (addresses : list string).

Record ContractCall : Type := {
  cc_contract : string;
  cc_method : string;
  cc_publicKey : string;
  cc_args : list ScVal;
}.

Definition READ_ONLY_SOURCE : string := "GAAAAAAAAAAAAAAAAAAAAAAAAAAAAAAAAAAAAAAAAAAAAAAAAAAAAWHF".

Record ClassicAsset : Type := { asset_code : string; asset_issuer : string }.

(** A line of a Horizon account; the native one has no code. *)
Record BalanceLine : Type := { bl_asset : option ClassicAsset; bl_balance : string }.

Inductive account_read : Type :=
| account_lines (balances : list BalanceLine)
| account_not_found
| account_unread (e : exn).

(** What the app asks of the outside. A result is that of [tx.result], read as
    the type the code casts it to. *)
Class ReceiveEnv (W tx : Type) `{SubmitEnv W tx} : Type := {
  rc_build : ContractCall → W → result exn tx * W;       (* [AssembledTransaction.build] *)
  rc_int : tx → result exn Z;                            (* [BigInt(tx.result)] *)
  rc_ints : tx → result exn (list Z);
  rc_sent_ints : string → W → result exn (option (list Z)) * W;   (* [sent.result], by hash; [None]: no array *)
  rc_latestLedger : W → result exn Z * W;
  rc_fetch : string → W → result exn (Z * option Json) * W;       (* status, and the body where it is JSON *)
  rc_now : W → Z;
  rc_account : string → W → account_read * W;
  rc_sign_trust : ClassicAsset → W → result exn string * W;       (* the signed [changeTrust] *)
  rc_submit_trust : string → W → result exn () * W;
}.

Record SwapEntry : Type := { se_code : string; se_issuer : string; se_token : string }.

(** The part of [config.ts] read here. *)
Record ReceiveConfig : Type := {
  cf_usdcToken : string;
  cf_tokenMessengerMinter : string;
  cf_irisUrl : string;
  cf_destinationDomain : Z;
  cf_explorerUrl : string;
  cf_soroswapRouter : string;
  cf_xlmToken : string;
  cf_swapOffer : list string;
  cf_swapAssets : option (jsmap string SwapEntry);
}.

Definition requireContract (address name : string) : result exn string :=
  if decide (address = "")
  then Err (error ("Missing contract address for " +:+ name +:+ ". Set the matching NEXT_PUBLIC_* variable (see .env.example)."))
  else Ok address.

(** ** Sending to another chain *)

Definition STELLAR_DOMAIN : Z := 27.
Definition STANDARD_FINALITY : Z := 2000.
Definition ALLOWANCE_LEDGERS : Z := 200.

(** [/^0x[0-9a-fA-F]{40}$/]: the digits after the prefix. *)
Definition evm_hex (address : string) : option string :=
  match chars address with
  | z :: x :: rest =>
      if bool_decide (z = "0"%char) && bool_decide (x = "x"%char) && bool_decide (length rest = 40%nat) && forallb is_hex_char rest
      then Some (of_chars rest) else None
  | _ => None
  end.

Definition isEvmAddress (address : string) : bool := bool_decide (is_Some (evm_hex address)).

Definition evmAddressToBytes32 (address : string) : result exn (list byte) :=
  match evm_hex address with
  | Some hex => Ok (replicate 12 x00 ++ from_hex hex)
  | None => Err (error "Enter a 0x address with 40 hex characters.")
  end.

(** BigInt remainder and division truncate. *)
Definition burnableStroops (stroops : Z) : Z := stroops - Z.rem stroops 10.

Definition maxFeeFor (amount : Z) (minimumFeeBp : Json) : result exn Z :=
  bp ← of_option (ceil_number minimumFeeBp) (error "RangeError");
  mret ((amount * bp + 9999) ÷ 10000).

Definition member (k : string) (v : Json) : option Json := match v with j_object fields => map_get k fields | _ => None end.

(** [tiers.find(t => t.finalityThreshold === STANDARD_FINALITY)]: reading a
    member of [null] throws. *)
Fixpoint find_standard (tiers : list Json) : result exn (option Json) :=
  match tiers with
  | [] => Ok None
  | j_null :: _ => Err (error "TypeError")
  | t :: tiers =>
      match member "finalityThreshold" t with
      | Some (j_number z) => if z =? STANDARD_FINALITY then Ok (Some t) else find_standard tiers
      | _ => find_standard tiers
      end
  end.

Definition is_success (status : Z) : bool := (200 <=? status) && (status <=? 299).

Record SendResult : Type := {
  sr_approveHash : option string;
  sr_burnHash : string;
  sr_amount : Z;
  sr_maxFee : Z;
}.

Inductive Attestation : Type :=
| at_pending
| at_complete (message : option string) (attestation : string).

Section receive.
Context {W tx : Type} `{ReceiveEnv W tx} (cf : ReceiveConfig).
Abbreviation M := (io (device W) exn).

Definition tmmId : result exn string := requireContract (cf_tokenMessengerMinter cf) "CCTP TokenMessengerMinter".
Definition usdcId : result exn string := requireContract (cf_usdcToken cf) "USDC token".

Definition fetchMinimumFeeBp : M Json :=
  '(status, body) ← await (rc_fetch (cf_irisUrl cf +:+ "/v2/burn/USDC/fees/" +:+ z_to_string STELLAR_DOMAIN +:+ "/" +:+
                                     z_to_string (cf_destinationDomain cf)));
  if negb (is_success status) then throw (error ("Circle fee lookup failed (" +:+ z_to_string status +:+ ")."))
  else
    match body with
    | Some (j_array tiers) =>
        standard ← lift (find_standard tiers);
        match standard with
        | None => throw (error "Circle returned no Standard fee.")
        | Some t => lift (of_option (member "minimumFee" t) (error "RangeError"))
        end
    | Some _ => throw (error "TypeError")
    | None => throw (error "SyntaxError")
    end.

(** [callContract] *)
Definition callContract (contract method : string) (publicKey : option string) (args : list ScVal) : M tx :=
  await (rc_build {| cc_contract := contract; cc_method := method; cc_publicKey := default READ_ONLY_SOURCE publicKey;
                     cc_args := args |}).

Definition allowance (owner : string) : M Z :=
  usdc ← lift usdcId;
  tmm ← lift tmmId;
  t ← callContract usdc "allowance" None [sc_address owner; sc_address tmm];
  lift (rc_int t).

(** No callbacks: nothing is kept on the device. *)
Definition sign_and_submit (t : tx) : M string :=
  r ← signAndSubmit t (λ _, mret tt) (λ _, mret tt); mret r.1.1.

Definition approve_allowance (owner : string) (amount : Z) : M string :=
  emit (e_preparing (Some building));;
  sequence ← await rc_latestLedger;
  usdc ← lift usdcId;
  tmm ← lift tmmId;
  approve ← callContract usdc "approve" (Some owner)
    [sc_address owner; sc_address tmm; sc_i128 amount; sc_u32 (sequence + ALLOWANCE_LEDGERS)];
  sign_and_submit approve.

Definition burn_args (owner usdc : string) (mintRecipient : list byte) (amount maxFee : Z) : list ScVal :=
  [sc_address owner; sc_i128 amount; sc_u32 (cf_destinationDomain cf); sc_bytes mintRecipient; sc_address usdc;
   sc_bytes (replicate 32 x00); sc_i128 maxFee; sc_u32 STANDARD_FINALITY].

Definition sendUsdcToChain (owner : string) (amountStroops : Z) (recipient : string) : M SendResult :=
  mintRecipient ← lift (evmAddressToBytes32 recipient);
  let amount := burnableStroops amountStroops in
  if amount <=? 0 then throw (error "Enter an amount of at least 0.000001 USDC.")
  else
    emit (e_preparing (Some reading));;
    feeBp ← fetchMinimumFeeBp;
    allowed ← allowance owner;
    maxFee ← lift (maxFeeFor amount feeBp);
    approveHash ← (if allowed <? amount then Some <$> approve_allowance owner amount else mret None);
    emit (e_preparing (Some building));;
    tmm ← lift tmmId;
    usdc ← lift usdcId;
    burn ← callContract tmm "deposit_for_burn" (Some owner) (burn_args owner usdc mintRecipient amount maxFee);
    burnHash ← sign_and_submit burn;
    emit (e_settled (Some burnHash));;
    mret {| sr_approveHash := approveHash; sr_burnHash := burnHash; sr_amount := amount; sr_maxFee := maxFee |}.

Definition text_member (k : string) (v : Json) : option string :=
  match member k v with Some (j_string s) => Some s | _ => None end.

(** [body.messages?.[0]]: reading a member of [null] throws. *)
Definition first_message (body : Json) : result exn (option Json) :=
  match body with
  | j_null => Err (error "TypeError")
  | _ => match member "messages" body with Some (j_array (m :: _)) => Ok (Some m) | _ => Ok None end
  end.

Definition fetchAttestation (burnHash : string) : M Attestation :=
  '(status, body) ← await (rc_fetch (cf_irisUrl cf +:+ "/v2/messages/" +:+ z_to_string STELLAR_DOMAIN +:+
                                     "?transactionHash=" +:+ toLowerCase burnHash));
  if status =? 404 then mret at_pending
  else if negb (is_success status) then throw (error ("Circle attestation lookup failed (" +:+ z_to_string status +:+ ")."))
  else
    body ← lift (of_option body (error "SyntaxError"));
    m ← lift (first_message body);
    match m with
    | None => mret at_pending
    | Some m =>
        match text_member "status" m, present (text_member "attestation" m) with
        | Some st, Some att =>
            if bool_decide (st = "complete") && negb (bool_decide (att = "PENDING"))
            then mret (at_complete (text_member "message" m) att) else mret at_pending
        | _, _ => mret at_pending
        end
    end.

(** ** Swapping *)

Definition DEFAULT_SLIPPAGE_BP : Z := 50.
Definition MAX_SLIPPAGE_BP : Z := 500.
Definition DEADLINE_SECONDS : Z := 300.

Definition routerId : result exn string := requireContract (cf_soroswapRouter cf) "Soroswap router".

Definition usdcToPath (token : string) : result exn (list string) := usdc ← usdcId; mret [usdc; token].

Definition usdcToXlmPath : result exn (list string) :=
  xlm ← requireContract (cf_xlmToken cf) "XLM token"; usdcToPath xlm.

(** [None]: not an integer. *)
Definition check_slippage (slippageBp : option Z) : result exn Z :=
  match slippageBp with
  | Some bp => if (bp <? 0) || (MAX_SLIPPAGE_BP <? bp)
               then Err (error "Slippage must be a whole number of basis points from 0 to 500.") else Ok bp
  | None => Err (error "Slippage must be a whole number of basis points from 0 to 500.")
  end.

Definition minOut (quoted : Z) (slippageBp : option Z) : result exn Z :=
  bp ← check_slippage slippageBp; mret ((quoted * (10000 - bp)) ÷ 10000).

Definition maxIn (quoted : Z) (slippageBp : option Z) : result exn Z :=
  bp ← check_slippage slippageBp; mret ((quoted * (10000 + bp) + 9999) ÷ 10000).

Definition swapDeadline (nowMs : Z) : Z := nowMs / 1000 + DEADLINE_SECONDS.

Definition quoteUsdcTo (amountIn : Z) (path : list string) : M Z :=
  if amountIn <=? 0 then throw (error "Enter an amount above 0.")
  else
    router ← lift routerId;
    t ← callContract router "router_get_amounts_out" None [sc_i128 amountIn; sc_path path];
    amounts ← lift (rc_ints t);
    lift (of_option (last amounts) (error "The router returned no quote.")).

Record SwapResult : Type := { sw_hash : string; sw_quotedOut : Z; sw_minOut : Z; sw_received : option Z }.

Definition swapUsdcTo (owner : string) (path : list string) (amountIn : Z) (slippageBp : option Z) : M SwapResult :=
  emit (e_preparing (Some reading));;
  quotedOut ← quoteUsdcTo amountIn path;
  floor ← lift (minOut quotedOut slippageBp);
  emit (e_preparing (Some building));;
  router ← lift routerId;
  now ← gets (λ d, rc_now (dv_world d));
  t ← callContract router "swap_exact_tokens_for_tokens" (Some owner)
        [sc_i128 amountIn; sc_i128 floor; sc_path path; sc_address owner; sc_u64 (swapDeadline now)];
  hash ← sign_and_submit t;
  emit (e_settled (Some hash));;
  amounts ← await (rc_sent_ints hash);
  mret {| sw_hash := hash; sw_quotedOut := quotedOut; sw_minOut := floor; sw_received := amounts ≫= last |}.

Definition xlmToUsdcPath : result exn (list string) := @rev string <$> usdcToXlmPath.

Definition quoteXlmForUsdc (amountOut : Z) (path : list string) : M Z :=
  if amountOut <=? 0 then throw (error "Enter an amount above 0.")
  else
    router ← lift routerId;
    t ← callContract router "router_get_amounts_in" None [sc_i128 amountOut; sc_path path];
    amounts ← lift (rc_ints t);
    lift (of_option (head amounts) (error "The router returned no quote.")).

Definition buyUsdcWithXlm (owner : string) (amountOut : Z) (slippageBp : option Z) : M (string * Z) :=
  path ← lift xlmToUsdcPath;
  emit (e_preparing (Some reading));;
  quoted ← quoteXlmForUsdc amountOut path;
  ceiling ← lift (maxIn quoted slippageBp);
  emit (e_preparing (Some building));;
  router ← lift routerId;
  now ← gets (λ d, rc_now (dv_world d));
  t ← callContract router "swap_tokens_for_exact_tokens" (Some owner)
        [sc_i128 amountOut; sc_i128 ceiling; sc_path path; sc_address owner; sc_u64 (swapDeadline now)];
  hash ← sign_and_submit t;
  emit (e_settled (Some hash));;
  mret (hash, ceiling).

(** ** Trustlines *)

#[local] Instance ClassicAsset_eq_dec : EqDecision ClassicAsset.
Proof. solve_decision. Defined.

Definition findBalanceLine (balances : list BalanceLine) (asset : ClassicAsset) : option BalanceLine :=
  snd <$> list_find (λ b, bl_asset b = Some asset) balances.

Definition load_account (address : string) : M account_read := λ d,
  let '(a, w) := rc_account address (dv_world d) in (Ok a, set_world w d).

Definition hasTrustline (address : string) (asset : ClassicAsset) : M bool :=
  if decide (asset_issuer asset = "") then mret false
  else
    a ← load_account address;
    mret (match a with account_lines bs => bool_decide (is_Some (findBalanceLine bs asset)) | _ => false end).

(** [balance.split(".")] to stroops; a balance that is not digits throws. *)
Definition stroops_of_balance (balance : string) : result exn Z :=
  let '(whole, rest) := run_of (λ c, negb (Ascii.eqb c ".")) (chars balance) in
  let frac := (run_of (λ c, negb (Ascii.eqb c ".")) (drop 1 rest)).1 in
  let padded := take 7 (frac ++ replicate (7 - length frac) "0"%char) in
  w ← of_option (BigInt (of_chars whole)) (error "SyntaxError");
  f ← of_option (BigInt (of_chars padded)) (error "SyntaxError");
  mret (w * 10000000 + f).

Definition getAssetBalance (address : string) (asset : ClassicAsset) : M (option Z) :=
  if decide (asset_issuer asset = "") then mret None
  else
    a ← load_account address;
    match a with
    | account_lines bs =>
        match findBalanceLine bs asset with
        | None => mret None
        | Some l => Some <$> lift (stroops_of_balance (bl_balance l))
        end
    | account_not_found => throw (error "NotFoundError")
    | account_unread e => throw e
    end.

Definition enableTrustline (address : string) (asset : ClassicAsset) : M () :=
  a ← load_account address;
  match a with
  | account_not_found => throw (error "AccountUnfunded")
  | account_unread e => throw e
  | account_lines _ =>
      if decide (asset_issuer asset = "")
      then throw (error ("No issuer configured for the " +:+ asset_code asset +:+ " asset (see .env.example)"))
      else
        signed ← await (rc_sign_trust asset);
        await (rc_submit_trust signed)
  end.

(** ** The choice *)

Inductive SwapAssetId : Type := eurc | pyusd | usdt0 | xlm.

#[local] Instance SwapAssetId_eq_dec : EqDecision SwapAssetId.
Proof. solve_decision. Defined.

Definition swap_id_of (v : string) : option SwapAssetId :=
  if decide (v = "eurc") then Some eurc
  else if decide (v = "pyusd") then Some pyusd
  else if decide (v = "usdt0") then Some usdt0
  else if decide (v = "xlm") then Some xlm else None.

Definition isSwapAssetId (v : string) : bool := bool_decide (is_Some (swap_id_of v)).

Record SwapAsset : Type := {
  sa_id : SwapAssetId;
  sa_label : string;
  sa_network : string;
  sa_token : string;
  sa_classic : option ClassicAsset;
  sa_usd : bool;
}.

Definition swap_key (i : SwapAssetId) : string :=
  match i with eurc => "eurc" | pyusd => "pyusd" | usdt0 => "usdt0" | xlm => "xlm" end.

Definition swapAsset (i : SwapAssetId) : option SwapAsset :=
  let asset label network usd :=
    a ← cf_swapAssets cf ≫= map_get (swap_key i);
    if decide (se_token a = "") then None
    else Some {| sa_id := i; sa_label := label; sa_network := network; sa_token := se_token a;
                 sa_classic := Some {| asset_code := se_code a; asset_issuer := se_issuer a |}; sa_usd := usd |} in
  match i with
  | xlm =>
      if decide (cf_xlmToken cf = "") then None
      else Some {| sa_id := xlm; sa_label := "XLM"; sa_network := "Stellar testnet"; sa_token := cf_xlmToken cf;
                   sa_classic := None; sa_usd := false |}
  | eurc => asset "EURC" "Stellar testnet" false
  | pyusd => asset "PYUSD" "Stellar testnet" true
  | usdt0 => asset "USDT0" "Writz testnet token" true
  end.

Fixpoint offer_from (seen : list SwapAssetId) (offer : list string) : list SwapAsset :=
  match offer with
  | [] => []
  | v :: offer =>
      match swap_id_of v with
      | None => offer_from seen offer
      | Some i =>
          if bool_decide (i ∈ seen) then offer_from seen offer
          else match swapAsset i with
               | Some a => a :: offer_from (i :: seen) offer
               | None => offer_from (i :: seen) offer
               end
      end
  end.

Definition offeredSwapAssets : list SwapAsset :=
  if decide (cf_soroswapRouter cf = "") then [] else offer_from [] (cf_swapOffer cf).

Inductive ReceiveOption : Type := o_usdc | o_swap (i : SwapAssetId) | o_base.

Record ReceiveChoice : Type := { rch_id : ReceiveOption; rch_label : string; rch_network : string }.

Definition receiveOptions (swap : list SwapAsset) (cctp : bool) : list ReceiveChoice :=
  {| rch_id := o_usdc; rch_label := "USDC"; rch_network := "Stellar testnet" |} ::
  map (λ a, {| rch_id := o_swap (sa_id a); rch_label := sa_label a; rch_network := sa_network a |}) swap ++
  (if cctp then [{| rch_id := o_base; rch_label := "USDC"; rch_network := "Base Sepolia testnet" |}] else []).

(** *** Addresses *)

Section evm.
Context (keccak_256 : list byte → list byte).

Definition byte_of (c : ascii) : byte := Ascii.byte_of_ascii c.

(** The [i]-th nibble of the hash of the lower-case digits. *)
Definition hash_nibble (hash : list byte) (i : nat) : Z :=
  Z.land (Z.shiftr (b2z (default x00 (hash !! (i / 2)%nat))) (if Nat.even i then 4 else 0)) 15.

Definition is_letter (c : ascii) : bool := in_range "a" "f" c || in_range "A" "F" c.

(** One digit of the loop of [checksumOk]. *)
Definition digit_ok (hash : list byte) (i : nat) (c : ascii) : bool :=
  negb (is_letter c) || Bool.eqb (8 <=? hash_nibble hash i) (bool_decide (c = char_upper c)).

Fixpoint digits_ok (hash : list byte) (i : nat) (cs : list ascii) : bool :=
  match cs with [] => true | c :: cs => digit_ok hash i c && digits_ok hash (S i) cs end.

Definition checksumOk (hex : string) : bool :=
  digits_ok (keccak_256 (map byte_of (chars (toLowerCase hex)))) 0 (chars hex).

Inductive EvmParse : Type := evm_ok (address : string) | evm_error (error : string).

Definition parseEvmAddress (input : string) : EvmParse :=
  let v := trim input in
  if decide (v = "") then evm_error "Enter the address that receives the USDC on Base Sepolia."
  else
    match evm_hex v with
    | None => evm_error "Enter an address that starts with 0x and has 40 more characters."
    | Some hex =>
        if string_forall (λ c, Ascii.eqb c "0") hex then evm_error "That is the zero address. Funds sent there are lost."
        else
          let mixed := negb (bool_decide (hex = toLowerCase hex)) && negb (bool_decide (hex = toUpperCase hex)) in
          if mixed && negb (checksumOk hex)
          then evm_error "This address has a typo: its capital letters don't match its checksum."
          else evm_ok ("0x" +:+ hex)
    end.

Inductive ReceiveIntent : Type :=
| in_usdc
| in_swap (asset : SwapAssetId) (slippageBp : option Z)
| in_chain (recipient : string).

Definition intentFor (choice : ReceiveOption) (to : string) (slippageBp : option Z) : result string ReceiveIntent :=
  match choice with
  | o_usdc => Ok in_usdc
  | o_base => match parseEvmAddress to with evm_ok a => Ok (in_chain a) | evm_error e => Err e end
  | o_swap i => Ok (in_swap i slippageBp)
  end.
End evm.

(** ** The two actions *)

(** The value a handler of [catch] gets. *)
Definition thrown_of (e : exn) : thrown :=
  match e with Thrown t => t | TxTimedOut _ => JsError "ConfirmationTimedOut" | TabClosed => JsError "" end.

(** [try { setX(await m) } catch (error) { emit({ type: "failed", error }) }] *)
Definition reporting {A} (m : M A) : M (option A) :=
  catching (Some <$> m) (λ e, emit (e_failed (thrown_of e));; mret None).

Definition add_trustline (address : string) (asset : SwapAsset) : M () :=
  match sa_classic asset with
  | None => mret ()
  | Some classic =>
      has ← hasTrustline address classic;
      if has : bool then mret ()
      else emit (e_awaiting_signature Rejection.stellar);; enableTrustline address classic
  end.

Definition toAsset (address : string) (asset : SwapAsset) (amountIn : Z) (slippageBp : option Z) : M (option SwapResult) :=
  emit e_start;;
  reporting (add_trustline address asset;;
             path ← lift (usdcToPath (sa_token asset));
             swapUsdcTo address path amountIn slippageBp).

Definition toChain (address : string) (amount : Z) (recipient : string) : M (option SendResult) :=
  emit e_start;;
  reporting (sendUsdcToChain address amount recipient).

(** The other-chain leg. *)
Inductive ChainLeg : Type :=
| leg_idle
| leg_sent (send : SendResult) (recipient : string)
| leg_confirmed (send : SendResult) (recipient : string) (message : option string) (attestation : string).

(** A poll of the attestation of [sentHash]. *)
Definition attestation_poll (sentHash : string) (leg : ChainLeg) : M ChainLeg :=
  a ← catching (Some <$> fetchAttestation sentHash) (λ _, mret None);
  mret (match a, leg with
        | Some (at_complete message attestation), leg_sent send recipient =>
            if decide (sr_burnHash send = sentHash) then leg_confirmed send recipient message attestation else leg
        | _, _ => leg
        end).
End receive.

(** ** Where step 2 stands ([intent.ts]) *)

Inductive ReceivePhase : Type :=
| ph_ready | ph_running | ph_recover | ph_kept | ph_swap_done | ph_chain_sent | ph_chain_confirmed | ph_chain_arrived.

Definition receivePhase (intent : ReceiveIntent) (flow : FlowState) (swap : option SwapResult) (leg : ChainLeg)
    (mintHash : option string) (kept : bool) : ReceivePhase :=
  let by_flow :=
    if isInFlight flow then ph_running
    else match flow with
         | f_failed _ _ | f_signature_cancelled _ _ _ | f_timed_out _ => ph_recover
         | _ => ph_ready
         end in
  if kept then ph_kept
  else
    match intent with
    | in_usdc => ph_kept
    | in_swap _ _ => match swap with Some _ => ph_swap_done | None => by_flow end
    | in_chain _ =>
        match leg with
        | leg_idle => by_flow
        | leg_sent _ _ => if truthy mintHash then ph_chain_arrived else ph_chain_sent
        | leg_confirmed _ _ _ _ => if truthy mintHash then ph_chain_arrived else ph_chain_confirmed
        end
    end.

(** ** Addresses *)

Section evm_facts.
Context (keccak_256 : list byte → list byte).

(** EIP-55: a letter is a capital exactly when its nibble of the hash of the
    lower-case digits is 8 or more. *)
Fixpoint eip55_from (hash : list byte) (i : nat) (cs : list ascii) : list ascii :=
  match cs with
  | [] => []
  | c :: cs => (if is_letter c && (8 <=? hash_nibble hash i) then char_upper c else c) :: eip55_from hash (S i) cs
  end.

Definition eip55 (hex : string) : string :=
  let lower := toLowerCase hex in
  of_chars (eip55_from (keccak_256 (map byte_of (chars lower))) 0 (chars lower)).

Lemma digit_ok_eip55 hash i c : is_hex_char c = true →
  digit_ok hash i c = true ↔ c = (if is_letter (char_lower c) && (8 <=? hash_nibble hash i) then char_upper (char_lower c) else char_lower c).
Proof.
  intros Hc. unfold digit_ok. destruct (8 <=? hash_nibble hash i); generalize dependent c;
    intros [[] [] [] [] [] [] [] []] Hc; vm_compute in Hc; try discriminate Hc; vm_compute; split; congruence.
Qed.

Lemma digits_ok_eip55 hash cs : ∀ i, forallb is_hex_char cs = true →
  digits_ok hash i cs = true ↔ cs = eip55_from hash i (map char_lower cs).
Proof.
  induction cs as [|c cs IH]; intros i Hcs; [done|]. simpl in Hcs. bools. cbn [digits_ok map eip55_from].
  rewrite andb_true_iff, digit_ok_eip55, IH by done. split; [by intros [<- <-]|]. intros E. injection E as E1 E2. done.
Qed.

Lemma checksumOk_eip55 hex : string_forall is_hex_char hex = true → checksumOk keccak_256 hex = true ↔ hex = eip55 hex.
Proof.
  intros Hh. unfold checksumOk, eip55, string_forall in *. rewrite digits_ok_eip55 by done.
  unfold toLowerCase. rewrite !chars_of_chars. split.
  - intros E. apply (f_equal of_chars) in E. by rewrite of_chars_chars in E.
  - intros E. apply (f_equal chars) in E. by rewrite chars_of_chars in E.
Qed.

Lemma evm_hex_some v hex : evm_hex v = Some hex ↔
  v = "0x" +:+ hex ∧ slen hex = 40 ∧ string_forall is_hex_char hex = true.
Proof.
  unfold evm_hex, string_forall, slen. rewrite <- chars_length. split.
  - destruct (chars v) as [|z [|x rest]] eqn:E; try done. destruct (_ && _ && _ && _)%bool eqn:Ec; [|done]. intros [= <-].
    bools. subst. rewrite chars_of_chars. split_and!; [|lia|done].
    by rewrite <- (of_chars_chars v), E.
  - intros (-> & Hl & Hh). rewrite chars_app. simpl.
    rewrite bool_decide_eq_true_2 by lia. rewrite Hh. by rewrite of_chars_chars.
Qed.

(** An address is taken exactly when it is 0x and 40 hexadecimal digits,
    not the zero address, and in one case or in the case of EIP-55; what is
    kept is the address as typed, without the white space around it. *)
Theorem parseEvmAddress_is_eip55 input a :
  parseEvmAddress keccak_256 input = evm_ok a ↔
  ∃ hex, trim input = "0x" +:+ hex ∧ a = "0x" +:+ hex ∧ slen hex = 40 ∧ string_forall is_hex_char hex = true ∧
    hex ≠ of_chars (replicate 40 "0"%char) ∧ hex ∈ [toLowerCase hex; toUpperCase hex; eip55 hex].
Proof.
  unfold parseEvmAddress. split.
  - case_decide; [done|]. destruct (evm_hex (trim input)) as [hex|] eqn:E; [|done].
    apply evm_hex_some in E as (Hv & Hl & Hh). destruct (string_forall (λ c, Ascii.eqb c "0") hex) eqn:Ez; [done|].
    destruct (_ && _)%bool eqn:Em; [done|]. intros [= <-]. exists hex.
    do 4 (split; [done|]). split.
    + intros ->. vm_compute in Ez. done.
    + rewrite !elem_of_cons. apply andb_false_iff in Em as [Em|Em].
      * apply andb_false_iff in Em as [Em|Em]; bools; auto.
      * bools. apply checksumOk_eip55 in Em; auto.
  - intros (hex & Hv & -> & Hl & Hh & Hz & Hcase). rewrite Hv.
    assert (evm_hex ("0x" +:+ hex) = Some hex) as -> by (by apply evm_hex_some).
    rewrite decide_False by done. destruct (string_forall (λ c, Ascii.eqb c "0") hex) eqn:Ez.
    { exfalso. apply Hz. unfold string_forall, slen in *. rewrite <- chars_length in Hl. rewrite <- (of_chars_chars hex). f_equal.
      assert (length (chars hex) = 40%nat) as <- by lia. clear -Ez.
      induction (chars hex) as [|c cs IH]; [done|]. simpl in *. bools. apply Ascii.eqb_eq in H as ->. f_equal. auto. }
    destruct (_ && _)%bool eqn:Em; [|done]. exfalso. bools.
    rewrite !elem_of_cons in Hcase. destruct Hcase as [?|[?|[Hc|Hc]]]; [done|done| |by apply elem_of_nil in Hc].
    apply checksumOk_eip55 in Hc; [|done]. congruence.
Qed.
End evm_facts.

(** ** What the wallet signs *)

Inductive signature : Type := s_call (c : ContractCall) | s_trust (asset : ClassicAsset).

(** The record of what the wallet signed, and that nothing but a signature adds
    to it; the transaction built for a call is for that call. *)
Class ReceiveLaws (W tx : Type) `{ReceiveEnv W tx} : Type := {
  signed : W → list signature;
  call_of : tx → ContractCall;
  build_call c w t w' : rc_build c w = (Ok t, w') → call_of t = c;
  build_quiet c w : signed (rc_build c w).2 = signed w;
  sign_adds t w : let '(r, w') := sign_tx t w in
    signed w' = signed w ++ (if is_ok r then [s_call (call_of t)] else []);
  trust_adds asset w : let '(r, w') := rc_sign_trust asset w in
    signed w' = signed w ++ (if is_ok r then [s_trust asset] else []);
  send_quiet t w : signed (send_tx t w).2 = signed w;
  fetch_quiet url w : signed (rc_fetch url w).2 = signed w;
  ledger_quiet w : signed (rc_latestLedger w).2 = signed w;
  sent_quiet h w : signed (rc_sent_ints h w).2 = signed w;
  account_quiet a w : signed (rc_account a w).2 = signed w;
  submit_quiet s w : signed (rc_submit_trust s w).2 = signed w;
}.

Section signing.
Context {W tx : Type} `{ReceiveLaws W tx} (cf : ReceiveConfig).
Abbreviation M := (io (device W) exn).

(** [m] adds some signatures [L], and ends in [r], with [Q r L]. *)
Definition signs {A} (m : M A) (Q : result exn A → list signature → Prop) : Prop := ∀ d,
  ∃ L, signed (dv_world (m d).2) = signed (dv_world d) ++ L ∧ Q (m d).1 L.

(** It adds none, and its value is one of [P]. *)
Definition asks {A} (m : M A) (P : A → Prop) : Prop := ∀ d,
  signed (dv_world (m d).2) = signed (dv_world d) ∧ ∀ a, (m d).1 = Ok a → P a.

Lemma signs_ret {A} (a : A) (Q : result exn A → list signature → Prop) : Q (Ok a) [] → signs (mret a) Q.
Proof. intros HQ d. exists []. by rewrite app_nil_r. Qed.

Lemma signs_bind {A B} (m : M A) (f : A → M B) Q1 Q :
  signs m Q1 → (∀ e L, Q1 (Err e) L → Q (Err e) L) →
  (∀ a L1, Q1 (Ok a) L1 → signs (f a) (λ r L, Q r (L1 ++ L))) → signs (m ≫= f) Q.
Proof.
  intros Hm He Hf d. unfold mbind, io_bind. destruct (Hm d) as (L1 & HL1 & HQ1).
  destruct (m d) as [[a|e] d1]; simpl in *.
  - destruct (Hf a L1 HQ1 d1) as (L & HL & HQ). exists (L1 ++ L). by rewrite HL, HL1, app_assoc.
  - exists L1. auto.
Qed.

Lemma signs_after {A B} (m : M A) (f : A → M B) P Q :
  asks m P → (∀ e, Q (Err e) []) → (∀ a, P a → signs (f a) Q) → signs (m ≫= f) Q.
Proof.
  intros Hm He Hf d. unfold mbind, io_bind. destruct (Hm d) as [Hs HP]. destruct (m d) as [[a|e] d1]; simpl in *.
  - destruct (Hf a (HP a eq_refl) d1) as (L & HL & HQ). exists L. by rewrite HL, Hs.
  - exists []. by rewrite app_nil_r.
Qed.

Lemma signs_throw {A} e (Q : result exn A → list signature → Prop) : Q (Err e) [] → signs (throw e) Q.
Proof. intros HQ d. exists []. by rewrite app_nil_r. Qed.

Lemma signs_weaken {A} (m : M A) Q1 Q2 : signs m Q1 → (∀ r L, Q1 r L → Q2 r L) → signs m Q2.
Proof. intros Hm HQ d. destruct (Hm d) as (L & ? & ?). eauto. Qed.

Lemma asks_bind {A B} (m : M A) (f : A → M B) P Q : asks m P → (∀ a, P a → asks (f a) Q) → asks (m ≫= f) Q.
Proof.
  intros Hm Hf d. unfold mbind, io_bind. destruct (Hm d) as [Hs HP]. destruct (m d) as [[a|e] d1]; simpl in *; [|done].
  destruct (Hf a (HP a eq_refl) d1) as [Hs2 HQ]. by rewrite Hs2, Hs.
Qed.

Lemma asks_ret {A} (a : A) (P : A → Prop) : P a → asks (mret a) P.
Proof. intros HP d. split; [done|]. by intros ? [= <-]. Qed.

Lemma asks_throw {A} e (P : A → Prop) : asks (throw e) P.
Proof. intros d. by split. Qed.

Lemma asks_lift {A} (r : result exn A) : asks (lift r) (λ a, r = Ok a).
Proof. intros d. by split. Qed.

Lemma asks_emit e : asks (emit e) (λ _, True).
Proof. intros d. by split. Qed.

Lemma asks_gets {A} (f : device W → A) : asks (gets f) (λ _, True).
Proof. intros d. by split. Qed.

Lemma asks_await {A} (f : W → result exn A * W) (P : A → Prop) :
  (∀ w, signed (f w).2 = signed w) → (∀ w a, (f w).1 = Ok a → P a) → asks (await f) P.
Proof.
  intros Hf HP d. unfold await. specialize (Hf (dv_world d)). specialize (HP (dv_world d)).
  by destruct (f (dv_world d)) as [r w].
Qed.

Lemma asks_call c m k args :
  asks (callContract c m k args)
    (λ t, call_of t = {| cc_contract := c; cc_method := m; cc_publicKey := default READ_ONLY_SOURCE k; cc_args := args |}).
Proof.
  apply asks_await; [intros w; apply build_quiet|]. intros w t Ht.
  destruct (rc_build _ w) as [r w'] eqn:E. simpl in Ht. subst r. by apply build_call in E.
Qed.

Lemma asks_fetch url : asks (await (rc_fetch url)) (λ _, True).
Proof. apply asks_await; [intros w; apply fetch_quiet|done]. Qed.

(** One call signed, or none when it fails. *)
Lemma sign_and_submit_signs (t : tx) :
  signs (sign_and_submit t) (λ r L, L = [s_call (call_of t)] ∨ L = [] ∧ is_ok r = false).
Proof.
  intros d. unfold sign_and_submit, signAndSubmit, emit, modify, catching, try_catch, await, mbind, io_bind.
  cbn [set_events dv_world]. pose proof (sign_adds t (dv_world d)) as Hs.
  destruct (sign_tx t (dv_world d)) as [[h|e] w]; simpl in Hs.
  - cbn. pose proof (send_quiet t w) as Hq. destruct (send_tx t w) as [o w1]. simpl in Hq.
    destruct o; cbn; (eexists; split; [by rewrite Hq, Hs|by left]).
  - exists []. rewrite !app_nil_r in *. cbn.
    destruct e as [x|h|]; cbn; [destruct (asRejection x Rejection.stellar None); cbn|..]; auto.
Qed.

Lemma requireContract_ok a n x : requireContract a n = Ok x → x = a ∧ a ≠ "".
Proof. unfold requireContract. case_decide; [done|]. by intros [= <-]. Qed.

Lemma fee_asks : asks (fetchMinimumFeeBp cf) (λ _, True).
Proof.
  eapply asks_bind; [apply asks_fetch|]. intros [status body] _. destruct (negb _); [apply asks_throw|].
  destruct body as [[]|]; try apply asks_throw.
  eapply asks_bind; [apply asks_lift|]. intros [t|] _; [|apply asks_throw]. intros d. by split.
Qed.

Lemma allowance_asks owner : asks (allowance cf owner) (λ _, True).
Proof.
  eapply asks_bind; [apply asks_lift|]. intros usdc _. eapply asks_bind; [apply asks_lift|]. intros tmm _.
  eapply asks_bind; [apply asks_call|]. intros t _ d. by split.
Qed.

(** *** Sending *)

Definition approval owner amount (s : signature) : Prop := ∃ sequence,
  s = s_call {| cc_contract := cf_usdcToken cf; cc_method := "approve"; cc_publicKey := owner;
                cc_args := [sc_address owner; sc_address (cf_tokenMessengerMinter cf); sc_i128 amount;
                            sc_u32 (sequence + ALLOWANCE_LEDGERS)] |}.

Definition burn_call owner mintRecipient amount maxFee : ContractCall := {|
  cc_contract := cf_tokenMessengerMinter cf; cc_method := "deposit_for_burn"; cc_publicKey := owner;
  cc_args := burn_args cf owner (cf_usdcToken cf) mintRecipient amount maxFee |}.

(** Circle's fee at [bp] basis points, rounded up. *)
Definition covers_fee amount maxFee : Prop := ∃ bp, maxFee = (amount * bp + 9999) ÷ 10000.

(** What a transfer may have had signed: nothing, an allowance of its amount, or
    that and its burn; a transfer that returns had its burn signed. *)
Definition sent_as_asked owner stroops recipient (r : result exn SendResult) (L : list signature) : Prop :=
  let amount := burnableStroops stroops in
  ∃ mintRecipient maxFee approvals burned,
    L = approvals ++ (if burned : bool then [s_call (burn_call owner mintRecipient amount maxFee)] else []) ∧
    Forall (approval owner amount) approvals ∧ (length approvals ≤ 1)%nat ∧
    (L ≠ [] → evmAddressToBytes32 recipient = Ok mintRecipient ∧ 0 < amount ∧ covers_fee amount maxFee) ∧
    match r with Ok res => burned = true ∧ sr_amount res = amount ∧ sr_maxFee res = maxFee | Err _ => True end.

Lemma nothing_sent owner stroops recipient e : sent_as_asked owner stroops recipient (Err e) [].
Proof. exists [], 0, [], false. split_and!; [done|constructor|simpl; lia|done|done]. Qed.
#[local] Hint Resolve nothing_sent : core.

Lemma approve_signs owner amount :
  signs (approve_allowance cf owner amount) (λ r L, Forall (approval owner amount) L ∧ (length L ≤ 1)%nat).
Proof.
  assert (Forall (approval owner amount) [] ∧ (length (@nil signature) ≤ 1)%nat) as H0' by (split; [constructor|simpl; lia]).
  eapply signs_after; [apply asks_emit|done|]. intros _ _.
  eapply signs_after; [by apply asks_await with (P := λ _, True); [intros w; apply ledger_quiet|]|done|]. intros seq _.
  eapply signs_after; [apply asks_lift|done|]. intros usdc [-> _]%requireContract_ok.
  eapply signs_after; [apply asks_lift|done|]. intros tmm [-> _]%requireContract_ok.
  eapply signs_after; [apply asks_call|done|]. intros t Ht.
  eapply signs_weaken; [apply sign_and_submit_signs|]. rewrite Ht. intros r L [->|[-> _]]; [|done].
  split; [|simpl; lia]. repeat constructor. by exists seq.
Qed.

Lemma burn_signs owner mintRecipient amount maxFee approveHash :
  signs (emit (e_preparing (Some building));;
         tmm ← lift (tmmId cf); usdc ← lift (usdcId cf);
         burn ← callContract tmm "deposit_for_burn" (Some owner) (burn_args cf owner usdc mintRecipient amount maxFee);
         burnHash ← sign_and_submit burn;
         emit (e_settled (Some burnHash));;
         mret {| sr_approveHash := approveHash; sr_burnHash := burnHash; sr_amount := amount; sr_maxFee := maxFee |})
    (λ r L, ∃ burned : bool, L = (if burned then [s_call (burn_call owner mintRecipient amount maxFee)] else []) ∧
       match r with Ok res => burned = true ∧ sr_amount res = amount ∧ sr_maxFee res = maxFee | Err _ => True end).
Proof.
  assert (∀ e : exn, ∃ burned : bool, [] = (if burned then [s_call (burn_call owner mintRecipient amount maxFee)] else []) ∧
    match (Err e : result exn SendResult) with Ok res => burned = true ∧ sr_amount res = amount ∧ sr_maxFee res = maxFee | Err _ => True end)
    as H0' by (by exists false).
  eapply signs_after; [apply asks_emit|done|]. intros _ _.
  eapply signs_after; [apply asks_lift|done|]. intros tmm [-> _]%requireContract_ok.
  eapply signs_after; [apply asks_lift|done|]. intros usdc [-> _]%requireContract_ok.
  eapply signs_after; [apply asks_call|done|]. intros t Ht.
  eapply signs_bind; [apply sign_and_submit_signs| |].
  - rewrite Ht. intros e L [->|[-> _]]; [by exists true|by exists false].
  - rewrite Ht. intros h L [->|[_ ?]]; [|done]. apply (signs_weaken _ (λ r L, L = [] ∧ ∃ res, r = Ok res ∧ sr_amount res = amount ∧ sr_maxFee res = maxFee)).
    + intros d. exists []. rewrite app_nil_r. split; [done|]. split; [done|]. by eexists.
    + intros r L [-> (res & -> & ? & ?)]. by exists true.
Qed.

Lemma sendUsdcToChain_signs owner stroops recipient :
  signs (sendUsdcToChain cf owner stroops recipient) (sent_as_asked owner stroops recipient).
Proof.
  unfold sendUsdcToChain. eapply signs_after; [apply asks_lift|done|]. intros mintRecipient Hm. cbv zeta.
  destruct (burnableStroops stroops <=? 0) eqn:Ha; [by apply signs_throw|]. bools.
  eapply signs_after; [apply asks_emit|done|]. intros _ _.
  eapply signs_after; [apply fee_asks|done|]. intros feeBp _.
  eapply signs_after; [apply allowance_asks|done|]. intros allowed _.
  eapply signs_after; [apply asks_lift|done|]. intros maxFee (bp & _ & [= <-])%bind_ok.
  set (amount := burnableStroops stroops) in *. set (maxFee := (amount * bp + 9999) ÷ 10000).
  assert (covers_fee amount maxFee) as Hfee by by exists bp.
  eapply (signs_bind _ _ (λ r L, Forall (approval owner amount) L ∧ (length L ≤ 1)%nat)).
  - destruct (allowed <? amount).
    + intros d. destruct (approve_signs owner amount d) as (L & HL & HQ). exists L. unfold fmap, io_fmap.
      destruct (approve_allowance cf owner amount d) as [[h|e] d']; auto.
    + apply signs_ret. split; [constructor|simpl; lia].
  - intros e L [HL Hl]. exists mintRecipient, maxFee, L, false. rewrite app_nil_r. by split_and!.
  - intros approveHash L1 [HL1 Hl1]. eapply signs_weaken; [apply burn_signs|].
    intros r L (burned & -> & Hr). exists mintRecipient, maxFee, L1, burned. by split_and!.
Qed.
End signing.

(** ** A burn of the app is one the relay completes *)

(** What Circle's TokenMessengerMinter puts in the message of a [deposit_for_burn]
    (its documented layout, for 128-bit amounts): the route, the recipient and the caller it was
    given, the amount at six decimals, no hook. *)
Class CircleLaws (circle : ContractCall → raw_burn) : Prop := {
  circle_burn tmm owner usdc domain mintRecipient caller amount maxFee finality :
    zlen mintRecipient = 32 → zlen caller = 32 → 0 < amount < 2 ^ 127 → is_u32 domain →
    let r := circle {| cc_contract := tmm; cc_method := "deposit_for_burn"; cc_publicKey := owner;
                       cc_args := [sc_address owner; sc_i128 amount; sc_u32 domain; sc_bytes mintRecipient;
                                   sc_address usdc; sc_bytes caller; sc_i128 maxFee; sc_u32 finality] |} in
    wf_burn r ∧ r_version r = 1 ∧ r_bodyVersion r = 1 ∧ r_source r = STELLAR_DOMAIN ∧
    r_destination r = domain ∧ (domain = 6 → r_recipient r = TOKEN_MESSENGER_BYTES) ∧ r_caller r = caller ∧
    r_hook r = [] ∧ r_mintRecipient r = mintRecipient ∧ r_amount r = amount / 10;
}.

Lemma hex_lower_value c : hex_value (char_lower c) = hex_value c.
Proof.
  apply (bool_decide_eq_true (hex_value (char_lower c) = hex_value c)). revert c.
  apply (ascii_forallb (λ c, bool_decide (hex_value (char_lower c) = hex_value c))). by vm_compute.
Qed.

Lemma hex_lower_char c : is_hex_char c = true → is_lower_hex_char (char_lower c) = true.
Proof.
  pose proof (ascii_forallb (λ c, negb (is_hex_char c) || is_lower_hex_char (char_lower c)) ltac:(by vm_compute) c) as H.
  intros Hc. cbv beta in H. by rewrite Hc in H.
Qed.

Lemma unhex_lower cs : unhex_chars (map char_lower cs) = unhex_chars cs.
Proof.
  revert cs. fix IH 1. intros [|c1 [|c2 cs]]; [done|done|]. cbn [map unhex_chars].
  rewrite !hex_lower_value. destruct (hex_value c1), (hex_value c2); [|done..]. f_equal. apply IH.
Qed.

Lemma to_from_hex_any s : Nat.Even (String.length s) → string_forall is_hex_char s = true →
  to_hex (from_hex s) = toLowerCase s.
Proof.
  intros Hev Hs. unfold to_hex, from_hex, toLowerCase, string_forall in *. f_equal. rewrite <- unhex_lower.
  apply hex_unhex_chars; [by rewrite length_map, chars_length|]. rewrite forallb_forall in *.
  intros c (c' & <- & Hc')%in_map_iff. by apply hex_lower_char, Hs.
Qed.

Lemma burnable_spec stroops : 0 < burnableStroops stroops →
  ∃ k, burnableStroops stroops = 10 * k ∧ 0 < k ∧ 10 * k ≤ stroops < 10 * k + 10.
Proof.
  unfold burnableStroops. intros Hp. exists (stroops ÷ 10). Z.to_euclidean_division_equations. lia.
Qed.

Section relay.
Context {W tx : Type} `{ReceiveLaws W tx} (cf : ReceiveConfig) (keccak_256 : list byte → list byte)
  (circle : ContractCall → raw_burn) `{!CircleLaws circle}.

Lemma reporting_signs {A} (m : io (device W) exn A) (Q : result exn A → list signature → Prop) :
  signs m Q → signs (reporting m) (λ r L, ∃ r', Q r' L ∧ ∀ a, r = Ok (Some a) → r' = Ok a).
Proof.
  intros Hm d. destruct (Hm d) as (L & HL & HQ). exists L. unfold reporting, catching, try_catch, fmap, io_fmap.
  destruct (m d) as [[a|e] d']; simpl in *.
  - split; [done|]. exists (Ok a). split; [done|]. by intros ? [= <-].
  - destruct e; simpl; (split; [done|]; eexists; split; [exact HQ|done]).
Qed.

(** The recipient of a taken address: its own 20 bytes, not all zero. *)
Lemma taken_address input a : parseEvmAddress keccak_256 input = evm_ok a →
  ∃ bs, evmAddressToBytes32 a = Ok (replicate 12 x00 ++ bs) ∧ zlen bs = 20 ∧ bs ≠ replicate 20 x00 ∧ hex0x bs = toLowerCase a.
Proof.
  unfold parseEvmAddress. case_decide; [done|]. destruct (evm_hex (trim input)) as [hex|] eqn:E; [|done].
  destruct (string_forall (λ c, Ascii.eqb c "0") hex) eqn:Ez; [done|]. destruct (_ && _)%bool; [done|]. intros [= <-].
  apply evm_hex_some in E as (_ & Hl & Hh).
  assert (evm_hex ("0x" +:+ hex) = Some hex) as Ehex by (by apply evm_hex_some).
  assert (String.length hex = 40%nat) as Hlen by (unfold slen in Hl; lia).
  assert (to_hex (from_hex hex) = toLowerCase hex) as Hback by (apply to_from_hex_any; [rewrite Hlen; by exists 20%nat|done]).
  exists (from_hex hex). unfold evmAddressToBytes32. rewrite Ehex. split_and!; [done| | |].
  - assert (length (chars (to_hex (from_hex hex))) = 40%nat) as Hx.
    { rewrite Hback, chars_length. by rewrite toLowerCase_length. }
    unfold to_hex in Hx. rewrite chars_of_chars, hex_chars_length in Hx. unfold zlen. lia.
  - intros Hz. rewrite Hz in Hback. assert (string_forall (λ c, Ascii.eqb c "0") hex = true) as Hall; [|congruence].
    change (to_hex (replicate 20 x00)) with (of_chars (replicate 40 "0"%char)) in Hback.
    apply (f_equal chars) in Hback. unfold toLowerCase in Hback. rewrite !chars_of_chars in Hback.
    unfold string_forall. apply forallb_forall. intros c Hc%(in_map char_lower). rewrite <- Hback in Hc.
    assert (char_lower c = "0"%char) as Hc0 by (by apply (repeat_spec 40), Hc).
    pose proof (ascii_forallb (λ c, negb (Ascii.eqb (char_lower c) "0") || Ascii.eqb c "0") ltac:(by vm_compute) c) as Hf.
    cbv beta in Hf. by rewrite Hc0 in Hf.
  - unfold hex0x. rewrite Hback. done.
Qed.

(** C10: A transfer the app sends is one the relay completes. Whatever answers
    come from Circle, the network and the wallet, sending [amount] to an address
    the form took has the user sign at most one allowance, of what is burned,
    and one burn: of the amount at six decimals, to exactly that address, for
    Circle's fee rounded up. The message Circle makes of that burn is accepted
    by the relay, for that address; and a transfer reported as sent had its burn
    signed. *)
Theorem transfers_are_relayed input a owner amount (d : device W) :
  cf_destinationDomain cf = 6 → parseEvmAddress keccak_256 input = evm_ok a → amount < 2 ^ 127 →
  let '(r, d') := toChain cf owner amount a d in
  ∃ approvals burns, signed (dv_world d') = signed (dv_world d) ++ approvals ++ map s_call burns ∧
    Forall (approval cf owner (burnableStroops amount)) approvals ∧ (length approvals ≤ 1 ∧ length burns ≤ 1)%nat ∧
    (∀ res, r = Ok (Some res) → length burns = 1%nat ∧ sr_amount res = burnableStroops amount) ∧
    ∀ c, c ∈ burns →
      (∃ bytes fee, c = burn_call cf owner bytes (burnableStroops amount) fee ∧
         covers_fee (burnableStroops amount) fee) ∧
      burnableStroops amount ≤ amount < burnableStroops amount + 10 ∧
      r_amount (circle c) * 10 = burnableStroops amount ∧
      assertRelayable (hex0x (encode_burn (circle c))) =
        Ok {| rb_message := message_of (circle c); rb_mintRecipient := toLowerCase a |}.
Proof.
  intros Hdest (bs & Hbs & Hlen & Hnz & Hlow)%taken_address Hmax.
  assert (signs (toChain cf owner amount a) (λ r L, ∃ r', sent_as_asked cf owner amount a r' L ∧ ∀ x, r = Ok (Some x) → r' = Ok x)) as Hs.
  { eapply signs_after; [apply asks_emit| |].
    - intros e. exists (Err (error "")). split; [apply nothing_sent|done].
    - intros _ _. apply reporting_signs, sendUsdcToChain_signs. }
  specialize (Hs d). destruct (toChain cf owner amount a d) as [r d'].
  destruct Hs as (L & HL & r' & (bytes & fee & approvals & burned & -> & Happ & Hla & Hne & Hr') & Hrr). simpl in HL, Hrr.
  set (c := burn_call cf owner bytes (burnableStroops amount) fee) in *.
  exists approvals, (if burned then [c] else []). split_and!; [|done|done| | |].
  - rewrite HL. by destruct burned.
  - by destruct burned; simpl; lia.
  - intros res ->. rewrite (Hrr res eq_refl) in Hr'. by destruct Hr' as (-> & ? & _).
  - destruct burned; [|by intros ? ?%elem_of_nil]. intros ? ->%list_elem_of_singleton.
    destruct Hne as (Hb & Hpos & Hfee); [by destruct approvals|]. rewrite Hbs in Hb. injection Hb as <-.
    destruct (burnable_spec amount Hpos) as (k & Hk & Hk0 & Hbound).
    destruct (circle_burn (cf_tokenMessengerMinter cf) owner (cf_usdcToken cf) (cf_destinationDomain cf)
      (replicate 12 x00 ++ bs) (replicate 32 x00) (burnableStroops amount) fee STANDARD_FINALITY)
      as (Hwf & Hv & Hbv & Hsrc & Hd & Hrec & Hcall & Hhook & Hmint & Hamt);
      [unfold zlen in *; rewrite length_app, length_replicate; lia|done|lia|by rewrite Hdest|].
    change (circle {| cc_contract := _; cc_method := _; cc_publicKey := _; cc_args := _ |}) with (circle c) in *.
    specialize (Hrec Hdest). rewrite Hdest in Hd.
    assert (r_amount (circle c) = k) as Hamt' by (rewrite Hamt, Hk, Z.mul_comm; apply Z.div_mul; lia).
    split_and!; [by eexists _, fee|lia|lia|lia|].
    rewrite (proj1 (assertRelayable_accepts _ Hwf)).
    + rewrite Hmint, drop_app_length'; [|by rewrite length_replicate]. by rewrite Hlow.
    + unfold relayable. rewrite Hmint, take_app_length', drop_app_length' by (by rewrite length_replicate).
      split_and!; try done. lia.
Qed.
End relay.

(** ** A swap never pays more, or takes less, than was agreed *)

Section swaps.
Context {W tx : Type} `{ReceiveLaws W tx} (cf : ReceiveConfig).
Abbreviation M := (io (device W) exn).

Lemma check_slippage_ok bp b : check_slippage bp = Ok b → bp = Some b ∧ 0 ≤ b ≤ MAX_SLIPPAGE_BP.
Proof.
  unfold check_slippage. destruct bp as [z|]; [|done]. destruct (_ || _)%bool eqn:E; [done|]. intros [= <-]. bools. split; [done|lia].
Qed.

Definition swap_call owner path amountIn floor now : ContractCall := {|
  cc_contract := cf_soroswapRouter cf; cc_method := "swap_exact_tokens_for_tokens"; cc_publicKey := owner;
  cc_args := [sc_i128 amountIn; sc_i128 floor; sc_path path; sc_address owner; sc_u64 (swapDeadline now)] |}.

Definition buy_call owner path amountOut ceiling now : ContractCall := {|
  cc_contract := cf_soroswapRouter cf; cc_method := "swap_tokens_for_exact_tokens"; cc_publicKey := owner;
  cc_args := [sc_i128 amountOut; sc_i128 ceiling; sc_path path; sc_address owner; sc_u64 (swapDeadline now)] |}.

(** The router answered [amounts] when asked [method] for [amount] on [path]. *)
Definition router_answered (method : string) amount path (amounts : list Z) : Prop := ∃ t,
  call_of t = {| cc_contract := cf_soroswapRouter cf; cc_method := method; cc_publicKey := READ_ONLY_SOURCE;
                 cc_args := [sc_i128 amount; sc_path path] |} ∧ rc_ints t = Ok amounts.

Lemma quote_asks amountIn path :
  asks (quoteUsdcTo cf amountIn path) (λ q, 0 < amountIn ∧ ∃ amounts,
    router_answered "router_get_amounts_out" amountIn path amounts ∧ last amounts = Some q).
Proof.
  unfold quoteUsdcTo. destruct (amountIn <=? 0) eqn:Ea; [apply asks_throw|]. bools.
  eapply asks_bind; [apply asks_lift|]. intros router [-> _]%requireContract_ok.
  eapply asks_bind; [apply asks_call|]. intros t Ht. eapply asks_bind; [apply asks_lift|]. intros amounts Hr.
  intros d. split; [done|]. intros q [= Hq%of_option_ok]. split; [lia|]. exists amounts. split; [by exists t|done].
Qed.

Lemma quote_in_asks amountOut path :
  asks (quoteXlmForUsdc cf amountOut path) (λ q, 0 < amountOut ∧ ∃ amounts,
    router_answered "router_get_amounts_in" amountOut path amounts ∧ head amounts = Some q).
Proof.
  unfold quoteXlmForUsdc. destruct (amountOut <=? 0) eqn:Ea; [apply asks_throw|]. bools.
  eapply asks_bind; [apply asks_lift|]. intros router [-> _]%requireContract_ok.
  eapply asks_bind; [apply asks_call|]. intros t Ht. eapply asks_bind; [apply asks_lift|]. intros amounts Hr.
  intros d. split; [done|]. intros q [= Hq%of_option_ok]. split; [lia|]. exists amounts. split; [by exists t|done].
Qed.

(** The swaps of a run: at most one, at most [bp] below the router's quote. *)
Definition fair_swap owner path amountIn bp (c : ContractCall) : Prop := ∃ quoted floor now b amounts,
  c = swap_call owner path amountIn floor now ∧ bp = Some b ∧ 0 ≤ b ≤ MAX_SLIPPAGE_BP ∧
  router_answered "router_get_amounts_out" amountIn path amounts ∧ last amounts = Some quoted ∧
  (0 ≤ quoted → 10000 * floor ≤ quoted * (10000 - b) < 10000 * floor + 10000).

Definition fair_purchase owner path amountOut bp (c : ContractCall) : Prop := ∃ quoted ceiling now b amounts,
  c = buy_call owner path amountOut ceiling now ∧ bp = Some b ∧ 0 ≤ b ≤ MAX_SLIPPAGE_BP ∧
  router_answered "router_get_amounts_in" amountOut path amounts ∧ head amounts = Some quoted ∧
  (0 ≤ quoted → 10000 * ceiling - 10000 < quoted * (10000 + b) ≤ 10000 * ceiling).

Definition one_call {A} (P : ContractCall → Prop) (r : result exn A) (L : list signature) : Prop :=
  ∃ calls, L = map s_call calls ∧ Forall P calls ∧ (length calls ≤ 1)%nat ∧ (is_ok r = true → length calls = 1%nat).

Lemma no_call {A} P e : one_call P (Err e : result exn A) [].
Proof. exists []. split_and!; [done|constructor|simpl; lia|done]. Qed.

(** Signing one built call, then steps that sign nothing. *)
Lemma one_call_then {A} (P : ContractCall → Prop) (t : tx) (f : string → M A) :
  P (call_of t) → (∀ h, asks (f h) (λ _, True)) →
  signs (h ← sign_and_submit t; f h) (one_call P).
Proof.
  intros HP Hf. eapply signs_bind; [apply sign_and_submit_signs| |].
  - intros e L [->|[-> _]]; [|apply no_call].
    exists [call_of t]. split_and!; [done|by repeat constructor|simpl; lia|done].
  - intros h L [->|[_ ?]]; [|done]. intros d. destruct (Hf h d) as [Hs _]. exists []. rewrite app_nil_r. split; [done|].
    rewrite app_nil_r. exists [call_of t]. split_and!; [done|by repeat constructor|simpl; lia|done].
Qed.

Lemma swapUsdcTo_signs owner path amountIn bp :
  signs (swapUsdcTo cf owner path amountIn bp) (one_call (fair_swap owner path amountIn bp)).
Proof.
  eapply signs_after; [apply asks_emit|apply no_call|]. intros _ _.
  eapply signs_after; [apply quote_asks|apply no_call|]. intros quoted (Ha & amounts & Hr & Hq).
  eapply signs_after; [apply asks_lift|apply no_call|]. intros floor (b & [-> Hb]%check_slippage_ok & [= <-])%bind_ok.
  eapply signs_after; [apply asks_emit|apply no_call|]. intros _ _.
  eapply signs_after; [apply asks_lift|apply no_call|]. intros router [-> _]%requireContract_ok.
  eapply signs_after; [apply asks_gets|apply no_call|]. intros now _.
  eapply signs_after; [apply asks_call|apply no_call|]. intros t Ht. apply one_call_then.
  - rewrite Ht. eexists quoted, _, now, b, amounts. split_and!; [done|done|lia|lia|done|done|].
    unfold MAX_SLIPPAGE_BP in Hb. intros Hq0. Z.to_euclidean_division_equations. nia.
  - intros h. eapply asks_bind; [apply asks_emit|]. intros _ _.
    eapply asks_bind; [by apply asks_await with (P := λ _, True); [intros w; apply sent_quiet|]|]. intros x _. by apply asks_ret.
Qed.

Lemma buyUsdcWithXlm_signs owner amountOut bp :
  signs (buyUsdcWithXlm cf owner amountOut bp)
    (one_call (fair_purchase owner [cf_xlmToken cf; cf_usdcToken cf] amountOut bp)).
Proof.
  eapply signs_after; [apply asks_lift|apply no_call|]. intros path Hpath.
  assert (path = [cf_xlmToken cf; cf_usdcToken cf]) as ->.
  { unfold xlmToUsdcPath, usdcToXlmPath, usdcToPath in Hpath.
    destruct (requireContract (cf_xlmToken cf) _) as [x|] eqn:Ex; [|done]. apply requireContract_ok in Ex as [-> _].
    unfold mbind, result_bind in Hpath. destruct (usdcId cf) as [u|] eqn:Eu; [|done]. apply requireContract_ok in Eu as [-> _].
    by injection Hpath as <-. }
  eapply signs_after; [apply asks_emit|apply no_call|]. intros _ _.
  eapply signs_after; [apply quote_in_asks|apply no_call|]. intros quoted (Ha & amounts & Hr & Hq).
  eapply signs_after; [apply asks_lift|apply no_call|]. intros ceiling (b & [-> Hb]%check_slippage_ok & [= <-])%bind_ok.
  eapply signs_after; [apply asks_emit|apply no_call|]. intros _ _.
  eapply signs_after; [apply asks_lift|apply no_call|]. intros router [-> _]%requireContract_ok.
  eapply signs_after; [apply asks_gets|apply no_call|]. intros now _.
  eapply signs_after; [apply asks_call|apply no_call|]. intros t Ht. apply one_call_then.
  - rewrite Ht. eexists quoted, _, now, b, amounts. split_and!; [done|done|lia|lia|done|done|].
    unfold MAX_SLIPPAGE_BP in Hb. intros Hq0. Z.to_euclidean_division_equations. nia.
  - intros h. eapply asks_bind; [apply asks_emit|]. intros _ _. by apply asks_ret.
Qed.

Definition own_trust (asset : SwapAsset) (s : signature) : Prop := ∃ a, sa_classic asset = Some a ∧ s = s_trust a.

Lemma load_account_asks address : asks (load_account address : M account_read) (λ _, True).
Proof.
  intros d. unfold load_account. pose proof (account_quiet address (dv_world d)) as Hq.
  by destruct (rc_account address (dv_world d)) as [a w].
Qed.

Lemma add_trustline_signs address asset :
  signs (add_trustline address asset : M ()) (λ r L, Forall (own_trust asset) L ∧ (length L ≤ 1)%nat).
Proof.
  assert (Forall (own_trust asset) [] ∧ (length (@nil signature) ≤ 1)%nat) as H0' by (split; [constructor|simpl; lia]).
  unfold add_trustline. destruct (sa_classic asset) as [classic|] eqn:Ec; [|by apply signs_ret].
  eapply signs_after with (P := λ _, True); [|done|].
  { unfold hasTrustline. case_decide; [by apply asks_ret|]. eapply asks_bind; [apply load_account_asks|]. intros a _.
    by apply asks_ret. }
  intros [] _; [by apply signs_ret|]. eapply signs_after; [apply asks_emit|done|]. intros _ _.
  eapply signs_after; [apply load_account_asks|done|]. intros [bs| |e] _; try by apply signs_throw.
  case_decide; [by apply signs_throw|]. intros d. unfold await, mbind, io_bind.
  pose proof (trust_adds classic (dv_world d)) as Ht. destruct (rc_sign_trust classic (dv_world d)) as [[s|e] w]; simpl in Ht.
  - pose proof (submit_quiet s w) as Hq. exists [s_trust classic]. cbn [dv_world set_world].
    destruct (rc_submit_trust s w) as [r w']. simpl in *. rewrite Hq, Ht. split; [done|]. split; [|simpl; lia].
    repeat constructor. by exists classic.
  - exists []. simpl. rewrite !app_nil_r in *. by split.
Qed.

(** C11: A swap takes the agreed amount and at most the agreed slippage. However
    the calls end, receiving a loan in another asset has the user sign at most
    one trustline, of that asset, and at most one swap: of exactly the amount
    asked, from USDC to that asset on the direct pair, to the user, with a floor
    that is the router's quote less the slippage, rounded down by less than one
    unit, and a deadline. A swap that is reported done was signed; and a
    purchase of USDC for a repayment has the user sign at most one call, for
    exactly the amount and at most the quote plus the slippage. *)
Theorem swaps_keep_the_terms owner asset amountIn bp amountOut bp' (d d2 : device W) :
  (let '(r, d') := toAsset cf owner asset amountIn bp d in
   ∃ trusts swaps, signed (dv_world d') = signed (dv_world d) ++ trusts ++ map s_call swaps ∧
     Forall (own_trust asset) trusts ∧
     Forall (fair_swap owner [cf_usdcToken cf; sa_token asset] amountIn bp) swaps ∧
     (length trusts ≤ 1 ∧ length swaps ≤ 1)%nat ∧ (∀ res, r = Ok (Some res) → length swaps = 1%nat)) ∧
  (let '(r, d') := buyUsdcWithXlm cf owner amountOut bp' d2 in
   ∃ buys, signed (dv_world d') = signed (dv_world d2) ++ map s_call buys ∧
     Forall (fair_purchase owner [cf_xlmToken cf; cf_usdcToken cf] amountOut bp') buys ∧ (length buys ≤ 1)%nat ∧
     (is_ok r = true → length buys = 1%nat)).
Proof.
  split.
  - assert (signs (toAsset cf owner asset amountIn bp) (λ r L, ∃ r' : result exn SwapResult,
      (∃ trusts L2, L = trusts ++ L2 ∧ Forall (own_trust asset) trusts ∧ (length trusts ≤ 1)%nat ∧
         one_call (fair_swap owner [cf_usdcToken cf; sa_token asset] amountIn bp) r' L2) ∧
      ∀ x, r = Ok (Some x) → r' = Ok x)) as Hs.
    { eapply signs_after; [apply asks_emit| |].
      - intros e. exists (Err (error "")). split; [|done]. exists [], []. split_and!; [done|constructor|simpl; lia|apply no_call].
      - intros _ _. apply reporting_signs. eapply signs_bind; [apply add_trustline_signs| |].
        + intros e L [HL Hl]. exists L, []. rewrite app_nil_r. split_and!; [done|done|done|apply no_call].
        + intros [] L [HL Hl]. eapply signs_weaken with (Q1 := one_call _).
          * eapply signs_after; [apply asks_lift|apply no_call|]. intros path Hpath.
            assert (path = [cf_usdcToken cf; sa_token asset]) as ->; [|apply swapUsdcTo_signs].
            unfold usdcToPath in Hpath. destruct (usdcId cf) as [u|] eqn:Eu; [|done].
            apply requireContract_ok in Eu as [-> _]. by injection Hpath as <-.
          * intros r L2 HL2. by exists L, L2. }
    specialize (Hs d). destruct (toAsset cf owner asset amountIn bp d) as [r d'].
    destruct Hs as (L & HL & r' & (trusts & L2 & -> & Htr & Hlt & (swaps & -> & Hsw & Hls & Hok)) & Hrr). simpl in *.
    exists trusts, swaps. split_and!; [done..|]. intros res ->. apply Hok. by rewrite (Hrr res eq_refl).
  - pose proof (buyUsdcWithXlm_signs owner amountOut bp' d2) as Hs.
    destruct (buyUsdcWithXlm cf owner amountOut bp' d2) as [r d']. destruct Hs as (L & HL & buys & -> & Hb & Hl & Hok).
    simpl in *. by exists buys.
Qed.
End swaps.

(** ** One transfer and one swap *)

Module Demo.
#[local] Instance submit : SubmitEnv (list signature) ContractCall := {|
  d_sleep _ w := (Ok (), w);
  d_getTxStatus _ w := (Ok SUCCESS, w);
  sign_tx c w := (Ok "h", w ++ [s_call c]);
  send_tx _ w := (sent_ok None, w);
|}.

#[local] Instance env : ReceiveEnv (list signature) ContractCall := {|
  rc_build c w := (Ok c, w);
  rc_int _ := Ok 0;
  rc_ints _ := Ok [20; 1000];
  rc_sent_ints _ w := (Ok (Some [20; 997]), w);
  rc_latestLedger w := (Ok 500, w);
  rc_fetch _ w := (Ok (200, Some (j_array [j_object [("finalityThreshold", j_number 2000); ("minimumFee", j_decimal "1.3")]])), w);
  rc_now _ := 1700000000500;
  rc_account _ w := (account_lines [], w);
  rc_sign_trust a w := (Ok "t", w ++ [s_trust a]);
  rc_submit_trust _ w := (Ok (), w);
|}.

#[local] Instance laws : ReceiveLaws (list signature) ContractCall.
Proof.
  refine {| signed w := w; call_of c := c |}; try done.
  by intros c w t w' [= -> _].
Defined.

Definition cf : ReceiveConfig := {|
  cf_usdcToken := "USDC"; cf_tokenMessengerMinter := "TMM"; cf_irisUrl := "iris"; cf_destinationDomain := 6;
  cf_explorerUrl := ""; cf_soroswapRouter := "ROUTER"; cf_xlmToken := "XLM"; cf_swapOffer := ["xlm"]; cf_swapAssets := None |}.

Definition keccak (bs : list byte) : list byte := replicate 32 xff.

Definition typed : string := " 0x8fe6b999dc680ccfdd5bf7eb0974218be2542daa ".
Definition address : string := trim typed.

(** The message of a burn, from its arguments. *)
Definition circle (c : ContractCall) : raw_burn :=
  let '(domain, recipient, caller, amount) :=
    match cc_args c with
    | [_; sc_i128 a; sc_u32 d; sc_bytes r; _; sc_bytes k; _; _] => (d, r, k, a)
    | _ => (0, [], [], 0)
    end in {|
  r_version := 1; r_source := 27; r_destination := domain;
  r_nonce := replicate 32 x07; r_sender := replicate 32 x01;
  r_recipient := TOKEN_MESSENGER_BYTES; r_caller := caller;
  r_minFinality := 2000; r_finalityExecuted := 2000;
  r_bodyVersion := 1; r_burnToken := replicate 32 x02; r_mintRecipient := recipient;
  r_amount := amount / 10;
  r_messageSender := replicate 32 x03; r_maxFee := 0; r_feeExecuted := 0; r_expiration := 0; r_hook := [] |}.

#[local] Instance circle_laws : CircleLaws circle.
Proof.
  split. intros tmm owner usdc domain recipient caller amount fee finality Hl Hc Ha Hd. simpl. split_and!; try done.
  unfold wf_burn, is_u32, is_u256, is_b32, zlen in *. simpl.
  assert (2 ^ 127 < 256 ^ 32) as Hp by done. split_and!; try done; Z.to_euclidean_division_equations; lia.
Qed.

Definition start : device (list signature) := mkDevice [] ∅ ∅ ∅ ∅ [] [].

Lemma transfers_are_relayed_witness :
  parseEvmAddress keccak typed = evm_ok address ∧
  ∃ approvals burns, signed (dv_world (toChain cf "GA" 50000009 address start).2) = approvals ++ map s_call burns ∧
    length burns = 1%nat ∧
    ∀ c, c ∈ burns → is_ok (assertRelayable (hex0x (encode_burn (circle c)))) = true.
Proof.
  assert (parseEvmAddress keccak typed = evm_ok address) as Hp by (vm_compute; reflexivity).
  split; [exact Hp|].
  pose proof (transfers_are_relayed cf keccak circle typed address "GA" 50000009 start eq_refl Hp ltac:(lia)) as Ht.
  assert (∃ res, (toChain cf "GA" 50000009 address start).1 = Ok (Some res)) as [res Hr].
  { exists {| sr_approveHash := Some "h"; sr_burnHash := "h"; sr_amount := 50000000; sr_maxFee := 10000 |}.
    vm_compute. reflexivity. }
  destruct (toChain cf "GA" 50000009 address start) as [r d']. cbn [fst] in Hr. subst r.
  destruct Ht as (approvals & burns & HL & _ & _ & Hd & Hc). exists approvals, burns.
  split; [exact HL|]. split; [apply (Hd res eq_refl)|].
  intros c Hin. destruct (Hc c Hin) as (_ & _ & _ & ->). reflexivity.
Defined.

Lemma swaps_keep_the_terms_witness :
  ∃ swaps, signed (dv_world (toAsset cf "GA" {| sa_id := xlm; sa_label := "XLM"; sa_network := ""; sa_token := "XLM";
      sa_classic := None; sa_usd := false |} 20 (Some 50) start).2) = map s_call swaps ∧ length swaps = 1%nat ∧
    Forall (fair_swap cf "GA" ["USDC"; "XLM"] 20 (Some 50)) swaps.
Proof.
  set (a := {| sa_id := xlm; sa_label := "XLM"; sa_network := ""; sa_token := "XLM"; sa_classic := None; sa_usd := false |}).
  destruct (swaps_keep_the_terms cf "GA" a 20 (Some 50) 10 (Some 50) start start) as [Hs _].
  destruct (toAsset cf "GA" a 20 (Some 50) start) as [r d'] eqn:E.
  assert (is_ok r = true ∧ r ≠ Ok None) as [Hok Hn].
  { replace r with (toAsset cf "GA" a 20 (Some 50) start).1 by (rewrite E; reflexivity).
    split; [vm_compute; reflexivity|vm_compute; discriminate]. }
  destruct Hs as (trusts & swaps & HL & Htr & Hf & _ & Hd). exists swaps.
  assert (trusts = []) as ->.
  { destruct trusts as [|s trusts]; [reflexivity|]. apply Forall_cons in Htr as [(x & Hx & _) _]. discriminate Hx. }
  split; [exact HL|]. split; [|exact Hf]. destruct r as [[res|]|e]; [apply (Hd res eq_refl)|congruence|discriminate Hok].
Defined.
End Demo.
