(* ===== verification/LoanStatus.v ===== *)
(** * The status of a loan ([frontend/app/src/lib/status/derive.ts])

    A loan's status is a pure function of what the device remembers, what it
    could read from the chains and what the relayer reports. A read that has
    not come back is [None]. *)

From S2P Require Import Prelude JsData LendRates AppStore.

(** ** What is known ([status/types.ts]) *)

Inductive BtcTxView : Type := tx_not_seen | tx_seen (blockHeight : option Z).
Inductive Outspend : Type := unspent | spent_by (txid : string) (confirmed : bool).

Record LocalInputs : Type := {
  li_position : option Position;
  li_pendingDeposit : option PendingDeposit;
}.

(** [cr_position]: read, and then found or not. *)
Record ChainReads : Type := {
  cr_position : option (option ChainPosition);
  cr_releasePsbtReady : option bool;
  cr_oraclePriceStroops : option Z;
  cr_btcTipHeight : option Z;
  cr_depositTx : option BtcTxView;
  cr_lockOutspend : option Outspend;
}.

Inductive LiquidationLookup : Type := lookup_found (txHash : string) | lookup_missing (complete : bool).

Record RelayerIndex : Type := {
  ri_minConfirmations : option Z;
  ri_confirmations : option Z;
  ri_liquidation : option LiquidationLookup;
}.

Record StatusParams : Type := { sp_minConfirmations : Z; sp_now : Z }.

Record StatusInputs : Type := {
  si_local : LocalInputs;
  si_chain : ChainReads;
  si_relayer : option RelayerIndex;
  si_params : StatusParams;
}.

Inductive StatusInput : Type :=
| in_position | in_release_psbt | in_oracle_price | in_btc_tip | in_deposit_tx | in_outspend | in_liquidation
| in_local_tx.

Inductive HealthBand : Type := band_healthy | band_below_limit.

Inductive LoanStatus : Type :=
| st_checking (missing : list StatusInput)
| st_btc_sent
| st_btc_unseen
| st_confirming (n m : Z) (relayerBehind : bool)
| st_ready_to_register
| st_registering
| st_active (ratioBp : Z) (band : HealthBand)
| st_at_risk (ratioBp : Z)
| st_liquidatable (ratioBp : Z)
| st_repaid_locked (neverBorrowed missingBtcDetails : bool)
| st_releasing (btcTxid : string)
| st_released (btcTxid : string)
| st_liquidated (txHash : option string).

#[global] Instance HealthBand_eq_dec : EqDecision HealthBand.
Proof. solve_decision. Defined.
#[global] Instance StatusInput_eq_dec : EqDecision StatusInput.
Proof. solve_decision. Defined.
#[global] Instance LoanStatus_eq_dec : EqDecision LoanStatus.
Proof. solve_decision. Defined.

Record Timelock : Type := { tl_height : Z; tl_blocksLeft : option Z }.

Record DerivedStatus : Type := {
  ds_status : LoanStatus;
  ds_reclaimable : bool;
  ds_timelock : option Timelock;
  ds_syncing : bool;
  (** collateral and debt *)
  ds_onChain : option (Z * Z);
}.

(** ** The derivation *)

Definition BORROW_LIMIT_BP : Z := 15000.
Definition AT_RISK_BP : Z := 13000.
Definition LIQUIDATION_BP : Z := 12000.
Definition BTC_UNSEEN_AFTER_MS : Z := 10 * 60000.
Definition SAT : Z := 100000000.

Definition checking (missing : StatusInput) : LoanStatus := st_checking [missing].

Definition collateralRatioBp (collateralSats_ debtStroops_ priceStroopsPerBtc : Z) : option Z :=
  if debtStroops_ <=? 0 then None
  else Some ((collateralSats_ * priceStroopsPerBtc * 10000) ÷ SAT ÷ debtStroops_).

Definition healthStatus (ratioBp : Z) : LoanStatus :=
  if ratioBp <? LIQUIDATION_BP then st_liquidatable ratioBp
  else if ratioBp <? AT_RISK_BP then st_at_risk ratioBp
  else st_active ratioBp (if BORROW_LIMIT_BP <=? ratioBp then band_healthy else band_below_limit).

(** A height that is set and not 0, as the code tests it. *)
Definition nonzero (o : option Z) : option Z :=
  match o with Some 0 => None | _ => o end.

Definition hasBtcDetails (p : Position) : bool :=
  negb (bool_decide (txid p = "")) && bool_decide (vout p ≠ None) && truthy (btcPubkey p)
  && bool_decide (nonzero (timelockHeight p) ≠ None).

Definition or_ {A} (a b : option A) : option A := match a with Some _ => a | None => b end.

(** [depositStatus] from the confirmations on. *)
Definition confirmationStatus (inputs : StatusInputs) (pd : PendingDeposit) : LoanStatus :=
  let chain := si_chain inputs in
  let params := si_params inputs in
  let m := default (sp_minConfirmations params) (si_relayer inputs ≫= ri_minConfirmations) in
  let tx := cr_depositTx chain in
  match tx with
  | Some tx_not_seen =>
      if BTC_UNSEEN_AFTER_MS <=? sp_now params - pd_createdAt pd then st_btc_unseen else st_btc_sent
  | _ =>
      let esploraN :=
        match tx with
        | Some (tx_seen None) => Some 0
        | Some (tx_seen (Some h)) => (λ tip, Z.max 0 (tip - h + 1)) <$> cr_btcTipHeight chain
        | _ => None
        end in
      let relayerN := si_relayer inputs ≫= ri_confirmations in
      match or_ esploraN relayerN with
      | None => checking (match tx with None => in_deposit_tx | Some _ => in_btc_tip end)
      | Some n =>
          if n =? 0 then st_btc_sent
          else
            let behind := match relayerN, esploraN with
                          | Some r, Some e => (r <? m) && (m <=? e)
                          | _, _ => false end in
            if behind then st_confirming n m true
            else if n <? m then st_confirming n m false
            else match cr_position chain with None => checking in_position | Some _ => st_ready_to_register end
      end
  end.

Definition depositStatus (inputs : StatusInputs) (pd : PendingDeposit) : LoanStatus :=
  let submitted := truthy (pd_stellarTxHash pd) || match pd_step pd with step_submitted => true | _ => false end in
  match cr_position (si_chain inputs) with
  | Some (Some _) => st_registering
  | position =>
      if submitted then match position with None => checking in_position | Some _ => st_registering end
      else confirmationStatus inputs pd
  end.

Definition releaseFromOutspend (inputs : StatusInputs) : option LoanStatus :=
  match cr_lockOutspend (si_chain inputs) with
  | Some (spent_by txid confirmed) => Some (if confirmed then st_released txid else st_releasing txid)
  | _ => None
  end.

(** The local release transaction is the one that spent the lock. *)
Definition released_by_us (inputs : StatusInputs) (p : Position) : bool :=
  match cr_lockOutspend (si_chain inputs), present (releaseTxid p) with
  | Some (spent_by txid _), Some r => bool_decide (txid = r)
  | _, _ => false
  end.

Definition openStatus (inputs : StatusInputs) (p : Position) : LoanStatus :=
  let chain := si_chain inputs in
  let outspend := cr_lockOutspend chain in
  match released_by_us inputs p, releaseFromOutspend inputs with
  | true, Some released => released
  | _, releasedNow =>
      match cr_position chain with
      | None | Some None => checking in_position
      | Some (Some c) =>
          if bool_decide (cp_status c = liquidated) then
            st_liquidated (match si_relayer inputs ≫= ri_liquidation with
                           | Some (lookup_found h) => Some h | _ => None end)
          else
            match releasedNow, present (releaseTxid p) with
            | Some released, _ => released
            | None, Some r =>
                match outspend with None => checking in_outspend | Some _ => st_releasing r end
            | None, None =>
                if bool_decide (cp_status c = closed) || (cp_debtStroops c =? 0) then
                  let missingBtcDetails := negb (hasBtcDetails p) in
                  if negb missingBtcDetails && bool_decide (outspend = None) then checking in_outspend
                  else st_repaid_locked (bool_decide (cp_status c = active)) missingBtcDetails
                else
                  match cr_oraclePriceStroops chain with
                  | None => checking in_oracle_price
                  | Some price =>
                      healthStatus (default 0 (collateralRatioBp (cp_collateralSats c) (cp_debtStroops c) price))
                  end
            end
      end
  end.

Definition coreStatus (inputs : StatusInputs) : LoanStatus :=
  match li_position (si_local inputs), li_pendingDeposit (si_local inputs) with
  | Some p, _ => openStatus inputs p
  | None, Some pd => depositStatus inputs pd
  | None, None => checking in_position
  end.

(** [RECLAIM_OVERLAY.has(status.kind)] *)
Definition reclaim_overlay (s : LoanStatus) : bool :=
  match s with st_active _ _ | st_at_risk _ | st_repaid_locked _ _ => true | _ => false end.

Definition timelockOf (inputs : StatusInputs) : option Timelock :=
  let local := si_local inputs in
  let height := or_ (li_position local ≫= timelockHeight) (pd_timelockHeight <$> li_pendingDeposit local) in
  height ← nonzero height;
  Some {| tl_height := height; tl_blocksLeft := (λ tip, Z.max 0 (height - tip)) <$> cr_btcTipHeight (si_chain inputs) |}.

Definition derivePositionStatus (inputs : StatusInputs) : DerivedStatus :=
  let status := coreStatus inputs in
  let timelock := timelockOf inputs in
  let chain := si_chain inputs in
  let c := default None (cr_position chain) in
  {| ds_status := status;
     ds_reclaimable := reclaim_overlay status && bool_decide ((timelock ≫= tl_blocksLeft) = Some 0)
                       && match cr_lockOutspend chain with Some unspent => true | _ => false end;
     ds_timelock := timelock;
     ds_syncing := match status with st_repaid_locked _ _ => true | _ => false end
                   && bool_decide ((cp_status <$> c) = Some closed)
                   && bool_decide (cr_releasePsbtReady chain = Some false);
     ds_onChain := match c, li_position (si_local inputs) with
                   | Some c, Some _ => Some (cp_collateralSats c, cp_debtStroops c)
                   | _, _ => None
                   end |}.

(** ** What a status says

    The facts each status stands for, in terms of what was read: the status is
    a claim to the user, and [says] is its meaning. *)

Section meaning.
Context (inputs : StatusInputs).
Let chain := si_chain inputs.
Let local := si_local inputs.

(** The contract's position, read and found. *)
Definition found (c : ChainPosition) : Prop := cr_position chain = Some (Some c).

Definition lock_not_spent : Prop := ∀ t confirmed, cr_lockOutspend chain ≠ Some (spent_by t confirmed).

(** A live loan with this ratio at the oracle's price. *)
Definition live_loan (ratio : Z) : Prop :=
  ∃ c price, found c ∧ cp_status c = active ∧ cp_debtStroops c ≠ 0 ∧ lock_not_spent ∧
    cr_oraclePriceStroops chain = Some price ∧
    ratio = default 0 (collateralRatioBp (cp_collateralSats c) (cp_debtStroops c) price).

Definition required_confirmations : Z :=
  default (sp_minConfirmations (si_params inputs)) (si_relayer inputs ≫= ri_minConfirmations).

(** The deposit has [n] confirmations, as Esplora or else the relayer counts them. *)
Definition confirmed_times (n : Z) : Prop :=
  match cr_depositTx chain with
  | Some tx_not_seen => False
  | Some (tx_seen None) => n = 0
  | Some (tx_seen (Some h)) =>
      match cr_btcTipHeight chain with
      | Some tip => n = Z.max 0 (tip - h + 1)
      | None => (si_relayer inputs ≫= ri_confirmations) = Some n
      end
  | None => (si_relayer inputs ≫= ri_confirmations) = Some n
  end.

Definition unread (x : StatusInput) : Prop :=
  match x with
  | in_position => cr_position chain = None ∨ cr_position chain = Some None ∨
                   (li_position local = None ∧ li_pendingDeposit local = None)
  | in_oracle_price => cr_oraclePriceStroops chain = None
  | in_outspend => cr_lockOutspend chain = None
  | in_deposit_tx => cr_depositTx chain = None
  | in_btc_tip => cr_btcTipHeight chain = None ∧ ∃ h, cr_depositTx chain = Some (tx_seen (Some h))
  | _ => False
  end.

Definition says (s : LoanStatus) : Prop :=
  match s with
  | st_checking missing => ∃ x, missing = [x] ∧ unread x
  | st_active r band =>
      live_loan r ∧ AT_RISK_BP ≤ r ∧ (band = band_healthy ↔ BORROW_LIMIT_BP ≤ r)
  | st_at_risk r => live_loan r ∧ LIQUIDATION_BP ≤ r < AT_RISK_BP
  | st_liquidatable r => live_loan r ∧ r < LIQUIDATION_BP
  | st_repaid_locked neverBorrowed missingBtcDetails =>
      ∃ c, found c ∧ cp_status c ≠ liquidated ∧ (neverBorrowed = false → cp_status c = closed) ∧
        (neverBorrowed = true → cp_status c = active ∧ cp_debtStroops c = 0) ∧ lock_not_spent ∧
        (missingBtcDetails = false → cr_lockOutspend chain = Some unspent)
  | st_released t => cr_lockOutspend chain = Some (spent_by t true)
  | st_releasing t =>
      cr_lockOutspend chain = Some (spent_by t false) ∨
      (cr_lockOutspend chain = Some unspent ∧ (li_position local ≫= λ p, present (releaseTxid p)) = Some t)
  | st_liquidated h =>
      (∃ c, found c ∧ cp_status c = liquidated) ∧
      (∀ t, h = Some t → (si_relayer inputs ≫= ri_liquidation) = Some (lookup_found t))
  | st_registering =>
      (∃ c, found c) ∨
      ∃ pd, li_pendingDeposit local = Some pd ∧ cr_position chain = Some None ∧
        (truthy (pd_stellarTxHash pd) = true ∨ pd_step pd = step_submitted)
  | st_ready_to_register =>
      cr_position chain = Some None ∧ ∃ n, confirmed_times n ∧ required_confirmations ≤ n
  | st_confirming n m _ => confirmed_times n ∧ n ≠ 0 ∧ m = required_confirmations
  | st_btc_sent => cr_depositTx chain = Some tx_not_seen ∨ confirmed_times 0
  | st_btc_unseen =>
      cr_depositTx chain = Some tx_not_seen ∧
      ∃ pd, li_pendingDeposit local = Some pd ∧ BTC_UNSEEN_AFTER_MS ≤ sp_now (si_params inputs) - pd_createdAt pd
  end.
End meaning.

(** ** Theorems *)

Lemma says_health inputs r : live_loan inputs r → says inputs (healthStatus r).
Proof.
  intros Hl. unfold healthStatus.
  destruct (r <? LIQUIDATION_BP) eqn:E1; bools; [done|]. destruct (r <? AT_RISK_BP) eqn:E2; bools; [done|].
  simpl. split_and!; [done..|].
  destruct (BORROW_LIMIT_BP <=? r) eqn:E3; bools; split; intros; done || lia.
Qed.

Lemma releaseFromOutspend_spec inputs :
  match releaseFromOutspend inputs with
  | Some s => says inputs s
  | None => lock_not_spent inputs
  end.
Proof.
  unfold releaseFromOutspend, lock_not_spent.
  destruct (cr_lockOutspend (si_chain inputs)) as [[|t []]|] eqn:E; simpl; auto; done.
Qed.

(** A loan found on the contract, not liquidated, its lock not known to be spent
    and no release of this device. *)
Lemma says_kept inputs p c :
  found inputs c → cp_status c ≠ liquidated → lock_not_spent inputs →
  says inputs
    (if bool_decide (cp_status c = closed) || (cp_debtStroops c =? 0)
     then if negb (negb (hasBtcDetails p)) && bool_decide (cr_lockOutspend (si_chain inputs) = None)
          then checking in_outspend
          else st_repaid_locked (bool_decide (cp_status c = active)) (negb (hasBtcDetails p))
     else match cr_oraclePriceStroops (si_chain inputs) with
          | None => checking in_oracle_price
          | Some price => healthStatus (default 0 (collateralRatioBp (cp_collateralSats c) (cp_debtStroops c) price))
          end).
Proof.
  intros Hc Hliq Hlock. destruct (bool_decide (cp_status c = closed) || (cp_debtStroops c =? 0)) eqn:E.
  - destruct (negb (negb (hasBtcDetails p)) && bool_decide (cr_lockOutspend (si_chain inputs) = None)) eqn:E2.
    + bools. by exists in_outspend.
    + exists c. split_and!; try done.
      * intros Hs. bools. by destruct (cp_status c).
      * intros Hs. bools. split; [done|]. rewrite Hs in E. simpl in E. by bools.
      * intros Hm. rewrite Hm in E2. simpl in E2. bools. specialize (Hlock).
        destruct (cr_lockOutspend (si_chain inputs)) as [[|t b]|] eqn:El; [done| |done]. by destruct (Hlock t b).
  - apply orb_false_iff in E as [E1 E2]. bools.
    destruct (cr_oraclePriceStroops (si_chain inputs)) as [price|] eqn:Ep; [|by exists in_oracle_price].
    apply says_health. exists c, price. split_and!; try done. by destruct (cp_status c).
Qed.

Lemma says_open inputs p :
  li_position (si_local inputs) = Some p → says inputs (openStatus inputs p).
Proof.
  intros Hp. unfold openStatus. pose proof (releaseFromOutspend_spec inputs) as Hr.
  assert (says inputs
    match cr_position (si_chain inputs) with
    | None | Some None => checking in_position
    | Some (Some c) =>
        if bool_decide (cp_status c = liquidated) then
          st_liquidated (match si_relayer inputs ≫= ri_liquidation with
                         | Some (lookup_found h) => Some h | _ => None end)
        else
          match releaseFromOutspend inputs, present (releaseTxid p) with
          | Some released, _ => released
          | None, Some r =>
              match cr_lockOutspend (si_chain inputs) with None => checking in_outspend | Some _ => st_releasing r end
          | None, None =>
              if bool_decide (cp_status c = closed) || (cp_debtStroops c =? 0)
              then if negb (negb (hasBtcDetails p)) && bool_decide (cr_lockOutspend (si_chain inputs) = None)
                   then checking in_outspend
                   else st_repaid_locked (bool_decide (cp_status c = active)) (negb (hasBtcDetails p))
              else match cr_oraclePriceStroops (si_chain inputs) with
                   | None => checking in_oracle_price
                   | Some price =>
                       healthStatus (default 0 (collateralRatioBp (cp_collateralSats c) (cp_debtStroops c) price))
                   end
          end
    end) as Hs.
  { destruct (cr_position (si_chain inputs)) as [[c|]|] eqn:Ec; [|exists in_position; simpl; auto..].
    case_bool_decide as Hliq.
    - simpl. split; [by exists c|]. intros t Ht. repeat (case_match; simplify_eq); naive_solver.
    - destruct (releaseFromOutspend inputs) as [r|]; [done|].
      destruct (present (releaseTxid p)) as [t|] eqn:Et; [|by apply says_kept].
      destruct (cr_lockOutspend (si_chain inputs)) as [[|t' b]|] eqn:El.
      + right. split; [done|]. rewrite Hp. exact Et.
      + by destruct (Hr t' b).
      + by exists in_outspend. }
  destruct (released_by_us inputs p), (releaseFromOutspend inputs) as [r|]; done.
Qed.

(** Once the confirmations are known. *)
Lemma says_confirmations inputs n (behind : bool) :
  (cr_position (si_chain inputs) = None ∨ cr_position (si_chain inputs) = Some None) → confirmed_times inputs n →
  says inputs
    (if n =? 0 then st_btc_sent
     else if behind then st_confirming n (required_confirmations inputs) true
     else if n <? required_confirmations inputs then st_confirming n (required_confirmations inputs) false
     else match cr_position (si_chain inputs) with None => checking in_position | Some _ => st_ready_to_register end).
Proof.
  intros Hpos Hn. destruct (n =? 0) eqn:E0; bools; [subst n; by right|].
  destruct behind; [done|]. destruct (n <? required_confirmations inputs) eqn:E; bools; [done|].
  destruct Hpos as [Hpos|Hpos]; rewrite Hpos; [exists in_position; simpl; auto|]. simpl. eauto.
Qed.

Lemma says_waiting inputs pd :
  li_pendingDeposit (si_local inputs) = Some pd →
  cr_position (si_chain inputs) = None ∨ cr_position (si_chain inputs) = Some None →
  says inputs (confirmationStatus inputs pd).
Proof.
  intros Hpd Hpos. unfold confirmationStatus.
  pose proof (says_confirmations inputs) as Hconf. unfold confirmed_times in Hconf.
  destruct (cr_depositTx (si_chain inputs)) as [[|[h|]]|] eqn:Etx.
  - destruct (BTC_UNSEEN_AFTER_MS <=? _) eqn:Eold; bools; [|by left]. split; [done|]. by exists pd.
  - destruct (cr_btcTipHeight (si_chain inputs)) as [tip|] eqn:Et; simpl.
    + by apply Hconf.
    + destruct (si_relayer inputs ≫= ri_confirmations) as [n|] eqn:En; simpl; [by apply (Hconf n false)|].
      exists in_btc_tip. simpl. eauto.
  - by apply (Hconf 0 false).
  - destruct (si_relayer inputs ≫= ri_confirmations) as [n|] eqn:En; simpl; [by apply (Hconf n false)|by exists in_deposit_tx].
Qed.

Lemma says_deposit inputs pd :
  li_pendingDeposit (si_local inputs) = Some pd → says inputs (depositStatus inputs pd).
Proof.
  intros Hpd. pose proof (says_waiting inputs pd Hpd) as Hw. unfold depositStatus.
  destruct (truthy (pd_stellarTxHash pd) || match pd_step pd with step_submitted => true | _ => false end) eqn:Esub;
    destruct (cr_position (si_chain inputs)) as [[c|]|] eqn:Ec; try (left; by exists c); auto.
  - right. exists pd. split_and!; [done|done|]. apply orb_true_iff in Esub as [?|?]; auto. right. by destruct (pd_step pd).
  - exists in_position. simpl. auto.
Qed.

Lemma status_says inputs : says inputs (ds_status (derivePositionStatus inputs)).
Proof.
  simpl. unfold coreStatus. destruct (li_position (si_local inputs)) as [p|] eqn:Ep; [by apply says_open|].
  destruct (li_pendingDeposit (si_local inputs)) as [pd|] eqn:Epd; [by apply says_deposit|].
  exists in_position. simpl. auto.
Qed.

(** Every status the app shows is one its reads establish, and it says
    "checking" only of something it could not read; the reclaim overlay needs
    the timelock reached and the lock read as unspent, and "syncing" a closed
    loan whose release is known to be missing. *)
Theorem status_is_what_was_read inputs :
  let d := derivePositionStatus inputs in
  says inputs (ds_status d) ∧
  (ds_reclaimable d = true →
    cr_lockOutspend (si_chain inputs) = Some unspent ∧
    ∃ t tip, ds_timelock d = Some t ∧ cr_btcTipHeight (si_chain inputs) = Some tip ∧ tl_height t ≤ tip) ∧
  (ds_syncing d = true →
    cr_releasePsbtReady (si_chain inputs) = Some false ∧ ∃ c, found inputs c ∧ cp_status c = closed).
Proof.
  simpl. split_and!.
  - apply status_says.
  - intros H. bools. destruct (cr_lockOutspend (si_chain inputs)) as [[]|]; try done. split; [done|].
    unfold timelockOf in *. destruct (nonzero _) as [h|]; [|done]. simpl in *.
    destruct (cr_btcTipHeight (si_chain inputs)) as [tip|]; simpl in *; simplify_eq.
    eexists _, tip. split_and!; [done..|]. simpl. lia.
  - intros H. bools. split; [done|]. destruct (cr_position (si_chain inputs)) as [[c|]|] eqn:Ec; try done.
    exists c. split; [done|]. by simplify_eq/=.
Qed.

(** Once the loan is read from the contract, its status is "checking" only for
    the spending of its output or for the price, where they matter. *)
Lemma open_settles inputs p c missing :
  found inputs c →
  (cr_lockOutspend (si_chain inputs) = None → present (releaseTxid p) = None ∧ hasBtcDetails p = false) →
  (cp_status c = active → cp_debtStroops c ≠ 0 → is_Some (cr_oraclePriceStroops (si_chain inputs))) →
  openStatus inputs p ≠ st_checking missing.
Proof.
  unfold found, openStatus. intros Hc Hspent Hprice. rewrite Hc.
  assert (∀ s, releaseFromOutspend inputs = Some s → s ≠ st_checking missing) as Hr.
  { unfold releaseFromOutspend. intros s. by repeat case_match; intros; simplify_eq. }
  assert (∀ r, healthStatus r ≠ st_checking missing) as Hh by (intros r; unfold healthStatus; by repeat case_match).
  destruct (released_by_us inputs p), (releaseFromOutspend inputs) as [s|] eqn:Es; auto;
    (case_bool_decide as Hl; [done|]); auto;
    (destruct (present (releaseTxid p)) as [t|] eqn:Et;
      [destruct (cr_lockOutspend (si_chain inputs)); [done|by destruct (Hspent eq_refl)]|]);
    (destruct (bool_decide (cp_status c = closed) || (cp_debtStroops c =? 0)) eqn:E;
      [destruct (cr_lockOutspend (si_chain inputs));
         [by rewrite andb_false_r|destruct (Hspent eq_refl) as [_ ->]; done]|]);
    bools; (destruct Hprice as [price ->]; [by destruct (cp_status c)|done|apply Hh]).
Qed.

(** With every read back, it is not "checking" at all. *)
Lemma status_settles inputs p c o price :
  li_position (si_local inputs) = Some p → found inputs c →
  cr_lockOutspend (si_chain inputs) = Some o → cr_oraclePriceStroops (si_chain inputs) = Some price →
  ∀ missing, ds_status (derivePositionStatus inputs) ≠ st_checking missing.
Proof.
  intros Hp Hc Ho Hpr missing. unfold derivePositionStatus, coreStatus. simpl. rewrite Hp.
  apply (open_settles inputs p c); [done|by rewrite Ho|by rewrite Hpr].
Qed.
