(* ===== verification/AppEsplora.v ===== *)
(** * The app's Esplora requests ([frontend/app/src/lib/bitcoin/esplora.ts])

    [createEsploraFetch] as a step relation: calls arrive, providers answer and
    attempts move on to the next provider, in any order. Requests share what is
    under way for their path, and the tip for a while. *)

From S2P Require Import Prelude JsData CctpNet.

(** What a provider gives: an exception, or a response. *)
Inductive outcome : Type := threw (message : string) | responded (status : Z) (body : string).

#[global] Instance outcome_eq_dec : EqDecision outcome.
Proof. solve_decision. Defined.

Definition TIP_PATH : string := "/blocks/tip/height".

Definition retryable (status : Z) : bool := (status =? 429) || (500 <=? status).

(** [opts.providers], without empty ones and repetitions. *)
Definition providers_of (urls : list string) : list string :=
  fold_left (λ acc u, if bool_decide (u = "") || bool_decide (u ∈ acc) then acc else acc ++ [u]) urls [].

(** An [attempt]: its path, whether the caller can abort it, who
    shares it, the turn [i] of its loop and the provider it waits for, and then what it settled with. *)
Inductive sharing : Type := alone | by_path | tip_read.

#[global] Instance sharing_eq_dec : EqDecision sharing.
Proof. solve_decision. Defined.

Inductive stage : Type :=
| asking (i : nat) (idx : nat)
| settled (r : outcome).

Record job : Type := {
  jb_path : string;
  jb_signal : bool;
  jb_sharing : sharing;
  jb_startedAt : Z;
  jb_stage : stage;
  (** the providers asked so far, which no code reads *)
  jb_asked : list nat;
}.

Record EsploraState : Type := {
  healthy : nat;
  inFlight : gmap string nat;
  tip : option (Z * nat);
  jobs : list job;
  (** the calls made and when, each with the attempt whose response it gets *)
  calls : list (string * Z * nat);
}.

Definition start : EsploraState := {| healthy := 0; inFlight := ∅; tip := None; jobs := []; calls := [] |}.

Section fetch.
(** The number of providers, and [tipTtlMs]. *)
Context (n : nat) (tipTtlMs : Z).

Definition running (j : job) : bool := match jb_stage j with asking _ _ => true | settled _ => false end.

(** [attempt(path, init)] up to its first request. *)
Definition attempt (path : string) (signal : bool) (sharing_ : sharing) (now : Z) (s : EsploraState) : job :=
  let idx := ((healthy s + 0) mod n)%nat in
  {| jb_path := path; jb_signal := signal; jb_sharing := sharing_; jb_startedAt := now; jb_stage := asking 0 idx;
     jb_asked := [idx] |}.

(** A call joins attempt [k]. *)
Definition joined (path : string) (now : Z) (k : nat) (s : EsploraState) : EsploraState := {|
  healthy := healthy s; inFlight := inFlight s; tip := tip s; jobs := jobs s; calls := calls s ++ [(path, now, k)] |}.

(** A call starts an attempt of its own. *)
Definition started (j : job) (fl : gmap string nat) (tp : option (Z * nat)) (s : EsploraState) : EsploraState := {|
  healthy := healthy s; inFlight := fl; tip := tp; jobs := jobs s ++ [j];
  calls := calls s ++ [(jb_path j, jb_startedAt j, length (jobs s))] |}.

(** The function [createEsploraFetch] returns, for a URL of the first provider. *)
Definition fetch_path (path : string) (get signal : bool) (now : Z) (s : EsploraState) : EsploraState :=
  if negb get || signal then started (attempt path signal alone now s) (inFlight s) (tip s) s
  else if bool_decide (path = TIP_PATH) then
    match tip s with
    | Some (at_, k) => if tipTtlMs <? now - at_
                       then started (attempt path false tip_read now s) (inFlight s) (Some (now, length (jobs s))) s
                       else joined path now k s
    | None => started (attempt path false tip_read now s) (inFlight s) (Some (now, length (jobs s))) s
    end
  else
    match inFlight s !! path with
    | Some k => joined path now k s
    | None => started (attempt path false by_path now s) (<[path := length (jobs s)]> (inFlight s)) (tip s) s
    end.

Definition with_stage (st : stage) (asked : list nat) (j : job) : job := {|
  jb_path := jb_path j; jb_signal := jb_signal j; jb_sharing := jb_sharing j; jb_startedAt := jb_startedAt j;
  jb_stage := st; jb_asked := asked |}.

(** [.finally(() => inFlight.delete(key))] of a shared attempt, and the tip
    forgotten when the attempt that read it gave no good answer. *)
Definition settles (k : nat) (j : job) (r : outcome) (healthy' : nat) (s : EsploraState) : EsploraState := {|
  healthy := healthy';
  inFlight := if bool_decide (jb_sharing j = by_path) then delete (jb_path j) (inFlight s) else inFlight s;
  tip := if bool_decide (jb_sharing j = tip_read) && negb (match r with responded st _ => res_ok st | threw _ => false end)
         then None else tip s;
  jobs := alter (with_stage (settled r) (jb_asked j)) k (jobs s);
  calls := calls s |}.

(** The turn after [i]: the provider is found from what is healthy now. *)
Definition next_turn (k : nat) (j : job) (i : nat) (s : EsploraState) : EsploraState :=
  let idx := ((healthy s + S i) mod n)%nat in {|
    healthy := healthy s; inFlight := inFlight s; tip := tip s;
    jobs := alter (with_stage (asking (S i) idx) (jb_asked j ++ [idx])) k (jobs s);
    calls := calls s |}.

(** A provider answers attempt [k], at turn [i], having been asked as [idx]. *)
Definition answered (k : nat) (j : job) (i idx : nat) (o : outcome) (aborted : bool) (s : EsploraState) : EsploraState :=
  match o with
  | responded status _ =>
      if retryable status && (i <? n - 1)%nat then next_turn k j i s else settles k j o idx s
  | threw _ =>
      if (jb_signal j && aborted) || negb (S i <? n)%nat then settles k j o (healthy s) s else next_turn k j i s
  end.

Inductive step (s : EsploraState) : EsploraState → Prop :=
| step_call path get signal now : step s (fetch_path path get signal now s)
| step_answer k j i idx o aborted :
    jobs s !! k = Some j → jb_stage j = asking i idx → step s (answered k j i idx o aborted s).

Inductive reachable : EsploraState → Prop :=
| reach_start : reachable start
| reach_step s s' : reachable s → step s s' → reachable s'.
End fetch.

(** ** One attempt at a time *)

(** An answer the attempt returns at any turn. *)
Definition good (o : outcome) : bool := match o with responded st _ => negb (retryable st) | threw _ => false end.

Section alone.
Context (n : nat) (a : nat → outcome).

(** Attempt [k] is answered by the providers, each as [a] says, until it settles. *)
Fixpoint drive (turns k : nat) (s : EsploraState) : EsploraState :=
  match turns, jobs s !! k with
  | S turns, Some j =>
      match jb_stage j with
      | asking i idx => drive turns k (answered n k j i idx (a idx) false s)
      | settled _ => s
      end
  | _, _ => s
  end.

(** The providers from the healthy one on. *)
Definition ring (h i : nat) : nat := ((h + i) mod n)%nat.

Lemma ring_covers h p : (p < n)%nat → ∃ i, (i < n)%nat ∧ ring h i = p.
Proof.
  intros Hp. exists ((p + n - h mod n) mod n)%nat. split; [apply Nat.mod_upper_bound; lia|]. unfold ring.
  rewrite Nat.Div0.add_mod_idemp_r. pose proof (Nat.div_mod_eq h n). pose proof (Nat.mod_upper_bound h n).
  replace (h + (p + n - h mod n))%nat with (p + (h / n + 1) * n)%nat by nia.
  by rewrite Nat.Div0.mod_add, Nat.mod_small.
Qed.

(** A turn settles the attempt with a good answer, or at the last one. *)
Lemma answered_turn k j i idx o s :
  (i < n)%nat →
  answered n k j i idx o false s =
    if good o || (S i =? n)%nat
    then settles k j o (match o with responded _ _ => idx | threw _ => healthy s end) s else next_turn n k j i s.
Proof.
  intros Hi. unfold answered, good. rewrite andb_false_r. destruct o as [m|st b]; cbn [orb].
  - destruct (Nat.ltb_spec (S i) n), (Nat.eqb_spec (S i) n); simpl; done || lia.
  - destruct (retryable st); cbn [negb andb orb]; [|done].
    destruct (Nat.ltb_spec i (n - 1)), (Nat.eqb_spec (S i) n); done || lia.
Qed.

Lemma ring_inj h x y : (x < n)%nat → (y < n)%nat → ring h x = ring h y → x = y.
Proof.
  unfold ring. intros Hx Hy E. pose proof (Nat.div_mod_eq (h + x) n). pose proof (Nat.div_mod_eq (h + y) n). rewrite E in *.
  enough ((h + x) / n = (h + y) / n)%nat by nia. nia.
Qed.

(** What an attempt at turn [i] ends with: the first good answer from there
    on, or the last provider's. *)
Definition ends (h i : nat) (asked : list nat) (j' : job) : Prop :=
  ∃ m, (i ≤ m < n)%nat ∧ jb_stage j' = settled (a (ring h m)) ∧
    (good (a (ring h m)) = true ∨ S m = n) ∧
    (∀ i', (i ≤ i' < m)%nat → good (a (ring h i')) = false) ∧
    jb_asked j' = asked ++ map (ring h) (seq (S i) (m - i)).

Lemma drive_ends turns k s j i :
  (i < n)%nat → turns = (n - i)%nat → jobs s !! k = Some j → jb_stage j = asking i (ring (healthy s) i) →
  ∃ j', jobs (drive turns k s) !! k = Some j' ∧ jb_path j' = jb_path j ∧ ends (healthy s) i (jb_asked j) j'.
Proof.
  revert s j i. induction turns as [|turns IH]; intros s j i Hi Ht Hj Hst; [lia|].
  cbn [drive]. rewrite Hj, Hst, answered_turn by done.
  destruct (good (a (ring (healthy s) i)) || (S i =? n)%nat) eqn:E.
  - assert (∀ s' j', jobs s' !! k = Some j' → jb_stage j' = settled (a (ring (healthy s) i)) → drive turns k s' = s') as Hd.
    { intros s' j' Hj' Hs'. destruct turns; [done|]. cbn [drive]. by rewrite Hj', Hs'. }
    eexists. erewrite Hd; [|simpl; rewrite list_lookup_alter_eq, Hj; done|done].
    simpl. rewrite list_lookup_alter_eq, Hj. split_and!; [done..|].
    exists i. split_and!; [lia..|done| |lia|].
    + apply orb_true_iff in E as [?|?%Nat.eqb_eq]; auto.
    + by rewrite Nat.sub_diag, app_nil_r.
  - apply orb_false_iff in E as [Eg En%Nat.eqb_neq].
    destruct (IH (next_turn n k j i s) (with_stage (asking (S i) (ring (healthy s) (S i)))
      (jb_asked j ++ [ring (healthy s) (S i)]) j) (S i)) as (j' & Hj' & Hp & m & Hm & Hr & Hgood & Hbad & Hasked);
      [lia|lia|simpl; by rewrite list_lookup_alter_eq, Hj|done|].
    exists j'. split_and!; [done|done|]. simpl in *. exists m. split_and!; [lia..|done|done| |].
    + intros i' Hi'. destruct (decide (i' = i)) as [->|]; [done|]. apply Hbad. lia.
    + rewrite Hasked, <- app_assoc. f_equal. replace (m - i)%nat with (S (m - S i)) by lia. done.
Qed.
End alone.

(** An attempt no other one disturbs asks the providers in turn from the healthy
    one on, each once, and ends with the first good answer: one provider that
    works is enough. *)
Lemma attempt_alone n a path signal sharing_ now s fl tp :
  (0 < n)%nat →
  let s0 := started (attempt n path signal sharing_ now s) fl tp s in
  ∃ j, jobs (drive n a n (length (jobs s)) s0) !! length (jobs s) = Some j ∧ jb_path j = path ∧
    ends n a (healthy s) 0 [ring n (healthy s) 0] j ∧ NoDup (jb_asked j) ∧
    ((∃ p, (p < n)%nat ∧ good (a p) = true) → ∃ p, (p < n)%nat ∧ jb_stage j = settled (a p) ∧ good (a p) = true).
Proof.
  intros Hn s0. destruct (drive_ends n a n (length (jobs s)) s0 (attempt n path signal sharing_ now s) 0) as (j & Hj & Hp & He);
    [done|lia|subst s0; simpl; by rewrite lookup_app_r, Nat.sub_diag by done|done|].
  exists j. split_and!; [done..| |].
  - destruct He as (m & Hm & _ & _ & _ & ->). simpl.
    change (NoDup (ring n (healthy s) <$> seq 0 (S (m - 0)))).
    apply NoDup_fmap_2_strong; [|apply NoDup_seq].
    intros x y Hx%elem_of_seq Hy%elem_of_seq E. apply (ring_inj n (healthy s)); [lia|lia|done].
  - intros (p & Hpn & Hgood). destruct He as (m & Hm & Hst & Hend & Hbad & _).
    exists (ring n (healthy s) m). split_and!; [apply Nat.mod_upper_bound; lia|done|].
    destruct Hend as [?|Hlast]; [done|]. destruct (ring_covers n (healthy s) p Hpn) as (i & Hi & <-).
    destruct (decide (i = m)) as [->|Hne]; [done|]. rewrite Hbad in Hgood by lia. done.
Qed.

(** ** Any interleaving *)

Section facts.
Context (n : nat) (tipTtlMs : Z).
Hypothesis Hn : (0 < n)%nat.
Hypothesis Httl : 0 ≤ tipTtlMs.

Definition job_inv (j : job) : Prop :=
  match jb_stage j with
  | asking i idx => (i < n)%nat ∧ (idx < n)%nat ∧ length (jb_asked j) = S i
  | settled _ => (1 ≤ length (jb_asked j) ≤ n)%nat
  end.

(** The attempt other calls of its path join. *)
Definition shared_job (s : EsploraState) (path : string) (k : nat) : Prop :=
  ∃ j, jobs s !! k = Some j ∧ jb_sharing j = by_path ∧ jb_path j = path ∧ running j = true.

Definition tip_job (s : EsploraState) (at_ : Z) (k : nat) : Prop :=
  ∃ j, jobs s !! k = Some j ∧ jb_sharing j = tip_read ∧ jb_path j = TIP_PATH ∧ jb_startedAt j = at_ ∧
    match jb_stage j with settled (responded st _) => res_ok st = true | settled (threw _) => False | _ => True end.

(** A call and the attempt that answers it. *)
Definition call_inv (s : EsploraState) (c : string * Z * nat) : Prop :=
  ∃ j, jobs s !! c.2 = Some j ∧ jb_path j = c.1.1 ∧ (c.1.1 = TIP_PATH → c.1.2 - jb_startedAt j ≤ tipTtlMs).

Record esplora_inv (s : EsploraState) : Prop := {
  inv_jobs : ∀ k j, jobs s !! k = Some j → job_inv j;
  inv_flight : ∀ path k, inFlight s !! path = Some k ↔ shared_job s path k;
  inv_tip : ∀ at_ k, tip s = Some (at_, k) → tip_job s at_ k;
  inv_path : ∀ k j, jobs s !! k = Some j → jb_sharing j = by_path → jb_path j ≠ TIP_PATH;
  inv_calls : ∀ c, c ∈ calls s → call_inv s c;
}.

(** An attempt that keeps its name keeps the calls it answers. *)
Definition same_job (j j' : job) : Prop :=
  jb_path j' = jb_path j ∧ jb_sharing j' = jb_sharing j ∧ jb_startedAt j' = jb_startedAt j.

Lemma call_inv_jobs s s' c :
  (∀ k j, jobs s !! k = Some j → ∃ j', jobs s' !! k = Some j' ∧ same_job j j') → call_inv s c → call_inv s' c.
Proof.
  intros H (j & Hj & Hp & Ht). destruct (H _ _ Hj) as (j' & Hj' & E1 & _ & E2). exists j'. rewrite E1, E2. done.
Qed.

Lemma with_stage_same st asked j : same_job j (with_stage st asked j).
Proof. done. Qed.

Lemma alter_same s k f :
  (∀ j, same_job j (f j)) → ∀ k' j, jobs s !! k' = Some j →
  ∃ j', alter f k (jobs s) !! k' = Some j' ∧ same_job j j'.
Proof.
  intros Hf k' j Hj. destruct (decide (k = k')) as [->|Hne].
  - rewrite list_lookup_alter_eq, Hj. simpl. eauto.
  - rewrite list_lookup_alter_ne, Hj by done. exists j. done.
Qed.

(** A call starts an attempt. *)
Lemma started_inv s path signal sharing_ now fl tp :
  esplora_inv s →
  let j := attempt n path signal sharing_ now s in
  (fl = inFlight s ∧ sharing_ ≠ by_path ∨
   fl = <[path := length (jobs s)]> (inFlight s) ∧ sharing_ = by_path ∧ inFlight s !! path = None ∧ path ≠ TIP_PATH) →
  (tp = tip s ∨ tp = Some (now, length (jobs s)) ∧ sharing_ = tip_read ∧ path = TIP_PATH) →
  esplora_inv (started j fl tp s).
Proof.
  intros [Hj Hf Ht Hp Hc] j Hfl Htp.
  assert ((jobs s ++ [j]) !! length (jobs s) = Some j) as Hnew by (by rewrite lookup_app_r, Nat.sub_diag).
  assert (∀ k x, jobs s !! k = Some x → (jobs s ++ [j]) !! k = Some x) as Hold.
  { intros k x Hx. by apply lookup_app_l_Some. }
  assert (∀ k x, (jobs s ++ [j]) !! k = Some x → jobs s !! k = Some x ∨ k = length (jobs s) ∧ x = j) as Hinv.
  { intros k x [?|[? Hx]]%lookup_app_Some; [by left|]. right.
    destruct (k - length (jobs s))%nat eqn:E; simplify_eq/=. split; [lia|done]. }
  split; simpl.
  - intros k x [Hx|[_ ->]]%Hinv; [by apply (Hj k)|]. simpl. split_and!; [done|apply Nat.mod_upper_bound; lia|done].
  - intros path' k. split.
    + intros Hk. destruct Hfl as [[-> _]|(-> & -> & Hnone & _)].
      * apply Hf in Hk as (x & Hx & ?). exists x. split; [by apply Hold|done].
      * destruct (decide (path' = path)) as [->|Hne].
        -- rewrite lookup_insert_eq in Hk. simplify_eq. by exists j.
        -- rewrite lookup_insert_ne in Hk by done. apply Hf in Hk as (x & Hx & ?). exists x. split; [by apply Hold|done].
    + intros (x & [Hx|[-> ->]]%Hinv & Hs & Hpx & Hr).
      * assert (inFlight s !! path' = Some k) as Hk by (apply Hf; by exists x).
        destruct Hfl as [[-> _]|(-> & _ & Hnone & _)]; [done|]. rewrite lookup_insert_ne; [done|]. congruence.
      * simpl in Hs, Hpx. destruct Hfl as [[_ ?]|(-> & _)]; [done|]. subst path'. apply lookup_insert_eq.
  - intros at_ k E. destruct Htp as [->|(-> & -> & ->)].
    + apply Ht in E as (x & Hx & ?). exists x. split; [by apply Hold|done].
    + simplify_eq. by exists j.
  - intros k x [Hx|[_ ->]]%Hinv Hs; [by apply (Hp k)|]. simpl in *. by destruct Hfl as [[_ ?]|(_ & _ & _ & ?)].
  - intros c Hin. apply elem_of_app in Hin as [Hin|Hin].
    + apply (call_inv_jobs s); [|by apply Hc]. intros k x Hx. exists x. split; [by apply Hold|done].
    + apply list_elem_of_singleton in Hin as ->. exists j. split_and!; [done|done|]. simpl. lia.
Qed.

(** A call joins an attempt of its path. *)
Lemma joined_inv s path now k j :
  esplora_inv s → jobs s !! k = Some j → jb_path j = path → (path = TIP_PATH → now - jb_startedAt j ≤ tipTtlMs) →
  esplora_inv (joined path now k s).
Proof.
  intros [Hj Hf Ht Hp Hc] Hk Hpath Hnow. split; simpl; try done.
  intros c Hin. apply elem_of_app in Hin as [Hin|Hin]; [by apply Hc|].
  apply list_elem_of_singleton in Hin as ->. by exists j.
Qed.

(** An attempt moves on, or settles. *)
Lemma moved_inv s k j f fl tp h :
  esplora_inv s → jobs s !! k = Some j → (∀ x, same_job x (f x)) → job_inv (f j) → running j = true →
  fl = (if bool_decide (jb_sharing j = by_path) && negb (running (f j)) then delete (jb_path j) (inFlight s) else inFlight s) →
  (tp = None ∨ tp = tip s ∧ (jb_sharing j = tip_read →
     match jb_stage (f j) with settled (responded st _) => res_ok st = true | settled (threw _) => False | _ => True end)) →
  esplora_inv {| healthy := h; inFlight := fl; tip := tp; jobs := alter f k (jobs s); calls := calls s |}.
Proof.
  intros [Hj Hf Ht Hp Hc] Hk Hsame Hnew Hrun -> Htp. destruct (Hsame j) as (Ep & Es & Ea).
  assert (∀ k' x, alter f k (jobs s) !! k' = Some x → (k' = k ∧ x = f j) ∨ (k' ≠ k ∧ jobs s !! k' = Some x)) as Hinv.
  { intros k' x Hx. destruct (decide (k = k')) as [<-|Hne].
    - rewrite list_lookup_alter_eq, Hk in Hx. simplify_eq/=. by left.
    - rewrite list_lookup_alter_ne in Hx by done. by right. }
  assert (alter f k (jobs s) !! k = Some (f j)) as Hat by (by rewrite list_lookup_alter_eq, Hk).
  assert (∀ k' x, k' ≠ k → jobs s !! k' = Some x → alter f k (jobs s) !! k' = Some x) as Hother.
  { intros k' x Hne Hx. by rewrite list_lookup_alter_ne. }
  split; simpl.
  - intros k' x [[-> ->]|[_ Hx]]%Hinv; [done|by apply (Hj k')].
  - intros path k'. split.
    + intros Hfl. assert (inFlight s !! path = Some k' ∧ (k' = k → running (f j) = true)) as [Hold Hk'].
      { destruct (bool_decide (jb_sharing j = by_path) && negb (running (f j))) eqn:E; bools.
        - apply lookup_delete_Some in Hfl as [Hne Hfl]. split; [done|]. intros ->.
          apply Hf in Hfl as (x & Hx & _ & Hpx & _). congruence.
        - split; [done|]. intros ->. apply Hf in Hfl as (x & Hx & Hsx & _). simplify_eq.
          rewrite bool_decide_true in E by done. by destruct (running (f j)). }
      apply Hf in Hold as (x & Hx & Hsx & Hpx & Hrx). destruct (decide (k' = k)) as [->|Hne].
      * assert (x = j) as -> by congruence. exists (f j). rewrite Ep, Es. split_and!; try done. by apply Hk'.
      * exists x. split_and!; [by apply Hother|done..].
    + intros (x & Hx & Hsx & Hpx & Hrx). apply Hinv in Hx as [[-> ->]|[Hne Hx]].
      * rewrite Es in Hsx. rewrite Ep in Hpx. rewrite Hrx, andb_false_r. apply Hf. by exists j.
      * assert (inFlight s !! path = Some k') as Hfl by (apply Hf; by exists x).
        destruct (bool_decide (jb_sharing j = by_path) && negb (running (f j))) eqn:E; [|done]. bools.
        rewrite lookup_delete_ne; [done|]. intros Heq. destruct Hne.
        assert (inFlight s !! path = Some k) as Hfl' by (apply Hf; exists j; by rewrite Heq). congruence.
  - intros at_ k' E. destruct Htp as [->|[-> Hgood]]; [done|]. apply Ht in E as (x & Hx & Hsx & Hpx & Hax & Hstx).
    destruct (decide (k' = k)) as [->|Hne].
    + assert (x = j) as -> by congruence. exists (f j). rewrite Ep, Es, Ea. split_and!; try done. by apply Hgood.
    + exists x. split_and!; [by apply Hother|done..].
  - intros k' x [[-> ->]|[_ Hx]]%Hinv; [|by apply (Hp k')]. rewrite Es, Ep. by apply (Hp k).
  - intros c Hin. apply (call_inv_jobs s); [|by apply Hc]. simpl. by apply alter_same.
Qed.

Lemma fetch_inv s path get signal now : esplora_inv s → esplora_inv (fetch_path n tipTtlMs path get signal now s).
Proof.
  intros Hs. unfold fetch_path. destruct (negb get || signal); [apply started_inv; auto|].
  case_bool_decide as Hpath.
  - subst path. destruct (tip s) as [[at_ k]|] eqn:Et; [|apply started_inv; auto].
    destruct (tipTtlMs <? now - at_) eqn:E; [apply started_inv; auto|]. bools.
    destruct (inv_tip _ Hs _ _ Et) as (j & Hj & _ & Hp & <- & _). by apply (joined_inv s _ _ _ j).
  - destruct (inFlight s !! path) as [k|] eqn:Ek; [|apply started_inv; auto 8].
    destruct (proj1 (inv_flight _ Hs _ _) Ek) as (j & Hj & _ & Hp & _). by apply (joined_inv s _ _ _ j).
Qed.

Lemma esplora_settles_inv s k j r h :
  esplora_inv s → jobs s !! k = Some j → running j = true → esplora_inv (settles k j r h s).
Proof.
  intros Hs Hk Hrun. pose proof (inv_jobs _ Hs _ _ Hk) as Hj. unfold job_inv, running in Hj, Hrun.
  destruct (jb_stage j) as [i idx|r'] eqn:Est; [|done]. destruct Hj as (Hi & _ & Hl).
  apply (moved_inv s k j); try done.
  - unfold job_inv. simpl. lia.
  - unfold running. by rewrite Est.
  - by rewrite andb_true_r.
  - destruct (bool_decide _ && _) eqn:E; [by left|]. right. split; [done|]. intros Ht. simpl.
    rewrite bool_decide_true in E by done. by destruct r as [m|st b]; [|destruct (res_ok st)].
Qed.

Lemma next_turn_inv s k j i idx :
  esplora_inv s → jobs s !! k = Some j → jb_stage j = asking i idx → (S i < n)%nat → esplora_inv (next_turn n k j i s).
Proof.
  intros Hs Hk Hst Hi. pose proof (inv_jobs _ Hs _ _ Hk) as Hj. unfold job_inv in Hj. rewrite Hst in Hj.
  destruct Hj as (_ & _ & Hl). apply (moved_inv s k j); try done.
  - unfold job_inv. simpl. rewrite length_app, Hl. simpl. split_and!; [done|apply Nat.mod_upper_bound; lia|lia].
  - unfold running. by rewrite Hst.
  - by rewrite andb_false_r.
  - right. done.
Qed.

Lemma step_inv s s' : esplora_inv s → step n tipTtlMs s s' → esplora_inv s'.
Proof.
  intros Hs [path get signal now|k j i idx o aborted Hk Hst]; [by apply fetch_inv|].
  assert (running j = true) as Hrun by (unfold running; by rewrite Hst).
  unfold answered. destruct o as [m|st b].
  - destruct (_ || _) eqn:E; [by apply esplora_settles_inv|]. apply orb_false_iff in E as [_ E]. bools.
    apply Nat.ltb_lt in E. by eapply next_turn_inv.
  - destruct (_ && _) eqn:E; [|by apply esplora_settles_inv]. apply andb_true_iff in E as [_ E].
    apply Nat.ltb_lt in E. eapply next_turn_inv; [done..|lia].
Qed.

Lemma esplora_reachable_inv s : reachable n tipTtlMs s → esplora_inv s.
Proof.
  induction 1 as [|s s' _ IH Hstep]; [|by apply (step_inv s)]. split; simpl; try done.
  - intros path k. rewrite lookup_empty. split; [done|]. by intros (j & ? & _).
  - by intros c ?%elem_of_nil.
Qed.

End facts.

(** ** Runs *)

Module Demo.
(** Provider 0 is down, provider 1 works, provider 2 refuses. *)
Definition world (p : nat) : outcome :=
  match p with 0%nat => threw "blocked" | 1%nat => responded 200 "330000" | _ => responded 503 "" end.

Definition answer (k : nat) (s : EsploraState) : EsploraState :=
  match jobs s !! k with
  | Some j => match jb_stage j with asking i idx => answered 3 k j i idx (world idx) false s | settled _ => s end
  | None => s
  end.

Definition two_calls : EsploraState :=
  fetch_path 3 10000 "/tx/b" true false 1 (fetch_path 3 10000 "/tx/a" true false 0 start).

Lemma answer_reachable k s : reachable 3 10000 s → reachable 3 10000 (answer k s).
Proof.
  intros Hs. unfold answer. destruct (jobs s !! k) as [j|] eqn:Ek; [|done].
  destruct (jb_stage j) as [i idx|r] eqn:Es; [|done]. eapply reach_step; [done|]. by apply step_answer.
Qed.

Lemma two_calls_reachable : reachable 3 10000 two_calls.
Proof. eapply reach_step; [|apply step_call]. eapply reach_step; [|apply step_call]. constructor. Qed.

(** One provider works and an attempt still fails: while it waits for the
    first, another attempt makes the second the healthy one, and the turn's
    index skips it. Alone, the same attempt gets its answer. *)
Definition skipped : EsploraState := answer 0 (answer 0 (answer 0 (answer 1 (answer 1 two_calls)))).

Lemma working_provider_missed :
  reachable 3 10000 skipped ∧
  (λ j, (jb_stage j, jb_asked j)) <$> jobs skipped !! 0%nat = Some (settled (threw "blocked"), [0; 2; 0]%nat) ∧
  (λ j, (jb_stage j, jb_asked j)) <$> jobs (drive 3 world 3 0 two_calls) !! 0%nat =
    Some (settled (responded 200 "330000"), [0; 1]%nat).
Proof.
  split; [|vm_compute; auto]. unfold skipped. do 5 apply answer_reachable. exact two_calls_reachable.
Qed.

(** Two reads of the tip within its time share one attempt. *)
Definition tips : EsploraState :=
  fetch_path 3 10000 TIP_PATH true false 9000 (fetch_path 3 10000 TIP_PATH true false 0 start).

Lemma tips_reachable : reachable 3 10000 tips.
Proof. eapply reach_step; [|apply step_call]. eapply reach_step; [|apply step_call]. constructor. Qed.

End Demo.
