(* ===== verification/Precheck.v ===== *)
(** * Before the wallet opens ([frontend/app/src/lib/wallet/precheck.ts])

    The wallet is on the app's network, the account exists and holds the XLM
    the transaction needs; what cannot be read is not held against the user.
    Reading the transaction's XDR is an argument. *)

From S2P Require Import Prelude JsData Rejection.

Definition STROOPS_PER_XLM : Z := 10000000.
Definition BASE_RESERVE : Z := STROOPS_PER_XLM ÷ 2.

(** One of [balances]: its asset's type, the balance and the open offers. *)
Record Balance : Type := { asset_type : string; balance : string; selling_liabilities : option string }.

Record AccountSnapshot : Type := {
  balances : list Balance;
  subentry_count : Z;
  num_sponsoring : option Z;
  num_sponsored : option Z;
}.

(** What the app's checks and flows throw: the classes of this file, and the
    errors of [Rejection]. *)
Inductive AppError : Type :=
| WrongNetworkError (walletPassphrase : string) (walletName : option string)
| AccountUnfundedError
| LowXlmError (neededStroops spendableStroops : Z)
| AnyError (e : thrown).

#[global] Instance AppError_eq_dec : EqDecision AppError.
Proof. solve_decision. Defined.

(** [errorMessage] of them. *)
Definition app_message (e : AppError) : string :=
  match e with
  | WrongNetworkError _ _ => "WrongNetwork"
  | AccountUnfundedError => "AccountUnfunded"
  | LowXlmError _ _ => "LowXlm"
  | AnyError e => errorMessage e
  end.

(** [s.split(".")]: before the first dot, and between it and the next one. *)
Fixpoint until_dot (cs : list ascii) : list ascii * option (list ascii) :=
  match cs with
  | [] => ([], None)
  | c :: cs => if bool_decide (c = "."%char) then ([], Some cs)
               else let '(a, rest) := until_dot cs in (c :: a, rest)
  end.

Definition padEnd (n : nat) (c : ascii) (cs : list ascii) : list ascii := cs ++ replicate (n - length cs) c.

(** "12.5000000" to 125000000; [BigInt] throws on what is no number. *)
Definition toStroops (decimal : string) : option Z :=
  let '(whole, rest) := until_dot (chars decimal) in
  let frac := match rest with Some cs => (until_dot cs).1 | None => [] end in
  w ← BigInt (of_chars whole);
  f ← BigInt (of_chars (take 7 (padEnd 7 "0"%char frac)));
  Some (w * STROOPS_PER_XLM + f).

Definition spendableXlm (account : AccountSnapshot) : option Z :=
  match list_find (λ b, asset_type b = "native") (balances account) with
  | None => Some 0
  | Some (_, native) =>
      let entries := 2 + subentry_count account + default 0 (num_sponsoring account)
                     - default 0 (num_sponsored account) in
      let reserve := entries * BASE_RESERVE in
      liabilities ← toStroops (default "0" (selling_liabilities native));
      held ← toStroops (balance native);
      let spendable := held - reserve - liabilities in
      Some (if spendable >? 0 then spendable else 0)
  end.

(** The SDK's [Networks]. *)
Definition TESTNET : string := "Test SDF Network ; September 2015".
Definition PUBLIC : string := "Public Global Stellar Network ; September 2015".
Definition FUTURENET : string := "Test SDF Future Network ; October 2022".

Definition networkName (passphrase : string) : string :=
  if bool_decide (passphrase = TESTNET) then "Stellar testnet"
  else if bool_decide (passphrase = PUBLIC) then "Stellar mainnet"
  else if bool_decide (passphrase = FUTURENET) then "Futurenet"
  else "another network".

(** A transaction as [fromXDR] reads it: the fee of its envelope, and each
    operation's type and, for a trustline, its limit. *)
Record ParsedTx : Type := { pt_fee : string; pt_operations : list (string * string) }.

Section precheck.
Context (fromXDR : string → string → option ParsedTx).

Definition new_line (op : string * string) : bool :=
  bool_decide (op.1 = "changeTrust") && negb (bool_decide (op.2 = "0.0000000")).

Definition requiredXlm (xdr passphrase : string) : option Z :=
  tx ← fromXDR xdr passphrase;
  fee ← BigInt (pt_fee tx);
  Some (fee + count_if new_line (pt_operations tx) * BASE_RESERVE).

Definition assertNetwork (walletPassphrase : option string) (expected : string) (walletName : option string) :
    result AppError () :=
  match present walletPassphrase with
  | Some p => if bool_decide (p = expected) then Ok () else Err (WrongNetworkError p walletName)
  | None => Ok ()
  end.

Definition assertFunds (account : option AccountSnapshot) (neededStroops : Z) : result AppError () :=
  match account with
  | None => Err AccountUnfundedError
  | Some a =>
      spendable ← of_option (spendableXlm a) (AnyError (JsError "SyntaxError"));
      if spendable <? neededStroops then Err (LowXlmError neededStroops spendable) else Ok ()
  end.

(** [getWalletPassphrase] and [loadAccount] as they answered; [None]: rejected. *)
Definition preflightSign (xdr expectedPassphrase : string) (walletName : option string)
    (getWalletPassphrase : option (option string)) (loadAccount : option (option AccountSnapshot)) : result AppError () :=
  assertNetwork (default None getWalletPassphrase) expectedPassphrase walletName;;
  match loadAccount with
  | None => Ok ()
  | Some account =>
      needed ← of_option (requiredXlm xdr expectedPassphrase) (AnyError (JsError "SyntaxError"));
      assertFunds account needed
  end.

(** A signature is asked for exactly when the wallet is not known to be on
    another network and the account, if it could be read, exists and can spend
    the fee and the reserve of each trustline the transaction adds. *)
Theorem preflight_asks_when_it_can xdr expected walletName wp loadAccount :
  preflightSign xdr expected walletName wp loadAccount = Ok () ↔
    (∀ p, wp = Some (Some p) → p = "" ∨ p = expected) ∧
    (∀ account, loadAccount = Some account →
      ∃ a needed spendable, account = Some a ∧ requiredXlm xdr expected = Some needed ∧
        spendableXlm a = Some spendable ∧ needed ≤ spendable).
Proof.
  unfold preflightSign, assertNetwork. split.
  - intros E. apply bind_ok in E as ([] & En & E). split.
    + intros p ->. simpl in En. unfold present in En. repeat case_match; simplify_eq/=; bools; auto.
    + intros account ->. simpl in E. apply bind_ok in E as (needed & Hn & E). apply of_option_ok in Hn.
      destruct account as [a|]; [|done]. apply bind_ok in E as (sp & Hs & E). apply of_option_ok in Hs.
      destruct (sp <? needed) eqn:El; [done|]. bools. by exists a, needed, sp.
  - intros [Hp Ha].
    assert ((match present (default None wp) with
      | Some p => if bool_decide (p = expected) then Ok () else Err (WrongNetworkError p walletName)
      | None => Ok () end : result AppError ()) = Ok ()) as ->.
    { destruct wp as [[p|]|]; try done. simpl. destruct (Hp p eq_refl) as [->| ->]; [done|].
      destruct expected as [|c e]; simpl; [done|]. by rewrite bool_decide_true. }
    simpl. destruct loadAccount as [account|]; [|done].
    destruct (Ha account eq_refl) as (a & needed & sp & -> & Hn & Hs & Hle). rewrite Hn. simpl. rewrite Hs. simpl.
    by replace (sp <? needed) with false by lia.
Qed.
End precheck.

(** ** Amounts *)

Lemma until_dot_plain a rest : "."%char ∉ a → until_dot (a ++ "."%char :: rest) = (a, Some rest).
Proof.
  induction a as [|c a IH]; simpl; [done|]. intros [Hc Ha]%not_elem_of_cons.
  rewrite bool_decide_false by congruence. by rewrite IH.
Qed.

Lemma until_dot_none a : "."%char ∉ a → until_dot a = (a, None).
Proof.
  induction a as [|c a IH]; simpl; [done|]. intros [Hc Ha]%not_elem_of_cons.
  rewrite bool_decide_false by congruence. by rewrite IH.
Qed.

Lemma digits_no_dot cs : forallb is_digit cs = true → "."%char ∉ cs.
Proof. rewrite forallb_forall. intros H Hin%list_elem_of_In. by apply H in Hin. Qed.

(** An amount as Horizon writes it. *)
Definition horizon_amount (n : Z) : string := z_to_string (n / STROOPS_PER_XLM) +:+ "." +:+ pad 7 (n mod STROOPS_PER_XLM).

Lemma toStroops_horizon n : 0 ≤ n → toStroops (horizon_amount n) = Some n.
Proof.
  intros Hn. unfold toStroops, horizon_amount, STROOPS_PER_XLM.
  assert (0 ≤ n / 10000000 ∧ 0 ≤ n mod 10000000 < 10 ^ Z.of_nat 7) as [Hw Hf].
  { split; [apply Z.div_pos; lia|apply Z.mod_pos_bound; lia]. }
  destruct (dec_chars_spec _ Hw) as [Hwv Hwd], (dec_chars_spec (n mod 10000000)) as [Hfv Hfd]; [lia|].
  assert (z_to_string (n / 10000000) = of_chars (dec_chars (n / 10000000))) as Hz.
  { unfold z_to_string. by replace (n / 10000000 <? 0) with false by lia. }
  rewrite !chars_app, Hz, chars_of_chars. change (chars "." ++ ?l) with ("."%char :: l).
  rewrite until_dot_plain by (by apply digits_no_dot). unfold pad. rewrite chars_of_chars.
  set (frac := padStart 7 "0"%char (dec_chars (n mod 10000000))).
  assert (length frac = 7%nat) as Hl by (apply padStart_length, dec_chars_length; [exact Hf|lia]).
  assert (forallb is_digit frac = true) as Hfrac.
  { unfold frac, padStart. rewrite forallb_app, Hfd, andb_true_r. by induction (7 - _)%nat. }
  rewrite until_dot_none by (by apply digits_no_dot). cbn [fst].
  rewrite (BigInt_dec_chars (dec_chars (n / 10000000))) by (apply dec_chars_nonempty || done).
  unfold padEnd. rewrite Hl, app_nil_r, take_ge by lia.
  rewrite (BigInt_dec_chars frac); [|by intros E; rewrite E in Hl|done]. simpl.
  unfold frac, padStart. rewrite dec_value_zeros, Hwv, Hfv. f_equal. pose proof (Z.div_mod n 10000000). lia.
Qed.

(** The XLM an account can spend is what it holds less its reserve and its open
    offers, and never less than nothing. *)
Lemma spendable_is_what_is_left account i native held liabilities :
  list_find (λ b, asset_type b = "native") (balances account) = Some (i, native) →
  balance native = horizon_amount held → selling_liabilities native = Some (horizon_amount liabilities) →
  0 ≤ held → 0 ≤ liabilities →
  spendableXlm account = Some (Z.max 0 (held
    - (2 + subentry_count account + default 0 (num_sponsoring account) - default 0 (num_sponsored account)) * BASE_RESERVE
    - liabilities)).
Proof.
  intros Hf Hb Hs H1 H2. unfold spendableXlm. rewrite Hf, Hb, Hs. simpl. rewrite !toStroops_horizon by done. simpl.
  f_equal. destruct (_ >? 0) eqn:E; lia.
Qed.

Module Demo.
Definition account : AccountSnapshot := {|
  balances := [{| asset_type := "credit_alphanum4"; balance := "3.0000000"; selling_liabilities := None |};
               {| asset_type := "native"; balance := "12.5000000"; selling_liabilities := Some "0.5000000" |}];
  subentry_count := 1; num_sponsoring := None; num_sponsored := None |}.

Definition reads (xdr passphrase : string) : option ParsedTx :=
  Some {| pt_fee := "100"; pt_operations := [("changeTrust", "922337203685.4775807"); ("payment", "")] |}.

Example spendable : spendableXlm account = Some 105000000.
Proof. vm_compute. reflexivity. Qed.

Example wrong_network : preflightSign reads "X" TESTNET (Some "Freighter") (Some (Some PUBLIC)) (Some (Some account)) =
  Err (WrongNetworkError PUBLIC (Some "Freighter")).
Proof. vm_compute. reflexivity. Qed.

Example low : preflightSign reads "X" TESTNET None None (Some (Some {|
    balances := [{| asset_type := "native"; balance := "1.6"; selling_liabilities := None |}];
    subentry_count := 1; num_sponsoring := None; num_sponsored := None |})) = Err (LowXlmError 5000100 1000000).
Proof. vm_compute. reflexivity. Qed.
End Demo.
