(* ===== verification/ErrorText.v ===== *)
(** * What the app says of a failure ([frontend/app/src/lib/errors/])

    The regular expressions of the two files, which contract raised a failure
    ([contract.ts]) and the catalogue of messages ([index.ts]). *)

From S2P Require Import Prelude JsData Rejection Precheck.

(** ** Regular expressions

    Those of the catalogue: literals, classes and runs of a class, groups,
    alternatives, anchors and word boundaries. *)

Inductive re : Type :=
| Eps
| Chr (p : ascii → bool)
| Plus (p : ascii → bool)
| Seq (a b : re)
| Alt (a b : re)
| Bound
| Start
| End_.

(** Whether a match of [r] at this place goes on to [k]. *)
Fixpoint matches (r : re) (k : option ascii → list ascii → bool) (prev : option ascii) (cs : list ascii) : bool :=
  match r with
  | Eps => k prev cs
  | Chr p => match cs with c :: cs => p c && k (Some c) cs | [] => false end
  | Plus p =>
      (fix run (cs : list ascii) : bool :=
         match cs with c :: cs => p c && (k (Some c) cs || run cs) | [] => false end) cs
  | Seq a b => matches a (matches b k) prev cs
  | Alt a b => matches a k prev cs || matches b k prev cs
  | Bound => boundary prev (head cs) && k prev cs
  | Start => bool_decide (prev = None) && k prev cs
  | End_ => bool_decide (cs = []) && k prev cs
  end.

Fixpoint test_from (r : re) (prev : option ascii) (cs : list ascii) : bool :=
  matches r (λ _ _, true) prev cs || match cs with c :: cs => test_from r (Some c) cs | [] => false end.

(** [r.test(s)] *)
Definition test (r : re) (s : string) : bool := test_from r None (chars s).

Definition is_char (c : ascii) : ascii → bool := λ c', Ascii.eqb c c'.
(** With the flag [i]. *)
Definition is_char_i (c : ascii) : ascii → bool := λ c', Ascii.eqb (char_lower c) (char_lower c').

Definition seq_of (l : list re) : re := foldr Seq Eps l.
Definition alt_of (l : list re) : re := match l with [] => Eps | r :: l => fold_left Alt l r end.
Definition lit (s : string) : re := seq_of (map (λ c, Chr (is_char c)) (chars s)).
Definition lit_i (s : string) : re := seq_of (map (λ c, Chr (is_char_i c)) (chars s)).
(** [/^(a|b|...)$/] *)
Definition exactly (words : list string) : re := seq_of [Start; alt_of (map lit words); End_].

(** ** Which contract failed ([contract.ts]) *)

Inductive ContractName : Type := writz_lend | bitcoin_spv.

#[global] Instance ContractName_eq_dec : EqDecision ContractName.
Proof. solve_decision. Defined.

Definition ErrorTable : Type := list (Z * string).

Definition BitcoinSpvError : ErrorTable := [
  (1, "NoHeaders"); (2, "InsufficientConfirmations"); (3, "ZeroMinConfirmations"); (4, "HeaderChainBroken");
  (5, "MerkleProofInvalid"); (6, "InvalidHeaderSlice"); (7, "EmptyTransaction"); (8, "InsufficientProofOfWork");
  (9, "InvalidDifficultyBits"); (10, "NotInitialized"); (11, "AlreadyInitialized"); (12, "Unauthorized");
  (13, "CheckpointNotSet"); (14, "DifficultyBelowCheckpointFloor")].

Definition WritzLendError : ErrorTable := [
  (1, "AlreadyInitialized"); (2, "NotInitialized"); (3, "Unauthorized"); (4, "SpvVerificationFailed");
  (5, "OutputNotFound"); (6, "DepositTooSmall"); (7, "PositionAlreadyExists"); (8, "PositionNotFound");
  (9, "PositionNotActive"); (10, "ExceedsCollateralRatio"); (11, "InsufficientLiquidity");
  (12, "RepayExceedsDebt"); (13, "InsufficientSupply"); (14, "PositionHealthy"); (15, "Overflow");
  (16, "InvalidScriptPubKey"); (17, "Paused"); (18, "OraclePriceUnavailable"); (19, "OraclePriceStale");
  (20, "InvalidUserPubkey"); (21, "ScriptPubKeyMismatch"); (22, "InvalidTimelock");
  (23, "InvalidProtocolPubkey"); (24, "ExposureCapExceeded"); (25, "InvalidKeyProof"); (26, "ZeroShareAmount");
  (27, "InvalidDepositParams"); (28, "InvalidEntryTtl"); (29, "UserKeyIsProtocolKey"); (30, "TimelockTooSoon");
  (31, "StaleBitcoinTip"); (32, "LiquidationWindowClosed"); (33, "InvalidTimelockParams")].

Definition TABLES (contract : ContractName) : ErrorTable :=
  match contract with writz_lend => WritzLendError | bitcoin_spv => BitcoinSpvError end.

Fixpoint entry (code : Z) (t : ErrorTable) : option string :=
  match t with [] => None | (n, m) :: t => if n =? code then Some m else entry code t end.

Record ContractFailure : Type := { cf_contract : ContractName; cf_code : Z; cf_variant : option string }.

#[global] Instance ContractFailure_eq_dec : EqDecision ContractFailure.
Proof. solve_decision. Defined.

Record ContractIds : Type := { id_writzLend : string; id_bitcoinSpv : string }.

Definition failure (contract : ContractName) (code : Z) : ContractFailure :=
  {| cf_contract := contract; cf_code := code; cf_variant := entry code (TABLES contract) |}.

(** *** The two patterns, read from their start *)

Fixpoint skip_spaces (cs : list ascii) : list ascii :=
  match cs with c :: cs' => if is_space c then skip_spaces cs' else cs | [] => [] end.

Fixpoint literal (w cs : list ascii) : option (list ascii) :=
  match w, cs with
  | [], _ => Some cs
  | a :: w, c :: cs => if Ascii.eqb a c then literal w cs else None
  | _ :: _, [] => None
  end.

(** [(\d+)] before a character that is no digit *)
Fixpoint digits_of (cs : list ascii) : list ascii * list ascii :=
  match cs with
  | c :: cs' => if is_digit c then let '(ds, rest) := digits_of cs' in (c :: ds, rest) else ([], cs)
  | [] => ([], [])
  end.

(** [[A-Z2-7]] *)
Definition is_base32 (c : ascii) : bool := in_range "A" "Z" c || in_range "2" "7" c.

(** [/Error\(Contract,\s*#(\d+)\)/], here: the code and what follows. *)
Definition code_here (cs : list ascii) : option (list ascii * list ascii) :=
  cs ← literal (chars "Error(Contract,") cs;
  cs ← literal ["#"%char] (skip_spaces cs);
  let '(ds, cs) := digits_of cs in
  if bool_decide (ds = []) then None else rest ← literal [")"%char] cs; Some (ds, rest).

(** [/contract:\s*(C[A-Z2-7]{55}),\s*topics:\[error,\s*Error\(Contract,\s*#(\d+)\)\]/], here. *)
Definition event_here (cs : list ascii) : option (list ascii * list ascii * list ascii) :=
  cs ← literal (chars "contract:") cs;
  let cs := skip_spaces cs in
  let id := take 56 cs in
  if negb (bool_decide (length id = 56%nat) && bool_decide (head id = Some "C"%char) && forallb is_base32 id) then None else
  cs ← literal [","%char] (drop 56 cs);
  cs ← literal (chars "topics:[error,") (skip_spaces cs);
  '(ds, cs) ← code_here (skip_spaces cs);
  rest ← literal ["]"%char] cs;
  Some (id, ds, rest).

(** [message.matchAll(ERROR_EVENT)]: the matches, from left to right. *)
Fixpoint events_from (fuel : nat) (cs : list ascii) : list (list ascii * list ascii) :=
  match fuel with
  | O => []
  | S fuel =>
      match event_here cs with
      | Some (id, ds, rest) => (id, ds) :: events_from fuel rest
      | None => match cs with _ :: cs => events_from fuel cs | [] => [] end
      end
  end.

Definition error_events (message : string) : list (list ascii * list ascii) :=
  events_from (S (String.length message)) (chars message).

(** [CODE.exec(message)] *)
Fixpoint first_code (cs : list ascii) : option (list ascii) :=
  match code_here cs with
  | Some (ds, _) => Some ds
  | None => match cs with _ :: cs => first_code cs | [] => None end
  end.

Definition resolveContractError (message : string) (ids : ContractIds) (bare : ContractName) : option ContractFailure :=
  match last (error_events message) with
  | Some (id, ds) =>
      if bool_decide (of_chars id = id_bitcoinSpv ids) then Some (failure bitcoin_spv (dec_value ds))
      else if bool_decide (of_chars id = id_writzLend ids) then Some (failure writz_lend (dec_value ds))
      else None
  | None => (λ ds, failure bare (dec_value ds)) <$> first_code (chars message)
  end.

(** ** The catalogue ([index.ts]) *)

Inductive ErrorFlow : Type :=
| f_deposit | f_borrow | f_repay | f_release | f_recover | f_lend | f_withdraw | f_earn_deposit | f_earn_withdraw
| f_trustline | f_read.

#[global] Instance ErrorFlow_eq_dec : EqDecision ErrorFlow.
Proof. solve_decision. Defined.

Record ErrorContext : Type := {
  ec_flow : option ErrorFlow;
  ec_availableUsdc : option string;
  ec_ownBalanceUsdc : option string;
}.

Inductive Report : Type := rep_always | rep_if_repeats.

#[global] Instance Report_eq_dec : EqDecision Report.
Proof. solve_decision. Defined.

Record Parts : Type := {
  headline : string;
  safety : option string;
  action : option string;
  report : option Report;
  link : option (string * string);
}.

#[global] Instance Parts_eq_dec : EqDecision Parts.
Proof. solve_decision. Defined.

Record FriendlyError : Type := { fe_parts : Parts; fe_raw : string; fe_contract : option ContractFailure }.

(** The parts of a message; an absent one is the empty string. *)
Definition say (h s a : string) : Parts :=
  {| headline := h; safety := present (Some s); action := present (Some a); report := None; link := None |}.
Definition reported (r : Report) (p : Parts) : Parts :=
  {| headline := headline p; safety := safety p; action := action p; report := Some r; link := link p |}.
Definition linked (l : option (string * string)) (p : Parts) : Parts :=
  {| headline := headline p; safety := safety p; action := action p; report := report p; link := l |}.

(** What of [config] the messages name. *)
Record Deploy : Type := {
  dp_networkPassphrase : string;
  dp_onTestnet : bool;
  dp_minConfirmations : Z;
}.

Record Rule : Type := {
  match_ : re;
  contract_ : option ContractName;
  build : ErrorContext → string → AppError → Parts;
}.

(** A rule for any source, and one for the failures of a contract. *)
Definition on (r : re) (p : Parts) : Rule := {| match_ := r; contract_ := None; build _ _ _ := p |}.
Definition of_contract (c : ContractName) (r : re) (p : Parts) : Rule :=
  {| match_ := r; contract_ := Some c; build _ _ _ := p |}.

Definition flow_is (ctx : ErrorContext) (f : ErrorFlow) : bool := bool_decide (ec_flow ctx = Some f).

Section catalogue.
Context (config : Deploy).

Definition NETWORK : string := networkName (dp_networkPassphrase config).
Definition FUND_LINK : option (string * string) :=
  if dp_onTestnet config
  then Some ("Fund with Friendbot", "https://lab.stellar.org/account/fund?$=network$id=testnet") else None.

Definition BTC_DATA_CHECK : Parts := reported rep_always (say "The Bitcoin data from the Writz relayer failed a check."
  "Your transaction is fine and your BTC is safe." "Don't send it again.").

Definition NOT_READY : Parts :=
  say ("Bitcoin verification on " +:+ NETWORK +:+ " isn't ready right now.") "Nothing was sent." "Try again later.".

Definition setupNoun (flow : option ErrorFlow) : string :=
  match flow with
  | Some f_deposit => "deposits"
  | Some f_release => "releases"
  | Some f_borrow | Some f_repay => "loans"
  | Some f_lend | Some f_withdraw => "the pool"
  | Some f_earn_deposit | Some f_earn_withdraw => "the vault"
  | Some f_trustline => "USDC"
  | _ => "this"
  end.

Definition flowSafety (flow : option ErrorFlow) : string :=
  match flow with
  | Some f_deposit | Some f_release => "Your BTC is safe in its lock."
  | Some f_lend | Some f_withdraw | Some f_earn_deposit | Some f_earn_withdraw => "No USDC moved."
  | _ => "Nothing was sent."
  end.

Definition wallet_label (e : AppError) : string := match e with AnyError e => walletLabel e | _ => "your wallet" end.

(** [/NEXT_PUBLIC_\w+ (is )?not configured|Missing contract address|No issuer configured/] *)
Definition unconfigured : re := alt_of [
  seq_of [lit "NEXT_PUBLIC_"; Plus is_word_char; lit " "; Alt (lit "is ") Eps; lit "not configured"];
  lit "Missing contract address"; lit "No issuer configured"].

(** [/Relayer error (\d+)/], and the group of its first match. *)
Definition relayer_error : re := seq_of [lit "Relayer error "; Plus is_digit].

Fixpoint relayer_code (cs : list ascii) : list ascii :=
  match literal (chars "Relayer error ") cs with
  | Some rest => match digits_of rest with
                 | ([], _) => match cs with _ :: cs => relayer_code cs | [] => [] end
                 | (ds, _) => ds
                 end
  | None => match cs with _ :: cs => relayer_code cs | [] => [] end
  end.

Definition wallet_rules : list Rule := [
  {| match_ := exactly ["SignatureRejected"]; contract_ := None; build _ _ error :=
       say ("You declined in " +:+ wallet_label error +:+ ".") "Nothing was sent." "Sign again when you're ready." |};
  {| match_ := exactly ["WrongNetwork"]; contract_ := None; build _ _ error :=
       let '(network, name) :=
         match error with
         | WrongNetworkError p n => (networkName p, default "your wallet" n)
         | _ => ("another network", "your wallet")
         end in
       say ("Your wallet is on " +:+ network +:+ ". Writz runs on " +:+ NETWORK +:+ ".") "Nothing was sent."
         ("Switch network in " +:+ name +:+ ", then try again.") |};
  on (Alt (exactly ["AccountUnfunded"]) (lit "Account not found"))
    (linked FUND_LINK (say "This Stellar account isn't funded yet." "Nothing was sent."
      (if dp_onTestnet config then "Fund it with Friendbot, then try again." else "Add XLM to it, then try again.")));
  on (alt_of [exactly ["LowXlm"]; lit "op_low_reserve"; lit "tx_insufficient_balance"; lit "txInsufficientBalance"; lit "opLowReserve"])
    (linked FUND_LINK (say "Not enough XLM for this transaction." "Nothing was sent."
      (if dp_onTestnet config then "Add XLM with Friendbot, then try again." else "Add XLM, then try again.")));
  {| match_ := seq_of [Start; lit "XverseError: "]; contract_ := None; build ctx _ _ :=
       say "Xverse didn't respond." (if flow_is ctx f_release then "Your BTC is still locked." else "Nothing was sent.")
         "Open Xverse and try again." |};
  on (lit "Connection rejected in your Bitcoin wallet")
    (say "You declined in Xverse." "Nothing was sent." "Connect again when you're ready.")].

Definition relayer_rules : list Rule := [
  {| match_ := unconfigured; contract_ := None; build ctx _ _ :=
       reported rep_always (say ("This app isn't set up for " +:+ setupNoun (ec_flow ctx) +:+ " right now.") "Nothing was sent." "") |};
  {| match_ := lit "Relayer unreachable"; contract_ := None; build ctx _ _ :=
       if flow_is ctx f_read
       then say "Can't reach the Writz relayer right now." "Your funds are not affected." "Try again in a minute."
       else say "Can't reach the Writz relayer." (flowSafety (ec_flow ctx)) "Try again in a minute." |};
  on (lit_i "out of sync") (say "Writz is catching up with the chain." "Your funds are safe." "Try again in a minute.");
  {| match_ := relayer_error; contract_ := None; build ctx subject _ :=
       say ("The Writz relayer returned an error (" +:+ of_chars (relayer_code (chars subject)) +:+ ").")
         (if flow_is ctx f_read then "Your funds are not affected." else "Nothing was sent.") "Try again." |}].

Definition release_rules : list Rule := [
  on (exactly ["ReleaseNotCosigned"]) (reported rep_if_repeats
    (say "Writz hasn't co-signed the release yet." "Your BTC is still locked and safe." "Try again in a minute."));
  on (seq_of [Start; lit "ReleaseMismatch"]) (reported rep_always
    (say "The release Writz prepared doesn't match this loan, so it was not sent to your wallet."
      "Your BTC is still locked and safe." "Don't retry."));
  on (exactly ["LoanNotRepaid"]) (say "This loan still has debt, so its BTC can't be released yet."
    "Your BTC is still locked and safe." "Repay the loan in full, then release.");
  on (lit "Broadcast failed") (reported rep_if_repeats
    (say "Bitcoin rejected the release." "Your BTC is still locked." "Try again."));
  on (lit "Bitcoin hasn't seen this transaction yet") (say "Bitcoin hasn't seen this transaction yet." ""
    "If Xverse shows it as sent, wait a few more minutes and try again.");
  on (lit "does not pay your deposit address")
    (say "This transaction doesn't pay a Writz lock address for this Bitcoin wallet." "Nothing was sent." "Check the ID.")].

Definition lend_rules : list Rule := [
  {| match_ := exactly ["InsufficientLiquidity"]; contract_ := None; build ctx _ _ :=
       match present (ec_availableUsdc ctx) with
       | None => say "The pool doesn't have enough USDC for this right now." "No USDC moved." "Enter a smaller amount."
       | Some available =>
           if flow_is ctx f_withdraw
           then say ("Only " +:+ available +:+ " USDC can be withdrawn now because borrowers are using the rest.")
                  "No USDC moved." ("Enter " +:+ available +:+ " or less, or try later.")
           else say ("The pool has " +:+ available +:+ " USDC available right now.")
                  "No USDC moved." ("Enter " +:+ available +:+ " or less.")
       end |};
  of_contract writz_lend (exactly ["ExceedsCollateralRatio"])
    (say "That would take this loan below the 150% borrow limit at the current BTC price." "No USDC moved."
      "Enter a smaller amount.");
  of_contract writz_lend (exactly ["ExposureCapExceeded"])
    (say "The pool has reached its borrowing limit for now." "No USDC moved." "Enter a smaller amount, or try again later.");
  of_contract writz_lend (exactly ["TimelockTooSoon"])
    (say "This deposit's Bitcoin lock opens in less than about 30 days, too soon to borrow against."
      "No USDC moved. Your BTC is safe in its lock."
      "Repay what this loan owes, or make a new deposit with a later lock date to borrow.");
  of_contract writz_lend (exactly ["StaleBitcoinTip"]) (reported rep_if_repeats
    (say "Writz can't confirm the latest Bitcoin block right now." "No USDC moved." "Try again in a few minutes."));
  of_contract writz_lend (exactly ["RepayExceedsDebt"])
    (say "That's more than this loan owes right now." "No USDC moved." "Refresh the loan and try again.");
  of_contract writz_lend (exactly ["OraclePriceUnavailable"; "OraclePriceStale"])
    (say "The BTC price is unavailable right now." "Nothing changed." "Try again in a few minutes.");
  of_contract writz_lend (exactly ["PositionNotFound"])
    (say "This loan isn't on Stellar yet." "Nothing changed."
      "If your deposit just finished, wait a minute and try again.");
  of_contract writz_lend (exactly ["PositionNotActive"])
    (say "This loan is already closed." "Nothing changed." "Refresh the loan to see where it stands.");
  of_contract writz_lend (exactly ["PositionAlreadyExists"])
    (say "This Bitcoin transaction is already recorded as a deposit." "Your BTC is safe in its lock."
      "Select Find my loans to load it.");
  of_contract writz_lend (exactly ["InvalidKeyProof"])
    (say "The Bitcoin signature doesn't match the key this deposit is locked to."
      "Nothing changed. Your BTC is safe in its lock." "Connect the Bitcoin wallet that sent this deposit, then try again.");
  of_contract writz_lend (exactly ["DepositTooSmall"])
    (say "This deposit is below the minimum Writz accepts." "Your BTC is safe in its lock."
      "Reclaim it after its lock date, then deposit at least the minimum.");
  of_contract writz_lend (exactly ["OutputNotFound"; "ScriptPubKeyMismatch"; "InvalidScriptPubKey"; "InvalidUserPubkey";
      "InvalidTimelock"; "UserKeyIsProtocolKey"]) (reported rep_if_repeats
    (say "Stellar didn't accept this deposit: it doesn't match a Writz lock for your Bitcoin key."
      "Nothing changed. Your BTC is safe in its lock." "Check that the connected Bitcoin wallet sent this deposit."));
  of_contract writz_lend (exactly ["SpvVerificationFailed"; "Overflow"]) BTC_DATA_CHECK;
  on (exactly ["Paused"])
    (say "Writz is paused for maintenance." "Nothing moved. Your BTC stays in its lock." "Try again later.");
  {| match_ := exactly ["InsufficientSupply"]; contract_ := Some writz_lend; build ctx _ _ :=
       match present (ec_ownBalanceUsdc ctx) with
       | Some own => say ("Your balance is " +:+ own +:+ " USDC.") "No USDC moved." "Enter that or less."
       | None => say "That's more than your balance." "No USDC moved." "Enter a smaller amount."
       end |};
  on (exactly ["Unauthorized"])
    (say "The connected wallet doesn't own this loan." "Nothing changed." "Switch to the Stellar wallet you deposited with.");
  of_contract writz_lend (exactly ["NotInitialized"])
    (say ("Writz on " +:+ NETWORK +:+ " isn't ready right now.") "Nothing was sent." "Try again later.")].

Definition spv_rules : list Rule := [
  of_contract bitcoin_spv (exactly ["InsufficientConfirmations"])
    (let m := dp_minConfirmations config in
     say ("Your Bitcoin transaction has fewer than " +:+ z_to_string m +:+ " confirmation" +:+
          (if m =? 1 then "" else "s") +:+ ".")
       "Your BTC is safe. Don't send BTC again." ("Wait until it reaches " +:+ z_to_string m +:+ ", then try again."));
  of_contract bitcoin_spv (exactly ["MerkleProofInvalid"]) (reported rep_if_repeats
    (say "Your transaction couldn't be matched to its Bitcoin block yet." "Your BTC is safe. Don't send BTC again."
      "Wait for one more confirmation and try again."));
  of_contract bitcoin_spv (exactly ["NoHeaders"; "HeaderChainBroken"; "InvalidHeaderSlice"; "EmptyTransaction";
      "InsufficientProofOfWork"; "InvalidDifficultyBits"; "DifficultyBelowCheckpointFloor"; "ZeroMinConfirmations"])
    BTC_DATA_CHECK;
  of_contract bitcoin_spv (exactly ["NotInitialized"; "CheckpointNotSet"]) NOT_READY].

(** [/status code 5\d\d|\b(502|503|504) (Bad Gateway|...)\b/i] *)
Definition unreachable : re := Alt
  (seq_of [lit_i "status code 5"; Chr is_digit; Chr is_digit])
  (seq_of [Bound; alt_of [lit "502"; lit "503"; lit "504"]; lit " ";
           alt_of [lit_i "Bad Gateway"; lit_i "Service Unavailable"; lit_i "Gateway Timeout"]; Bound]).

Definition submission_rules : list Rule := [
  on (lit "TxLockBusy") (say "Waiting for your other transaction." "" "Try again when it finishes.");
  on (lit "SubmissionThrottled")
    (say (NETWORK +:+ " is busy and didn't accept the transaction.") "Nothing moved." "Try again in a minute.");
  on (lit "ConfirmationTimedOut")
    (say "Your transaction was sent but isn't confirmed yet. It may still go through." "Don't send it again."
      "Refresh in a minute and check your balance.");
  on (lit "Transaction rejected by the network")
    (say (NETWORK +:+ " rejected the transaction.") "Nothing moved." "Try again.");
  on unreachable (say ("Can't reach " +:+ NETWORK +:+ " right now.") "Your funds are not affected." "Try again.")].

Definition vault_rules : list Rule := [
  on (lit "AmountNotAllowed") (say "Enter an amount above 0." "No USDC moved." "");
  {| match_ := lit "InsufficientAmount"; contract_ := None; build ctx _ _ :=
       say (if flow_is ctx f_earn_deposit then "That amount is too small for the vault."
            else "That amount is below the vault's minimum.") "No USDC moved." "Enter a larger amount." |};
  on (lit "AmountOverTotalSupply") (say "That's more than your vault balance." "No USDC moved."
    "Refresh to see your current balance, then try again.");
  on (lit "InsufficientOutputAmount")
    (say "The vault's share price moved, and you would have received less than expected." "Nothing was withdrawn."
      "Try again.");
  {| match_ := Alt (lit "StrategyPaused") (lit "StrategyPausedOrNotFound"); contract_ := None; build ctx _ _ :=
       say ("The vault's Blend strategy is paused, so it can't " +:+
            (if flow_is ctx f_earn_withdraw then "process withdrawals" else "take deposits") +:+ " right now.")
         "Your balance is safe." "Try again later." |};
  on (Alt (lit "StrategyWithdrawError") (lit "StrategyInvestError")) (reported rep_if_repeats
    (say "Blend couldn't process this." "Nothing moved." "Try again."));
  on (Alt (lit "StrategyDoesNotSupportAsset") (lit "WrongAssetAddress")) (reported rep_always
    (say "This app is set up with the wrong asset for the vault." "Nothing moved." ""));
  on (lit "Transaction failed on-chain")
    (say ("The transaction failed on " +:+ NETWORK +:+ ".") "Nothing moved." "Try again.")].

Definition RULES : list Rule :=
  wallet_rules ++ relayer_rules ++ release_rules ++ lend_rules ++ spv_rules ++ submission_rules ++ vault_rules.

Definition fallback (ctx : ErrorContext) : Parts :=
  if flow_is ctx f_read
  then say ("Can't reach " +:+ NETWORK +:+ " right now.") "Your funds are not affected." "Try again in a minute."
  else reported rep_if_repeats
    (say "Something went wrong and the action may not have gone through." "" "Refresh the page before trying again.").

(** The first rule that applies. *)
Fixpoint find_rule (contract : option ContractFailure) (subject : string) (rules : list Rule) : option Rule :=
  match rules with
  | [] => None
  | rule :: rules =>
      let other := match contract_ rule, contract with
                   | Some c, Some f => negb (bool_decide (c = cf_contract f))
                   | _, _ => false
                   end in
      if other then find_rule contract subject rules
      else if test (match_ rule) subject then Some rule else find_rule contract subject rules
  end.

Context (ids : ContractIds).

(** The failure of the lending contracts a raw message tells of. *)
Definition contract_of (raw : string) (ctx : ErrorContext) : option ContractFailure :=
  if flow_is ctx f_earn_deposit || flow_is ctx f_earn_withdraw then None
  else resolveContractError raw ids writz_lend.

Definition describeError (error : AppError) (ctx : ErrorContext) : FriendlyError :=
  let raw := app_message error in
  let contract := contract_of raw ctx in
  let subject := default raw (contract ≫= cf_variant) in
  {| fe_parts := match find_rule contract subject RULES with
                 | Some rule => build rule ctx subject error
                 | None => fallback ctx
                 end;
     fe_raw := raw; fe_contract := contract |}.

Definition GITHUB_ISSUES_URL : string := "https://github.com/WritzProtocol/writz/issues".

(** [list.filter(Boolean).join(" ")] *)
Definition joined_parts (l : list (option string)) : string :=
  match omap (λ o, present o) l with
  | [] => ""
  | p :: ps => fold_left (λ acc q, acc +:+ " " +:+ q) ps p
  end.

Definition humanizeError (error : AppError) (ctx : ErrorContext) : string :=
  let e := fe_parts (describeError error ctx) in
  let rep := match report e with
             | Some rep_always => Some ("Report it on GitHub: " +:+ GITHUB_ISSUES_URL +:+ ".")
             | Some rep_if_repeats => Some ("If it keeps happening, report it on GitHub: " +:+ GITHUB_ISSUES_URL +:+ ".")
             | None => None
             end in
  joined_parts [Some (headline e); safety e; action e; rep].
End catalogue.

(** ** The contract named is the one that failed *)

(** A line of the host's log: an error event of a contract. *)
Definition event_text (id : list ascii) (code : Z) : list ascii :=
  chars "contract:" ++ id ++ chars ", topics:[error, Error(Contract, #" ++ dec_chars code ++ chars ")]".

(** A contract's address. *)
Definition is_contract_id (id : list ascii) : Prop :=
  length id = 56%nat ∧ head id = Some "C"%char ∧ forallb is_base32 id = true.

(** Text in which no error event starts, whatever follows it. *)
Fixpoint inert (t : list ascii) : Prop :=
  match t with [] => True | c :: t' => (∀ rest, event_here (c :: t' ++ rest) = None) ∧ inert t' end.

(** A log, newest first: some text, and then an error event. *)
Definition log_text (log : list (list ascii * (list ascii * Z))) (post : list ascii) : list ascii :=
  (log ≫= λ e, e.1 ++ event_text e.2.1 e.2.2) ++ post.

Definition log_wf (log : list (list ascii * (list ascii * Z))) : Prop :=
  Forall (λ e, inert e.1 ∧ is_contract_id e.2.1 ∧ 0 ≤ e.2.2) log.

Lemma literal_app w cs : literal w (w ++ cs) = Some cs.
Proof. induction w as [|c w IH]; [by destruct cs|]. simpl. by rewrite Ascii.eqb_refl. Qed.

Lemma digits_of_app ds c cs :
  forallb is_digit ds = true → is_digit c = false → digits_of (ds ++ c :: cs) = (ds, c :: cs).
Proof.
  intros Hds Hc. induction ds as [|d ds IH]; simpl in *; [by rewrite Hc|]. bools. rewrite H. by rewrite IH.
Qed.

Lemma event_text_read id code rest :
  is_contract_id id → 0 ≤ code → event_here (event_text id code ++ rest) = Some (id, dec_chars code, rest).
Proof.
  intros (Hl & Hhead & Hid) Hcode. unfold event_here, event_text. rewrite <- !app_assoc, literal_app. simpl.
  assert (∀ l, skip_spaces (id ++ l) = id ++ l) as ->.
  { intros l. destruct id as [|c id]; [done|]. simpl in *. injection Hhead as ->. done. }
  rewrite take_app_exact, drop_app_exact by done. rewrite Hl, Hid, !bool_decide_true by done. cbn [andb negb].
  unfold code_here. simpl. destruct (dec_chars_spec code Hcode) as [_ Hd].
  rewrite (digits_of_app _ ")"%char) by done. rewrite bool_decide_false by apply dec_chars_nonempty. done.
Qed.

Lemma inert_scan t n rest : inert t → events_from (length t + n) (t ++ rest) = events_from n rest.
Proof. induction t as [|c t IH]; [done|]. intros [Hc Ht]. cbn [length Nat.add app events_from]. rewrite Hc. by apply IH. Qed.

(** The matches in a log are its events, in order. *)
Lemma log_events log post n :
  log_wf log → inert post → (length (log_text log post) ≤ n)%nat →
  events_from n (log_text log post) = map (λ e, (e.2.1, dec_chars e.2.2)) log.
Proof.
  intros Hlog Hpost. revert n. unfold log_text.
  induction Hlog as [|[pre [id code]] log (Hpre & Hid & Hcode) _ IH]; intros n Hn; simpl in *.
  - pose proof (inert_scan post (n - length post) [] Hpost) as Hs. rewrite app_nil_r, Nat.add_comm, Nat.sub_add in Hs by lia.
    rewrite Hs. by destruct (n - length post)%nat.
  - rewrite <- !app_assoc in *. rewrite !length_app in Hn.
    set (rest := (log ≫= λ e, e.1 ++ event_text e.2.1 e.2.2) ++ post) in *.
    assert (0 < length (event_text id code))%nat by (unfold event_text; rewrite !length_app; simpl; lia).
    replace n with (length pre + S (n - length pre - 1))%nat by lia. rewrite inert_scan by done.
    cbn [events_from]. rewrite event_text_read by done. f_equal. apply IH.
    pose proof (length_app (log ≫= λ e, e.1 ++ event_text e.2.1 e.2.2) post) as Hrest. change (length rest ≤ n - length pre - 1)%nat.
    change (length rest = length (list_bind _ _ (λ e : list ascii * (list ascii * Z), e.1 ++ event_text e.2.1 e.2.2) log) + length post)%nat in Hrest.
    lia.
Qed.

(** What the tables say of a code raised by the contract with this id. *)
Definition blamed (ids : ContractIds) (id : list ascii) (code : Z) : option ContractFailure :=
  if bool_decide (of_chars id = id_bitcoinSpv ids) then Some (failure bitcoin_spv code)
  else if bool_decide (of_chars id = id_writzLend ids) then Some (failure writz_lend code) else None.

(** Of a failure that the host logged, newest first, the app names the
    contract that raised it, the one at the bottom of the log, with its code and
    the name its table gives it, whatever other contracts the failure passed
    through; a contract it has no table for is never taken for one of its own. *)
Theorem raising_contract_is_named ids bare log id code pre post :
  log_wf log → inert pre → inert post → is_contract_id id → 0 ≤ code →
  resolveContractError (of_chars (log_text (log ++ [(pre, (id, code))]) post)) ids bare = blamed ids id code.
Proof.
  intros Hlog Hpre Hpost Hid Hcode. destruct (dec_chars_spec code Hcode) as [Hv Hd].
  unfold resolveContractError, error_events. rewrite chars_of_chars.
  rewrite (log_events (log ++ [(pre, (id, code))]) post); [|apply Forall_app; split; [done|by apply Forall_singleton]|done|].
  - rewrite map_app. cbn [map]. rewrite last_snoc. simpl. by rewrite Hv.
  - rewrite <- chars_length, chars_of_chars. lia.
Qed.

(** Every code of the lending contract that its calls from the app may raise has
    words of its own, read from the bare host error, on every flow but the
    vault's; the others are of the admin's calls, of liquidators, and the share
    too small to count. *)
Definition unexplained : list string :=
  ["AlreadyInitialized"; "PositionHealthy"; "InvalidProtocolPubkey"; "ZeroShareAmount"; "InvalidDepositParams";
   "InvalidEntryTtl"; "LiquidationWindowClosed"; "InvalidTimelockParams"].

Definition host_error (code : Z) : string := "HostError: Error(Contract, #" +:+ z_to_string code +:+ ")".

Lemma lending_codes_are_explained config ids ctx code variant :
  (code, variant) ∈ WritzLendError → flow_is ctx f_earn_deposit = false → flow_is ctx f_earn_withdraw = false →
  let e := describeError config ids (AnyError (JsError (host_error code))) ctx in
  fe_contract e = Some {| cf_contract := writz_lend; cf_code := code; cf_variant := Some variant |} ∧
  (variant ∉ unexplained →
    ∃ rule, find_rule (fe_contract e) variant (RULES config) = Some rule ∧
      fe_parts e = build rule ctx variant (AnyError (JsError (host_error code)))).
Proof.
  intros Hin H1 H2. unfold describeError, contract_of. rewrite H1, H2. cbn [orb fe_contract fe_parts app_message errorMessage].
  assert (resolveContractError (host_error code) ids writz_lend =
    Some {| cf_contract := writz_lend; cf_code := code; cf_variant := Some variant |}) as ->.
  { unfold resolveContractError. repeat (apply elem_of_cons in Hin as [[= -> ->]|Hin]; [vm_compute; reflexivity|]).
    by apply elem_of_nil in Hin. }
  split; [done|]. intros Hne. set (f := {| cf_contract := writz_lend; cf_code := code; cf_variant := Some variant |}).
  change (default (host_error code) (Some f ≫= cf_variant)) with variant.
  enough (is_Some (find_rule (Some f) variant (RULES config))) as [rule ->] by (by exists rule).
  repeat (apply elem_of_cons in Hin as [[= -> ->]|Hin];
    [first [exfalso; apply Hne; by apply (bool_decide_unpack _)|vm_compute; eexists; reflexivity]|]).
  by apply elem_of_nil in Hin.
Qed.

(** What was submitted and not confirmed is never called undone. *)
Lemma timed_out_is_not_undone config ids ctx :
  safety (fe_parts (describeError config ids (AnyError (JsError "ConfirmationTimedOut")) ctx)) = Some "Don't send it again.".
Proof.
  unfold describeError, contract_of. destruct (flow_is ctx f_earn_deposit || flow_is ctx f_earn_withdraw); vm_compute; reflexivity.
Qed.

Module Demo.
Definition config : Deploy := {| dp_networkPassphrase := TESTNET; dp_onTestnet := true; dp_minConfirmations := 1 |}.
Definition SPV : string := "CB2BD6QCSZVNZN5NLI7C5NF356WXVJDSXT6LVAQFWHHS4SZ4NCKKNIVA".
Definition LEND : string := "CCMSOCBVX2S645MQFFXJRHVHRWH2NY62KLOJXNDYFOJRYHIC47EO6ZZK".
Definition ids : ContractIds := {| id_writzLend := LEND; id_bitcoinSpv := SPV |}.
Definition ctx (f : ErrorFlow) : ErrorContext :=
  {| ec_flow := Some f; ec_availableUsdc := None; ec_ownBalanceUsdc := None |}.
Definition err (s : string) : AppError := AnyError (JsError s).
Definition code (n : Z) : AppError :=
  err ("Transaction simulation failed: HostError: Error(Contract, #" +:+ z_to_string n +:+ ")").

Example declined : humanizeError config ids (AnyError (SignatureRejectedError bitcoin None)) (ctx f_deposit) =
  "You declined in Xverse. Nothing was sent. Sign again when you're ready.".
Proof. vm_compute. reflexivity. Qed.

Example wrong_network_words : humanizeError config ids (WrongNetworkError PUBLIC (Some "Freighter")) (ctx f_borrow) =
  "Your wallet is on Stellar mainnet. Writz runs on Stellar testnet. Nothing was sent. Switch network in Freighter, then try again.".
Proof. vm_compute. reflexivity. Qed.

Example unknown_code : fe_parts (describeError config ids (code 99) (ctx f_borrow)) = fallback config (ctx f_borrow).
Proof. vm_compute. reflexivity. Qed.

(** A deposit whose proof the light client refused, as the host logs it. *)
Definition newline : ascii := "010"%char.
Definition first_line : list ascii :=
  chars "HostError: Error(Contract, #2)" ++ [newline; newline] ++ chars "   0: [Diagnostic Event] ".
Definition second_line : list ascii :=
  chars ", data: escalated" ++ [newline] ++ chars "   1: [Diagnostic Event] ".
Definition last_line : list ascii :=
  chars ", data: []" ++ [newline] ++ chars "   2: [Diagnostic Event] contract:" ++ chars LEND ++ chars ", topics:[fn_call]".

Lemma lines_inert : inert first_line ∧ inert second_line ∧ inert last_line.
Proof. split_and!; repeat (split; [intros rest; reflexivity|]); exact I. Qed.

Lemma raising_contract_is_named_witness :
  resolveContractError (of_chars (log_text ([(first_line, (chars LEND, 2))] ++ [(second_line, (chars SPV, 2))]) last_line))
    ids writz_lend =
  Some {| cf_contract := bitcoin_spv; cf_code := 2; cf_variant := Some "InsufficientConfirmations" |}.
Proof.
  destruct lines_inert as (H1 & H2 & H3).
  rewrite (raising_contract_is_named ids writz_lend [(first_line, (chars LEND, 2))] (chars SPV) 2 second_line last_line).
  - reflexivity.
  - apply Forall_singleton. split_and!; [done|split_and!; reflexivity|done].
  - exact H2.
  - exact H3.
  - split_and!; reflexivity.
  - lia.
Defined.

(** A supply or a withdrawal too small to count is refused by the contract with
    a code that has no words: the message does not say that nothing moved. *)
Lemma tiny_amount_has_no_words :
  fe_contract (describeError config ids (code 26) (ctx f_lend)) =
    Some {| cf_contract := writz_lend; cf_code := 26; cf_variant := Some "ZeroShareAmount" |} ∧
  fe_parts (describeError config ids (code 26) (ctx f_lend)) = fallback config (ctx f_lend) ∧
  safety (fallback config (ctx f_lend)) = None.
Proof. split_and!; vm_compute; reflexivity. Qed.
End Demo.
