(* ===== verification/StatusReads.v ===== *)
(** * Reading a loan's status ([frontend/app/src/lib/status/source.ts], [client.ts], [store.ts])

    Which reads a refresh issues, what each one makes of the answers of
    Esplora, the relayer and the contracts, and the store that keeps the
    derived status while refreshes overlap. A read that rejects is [None]. *)

From S2P Require Import Prelude JsData JsMap JsDate JsJson CctpNet Esplora SpvProof ProofCache ProofRoute LendRates AppStore LoanStatus.

(** ** The reads of a refresh ([source.ts]) *)

Record Confirmations : Type := { cf_confirmations : option Z; cf_minConfirmations : option Z }.

(** The methods of [StatusSource] and [RelayerSource], with their arguments. *)
Inductive StatusRead : Type :=
| rd_position (btcTxid : string)
| rd_release_psbt (btcTxid : string)
| rd_oracle_price
| rd_tip
| rd_tx (txid : string)
| rd_outspend (txid : string) (vout : Z)
| rd_confirmations (btcTxid : string)
| rd_liquidation (btcTxid : string) (since : Z).

Definition answer_of (r : StatusRead) : Type :=
  match r with
  | rd_position _ => option ChainPosition
  | rd_release_psbt _ => bool
  | rd_oracle_price | rd_tip => Z
  | rd_tx _ => BtcTxView
  | rd_outspend _ _ => Outspend
  | rd_confirmations _ => Confirmations
  | rd_liquidation _ _ => LiquidationLookup
  end.

(** What each read gives when a refresh issues it. *)
Definition StatusSource : Type := ∀ r : StatusRead, option (answer_of r).

(** A computation that issues reads: its result and the reads, in order. *)
Definition reads (A : Type) : Type := StatusSource → A * list StatusRead.

#[global] Instance reads_ret : MRet reads := λ A a src, (a, []).
#[global] Instance reads_bind : MBind reads := λ A B f m src,
  let '(a, l1) := m src in let '(b, l2) := f a src in (b, l1 ++ l2).

(** [settle(source.r())] *)
Definition ask (r : StatusRead) : reads (option (answer_of r)) := λ src, (src r, [r]).

Definition no_chain : ChainReads := {|
  cr_position := None; cr_releasePsbtReady := None; cr_oraclePriceStroops := None; cr_btcTipHeight := None;
  cr_depositTx := None; cr_lockOutspend := None |}.
Definition no_relayer : RelayerIndex :=
  {| ri_minConfirmations := None; ri_confirmations := None; ri_liquidation := None |}.

(** The reads of a deposit in progress. *)
Definition deposit_reads (pd : PendingDeposit) : reads (ChainReads * RelayerIndex) :=
  tx ← ask (rd_tx (pd_btcTxid pd));
  tip ← ask rd_tip;
  position ← ask (rd_position (pd_btcTxid pd));
  conf ← ask (rd_confirmations (pd_btcTxid pd));
  mret ({| cr_position := position; cr_releasePsbtReady := None; cr_oraclePriceStroops := None;
           cr_btcTipHeight := tip; cr_depositTx := tx; cr_lockOutspend := None |},
        {| ri_minConfirmations := conf ≫= cf_minConfirmations; ri_confirmations := conf ≫= cf_confirmations;
           ri_liquidation := None |}).

(** [cond ? settle(source.r()) : undefined] *)
Definition ask_if (cond : bool) (r : StatusRead) : reads (option (answer_of r)) :=
  if cond then ask r else mret None.

Definition has_status (s : ChainPositionStatus) (position : option (option ChainPosition)) : bool :=
  bool_decide ((cp_status <$> default None position) = Some s).

(** The reads of a position. *)
Definition position_reads (p : Position) : reads (ChainReads * RelayerIndex) :=
  position ← ask (rd_position (txid p));
  tip ← ask rd_tip;
  outspend ← match vout p with Some v => ask (rd_outspend (txid p) v) | None => mret None end;
  price ← ask_if (has_status active position && (0 <? default 0 (cp_debtStroops <$> default None position)))
                 rd_oracle_price;
  releaseReady ← ask_if (has_status closed position) (rd_release_psbt (txid p));
  liquidation ← ask_if (has_status liquidated position) (rd_liquidation (txid p) (createdAt p));
  mret ({| cr_position := position; cr_releasePsbtReady := releaseReady; cr_oraclePriceStroops := price;
           cr_btcTipHeight := tip; cr_depositTx := None; cr_lockOutspend := outspend |},
        {| ri_minConfirmations := None; ri_confirmations := None; ri_liquidation := liquidation |}).

Definition readStatusInputs (local : LocalInputs) (params : StatusParams) : reads StatusInputs :=
  r ← match li_position local, li_pendingDeposit local with
      | Some p, _ => position_reads p
      | None, Some pd => deposit_reads pd
      | None, None => mret (no_chain, no_relayer)
      end;
  mret {| si_local := local; si_chain := r.1; si_relayer := Some r.2; si_params := params |}.

Definition read_inputs (local : LocalInputs) (src : StatusSource) (params : StatusParams) : StatusInputs :=
  (readStatusInputs local params src).1.

(** ** The client's reads ([client.ts]) *)

Section client.

(** [fetch]: [None] when it rejects, else the status and the body's text. *)
Definition Response : Type := Z * string.

(** [value.k]: reading a property of null throws. *)
Definition prop (k : string) (j : Json) : option (option Json) :=
  match j with
  | j_null => None
  | j_object fields => Some (map_get k fields)
  | _ => Some None
  end.

Definition json_truthy (v : option Json) : bool :=
  match v with
  | None | Some j_null | Some (j_bool false) => false
  | Some (j_string s) => negb (bool_decide (s = ""))
  | Some (j_number z) => negb (z =? 0)
  | Some (j_decimal t) => match number_parts (chars t) with Some (m, _) => negb (m =? 0) | None => true end
  | Some _ => true
  end.

(** A field at the type the code casts it to; undefined and null are [None]. *)
Definition as_number (v : option Json) : option Z := match v with Some (j_number z) => Some z | _ => None end.
Definition as_string (v : option Json) : option string := match v with Some (j_string s) => Some s | _ => None end.

Definition json_of (res : Response) : option Json :=
  if res_ok res.1 then JSON_parse res.2 else None.

(** *** Esplora *)

Context (apiUrl : string) (get : string → option Response).

Definition getBtcTipHeight : option Z :=
  res ← get (apiUrl +:+ "/blocks/tip/height");
  if res_ok res.1 then parseInt10 res.2 else None.

Definition getBtcTx (txid : string) : option BtcTxView :=
  res ← get (apiUrl +:+ "/tx/" +:+ txid +:+ "/status");
  if res.1 =? 404 then Some tx_not_seen else
  s ← json_of res;
  confirmed ← prop "confirmed" s;
  block_height ← prop "block_height" s;
  Some (tx_seen (if json_truthy confirmed then as_number block_height else None)).

Definition getOutspend (txid : string) (vout : Z) : option Outspend :=
  res ← get (apiUrl +:+ "/tx/" +:+ txid +:+ "/outspend/" +:+ z_to_string vout);
  o ← json_of res;
  spent ← prop "spent" o;
  by_ ← prop "txid" o;
  st ← prop "status" o;
  match (if json_truthy spent then present (as_string by_) else None) with
  | None => Some unspent
  | Some t =>
      Some (spent_by t (match st with Some (j_object _ as st) => match prop "confirmed" st with
                          | Some c => json_truthy c | None => false end | _ => false end))
  end.

(** *** The relayer's index, from today's endpoints and RPC *)

Definition confirmations (relayerUrl btcTxid : string) : option Confirmations :=
  if bool_decide (relayerUrl = "") then None else
  res ← get (relayerUrl +:+ "/spv-proof/" +:+ btcTxid);
  if res.1 =? 404 then Some {| cf_confirmations := Some 0; cf_minConfirmations := None |}
  else if res.1 =? 409 then
    body ← JSON_parse res.2;
    available ← prop "available" body;
    requested ← prop "requested" body;
    Some {| cf_confirmations := Some (default 0 (as_number available)); cf_minConfirmations := as_number requested |}
  else
    bundle ← json_of res;
    n ← prop "confirmations" bundle;
    Some {| cf_confirmations := as_number n; cf_minConfirmations := None |}.

(** [None]: NaN. *)
Definition closeTimeMs (t : string) : option Z :=
  if negb (bool_decide (t = "")) && string_forall is_digit t then Some (dec_value (chars t) * 1000) else Date_parse t.

(** [rpc.Server]: [getHealth]'s oldest ledger, and the answer of [getEvents]
    from a ledger, of a contract's liquidation of a txid: the transactions'
    hashes and the close time of the oldest ledger kept. *)
Record LiquidationEventsServer : Type := {
  getHealth : option Z;
  getEvents : Z → string → list byte → option (list string * string);
}.

Definition liquidation (server : LiquidationEventsServer) (contractId : option string) (btcTxid : string) (since : Z) :
    option LiquidationLookup :=
  oldestLedger ← getHealth server;
  contract ← contractId;
  res ← getEvents server oldestLedger contract (internalTxid btcTxid);
  match res.1 with
  | hash :: _ => Some (lookup_found hash)
  | [] => Some (lookup_missing (match closeTimeMs res.2 with Some t => t <=? since | None => false end))
  end.
End client.

(** ** The contract and oracle reads
    ([contracts/writzLend.ts], [contracts/oracle.ts]) *)

Definition MAX_PRICE_AGE_SECS : Z := 3600.
Definition USDC_DECIMALS : Z := 7.

Definition priceToStroops (price timestamp decimals nowSecs : Z) : result string Z :=
  if MAX_PRICE_AGE_SECS <? nowSecs - timestamp then Err "OraclePriceStale"
  else
    let stroops :=
      if USDC_DECIMALS <=? decimals then price ÷ 10 ^ (decimals - USDC_DECIMALS)
      else price * 10 ^ (USDC_DECIMALS - decimals) in
    if stroops <=? 0 then Err "OraclePriceUnavailable" else Ok stroops.

(** What the network answers during a refresh: the contract's calls, the
    oracle's [lastprice] and [decimals], and the two HTTP hosts. *)
Record AppNet : Type := {
  an_get_position : string → list byte → option (option RawPosition);
  an_get_protocol_state : string → option RateState;
  an_latestLedger : option Z;
  an_get_release_psbt : string → list byte → option (option (list byte));
  an_lastprice : string → option (option (Z * Z));
  an_decimals : string → option Z;
  an_esplora : string → option Response;
  an_relayer : string → option Response;
  an_server : LiquidationEventsServer;
  an_now : Z;
}.

(** [config]; a contract that is not configured is [None]. *)
Record AppConfig : Type := {
  ac_esploraUrl : string;
  ac_relayerUrl : string;
  ac_writzLend : option string;
  ac_btcOracle : option string;
}.

Section source.
Context (config : AppConfig) (net : AppNet).

Definition readPosition (txidDisplay : string) : option (option ChainPosition) :=
  writzLendId ← ac_writzLend config;
  pos ← an_get_position net writzLendId (internalTxid txidDisplay);
  proto ← an_get_protocol_state net writzLendId;
  ledger ← an_latestLedger net;
  Some ((λ raw, toChainPosition raw proto ledger) <$> (pos : option RawPosition)).

Definition getReleasePsbt (txidDisplay : string) : option (option (list byte)) :=
  writzLendId ← ac_writzLend config; an_get_release_psbt net writzLendId (internalTxid txidDisplay).

Definition getBtcPriceStroops : option Z :=
  oracle ← ac_btcOracle config;
  last ← an_lastprice net oracle;
  decimals ← an_decimals net oracle;
  '(price, timestamp) ← last;
  match priceToStroops price timestamp decimals (an_now net / 1000) with Ok p => Some p | Err _ => None end.

Definition createClientStatusSource : StatusSource := λ r,
  match r with
  | rd_position t => readPosition t
  | rd_release_psbt t => (λ psbt, bool_decide (psbt ≠ None)) <$> getReleasePsbt t
  | rd_oracle_price => getBtcPriceStroops
  | rd_tip => getBtcTipHeight (ac_esploraUrl config) (an_esplora net)
  | rd_tx t => getBtcTx (ac_esploraUrl config) (an_esplora net) t
  | rd_outspend t v => getOutspend (ac_esploraUrl config) (an_esplora net) t v
  | rd_confirmations t => confirmations (an_relayer net) (ac_relayerUrl config) t
  | rd_liquidation t since => liquidation (an_server net) (ac_writzLend config) t since
  end.
End source.

(** ** The store ([store.ts]) *)

Definition CHECKING : DerivedStatus := {|
  ds_status := st_checking []; ds_reclaimable := false; ds_timelock := None; ds_syncing := false; ds_onChain := None |}.

Definition position_status_text (s : PositionStatus) : string :=
  match s with p_active => "active" | p_closed => "closed" | p_released => "released" | p_liquidated => "liquidated" end.
Definition step_text (s : DepositStep) : string :=
  match s with
  | step_sent => "sent" | step_confirming => "confirming" | step_ready => "ready" | step_submitted => "submitted"
  end.

(** [parts.join(sep)]; undefined is the empty string. *)
Fixpoint join (sep : string) (parts : list string) : string :=
  match parts with
  | [] => ""
  | [p] => p
  | p :: parts => p +:+ sep +:+ join sep parts
  end.

(** [hashes]: those of the pending Stellar transactions. *)
Definition statusKey (local : LocalInputs) (hashes : list string) : option string :=
  let p := li_position local in
  let pd := li_pendingDeposit local in
  key ← present (or_ (id <$> p) (pd_btcTxid <$> pd));
  Some (join "|" [key;
    default "" ((λ p, position_status_text (status p)) <$> p);
    default "" (p ≫= releaseTxid);
    default "" ((λ pd, step_text (pd_step pd)) <$> pd);
    default "" (pd ≫= pd_stellarTxHash);
    join "," hashes]).

(** A refresh between its start and the end of its reads. *)
Record Refresh : Type := { rf_seq : Z; rf_key : string; rf_local : LocalInputs; rf_now : Z }.

(** [createStatusStore]'s variables and the refreshes under way; [st_called]
    is what the store has told its listeners, which no code reads. *)
Record StatusStore : Type := {
  st_cache : gmap string DerivedStatus;
  st_applied : gmap string Z;
  st_listeners : list nat;
  st_seq : Z;
  st_running : list Refresh;
  st_called : list nat;
}.

Section store.
Context (minConfirmations : Z).

Definition createStatusStore : StatusStore :=
  {| st_cache := ∅; st_applied := ∅; st_listeners := []; st_seq := 0; st_running := []; st_called := [] |}.

Definition get_status (s : StatusStore) (key : string) : DerivedStatus := default CHECKING (st_cache s !! key).

(** [refresh] up to its reads. *)
Definition refresh (key : string) (local : LocalInputs) (now : Z) (s : StatusStore) : StatusStore :=
  let mine := st_seq s + 1 in
  {| st_cache := st_cache s; st_applied := st_applied s; st_listeners := st_listeners s; st_seq := mine;
     st_running := st_running s ++ [{| rf_seq := mine; rf_key := key; rf_local := local; rf_now := now |}];
     st_called := st_called s |}.

Definition derived (r : Refresh) (src : StatusSource) : DerivedStatus :=
  derivePositionStatus (read_inputs (rf_local r) src
    {| sp_minConfirmations := minConfirmations; sp_now := rf_now r |}).

(** The rest, once the reads are in. *)
Definition refreshed (i : nat) (r : Refresh) (src : StatusSource) (s : StatusStore) : StatusStore :=
  let running := delete i (st_running s) in
  if default 0 (st_applied s !! rf_key r) <? rf_seq r then
    {| st_cache := <[rf_key r := derived r src]> (st_cache s);
       st_applied := <[rf_key r := rf_seq r]> (st_applied s);
       st_listeners := st_listeners s; st_seq := st_seq s; st_running := running;
       st_called := st_called s ++ st_listeners s |}
  else
    {| st_cache := st_cache s; st_applied := st_applied s; st_listeners := st_listeners s; st_seq := st_seq s;
       st_running := running; st_called := st_called s |}.

Definition with_listeners (f : list nat → list nat) (s : StatusStore) : StatusStore := {|
  st_cache := st_cache s; st_applied := st_applied s; st_listeners := f (st_listeners s); st_seq := st_seq s;
  st_running := st_running s; st_called := st_called s |}.

Definition subscribe (cb : nat) : StatusStore → StatusStore :=
  with_listeners (λ l, if bool_decide (cb ∈ l) then l else l ++ [cb]).
Definition unsubscribe (cb : nat) : StatusStore → StatusStore := with_listeners (filter (λ x, x ≠ cb)).

(** What the tab may do, with the refresh that lands, if one does. *)
Inductive store_step (s : StatusStore) : option (Refresh * StatusSource) → StatusStore → Prop :=
| store_refresh key local now : store_step s None (refresh key local now s)
| store_refreshed i r src :
    st_running s !! i = Some r → store_step s (Some (r, src)) (refreshed i r src s)
| store_subscribe cb : store_step s None (subscribe cb s)
| store_unsubscribe cb : store_step s None (unsubscribe cb s).

(** A run of the store, with the refreshes that have landed, oldest first. *)
Inductive store_run : list (Refresh * StatusSource) → StatusStore → Prop :=
| run_start : store_run [] createStatusStore
| run_step landed s o s' :
    store_run landed s → store_step s o s' → store_run (landed ++ option_list o) s'.
End store.

(** ** What a refresh reads *)

Definition if_ {A} (b : bool) (o : option A) : option A := if b then o else None.

Lemma ask_if_run b r src : ask_if b r src = (if_ b (src r), if b then [r] else []).
Proof. by destruct b. Qed.

Section run.
Context (src : StatusSource) (p : Position).
Let position := src (rd_position (txid p)).
Let owed : bool := 0 <? default 0 (cp_debtStroops <$> default None position).

Definition position_log : list StatusRead :=
  [rd_position (txid p); rd_tip] ++ match vout p with Some v => [rd_outspend (txid p) v] | None => [] end ++
  (if has_status active position && owed then [rd_oracle_price] else []) ++
  (if has_status closed position then [rd_release_psbt (txid p)] else []) ++
  (if has_status liquidated position then [rd_liquidation (txid p) (createdAt p)] else []).

(** The reads of a position: the loan, the tip and, where the output is known,
    its spending; the price, the release and the liquidation only for a loan
    the contract holds with a debt, as closed, as liquidated. *)
Lemma position_reads_run :
  position_reads p src =
    (({| cr_position := position; cr_releasePsbtReady := if_ (has_status closed position) (src (rd_release_psbt (txid p)));
         cr_oraclePriceStroops := if_ (has_status active position && owed) (src rd_oracle_price);
         cr_btcTipHeight := src rd_tip; cr_depositTx := None;
         cr_lockOutspend := match vout p with Some v => src (rd_outspend (txid p) v) | None => None end |},
      {| ri_minConfirmations := None; ri_confirmations := None;
         ri_liquidation := if_ (has_status liquidated position) (src (rd_liquidation (txid p) (createdAt p))) |}),
     position_log).
Proof.
  unfold position_reads, position_log, mbind, reads_bind, mret, reads_ret, ask. subst position owed.
  destruct (vout p) as [v|]; rewrite !ask_if_run; cbn; by rewrite ?app_nil_r.
Qed.
End run.

Lemma position_inputs local src params p :
  li_position local = Some p →
  readStatusInputs local params src =
    ({| si_local := local; si_chain := (position_reads p src).1.1;
        si_relayer := Some (position_reads p src).1.2; si_params := params |}, position_log src p).
Proof.
  intros Hp. unfold readStatusInputs, mbind, reads_bind. rewrite Hp, position_reads_run. cbn. by rewrite app_nil_r.
Qed.

Lemma deposit_reads_run src pd :
  deposit_reads pd src =
    (({| cr_position := src (rd_position (pd_btcTxid pd)); cr_releasePsbtReady := None;
         cr_oraclePriceStroops := None; cr_btcTipHeight := src rd_tip;
         cr_depositTx := src (rd_tx (pd_btcTxid pd)); cr_lockOutspend := None |},
      {| ri_minConfirmations := src (rd_confirmations (pd_btcTxid pd)) ≫= cf_minConfirmations;
         ri_confirmations := src (rd_confirmations (pd_btcTxid pd)) ≫= cf_confirmations;
         ri_liquidation := None |}),
     [rd_tx (pd_btcTxid pd); rd_tip; rd_position (pd_btcTxid pd); rd_confirmations (pd_btcTxid pd)]).
Proof. done. Qed.

(** The reads of a deposit. *)
Lemma deposit_inputs local src params pd :
  li_position local = None → li_pendingDeposit local = Some pd →
  readStatusInputs local params src =
    ({| si_local := local; si_chain := (deposit_reads pd src).1.1;
        si_relayer := Some (deposit_reads pd src).1.2; si_params := params |},
     [rd_tx (pd_btcTxid pd); rd_tip; rd_position (pd_btcTxid pd); rd_confirmations (pd_btcTxid pd)]).
Proof. intros Hp Hpd. unfold readStatusInputs, mbind, reads_bind. by rewrite Hp, Hpd. Qed.

(** Every read the refresh issued was answered. *)
Definition answered (local : LocalInputs) (src : StatusSource) (params : StatusParams) : Prop :=
  ∀ r, r ∈ (readStatusInputs local params src).2 → is_Some (src r).

Lemma deposit_settles local src params pd missing :
  answered local src params → li_position local = None → li_pendingDeposit local = Some pd →
  ds_status (derivePositionStatus (read_inputs local src params)) ≠ st_checking missing.
Proof.
  intros Ha Hp Hpd. unfold answered, read_inputs in *. rewrite (deposit_inputs _ _ _ _ Hp Hpd) in *. cbn in *.
  destruct (Ha (rd_tx (pd_btcTxid pd))) as [tx Htx]; [set_solver|].
  destruct (Ha rd_tip) as [tip Htip]; [set_solver|].
  destruct (Ha (rd_position (pd_btcTxid pd))) as [pos Hpos]; [set_solver|].
  unfold coreStatus. cbn. rewrite Hp, Hpd. unfold depositStatus, confirmationStatus. cbn.
  rewrite !deposit_reads_run. cbn. rewrite Htx, Htip, Hpos. destruct pos, tx as [|[h|]]; cbn; repeat case_match; simplify_eq/=; done.
Qed.

Lemma position_settles local src params p c missing :
  answered local src params → li_position local = Some p → src (rd_position (txid p)) = Some (Some c) →
  0 ≤ cp_debtStroops c → (vout p = None → present (releaseTxid p) = None) →
  ds_status (derivePositionStatus (read_inputs local src params)) ≠ st_checking missing.
Proof.
  intros Ha Hp Hc Hdebt Hvout. unfold answered, read_inputs in *. rewrite (position_inputs _ _ _ _ Hp) in *.
  cbn [fst snd] in *. unfold position_log in Ha. rewrite Hc in Ha.
  assert (∀ v, vout p = Some v → is_Some (src (rd_outspend (txid p) v))) as Hspent.
  { intros v Hv. apply Ha. rewrite Hv. set_solver. }
  assert (cp_status c = active → cp_debtStroops c ≠ 0 → is_Some (src rd_oracle_price)) as Hprice.
  { intros Hs Hd. apply Ha. unfold has_status. cbn. rewrite Hs. rewrite bool_decide_true by done.
    replace (0 <? cp_debtStroops c) with true by lia. set_solver. }
  clear Ha. unfold derivePositionStatus, coreStatus. cbn. rewrite Hp.
  apply (open_settles _ p c); unfold found; rewrite position_reads_run; cbn; rewrite ?Hc.
  - done.
  - unfold hasBtcDetails. destruct (vout p) as [v|].
    + intros E. destruct (Hspent v eq_refl) as [o Ho]. congruence.
    + intros _. split; [auto|]. by rewrite andb_false_r.
  - intros Hs Hd. unfold has_status. cbn. rewrite Hs, bool_decide_true by done.
    replace (0 <? cp_debtStroops c) with true by lia. by apply Hprice.
Qed.

(** A refresh whose reads are all answered never leaves the status at
    "checking": not for a deposit, and not for a loan the contract holds. *)
Theorem answered_reads_settle local src params missing :
  answered local src params →
  (∀ p, li_position local = Some p →
    (∃ c, src (rd_position (txid p)) = Some (Some c) ∧ 0 ≤ cp_debtStroops c) ∧
    (vout p = None → present (releaseTxid p) = None)) →
  li_position local ≠ None ∨ li_pendingDeposit local ≠ None →
  ds_status (derivePositionStatus (read_inputs local src params)) ≠ st_checking missing.
Proof.
  intros Ha Hp Hlocal. destruct (li_position local) as [p|] eqn:Ep.
  - destruct (Hp p eq_refl) as [(c & Hc & Hd) Hv]. by apply (position_settles _ _ _ p c).
  - destruct (li_pendingDeposit local) as [pd|] eqn:Epd; [by apply (deposit_settles _ _ _ pd)|by destruct Hlocal].
Qed.

(** ** The price is the contract's *)

(** The contract's own reading of the price
    (contracts/writz-lend/src/oracle.rs), with its checked i128 arithmetic. *)
Module Contract.
Inductive OracleError : Type := OraclePriceUnavailable | OraclePriceStale | Overflow.

Definition I128_MAX : Z := 2 ^ 127 - 1.
Definition checked (z : Z) : result OracleError Z :=
  if (- 2 ^ 127 <=? z) && (z <=? I128_MAX) then Ok z else Err Overflow.

Definition get_btc_price_stroops (lastprice : option (Z * Z)) (decimals now : Z) : result OracleError Z :=
  '(price, timestamp) ← of_option lastprice OraclePriceUnavailable;
  if 3600 <? Z.max 0 (now - timestamp) then Err OraclePriceStale else
  stroops ←
    (if 7 <=? decimals
     then divisor ← checked (10 ^ (decimals - 7)); checked (price ÷ divisor)
     else multiplier ← checked (10 ^ (7 - decimals)); checked (price * multiplier));
  if stroops <=? 0 then Err OraclePriceUnavailable else Ok stroops.
End Contract.

Lemma quot_within a d : 0 < d → Z.min a 0 ≤ a ÷ d ≤ Z.max a 0.
Proof.
  intros Hd. destruct (Z.le_gt_cases 0 a).
  - pose proof (Z.quot_pos a d). pose proof (Z.quot_le_upper_bound a d a). nia.
  - pose proof (Z.quot_opp_l a d). pose proof (Z.quot_pos (- a) d). pose proof (Z.quot_le_upper_bound (- a) d (- a)). nia.
Qed.

Lemma quot_over a d : a < d → 0 < d → a ÷ d ≤ 0.
Proof.
  intros Ha Hd. destruct (Z.le_gt_cases 0 a); [rewrite Z.quot_small; lia|]. pose proof (quot_within a d). lia.
Qed.

(** Given the oracle's answer and one clock, the app reads the price exactly
    as the contract does: the same figure, the same refusals; where the
    contract overflows, the app refuses too or shows a price no i128 holds. *)
Theorem price_is_the_contracts price timestamp decimals now :
  - 2 ^ 127 ≤ price ≤ 2 ^ 127 - 1 → 0 ≤ decimals →
  match Contract.get_btc_price_stroops (Some (price, timestamp)) decimals now with
  | Ok p => priceToStroops price timestamp decimals now = Ok p
  | Err Contract.OraclePriceStale => priceToStroops price timestamp decimals now = Err "OraclePriceStale"
  | Err Contract.OraclePriceUnavailable => priceToStroops price timestamp decimals now = Err "OraclePriceUnavailable"
  | Err Contract.Overflow =>
      match priceToStroops price timestamp decimals now with
      | Ok p => Contract.I128_MAX < p
      | Err e => e = "OraclePriceUnavailable"
      end
  end.
Proof.
  intros Hp Hd. unfold Contract.get_btc_price_stroops, priceToStroops, MAX_PRICE_AGE_SECS, USDC_DECIMALS. simpl.
  replace (3600 <? Z.max 0 (now - timestamp)) with (3600 <? now - timestamp) by lia.
  destruct (3600 <? now - timestamp); [done|].
  unfold Contract.checked, Contract.I128_MAX. destruct (7 <=? decimals) eqn:E; bools.
  - assert (0 < 10 ^ (decimals - 7)) as Hpow by (apply Z.pow_pos_nonneg; lia).
    destruct (_ && _) eqn:Ediv; simpl.
    + pose proof (quot_within price _ Hpow).
      replace ((- 2 ^ 127 <=? price ÷ 10 ^ (decimals - 7)) && (price ÷ 10 ^ (decimals - 7) <=? 2 ^ 127 - 1)) with true by lia.
      simpl. by destruct (_ <=? 0).
    + pose proof (quot_over price (10 ^ (decimals - 7))).
      replace (price ÷ 10 ^ (decimals - 7) <=? 0) with true by lia. done.
  - assert (0 < 10 ^ (7 - decimals) ≤ 10 ^ 7) as Hpow.
    { split; [apply Z.pow_pos_nonneg; lia|apply Z.pow_le_mono_r; lia]. }
    replace ((- 2 ^ 127 <=? 10 ^ (7 - decimals)) && (10 ^ (7 - decimals) <=? 2 ^ 127 - 1)) with true by lia. simpl.
    destruct (_ && _) eqn:Emul; simpl; [by destruct (_ <=? 0)|].
    destruct (price * 10 ^ (7 - decimals) <=? 0) eqn:Epos; [done|]. bools. apply andb_false_iff in Emul. lia.
Qed.


(** ** The store *)

(** The refreshes of a key that have landed. *)
Definition landed_for (key : string) (landed : list (Refresh * StatusSource)) (x : Refresh * StatusSource) : Prop :=
  x ∈ landed ∧ rf_key x.1 = key.

(** [x] is the one of them that started last. *)
Definition newest (key : string) (landed : list (Refresh * StatusSource)) (x : Refresh * StatusSource) : Prop :=
  landed_for key landed x ∧ ∀ y, landed_for key landed y → rf_seq y.1 ≤ rf_seq x.1.

(** An image without duplicates comes from one element each. *)
Lemma NoDup_map_inj {A B} (f : A → B) l x y : NoDup (map f l) → x ∈ l → y ∈ l → f x = f y → x = y.
Proof.
  induction l as [|z l IH]; simpl; [by intros _ ?%elem_of_nil|].
  intros [Hz Hl]%NoDup_cons Hx Hy E. apply elem_of_cons in Hx as [->|Hx], Hy as [->|Hy]; try done; [| |by apply IH].
  - destruct Hz. rewrite E. by apply list_elem_of_fmap_2.
  - destruct Hz. rewrite <- E. by apply list_elem_of_fmap_2.
Qed.

Section store_facts.
Context (minConfirmations : Z).
Abbreviation derived := (derived minConfirmations).

(** What the maps hold of a key. *)
Definition key_inv (landed : list (Refresh * StatusSource)) (s : StatusStore) (key : string) : Prop :=
  match st_applied s !! key with
  | None => st_cache s !! key = None ∧ ∀ x, ¬ landed_for key landed x
  | Some n => ∃ x, newest key landed x ∧ rf_seq x.1 = n ∧ st_cache s !! key = Some (derived x.1 x.2)
  end.

Record store_inv (landed : list (Refresh * StatusSource)) (s : StatusStore) : Prop := {
  inv_numbers : NoDup (map rf_seq (map fst landed ++ st_running s));
  inv_seq : 0 ≤ st_seq s;
  inv_started : ∀ r, r ∈ map fst landed ++ st_running s → 0 < rf_seq r ≤ st_seq s;
  inv_keys : ∀ key, key_inv landed s key;
}.

Lemma landed_for_snoc key landed y x :
  landed_for key (landed ++ [y]) x ↔ landed_for key landed x ∨ (x = y ∧ rf_key y.1 = key).
Proof. unfold landed_for. rewrite elem_of_app, list_elem_of_singleton. naive_solver. Qed.

(** A refresh lands. *)
Lemma key_inv_landed landed s i r src key :
  0 < rf_seq r → key_inv landed s key →
  key_inv (landed ++ [(r, src)]) (refreshed minConfirmations i r src s) key.
Proof.
  intros Hpos Hk. unfold refreshed, key_inv in *. destruct (decide (rf_key r = key)) as [<-|Hne].
  - destruct (st_applied s !! rf_key r) as [n|] eqn:Ea; simpl.
    + destruct Hk as (x & [Hx Hmax] & <- & Hc). destruct (rf_seq x.1 <? rf_seq r) eqn:E; bools; simpl.
      * rewrite !lookup_insert_eq. exists (r, src). split_and!; try done. split.
        { apply landed_for_snoc. by right. }
        intros y [Hy|[-> _]]%landed_for_snoc; [|done]. specialize (Hmax y Hy). simpl. lia.
      * rewrite Ea. exists x. split_and!; try done. split; [apply landed_for_snoc; by left|].
        intros y [Hy|[-> _]]%landed_for_snoc; [by apply Hmax|done].
    + destruct Hk as [Hc Hnone]. replace (0 <? rf_seq r) with true by lia. simpl. rewrite !lookup_insert_eq.
      exists (r, src). split_and!; try done. split; [apply landed_for_snoc; by right|].
      intros y [Hy|[-> _]]%landed_for_snoc; [by destruct (Hnone y)|done].
  - assert (∀ x, landed_for key (landed ++ [(r, src)]) x ↔ landed_for key landed x) as Heq.
    { intros x. rewrite landed_for_snoc. naive_solver. }
    assert (∀ x, newest key (landed ++ [(r, src)]) x ↔ newest key landed x) as Hnew.
    { intros x. unfold newest. by setoid_rewrite Heq. }
    destruct (default 0 (st_applied s !! rf_key r) <? rf_seq r); simpl; rewrite ?lookup_insert_ne by done;
      (destruct (st_applied s !! key); [by setoid_rewrite Hnew|by setoid_rewrite Heq]).
Qed.

Lemma refreshed_running i r src s : st_running (refreshed minConfirmations i r src s) = delete i (st_running s).
Proof. unfold refreshed. by destruct (_ <? _). Qed.
Lemma refreshed_seq i r src s : st_seq (refreshed minConfirmations i r src s) = st_seq s.
Proof. unfold refreshed. by destruct (_ <? _). Qed.

Lemma store_run_inv landed s : store_run minConfirmations landed s → store_inv landed s.
Proof.
  induction 1 as [|landed s o s' _ [Hn H0 Hs Hk] Hstep].
  { split; [constructor|done|by intros r ?%elem_of_nil|]. intros key. split; [done|]. intros x [Hx _]. set_solver. }
  destruct Hstep as [key local now|i r src Hi|cb|cb]; simpl; rewrite ?app_nil_r; try by split.
  - split; simpl; [|lia| |exact Hk].
    + rewrite app_assoc, map_app, NoDup_app. split_and!; [done| |apply NoDup_singleton].
      intros n Hin. apply list_elem_of_fmap in Hin as (r & -> & Hr). specialize (Hs r Hr).
      simpl. rewrite list_elem_of_singleton. lia.
    + intros r. rewrite app_assoc, elem_of_app, list_elem_of_singleton.
      intros [Hr| ->]; [specialize (Hs r Hr); lia|]. simpl. lia.
  - assert (map fst (landed ++ [(r, src)]) ++ st_running (refreshed minConfirmations i r src s) ≡ₚ
            map fst landed ++ st_running s) as Hp.
    { rewrite refreshed_running, map_app, <- app_assoc. simpl. by rewrite <- (delete_Permutation _ _ _ Hi). }
    split; rewrite ?refreshed_seq; [by rewrite Hp|done|by setoid_rewrite Hp|].
    intros key. apply key_inv_landed; [|done]. apply (Hs r). apply elem_of_app. right. by eapply list_elem_of_lookup_2.
Qed.

(** What the page shows of a key. *)
Lemma shown_of_key landed s key :
  store_run minConfirmations landed s →
  (get_status s key = CHECKING ∧ ∀ x, ¬ landed_for key landed x) ∨
  ∃ x, newest key landed x ∧ get_status s key = derived x.1 x.2.
Proof.
  intros Hrun. pose proof (inv_keys _ _ (store_run_inv _ _ Hrun) key) as Hk. unfold key_inv, get_status in *.
  destruct (st_applied s !! key) as [n|].
  - destruct Hk as (x & Hx & _ & ->). right. by exists x.
  - destruct Hk as [-> Hx]. by left.
Qed.

(** A change of what is shown is a refresh that landed, and is told to every
    listener. *)
Lemma change_is_told s o s' key :
  store_step minConfirmations s o s' → get_status s' key ≠ get_status s key →
  (∃ r src, o = Some (r, src) ∧ rf_key r = key) ∧ st_called s' = st_called s ++ st_listeners s.
Proof.
  intros Hstep Hne. destruct Hstep as [| i r src Hi| |]; try done.
  unfold refreshed, get_status in *. destruct (_ <? _); simpl in *; [|done].
  split; [|done]. exists r, src. split; [done|]. destruct (decide (rf_key r = key)); [done|].
  by rewrite lookup_insert_ne in Hne.
Qed.

(** C29: However refreshes overlap, what is shown for a loan is the status of the
    refresh that started last among those that have come back, or "checking"
    when none has; it says only what that refresh read, and every change of it
    is told to every subscriber. *)
Theorem newest_refresh_is_shown landed s key :
  store_run minConfirmations landed s →
  ((get_status s key = CHECKING ∧ ∀ x, ¬ landed_for key landed x) ∨
   ∃ r src params, newest key landed (r, src) ∧
     get_status s key = derivePositionStatus (read_inputs (rf_local r) src params) ∧
     says (read_inputs (rf_local r) src params) (ds_status (get_status s key)) ∧
     ∀ r' src', landed_for key landed (r', src') → rf_seq r' = rf_seq r → r' = r) ∧
  (∀ i r src, st_running s !! i = Some r → rf_key r = key →
    (∀ x, landed_for key landed x → rf_seq x.1 < rf_seq r) →
    get_status (refreshed minConfirmations i r src s) key = derived r src) ∧
  (∀ o s', store_step minConfirmations s o s' → get_status s' key ≠ get_status s key →
    st_called s' = st_called s ++ st_listeners s).
Proof.
  intros Hrun. pose proof (store_run_inv _ _ Hrun) as [Hn _ Hs Hk]. split_and!.
  - destruct (shown_of_key landed s key Hrun) as [?|([r src] & Hx & Hg)]; [by left|]. right.
    exists r, src, {| sp_minConfirmations := minConfirmations; sp_now := rf_now r |}.
    split_and!; [done|done|rewrite Hg; apply status_says|]. intros r' src' [Hr' _] E.
    destruct Hx as [[Hr _] _]. apply (NoDup_map_inj rf_seq _ _ _ Hn); try done; apply elem_of_app; left;
      by apply (list_elem_of_fmap_2 fst) in Hr, Hr'.
  - intros i r src Hi <- Hnew. specialize (Hk (rf_key r)). unfold refreshed, key_inv, get_status in *.
    assert (0 < rf_seq r) as Hpos.
    { apply Hs, elem_of_app. right. by eapply list_elem_of_lookup_2. }
    assert (default 0 (st_applied s !! rf_key r) < rf_seq r) as Hlt.
    { destruct (st_applied s !! rf_key r) as [n|]; [|done]. destruct Hk as (x & [Hx _] & <- & _). by apply Hnew. }
    replace (_ <? _) with true by lia. simpl. by rewrite lookup_insert_eq.
  - intros o s' Hstep Hne. by apply (change_is_told s o s' key).
Qed.
End store_facts.

(** ** The key of a record *)

Definition no_bar (s : string) : Prop := "|"%char ∉ chars s.

Lemma bar_splits a b x y :
  no_bar a → no_bar b → a +:+ "|" +:+ x = b +:+ "|" +:+ y → a = b ∧ x = y.
Proof.
  unfold no_bar. intros Ha Hb E. apply (f_equal chars) in E. rewrite !chars_app in E. change (chars "|") with ["|"%char] in E.
  enough (chars a = chars b ∧ chars x = chars y) as [? ?] by (split; by apply chars_inj).
  revert Ha Hb E. generalize (chars a), (chars b). intros l1. induction l1 as [|c l1 IH]; intros [|c' l2] Ha Hb E; simplify_eq/=.
  - done.
  - destruct Hb. by left.
  - destruct Ha. by left.
  - destruct (IH l2) as [-> ->]; try done; set_solver.
Qed.

(** The fields of a record are free of the separator. *)
Definition key_parts (local : LocalInputs) : list (option string) :=
  [present (or_ (id <$> li_position local) (pd_btcTxid <$> li_pendingDeposit local));
   (λ p, position_status_text (status p)) <$> li_position local; li_position local ≫= releaseTxid;
   (λ pd, step_text (pd_step pd)) <$> li_pendingDeposit local; li_pendingDeposit local ≫= pd_stellarTxHash].

Definition plain_record (local : LocalInputs) : Prop := Forall (λ o, no_bar (default "" o)) (key_parts local).

(** The six parts of a key are those of the record: it changes with any of them. *)
Lemma statusKey_parts local1 local2 hashes1 hashes2 key :
  plain_record local1 → plain_record local2 →
  statusKey local1 hashes1 = Some key → statusKey local2 hashes2 = Some key →
  map (default "") (key_parts local1) = map (default "") (key_parts local2) ∧ join "," hashes1 = join "," hashes2.
Proof.
  unfold plain_record, statusKey, key_parts. intros H1 H2. rewrite !Forall_cons in H1, H2.
  destruct H1 as (Hk1 & H11 & H12 & H13 & H14 & _), H2 as (Hk2 & H21 & H22 & H23 & H24 & _).
  destruct (present (or_ (id <$> li_position local1) (pd_btcTxid <$> li_pendingDeposit local1))) as [k1|]; [|done].
  destruct (present (or_ (id <$> li_position local2) (pd_btcTxid <$> li_pendingDeposit local2))) as [k2|]; [|done].
  intros [= <-] [= E]. symmetry in E. cbn [join] in E.
  apply bar_splits in E as [E1 E]; [|done..]. apply bar_splits in E as [E2 E]; [|done..].
  apply bar_splits in E as [E3 E]; [|done..]. apply bar_splits in E as [E4 E]; [|done..].
  apply bar_splits in E as [E5 E]; [|done..]. split; [|done]. cbn [map]. simpl. congruence.
Qed.

(** ** The relayer's proof route, as the status reads it *)

Section proof_answers.
Context (message_of : proof_error → string).

(** What [res.json(body)] writes ([routes/proof.ts]). *)
Definition body_json (b : Body) : Json :=
  match b with
  | rate_limited message seconds => j_object [("error", j_string "rate_limited"); ("message", j_string message);
      ("retryAfterSeconds", j_number seconds)]
  | invalid_txid message => j_object [("error", j_string "invalid_txid"); ("message", j_string message)]
  | invalid_confirmations message =>
      j_object [("error", j_string "invalid_confirmations"); ("message", j_string message)]
  | proof_found p => j_object [("txid", j_string (p_txid p)); ("rawTxNoWitness", j_string (p_rawTxNoWitness p));
      ("blockHash", j_string (p_blockHash p)); ("txIndex", j_number (p_txIndex p));
      ("merkleProof", j_array (map j_string (p_merkleProof p))); ("headers", j_array (map j_string (p_headers p)));
      ("blockHeight", j_number (p_blockHeight p)); ("confirmations", j_number (p_confirmations p));
      ("sorobanArgs", let a := p_sorobanArgs p in j_object [("block_hash", j_string (arg_block_hash a));
         ("merkle_proof", j_array (map j_string (arg_merkle_proof a))); ("tx_index", j_number (arg_tx_index a));
         ("raw_tx", j_string (arg_raw_tx a)); ("min_confirmations", j_number (arg_min_confirmations a))])]
  | unconfirmed message => j_object [("error", j_string "unconfirmed"); ("message", j_string message)]
  | insufficient_confirmations message requested available =>
      j_object [("error", j_string "insufficient_confirmations"); ("message", j_string message);
        ("requested", j_number requested); ("available", j_number available)]
  | tx_not_found message => j_object [("error", j_string "tx_not_found"); ("message", j_string message)]
  | upstream_unavailable message seconds => j_object [("error", j_string "upstream_unavailable");
      ("message", j_string message); ("retryAfterSeconds", j_number seconds)]
  | upstream_error e => j_object [("error", j_string "upstream_error"); ("message", j_string (message_of e))]
  | light_client_behind message requested available blockHeight lightClientTipHeight seconds =>
      j_object [("error", j_string "light_client_behind"); ("message", j_string message);
        ("requested", j_number requested); ("available", j_number available); ("blockHeight", j_number blockHeight);
        ("lightClientTipHeight", j_number lightClientTipHeight); ("retryAfterSeconds", j_number seconds)]
  end.

(** The app's read of an answer of the route. *)
Definition read_answer (relayerUrl btcTxid : string) (a : Answer) : option Confirmations :=
  confirmations (λ url, if bool_decide (url = relayerUrl +:+ "/spv-proof/" +:+ btcTxid)
                        then Some (ProofRoute.status (sent a), JSON_stringify (body_json (body (sent a)))) else None)
    relayerUrl btcTxid.

Lemma strings_wf l : json_wf (j_array (map j_string l)).
Proof. apply array_wf, Forall_fmap, Forall_true. done. Qed.

Lemma body_json_wf b : json_wf (body_json b).
Proof.
  destruct b; apply object_wf; split; try (by apply (bool_decide_unpack _)); repeat constructor; try done.
  1,2: apply strings_wf.
  all: simpl; try (by apply (bool_decide_unpack _)); repeat split; try done; apply strings_wf.
Qed.

Definition count_of (n : Z) (m : option Z) : option Confirmations :=
  Some {| cf_confirmations := Some n; cf_minConfirmations := m |}.

(** Whatever the proof route answers once a proof was computed or refused,
    written as JSON and read back by the app, is the deposit's depth: the depth
    proved, 0 for a transaction without a block, the depth available and the
    one required where that is short, on Bitcoin or on the light client; any
    other answer is a failed read. *)
Theorem app_reads_proof_answers deps id txid confs built lcTip relayerUrl :
  relayerUrl ≠ "" →
  match computeProof deps id built with
  | Ok r =>
      let a := final_answer deps confs (computed r) lcTip in
      read_answer relayerUrl txid a =
        match built with
        | Ok b =>
            match lcTip with
            | Some tip => if tip <? SpvProof.blockHeight b + confs - 1
                          then count_of (Z.max 0 (tip - SpvProof.blockHeight b + 1)) (Some confs)
                          else count_of (SpvProof.confirmations b) None
            | None => count_of (SpvProof.confirmations b) None
            end
        | Err (InsufficientConfirmationsError _ requested available) => count_of available (Some requested)
        | Err _ => count_of 0 None
        end
  | Err e => read_answer relayerUrl txid (upstream_answer e) = None
  end ∧
  (∀ seconds, read_answer relayerUrl txid (too_many_answer seconds) = None) ∧
  (∀ t raw a, parse_request deps t raw = Err a → read_answer relayerUrl txid a = None).
Proof.
  intros Hurl.
  assert (∀ a, read_answer relayerUrl txid a =
    (if ProofRoute.status (sent a) =? 404 then count_of 0 None
     else if ProofRoute.status (sent a) =? 409 then
       available ← prop "available" (body_json (body (sent a)));
       requested ← prop "requested" (body_json (body (sent a)));
       Some {| cf_confirmations := Some (default 0 (as_number available)); cf_minConfirmations := as_number requested |}
     else
       bundle ← (if res_ok (ProofRoute.status (sent a)) then Some (body_json (body (sent a))) else None);
       n ← prop "confirmations" bundle;
       Some {| cf_confirmations := as_number n; cf_minConfirmations := None |})) as Hread.
  { intros a. unfold read_answer, confirmations, json_of. rewrite bool_decide_false by done.
    rewrite bool_decide_true by done. simpl. rewrite JSON_round_trip by apply body_json_wf. done. }
  split_and!.
  - destruct built as [b|e]; simpl.
    + unfold final_answer. simpl. destruct lcTip as [tip|]; [|by rewrite Hread].
      destruct (tip <? _); by rewrite Hread.
    + assert (∀ e, read_answer relayerUrl txid (upstream_answer e) = None) as Hup.
      { intros e'. rewrite Hread. unfold upstream_answer. by destruct e' as [| | |[]| |]; simpl; repeat case_match. }
      destruct e as [|t|t r n|[st url bd| | |]| |]; cbn [computeProof short]; try apply Hup; try by rewrite Hread.
      destruct ((st =? 404) && endsWith ("/tx/" +:+ id) url); [cbn; by rewrite Hread|apply Hup].
  - intros seconds. by rewrite Hread.
  - intros t raw a E. rewrite Hread. unfold parse_request, reply in E. by repeat case_match; simplify_eq/=.
Qed.
End proof_answers.

(** ** Runs *)

Module Demo.
Definition tx : string := of_chars (replicate 64 "a"%char).

Definition loan : Position := {|
  id := tx; owner := "G"; txid := tx; collateralSats := "5000000"; debtStroops := "15000000000"; index := 0;
  AppStore.status := p_active; createdAt := 1700000000000; btcPubkey := Some "02aa"; timelockHeight := Some 300000;
  vout := Some 0; releaseTxid := None; releaseAddress := None; stellarTxHash := None |}.

Definition local : LocalInputs := {| li_position := Some loan; li_pendingDeposit := None |}.

Definition raw (s : RawStatus) (debt : Z) : RawPosition := {|
  btc_txid := rev (from_hex tx); btc_satoshis := 5000000; usdc_debt := debt; debt_index := INDEX_ONE; depositor := "G";
  raw_status := s; timelock_height := 300000; user_pubkey := []; p2wsh_script_pubkey := [] |}.

Definition proto : RateState := {|
  borrow_index := INDEX_ONE; supply_index := INDEX_ONE; index_ledger := 1000; total_borrowed := 15000000000;
  total_scaled_supply := 100000000000 |}.

Definition esplora (url : string) : option Response :=
  if bool_decide (url = "https://e/blocks/tip/height") then Some (200, "260000")
  else if bool_decide (url = "https://e/tx/" +:+ tx +:+ "/outspend/0")
  then Some (200, JSON_stringify (j_object [("spent", j_bool false)]))
  else Some (404, "").

(** The contract's loan is [r]; its liquidation is in the RPC's window. *)
Definition net (r : RawPosition) : AppNet := {|
  an_get_position _ _ := Some (Some r);
  an_get_protocol_state _ := Some proto;
  an_latestLedger := Some 1000;
  an_get_release_psbt _ _ := Some None;
  an_lastprice _ := Some (Some (6000000000000000000, 1800000000));
  an_decimals _ := Some 14;
  an_esplora := esplora;
  an_relayer _ := Some (404, "");
  an_server := {| getHealth := Some 100; getEvents _ _ _ := Some (["e1"], "1700000000") |};
  an_now := 1800000060000 |}.

Definition config : AppConfig :=
  {| ac_esploraUrl := "https://e"; ac_relayerUrl := "https://r"; ac_writzLend := Some "CL"; ac_btcOracle := Some "CO" |}.

Definition healthy : StatusSource := createClientStatusSource config (net (raw Active 15000000000)).
Definition seized : StatusSource := createClientStatusSource config (net (raw Liquidated 0)).

Example healthy_status :
  ds_status (derivePositionStatus (read_inputs local healthy {| sp_minConfirmations := 1; sp_now := 0 |})) =
    st_active 20000 band_healthy.
Proof. vm_compute. reflexivity. Qed.

(** An unconfigured oracle: the status waits for the price, the fault of no loan. *)
Example no_oracle :
  ds_status (derivePositionStatus (read_inputs local
    (createClientStatusSource {| ac_esploraUrl := "https://e"; ac_relayerUrl := ""; ac_writzLend := Some "CL";
       ac_btcOracle := None |} (net (raw Active 15000000000))) {| sp_minConfirmations := 1; sp_now := 0 |})) =
    st_checking [in_oracle_price].
Proof. vm_compute. reflexivity. Qed.

(** Two refreshes of one loan: the second lands first, with the liquidation;
    the first comes back late, with what was true before. *)
Definition r1 : Refresh := {| rf_seq := 1; rf_key := "k"; rf_local := local; rf_now := 0 |}.
Definition r2 : Refresh := {| rf_seq := 2; rf_key := "k"; rf_local := local; rf_now := 5 |}.
Definition both : StatusStore := subscribe 7 (refresh "k" local 5 (refresh "k" local 0 createStatusStore)).
Definition after : StatusStore := refreshed 1 0 r1 healthy (refreshed 1 1 r2 seized both).

Lemma demo_store_run : store_run 1 [(r2, seized); (r1, healthy)] after.
Proof.
  change [(r2, seized); (r1, healthy)] with
    ((((([] ++ option_list None) ++ option_list None) ++ option_list None) ++ option_list (Some (r2, seized)))
     ++ option_list (Some (r1, healthy))).
  eapply run_step; [|by apply store_refreshed]. eapply run_step; [|by apply store_refreshed].
  eapply run_step; [|apply store_subscribe]. eapply run_step; [|apply store_refresh].
  eapply run_step; [|apply store_refresh]. constructor.
Qed.

Lemma newest_refresh_is_shown_witness :
  store_run 1 [(r2, seized); (r1, healthy)] after ∧
  ds_status (get_status after "k") = st_liquidated (Some "e1") ∧
  ∃ r src params, newest "k" [(r2, seized); (r1, healthy)] (r, src) ∧
    get_status after "k" = derivePositionStatus (read_inputs (rf_local r) src params).
Proof.
  assert (ds_status (get_status after "k") = st_liquidated (Some "e1")) as E by (vm_compute; reflexivity).
  split_and!; [exact demo_store_run|exact E|].
  destruct (newest_refresh_is_shown 1 _ _ "k" demo_store_run) as [[[Hc _]|(r & src & params & Hn & Hg & _)] _].
  - rewrite Hc in E. discriminate E.
  - by exists r, src, params.
Defined.

Definition responded (src : StatusSource) (r : StatusRead) : bool := match src r with Some _ => true | None => false end.

Lemma answered_reads_settle_witness :
  ds_status (derivePositionStatus (read_inputs local healthy {| sp_minConfirmations := 1; sp_now := 0 |})) ≠ st_checking [].
Proof.
  apply answered_reads_settle.
  - intros r Hr. assert (forallb (responded healthy)
      (readStatusInputs local {| sp_minConfirmations := 1; sp_now := 0 |} healthy).2 = true) as E by (vm_compute; reflexivity).
    rewrite forallb_forall in E. apply list_elem_of_In, E in Hr. unfold responded in Hr. by destruct (healthy r).
  - intros p [= <-]. split; [|done]. exists (toChainPosition (raw Active 15000000000) proto 1000). split; [vm_compute; reflexivity|]. vm_compute. discriminate.
  - by left.
Defined.

Lemma price_is_the_contracts_witness :
  Contract.get_btc_price_stroops (Some (6000000000000000000, 1800000000)) 14 1800000060 = Ok 600000000000 ∧
  priceToStroops 6000000000000000000 1800000000 14 1800000060 = Ok 600000000000.
Proof.
  split; [vm_compute; reflexivity|]. 
  exact (price_is_the_contracts 6000000000000000000 1800000000 14 1800000060 ltac:(lia) ltac:(lia)).
Defined.

Definition deps : ProofRouterDeps := {|
  limiter := RateLimit.Build_RateLimitOptions 30 60000; cacheMaxEntries := 100; cacheTtlMs := 3600000;
  headerSyncRetryAfterSeconds := 60; defaultConfirmations := 6; maxConfirmations := 20; bitcoinNetwork := "signet" |}.

Lemma app_reads_proof_answers_witness :
  read_answer (λ _, "") "https://r" tx (reply 409 (insufficient_confirmations
    ("Requested 6 confirmations for " +:+ tx +:+ ", but only 2 available") 6 2)) = count_of 2 (Some 6).
Proof.
  apply (app_reads_proof_answers (λ _, "") deps tx tx 6 (Err (InsufficientConfirmationsError tx 6 2)) None "https://r").
  done.
Defined.

(** The key leaves out the Bitcoin details a status depends on: a repaid loan
    without its output and the same loan with it have one key, and two
    statuses. *)
Definition unlocated : LocalInputs := {| li_pendingDeposit := None; li_position := Some {|
  id := tx; owner := "G"; txid := tx; collateralSats := "5000000"; debtStroops := "15000000000"; index := 0;
  AppStore.status := p_active; createdAt := 1700000000000; btcPubkey := Some "02aa"; timelockHeight := Some 300000;
  vout := None; releaseTxid := None; releaseAddress := None; stellarTxHash := None |} |}.

Definition repaid : StatusSource := createClientStatusSource config (net (raw Closed 0)).

Lemma key_misses_the_output :
  statusKey local [] = statusKey unlocated [] ∧
  ds_status (derivePositionStatus (read_inputs local repaid {| sp_minConfirmations := 1; sp_now := 0 |})) =
    st_repaid_locked false false ∧
  ds_status (derivePositionStatus (read_inputs unlocated repaid {| sp_minConfirmations := 1; sp_now := 0 |})) =
    st_repaid_locked false true.
Proof. vm_compute. auto. Qed.
End Demo.
