(* ===== verification/LoanModel.v ===== *)
(** * What a loan allows, and its figures ([frontend/app/src/lib/loan/model.ts])

    The amounts a loan page computes and the actions it offers. The contract's
    own check (contracts/writz-lend/src/oracle.rs, and [borrow] and [liquidate]
    of lib.rs) is written out as the reference the figures are compared to. *)

From S2P Require Import Prelude JsData JsMap LendRates Amounts AppStore FlowEngine LoanStatus.

(** ** Amounts *)

Definition ratioLimitStroops (collateralSats_ priceStroops : Z) : Z :=
  (collateralSats_ * priceStroops * 10000) ÷ SAT ÷ BORROW_LIMIT_BP.

Record Available : Type := { av_stroops : Z; av_limitedByPool : bool }.

Definition availableToBorrow (collateralSats_ debtStroops_ priceStroops : Z) (poolStroops : option Z) : Available :=
  let limit := ratioLimitStroops collateralSats_ priceStroops in
  let headroom := if debtStroops_ <? limit then limit - debtStroops_ else 0 in
  match poolStroops with
  | None => {| av_stroops := headroom; av_limitedByPool := false |}
  | Some pool =>
      if headroom <=? pool then {| av_stroops := headroom; av_limitedByPool := false |}
      else {| av_stroops := if 0 <? pool then pool else 0; av_limitedByPool := true |}
  end.

Definition repayToSafeStroops (collateralSats_ debtStroops_ priceStroops : Z) : Z :=
  let limit := ratioLimitStroops collateralSats_ priceStroops in
  if debtStroops_ <=? limit then 0
  else
    let raw := debtStroops_ - limit in
    ((raw + cent - 1) ÷ cent) * cent.

Definition liquidationPriceFor (collateralSats_ debtStroops_ : Z) : option Z :=
  if (debtStroops_ <=? 0) || (collateralSats_ <=? 0) then None
  else Some ((debtStroops_ * LIQUIDATION_BP * SAT) ÷ 10000 ÷ collateralSats_).

Inductive AfterState : Type := after_repaid | after_open (ratioBp liquidationPrice : Z).

Definition afterState (collateralSats_ newDebtStroops priceStroops : Z) : option AfterState :=
  if newDebtStroops <=? 0 then Some after_repaid
  else
    ratioBp ← collateralRatioBp collateralSats_ newDebtStroops priceStroops;
    liquidationPrice ← liquidationPriceFor collateralSats_ newDebtStroops;
    Some (after_open ratioBp liquidationPrice).

(** *** The same limits before a loan exists ([borrow/journey.ts]) *)

Definition maxBorrowStroops (sats priceStroops : Z) : Z :=
  (sats * priceStroops * 10000) ÷ SATS_PER_BTC ÷ BORROW_LIMIT_BP.

Definition liquidationPriceStroops (priceStroops : Z) : Z := (priceStroops * LIQUIDATION_BP) ÷ BORROW_LIMIT_BP.

(** ** Health *)

Inductive Health : Type := h_none | h_healthy | h_below_limit | h_at_risk | h_liquidatable.

#[global] Instance Health_eq_dec : EqDecision Health.
Proof. solve_decision. Defined.

Definition healthOf (status : LoanStatus) : option Health :=
  match status with
  | st_active _ band_healthy => Some h_healthy
  | st_active _ band_below_limit => Some h_below_limit
  | st_at_risk _ => Some h_at_risk
  | st_liquidatable _ => Some h_liquidatable
  | st_repaid_locked neverBorrowed _ => if neverBorrowed then Some h_none else None
  | _ => None
  end.

Definition healthOfRatio (ratioBp : option Z) : Health :=
  match ratioBp with
  | None => h_none
  | Some r =>
      if BORROW_LIMIT_BP <=? r then h_healthy
      else if AT_RISK_BP <=? r then h_below_limit
      else if LIQUIDATION_BP <=? r then h_at_risk
      else h_liquidatable
  end.

Definition is_checking (s : LoanStatus) : bool := match s with st_checking _ => true | _ => false end.
Definition is_repaid_locked (s : LoanStatus) : bool := match s with st_repaid_locked _ _ => true | _ => false end.

Definition showsRisk (status : LoanStatus) : bool := bool_decide (healthOf status ≠ None) || is_checking status.
Definition isOpen (status : LoanStatus) : bool := bool_decide (healthOf status ≠ None) || is_repaid_locked status.
Definition isClosed (status : LoanStatus) : bool :=
  match status with st_releasing _ | st_released _ | st_liquidated _ => true | _ => false end.

(** ** Tabs *)

Inductive LoanTab : Type := t_borrow | t_repay | t_release.

#[global] Instance LoanTab_eq_dec : EqDecision LoanTab.
Proof. solve_decision. Defined.

Definition LOAN_TABS : list LoanTab := [t_borrow; t_repay; t_release].

Inductive Read (A : Type) : Type := rd_checking | rd_failed | rd_ok (value : A).
Arguments rd_checking {A}.
Arguments rd_failed {A}.
Arguments rd_ok {A} value.

Definition readValue {A} (r : Read A) : option A := match r with rd_ok v => Some v | _ => None end.

(** [enabled], or the reason why not. *)
Inductive TabState : Type := tab_on | tab_off (reason : string).

Definition enabled (t : TabState) : bool := match t with tab_on => true | tab_off _ => false end.

Definition Tabs : Type := LoanTab → TabState.

Record TabFacts : Type := {
  tf_status : DerivedStatus;
  tf_debtStroops : Z;
  tf_price : Read Z;
  tf_available : option Available;
  tf_busy : option LoanTab;
  tf_otherTx : bool;
  tf_catchingUp : bool;
}.

Module REASONS.
Definition checking : string := "Checking this loan.".
Definition busy : string := "Waiting for your transaction.".
Definition otherTx : string := "Waiting for your other transaction (in another tab).".
Definition catchingUp : string :=
  "Writz is co-signing your release. Your BTC is safe. Try again in a minute.".
Definition priceUnavailable : string := "BTC price unavailable. Try again in a minute.".
Definition priceChecking : string := "Checking the BTC price.".
Definition belowLimit : string :=
  "Can't borrow more: the ratio is below 150%. Repay some USDC to raise it.".
Definition poolEmpty : string := "The pool has no USDC available right now. Try again later.".
Definition repaidClosed : string := "This loan is repaid, so it can't borrow again. Release your BTC.".
Definition nothingToRepay : string := "Nothing to repay.".
Definition repayFirst : string := "Repay the loan first, then release your BTC.".
Definition missingDetails : string := "This device doesn't have the Bitcoin details for this loan.".
Definition closed : string := "This loan is closed.".
End REASONS.

(** The gate around a tab's own state. *)
Definition gate (f : TabFacts) (tab : LoanTab) (own : TabState) : TabState :=
  let blocker :=
    if tf_otherTx f then Some REASONS.otherTx
    else if tf_catchingUp f then Some REASONS.catchingUp else None in
  match tf_busy f with
  | Some busy => if bool_decide (busy = tab) then tab_on else tab_off REASONS.busy
  | None => match blocker with Some reason => tab_off reason | None => own end
  end.

Definition borrow_tab (f : TabFacts) : TabState :=
  let s := ds_status (tf_status f) in
  match s, healthOf s with
  | st_repaid_locked false _, _ => tab_off REASONS.repaidClosed
  | _, Some (h_below_limit | h_at_risk | h_liquidatable) => tab_off REASONS.belowLimit
  | _, _ =>
      match tf_price f, tf_available f with
      | rd_failed, _ => tab_off REASONS.priceUnavailable
      | rd_checking, _ => tab_off REASONS.priceChecking
      | rd_ok _, Some a =>
          if av_stroops a <=? 0
          then tab_off (if av_limitedByPool a then REASONS.poolEmpty else REASONS.belowLimit)
          else tab_on
      | rd_ok _, None => tab_on
      end
  end.

Definition release_tab (f : TabFacts) : TabState :=
  match ds_status (tf_status f) with
  | st_repaid_locked _ missingBtcDetails => if missingBtcDetails then tab_off REASONS.missingDetails else tab_on
  | _ => tab_off REASONS.repayFirst
  end.

Definition loanTabs (f : TabFacts) : Tabs :=
  let s := ds_status (tf_status f) in
  if is_checking s then λ _, tab_off REASONS.checking
  else if negb (isOpen s) then λ _, tab_off REASONS.closed
  else λ tab,
    gate f tab match tab with
               | t_borrow => borrow_tab f
               | t_repay => if 0 <? tf_debtStroops f then tab_on else tab_off REASONS.nothingToRepay
               | t_release => release_tab f
               end.

Definition defaultTab (tabs : Tabs) (status : LoanStatus) (requested busy : option LoanTab) : option LoanTab :=
  let requested_on := match requested with Some r => enabled (tabs r) | None => false end in
  match busy with
  | Some b => Some b
  | None =>
      if requested_on then requested
      else if match status with st_at_risk _ | st_liquidatable _ => enabled (tabs t_repay) | _ => false end
      then Some t_repay
      else if match status with st_repaid_locked false _ => enabled (tabs t_release) | _ => false end
      then Some t_release
      else List.find (λ t, enabled (tabs t)) LOAN_TABS
  end.

Definition disabledReasons (tabs : Tabs) : list string :=
  foldl (λ out t,
    match tabs t with
    | tab_off reason => if bool_decide (reason ∈ out) then out else out ++ [reason]
    | tab_on => out
    end) [] LOAN_TABS.

Definition parsePanel (v : option string) : option LoanTab :=
  match v with
  | Some v =>
      if bool_decide (v = "borrow") then Some t_borrow
      else if bool_decide (v = "repay") then Some t_repay
      else if bool_decide (v = "release") then Some t_release
      else None
  | None => None
  end.

Definition tab_name (t : LoanTab) : string :=
  match t with t_borrow => "borrow" | t_repay => "repay" | t_release => "release" end.

(** [/^[1-9]\d{0,5}$/] *)
Definition parseLoanNumber (raw : string) : option Z :=
  match chars raw with
  | c :: cs =>
      if in_range "1" "9" c && forallb is_digit cs && (zlen cs <=? 5) then Some (dec_value (c :: cs)) else None
  | [] => None
  end.

Definition loanHref (index_ : Z) (panel : option LoanTab) : string :=
  "/loans/" +:+ z_to_string (index_ + 1) +:+
  match panel with Some p => "?panel=" +:+ tab_name p | None => "" end.

(** ** Release steps *)

Definition cosignWaitText (elapsedMs : Z) : string :=
  let s := Z.max 0 (elapsedMs / 1000) in
  let clock := z_to_string (s / 60) +:+ ":" +:+ padded 2 (s mod 60) in
  "Waiting for Writz's signature, " +:+ clock +:+
  " so far. It usually takes a minute or two, up to 10 when the network is busy.".

Definition releaseStepOf (flow : FlowState) : option Z :=
  match flow with
  | f_preparing (Some cosign) _ => Some 2
  | f_preparing (Some broadcasting) _ => Some 4
  | f_preparing (Some building) _ => Some 1
  | f_preparing _ _ => Some 0
  | f_submitted _ => Some 1
  | f_awaiting_signature wallet _ => Some (match wallet with Rejection.stellar => 1 | _ => 3 end)
  | _ => None
  end.

(** ** Activity of a loan *)

Inductive tx_chain : Type := on_stellar | on_bitcoin.

Record RecentTx : Type := { rt_hash : string; rt_chain : tx_chain; rt_label : string; rt_at : Z }.

Record ActivityItem : Type := {
  ai_hash : string;
  ai_chain : tx_chain;
  ai_label : string;
  ai_pending : bool;
  ai_at : option Z;
}.

Definition PENDING_LABEL (k : PendingTxKind) : option string :=
  match k with
  | k_borrow => Some "Borrow" | k_repay => Some "Repay" | k_deposit => Some "Deposit"
  | _ => None
  end.

(** [add]: the first item of a hash stays. *)
Definition add_item (items : list ActivityItem) (i : ActivityItem) : list ActivityItem :=
  if bool_decide (ai_hash i ∈ map ai_hash items) then items else items ++ [i].

Definition loanActivity (index_ : Z) (pending_ : list PendingTx) (recent : list RecentTx)
    (stellarTxHash_ releaseTxid_ : option string) (createdAt_ : option Z) : list ActivityItem :=
  let pending_items :=
    omap (λ t,
      match ptx_positionUpdate t with
      | Some (_, save) =>
          if index save =? index_
          then Some {| ai_hash := ptx_hash t; ai_chain := on_stellar;
                       ai_label := default "Transaction" (PENDING_LABEL (ptx_kind t));
                       ai_pending := true; ai_at := Some (ptx_createdAt t) |}
          else None
      | None => None
      end) pending_ in
  let recent_items :=
    map (λ r, {| ai_hash := rt_hash r; ai_chain := rt_chain r; ai_label := rt_label r; ai_pending := false;
                 ai_at := Some (rt_at r) |}) (sort_by (λ r, - rt_at r) recent) in
  let release_item :=
    match present releaseTxid_ with
    | Some h => [{| ai_hash := h; ai_chain := on_bitcoin; ai_label := "Release sent to Bitcoin";
                    ai_pending := false; ai_at := None |}]
    | None => []
    end in
  let deposit_item :=
    match present stellarTxHash_ with
    | Some h => [{| ai_hash := h; ai_chain := on_stellar; ai_label := "Deposit registered on Stellar";
                    ai_pending := false; ai_at := createdAt_ |}]
    | None => []
    end in
  foldl add_item [] (pending_items ++ recent_items ++ release_item ++ deposit_item).

(** ** Dates *)

Definition MONTHS : list string :=
  ["Jan"; "Feb"; "Mar"; "Apr"; "May"; "Jun"; "Jul"; "Aug"; "Sep"; "Oct"; "Nov"; "Dec"].

(** The UTC date of a time in milliseconds. *)
Definition shortDate (ms : Z) : string :=
  let '(y, m, d) := civil_of_days (ms / DAY_MS) in
  z_to_string d +:+ " " +:+ default "" (at_ MONTHS (m - 1)) +:+ " " +:+ z_to_string y.

Definition blockDate (blocksLeft now : Z) : string := shortDate (now + blocksLeft * 600000).

Example loan_model_examples :
  (shortDate 1790208000000, blockDate 144 1790208000000, parseLoanNumber "12", parseLoanNumber "012",
   loanHref 0 (Some t_repay), cosignWaitText 65000 )
  = ("24 Sep 2026", "25 Sep 2026", Some 12, None, "/loans/1?panel=repay",
     "Waiting for Writz's signature, 1:05 so far. It usually takes a minute or two, up to 10 when the network is busy.").
Proof. vm_compute. reflexivity. Qed.

(** ** Reference: the contract's check

    [collateral_value_stroops] and [health_ratio_bp] of oracle.rs, the test of
    [borrow] and that of [liquidate]. *)

Module Lend.
Import LendRates.Contract.

Definition collateral_value_stroops (btc_satoshis price_stroops_per_btc : Z) : option Z :=
  let p := btc_satoshis * price_stroops_per_btc in
  if (I128_MIN <=? p) && (p <=? I128_MAX) then Some (p ÷ 100000000) else None.

Definition health_ratio_bp (collateral_stroops debt_stroops : Z) : Z :=
  if debt_stroops =? 0 then I128_MAX else sat (collateral_stroops * 10000) ÷ debt_stroops.

Definition min_collateral_ratio_bp : Z := 15000.
Definition liquidation_threshold_bp : Z := 12000.

(** The position's health, when the collateral's value does not overflow. *)
Definition health (btc_satoshis price debt : Z) : option Z :=
  c ← collateral_value_stroops btc_satoshis price; Some (health_ratio_bp c debt).

(** May a position have this debt after a borrow? *)
Definition ratio_allows (btc_satoshis price new_debt : Z) : bool :=
  match health btc_satoshis price new_debt with Some h => min_collateral_ratio_bp <=? h | None => false end.

(** Can it be liquidated? *)
Definition liquidatable (btc_satoshis price debt : Z) : bool :=
  match health btc_satoshis price debt with Some h => h <? liquidation_threshold_bp | None => false end.
End Lend.

(** ** Figures *)

Lemma quot_quot x b c : 0 ≤ x → 0 < b → 0 < c → x ÷ b ÷ c = x / (b * c).
Proof.
  intros Hx Hb Hc. rewrite (Z.quot_div_nonneg x b), Z.quot_div_nonneg, Z.div_div by (done || lia || (apply Z.div_pos; lia)).
  done.
Qed.

(** A quotient compared with a bound, as a product: what lia and nia need. *)
Lemma le_div x b q : 0 < b → (q ≤ x / b ↔ q * b ≤ x).
Proof.
  intros Hb. split; intros H.
  - pose proof (Z.mul_div_le x b Hb). nia.
  - by apply Z.div_le_lower_bound; lia.
Qed.

Section figures.
Context (sats price : Z) (Hsats : 0 ≤ sats) (Hprice : 0 ≤ price).

Lemma ratioLimit_le debt : debt ≤ ratioLimitStroops sats price ↔ debt * 150000000 ≤ sats * price.
Proof using Hsats Hprice.
  unfold ratioLimitStroops, SAT, BORROW_LIMIT_BP. rewrite quot_quot, le_div by nia. lia.
Qed.

(** The ratio reaches [bp] exactly when the debt times [bp] fits in the value. *)
Lemma ratio_reaches debt r bp :
  collateralRatioBp sats debt price = Some r → 0 < debt ∧ (bp ≤ r ↔ debt * bp * 10000 ≤ sats * price).
Proof using Hsats Hprice.
  unfold collateralRatioBp, SAT. intros H. split_match. bools. split; [done|].
  rewrite quot_quot, le_div by nia. nia.
Qed.

Lemma ratio_limit debt r :
  collateralRatioBp sats debt price = Some r → (BORROW_LIMIT_BP ≤ r ↔ debt ≤ ratioLimitStroops sats price).
Proof using Hsats Hprice.
  intros H. destruct (ratio_reaches _ _ BORROW_LIMIT_BP H) as [_ ->]. rewrite ratioLimit_le. unfold BORROW_LIMIT_BP. lia.
Qed.

(** The contract's test, the collateral's value not overflowing. *)
Context (Hfits : sats * price ≤ LendRates.Contract.I128_MAX).

Lemma health_reaches debt bp :
  0 < debt → ∃ h, Lend.health sats price debt = Some h ∧ (bp ≤ h ↔ debt * bp ≤ sats * price / 100000000 * 10000).
Proof using Hsats Hprice Hfits.
  intros Hd. unfold Lend.health, Lend.collateral_value_stroops, Lend.health_ratio_bp.
  assert (0 ≤ sats * price / 100000000 * 10000 ≤ sats * price) as Hc.
  { pose proof (Z.mul_div_le (sats * price) 100000000). pose proof (Z.div_pos (sats * price) 100000000). nia. }
  rewrite (proj2 (Z.leb_le _ _)), (proj2 (Z.leb_le (sats * price) _)) by (done || (unfold LendRates.Contract.I128_MIN; nia)).
  simpl. rewrite (proj2 (Z.eqb_neq debt 0)) by lia. eexists. split; [done|].
  rewrite (Z.quot_div_nonneg (sats * price)) by nia.
  unfold LendRates.Contract.sat. rewrite Z.min_r, Z.max_r by (unfold LendRates.Contract.I128_MIN; lia).
  rewrite Z.quot_div_nonneg, le_div by lia. lia.
Qed.
End figures.

(** The app rounds its limit later than the contract, which may leave it one
    stroop above. *)
Definition rounds_up (sats price : Z) : Prop :=
  (sats * price / 100000000) mod 3 = 1 ∧ 50000000 ≤ (sats * price) mod 100000000.

Lemma ratio_allows_limit sats price debt :
  0 ≤ sats → 0 ≤ price → sats * price ≤ LendRates.Contract.I128_MAX → 0 < debt →
  let limit := ratioLimitStroops sats price in
  (Lend.ratio_allows sats price debt = true → debt ≤ limit) ∧
  (debt ≤ limit → Lend.ratio_allows sats price debt = true ∨ (debt = limit ∧ rounds_up sats price)).
Proof.
  intros Hs Hp Hfits Hd limit. destruct (health_reaches sats price Hs Hp Hfits debt 15000 Hd) as (h & Hh & Hle).
  unfold Lend.ratio_allows, Lend.min_collateral_ratio_bp. rewrite Hh, Z.leb_le, Hle.
  pose proof (ratioLimit_le sats price Hs Hp debt) as Hl1. pose proof (ratioLimit_le sats price Hs Hp (debt + 1)) as Hl2.
  fold limit in Hl1, Hl2. unfold rounds_up.
  pose proof (Z.div_mod (sats * price) 100000000) as Hx. pose proof (Z.mod_pos_bound (sats * price) 100000000) as Hf.
  set (C := sats * price / 100000000) in *. set (f := (sats * price) mod 100000000) in *.
  pose proof (Z.div_mod C 3). pose proof (Z.mod_pos_bound C 3).
  split; intros; [apply Hl1; lia|]. destruct (decide (debt * 15000 ≤ C * 10000)); [by left|right]. lia.
Qed.

(** C15: Borrowing what the app offers is what the contract allows: anything below
    the offer passes the contract's 150% check and is in the pool, anything
    above it fails the check unless the pool was the cap, and the offer itself
    can only miss by the last stroop, when the collateral's value rounds that
    way. *)
Theorem borrow_limit_is_the_contracts sats price debt pool amount :
  0 ≤ sats → 0 ≤ price → sats * price ≤ LendRates.Contract.I128_MAX → 0 ≤ debt → 0 < amount →
  let av := availableToBorrow sats debt price pool in
  let allowed := Lend.ratio_allows sats price (debt + amount) in
  (amount ≤ av_stroops av →
     (∀ p, pool = Some p → amount ≤ p) ∧
     (allowed = true ∨ (debt + amount = ratioLimitStroops sats price ∧ rounds_up sats price))) ∧
  (amount < av_stroops av → allowed = true) ∧
  (av_limitedByPool av = false → av_stroops av < amount → allowed = false).
Proof.
  intros Hs Hp Hfits Hd Ha av allowed.
  destruct (ratio_allows_limit sats price (debt + amount) Hs Hp Hfits ltac:(lia)) as [Hup Hdown].
  fold allowed in Hup, Hdown. set (limit := ratioLimitStroops sats price) in *.
  assert (av_stroops av ≤ Z.max 0 (limit - debt) ∧ (∀ p, pool = Some p → av_stroops av ≤ Z.max 0 p) ∧
          (av_limitedByPool av = false → av_stroops av = Z.max 0 (limit - debt))) as (H1 & H2 & H3).
  { subst av. unfold availableToBorrow. fold limit. destruct (debt <? limit) eqn:E1; bools; destruct pool as [p|]; simpl;
      try (destruct (_ <=? p) eqn:E2; bools; simpl); try (destruct (0 <? p) eqn:E3; bools);
      split_and!; try done; try lia; intros ? [= <-]; lia. }
  split_and!.
  - intros Hle. split; [intros p Hp'; specialize (H2 p Hp'); lia|]. apply Hdown. lia.
  - intros Hlt. destruct Hdown as [|[E _]]; [lia|done|lia].
  - intros Hpool Hgt. apply not_true_is_false. intros Hok. specialize (Hup Hok). specialize (H3 Hpool). lia.
Qed.

Lemma borrow_limit_is_the_contracts_witness :
  Lend.ratio_allows 50000000 600000000000 (150000000000 + 49999999999) = true ∧
  availableToBorrow 50000000 150000000000 600000000000 (Some 900000000000) =
    {| av_stroops := 50000000000; av_limitedByPool := false |}.
Proof.
  split; [|reflexivity].
  apply (borrow_limit_is_the_contracts 50000000 600000000000 150000000000 (Some 900000000000) 49999999999);
    vm_compute; congruence.
Defined.

(** Half a bitcoin at a price where the app offers a stroop the contract refuses. *)
Lemma offered_stroop_can_be_refused :
  let av := availableToBorrow 50000000 0 600000000003 None in
  av_stroops av = 200000000001 ∧ Lend.ratio_allows 50000000 600000000003 (av_stroops av) = false ∧
  Lend.ratio_allows 50000000 600000000003 (av_stroops av - 1) = true.
Proof. vm_compute. done. Qed.

Lemma repayToSafe_spec sats price debt :
  0 ≤ sats → 0 ≤ price →
  let limit := ratioLimitStroops sats price in
  let repay := repayToSafeStroops sats debt price in
  debt - repay ≤ limit ∧ repay mod cent = 0 ∧ 0 ≤ repay ∧ (0 < repay → limit < debt - (repay - cent)).
Proof.
  intros Hs Hp limit repay. unfold repayToSafeStroops in repay. fold limit in repay. subst repay.
  destruct (debt <=? limit) eqn:E; bools; [by split_and!; [lia|..|lia]|].
  change cent with 100000 in *.
  destruct (quot_rem_bounds (debt - limit + 100000 - 1) 100000) as (Eq & Hq & Hr); [lia..|].
  split_and!; [lia|by apply Z_mod_mult|nia|lia].
Qed.

Lemma liquidationPrice_spec sats debt p0 :
  liquidationPriceFor sats debt = Some p0 →
  ∀ p r, 0 ≤ p → collateralRatioBp sats debt p = Some r →
  (p < p0 → r < LIQUIDATION_BP) ∧ (p0 < p → LIQUIDATION_BP ≤ r).
Proof.
  unfold liquidationPriceFor. intros H p r Hp Hr. split_match. apply orb_false_iff in Heqb as [??]. bools.
  destruct (ratio_reaches sats p ltac:(lia) Hp debt r LIQUIDATION_BP Hr) as [_ Hb].
  unfold SAT, LIQUIDATION_BP in *.
  pose proof (le_div (debt * 120000000) sats p ltac:(lia)) as H1.
  pose proof (le_div (debt * 120000000) sats (p + 1) ltac:(lia)) as H2.
  replace (debt * 12000 * 100000000 ÷ 10000 ÷ sats) with (debt * 120000000 / sats) in *.
  - split; intros; nia.
  - rewrite quot_quot by nia. replace (debt * 12000 * 100000000) with (10000 * (debt * 120000000)) by lia.
    by rewrite Z.div_mul_cancel_l by lia.
Qed.

(** The figures on the loan page: the ratio shown is the contract's, at most
    one basis point above it for a debt of a thousandth of a dollar or more, so
    that what reads as liquidatable can be liquidated; the suggested repayment
    is the least number of whole cents that restores 150%; and the liquidation
    price separates the prices where the loan is under 120% from the others. *)
Theorem loan_figures_follow_the_contract sats price debt r h :
  0 ≤ sats → 0 ≤ price → sats * price ≤ LendRates.Contract.I128_MAX →
  collateralRatioBp sats debt price = Some r → Lend.health sats price debt = Some h →
  h ≤ r ∧ (10000 ≤ debt → r ≤ h + 1) ∧
  (∀ r', healthStatus r = st_liquidatable r' → Lend.liquidatable sats price debt = true) ∧
  (let repay := repayToSafeStroops sats debt price in
   ∀ a, 0 ≤ a → a mod cent = 0 →
     (match collateralRatioBp sats (debt - a) price with Some q => BORROW_LIMIT_BP ≤ q | None => True end
      ↔ repay ≤ a)) ∧
  (∀ p0 p q, liquidationPriceFor sats debt = Some p0 → 0 ≤ p → collateralRatioBp sats debt p = Some q →
     (p < p0 → q < LIQUIDATION_BP) ∧ (p0 < p → LIQUIDATION_BP ≤ q)).
Proof.
  intros Hs Hp Hfits Hr Hh.
  assert (0 < debt) as Hd by (unfold collateralRatioBp in Hr; split_match; bools; lia).
  assert (∀ bp, bp ≤ h ↔ debt * bp ≤ sats * price / 100000000 * 10000) as Hhb.
  { intros bp. destruct (health_reaches sats price Hs Hp Hfits debt bp Hd) as (h' & E & H). by simplify_eq. }
  assert (∀ bp, bp ≤ r ↔ debt * bp * 10000 ≤ sats * price) as Hrb.
  { intros bp. by destruct (ratio_reaches sats price Hs Hp debt r bp Hr) as [_ H]. }
  pose proof (Z.div_mod (sats * price) 100000000) as Hx. pose proof (Z.mod_pos_bound (sats * price) 100000000) as Hf.
  assert (h ≤ r) as Hhr by (apply Hrb; assert (H := proj1 (Hhb h) ltac:(lia)); lia).
  split_and!; [done| | | |].
  - intros Hbig. destruct (decide (r ≤ h + 1)) as [|Hgt]; [done|].
    assert (H1 := proj1 (Hrb (h + 2)) ltac:(lia)). assert (H2 := proj2 (Hhb (h + 1))). lia.
  - intros r' E. unfold healthStatus in E. destruct (r <? LIQUIDATION_BP) eqn:El; [|by repeat case_match].
    bools. unfold Lend.liquidatable, Lend.liquidation_threshold_bp, LIQUIDATION_BP in *. rewrite Hh. apply Z.ltb_lt. lia.
  - intros repay a Ha Hcents. destruct (repayToSafe_spec sats price debt Hs Hp) as (Hs1 & Hs2 & Hs3 & Hs4).
    fold repay in Hs1, Hs2, Hs3, Hs4. set (limit := ratioLimitStroops sats price) in *.
    assert (0 ≤ limit) as Hlim by (apply ratioLimit_le; lia).
    assert (debt - a ≤ limit ↔ repay ≤ a) as <-.
    { split; [|lia]. intros Hle. destruct (decide (repay ≤ a)) as [|Hlt]; [done|].
      pose proof (Z.div_mod a cent). pose proof (Z.div_mod repay cent). change cent with 100000 in *. lia. }
    destruct (collateralRatioBp sats (debt - a) price) as [q|] eqn:Eq.
    + by apply ratio_limit.
    + unfold collateralRatioBp in Eq. split_match. bools. lia.
  - intros p0 p q Hp0 Hpp Hq. by apply (liquidationPrice_spec sats debt p0).
Qed.

Lemma loan_figures_follow_the_contract_witness :
  collateralRatioBp 50000000 250000000000 600000000000 = Some 12000 ∧
  repayToSafeStroops 50000000 250000000000 600000000000 = 50000000000 ∧
  liquidationPriceFor 50000000 250000000000 = Some 600000000000 ∧
  match collateralRatioBp 50000000 (250000000000 - 50000000000) 600000000000 with Some q => BORROW_LIMIT_BP ≤ q | None => True end.
Proof.
  split; [reflexivity|]. split; [reflexivity|]. split; [reflexivity|].
  destruct (loan_figures_follow_the_contract 50000000 600000000000 250000000000 12000 12000) as (_ & _ & _ & H & _);
    [vm_compute; congruence..|reflexivity|reflexivity|].
  apply (H 50000000000); [lia|reflexivity|vm_compute; congruence].
Defined.

(** ** Actions *)

Lemma gate_idle f tab own :
  tf_busy f = None → enabled (gate f tab own) = true →
  enabled own = true ∧ tf_otherTx f = false ∧ tf_catchingUp f = false.
Proof.
  intros Hb. unfold gate. rewrite Hb. destruct (tf_otherTx f), (tf_catchingUp f); done.
Qed.

(** A running transaction keeps every other tab shut. *)
Lemma gate_busy f tab own b :
  tf_busy f = Some b → enabled (gate f tab own) = bool_decide (b = tab).
Proof. intros Hb. unfold gate. rewrite Hb. by case_bool_decide. Qed.

Lemma loanTabs_open f tab :
  enabled (loanTabs f tab) = true →
  is_checking (ds_status (tf_status f)) = false ∧ isOpen (ds_status (tf_status f)) = true.
Proof.
  unfold loanTabs. destruct (is_checking _); [done|]. by destruct (isOpen _).
Qed.

Lemma defaultTab_enabled tabs status requested t :
  defaultTab tabs status requested None = Some t → enabled (tabs t) = true.
Proof.
  unfold defaultTab. intros H. repeat (case_match; simplify_eq/=); try done;
    by apply List.find_some in H as [_ ?].
Qed.

Lemma defaultTab_none tabs status requested :
  defaultTab tabs status requested None = None → ∀ t, enabled (tabs t) = false.
Proof.
  unfold defaultTab. intros H t. repeat (case_match; simplify_eq/=); by destruct t.
Qed.

Lemma disabledReasons_spec tabs :
  NoDup (disabledReasons tabs) ∧ ∀ r, r ∈ disabledReasons tabs ↔ ∃ t, tabs t = tab_off r.
Proof.
  unfold disabledReasons. split.
  - simpl. destruct (tabs t_borrow), (tabs t_repay), (tabs t_release); simpl;
      repeat (case_bool_decide; simpl); repeat constructor; set_solver.
  - intros r. split.
    + simpl. destruct (tabs t_borrow) eqn:E1, (tabs t_repay) eqn:E2, (tabs t_release) eqn:E3; simpl;
        repeat (case_bool_decide; simpl); set_solver.
    + intros [t Ht]. simpl. destruct t; rewrite Ht; destruct (tabs t_borrow), (tabs t_repay), (tabs t_release); simpl;
        repeat (case_bool_decide; simpl); simplify_eq; set_solver.
Qed.

(** The page's facts: the status it derives, its reads and its locks. *)
Definition page_facts (inputs : StatusInputs) (debt : Z) (price : Read Z) (available : option Available)
    (busy : option LoanTab) (otherTx : bool) : TabFacts :=
  let status := derivePositionStatus inputs in {|
  tf_status := status; tf_debtStroops := debt; tf_price := price; tf_available := available; tf_busy := busy;
  tf_otherTx := otherTx; tf_catchingUp := ds_syncing status |}.

(** A loan never borrowed against and not drawn yet. *)
Definition untouched (inputs : StatusInputs) : Prop :=
  ∃ c, found inputs c ∧ cp_status c = active ∧ cp_debtStroops c = 0 ∧ lock_not_spent inputs.

Lemma isOpen_reads inputs :
  isOpen (ds_status (derivePositionStatus inputs)) = true →
  ∃ c, found inputs c ∧ cp_status c ≠ liquidated ∧ lock_not_spent inputs.
Proof.
  intros H. pose proof (proj1 (status_is_what_was_read inputs)) as Hs.
  destruct (ds_status (derivePositionStatus inputs)); try done; simpl in Hs;
    try (destruct Hs as [(c & price & Hc & Ha & _ & Hl & _) _]; exists c; split_and!; [done|by rewrite Ha|done]).
  destruct Hs as (c & Hc & Hn & _ & _ & Hl & _). by exists c.
Qed.

Lemma borrow_tab_on f :
  isOpen (ds_status (tf_status f)) = true → enabled (borrow_tab f) = true →
  ((∃ r, ds_status (tf_status f) = st_active r band_healthy) ∨ ∃ m, ds_status (tf_status f) = st_repaid_locked true m) ∧
  (∃ p, tf_price f = rd_ok p) ∧ ∀ a, tf_available f = Some a → 0 < av_stroops a.
Proof.
  unfold borrow_tab. intros Ho H.
  assert ((∃ r, ds_status (tf_status f) = st_active r band_healthy) ∨
          ∃ m, ds_status (tf_status f) = st_repaid_locked true m) as Hst
    by (destruct (ds_status (tf_status f)) as [| | | | | |r []| | |[] m| | |]; try done; eauto).
  split; [done|].
  assert (enabled match tf_price f, tf_available f with
    | rd_failed, _ => tab_off REASONS.priceUnavailable
    | rd_checking, _ => tab_off REASONS.priceChecking
    | rd_ok _, Some a =>
        if av_stroops a <=? 0
        then tab_off (if av_limitedByPool a then REASONS.poolEmpty else REASONS.belowLimit) else tab_on
    | rd_ok _, None => tab_on
    end = true) as Hp by (destruct Hst as [[r E]|[m E]]; rewrite E in H; exact H).
  destruct (tf_price f) as [| |p]; try done. split; [by exists p|].
  intros a Ha. rewrite Ha in Hp. destruct (av_stroops a <=? 0) eqn:E; bools; [done|lia].
Qed.

Lemma release_tab_on f :
  enabled (release_tab f) = true → ∃ nb, ds_status (tf_status f) = st_repaid_locked nb false.
Proof.
  unfold release_tab. destruct (ds_status (tf_status f)) as [| | | | | | | | |nb []| | |]; try done. eauto.
Qed.

(** An action the loan page offers is one the reads allow: borrowing, on a loan
    the contract holds as active, at 150% or more or without debt, with the
    price read and something left to borrow; repaying, a debt of a loan that is
    open; releasing, a loan without debt whose lock was read as unspent. And
    nothing else while a transaction runs, here or in another tab, or the
    release is being co-signed. *)
Theorem offered_actions_are_allowed inputs debt price available busy otherTx :
  let f := page_facts inputs debt price available busy otherTx in
  (busy = None → enabled (loanTabs f t_borrow) = true →
     ((∃ r, live_loan inputs r ∧ BORROW_LIMIT_BP ≤ r) ∨ untouched inputs) ∧
     (∃ p, price = rd_ok p) ∧ ∀ a, available = Some a → 0 < av_stroops a) ∧
  (busy = None → enabled (loanTabs f t_repay) = true →
     0 < debt ∧ ∃ c, found inputs c ∧ cp_status c ≠ liquidated ∧ lock_not_spent inputs) ∧
  (busy = None → enabled (loanTabs f t_release) = true →
     cr_lockOutspend (si_chain inputs) = Some unspent ∧
     ∃ c, found inputs c ∧ (cp_status c = closed ∨ (cp_status c = active ∧ cp_debtStroops c = 0))) ∧
  (∀ tab, busy = None → enabled (loanTabs f tab) = true → otherTx = false ∧ tf_catchingUp f = false) ∧
  (∀ b tab, busy = Some b → enabled (loanTabs f tab) = true → tab = b).
Proof.
  intros f. pose proof (proj1 (status_is_what_was_read inputs)) as Hs.
  assert (∀ tab, enabled (loanTabs f tab) = true →
    isOpen (ds_status (derivePositionStatus inputs)) = true ∧
    ∃ own, loanTabs f tab = gate f tab own ∧
      own = match tab with
            | t_borrow => borrow_tab f
            | t_repay => if 0 <? tf_debtStroops f then tab_on else tab_off REASONS.nothingToRepay
            | t_release => release_tab f
            end) as Hopen.
  { intros tab H. destruct (loanTabs_open f tab H) as [H1 H2]. split; [done|].
    eexists. split; [|done]. unfold loanTabs. by rewrite H1, H2. }
  assert (∀ tab own, busy = None → enabled (gate f tab own) = true →
    enabled own = true ∧ otherTx = false ∧ tf_catchingUp f = false) as Hg
    by (intros tab own Hb He; exact (gate_idle f tab own Hb He)).
  split_and!.
  - intros Hb H. destruct (Hopen _ H) as (Ho & own & E & ->). rewrite E in H.
    apply Hg in H as (H & _); [|done]. destruct (borrow_tab_on f Ho H) as (Hst & Hpr & Hav).
    split; [|done]. destruct Hst as [[r Er]|[m Em]].
    + left. exists r. change (tf_status f) with (derivePositionStatus inputs) in Er. rewrite Er in Hs.
      destruct Hs as (Hl & _ & Hband). split; [done|]. by apply Hband.
    + right. change (tf_status f) with (derivePositionStatus inputs) in Em. rewrite Em in Hs.
      destruct Hs as (c & Hc & _ & _ & Hn & Hlk & _). exists c. by destruct (Hn eq_refl).
  - intros Hb H. destruct (Hopen _ H) as (Ho & own & E & ->). rewrite E in H.
    apply Hg in H as (H & _); [|done]. split; [|by apply isOpen_reads].
    change (tf_debtStroops f) with debt in H. destruct (0 <? debt) eqn:Ed; bools; done.
  - intros Hb H. destruct (Hopen _ H) as (Ho & own & E & ->). rewrite E in H.
    apply Hg in H as (H & _); [|done]. destruct (release_tab_on f H) as [nb En].
    change (tf_status f) with (derivePositionStatus inputs) in En. rewrite En in Hs.
    destruct Hs as (c & Hc & _ & Hf & Ht & _ & Hu). split; [by apply Hu|]. exists c. split; [done|].
    destruct nb; [right; by apply Ht|left; by apply Hf].
  - intros tab Hb H. destruct (Hopen _ H) as (_ & own & E & _). rewrite E in H.
    apply Hg in H as (_ & ? & ?); done.
  - intros b tab Hb H. destruct (Hopen _ H) as (_ & own & E & _). rewrite E in H.
    rewrite (gate_busy f tab own b) in H by done. by bools.
Qed.
