(* ===== verification/Journey.v ===== *)
(** * The borrow journey and the home page
    ([frontend/app/src/lib/borrow/journey.ts, home/model.ts, reclaim/model.ts])

    Which screen of the deposit journey is shown, where Edit and Back lead, and
    how the home page orders the loans and picks the one urgent item. *)

From Stdlib Require Import Sorted.
From S2P Require Import Prelude JsData JsMap LendRates Amounts AppStore FlowEngine LoanStatus LoanModel.

(** ** Steps *)

(** [StepId] and ["done"] *)
Inductive JourneyStep : Type := s_amount | s_stellar | s_bitcoin | s_review | s_wait | s_register | s_done.
Inductive EditableStep : Type := ed_amount | ed_stellar | ed_bitcoin.
Inductive Stage : Type := stage_wait | stage_register.

#[global] Instance JourneyStep_eq_dec : EqDecision JourneyStep.
Proof. solve_decision. Defined.
#[global] Instance EditableStep_eq_dec : EqDecision EditableStep.
Proof. solve_decision. Defined.

Definition STEPS : list (JourneyStep * string) := [
  (s_amount, "Amount"); (s_stellar, "Stellar wallet"); (s_bitcoin, "Bitcoin wallet");
  (s_review, "Review and send"); (s_wait, "Wait for Bitcoin"); (s_register, "Register on Stellar")].

(** [STEPS.findIndex] *)
Definition stepIndex (step : JourneyStep) : Z :=
  match list_find (λ s : JourneyStep * string, s.1 = step) STEPS with Some (i, _) => Z.of_nat i | None => -1 end.

(** An editable step is a step. *)
Definition step_of (e : EditableStep) : JourneyStep :=
  match e with ed_amount => s_amount | ed_stellar => s_stellar | ed_bitcoin => s_bitcoin end.

Definition TIMELOCK_MIN_BLOCKS_LEFT : Z := 4320.
Definition LOW_XLM_STROOPS : Z := 2 * STROOPS_PER_UNIT.

(** ** Time *)

(** [Math.round(minutes / 6) / 10] hours, one decimal as JavaScript prints it. *)
Definition hours_text (tenths : Z) : string :=
  if tenths mod 10 =? 0 then z_to_string (tenths / 10)
  else z_to_string (tenths / 10) +:+ "." +:+ z_to_string (tenths mod 10).

Definition timeLeft (remainingBlocks blockMinutes : Z) : string :=
  let minutes := Z.max 0 remainingBlocks * blockMinutes in
  if minutes <=? 0 then "Any moment now"
  else if minutes <? 60 then "About " +:+ z_to_string minutes +:+ " min left"
  else
    let tenths := (2 * minutes + 6) / 12 in
    "About " +:+ hours_text tenths +:+ " " +:+ (if tenths =? 10 then "hour" else "hours") +:+ " left".

Definition journeyMinutes (m blockMinutes : Z) : Z := m * blockMinutes + 5.

(** ** Reads *)

Inductive Funding : Type := fund_ok | fund_unfunded | fund_low (xlm : string).

(** The Horizon balances as (asset type, decimal balance). *)
Definition fundingOf (account : option (list (string * string))) : Funding :=
  match account with
  | None => fund_unfunded
  | Some balances =>
      let balance := match list_find (λ b : string * string, b.1 = "native") balances with
                     | Some (_, b) => b.2 | None => "0" end in
      let '(whole, frac) := split_point (chars balance) in
      let stroops := dec_value whole * STROOPS_PER_UNIT + dec_value (take 7 (padEnd 7 frac)) in
      if LOW_XLM_STROOPS <=? stroops then fund_ok else fund_low (formatUsdc stroops 2)
  end.

Record TxoStats : Type := { funded_txo_sum : Z; spent_txo_sum : Z }.

Definition btcBalanceOf (chain_stats : TxoStats) (mempool_stats : option TxoStats) : Z :=
  let m := default {| funded_txo_sum := 0; spent_txo_sum := 0 |} mempool_stats in
  funded_txo_sum chain_stats - spent_txo_sum chain_stats + funded_txo_sum m - spent_txo_sum m.

(** ** Routing *)

(** [REGISTER_PHASES.has(flow.phase)] *)
Definition register_phase (f : FlowState) : bool :=
  match f with
  | f_proving | f_submitted _ | f_post_processing _ | f_needs_attention _ _ _ | f_timed_out _ => true
  | _ => false
  end.

(** [REGISTER_STATUS.has(status)] *)
Definition register_status (s : LoanStatus) : bool :=
  match s with st_ready_to_register | st_registering => true | _ => false end.

Definition depositStage (step : DepositStep) (status : LoanStatus) (flow : FlowState) : Stage :=
  if register_phase flow || match flow with f_ready => true | _ => false end then stage_register
  else if match flow with
          | f_awaiting_signature Rejection.stellar _ | f_signature_cancelled Rejection.stellar _ _ => true
          | _ => false end then stage_register
  else if match flow with f_preparing (Some building) _ => true | _ => false end then stage_register
  else if register_status status then stage_register
  else match step with step_sent | step_confirming => stage_wait | _ => stage_register end.

Record RouteFacts : Type := {
  rf_done : bool;
  rf_stage : option Stage;
  rf_sending : bool;
  rf_amountConfirmed : bool;
  rf_editing : option EditableStep;
  rf_stellarReady : bool;
  rf_bitcoinReady : bool;
}.

Definition routeStep (f : RouteFacts) : JourneyStep :=
  if rf_done f then s_done
  else match rf_stage f with
  | Some stage_wait => s_wait
  | Some stage_register => s_register
  | None =>
      if rf_sending f then s_review
      else match rf_editing f with
      | Some e => step_of e
      | None =>
          if negb (rf_amountConfirmed f) then s_amount
          else if negb (rf_stellarReady f) then s_stellar
          else if negb (rf_bitcoinReady f) then s_bitcoin
          else s_review
      end
  end.

Definition EDITABLE : list EditableStep := [ed_amount; ed_stellar; ed_bitcoin].

Definition canEdit (target : EditableStep) (current : JourneyStep) (f : RouteFacts) : bool :=
  if rf_done f || bool_decide (is_Some (rf_stage f)) || rf_sending f || bool_decide (current = s_done) then false
  else if bool_decide (current = s_wait) || bool_decide (current = s_register) then false
  else stepIndex (step_of target) <? stepIndex current.

Definition backTarget (current : JourneyStep) (f : RouteFacts) : option EditableStep :=
  if bool_decide (current = s_done) || bool_decide (current = s_amount) then None
  else
    prev ← at_ EDITABLE (stepIndex current - 1);
    if canEdit prev current f then Some prev else None.

Definition isEditable (step : JourneyStep) : bool := bool_decide (step ∈ map step_of EDITABLE).

(** ** Summary *)

(** [locking] and [borrowUpTo]; an amount of 0 counts as none, as the code tests it. *)
Definition summaryValues (sats priceStroops : option Z) : option string * option string :=
  (sats ← nonzero sats; Some (formatBtc sats +:+ " BTC"),
   sats ← nonzero sats; price ← nonzero priceStroops;
   Some (formatUsdc (maxBorrowStroops sats price) 2 +:+ " USDC")).

(** ** The home page *)

Record HomeLoan : Type := { hl_position : Position; hl_derived : DerivedStatus }.
Record HomeDeposit : Type := { hd_pd : PendingDeposit; hd_derived : DerivedStatus }.

Inductive Urgent : Type :=
| u_liquidatable (loan : HomeLoan)
| u_at_risk (loan : HomeLoan)
| u_deposit (status : LoanStatus) (deposit : option HomeDeposit) (loan : option HomeLoan)
| u_repaid (loan : HomeLoan)
| u_reclaimable (loan : HomeLoan).

Definition isDepositStatus (s : LoanStatus) : bool :=
  match s with
  | st_btc_sent | st_btc_unseen | st_confirming _ _ _ | st_ready_to_register | st_registering => true
  | _ => false
  end.

Definition hl_status (l : HomeLoan) : LoanStatus := ds_status (hl_derived l).

Definition isClosedLoan (l : HomeLoan) : bool :=
  match hl_status l with st_released _ | st_liquidated _ => true | _ => false end.

Definition rank (s : LoanStatus) : Z :=
  match s with
  | st_liquidatable _ => 0
  | st_at_risk _ => 1
  | st_repaid_locked neverBorrowed _ => if neverBorrowed then 2 else 3
  | st_releasing _ => 4
  | _ => 2
  end.

(** [byRank(a, b) <= 0] *)
Definition byRank (a b : HomeLoan) : bool :=
  let d := rank (hl_status a) - rank (hl_status b) in
  (if d =? 0 then index (hl_position a) - index (hl_position b) else d) <=? 0.

Definition sortLoans (loans : list HomeLoan) : list HomeLoan * list HomeLoan :=
  (sort_with byRank (List.filter (λ l, negb (isClosedLoan l)) loans),
   sort_by (λ l, - createdAt (hl_position l)) (List.filter isClosedLoan loans)).

Definition pickUrgent (loans : list HomeLoan) (deposit : option HomeDeposit) : option Urgent :=
  let find (k : LoanStatus → bool) := List.find (λ l, k (hl_status l)) loans in
  match find (λ s, match s with st_liquidatable _ => true | _ => false end) with
  | Some l => Some (u_liquidatable l)
  | None =>
  match find (λ s, match s with st_at_risk _ => true | _ => false end) with
  | Some l => Some (u_at_risk l)
  | None =>
  match (d ← deposit;
         let s := ds_status (hd_derived d) in
         if isDepositStatus s || is_checking s then Some (u_deposit s (Some d) None) else None) with
  | Some u => Some u
  | None =>
  match find isDepositStatus with
  | Some l => Some (u_deposit (hl_status l) None (Some l))
  | None =>
  match List.find (λ l, ds_reclaimable (hl_derived l)) loans with
  | Some l => Some (u_reclaimable l)
  | None =>
      u_repaid <$> find (λ s, match s with st_repaid_locked false _ => true | _ => false end)
  end end end end end.

Inductive Lender : Type := lender_earn | lender_lend.

Definition homeHeadline (urgent : option Urgent) (openLoans : Z) (onlyLoan : option LoanStatus)
    (lender : option Lender) (findingLoans : bool) : string :=
  match urgent with
  | Some (u_liquidatable _) => "Your loan can be liquidated now."
  | Some (u_at_risk _) => "Your loan is close to liquidation."
  | Some (u_deposit _ _ _) => "Your deposit is on its way."
  | Some (u_repaid _) => "Your loan is repaid."
  | Some (u_reclaimable _) => "You can reclaim your BTC without Writz."
  | None =>
      match onlyLoan with
      | Some (st_active _ band_healthy) => "Your loan is healthy."
      | Some (st_releasing _) => "Your BTC is on its way back."
      | _ =>
          if openLoans =? 1 then "Your loan is open."
          else if 1 <? openLoans then "Your loans."
          else if findingLoans then "Your loans."
          else match lender with
          | Some lender_earn => "Your USDC is earning."
          | Some lender_lend => "Your USDC is in the borrow pool."
          | None => "Lock Bitcoin. Borrow dollars."
          end
      end
  end.

(** ** Reclaiming *)

Inductive ReclaimWindow : Type := rw_unknown | rw_future (blocksLeft : Z) | rw_reached.

Definition reclaimWindow (height : Z) (tip : option Z) : ReclaimWindow :=
  match tip with
  | None => rw_unknown
  | Some tip => if height <=? tip then rw_reached else rw_future (height - tip)
  end.

Example journey_examples :
  (map (λ s, stepIndex s) [s_amount; s_bitcoin; s_register; s_done], timeLeft 6 10, timeLeft 13 10, timeLeft 0 10,
   fundingOf (Some [("credit", "5"); ("native", "1.5000000")]))
  = ([0; 2; 5; -1], "About 1 hour left", "About 2.2 hours left", "Any moment now", fund_low "1.50").
Proof. vm_compute. reflexivity. Qed.

(** ** Theorems *)

Definition with_editing (e : option EditableStep) (f : RouteFacts) : RouteFacts := {|
  rf_done := rf_done f; rf_stage := rf_stage f; rf_sending := rf_sending f;
  rf_amountConfirmed := rf_amountConfirmed f; rf_editing := e;
  rf_stellarReady := rf_stellarReady f; rf_bitcoinReady := rf_bitcoinReady f |}.

Lemma canEdit_spec target current f :
  canEdit target current f = true →
  rf_done f = false ∧ rf_stage f = None ∧ rf_sending f = false ∧ stepIndex (step_of target) < stepIndex current.
Proof.
  unfold canEdit. destruct (rf_done f); [done|]. destruct (rf_stage f); [done|]. destruct (rf_sending f); [done|].
  destruct current; try done; intros H; split_and!; try done; apply Z.ltb_lt, H.
Qed.

Lemma backTarget_spec current f e :
  backTarget current f = Some e →
  canEdit e current f = true ∧ stepIndex (step_of e) = stepIndex current - 1.
Proof.
  unfold backTarget. intros H. split_match. destruct current; try done; vm_compute at_ in H; simpl in H;
    split_in H; simplify_eq; done.
Qed.

(** The journey only turns back before Bitcoin is sent: from then on there is
    one screen and neither Edit nor Back. Before, both lead to an earlier step,
    Back to the previous one, and a step chosen to edit is the one shown. *)
Theorem journey_goes_forward f :
  (∀ st, rf_stage f = Some st →
     (rf_done f = false → routeStep f = match st with stage_wait => s_wait | stage_register => s_register end) ∧
     ∀ target current, canEdit target current f = false ∧ backTarget current f = None) ∧
  (∀ target, canEdit target (routeStep f) f = true →
     stepIndex (step_of target) < stepIndex (routeStep f) ∧
     routeStep (with_editing (Some target) f) = step_of target) ∧
  (∀ e, backTarget (routeStep f) f = Some e →
     stepIndex (step_of e) = stepIndex (routeStep f) - 1 ∧ routeStep (with_editing (Some e) f) = step_of e).
Proof.
  assert (∀ target, canEdit target (routeStep f) f = true →
    routeStep (with_editing (Some target) f) = step_of target) as He.
  { intros target H. apply canEdit_spec in H as (H1 & H2 & H3 & _). unfold routeStep. simpl. by rewrite H1, H2, H3. }
  split_and!.
  - intros st Hst. split; [intros Hd; unfold routeStep; rewrite Hd, Hst; by destruct st|].
    intros target current. assert (∀ t, canEdit t current f = false) as Hno.
    { intros t. apply not_true_is_false. intros (_ & E & _)%canEdit_spec. congruence. }
    split; [done|]. destruct (backTarget current f) as [e|] eqn:E; [|done].
    apply backTarget_spec in E as [E _]. by rewrite Hno in E.
  - intros target H. split; [by apply canEdit_spec in H as (_ & _ & _ & ?)|by apply He].
  - intros e H. apply backTarget_spec in H as [H1 H2]. auto.
Qed.

(** *** The home page *)

Lemma sortLoans_spec loans :
  let '(open, closed_) := sortLoans loans in
  open ++ closed_ ≡ₚ loans ∧
  (∀ l, l ∈ open → isClosedLoan l = false) ∧ (∀ l, l ∈ closed_ → isClosedLoan l = true) ∧
  StronglySorted (λ a b, byRank a b = true) open ∧
  StronglySorted (λ a b, createdAt (hl_position b) ≤ createdAt (hl_position a)) closed_.
Proof.
  unfold sortLoans. split_and!.
  - rewrite sort_with_perm, sort_by_perm. induction loans as [|l loans IH]; simpl; [done|].
    destruct (isClosedLoan l); simpl; [|by rewrite IH]. rewrite <- Permutation_middle. by rewrite IH.
  - intros l Hl. rewrite sort_with_perm in Hl. apply list_elem_of_In, List.filter_In in Hl as [_ Hl]. by bools.
  - intros l Hl. rewrite sort_by_perm in Hl. by apply list_elem_of_In, List.filter_In in Hl as [_ Hl].
  - apply sort_with_orders.
    + intros a b. unfold byRank. repeat case_match; bools; rewrite !Z.leb_le; lia.
    + intros a b c. unfold byRank. repeat case_match; bools; rewrite ?Z.leb_le in *; lia.
  - pose proof (sort_by_sorted (λ l, - createdAt (hl_position l)) (List.filter isClosedLoan loans)) as H.
    revert H. generalize (sort_by (λ l, - createdAt (hl_position l)) (List.filter isClosedLoan loans)). intros ls.
    induction 1 as [|l ls _ IH Hf]; constructor; [done|]. eapply List.Forall_impl; [|exact Hf]. unfold by_key. lia.
Qed.

Lemma find_none {A} (f : A → bool) l : List.find f l = None → ∀ x, x ∈ l → f x = false.
Proof. intros H x Hx. eapply List.find_none; [exact H|]. by apply list_elem_of_In. Qed.

(** Money at risk comes first: a loan that can be liquidated is the urgent item
    whatever else is open, then one close to it, and nothing is urgent only
    when no loan is in danger, arriving, reclaimable or waiting to be released. *)
Lemma pickUrgent_spec loans deposit :
  ((∃ l r, l ∈ loans ∧ hl_status l = st_liquidatable r) →
   ∃ l r, l ∈ loans ∧ hl_status l = st_liquidatable r ∧ pickUrgent loans deposit = Some (u_liquidatable l)) ∧
  ((∃ l r, l ∈ loans ∧ hl_status l = st_at_risk r) → (∀ l r, l ∈ loans → hl_status l ≠ st_liquidatable r) →
   ∃ l r, l ∈ loans ∧ hl_status l = st_at_risk r ∧ pickUrgent loans deposit = Some (u_at_risk l)) ∧
  (pickUrgent loans deposit = None →
   ∀ l, l ∈ loans → (∀ r, hl_status l ≠ st_liquidatable r ∧ hl_status l ≠ st_at_risk r) ∧
     isDepositStatus (hl_status l) = false ∧ ds_reclaimable (hl_derived l) = false ∧
     ∀ m, hl_status l ≠ st_repaid_locked false m).
Proof.
  unfold pickUrgent.
  destruct (List.find (λ l, match hl_status l with st_liquidatable _ => true | _ => false end) loans) as [l1|] eqn:E1.
  { apply List.find_some in E1 as [Hin1 H1]. apply list_elem_of_In in Hin1.
    destruct (hl_status l1) as [| | | | | | | |r1| | | |] eqn:Es1; try done.
    split_and!; [intros _; by exists l1, r1|intros _ Hno; by destruct (Hno _ r1 Hin1)|done]. }
  assert (∀ l r, l ∈ loans → hl_status l ≠ st_liquidatable r) as Hn1
    by (intros l r Hl E; apply (find_none _ _ E1) in Hl; by rewrite E in Hl).
  split; [intros (l & r & Hl & E); by destruct (Hn1 _ r Hl)|].
  destruct (List.find (λ l, match hl_status l with st_at_risk _ => true | _ => false end) loans) as [l2|] eqn:E2.
  { apply List.find_some in E2 as [Hin2 H2]. apply list_elem_of_In in Hin2.
    destruct (hl_status l2) as [| | | | | | |r2| | | | |] eqn:Es2; try done.
    split; [intros _ _; by exists l2, r2|done]. }
  assert (∀ l r, l ∈ loans → hl_status l ≠ st_at_risk r) as Hn2
    by (intros l r Hl E; apply (find_none _ _ E2) in Hl; by rewrite E in Hl).
  split; [intros (l & r & Hl & E); by destruct (Hn2 _ r Hl)|].
  intros H l Hl. destruct (d ← deposit; _) as [u|]; [done|].
  destruct (List.find (λ l, isDepositStatus (hl_status l)) loans) as [|] eqn:E3; [done|].
  destruct (List.find (λ l, ds_reclaimable (hl_derived l)) loans) as [|] eqn:E4; [done|].
  destruct (List.find (λ l, match hl_status l with st_repaid_locked false _ => true | _ => false end) loans)
    as [|] eqn:E5; [done|].
  pose proof (find_none _ _ E3 l Hl). pose proof (find_none _ _ E4 l Hl). pose proof (find_none _ _ E5 l Hl) as H5.
  split_and!; [by eauto|done|done|]. intros m Em. simpl in H5. by rewrite Em in H5.
Qed.
