(* ===== verification/Discover.v ===== *)
(** * Loans from the chain ([frontend/app/src/lib/flows/discover.ts])

    A wallet's loans are found in its own transaction history and confirmed
    with [get_position], so every device shows the same list ([syncPosition],
    [discoverPositions]). Horizon, the contract, Esplora and the decoding of
    Stellar values are arguments. *)

From S2P Require Import Prelude JsData LendRates AppStore.

(** ** The wallet's history *)

Record DepositCall : Type := { dc_txid : string; dc_stellarTxHash : string; dc_at : Z }.

Record HorizonInvokeOp : Type := {
  op_type : string;
  transaction_successful : option bool;
  transaction_hash : string;
  created_at : string;
  (** the values of the parameters, in base64 *)
  op_parameters : option (list string);
}.

(** What [scValToNative] may give, as far as the code looks. *)
Inductive native_value : Type := n_string (s : string) | n_bytes (bs : list byte) | n_other.

#[global] Instance native_value_eq_dec : EqDecision native_value.
Proof. solve_decision. Defined.

Class HistoryLib : Type := {
  (** [None]: the value does not decode *)
  native : string → option native_value;
  sha256_ : list byte → list byte;
  Date_parse : string → Z;
}.

(** A page of operations: its records and the link to the next one. *)
Record page : Type := { pg_status : Z; pg_records : list HorizonInvokeOp; pg_next : option string }.

Definition DEPOSITOR_ARG : nat := 0.
Definition RAW_TX_ARG : nat := 4.
Definition MAX_PAGES : nat := 25.

Section history.
Context `{HistoryLib}.

Definition txidOfRawTx (raw : list byte) : string := to_hex (rev (sha256_ (sha256_ raw))).

Definition depositCallOf (op : HorizonInvokeOp) (contractId owner : string) : option DepositCall :=
  if negb (bool_decide (op_type op = "invoke_host_function")) || bool_decide (transaction_successful op = Some false)
  then None else
  let params := default [] (op_parameters op) in
  if zlen params <? 2 + Z.of_nat RAW_TX_ARG + 1 then None else
  c ← (params !! 0%nat) ≫= native;
  if negb (bool_decide (c = n_string contractId)) then None else
  f ← (params !! 1%nat) ≫= native;
  if negb (bool_decide (f = n_string "deposit")) then None else
  let args := drop 2 params in
  a ← (args !! DEPOSITOR_ARG) ≫= native;
  if negb (bool_decide (a = n_string owner)) then None else
  raw ← (args !! RAW_TX_ARG) ≫= native;
  match raw with
  | n_bytes raw => Some {| dc_txid := txidOfRawTx raw; dc_stellarTxHash := transaction_hash op;
                           dc_at := Date_parse (created_at op) |}
  | _ => None
  end.

Context {W : Type} (get : string → W → result exn page * W).

(** The loop over the pages, [more] of them at most. *)
Fixpoint history_pages (more : nat) (url : option string) (contractId owner : string) (calls : list DepositCall) :
    io (device W) exn (list DepositCall) :=
  match more, url with
  | O, _ | _, None => mret calls
  | S more, Some url =>
      res ← await (get url);
      if pg_status res =? 404 then mret calls
      else if negb ((200 <=? pg_status res) && (pg_status res <=? 299))
      then throw (error ("Horizon error " +:+ z_to_string (pg_status res)))
      else
        let calls := calls ++ omap (λ op, depositCallOf op contractId owner) (pg_records res) in
        history_pages more (if zlen (pg_records res) =? 200 then pg_next res else None) contractId owner calls
  end.

Definition horizonDepositCalls (owner horizonUrl contractId : string) : io (device W) exn (list DepositCall) :=
  calls ← history_pages MAX_PAGES
            (present (Some (horizonUrl +:+ "/accounts/" +:+ owner +:+ "/operations?order=desc&limit=200")))
            contractId owner [];
  mret (rev calls).
End history.

(** ** A position brought up to date *)

Definition localStatus (chain : ChainPosition) (prior : option Position) : PositionStatus :=
  if bool_decide (cp_status chain = liquidated) then p_liquidated
  else if bool_decide ((status <$> prior) = Some p_released) then p_released
  else match cp_status chain with active => p_active | closed => p_closed | liquidated => p_liquidated end.

Record Fresh : Type := {
  fr_owner : string;
  fr_index : Z;
  fr_createdAt : Z;
  fr_stellarTxHash : option string;
  fr_vout : option Z;
}.

(** [a ?? b] *)
Definition coalesce {A} (a b : option A) : option A := match a with Some _ => a | None => b end.

Definition mergeChainPosition (chain : ChainPosition) (prior : option Position) (fresh : Fresh) : Position := {|
  id := cp_txid chain;
  txid := cp_txid chain;
  owner := fr_owner fresh;
  index := default (fr_index fresh) (index <$> prior);
  createdAt := default (fr_createdAt fresh) (createdAt <$> prior);
  collateralSats := z_to_string (cp_collateralSats chain);
  debtStroops := z_to_string (cp_debtStroops chain);
  status := localStatus chain prior;
  btcPubkey := Some (cp_userPubkey chain);
  timelockHeight := Some (cp_timelockHeight chain);
  vout := coalesce (prior ≫= vout) (fr_vout fresh);
  releaseTxid := prior ≫= releaseTxid;
  releaseAddress := prior ≫= releaseAddress;
  stellarTxHash := coalesce (prior ≫= stellarTxHash) (fr_stellarTxHash fresh);
|}.

(** [while (taken.has(i)) i++] *)
Fixpoint next_free (fuel : nat) (i : Z) (used : list Z) : Z :=
  match fuel with
  | O => i
  | S fuel => if bool_decide (i ∈ used) then next_free fuel (i + 1) used else i
  end.

(** One round per number in use, and one more, are enough. *)
Definition nextIndex (used : list Z) : Z := next_free (S (length used)) 0 used.

Class DiscoverDeps (W : Type) : Type := {
  now : W → Z;
  d_depositCalls : string → W → result exn (list DepositCall) * W;
  d_readPosition : string → W → result exn (option ChainPosition) * W;
  d_findVout : string → string → W → result exn (option Z) * W;
}.

Record Extra : Type := { ex_stellarTxHash : option string; ex_createdAt : option Z; ex_index : option Z }.

Section sync.
Context {W : Type} `{DiscoverDeps W}.
Abbreviation M := (io (device W) exn).

Definition date_now : M Z := gets (λ d, now (dv_world d)).

(** The number a loan gets that this device has not numbered yet. *)
Definition number_for (local : list Position) (txid_ : string) (pending_ : option PendingDeposit) : Z :=
  match pending_ with
  | Some pd => if bool_decide (pd_btcTxid pd = txid_) then pd_positionIndex pd
               else nextIndex (map index local ++ [pd_positionIndex pd])
  | None => nextIndex (map index local)
  end.

Definition syncPosition (owner_ txid_ : string) (extra : Extra) : M (option Position) :=
  chain ← await (d_readPosition txid_);
  match chain with
  | None => mret None
  | Some chain =>
      if negb (bool_decide (cp_depositor chain = owner_)) then mret None else
      local ← listPositions owner_;
      let prior := snd <$> list_find (λ p, id p = txid_) local in
      v ← match prior ≫= vout with
          | Some v => mret (Some v)
          | None => catching (await (d_findVout txid_ (cp_scriptPubKey chain))) (λ _, mret None)
          end;
      pending_ ← load_pending owner_;
      let idx := default (default (number_for local txid_ pending_) (ex_index extra)) (index <$> prior) in
      at_ ← date_now;
      let position := mergeChainPosition chain prior {|
        fr_owner := owner_; fr_index := idx; fr_createdAt := default at_ (ex_createdAt extra);
        fr_stellarTxHash := ex_stellarTxHash extra; fr_vout := v |} in
      savePosition position;;
      mret (Some position)
  end.

(** [new Set([...a, ...b])] *)
Definition distinct (l : list string) : list string :=
  foldl (λ acc x, if bool_decide (x ∈ acc) then acc else acc ++ [x]) [] l.

(** The loop of [discoverPositions]. *)
Fixpoint sync_all (owner_ : string) (known : list string) (calls : list DepositCall) (txids : list string)
    (found : Z) : M Z :=
  match txids with
  | [] => mret found
  | t :: txids =>
      let call := snd <$> list_find (λ c, dc_txid c = t) calls in
      position ← syncPosition owner_ t {| ex_stellarTxHash := dc_stellarTxHash <$> call;
                                          ex_createdAt := dc_at <$> call; ex_index := None |};
      sync_all owner_ known calls txids
        (match position with
         | Some _ => found + 1
         | None => if bool_decide (t ∈ known) then found + 1 else found
         end)
  end.

(** [found] and [scanned]. *)
Definition discoverPositions (owner_ : string) : M (Z * Z) :=
  calls ← await (d_depositCalls owner_);
  local ← listPositions owner_;
  let known := distinct (map id local) in
  let txids := distinct (known ++ map dc_txid calls) in
  found ← sync_all owner_ known calls txids 0;
  mret (found, zlen calls).
End sync.

(** ** Lemmas *)

Lemma next_free_spec fuel i used :
  let r := next_free fuel i used in
  i ≤ r ≤ i + Z.of_nat fuel ∧ (∀ j, i ≤ j < r → j ∈ used) ∧ (r < i + Z.of_nat fuel → r ∉ used).
Proof.
  revert i. induction fuel as [|fuel IH]; intros i r.
  - subst r. cbn. split_and!; lia.
  - subst r. cbn [next_free]. case_bool_decide as Hi; [|split_and!; [lia|lia|lia|done]].
    destruct (IH (i + 1)) as (Hb & Hj & Hn). split_and!; [lia|lia| |intros; apply Hn; lia].
    intros j Hj'. destruct (decide (j = i)) as [->|]; [done|]. apply Hj. lia.
Qed.

Lemma zrange_nodup a n : NoDup (zrange a n).
Proof.
  revert a. induction n as [|n IH]; intros a; cbn; constructor; [|apply IH]. rewrite elem_of_zrange. lia.
Qed.

(** [nextIndex] is the least number not in use. *)
Lemma nextIndex_least used : (nextIndex used ∉ used) ∧ ∀ j, 0 ≤ j < nextIndex used → j ∈ used.
Proof.
  destruct (next_free_spec (S (length used)) 0 used) as (Hb & Hj & Hn). fold (nextIndex used) in *.
  split; [|done]. destruct (decide (nextIndex used < 0 + Z.of_nat (S (length used)))) as [|Hge]; [by apply Hn|].
  exfalso. assert (Hsub : zrange 0 (S (length used)) ⊆+ used).
  { apply NoDup_submseteq; [apply zrange_nodup|]. intros x Hx%elem_of_zrange. apply Hj. lia. }
  apply submseteq_length in Hsub. rewrite zrange_length in Hsub. lia.
Qed.

Lemma merge_id chain prior fresh :
  id (mergeChainPosition chain prior fresh) = txid (mergeChainPosition chain prior fresh).
Proof. done. Qed.
