(* ===== verification/PositionTx.v ===== *)
(** * Borrowing, repaying and lending from the app
    ([frontend/app/src/lib/flows/borrow.ts, repay.ts, lend.ts, positionTx.ts,
    lib/flow/pendingTx.ts])

    A borrow or repay is one contract call whose effect on the loan is kept on
    the device: the change is recorded with the transaction's hash before it is
    sent, applied when it is confirmed, and applied or dropped on a later visit
    when the tab was closed in between. [locks().withTxLock] runs one such flow
    at a time. *)

From S2P Require Import Prelude JsData LendRates Amounts Rejection FlowEngine AppStore StellarTx Discover.

(** The contract calls, simulated, and the pool reads of [lend.ts]. *)
Class LoanEnv (W tx : Type) `{DiscoverDeps W, SubmitEnv W tx} : Type := {
  simulate_borrow : string → list byte → Z → W → result exn tx * W;
  simulate_repay : string → list byte → Z → W → result exn tx * W;
  simulate_supply : string → Z → W → result exn tx * W;
  simulate_withdraw : string → Z → W → result exn tx * W;
  getSupplyValue : string → W → result exn Z * W;
  (** [getLendPool().available] *)
  getPoolAvailable : W → result exn Z * W;
}.

(** ** Reconciling what an earlier visit left *)

Section reconcile.
Context {W tx : Type} `{DiscoverDeps W, SubmitEnv W tx}.
Abbreviation M := (io (device W) exn).

Definition replacePosition (removeId : string) (save : Position) : M () :=
  (if bool_decide (removeId = id save) then mret () else removePosition (owner save) removeId);;
  savePosition save.

Definition hasPosition (owner_ pid : string) : M bool :=
  p ← getPosition owner_ pid; mret (bool_decide (is_Some p)).

Definition applyPendingTx (owner_ : string) (t : PendingTx) : M () :=
  match ptx_positionUpdate t with
  | Some (removeId, save) =>
      has ← hasPosition owner_ removeId;
      if has : bool then replacePosition removeId save else mret ()
  | None => mret ()
  end.

(** The body of the loop, on one transaction. *)
Definition reconcile_tx (owner_ : string) (t : PendingTx) : M () :=
  status_ ← catching (Some <$> getTxStatus (tx := tx) (ptx_hash t)) (λ _, mret None);
  match status_ with
  | None => mret ()
  | Some status_ =>
      now_ ← date_now;
      match decideReconcile t status_ now_ with
      | keep_tx => mret ()
      | apply_tx => applyPendingTx owner_ t;; removeTx owner_ (ptx_hash t)
      | drop_tx => removeTx owner_ (ptx_hash t)
      end
  end.

Fixpoint reconcile_all (owner_ : string) (txs : list PendingTx) : M () :=
  match txs with
  | [] => mret ()
  | t :: txs => reconcile_tx owner_ t;; reconcile_all owner_ txs
  end.

(** Callers that overlap share one run, so it is one computation. *)
Definition reconcilePendingTxs (owner_ : string) : M () :=
  txs ← pendingTxs owner_; reconcile_all owner_ txs.
End reconcile.

(** ** Submitting *)

Definition with_debt (debt : Z) (st : PositionStatus) (p : Position) : Position := {|
  id := id p; owner := owner p; txid := txid p; collateralSats := collateralSats p;
  debtStroops := z_to_string debt; index := index p; status := st; createdAt := createdAt p;
  btcPubkey := btcPubkey p; timelockHeight := timelockHeight p; vout := vout p;
  releaseTxid := releaseTxid p; releaseAddress := releaseAddress p; stellarTxHash := stellarTxHash p |}.

Section submit.
Context {W tx : Type} `{LoanEnv W tx}.
Abbreviation M := (io (device W) exn).

(** [try { m } catch (e) { if (e instanceof TxTimedOutError) emit(...); throw e; }] *)
Definition noting_timeout {A} (m : M A) : M A :=
  catching m (λ e, match e with TxTimedOut h => emit (e_timed_out h) | _ => mret () end;; throw e).

(** The callbacks: the hash is recorded with what it will change. *)
Definition record_tx (owner_ : string) (kind : PendingTxKind) (update : option (string * Position)) (h : string) :
    M string :=
  t ← date_now;
  addTx owner_ {| ptx_hash := h; ptx_kind := kind; ptx_createdAt := t; ptx_positionUpdate := update |};;
  mret h.

Definition submitTrackedTx (kind : PendingTxKind) (owner_ : string) (t : tx) : M string :=
  noting_timeout (
    r ← signAndSubmit t (record_tx owner_ kind None) (removeTx owner_);
    removeTx owner_ r.1.1;;
    emit (e_settled (Some r.1.1));;
    mret r.1.1).

Definition submitPositionTx (kind : PendingTxKind) (t : tx) (position updated : Position) (keepOpen : bool) :
    M (string * option Z) :=
  let owner_ := owner position in
  r ← noting_timeout (signAndSubmit t (record_tx owner_ kind (Some (id position, updated))) (removeTx owner_));
  let '(hash, _, ledger) := r in
  replacePosition (id position) updated;;
  removeTx owner_ hash;;
  (if keepOpen then mret () else emit (e_settled (Some hash)));;
  mret (hash, ledger).

(** ** Borrowing *)

Definition requireOpenPosition (txid_ owner_ : string) : M ChainPosition :=
  chain ← await (d_readPosition txid_);
  match chain with
  | None => throw (error "PositionNotFound")
  | Some chain =>
      if negb (bool_decide (cp_depositor chain = owner_)) then throw (error "Unauthorized")
      else if negb (bool_decide (cp_status chain = active)) then throw (error "PositionNotActive")
      else mret chain
  end.

Record TxResult : Type := { tr_txHash : string; tr_updated : Position }.

Definition borrow (position : Position) (amountStroops : Z) (borrower : string) : M TxResult :=
  emit (e_preparing (Some reading));;
  chain ← requireOpenPosition (txid position) borrower;
  emit (e_preparing (Some building));;
  t ← simulateWritzLend (await (simulate_borrow borrower (internalTxid (txid position)) amountStroops));
  let updated := with_debt (cp_debtStroops chain + amountStroops) p_active position in
  r ← submitPositionTx k_borrow t position updated false;
  mret {| tr_txHash := r.1; tr_updated := updated |}.

(** ** Repaying *)

Definition MAX_REMAINDER_REPAYS : nat := 2.
Definition READ_ATTEMPTS : nat := 10.
Definition READ_RETRY_MS : Z := 2000.

(** The amount to send and whether it is the whole debt. *)
Definition repayPlan (amountStroops shownDebtStroops chainDebtStroops : Z) : Z * bool :=
  let full := (shownDebtStroops <=? amountStroops) || (chainDebtStroops <=? amountStroops) in
  (if full then chainDebtStroops else amountStroops, full).

(** Has the chain caught up with a transaction that landed in [ledger]? *)
Definition caught_up (chain : option ChainPosition) (ledger : option Z) (before : Z) : bool :=
  match chain with
  | None => true
  | Some c =>
      negb (bool_decide (cp_status c = active))
      || match ledger with Some l => l <=? cp_ledger c | None => cp_storedDebtStroops c <? before end
  end.

(** [attempts] reads are left after this one. *)
Fixpoint readAfter (attempts : nat) (txid_ : string) (ledger : option Z) (before : Z) : M (option ChainPosition) :=
  chain ← await (d_readPosition txid_);
  if caught_up chain ledger before then mret chain
  else match attempts with
       | O => mret chain
       | S attempts => await (d_sleep READ_RETRY_MS);; readAfter attempts txid_ ledger before
       end.

(** [send] of the code: what was sent and the position it leaves. *)
Definition send_repay (repayer : string) (chain : ChainPosition) (amount : Z) (current : Position) (keepOpen : bool) :
    M (string * option Z * Position) :=
  emit (e_preparing (Some building));;
  t ← simulateWritzLend (await (simulate_repay repayer (internalTxid (txid current)) amount));
  let left_ := if amount <? cp_debtStroops chain then cp_debtStroops chain - amount else 0 in
  let updated := with_debt left_ (if left_ =? 0 then p_closed else p_active) current in
  r ← submitPositionTx k_repay t current updated keepOpen;
  mret (r, updated).

(** The loop of a full repayment, with [rounds] follow-ups left. *)
Fixpoint repay_rest (rounds : nat) (repayer : string) (chain : ChainPosition)
    (sent : string * option Z * Position) : M TxResult :=
  let '(hash, ledger, updated) := sent in
  after ← readAfter READ_ATTEMPTS (txid updated) ledger (cp_storedDebtStroops chain);
  let done_ (p : Position) : M TxResult :=
    emit (e_settled (Some hash));; mret {| tr_txHash := hash; tr_updated := p |} in
  match after with
  | Some c =>
      if bool_decide (cp_status c = active) then
        if cp_debtStroops c =? 0 then done_ (with_debt (cp_debtStroops c) p_active updated)
        else match rounds with
             | O => done_ (with_debt (cp_debtStroops c) p_active updated)
             | S rounds =>
                 sent ← send_repay repayer c (cp_debtStroops c) updated true;
                 repay_rest rounds repayer c sent
             end
      else done_ (with_debt 0 p_closed updated)
  | None => done_ (with_debt 0 p_closed updated)
  end.

Definition repay (position : Position) (amountStroops : Z) (repayer : string) : M TxResult :=
  emit (e_preparing (Some reading));;
  chain ← requireOpenPosition (txid position) repayer;
  shown ← lift (of_option (BigInt (debtStroops position)) (error "Cannot convert to a BigInt"));
  let '(amount, full) := repayPlan amountStroops shown (cp_debtStroops chain) in
  sent ← send_repay repayer chain amount position full;
  if full then repay_rest MAX_REMAINDER_REPAYS repayer chain sent
  else mret {| tr_txHash := sent.1.1; tr_updated := sent.2 |}.

(** ** Lending *)

Definition supply (amountStroops : Z) (supplier : string) : M string :=
  t ← simulateWritzLend (await (simulate_supply supplier amountStroops));
  submitTrackedTx k_supply supplier t.

Definition wholeBalance (supplier : string) (fallback : Z) : M Z :=
  value ← await (getSupplyValue supplier);
  pool ← await getPoolAvailable;
  let amount := if value <? pool then value else pool in
  mret (if 0 <? amount then amount else fallback).

Definition withdraw (amountStroops : Z) (supplier : string) (all : bool) : M string :=
  amount ← (if all then wholeBalance supplier amountStroops else mret amountStroops);
  t ← simulateWritzLend (await (simulate_withdraw supplier amount));
  submitTrackedTx k_withdraw supplier t.
End submit.

(** ** The positions a device shows *)

Section device_facts.
Context {W : Type}.

(** What [listPositions] and [getPosition] read. *)
Definition view (o : string) (d : device W) : list Position :=
  filter (λ p, id p = txid p) (default [] (positions d !! o)).

Definition position_of (k : string) (ps : list Position) : option Position :=
  snd <$> list_find (λ p, id p = k) ps.

(** What a save writes. *)
Definition upsert (p : Position) (ps : list Position) : list Position :=
  match list_find (λ q, id q = id p) ps with Some (i, _) => <[i := p]> ps | None => ps ++ [p] end.

Lemma position_of_cons k p ps : position_of k (p :: ps) = if decide (id p = k) then Some p else position_of k ps.
Proof.
  unfold position_of. cbn. destruct (decide (id p = k)); [done|].
  by destruct (list_find (λ p, id p = k) ps) as [[]|].
Qed.

Lemma upsert_cons p q ps : upsert p (q :: ps) = if decide (id q = id p) then p :: ps else q :: upsert p ps.
Proof.
  unfold upsert. cbn. destruct (decide (id q = id p)); [done|].
  by destruct (list_find (λ q, id q = id p) ps) as [[]|].
Qed.

Lemma position_of_upsert p ps k :
  position_of k (upsert p ps) = if decide (k = id p) then Some p else position_of k ps.
Proof.
  induction ps as [|q ps IH].
  - unfold upsert. simpl. rewrite position_of_cons. repeat case_decide; congruence || done.
  - rewrite upsert_cons. destruct (decide (id q = id p)); rewrite !position_of_cons, ?IH; repeat case_decide; congruence || done.
Qed.

Lemma position_of_remove k k' ps :
  position_of k (filter (λ p, id p ≠ k') ps) = if decide (k = k') then None else position_of k ps.
Proof.
  induction ps as [|q ps IH]; [by case_decide|]. rewrite position_of_cons. destruct (decide (id q = k')).
  - rewrite filter_cons_False, IH by auto. repeat case_decide; congruence || done.
  - rewrite filter_cons_True, position_of_cons, IH by done. repeat case_decide; congruence || done.
Qed.

Lemma filter_all (P : Position → Prop) `{!∀ x, Decision (P x)} (l : list Position) : Forall P l → filter P l = l.
Proof. induction 1 as [|x l Hx _ IH]; [done|]. by rewrite filter_cons_True, IH. Qed.

Lemma view_wf o (d : device W) : Forall (λ p, id p = txid p) (view o d).
Proof. apply Forall_forall. intros p Hp. by apply list_elem_of_filter in Hp as [? _]. Qed.

Lemma filter_upsert p o (d : device W) :
  id p = txid p → filter (λ p, id p = txid p) (upsert p (view o d)) = upsert p (view o d).
Proof.
  intros Hp. apply filter_all. pose proof (view_wf o d). unfold upsert. destruct (list_find _ _) as [[i x]|].
  - by apply Forall_insert.
  - apply Forall_app. by repeat constructor.
Qed.

Lemma savePosition_run p (d : device W) :
  savePosition p d = (Ok (), set_positions (<[owner p := upsert p (view (owner p) d)]> (positions d)) d).
Proof.
  unfold savePosition, listPositions, write_positions, mbind, io_bind, gets, modify, upsert, view. cbn.
  by destruct (list_find _ _) as [[]|].
Qed.

Lemma view_insert o ps o' (d : device W) :
  view o' (set_positions (<[o := ps]> (positions d)) d) =
    if decide (o' = o) then filter (λ p, id p = txid p) ps else view o' d.
Proof.
  unfold view. simpl. case_decide as E; [subst; by rewrite lookup_insert_eq|by rewrite lookup_insert_ne].
Qed.

Lemma view_save p o' (d : device W) :
  id p = txid p → view o' (savePosition p d).2 = if decide (o' = owner p) then upsert p (view o' d) else view o' d.
Proof.
  intros Hp. rewrite savePosition_run. simpl. rewrite view_insert. case_decide; [|done]. subst. by apply filter_upsert.
Qed.

Lemma removePosition_run o k (d : device W) :
  removePosition o k d = (Ok (), set_positions (<[o := filter (λ p, id p ≠ k) (view o d)]> (positions d)) d).
Proof. done. Qed.

Lemma replacePosition_spec (k : string) u (d : device W) :
  let '(r, d') := replacePosition k u d in
  r = Ok () ∧ dv_world d' = dv_world d ∧ activity d' = activity d ∧ notes d' = notes d ∧
  (id u = txid u → position_of (id u) (view (owner u) d') = Some u) ∧
  (id u = txid u → ∀ o k', k' ≠ k → k' ≠ id u → position_of k' (view o d') = position_of k' (view o d)).
Proof.
  unfold replacePosition, mbind, io_bind. case_bool_decide as Ek.
  - cbn. rewrite savePosition_run. split_and!; try done.
    + intros Hu. pose proof (view_save u (owner u) d Hu) as Hv. rewrite savePosition_run in Hv. cbn in Hv. rewrite Hv.
      rewrite decide_True, position_of_upsert, decide_True by done. done.
    + intros Hu o k' Hk Hk'. pose proof (view_save u o d Hu) as Hv. rewrite savePosition_run in Hv. cbn in Hv. rewrite Hv.
      case_decide; [|done]. by rewrite position_of_upsert, decide_False.
  - rewrite removePosition_run. set (d1 := set_positions _ d). rewrite savePosition_run. split_and!; try done.
    + intros Hu. pose proof (view_save u (owner u) d1 Hu) as Hv. rewrite savePosition_run in Hv. cbn in Hv |- *. rewrite Hv.
      rewrite decide_True, position_of_upsert, decide_True by done. done.
    + intros Hu o k' Hk Hk'. pose proof (view_save u o d1 Hu) as Hv. rewrite savePosition_run in Hv. cbn in Hv |- *.
      rewrite Hv. assert (position_of k' (view o d1) = position_of k' (view o d)) as E1.
      { subst d1. rewrite view_insert. case_decide as Eo; [|done]. subst o. unfold view at 1.
        rewrite filter_all, position_of_remove, decide_False; [done|done|].
        pose proof (view_wf (owner u) d) as F. rewrite Forall_forall in F |- *. intros q [_ Hq]%list_elem_of_filter. auto. }
      case_decide; [|done]. rewrite position_of_upsert, decide_False by done. done.
Qed.
End device_facts.

(** ** Pending transactions *)

Section pending_facts.
Context {W tx : Type} `{DiscoverDeps W, SubmitEnv W tx}.
Abbreviation M := (io (device W) exn).

Definition pending_of (o : string) (d : device W) : list PendingTx := default [] (activity d !! o).

Lemma removeTx_run o h (d : device W) :
  removeTx o h d = (Ok (), set_activity (<[o := filter (λ t, ptx_hash t ≠ h) (pending_of o d)]> (activity d)) d).
Proof. done. Qed.

Lemma addTx_run o t (d : device W) :
  addTx o t d = (Ok (), set_activity
    (<[o := filter (λ t', ptx_hash t' ≠ ptx_hash t) (pending_of o d) ++ [t]]> (activity d)) d).
Proof. done. Qed.

Lemma pending_insert o ts (d : device W) : pending_of o (set_activity (<[o := ts]> (activity d)) d) = ts.
Proof. unfold pending_of. simpl. by rewrite lookup_insert_eq. Qed.

(** A transaction that leaves the loan [k] alone. *)
Definition untouched_by (k : string) (t : PendingTx) : Prop :=
  match ptx_positionUpdate t with Some (removeId, save) => removeId ≠ k ∧ id save ≠ k ∧ id save = txid save | None => True end.

Lemma applyPendingTx_spec o t (d : device W) :
  let '(r, d') := applyPendingTx o t d in
  r = Ok () ∧ activity d' = activity d ∧
  (∀ k, untouched_by k t → position_of k (view o d') = position_of k (view o d)) ∧
  (∀ removeId u, ptx_positionUpdate t = Some (removeId, u) → is_Some (position_of removeId (view o d)) →
     id u = txid u → owner u = o → position_of (id u) (view o d') = Some u).
Proof.
  unfold applyPendingTx, untouched_by. destruct (ptx_positionUpdate t) as [[removeId u]|]; [|done].
  unfold hasPosition, getPosition, listPositions, mbind, io_bind, gets. cbn.
  change (snd <$> list_find (λ p, id p = removeId) (filter (λ p, id p = txid p) (default [] (positions d !! o))))
    with (position_of removeId (view o d)).
  case_bool_decide as Hs; [|split_and!; try done; by intros ? ? [= <- <-] ?].
  pose proof (replacePosition_spec removeId u d) as Hr. destruct (replacePosition removeId u d) as [r d'].
  destruct Hr as (-> & _ & Ha & _ & H1 & H2). split_and!; [done|done| |].
  - intros k (Hk1 & Hk2 & Hwf). by apply H2.
  - intros ? ? [= <- <-] _ Hu <-. by apply H1.
Qed.

(** What a step of the loop may do to the device: nothing to a loan its
    transaction leaves alone, and nothing to the other transactions. *)
Definition stepped (o : string) (t : PendingTx) (d d' : device W) : Prop :=
  (∀ k, untouched_by k t → position_of k (view o d') = position_of k (view o d)) ∧
  (pending_of o d' = pending_of o d ∨ pending_of o d' = filter (λ t', ptx_hash t' ≠ ptx_hash t) (pending_of o d)).

(** Its transaction is gone, and what it changes is done. *)
Definition applied (o : string) (t : PendingTx) (d d' : device W) : Prop :=
  pending_of o d' = filter (λ t', ptx_hash t' ≠ ptx_hash t) (pending_of o d) ∧
  ∀ removeId u, ptx_positionUpdate t = Some (removeId, u) → is_Some (position_of removeId (view o d)) →
    id u = txid u → owner u = o → position_of (id u) (view o d') = Some u.

(** The same device but for its world and the notes. *)
Definition same_stores (d d1 : device W) : Prop := positions d1 = positions d ∧ activity d1 = activity d.

Lemma apply_steps o t (d d1 : device W) :
  same_stores d d1 →
  let d' := ((applyPendingTx o t;; removeTx o (ptx_hash t)) d1).2 in stepped o t d d' ∧ applied o t d d'.
Proof.
  intros [Hp1 Ha1]. assert (view o d1 = view o d) as Hv by (unfold view; by rewrite Hp1).
  unfold mbind, io_bind. pose proof (applyPendingTx_spec o t d1) as Hs.
  destruct (applyPendingTx o t d1) as [r d2]. destruct Hs as (-> & Ha & H1 & H2). rewrite removeTx_run. cbn zeta. cbn [snd].
  rewrite Hv in H1, H2.
  assert (pending_of o (set_activity (<[o := filter (λ t', ptx_hash t' ≠ ptx_hash t) (pending_of o d2)]> (activity d2)) d2)
          = filter (λ t', ptx_hash t' ≠ ptx_hash t) (pending_of o d)) as Hf
    by (rewrite pending_insert; unfold pending_of; by rewrite Ha, Ha1).
  split; split; [exact H1|by right|exact Hf|exact H2].
Qed.

Lemma drop_steps o t (d d1 : device W) : same_stores d d1 → stepped o t d (removeTx o (ptx_hash t) d1).2.
Proof.
  intros [Hp1 Ha1]. rewrite removeTx_run. unfold stepped. cbn [snd]. rewrite pending_insert. unfold view, pending_of. cbn.
  rewrite Hp1, Ha1. split; [done|by right].
Qed.

Lemma keep_steps o t (d d1 : device W) : same_stores d d1 → stepped o t d d1.
Proof. intros [Hp1 Ha1]. unfold stepped, view, pending_of. rewrite Hp1, Ha1. split; [done|by left]. Qed.

Lemma getTxStatus_run h (d : device W) :
  ∃ d1, getTxStatus (tx := tx) h d = ((d_getTxStatus h (dv_world d)).1, d1) ∧ same_stores d d1.
Proof.
  unfold getTxStatus, await, record, modify, mbind, io_bind.
  destruct (d_getTxStatus h (dv_world d)) as [[st|e] w]; [|by eexists]. case_bool_decide; by eexists.
Qed.

Lemma reconcile_tx_run o t (d : device W) :
  ∃ d1, same_stores d d1 ∧
  reconcile_tx (tx := tx) o t d =
    match (d_getTxStatus (ptx_hash t) (dv_world d)).1 with
    | Ok st =>
        match decideReconcile t st (now (dv_world d1)) with
        | keep_tx => mret ()
        | apply_tx => applyPendingTx o t;; removeTx o (ptx_hash t)
        | drop_tx => removeTx o (ptx_hash t)
        end d1
    | Err TabClosed => (Err TabClosed, d1)
    | Err _ => (Ok (), d1)
    end.
Proof.
  destruct (getTxStatus_run (ptx_hash t) d) as (d1 & E & Hs). exists d1. split; [done|].
  unfold reconcile_tx, catching, try_catch, mbind at 1, io_bind at 1, fmap, io_fmap. rewrite E.
  by destruct (d_getTxStatus (ptx_hash t) (dv_world d)).1 as [st|[]].
Qed.

Lemma reconcile_tx_steps o t (d : device W) :
  let d' := (reconcile_tx (tx := tx) o t d).2 in
  stepped o t d d' ∧ ((∀ w, (d_getTxStatus (ptx_hash t) w).1 = Ok SUCCESS) → applied o t d d').
Proof.
  intros d'. subst d'. destruct (reconcile_tx_run o t d) as (d1 & Hs & ->).
  assert ((∀ w, (d_getTxStatus (ptx_hash t) w).1 = Ok SUCCESS) → (d_getTxStatus (ptx_hash t) (dv_world d)).1 = Ok SUCCESS)
    as Hok by auto.
  destruct (d_getTxStatus (ptx_hash t) (dv_world d)).1 as [st|e].
  - destruct (decideReconcile t st (now (dv_world d1))) eqn:Ed.
    + destruct (apply_steps o t d d1 Hs) as [H1 H2]. by split.
    + split; [by apply drop_steps|]. by intros [= ->]%Hok.
    + split; [by apply keep_steps|]. by intros [= ->]%Hok.
  - destruct e; (split; [by apply keep_steps|]); by intros ?%Hok.
Qed.
(** Transactions that leave the loan [k] alone and are not [h] can be reconciled
    without changing either. *)
Lemma reconcile_others o k h ts (d : device W) :
  (∀ t, t ∈ ts → untouched_by k t ∧ ptx_hash t ≠ h) →
  let d' := (reconcile_all (tx := tx) o ts d).2 in
  position_of k (view o d') = position_of k (view o d) ∧
  (∀ t, ptx_hash t = h → (t ∈ pending_of o d' ↔ t ∈ pending_of o d)).
Proof.
  revert d. induction ts as [|t ts IH]; intros d Hts; [done|]. cbn [reconcile_all]. unfold mbind, io_bind.
  destruct (Hts t ltac:(by left)) as [Hk Hh]. destruct (reconcile_tx_steps o t d) as [[Hp Hq] _].
  assert (∀ t', ptx_hash t' = h → (t' ∈ pending_of o (reconcile_tx (tx := tx) o t d).2 ↔ t' ∈ pending_of o d)) as Hin.
  { intros t' Ht'. destruct Hq as [-> | ->]; [done|]. rewrite list_elem_of_filter. split; [by intros [_ ?]|].
    intros ?. split; [congruence|done]. }
  specialize (Hp k Hk). destruct (reconcile_tx (tx := tx) o t d) as [[[]|e] d1]; cbn in Hp, Hin |- *; [|by split].
  destruct (IH d1) as [IH1 IH2]; [intros t' Ht'; apply Hts; by right|]. rewrite IH1, Hp. split; [done|].
  intros t' Ht'. by rewrite (IH2 t' Ht'), Hin.
Qed.

(** A visit that reconciles to the end applies a transaction the network now
    reports as confirmed. *)
Lemma reconcile_applies o k t u (d : device W) d' :
  t ∈ pending_of o d → ptx_positionUpdate t = Some (k, u) → id u = k → id u = txid u → owner u = o →
  is_Some (position_of k (view o d)) →
  (∀ t', t' ∈ pending_of o d → t' = t ∨ (untouched_by k t' ∧ ptx_hash t' ≠ ptx_hash t)) →
  NoDup (map ptx_hash (pending_of o d)) →
  (∀ w, (d_getTxStatus (ptx_hash t) w).1 = Ok SUCCESS) →
  reconcilePendingTxs (tx := tx) o d = (Ok (), d') →
  position_of k (view o d') = Some u ∧ ∀ t', ptx_hash t' = ptx_hash t → t' ∉ pending_of o d'.
Proof.
  intros Hin Hu Hk Hwf Ho Hsome Hothers Hnd Hok Hrun.
  apply list_elem_of_split in Hin as (l1 & l2 & E). rewrite E in Hnd. rewrite map_app in Hnd. cbn in Hnd.
  apply NoDup_app in Hnd as (_ & Hnd1 & Hnd2). apply NoDup_cons in Hnd2 as [Hnd2 _].
  assert (∀ t', t' ∈ l1 ∨ t' ∈ l2 → untouched_by k t' ∧ ptx_hash t' ≠ ptx_hash t) as Hoth.
  { intros t' Ht'. destruct (Hothers t') as [->|]; [rewrite E, elem_of_app, elem_of_cons; naive_solver| |done].
    exfalso. destruct Ht' as [Ht'|Ht'].
    - apply (Hnd1 (ptx_hash t)); [by apply list_elem_of_fmap_2|by left].
    - by apply Hnd2, list_elem_of_fmap_2. }
  unfold reconcilePendingTxs, pendingTxs, gets, mbind, io_bind in Hrun. cbv beta iota in Hrun.
  change (default [] (activity d !! o)) with (pending_of o d) in Hrun. rewrite E in Hrun.
  destruct (reconcile_others o k (ptx_hash t) l1 d) as [Hp1 Hin1]; [auto|].
  assert (∀ ts1 ts2 (d : device W), reconcile_all (tx := tx) o (ts1 ++ ts2) d =
    (reconcile_all (tx := tx) o ts1;; reconcile_all (tx := tx) o ts2) d) as Happ.
  { induction ts1 as [|t1 ts1 IH]; intros ts2 dd; [done|]. cbn [app reconcile_all]. unfold mbind, io_bind.
    destruct (reconcile_tx o t1 dd) as [[[]|e] dd1]; [|done]. rewrite IH. done. }
  rewrite Happ in Hrun. unfold mbind, io_bind in Hrun. cbn [reconcile_all] in Hrun.
  destruct (reconcile_all o l1 d) as [[[]|e] d1]; [|done]. cbn in Hp1, Hin1.
  unfold mbind, io_bind in Hrun. destruct (reconcile_tx_steps o t d1) as [_ Hap]. specialize (Hap Hok) as [Hf Hv].
  destruct (reconcile_tx o t d1) as [[[]|e] d2]; [|done]. cbn in Hf, Hv.
  destruct (reconcile_others o k (ptx_hash t) l2 d2) as [Hp3 Hin3]; [auto|]. rewrite Hrun in Hp3, Hin3. cbn in Hp3, Hin3.
  split.
  - rewrite Hp3, <- Hk. apply (Hv k u Hu); [by rewrite Hp1|done|done].
  - intros t' Ht'. rewrite (Hin3 t' Ht'), Hf, list_elem_of_filter. intros [? _]. done.
Qed.
End pending_facts.

(** ** Submitting keeps the device in step with the chain *)

Section submit_facts.
Context {W tx : Type} `{LoanEnv W tx}.
Abbreviation M := (io (device W) exn).

Lemma drop_added h t ts :
  ptx_hash t = h →
  filter (λ t', ptx_hash t' ≠ h) (filter (λ t', ptx_hash t' ≠ h) ts ++ [t]) = filter (λ t', ptx_hash t' ≠ h) ts.
Proof.
  intros Ht. rewrite filter_app, (filter_cons_False _ t), app_nil_r by auto.
  rewrite list_filter_filter. apply list_filter_iff. tauto.
Qed.

(** Signing and sending, with the recording callbacks: the pending list at the
    end tells how it went. *)
Lemma signAndSubmit_run o kind upd (t : tx) (d : device W) :
  let '(r, d') := signAndSubmit t (record_tx o kind upd) (removeTx o) d in
  positions d' = positions d ∧
  match (sign_tx t (dv_world d)).1 with
  | Err _ => (∃ e, r = Err e) ∧ same_stores d d'
  | Ok h =>
      let kept := {| ptx_hash := h; ptx_kind := kind; ptx_createdAt := now (sign_tx t (dv_world d)).2;
                     ptx_positionUpdate := upd |} in
      let without := filter (λ t', ptx_hash t' ≠ h) (pending_of o d) in
      match (send_tx t (sign_tx t (dv_world d)).2).1 with
      | sent_ok ledger => r = Ok (h, h, ledger) ∧ pending_of o d' = without ++ [kept]
      | failed_on_chain | SendFailed _ =>
          (∃ e, r = Err e) ∧ pending_of o d' = without ∧ Refused h ∈ notes d'
      | TransactionStillPending | send_threw _ => (∃ e, r = Err e) ∧ pending_of o d' = without ++ [kept]
      end
  end.
Proof.
  unfold signAndSubmit, record_tx, catching, try_catch, emit, record, date_now, await, modify, gets, throw.
  unfold mbind, io_bind, mret, io_ret. cbn.
  destruct (sign_tx t (dv_world d)) as [[h|e] w]; cbn.
  - rewrite addTx_run. cbn. destruct (send_tx t w) as [[ledger| | |e|e] w']; cbn; (split; [done|]).
    all: unfold pending_of; cbn; rewrite ?lookup_insert_eq; cbn; rewrite ?drop_added by done.
    all: split_and?; try done; try (by eexists).
    all: apply elem_of_app; right; by left.
  - destruct e as [e|h|]; cbn; [|by split; [|split; [by eexists|]]..].
    destruct (asRejection _ _ _) as [rej|]; cbn; (split; [done|split; [by eexists|done]]).
Qed.

(** A submission leaves: nothing changed when the wallet did not sign; else, by
    how sending ended, the change done, or dropped, or kept as pending. *)
Lemma submitPositionTx_run kind (t : tx) p u keep (d : device W) :
  let '(r, d') := submitPositionTx kind t p u keep d in
  match (sign_tx t (dv_world d)).1 with
  | Err _ => (∃ e, r = Err e) ∧ same_stores d d'
  | Ok h =>
      let kept := {| ptx_hash := h; ptx_kind := kind; ptx_createdAt := now (sign_tx t (dv_world d)).2;
                     ptx_positionUpdate := Some (id p, u) |} in
      let without := filter (λ t', ptx_hash t' ≠ h) (pending_of (owner p) d) in
      match (send_tx t (sign_tx t (dv_world d)).2).1 with
      | sent_ok ledger =>
          r = Ok (h, ledger) ∧ (id u = txid u → owner u = owner p → position_of (id u) (view (owner p) d') = Some u) ∧
          pending_of (owner p) d' = without
      | failed_on_chain | SendFailed _ =>
          (∃ e, r = Err e) ∧ positions d' = positions d ∧ pending_of (owner p) d' = without ∧ Refused h ∈ notes d'
      | TransactionStillPending | send_threw _ =>
          (∃ e, r = Err e) ∧ positions d' = positions d ∧ pending_of (owner p) d' = without ++ [kept]
      end
  end.
Proof.
  unfold submitPositionTx, noting_timeout, catching, try_catch. unfold mbind at 1, io_bind at 1.
  pose proof (signAndSubmit_run (owner p) kind (Some (id p, u)) t d) as Hs.
  destruct (signAndSubmit t (record_tx (owner p) kind (Some (id p, u))) (removeTx (owner p)) d) as [r d1].
  destruct Hs as [Hpos Hs]. destruct (sign_tx t (dv_world d)) as [[h|e] w]; cbn in Hs |- *.
  - destruct (send_tx t w) as [[ledger| | |e|e] w']; cbn in Hs |- *.
    1: { destruct Hs as [-> Hp1]. unfold mbind, io_bind. pose proof (replacePosition_spec (id p) u d1) as Hr.
      destruct (replacePosition (id p) u d1) as [r2 d2]. destruct Hr as (-> & _ & Ha & _ & Hu & _).
      rewrite removeTx_run. set (d3 := set_activity _ d2).
      assert (pending_of (owner p) d3 = filter (λ t', ptx_hash t' ≠ h) (pending_of (owner p) d)) as Hp3.
      { subst d3. rewrite pending_insert. unfold pending_of at 1. rewrite Ha. fold (pending_of (owner p) d1). rewrite Hp1.
        by apply drop_added. }
      destruct keep; (split_and!; [done| |done]); intros Hwf Ho; rewrite <- Ho; by apply Hu. }
    all: destruct Hs as ([e' ->] & Hs); destruct e'; (split_and!; [by eexists|done|try done..]).
    all: try by destruct Hs.
  - destruct Hs as ([e' ->] & Hs). destruct e'; (split; [by eexists|done]).
Qed.
(** A change kept as pending is made by the visit that finds it confirmed. *)
Lemma kept_is_applied o k u kept (d d' : device W) :
  id u = k → id u = txid u → owner u = o → is_Some (position_of k (view o d)) →
  (∀ t', t' ∈ pending_of o d → untouched_by k t') → NoDup (map ptx_hash (pending_of o d)) →
  positions d' = positions d → ptx_positionUpdate kept = Some (k, u) →
  pending_of o d' = filter (λ t', ptx_hash t' ≠ ptx_hash kept) (pending_of o d) ++ [kept] →
  ∀ w d2, (∀ w, (d_getTxStatus (ptx_hash kept) w).1 = Ok SUCCESS) →
    reconcilePendingTxs (tx := tx) o (set_world w d') = (Ok (), d2) →
    position_of k (view o d2) = Some u ∧ ∀ t', ptx_hash t' = ptx_hash kept → t' ∉ pending_of o d2.
Proof.
  intros Hid Hwf Ho Hsome Hoth Hnd Hp Hu Hpend w d2 Hok Hrec.
  change (pending_of o d') with (pending_of o (set_world w d')) in Hpend.
  apply (reconcile_applies o k kept u (set_world w d') d2); try done.
  - rewrite Hpend. apply elem_of_app. right. by left.
  - unfold view. cbn. rewrite Hp. exact Hsome.
  - rewrite Hpend. intros t' [Ht'|Ht'%list_elem_of_singleton]%elem_of_app; [right|by left].
    apply list_elem_of_filter in Ht' as [? ?]. auto.
  - rewrite Hpend, map_app. apply NoDup_app. split_and!.
    + eapply sublist_NoDup; [exact Hnd|]. apply fmap_sublist, sublist_filter.
    + intros x (t' & -> & Ht')%list_elem_of_fmap Hx%list_elem_of_singleton. by apply list_elem_of_filter in Ht' as [? _].
    + apply NoDup_singleton.
Qed.

End submit_facts.

(** *** Amounts of a repayment *)

(** A repayment never asks for more than the debt just read, and is full when
    the shown or the read debt is covered. *)
Lemma repayPlan_spec amount shown chain :
  let '(a, full) := repayPlan amount shown chain in
  a ≤ Z.max amount chain ∧ a ≤ chain ∧ (full = true → a = chain) ∧ (full = false → a = amount ∧ amount < shown ∧ amount < chain).
Proof.
  unfold repayPlan. destruct (shown <=? amount) eqn:E1, (chain <=? amount) eqn:E2; bools; cbn;
    split_and!; intros; try done; lia.
Qed.

(** The "Repay all" button writes the debt into the field with cents
    ([toFieldValue]), so unless the debt is a whole number of cents the
    repayment is a partial one that leaves less than a cent. *)
Lemma repay_all_button_is_partial debt chain :
  cent ≤ debt → debt mod cent ≠ 0 → debt ≤ chain →
  ∃ a, parseUsdcAmount (toFieldValue debt) = Ok a ∧ repayPlan a debt chain = (a, false) ∧
       0 < debt - a < cent.
Proof.
  intros Hc Hm Hch. exists (debt - debt mod cent). pose proof (Z.mod_pos_bound debt cent ltac:(done)) as Hb.
  assert (0 < cent) by done. split_and!; [|unfold repayPlan|lia|lia].
  - rewrite toFieldValue_reads by lia. by rewrite (proj2 (Z.ltb_ge debt cent)).
  - rewrite !(proj2 (Z.leb_gt _ _)) by lia. done.
Qed.

(** And what it leaves cannot be repaid with the button: the field then reads
    "0.00". *)
Lemma repay_all_button_stops_below_a_cent debt :
  0 < debt < cent → parseUsdcAmount (toFieldValue debt) = Err "Enter an amount above 0.".
Proof. intros Hd. rewrite toFieldValue_reads by lia. by rewrite (proj2 (Z.ltb_lt debt cent)) by lia. Qed.

(** ** A concrete loan *)

Module Demo.

(** The clock and what the network says of the transaction. *)
Record world : Type := mkWorld { clock : Z; landed : TxStatus }.

Definition chain_position : ChainPosition := {|
  cp_txid := "ab01"; cp_status := active; cp_depositor := "GUSER"; cp_collateralSats := 50000000;
  cp_debtStroops := 1000000000; cp_storedDebtStroops := 1000000000; cp_timelockHeight := 313000;
  cp_userPubkey := "02"; cp_scriptPubKey := "00"; cp_ledger := 1 |}.

#[local] Instance discover_deps : DiscoverDeps world := {
  now := clock;
  d_depositCalls _ w := (Ok [], w);
  d_readPosition _ w := (Ok (Some chain_position), w);
  d_findVout _ _ w := (Ok (Some 1), w);
}.

(** The confirmation times out. *)
#[local] Instance submit_env : SubmitEnv world () := {
  d_sleep ms w := (Ok (), mkWorld (clock w + Z.max 0 ms) (landed w));
  d_getTxStatus _ w := (Ok SUCCESS, w);
  sign_tx _ w := (Ok "h1"%string, w);
  send_tx _ w := (TransactionStillPending, w);
}.

#[local] Instance loan_env : LoanEnv world () := {
  simulate_borrow _ _ _ w := (Ok (), w);
  simulate_repay _ _ _ w := (Ok (), w);
  simulate_supply _ _ w := (Ok (), w);
  simulate_withdraw _ _ w := (Ok (), w);
  getSupplyValue _ w := (Ok 0, w);
  getPoolAvailable w := (Ok 0, w);
}.

Definition loan (debt : Z) (st : PositionStatus) : Position := {|
  id := "ab01"; owner := "GUSER"; txid := "ab01"; collateralSats := "50000000"; debtStroops := z_to_string debt;
  index := 0; status := st; createdAt := 1000; btcPubkey := Some "02"%string; timelockHeight := Some 313000;
  vout := Some 1; releaseTxid := None; releaseAddress := None; stellarTxHash := Some "h0"%string |}.

Definition start (p : Position) : device world :=
  mkDevice (mkWorld 2000 SUCCESS) {["GUSER"%string := [p]]} ∅ ∅ ∅ [] [].

Definition borrowed : result exn TxResult * device world := borrow (loan 1000000000 p_active) 500000000 "GUSER" (start (loan 1000000000 p_active)).

(** The call ends with a timeout, the loan unchanged; the next visit applies it. *)
Example borrow_then_reconcile :
  is_ok borrowed.1 = false ∧ debtStroops <$> view "GUSER" borrowed.2 = ["1000000000"] ∧
  debtStroops <$> view "GUSER" (reconcilePendingTxs (tx := ()) "GUSER" borrowed.2).2 = ["1500000000"].
Proof. vm_compute. done. Qed.


(** A transaction left pending holds the loan as it was when it was sent: applied
    after the loan has moved on (here repaid in full since), it brings the old
    record back. *)
Lemma reconcile_restores_an_old_record :
  let d := set_activity {["GUSER"%string := [{| ptx_hash := "h1"; ptx_kind := k_borrow; ptx_createdAt := 1500;
             ptx_positionUpdate := Some ("ab01"%string, loan 500000000 p_active) |}]]} (start (loan 0 p_closed)) in
  status <$> view "GUSER" d = [p_closed] ∧
  status <$> view "GUSER" (reconcilePendingTxs (tx := ()) "GUSER" d).2 = [p_active].
Proof. vm_compute. done. Qed.
End Demo.
