(* ===== verification/DepositFlow.v ===== *)
(** * Depositing BTC through the app ([frontend/app/src/lib/flows/deposit.ts])

    A deposit is sent (or its txid pasted), tracked until it is confirmed,
    registered on the contract with one [deposit()] transaction and saved as a
    loan. [deposit.ts] with its default dependencies, the signing and
    submitting of [StellarTx] and the key proof of
    [bitcoin/keyProof.ts] are one computation over the device here; what
    leaves the app is [DepositEnv].

    The polling loops of the code have no end: [patience] is how many rounds
    the user keeps the tab open, after which it is closed. Any other moment of
    closing is a call outside that answers [TabClosed]. *)

From S2P Require Import Prelude JsData Keys RedeemScript RepayHandler LendRates AppBitcoin.
From S2P Require Import Rejection FlowEngine AppStore StellarTx Discover BitcoinMessage.

(** ** Data *)

Record SorobanArgs : Type := {
  sa_block_hash : string;
  sa_merkle_proof : list string;
  sa_tx_index : Z;
  sa_raw_tx : string;
}.

Record SpvBundle : Type := { sb_rawTxNoWitness : string; sb_sorobanArgs : SorobanArgs }.

Inductive SpvPoll : Type :=
| poll_ready (bundle : SpvBundle)
| poll_waiting (confirmations : Z) (required : option Z).

Inductive OutputLookup : Type := found_output (vout : Z) (sats : Z) | unseen | no_output.

Record DepositLock : Type := { dl_p2wsh : string; dl_timelockHeight : Z }.

Inductive DepositLookup : Type :=
| found_deposit (lock : DepositLock) (vout : Z) (sats : Z)
| deposit_unseen
| no_deposit.

(** The relayer's answer: the status, the bundle when it is one, and the
    numbers of a 404 or 409. *)
Record proof_response : Type := {
  pr_status : Z;
  pr_bundle : option SpvBundle;
  pr_available : option Z;
  pr_requested : option Z;
}.

Record DepositArgs : Type := {
  da_depositor : string;
  da_block_hash : list byte;
  da_merkle_proof : list (list byte);
  da_tx_index : Z;
  da_raw_tx : list byte;
  da_p2wsh_script_pubkey : list byte;
  da_timelock_height : Z;
  da_user_pubkey : list byte;
  da_key_sig : list byte;
}.

Record AppConfig : Type := {
  protocolPubkey : option string;
  relayerUrl : option string;
  minConfirmations : Z;
  minDepositSats : Z;
  writzLendId : string;
}.

(** What leaves the app. A wallet's own errors are [Thrown]. *)
Class DepositEnv (W tx : Type) `{DiscoverDeps W, SubmitEnv W tx} : Type := {
  aborted : W → bool;
  fetch_proof : string → W → result exn proof_response * W;
  (** [GET /tx/:txid]: [None] when the answer is not ok, else its body: the
      outputs as (address, value), if it can be read *)
  get_outputs : string → W → result exn (option (option (list (option string * Z)))) * W;
  (** [GET /tx/:txid/hex], likewise *)
  get_hex : string → W → result exn (option (option string)) * W;
  fetchTipHeight : W → result exn Z * W;
  wallet_send : string → Z → W → result exn string * W;
  signKeyProof : string → W → result exn string * W;
  (** [client.deposit(args)], simulated *)
  simulate_deposit : DepositArgs → W → result exn tx * W;
}.

(** ** The key proof *)

Definition newline : string := String (ascii_of_nat 10) EmptyString.

Definition depositKeyMessage (contractId depositor txidDisplayHex : string) : string :=
  "Writz deposit" +:+ newline +:+ "contract:" +:+ contractId +:+ newline +:+ "depositor:" +:+ depositor
  +:+ newline +:+ "txid:" +:+ toLowerCase txidDisplayHex.

Definition parseMessageSignature (base64 : string) : result exn (list byte) :=
  let sig := from_base64 base64 in
  if negb (zlen sig =? 65)
  then Err (error "Your Bitcoin wallet returned a signature in an unsupported format. Sign with ECDSA (not BIP-322).")
  else if match head sig with Some b => (b2z b <? 31) || (42 <? b2z b) | None => true end
  then Err (error "Your Bitcoin wallet signed with an uncompressed key, which Writz deposits do not use.")
  else Ok sig.

Definition depositArgs (pd : PendingDeposit) (bundle : SpvBundle) (scriptPubKey : list byte)
    (timelockHeight : Z) (keySig : list byte) : DepositArgs :=
  let a := sb_sorobanArgs bundle in {|
  da_depositor := pd_stellarAddress pd;
  da_block_hash := from_hex (sa_block_hash a);
  da_merkle_proof := map from_hex (sa_merkle_proof a);
  da_tx_index := sa_tx_index a;
  da_raw_tx := from_hex (sa_raw_tx a);
  da_p2wsh_script_pubkey := scriptPubKey;
  da_timelock_height := timelockHeight;
  da_user_pubkey := from_hex (pd_btcPubkey pd);
  da_key_sig := keySig;
|}.

Definition POLL_MS : Z := 10000.
Definition MAX_BACKOFF_MS : Z := 60000.

Definition spvProofUrl (cfg : AppConfig) (base txid : string) : string :=
  base +:+ "/spv-proof/" +:+ txid +:+ "?confirmations=" +:+
  z_to_string (Z.min 20 (Z.max 1 (minConfirmations cfg))).

(** ** Patches of the pending deposit *)

Definition with_location (v : Z) (sats : string) (pd : PendingDeposit) : PendingDeposit := {|
  pd_btcTxid := pd_btcTxid pd; pd_sats := sats; pd_vout := Some v; pd_p2wsh := pd_p2wsh pd;
  pd_btcPubkey := pd_btcPubkey pd; pd_timelockHeight := pd_timelockHeight pd;
  pd_stellarAddress := pd_stellarAddress pd; pd_positionIndex := pd_positionIndex pd; pd_step := step_confirming;
  pd_confirmations := pd_confirmations pd; pd_required := pd_required pd;
  pd_stellarTxHash := pd_stellarTxHash pd; pd_stellarSubmittedAt := pd_stellarSubmittedAt pd;
  pd_createdAt := pd_createdAt pd; pd_updatedAt := pd_updatedAt pd |}.

Definition with_confirmations (confirmations required : Z) (pd : PendingDeposit) : PendingDeposit := {|
  pd_btcTxid := pd_btcTxid pd; pd_sats := pd_sats pd; pd_vout := pd_vout pd; pd_p2wsh := pd_p2wsh pd;
  pd_btcPubkey := pd_btcPubkey pd; pd_timelockHeight := pd_timelockHeight pd;
  pd_stellarAddress := pd_stellarAddress pd; pd_positionIndex := pd_positionIndex pd; pd_step := step_confirming;
  pd_confirmations := Some confirmations; pd_required := Some required;
  pd_stellarTxHash := pd_stellarTxHash pd; pd_stellarSubmittedAt := pd_stellarSubmittedAt pd;
  pd_createdAt := pd_createdAt pd; pd_updatedAt := pd_updatedAt pd |}.

Definition with_timelock (h : Z) (pd : PendingDeposit) : PendingDeposit := {|
  pd_btcTxid := pd_btcTxid pd; pd_sats := pd_sats pd; pd_vout := pd_vout pd; pd_p2wsh := pd_p2wsh pd;
  pd_btcPubkey := pd_btcPubkey pd; pd_timelockHeight := h;
  pd_stellarAddress := pd_stellarAddress pd; pd_positionIndex := pd_positionIndex pd; pd_step := pd_step pd;
  pd_confirmations := pd_confirmations pd; pd_required := pd_required pd;
  pd_stellarTxHash := pd_stellarTxHash pd; pd_stellarSubmittedAt := pd_stellarSubmittedAt pd;
  pd_createdAt := pd_createdAt pd; pd_updatedAt := pd_updatedAt pd |}.

(** The Stellar transaction of the deposit and when it was signed, or neither. *)
Definition with_stellar (tx : option (string * Z)) (step : DepositStep) (pd : PendingDeposit) : PendingDeposit := {|
  pd_btcTxid := pd_btcTxid pd; pd_sats := pd_sats pd; pd_vout := pd_vout pd; pd_p2wsh := pd_p2wsh pd;
  pd_btcPubkey := pd_btcPubkey pd; pd_timelockHeight := pd_timelockHeight pd;
  pd_stellarAddress := pd_stellarAddress pd; pd_positionIndex := pd_positionIndex pd; pd_step := step;
  pd_confirmations := pd_confirmations pd; pd_required := pd_required pd;
  pd_stellarTxHash := fst <$> tx; pd_stellarSubmittedAt := snd <$> tx;
  pd_createdAt := pd_createdAt pd; pd_updatedAt := pd_updatedAt pd |}.

Definition with_step (step : DepositStep) (pd : PendingDeposit) : PendingDeposit := {|
  pd_btcTxid := pd_btcTxid pd; pd_sats := pd_sats pd; pd_vout := pd_vout pd; pd_p2wsh := pd_p2wsh pd;
  pd_btcPubkey := pd_btcPubkey pd; pd_timelockHeight := pd_timelockHeight pd;
  pd_stellarAddress := pd_stellarAddress pd; pd_positionIndex := pd_positionIndex pd; pd_step := step;
  pd_confirmations := pd_confirmations pd; pd_required := pd_required pd;
  pd_stellarTxHash := pd_stellarTxHash pd; pd_stellarSubmittedAt := pd_stellarSubmittedAt pd;
  pd_createdAt := pd_createdAt pd; pd_updatedAt := pd_updatedAt pd |}.

Record StartContext : Type := { sc_owner : string; sc_btcPubkey : string; sc_usedIndices : list Z }.

Definition newPending (ctx : StartContext) (lock : DepositLock) (btcTxid : string) (sats positionIndex : Z)
    (vout : option Z) (now : Z) : PendingDeposit := {|
  pd_btcTxid := btcTxid; pd_sats := z_to_string sats; pd_vout := vout; pd_p2wsh := dl_p2wsh lock;
  pd_btcPubkey := sc_btcPubkey ctx; pd_timelockHeight := dl_timelockHeight lock;
  pd_stellarAddress := sc_owner ctx; pd_positionIndex := positionIndex;
  pd_step := match vout with None => step_sent | Some _ => step_confirming end;
  pd_confirmations := None; pd_required := None; pd_stellarTxHash := None; pd_stellarSubmittedAt := None;
  pd_createdAt := now; pd_updatedAt := now |}.

Inductive TrackResult : Type := track_ready (pd : PendingDeposit) | track_active (position : Position).

Definition TypeError : exn := error "Cannot read properties of null".

Definition find_exn (e : find_error) : exn :=
  match e with
  | BadTransaction => error "superfluous or missing bytes"
  | BadDerivation _ => error "invalid lock"
  end.

Section code.
Context {W tx : Type} `{DepositEnv W tx, ScriptLib, TxLib} (network : Network) (cfg : AppConfig).
Abbreviation M := (io (device W) exn).

Definition required {A} (o : option A) : M A := lift (of_option o TypeError).

Definition is_aborted : M bool := gets (λ d, aborted (dv_world d)).

Definition sleep (ms : Z) : M () := await (d_sleep ms).

Definition update (owner_ : string) (patch : PendingDeposit → PendingDeposit) : M (option PendingDeposit) :=
  t ← date_now; update_pending owner_ patch t.

(** ** The default dependencies *)

Definition requireProtocolPubkey : M string :=
  lift (of_option (present (protocolPubkey cfg)) (error "NEXT_PUBLIC_PROTOCOL_BTC_PUBKEY is not configured.")).

Definition pollSpv (txid_ : string) : M SpvPoll :=
  base ← lift (of_option (present (relayerUrl cfg)) (error "NEXT_PUBLIC_RELAYER_URL is not configured"));
  res ← await (fetch_proof (spvProofUrl cfg base txid_));
  if (pr_status res =? 404) || (pr_status res =? 409)
  then mret (poll_waiting (default 0 (pr_available res)) (pr_requested res))
  else if negb ((200 <=? pr_status res) && (pr_status res <=? 299))
  then throw (error ("Relayer error " +:+ z_to_string (pr_status res)))
  else bundle ← lift (of_option (pr_bundle res) (error "Unexpected end of JSON input")); mret (poll_ready bundle).

Definition unreadable : exn := error "Unexpected end of input".

Definition findOutput (txid_ address_ : string) : M OutputLookup :=
  res ← catching (await (get_outputs txid_)) (λ _, mret None);
  match res with
  | None => mret unseen
  | Some body =>
      outs ← lift (of_option body unreadable);
      match list_find (λ o : option string * Z, o.1 = Some address_) outs with
      | Some (i, o) => mret (found_output (Z.of_nat i) o.2)
      | None => mret no_output
      end
  end.

Definition locateDeposit (txid_ btcPubkey_ : string) : M DepositLookup :=
  res ← catching (await (get_hex txid_)) (λ _, mret None);
  match res with
  | None => mret deposit_unseen
  | Some body =>
      text ← lift (of_option body unreadable);
      protocolPubkeyHex ← requireProtocolPubkey;
      tip ← await fetchTipHeight;
      out ← lift (map_err find_exn (findDepositOutput network (trim text) protocolPubkeyHex btcPubkey_ tip None));
      match out with
      | None => mret no_deposit
      | Some out =>
          lock ← lift (map_err (λ e, find_exn (BadDerivation e))
                         (deriveP2WSH network protocolPubkeyHex btcPubkey_ (AppBitcoin.timelockHeight out)));
          mret (found_deposit {| dl_p2wsh := AppBitcoin.address lock;
                                 dl_timelockHeight := AppBitcoin.timelockHeight out |}
                  (AppBitcoin.vout out) (AppBitcoin.valueSats out))
      end
  end.

Definition getDepositor (btcTxid : string) : M (option string) :=
  chain ← await (d_readPosition btcTxid); mret (cp_depositor <$> chain).

(** ** Starting *)

Definition startDepositBySending (ctx : StartContext) (lock : DepositLock) (sats : Z) : M PendingDeposit :=
  index ← reservePositionIndex (sc_owner ctx) (sc_usedIndices ctx);
  emit (e_awaiting_signature Rejection.bitcoin);;
  txid_ ← catching (await (wallet_send (dl_p2wsh lock) sats)) (λ e,
    releasePositionIndex (sc_owner ctx) index;; throw e);
  record (BtcSent (sc_owner ctx) (toLowerCase txid_));;
  t ← date_now;
  save_pending (newPending ctx lock (toLowerCase txid_) sats index None t) t.

Definition startDepositFromTxid (ctx : StartContext) (txid_ : string) : M PendingDeposit :=
  let txid_ := toLowerCase (trim txid_) in
  emit (e_preparing (Some locating_output));;
  out ← locateDeposit txid_ (sc_btcPubkey ctx);
  match out with
  | deposit_unseen => throw (error "Bitcoin hasn't seen this transaction yet.")
  | no_deposit => throw (error "This transaction does not pay your deposit address.")
  | found_deposit lock v sats =>
      index ← reservePositionIndex (sc_owner ctx) (sc_usedIndices ctx);
      t ← date_now;
      save_pending (newPending ctx lock txid_ sats index (Some v) t) t
  end.

(** ** Tracking *)

(** Three attempts: [attempts] left after the [k]-th. *)
Fixpoint with_retry {A} (attempts : nat) (k : Z) (fn : M A) : M A :=
  match attempts with
  | O => fn
  | S attempts =>
      catching fn (λ e,
        a ← is_aborted;
        if a : bool then throw e else sleep (2000 * k);; with_retry attempts (k + 1) fn)
  end.

Definition withRetry {A} (fn : M A) : M A := with_retry 2 1 fn.

Fixpoint locateOutput (patience : nat) (pd : PendingDeposit) : M PendingDeposit :=
  match patience with
  | O => throw TabClosed
  | S patience =>
      out ← findOutput (pd_btcTxid pd) (pd_p2wsh pd);
      match out with
      | no_output => throw (error "This transaction does not pay your deposit address.")
      | found_output v sats =>
          r ← update (pd_stellarAddress pd) (with_location v (z_to_string sats)); required r
      | unseen => sleep POLL_MS;; locateOutput patience pd
      end
  end.

(** One round of [waitForConfirmations] inside its [try]: the bundle, or the
    pending deposit and the count required from now on. *)
Definition wait_round (pd : PendingDeposit) (required_ : Z) : M (SpvBundle + PendingDeposit * Z) :=
  poll ← pollSpv (pd_btcTxid pd);
  match poll with
  | poll_ready bundle => mret (inl bundle)
  | poll_waiting confirmations r =>
      let required_ := default required_ r in
      emit (e_btc_confirmations confirmations required_);;
      pd ← (if bool_decide (pd_confirmations pd = Some confirmations) && bool_decide (pd_required pd = Some required_)
            then mret pd
            else r ← update (pd_stellarAddress pd) (with_confirmations confirmations required_); mret (default pd r));
      mret (inr (pd, required_))
  end.

(** The loop, with the failures in a row. What a round had changed before it
    failed is kept: its sleep is the last thing it does. *)
Fixpoint wait_loop (patience : nat) (pd : PendingDeposit) (failures required_ : Z) : M SpvBundle :=
  match patience with
  | O => throw TabClosed
  | S patience =>
      let failed e pd failures required_ : M SpvBundle :=
        a ← is_aborted;
        if a : bool then throw e else
        let failures := failures + 1 in
        emit (e_relayer_unreachable required_);;
        sleep (Z.min (POLL_MS * 2 ^ (failures - 1)) MAX_BACKOFF_MS);;
        wait_loop patience pd failures required_ in
      r ← catching (x ← wait_round pd required_; mret (inl x)) (λ e, mret (inr e));
      match r with
      | inr e => failed e pd failures required_
      | inl (inl bundle) => mret bundle
      | inl (inr (pd, required_)) =>
          s ← catching (sleep POLL_MS;; mret None) (λ e, mret (Some e));
          match s with
          | Some e => failed e pd 0 required_
          | None => wait_loop patience pd 0 required_
          end
      end
  end.

Definition waitForConfirmations (patience : nat) (pd : PendingDeposit) : M SpvBundle :=
  wait_loop patience pd 0 (default (minConfirmations cfg) (pd_required pd)).

(** [realFinalize] and [finalizeDeposit] *)
Definition realFinalize (pd : PendingDeposit) : M Position :=
  position ← syncPosition (pd_stellarAddress pd) (pd_btcTxid pd)
    {| ex_stellarTxHash := pd_stellarTxHash pd; ex_createdAt := Some (pd_createdAt pd);
       ex_index := Some (pd_positionIndex pd) |};
  lift (of_option position (error "PositionNotFound")).

Definition finalizeDeposit (pd : PendingDeposit) : M Position :=
  position ← realFinalize pd;
  record (Finalized (pd_stellarAddress pd) (pd_btcTxid pd));;
  clear_pending (pd_stellarAddress pd);;
  releasePositionIndex (pd_stellarAddress pd) (pd_positionIndex pd);;
  mret position.

(** What the chain says about the pending deposit. *)
Definition chain_view (pd : PendingDeposit) : M DepositChainView :=
  depositor ← withRetry (getDepositor (pd_btcTxid pd));
  st ← match present (pd_stellarTxHash pd), present depositor with
       | Some hash, None => r ← catching (getTxStatus hash) (λ _, mret NOT_FOUND); mret (Some r)
       | _, _ => mret None
       end;
  mret {| depositorForTxid := depositor; stellarTx := st |}.

(** The branch of a deposit that only needs its confirmations. *)
Definition confirm (patience : nat) (owner_ : string) (pd : PendingDeposit) : M TrackResult :=
  pd ← match present (pd_stellarTxHash pd) with
       | Some hash =>
           removeTx owner_ hash;;
           r ← update owner_ (λ p, with_stellar None (pd_step p) p); required r
       | None => mret pd
       end;
  waitForConfirmations patience pd;;
  r ← update owner_ (with_step step_ready);
  pd ← required r;
  emit e_ready;;
  mret (track_ready pd).

Fixpoint track (rounds patience : nat) (owner_ : string) : M TrackResult :=
  match rounds with
  | O => throw TabClosed
  | S rounds =>
      pd ← load_pending owner_;
      match pd with
      | None => throw (error "No deposit in progress.")
      | Some pd =>
          chain ← chain_view pd;
          t ← date_now;
          match planResume pd chain t with
          | finalize => p ← finalizeDeposit pd; mret (track_active p)
          | conflict _ => throw (error "PositionAlreadyExists")
          | await_stellar hash => emit (e_submitted hash);; sleep 5000;; track rounds patience owner_
          | locate_output =>
              emit (e_preparing (Some locating_output));;
              locateOutput patience pd;; track rounds patience owner_
          | wait_confirmations => confirm patience owner_ pd
          end
      end
  end.

Definition trackDeposit (patience : nat) (owner_ : string) : M TrackResult := track patience patience owner_.

(** ** Registering *)

(** The callbacks of [registerDeposit]. *)
Definition onLocated (owner_ : string) (h : Z) : M PendingDeposit :=
  r ← update owner_ (with_timelock h); required r.

Definition onSigned (owner_ : string) (hash : string) : M PendingDeposit :=
  t ← date_now;
  r ← update owner_ (with_stellar (Some (hash, t)) step_submitted);
  pd ← required r;
  addTx owner_ {| ptx_hash := hash; ptx_kind := k_deposit; ptx_createdAt := t; ptx_positionUpdate := None |};;
  record (Sent owner_ (pd_btcTxid pd) hash t);;
  mret pd.

Definition onDropped (owner_ : string) (pd : PendingDeposit) : M () :=
  match present (pd_stellarTxHash pd) with Some h => removeTx owner_ h | None => mret () end;;
  r ← update owner_ (with_stellar None step_ready); required r;; mret ().

Definition realRegister (owner_ : string) (pd : PendingDeposit) (bundle : SpvBundle) : M (string * PendingDeposit) :=
  protocolPubkeyHex ← requireProtocolPubkey;
  tip ← await fetchTipHeight;
  output ← lift (map_err find_exn (findDepositOutput network (sb_rawTxNoWitness bundle) protocolPubkeyHex
                   (pd_btcPubkey pd) tip (Some (pd_timelockHeight pd))));
  match output with
  | None => throw (error "This transaction does not pay your deposit address.")
  | Some output =>
      if valueSats output <? minDepositSats cfg
      then throw (error ("This deposit pays " +:+ z_to_string (valueSats output) +:+ " sats; the minimum is "
                         +:+ z_to_string (minDepositSats cfg) +:+ "."))
      else
        onLocated owner_ (AppBitcoin.timelockHeight output);;
        lock ← lift (map_err (λ e, find_exn (BadDerivation e))
                 (deriveP2WSH network protocolPubkeyHex (pd_btcPubkey pd) (AppBitcoin.timelockHeight output)));
        emit (e_awaiting_signature Rejection.bitcoin);;
        sig ← await (signKeyProof (depositKeyMessage (writzLendId cfg) (pd_stellarAddress pd) (pd_btcTxid pd)));
        keySig ← lift (parseMessageSignature sig);
        emit (e_preparing (Some building));;
        let args := depositArgs pd bundle (AppBitcoin.scriptPubKey lock) (AppBitcoin.timelockHeight output) keySig in
        t ← simulateWritzLend (await (simulate_deposit args));
        fst <$> signAndSubmit t (onSigned owner_) (onDropped owner_)
  end.

(** The last loop: four more attempts to finalize, [attempts] left. *)
Fixpoint finish (attempts : nat) (pd : PendingDeposit) (hash : string) : M Position :=
  catching (finalizeDeposit pd) (λ e,
    match attempts with
    | O => emit (e_needs_attention finish_deposit (match e with Thrown t => Some t | _ => None end) (Some hash));; throw e
    | S attempts => sleep 3000;; finish attempts pd hash
    end).

Definition registerDeposit (patience : nat) (owner_ : string) : M Position :=
  tracked ← trackDeposit patience owner_;
  match tracked with
  | track_active position => emit (e_settled (stellarTxHash position));; mret position
  | track_ready pd =>
      emit (e_preparing (Some reading));;
      bundle ← waitForConfirmations patience pd;
      '(hash, pd) ← catching (realRegister owner_ pd bundle) (λ e,
        match e with
        | TxTimedOut h => emit (e_timed_out h);; throw e
        | _ => throw e
        end);
      removeTx owner_ hash;;
      emit e_post_processing;;
      position ← finish 4 pd hash;
      emit (e_settled (Some hash));;
      mret position
  end.
End code.
