(* ===== verification/DepositFacts.v ===== *)
(** * No deposit is lost or registered twice

    The correctness of [DepositFlow]: an invariant of the device that every
    run keeps, however it ends and wherever the tab is closed. *)

From S2P Require Import Prelude JsData Keys RedeemScript RepayHandler LendRates AppBitcoin.
From S2P Require Import Rejection FlowEngine AppStore StellarTx Discover DepositFlow.

Create HintDb frames.

(** Nothing outside turns the clock back, and a transaction has a hash. *)
Definition forward {W A} `{DiscoverDeps W} (f : W → A * W) : Prop := ∀ w, now w ≤ now (f w).2.

Class DepositLaws {W tx : Type} `{DepositEnv W tx} : Prop := {
  sleep_forward ms : forward (d_sleep ms);
  proof_forward u : forward (fetch_proof u);
  outputs_forward t : forward (get_outputs t);
  hex_forward t : forward (get_hex t);
  tip_forward : forward fetchTipHeight;
  status_forward h : forward (d_getTxStatus h);
  send_btc_forward a n : forward (wallet_send a n);
  key_forward m : forward (signKeyProof m);
  simulate_forward a : forward (simulate_deposit a);
  sign_forward t : forward (sign_tx t);
  send_forward t : forward (send_tx t);
  position_forward t : forward (d_readPosition t);
  vout_forward t s : forward (d_findVout t s);
  sign_hash t w h w' : sign_tx t w = (Ok h, w') → h ≠ "";
}.

Section facts.
Context {W tx : Type} `{DepositEnv W tx, !DepositLaws, ScriptLib, TxLib} (network : Network) (cfg : AppConfig).
Abbreviation M := (io (device W) exn).

(** ** The invariant *)

(** This transaction can no longer change anything: the network has refused
    it, it has expired, or its deposit is complete. *)
Definition dead (ns : list note) (t : Z) (o x h : string) (at_ : Z) : Prop :=
  Refused h ∈ ns ∨ STELLAR_TX_TTL_MS ≤ t - at_ ∨ Finalized o x ∈ ns.

(** Whenever a [deposit()] was sent, every earlier one for the same BTC was dead. *)
Definition one_at_a_time (ns : list note) : Prop :=
  ∀ l1 o x h at_ l2, ns = l1 ++ Sent o x h at_ :: l2 →
  ∀ h' at', Sent o x h' at' ∈ l1 → dead l1 at_ o x h' at'.

Definition stored_as (d : device W) (o x : string) (tx_ : option (string * Z)) : Prop :=
  ∃ pd, pending d !! o = Some pd ∧ pd_btcTxid pd = x
        ∧ match tx_ with
          | Some (h, at_) => pd_stellarTxHash pd = Some h ∧ pd_stellarSubmittedAt pd = Some at_
          | None => True
          end.

Record deposit_inv (d : device W) : Prop := {
  inv_sent o x h at_ : Sent o x h at_ ∈ notes d →
    at_ ≤ now (dv_world d) ∧ h ≠ "" ∧ (dead (notes d) (now (dv_world d)) o x h at_ ∨ stored_as d o x (Some (h, at_)));
  inv_once : one_at_a_time (notes d);
  inv_btc o x : BtcSent o x ∈ notes d → Finalized o x ∈ notes d ∨ stored_as d o x None;
  inv_owner o pd : pending d !! o = Some pd → pd_stellarAddress pd = o;
}.

(** ** Steps that keep what the invariant speaks of *)

Definition key_fields (pd : PendingDeposit) : string * option string * option Z * string :=
  (pd_btcTxid pd, pd_stellarTxHash pd, pd_stellarSubmittedAt pd, pd_stellarAddress pd).

Definition frame (d d' : device W) : Prop :=
  now (dv_world d) ≤ now (dv_world d') ∧
  (∀ o, key_fields <$> pending d' !! o = key_fields <$> pending d !! o) ∧
  ∃ hs, notes d' = notes d ++ map Refused hs.

#[local] Instance frame_preorder : PreOrder frame.
Proof.
  split.
  - intros d. split_and!; [lia|done|]. exists []. by rewrite app_nil_r.
  - intros d1 d2 d3 (T1 & P1 & hs1 & N1) (T2 & P2 & hs2 & N2). split_and!; [lia|intros o; by rewrite P2|].
    exists (hs1 ++ hs2). by rewrite N2, N1, map_app, app_assoc.
Qed.

Lemma elem_refused n hs : n ∈ map Refused hs → ∃ h, n = Refused h.
Proof. intros (h & -> & _)%list_elem_of_fmap. eauto. Qed.

Lemma dead_more ns ns' t t' o x h at_ :
  t ≤ t' → (∀ n, n ∈ ns → n ∈ ns') → dead ns t o x h at_ → dead ns' t' o x h at_.
Proof. intros Ht Hn [Hr|[He|Hf]]; [left; auto|right; left; lia|right; right; auto]. Qed.

Lemma once_snoc ns n :
  one_at_a_time ns →
  (∀ o x h at_, n = Sent o x h at_ → ∀ h' at', Sent o x h' at' ∈ ns → dead ns at_ o x h' at') →
  one_at_a_time (ns ++ [n]).
Proof.
  intros Ho Hn l1 o x h at_ l2 Heq h' at' Hin.
  destruct l2 as [|y l2 _] using rev_ind.
  - apply app_inj_tail in Heq as [-> ->]. by eapply Hn.
  - rewrite app_comm_cons, app_assoc in Heq. apply app_inj_tail in Heq as [-> ->]. by eapply Ho.
Qed.

Lemma once_refused ns hs : one_at_a_time ns → one_at_a_time (ns ++ map Refused hs).
Proof.
  induction hs as [|h hs IH] using rev_ind; intros Ho; [by rewrite app_nil_r|].
  rewrite map_app, app_assoc. apply once_snoc; [by apply IH|done].
Qed.

Lemma frame_stored d d' o x tx_ : frame d d' → stored_as d o x tx_ → stored_as d' o x tx_.
Proof.
  intros (_ & P & _) (pd & Hp & Hx & Ht). specialize (P o). rewrite Hp in P.
  destruct (pending d' !! o) as [pd'|] eqn:E; [|done]. unfold key_fields in P. simplify_eq/=.
  exists pd'. split_and!; [done|congruence|]. destruct tx_ as [[h at_]|]; [|done]. destruct Ht. split; congruence.
Qed.

Lemma frame_inv d d' : frame d d' → deposit_inv d → deposit_inv d'.
Proof.
  intros F [I1 I2 I3 I4]. pose proof F as (T & P & hs & N). split.
  - intros o x h at_ Hin. rewrite N in Hin |- *. apply elem_of_app in Hin as [Hin|Hin]; [|by apply elem_refused in Hin as [? ?]].
    destruct (I1 o x h at_ Hin) as (Ha & Hh & Hd). split_and!; [lia|done|].
    destruct Hd as [Hd|Hs]; [left|right; by eapply frame_stored].
    eapply dead_more; [exact T| |exact Hd]. intros n Hn. apply elem_of_app. by left.
  - rewrite N. by apply once_refused.
  - intros o x Hin. rewrite N in Hin |- *. apply elem_of_app in Hin as [Hin|Hin]; [|by apply elem_refused in Hin as [? ?]].
    destruct (I3 o x Hin) as [Hf|Hs]; [left; apply elem_of_app; by left|right; by eapply frame_stored].
  - intros o pd Hpd. specialize (P o). rewrite Hpd in P. destruct (pending d !! o) as [pd0|] eqn:E; [|done].
    unfold key_fields in P. simplify_eq/=. rewrite <- (I4 o pd0 E). congruence.
Qed.

(** *** Which steps these are *)

Abbreviation framed m := (preserves frame m).

Lemma framed_await {A} (f : W → result exn A * W) : forward f → framed (await f).
Proof.
  intros Hf d. unfold await. specialize (Hf (dv_world d)). destruct (f _) as [r w]. simpl in *.
  split_and!; [done|done|]. exists []. by rewrite app_nil_r.
Qed.

Lemma framed_modify (f : device W → device W) :
  (∀ d, dv_world (f d) = dv_world d ∧ pending (f d) = pending d ∧ notes (f d) = notes d) →
  framed (modify f : M ()).
Proof.
  intros Hf d. destruct (Hf d) as (Hw & Hp & Hn). unfold frame. simpl. rewrite Hw, Hp, Hn.
  split_and!; [lia|done|]. exists []. by rewrite app_nil_r.
Qed.

Lemma framed_catching {A} (m : M A) h : framed m → (∀ e, framed (h e)) → framed (catching m h).
Proof.
  intros Hm Hh. apply preserves_try_catch; [typeclasses eauto|done|].
  intros [e|e|]; [apply Hh|apply Hh|]. apply preserves_throw; typeclasses eauto.
Qed.

Lemma framed_update o (patch : PendingDeposit → PendingDeposit) :
  (∀ pd, key_fields (patch pd) = key_fields pd) → framed (update o patch).
Proof.
  intros Hp d. unfold update, date_now, update_pending, load_pending, write_pending, mbind, io_bind, gets, modify.
  destruct (pending d !! o) as [pd|] eqn:E; cbn; [|reflexivity]. split_and!; [done| |].
  - intros o'. cbn. destruct (decide (o' = o)) as [->|]; [|by rewrite lookup_insert_ne].
    rewrite lookup_insert_eq, E. cbn. f_equal. apply (Hp pd).
  - exists []. by rewrite app_nil_r.
Qed.

Lemma framed_refused h : framed (record (Refused h) : M ()).
Proof. intros d. split_and!; [done|done|]. by exists [h]. Qed.

#[local] Hint Resolve framed_await framed_update framed_refused sleep_forward proof_forward outputs_forward
  hex_forward tip_forward status_forward key_forward simulate_forward sign_forward position_forward
  vout_forward send_btc_forward : frames.

Ltac framing :=
  repeat first
    [ solve [eauto 3 with frames preserves typeclass_instances]
    | match goal with
      | |- preserves _ (modify _) => apply framed_modify; intros; by split_and!
      | |- preserves _ (catching _ _) => apply framed_catching; [|intros ?]
      | |- preserves _ (_ ≫= _) => apply preserves_bind; [typeclasses eauto| |intros ?]
      | |- preserves _ (let _ := _ in _) => cbv zeta
      | |- preserves _ (if ?b then _ else _) => destruct b eqn:?
      | |- preserves _ (match ?x with _ => _ end) => destruct x eqn:?
      end ].

Lemma framed_emit e : framed (emit e : M ()).
Proof. unfold emit. framing. Qed.
Lemma framed_date : framed (date_now : M Z).
Proof. unfold date_now. framing. Qed.
Lemma framed_required {A} (o : option A) : framed (required o : M A).
Proof. unfold required. framing. Qed.
Lemma framed_list o : framed (listPositions o : M _).
Proof. unfold listPositions. framing. Qed.
#[local] Hint Resolve framed_emit framed_date framed_required framed_list : frames.

Lemma framed_savePosition p : framed (savePosition p : M ()).
Proof. unfold savePosition, write_positions. framing. Qed.
Lemma framed_removeTx o h : framed (removeTx o h : M ()).
Proof. unfold removeTx, pendingTxs, write_txs. framing. Qed.
Lemma framed_addTx o t : framed (addTx o t : M ()).
Proof. unfold addTx, pendingTxs, write_txs. framing. Qed.
Lemma framed_reserve o u : framed (reservePositionIndex o u : M Z).
Proof. unfold reservePositionIndex, readReserved, write_reserved. framing. Qed.
Lemma framed_release o i : framed (releasePositionIndex o i : M ()).
Proof. unfold releasePositionIndex, readReserved, write_reserved. framing. Qed.
Lemma framed_load o : framed (load_pending o : M _).
Proof. unfold load_pending. framing. Qed.
#[local] Hint Resolve framed_savePosition framed_removeTx framed_addTx framed_reserve framed_release framed_load : frames.

Lemma framed_sync o t x : framed (syncPosition o t x : M _).
Proof. unfold syncPosition. framing. Qed.
Lemma framed_pollSpv t : framed (pollSpv cfg t : M _).
Proof. unfold pollSpv. framing. Qed.
Lemma framed_findOutput t a : framed (findOutput t a : M _).
Proof. unfold findOutput. framing. Qed.
Lemma framed_locateDeposit t k : framed (locateDeposit network cfg t k : M _).
Proof. unfold locateDeposit, requireProtocolPubkey. framing. Qed.
Lemma framed_sleep ms : framed (DepositFlow.sleep ms : M ()).
Proof. unfold DepositFlow.sleep. framing. Qed.
Lemma framed_aborted : framed (is_aborted : M bool).
Proof. unfold is_aborted. framing. Qed.
Lemma framed_status h : framed (getTxStatus h : M _).
Proof. unfold getTxStatus. framing. Qed.
#[local] Hint Resolve framed_sync framed_pollSpv framed_findOutput framed_locateDeposit framed_sleep framed_aborted framed_status : frames.

Lemma framed_with_retry {A} n k (fn : M A) : framed fn → framed (with_retry n k fn).
Proof. intros Hf. revert k. induction n as [|n IH]; intros k; cbn [with_retry]; framing. Qed.

Lemma framed_view pd : framed (chain_view pd : M _).
Proof. unfold chain_view, withRetry, getDepositor. framing. apply framed_with_retry. framing. Qed.

Lemma framed_simulate {A} n i (build : M A) : framed build → framed (simulate_retry n i build).
Proof. intros Hb. revert i. induction n as [|n IH]; intros i; cbn [simulate_retry]; framing. Qed.

Lemma framed_locate n pd : framed (locateOutput n pd : M _).
Proof. induction n as [|n IH]; cbn [locateOutput]; framing. Qed.

Lemma framed_wait_round pd r : framed (wait_round cfg pd r : M _).
Proof. unfold wait_round. framing. Qed.

Lemma framed_wait_loop n pd f r : framed (wait_loop cfg n pd f r : M _).
Proof.
  revert pd f r. induction n as [|n IH]; intros pd f r; cbn [wait_loop]; framing. apply framed_wait_round.
Qed.

(** ** What a run leaves

    [post m d Q]: [Q] holds of how [m] ends from [d] and of what it leaves. *)
Definition post {A} (m : M A) (d : device W) (Q : result exn A → device W → Prop) : Prop := Q (m d).1 (m d).2.

Lemma post_bind {A B} (m : M A) (f : A → M B) d Q :
  post m d (λ r d', match r with Ok a => post (f a) d' Q | Err e => Q (Err e) d' end) → post (m ≫= f) d Q.
Proof. unfold post, mbind, io_bind. by destruct (m d) as [[a|e] d']. Qed.

Lemma post_fmap {A B} (f : A → B) (m : M A) d Q :
  post m d (λ r, Q (f <$> r)) → post (f <$> m) d Q.
Proof. unfold post, fmap, io_fmap, result_fmap. by destruct (m d) as [[a|e] d']. Qed.

Lemma post_framed {A} (m : M A) d (Q : result exn A → device W → Prop) :
  framed m → (∀ r d', frame d d' → Q r d') → post m d Q.
Proof. intros Hm HQ. unfold post. apply HQ, Hm. Qed.

Lemma post_catching {A} (m : M A) h d Q :
  post m d (λ r d', match r with Ok a => Q (Ok a) d' | Err TabClosed => Q (Err TabClosed) d' | Err e => post (h e) d' Q end) →
  post (catching m h) d Q.
Proof. unfold post, catching, try_catch. by destruct (m d) as [[a|[e|e|]] d']. Qed.

Lemma post_weaken {A} (m : M A) d (Q Q' : result exn A → device W → Prop) :
  post m d Q → (∀ r d', Q r d' → Q' r d') → post m d Q'.
Proof. unfold post. auto. Qed.

Lemma post_gets {A} (f : device W → A) d Q : Q (Ok (f d)) d → post (gets f) d Q.
Proof. done. Qed.

(** The stored deposit is [pd], and no transaction of it is on its way. *)
Definition settled (d : device W) (o x : string) : Prop :=
  ∃ pd, pending d !! o = Some pd ∧ pd_btcTxid pd = x ∧ present (pd_stellarTxHash pd) = None.

Lemma frame_settled d d' o x : frame d d' → settled d o x → settled d' o x.
Proof.
  intros (_ & P & _) (pd & Hp & Hx & Ht). specialize (P o). rewrite Hp in P.
  destruct (pending d' !! o) as [pd'|] eqn:E; [|done]. unfold key_fields in P. simplify_eq/=.
  exists pd'. split_and!; [done|congruence|]. by replace (pd_stellarTxHash pd') with (pd_stellarTxHash pd).
Qed.

Lemma settled_dead d o x h at_ : deposit_inv d → settled d o x → Sent o x h at_ ∈ notes d →
  dead (notes d) (now (dv_world d)) o x h at_.
Proof.
  intros I (pd & Hp & Hx & Hh) Hin. destruct (inv_sent d I o x h at_ Hin) as (_ & Hne & [Hd|Hs]); [done|].
  destruct Hs as (pd' & Hp' & _ & Hh' & _). rewrite Hp in Hp'. simplify_eq. rewrite Hh' in Hh.
  unfold present in Hh. by rewrite bool_decide_eq_false_2 in Hh.
Qed.

(** *** Writes *)

(** The stored deposit may be replaced when the transaction it names is dead. *)
Lemma inv_put d o pd pd' :
  deposit_inv d → pending d !! o = Some pd → pd_btcTxid pd' = pd_btcTxid pd →
  pd_stellarAddress pd' = pd_stellarAddress pd →
  (∀ h at_, Sent o (pd_btcTxid pd) h at_ ∈ notes d → pd_stellarTxHash pd = Some h →
     pd_stellarSubmittedAt pd = Some at_ → dead (notes d) (now (dv_world d)) o (pd_btcTxid pd) h at_) →
  deposit_inv (set_pending (<[o := pd']> (pending d)) d).
Proof.
  intros [I1 I2 I3 I4] Hp Hx Ha Hd. split; simpl; [|done| |].
  - intros o' x h at_ Hin. destruct (I1 o' x h at_ Hin) as (Ht & Hh & Hs). split_and!; [done|done|].
    destruct Hs as [Hs|(p & Hp' & Hx' & Hh' & Hat)]; [by left|].
    destruct (decide (o' = o)) as [->|].
    + left. rewrite Hp in Hp'. simplify_eq. by apply Hd.
    + right. exists p. simpl. rewrite lookup_insert_ne by done. by split_and!.
  - intros o' x Hin. destruct (I3 o' x Hin) as [?|(p & Hp' & Hx' & _)]; [by left|right].
    destruct (decide (o' = o)) as [->|]; [|exists p; simpl; rewrite lookup_insert_ne by done; by split_and!].
    exists pd'. simpl. rewrite lookup_insert_eq. rewrite Hp in Hp'. simplify_eq. by split_and!.
  - intros o' p. destruct (decide (o' = o)) as [->|].
    + rewrite lookup_insert_eq. intros [= <-]. rewrite Ha. by apply I4.
    + rewrite lookup_insert_ne by done. apply I4.
Qed.

Lemma inv_note_sent d o x h :
  deposit_inv d → stored_as d o x (Some (h, now (dv_world d))) → h ≠ "" →
  (∀ h' at', Sent o x h' at' ∈ notes d → dead (notes d) (now (dv_world d)) o x h' at') →
  deposit_inv (set_notes (notes d ++ [Sent o x h (now (dv_world d))]) d).
Proof.
  intros [I1 I2 I3 I4] Hs Hh Hd. split; simpl; [| | |done].
  - intros o' x' h' at' Hin. apply elem_of_app in Hin as [Hin|Hin].
    + destruct (I1 o' x' h' at' Hin) as (Ht & Hh' & [Hdd|Hss]); split_and!; try done; [left|by right].
      eapply dead_more; [reflexivity| |exact Hdd]. intros n Hn. apply elem_of_app. by left.
    + apply list_elem_of_singleton in Hin. simplify_eq. split_and!; [lia|done|by right].
  - apply once_snoc; [done|]. intros o' x' h' at' [= <- <- <- <-]. apply Hd.
  - intros o' x' Hin. apply elem_of_app in Hin as [Hin|Hin%list_elem_of_singleton]; [|done].
    destruct (I3 o' x' Hin) as [?|?]; [left; apply elem_of_app; by left|by right].
Qed.

Lemma inv_finalized d o x :
  deposit_inv d → stored_as d o x None →
  deposit_inv (set_pending (delete o (pending d)) (set_notes (notes d ++ [Finalized o x]) d)).
Proof.
  intros [I1 I2 I3 I4] (pd & Hp & Hx & _). split; simpl.
  - intros o' x' h at_ Hin. apply elem_of_app in Hin as [Hin|Hin%list_elem_of_singleton]; [|done].
    destruct (I1 o' x' h at_ Hin) as (Ht & Hh & Hs). split_and!; [done|done|].
    destruct Hs as [Hdd|(p & Hp' & Hx' & Hh' & Hat)].
    { left. eapply dead_more; [reflexivity| |exact Hdd]. intros n Hn. apply elem_of_app. by left. }
    destruct (decide (o' = o)) as [->|].
    + left. right. right. rewrite Hp in Hp'. simplify_eq. apply elem_of_app. right. by left.
    + right. exists p. simpl. rewrite lookup_delete_ne by done. by split_and!.
  - apply once_snoc; [done|]. done.
  - intros o' x' Hin. apply elem_of_app in Hin as [Hin|Hin%list_elem_of_singleton]; [|done].
    destruct (I3 o' x' Hin) as [?|(p & Hp' & Hx' & _)]; [left; apply elem_of_app; by left|].
    destruct (decide (o' = o)) as [->|].
    + left. rewrite Hp in Hp'. simplify_eq. apply elem_of_app. right. by left.
    + right. exists p. simpl. rewrite lookup_delete_ne by done. by split_and!.
  - intros o' p. destruct (decide (o' = o)) as [->|]; [by rewrite lookup_delete_eq|].
    rewrite lookup_delete_ne by done. apply I4.
Qed.

(** *** The operations *)

Definition fails_keeping {A} (r : result exn A) (P : Prop) : Prop := match r with Ok _ => True | Err _ => P end.

Lemma finalizeDeposit_post pd d :
  deposit_inv d → stored_as d (pd_stellarAddress pd) (pd_btcTxid pd) None →
  post (finalizeDeposit pd) d (λ r d', deposit_inv d' ∧
    fails_keeping r (stored_as d' (pd_stellarAddress pd) (pd_btcTxid pd) None)).
Proof.
  intros I S. unfold finalizeDeposit. apply post_bind, post_framed; [unfold realFinalize; framing|].
  intros r d1 F1. pose proof (frame_inv _ _ F1 I) as I1. pose proof (frame_stored _ _ _ _ _ F1 S) as S1.
  destruct r as [p|e]; [|by split].
  apply post_bind. unfold post at 1. cbn. apply post_bind. unfold post at 1. cbn.
  match goal with |- post (releasePositionIndex ?o ?n ≫= _) ?d2 _ =>
    pose proof (framed_release o n d2) as F2 end.
  apply post_bind. unfold post. cbn in F2 |- *. split; [|done].
  apply (frame_inv _ _ F2). by apply inv_finalized.
Qed.

(** Storing the hash and announcing the transaction. *)
Lemma onSigned_post o x h d :
  deposit_inv d → settled d o x → h ≠ "" →
  post (onSigned o h) d (λ r d', deposit_inv d' ∧
    ∃ pd, r = Ok pd ∧ pending d' !! o = Some pd ∧ pd_btcTxid pd = x ∧ pd_stellarTxHash pd = Some h).
Proof.
  intros I S Hh. pose proof S as (pd & Hp & Hx & _).
  unfold post, onSigned, update, date_now, update_pending, load_pending, write_pending, addTx, pendingTxs, write_txs,
    record, mbind, io_bind. cbn. rewrite Hp. cbn.
  set (pd' := touched _ (with_stellar _ _ pd)).
  set (d1 := set_pending (<[o := pd']> (pending d)) d).
  assert (I1 : deposit_inv d1).
  { eapply inv_put; [done|exact Hp|done|done|]. intros h' at' Hin _ _. rewrite Hx in *. by eapply settled_dead. }
  set (d2 := set_activity _ _).
  assert (F : frame d1 d2) by (split_and!; [done|done|exists []; by rewrite app_nil_r]).
  pose proof (frame_inv _ _ F I1) as I2. rewrite Hx. split.
  - apply (inv_note_sent d2 o x h I2); [|done|].
    + exists pd'. split_and!; [|done..]. unfold d2, d1. cbn. by rewrite lookup_insert_eq.
    + intros h' at' Hin. exact (settled_dead d o x h' at' I S Hin).
  - exists pd'. split_and!; [done| |done|done]. unfold d2, d1. cbn. by rewrite lookup_insert_eq.
Qed.

Lemma onDropped_post o pd d :
  deposit_inv d → pending d !! o = Some pd →
  (∀ h, pd_stellarTxHash pd = Some h → Refused h ∈ notes d) →
  post (onDropped o pd) d (λ r d', deposit_inv d').
Proof.
  intros I Hp Hr. unfold onDropped. apply post_bind, post_framed; [framing|]. intros r d1 F1.
  pose proof (frame_inv _ _ F1 I) as I1. destruct r as [[]|e]; [|done].
  destruct F1 as (_ & P & hs & N). specialize (P o). rewrite Hp in P.
  destruct (pending d1 !! o) as [pd1|] eqn:Hp1; [|done]. unfold key_fields in P. simplify_eq/=.
  unfold post, update, date_now, update_pending, load_pending, write_pending, mbind, io_bind. cbn. rewrite Hp1. cbn.
  eapply inv_put; [done|exact Hp1|done|done|]. intros h at_ _ Hh _. left. rewrite N. apply elem_of_app. left.
  apply Hr. congruence.
Qed.

(** What is left of a run of the submission: the invariant, and the deposit
    still stored when it says it succeeded. *)
Definition submitted_post (o x : string) (r : result exn (string * PendingDeposit)) (d : device W) : Prop :=
  deposit_inv d ∧ match r with Ok (_, pd) => pending d !! o = Some pd ∧ pd_btcTxid pd = x | Err _ => True end.

Lemma frame_world d w : now (dv_world d) ≤ now w → frame d (set_world w d).
Proof. intros Hw. split_and!; [done|done|]. exists []. by rewrite app_nil_r. Qed.

(** From the signed transaction on. *)
Lemma send_post o x h pd (t : tx) d :
  deposit_inv d → pending d !! o = Some pd → pd_btcTxid pd = x → pd_stellarTxHash pd = Some h →
  post (o' ← (λ d, let '(o', w) := send_tx t (dv_world d) in (Ok o', set_world w d));
        match o' with
        | sent_ok ledger => mret (h, pd, ledger)
        | failed_on_chain =>
            record (Refused h);; onDropped o pd;; throw (error ("Transaction failed on-chain: " +:+ h))
        | TransactionStillPending => throw (TxTimedOut h)
        | SendFailed e => record (Refused h);; onDropped o pd;; throw e
        | send_threw e => throw e
        end : M (string * PendingDeposit * option Z)) d (λ r, submitted_post o x (fst <$> r)).
Proof.
  intros I Hp Hx Hh. apply post_bind. unfold post at 1. pose proof (send_forward t (dv_world d)) as Hw.
  destruct (send_tx t (dv_world d)) as [o' w]. cbn in Hw |- *. pose proof (frame_world d w Hw) as F.
  pose proof (frame_inv _ _ F I) as I1.
  assert (Hdrop : ∀ e, post (record (Refused h);; onDropped o pd;; throw e : M (string * PendingDeposit * option Z))
    (set_world w d) (λ r, submitted_post o x (fst <$> r))).
  { intros e. apply post_bind. unfold post at 1. cbn.
    pose proof (frame_inv _ _ (framed_refused h (set_world w d)) I1) as I2. cbn in I2.
    apply post_bind. eapply post_weaken; [apply (onDropped_post o pd); [exact I2|done|]|].
    - intros h' Hh'. simplify_eq. cbn. apply elem_of_app. right. by left.
    - intros [[]|e'] d' I'; by split. }
  destruct o'; try (by split); apply Hdrop.
Qed.

Lemma signAndSubmit_post o x (t : tx) d :
  deposit_inv d → settled d o x →
  post (signAndSubmit t (onSigned o) (onDropped o)) d (λ r, submitted_post o x (fst <$> r)).
Proof.
  intros I S. unfold signAndSubmit. apply post_bind, post_framed; [framing|]. intros [[]|e] d1 F1;
    [|by split; [exact (frame_inv _ _ F1 I)|]].
  pose proof (frame_inv _ _ F1 I) as I1. pose proof (frame_settled _ _ _ _ F1 S) as S1.
  apply post_bind, post_catching. pose proof (framed_await (sign_tx t) (sign_forward t) d1) as F2. unfold post at 1.
  unfold await in *. destruct (sign_tx t (dv_world d1)) as [[h|e] w] eqn:Es; cbn in F2 |- *.
  - pose proof (sign_hash _ _ _ _ Es) as Hh. apply post_bind.
    eapply post_weaken; [apply (onSigned_post o x h); [by eapply frame_inv|by eapply frame_settled|done]|].
    intros r d3 (I3 & pd & -> & Hp & Hx & Hhash). apply post_bind.
    unfold post at 1. cbn. pose proof (framed_emit (e_submitted h) d3) as F4.
    apply (send_post o x h pd); [exact (frame_inv _ _ F4 I3)|done..].
  - pose proof (frame_inv _ _ F2 I1) as I2.
    destruct e as [e|hh|]; [| |by split]; (unfold post at 1; destruct (rejection_of _) as [rej|]; cbn; [|by split]).
    all: split; [|done]; exact (frame_inv _ _ (framed_emit _ _) I2).
Qed.

(** A step that keeps the key fields, and what follows it. *)
Lemma post_step {A B} (m : M A) (f : A → M B) d Q (P : device W → Prop) :
  framed m → (∀ d d', frame d d' → P d → P d') → deposit_inv d → P d →
  (∀ e d', deposit_inv d' → P d' → Q (Err e) d') →
  (∀ a d', deposit_inv d' → P d' → post (f a) d' Q) → post (m ≫= f) d Q.
Proof.
  intros Hm HP I Hd He Hf. apply post_bind, post_framed; [done|]. intros [a|e] d' F.
  - apply Hf; [by eapply frame_inv|by eapply HP].
  - apply He; [by eapply frame_inv|by eapply HP].
Qed.

(** Takes such a step; the invariant and what else is kept are renewed. *)
Ltac step tac HP I S :=
  match goal with |- post _ ?d _ =>
    eapply post_step; [solve [tac] | exact HP | exact I | exact S | by split | ]; clear I S; clear d; intros ? d I S
  end.

Lemma realRegister_post o pd bundle d :
  deposit_inv d → settled d o (pd_btcTxid pd) →
  post (realRegister network cfg o pd bundle) d (submitted_post o (pd_btcTxid pd)).
Proof.
  intros I S. unfold realRegister, requireProtocolPubkey, onLocated, simulateWritzLend.
  assert (HP : ∀ d d', frame d d' → settled d o (pd_btcTxid pd) → settled d' o (pd_btcTxid pd))
    by (intros; by eapply frame_settled).
  do 3 step ltac:(framing) HP I S.
  match goal with |- context [match ?x with Some _ => _ | None => _ end] => destruct x as [output|] end; [|by split].
  destruct (_ <? _); [by split|].
  do 6 step ltac:(framing) HP I S. cbv zeta.
  step ltac:(apply framed_simulate; framing) HP I S. by apply post_fmap, signAndSubmit_post.
Qed.

(** ** Tracking *)

(** When [planResume] asks for confirmations only, no transaction is on its
    way: the one stored has been refused or has expired. *)
Lemma plan_wait pd chain t h :
  planResume pd chain t = wait_confirmations → present (pd_stellarTxHash pd) = Some h →
  stellarTx chain = Some FAILED ∨
  STELLAR_TX_TTL_MS ≤ t - default (pd_updatedAt pd) (pd_stellarSubmittedAt pd).
Proof.
  unfold planResume. intros Hp Hh. rewrite Hh in Hp. repeat case_match; try done; bools; auto;
    repeat (case_bool_decide; try done); auto.
  all: match goal with H : (_ || _) = false |- _ => apply orb_false_iff in H as [_ H] end; bools; auto.
Qed.

Lemma chain_view_failed pd h d :
  present (pd_stellarTxHash pd) = Some h →
  post (chain_view pd) d (λ r d', match r with
    | Ok c => stellarTx c = Some FAILED → Refused h ∈ notes d' | Err _ => True end).
Proof.
  intros Hh. unfold chain_view. apply post_bind, post_framed.
  { apply framed_with_retry. unfold getDepositor. framing. }
  intros [dep|e] d1 _; [|done]. rewrite Hh. destruct (present dep); [by unfold post; cbn|].
  apply post_bind. apply post_bind, post_catching. unfold getTxStatus, post, mbind, io_bind, await, record.
  destruct (d_getTxStatus h (dv_world d1)) as [[st|[e|e|]] w]; cbn; try done.
  case_bool_decide; cbn; [|congruence]. intros _. apply elem_of_app. right. by left.
Qed.

Definition track_post (o : string) (r : result exn TrackResult) (d : device W) : Prop :=
  deposit_inv d ∧ match r with
                  | Ok (track_ready pd) => pending d !! o = Some pd ∧ present (pd_stellarTxHash pd) = None
                  | _ => True
                  end.

(** The deposit stored under [o] is [pd] as far as the key fields go. *)
Definition holds (d : device W) (o : string) (pd : PendingDeposit) : Prop :=
  key_fields <$> pending d !! o = Some (key_fields pd).

Lemma frame_holds d d' o pd : frame d d' → holds d o pd → holds d' o pd.
Proof. unfold holds. intros (_ & P & _) Hh. by rewrite P. Qed.

Lemma holds_lookup d o pd : holds d o pd → ∃ pd', pending d !! o = Some pd' ∧ key_fields pd' = key_fields pd.
Proof. unfold holds. intros Hh. apply fmap_Some in Hh as (pd' & ? & ?). eauto. Qed.

(** Forgetting a dead transaction. *)
Lemma forget_post o pd d :
  deposit_inv d → holds d o pd →
  (∀ h at_, pd_stellarTxHash pd = Some h → pd_stellarSubmittedAt pd = Some at_ →
     Refused h ∈ notes d ∨ STELLAR_TX_TTL_MS ≤ now (dv_world d) - at_) →
  post (update o (λ p, with_stellar None (pd_step p) p)) d (λ r d', deposit_inv d' ∧ settled d' o (pd_btcTxid pd)).
Proof.
  intros I Hh Hd. apply holds_lookup in Hh as (p & Hp & Hk). unfold key_fields in Hk. simplify_eq/=.
  unfold post, update, date_now, update_pending, load_pending, write_pending, mbind, io_bind. cbn. rewrite Hp. cbn.
  split.
  - eapply inv_put; [done|exact Hp|done|done|]. intros h at_ _ Hh Hat.
    destruct (Hd h at_) as [?|?]; [congruence|congruence|by left|by right; left].
  - eexists. cbn. rewrite lookup_insert_eq. split_and!; done.
Qed.

(** Waiting for the confirmations, and the last word. *)
Lemma wait_ready patience o pd x d :
  deposit_inv d → settled d o x →
  post (waitForConfirmations cfg patience pd;;
        r ← update o (with_step step_ready);
        pd ← required r;
        emit e_ready;;
        mret (track_ready pd)) d (track_post o).
Proof.
  intros I S. assert (HP : ∀ d d', frame d d' → settled d o x → settled d' o x) by (intros; by eapply frame_settled).
  unfold waitForConfirmations. step ltac:(apply framed_wait_loop) HP I S.
  destruct S as (p & Hp & Hx & Hh).
  pose proof (framed_update o (with_step step_ready) ltac:(done) d) as F. pose proof (frame_inv _ _ F I) as I1.
  apply post_bind. unfold post at 1. revert I1. clear F.
  unfold update, date_now, update_pending, load_pending, write_pending, mbind, io_bind. cbn. rewrite Hp. cbn.
  intros I1. split; [exact (frame_inv _ _ (framed_emit e_ready _) I1)|]. cbn. rewrite lookup_insert_eq. done.
Qed.

Lemma confirm_post patience o pd d :
  deposit_inv d → holds d o pd →
  (∀ h, present (pd_stellarTxHash pd) = Some h → ∀ at_, pd_stellarSubmittedAt pd = Some at_ →
     Refused h ∈ notes d ∨ STELLAR_TX_TTL_MS ≤ now (dv_world d) - at_) →
  post (confirm cfg patience o pd) d (track_post o).
Proof.
  intros I Hh Hd. unfold confirm. apply post_bind.
  destruct (present (pd_stellarTxHash pd)) as [h|] eqn:Eh.
  - apply post_bind, post_framed; [framing|]. intros [[]|e] d1 F; pose proof (frame_inv _ _ F I) as I1; [|by split].
    apply post_bind. eapply post_weaken; [apply (forget_post o pd); [done|by eapply frame_holds|]|].
    + intros h' at_ Hh' Hat. apply present_some in Eh as [Eh _]. assert (h' = h) as -> by congruence.
      destruct F as (Ht & _ & hs & N). destruct (Hd h eq_refl at_ Hat) as [?|?]; [left; rewrite N; apply elem_of_app; by left|right; lia].
    + intros [r|e] d2 (I2 & S2); [|by split]. apply post_framed; [framing|].
      intros [pd'|e] d3 F3; pose proof (frame_inv _ _ F3 I2); [|by split].
      eapply wait_ready; [done|by eapply frame_settled].
  - unfold post at 1. cbn. apply holds_lookup in Hh as (p & Hp & Hk). unfold key_fields in Hk. simplify_eq/=.
    eapply (wait_ready patience o pd); [done|]. exists p. split_and!; [done|done|congruence].
Qed.

Lemma track_post_err o e d : deposit_inv d → track_post o (Err e) d.
Proof. by split. Qed.

Lemma track_correct rounds patience o d :
  deposit_inv d → post (track cfg rounds patience o) d (track_post o).
Proof.
  revert d. induction rounds as [|rounds IH]; intros d I; [by split|]. cbn [track].
  apply post_bind, post_gets. destruct (pending d !! o) as [pd|] eqn:Hp; [|by split].
  assert (Hh : holds d o pd) by (unfold holds; by rewrite Hp).
  pose proof (inv_owner d I o pd Hp) as Ho.
  apply post_bind. unfold post at 1. pose proof (framed_view pd d) as F. pose proof (chain_view_failed pd) as Hf.
  specialize (λ h, Hf h d). unfold post in Hf.
  destruct (chain_view pd d) as [[chain|e] d1]; cbn [fst snd] in *; pose proof (frame_inv _ _ F I) as I1; [|by split].
  pose proof (frame_holds _ _ _ _ F Hh) as Hh1.
  apply post_bind, post_gets. destruct (planResume _ _ _) eqn:Epl.
  - apply post_bind, post_framed; [framing|]. intros [[]|e] d2 F2; pose proof (frame_inv _ _ F2 I1); [|by split].
    apply post_bind, post_framed; [apply framed_locate|]. intros [?|e] d3 F3; [|by split; [eapply frame_inv|]].
    apply IH. by eapply frame_inv.
  - apply confirm_post; [done|done|]. intros h Eh at_ Hat.
    destruct (plan_wait _ _ _ _ Epl Eh) as [Hs|Hs]; [left; by apply Hf|right]. rewrite Hat in Hs. done.
  - apply post_bind, post_framed; [framing|]. intros [[]|e] d2 F2; pose proof (frame_inv _ _ F2 I1); [|by split].
    apply post_bind, post_framed; [framing|]. intros [[]|e] d3 F3; [|by split; [eapply frame_inv|]].
    apply IH. by eapply frame_inv.
  - apply post_bind. eapply post_weaken; [apply finalizeDeposit_post; [done|]|].
    + rewrite Ho. apply holds_lookup in Hh1 as (p & ? & Hk). unfold key_fields in Hk. exists p. simplify_eq/=. by split_and!.
    + intros [p|e] d2 (I2 & _); by split.
  - by split.
Qed.

(** ** Registering *)

Lemma finish_post n pd h d :
  deposit_inv d → stored_as d (pd_stellarAddress pd) (pd_btcTxid pd) None →
  post (finish n pd h) d (λ _ d', deposit_inv d').
Proof.
  revert d. induction n as [|n IH]; intros d I S; cbn [finish]; apply post_catching;
    (eapply post_weaken; [by apply finalizeDeposit_post|]);
    intros [p|[e|e|]] d1 (I1 & S1); cbn in S1; try done.
  1, 2: apply post_bind, post_framed; [framing|]; intros [[]|e'] d2 F2; exact (frame_inv _ _ F2 I1).
  all: apply post_bind, post_framed; [framing|]; intros [[]|e'] d2 F2; pose proof (frame_inv _ _ F2 I1); [|done];
    apply IH; [done|by eapply frame_stored].
Qed.

Lemma registerDeposit_inv patience o d :
  deposit_inv d → post (registerDeposit network cfg patience o) d (λ _ d', deposit_inv d').
Proof.
  intros I. unfold registerDeposit. apply post_bind.
  eapply post_weaken; [by apply track_correct|]. intros [[pd|position]|e] d1 [I1 S1]; [| |done].
  2: { apply post_bind, post_framed; [framing|]. intros [[]|e] d2 F2; exact (frame_inv _ _ F2 I1). }
  destruct S1 as [Hp Hh].
  assert (S : settled d1 o (pd_btcTxid pd)) by (exists pd; by split_and!).
  assert (HP : ∀ d d', frame d d' → settled d o (pd_btcTxid pd) → settled d' o (pd_btcTxid pd))
    by (intros; by eapply frame_settled).
  clear Hp Hh. rename I1 into I'. revert I' S. generalize d1. clear d1 d I. intros d I S.
  apply post_bind, post_framed; [framing|]. intros [[]|e] d1 F1; pose proof (frame_inv _ _ F1 I) as I1; [|done].
  pose proof (HP _ _ F1 S) as S1.
  apply post_bind, post_framed; [apply framed_wait_loop|]. intros [bundle|e] d2 F2; pose proof (frame_inv _ _ F2 I1) as I2; [|done].
  pose proof (HP _ _ F2 S1) as S2.
  apply post_bind, post_catching. eapply post_weaken; [by apply (realRegister_post o pd bundle)|].
  intros [[h pd']|[e|h|]] d3 [I3 R3]; try done.
  - apply post_bind, post_framed; [framing|]. intros [[]|e] d4 F4; pose proof (frame_inv _ _ F4 I3) as I4; [|done].
    destruct R3 as [Hp3 Hx3]. pose proof (inv_owner _ I3 _ _ Hp3) as Ho.
    assert (S3 : stored_as d3 (pd_stellarAddress pd') (pd_btcTxid pd') None) by (rewrite Ho; exists pd'; by split_and!).
    apply post_bind, post_framed; [framing|]. intros [[]|e] d5 F5; pose proof (frame_inv _ _ F5 I4) as I5; [|done].
    apply post_bind. eapply post_weaken;
      [apply finish_post; [done|eapply frame_stored; [exact F5|]; eapply frame_stored; [exact F4|exact S3]]|].
    intros [p|e] d6 I6; [|done]. apply post_bind, post_framed; [framing|].
    intros [[]|e] d7 F7; exact (frame_inv _ _ F7 I6).
  - unfold post. cbn. exact (frame_inv _ _ (framed_emit _ _) I3).
Qed.

(** ** Starting *)

(** A first deposit of its owner is stored, with what is noted of it. *)
Lemma inv_start d pd (n : list note) :
  deposit_inv d → pending d !! pd_stellarAddress pd = None →
  (n = [] ∨ n = [BtcSent (pd_stellarAddress pd) (pd_btcTxid pd)]) →
  deposit_inv (set_pending (<[pd_stellarAddress pd := pd]> (pending d)) (set_notes (notes d ++ n) d)).
Proof.
  intros [I1 I2 I3 I4] Hp Hn. set (o := pd_stellarAddress pd) in *.
  assert (Hin : ∀ m, m ∈ n → m = BtcSent o (pd_btcTxid pd)).
  { intros m Hm. destruct Hn as [->| ->]; [by apply elem_of_nil in Hm|by apply list_elem_of_singleton in Hm]. }
  split; simpl.
  - intros o' x h at_ Hs. apply elem_of_app in Hs as [Hs|Hs]; [|by apply Hin in Hs].
    destruct (I1 o' x h at_ Hs) as (Ht & Hh & [Hd|(p & Hp' & Hr)]); split_and!; try done.
    + left. eapply dead_more; [reflexivity| |exact Hd]. intros m Hm. apply elem_of_app. by left.
    + right. exists p. simpl. rewrite lookup_insert_ne by congruence. by split.
  - destruct Hn as [-> | ->]; [by rewrite app_nil_r|by apply once_snoc].
  - intros o' x Hs. apply elem_of_app in Hs as [Hs|Hs].
    + destruct (I3 o' x Hs) as [?|(p & Hp' & Hr)]; [left; apply elem_of_app; by left|right].
      exists p. simpl. rewrite lookup_insert_ne by congruence. by split.
    + apply Hin in Hs. simplify_eq. right. exists pd. simpl. by rewrite lookup_insert_eq.
  - intros o' p. destruct (decide (o' = o)) as [->|].
    + rewrite lookup_insert_eq. by intros [= <-].
    + rewrite lookup_insert_ne by done. apply I4.
Qed.

Lemma frame_none d d' o : frame d d' → pending d !! o = None → pending d' !! o = None.
Proof. intros (_ & P & _) Hn. specialize (P o). rewrite Hn in P. by destruct (pending d' !! o). Qed.

Lemma startDepositBySending_inv ctx lock sats d :
  deposit_inv d → pending d !! sc_owner ctx = None →
  post (startDepositBySending ctx lock sats) d (λ _ d', deposit_inv d').
Proof.
  intros I Hn. unfold startDepositBySending.
  assert (HP : ∀ d d', frame d d' → pending d !! sc_owner ctx = None → pending d' !! sc_owner ctx = None)
    by (intros; by eapply frame_none).
  eapply post_step; [framing|exact HP|exact I|exact Hn|done|]. clear I Hn d. intros i d I Hn.
  eapply post_step; [framing|exact HP|exact I|exact Hn|done|]. clear I Hn d. intros _ d I Hn.
  eapply post_step; [framing|exact HP|exact I|exact Hn|done|]. clear I Hn d. intros t d I Hn.
  unfold post. cbn.
  refine (inv_start d (touched (now (dv_world d)) (newPending ctx lock (toLowerCase t) sats i None (now (dv_world d))))
    [BtcSent (sc_owner ctx) (toLowerCase t)] I Hn _). by right.
Qed.

Lemma startDepositFromTxid_inv ctx t d :
  deposit_inv d → pending d !! sc_owner ctx = None →
  post (startDepositFromTxid network cfg ctx t) d (λ _ d', deposit_inv d').
Proof.
  intros I Hn. unfold startDepositFromTxid. cbv zeta.
  assert (HP : ∀ d d', frame d d' → pending d !! sc_owner ctx = None → pending d' !! sc_owner ctx = None)
    by (intros; by eapply frame_none).
  eapply post_step; [framing|exact HP|exact I|exact Hn|done|]. clear I Hn d. intros _ d I Hn.
  eapply post_step; [framing|exact HP|exact I|exact Hn|done|]. clear I Hn d. intros out d I Hn.
  destruct out as [lock v sats| |]; [|done|done].
  eapply post_step; [framing|exact HP|exact I|exact Hn|done|]. clear I Hn d. intros i d I Hn.
  unfold post. cbn.
  pose proof (inv_start d (touched (now (dv_world d)) (newPending ctx lock (toLowerCase (trim t)) sats i (Some v)
    (now (dv_world d)))) [] I Hn ltac:(by left)) as I'.
  by rewrite app_nil_r in I'.
Qed.

(** ** What may happen on a device

    The app starts a deposit only while none is pending, runs one of these at
    a time, and each may stop anywhere; meanwhile the rest of the app and the
    world go on. *)
Inductive device_step : device W → device W → Prop :=
| step_send ctx lock sats d : pending d !! sc_owner ctx = None →
    device_step d (startDepositBySending ctx lock sats d).2
| step_txid ctx t d : pending d !! sc_owner ctx = None →
    device_step d (startDepositFromTxid network cfg ctx t d).2
| step_track patience o d : device_step d (trackDeposit cfg patience o d).2
| step_register patience o d : device_step d (registerDeposit network cfg patience o d).2
| step_elsewhere d d' : now (dv_world d) ≤ now (dv_world d') → pending d' = pending d → notes d' = notes d →
    device_step d d'.

Definition fresh (d : device W) : Prop := pending d = ∅ ∧ notes d = [].

Lemma fresh_inv d : fresh d → deposit_inv d.
Proof.
  intros [Hp Hn]. split; rewrite ?Hp, ?Hn; try (by intros; match goal with H : _ ∈ [] |- _ => by apply elem_of_nil in H end).
  - intros l1 o x h at_ l2 Heq. by destruct l1.
  - intros o pd. by rewrite lookup_empty.
Qed.

Lemma device_step_inv d d' : device_step d d' → deposit_inv d → deposit_inv d'.
Proof.
  intros [ctx lock sats d1 Hn|ctx t d1 Hn|patience o d1|patience o d1|d1 d2 Ht Hp Hn] I.
  - by apply startDepositBySending_inv.
  - by apply startDepositFromTxid_inv.
  - by apply (track_correct patience patience o d1).
  - by apply registerDeposit_inv.
  - eapply frame_inv; [|exact I]. split_and!; [done|intros o; by rewrite Hp|]. exists []. by rewrite Hn, app_nil_r.
Qed.

Lemma device_reachable_inv d d' : rtc device_step d d' → fresh d → deposit_inv d'.
Proof. intros Hr Hf. apply fresh_inv in Hf. induction Hr; eauto using device_step_inv. Qed.
End facts.

(** ** Property *)


(** ** A concrete deposit *)

Module Demo.
#[local] Existing Instance RedeemScript.Demo.lib.
#[local] Existing Instance AppBitcoin.Demo.txs.

(** The clock, and whether the contract has the position. *)
Record world : Type := mkWorld { clock : Z; registered : bool }.

Definition txid : string := "ab01".

Definition on_chain : ChainPosition := {|
  cp_txid := txid; cp_status := active; cp_depositor := "GUSER"; cp_collateralSats := 25000;
  cp_debtStroops := 0; cp_storedDebtStroops := 0; cp_timelockHeight := 313000;
  cp_userPubkey := AppBitcoin.Demo.userHex; cp_scriptPubKey := ""; cp_ledger := 1 |}.

#[local] Instance discover_deps : DiscoverDeps world := {
  now := clock;
  d_depositCalls _ w := (Ok [], w);
  d_readPosition _ w := (Ok (if registered w then Some on_chain else None), w);
  d_findVout _ _ w := (Ok (Some 1), w);
}.

Definition bundle : SpvBundle := {|
  sb_rawTxNoWitness := "00";
  sb_sorobanArgs := {| sa_block_hash := "00"; sa_merkle_proof := []; sa_tx_index := 0; sa_raw_tx := "00" |} |}.

#[local] Instance submit_env : SubmitEnv world () := {
  d_sleep ms w := (Ok (), mkWorld (clock w + Z.max 0 ms) (registered w));
  d_getTxStatus _ w := (Ok NOT_FOUND, w);
  sign_tx _ w := (Ok "h1"%string, w);
  send_tx _ w := (sent_ok (Some 7), mkWorld (clock w) true);
}.

#[local] Instance deposit_env : DepositEnv world () := {
  aborted _ := false;
  fetch_proof _ w := (Ok {| pr_status := 200; pr_bundle := Some bundle; pr_available := None; pr_requested := None |}, w);
  get_outputs _ w := (Ok (Some (Some [(Some "bc1q"%string, 25000)])), w);
  get_hex _ w := (Ok None, w);
  fetchTipHeight w := (Ok 261500, w);
  wallet_send _ _ w := (Ok "AB01"%string, w);
  signKeyProof _ w := (Ok (BitcoinMessage.to_base64 (x1f :: replicate 64 x01)), w);
  simulate_deposit _ w := (Ok (), w);
}.

#[local] Instance deposit_laws : DepositLaws.
Proof.
  split; try (intros; intros w; cbn; lia). intros t w h w' [= <- <-]. discriminate.
Defined.

Definition cfg : AppConfig := {|
  protocolPubkey := Some AppBitcoin.Demo.protocolHex; relayerUrl := Some "https://relayer"%string;
  minConfirmations := 6; minDepositSats := 1000; writzLendId := "CLEND" |}.

Definition empty_device : device world := mkDevice (mkWorld 1000 false) ∅ ∅ ∅ ∅ [] [].

Definition ctx : StartContext := {|
  sc_owner := "GUSER"; sc_btcPubkey := AppBitcoin.Demo.userHex; sc_usedIndices := [] |}.

Definition lock : DepositLock := {| dl_p2wsh := "bc1q"; dl_timelockHeight := 313000 |}.

Definition sent : device world := (startDepositBySending ctx lock 25000 empty_device).2.

(** The tab was closed after sending; later the deposit is taken to its end. *)
Definition finished : device world := (registerDeposit testnet cfg 5 "GUSER" sent).2.

Example deposit_completes :
  notes finished = [BtcSent "GUSER" txid; Sent "GUSER" txid "h1" 1000; Finalized "GUSER" txid] ∧
  pending finished !! "GUSER" = None ∧
  (map id <$> positions finished !! "GUSER") = Some [txid] ∧
  last (dv_events finished) = Some (e_settled (Some "h1"%string)).
Proof. vm_compute. done. Qed.

End Demo.
