(* ===== verification/AppRelease.v ===== *)
(** * Taking the BTC back in the app ([frontend/app/src/lib/flows/release.ts])

    The relayer publishes a half-signed release; the app reads it, checks it,
    has the user sign it and broadcasts the result ([releaseBtc], with
    [finalizePathA] of bitcoin/address.ts). bitcoinjs-lib's PSBT is the
    interface [PsbtView]; the contract reads, the wallet and the broadcast are
    [ReleaseDeps]. The state keeps what the flow reported and what it handed
    to the wallet and to the network, in order. *)

From S2P Require Import Prelude JsData Keys Payment Spend RedeemScript BitcoinTx.
From S2P Require Import RepayHandler LendRates AppBitcoin Rejection FlowEngine AppStore.

(** ** What the code sees of a PSBT *)

Record input_view : Type := {
  witnessUtxo : option (list byte * Z);
  signing : psbt_input;
}.

Class PsbtView (psbt : Type) : Type := {
  fromBuffer : list byte → option psbt;
  fromBase64 : string → option psbt;
  toBase64 : psbt → string;
  (** the hash, in internal byte order, and the index of each input *)
  txInputs : psbt → list (list byte * Z);
  txOutputs : psbt → list (list byte * Z);
  data_inputs : psbt → list input_view;
  (** [data.inputs[0].partialSig ??= []] and [push] of each signature *)
  push_sigs : list partial_sig → psbt → psbt;
  (** [finalizeInput(0, finalizer)] *)
  finalizeInput0 : (psbt_input → result spend_error (list byte)) → psbt → result spend_error psbt;
  extractHex : psbt → option string;
}.

Inductive release_error : Type :=
| Thrown (e : thrown)
| Message (m : string)
| TypeError_
| NotAPsbt
| NoAddress_
| Locking (e : script_error)
| Finalizing (e : spend_error)
| NotExtractable.

(** ** Positions and quotes *)

(** [{ ...position, status: "released", vout, releaseTxid, releaseAddress }] *)
Definition released (p : Position) (v : Z) (btcTxid recipient : string) : Position := {|
  id := id p; owner := owner p; txid := txid p; collateralSats := collateralSats p;
  debtStroops := debtStroops p; index := index p; status := p_released; createdAt := createdAt p;
  btcPubkey := btcPubkey p; timelockHeight := timelockHeight p; vout := Some v;
  releaseTxid := Some btcTxid; releaseAddress := Some recipient; stellarTxHash := stellarTxHash p |}.

Inductive ReleaseBlocker : Type := missing_details | no_wallet | wrong_account | wrong_network.

Record Expected : Type := {
  e_txid : string;
  e_protocolPubkey : string;
  e_userPubkey : string;
  e_timelockHeight : Z;
}.

Record ReleaseQuote : Type := {
  q_vout : Z;
  amountSat : Z;
  feeSat : Z;
  recipient : string;
}.

(** [if (psbt.txInputs.length !== 1 || ...) throw new Error(m)] *)
Definition demand (c : bool) (m : string) : result release_error () := ensure c (Message m).

Section code.
Context `{ScriptLib, KeyEnv, PaymentLib} {psbt : Type} `{PsbtView psbt} (network : Network).

(** [isAddressForNetwork] *)
Definition isAddressForNetwork (address : string) : bool :=
  bool_decide (is_Some (toOutputScript address network)).

Definition truthy_height (h : option Z) : bool :=
  match h with Some h => negb (h =? 0) | None => false end.

Definition releaseBlocker (position : Position) (address pubkey : option string) : option ReleaseBlocker :=
  if negb (truthy (btcPubkey position) && truthy_height (timelockHeight position)
           && negb (bool_decide (txid position = "")))
  then Some missing_details else
  match present address with
  | None => Some no_wallet
  | Some address =>
      if match present pubkey with
         | Some k => negb (bool_decide (toLowerCase k = toLowerCase (default "" (btcPubkey position))))
         | None => false
         end
      then Some wrong_account
      else if negb (isAddressForNetwork address) then Some wrong_network else None
  end.

Definition releaseAddressOf (btcPubkeyHex : string) : result release_error string :=
  of_option (present (p2wpkh_address (from_hex btcPubkeyHex) network)) NoAddress_.

Definition checkReleasePsbt (p : psbt) (expected : Expected) : result release_error ReleaseQuote :=
  lock ← map_err Locking (deriveP2WSH network (e_protocolPubkey expected) (e_userPubkey expected)
                            (e_timelockHeight expected));
  recipient ← releaseAddressOf (e_userPubkey expected);
  _ ← demand ((zlen (txInputs p) =? 1) && (zlen (txOutputs p) =? 1)) "ReleaseMismatch: shape";
  input ← of_option (head (txInputs p)) TypeError_;
  data ← of_option (head (data_inputs p)) TypeError_;
  _ ← demand (bool_decide (to_hex (rev input.1) = toLowerCase (e_txid expected))) "ReleaseMismatch: input";
  _ ← demand (match witnessUtxo data with
              | Some u => bool_decide (u.1 = AppBitcoin.scriptPubKey lock) | None => false end)
        "ReleaseMismatch: lock";
  _ ← demand (match witnessScript (signing data) with
              | Some s => bool_decide (s = AppBitcoin.redeemScript lock) | None => false end)
        "ReleaseMismatch: script";
  let protocolKey := from_hex (e_protocolPubkey expected) in
  _ ← demand (existsb (λ s, bool_decide (pubkey s = protocolKey)) (default [] (partialSig (signing data))))
        "ReleaseMismatch: protocol signature";
  out ← of_option (head (txOutputs p)) TypeError_;
  script ← of_option (toOutputScript recipient network) NoAddress_;
  _ ← demand (bool_decide (out.1 = script)) "ReleaseMismatch: recipient";
  utxo ← of_option (witnessUtxo data) TypeError_;
  let amountSat := utxo.2 in
  let feeSat := amountSat - out.2 in
  _ ← demand (negb (feeSat <? 0)) "ReleaseMismatch: amount";
  mret {| q_vout := input.2; amountSat := amountSat; feeSat := feeSat; recipient := recipient |}.

(** [finalizePathA]: the signatures of the user's copy join the relayer's. *)
Definition finalizePathA (protocolSigned userSigned protocolPubkeyHex userPubkeyHex : string) :
    result release_error string :=
  userPsbt ← of_option (fromBase64 userSigned) NotAPsbt;
  merged ← of_option (fromBase64 protocolSigned) NotAPsbt;
  let userSigs := default [] (head (data_inputs userPsbt) ≫= λ d, partialSig (signing d)) in
  if negb (bool_decide (userSigs = [])) && bool_decide (data_inputs merged = []) then Err TypeError_ else
  let merged := push_sigs userSigs merged in
  final ← map_err Finalizing (finalizeInput0
            (finalize_input (from_hex protocolPubkeyHex) (from_hex userPubkeyHex)) merged);
  of_option (extractHex final) NotExtractable.
End code.

(** ** The flow *)

(** The calls that leave the app. [d_close] may report events of its own. *)
Class ReleaseDeps (W : Type) : Type := {
  d_read : string → W → result thrown (option ChainPosition) * W;
  d_getReleasePsbt : string → W → result thrown (option (list byte)) * W;
  d_close : string → string → W → list FlowEvent * result thrown () * W;
  d_broadcast : string → W → result thrown string * W;
  d_sleep : Z → W → W;
  d_signPsbt : string → W → result thrown string * W;
  d_savePosition : Position → W → result thrown () * W;
}.

(** What the app asked others to do. *)
Inductive asked : Type :=
| Closed_ (txid owner : string)
| AskedToSign (psbtBase64 : string)
| Broadcast (txHex : string)
| Saved (p : Position).

Record releasing (W : Type) : Type := mkReleasing {
  r_world : W;
  r_events : list FlowEvent;
  r_asked : list asked;
}.
Arguments mkReleasing {W}.
Arguments r_world {W}.
Arguments r_events {W}.
Arguments r_asked {W}.

Definition COSIGN_POLL_MS : Z := 5000.
Definition COSIGN_WAIT_MS : Z := 10 * 60000.
Definition COSIGN_POLLS : nat := Z.to_nat (COSIGN_WAIT_MS / COSIGN_POLL_MS).

Section flow.
Context {W : Type} `{ReleaseDeps W, ScriptLib, KeyEnv, PaymentLib} {psbt : Type} `{PsbtView psbt}
  (network : Network) (configuredProtocolPubkey : option string).
Abbreviation M := (io (releasing W) release_error).

Definition emit (e : FlowEvent) : M () :=
  modify (λ s, mkReleasing (r_world s) (r_events s ++ [e]) (r_asked s)).

Definition ask (a : asked) : M () :=
  modify (λ s, mkReleasing (r_world s) (r_events s) (r_asked s ++ [a])).

Definition outside {A} (f : W → result thrown A * W) : M A := λ s,
  let '(r, w) := f (r_world s) in (map_err Thrown r, mkReleasing w (r_events s) (r_asked s)).

Definition closing (t o : string) : M () := λ s,
  let '(es, r, w) := d_close t o (r_world s) in
  (map_err Thrown r, mkReleasing w (r_events s ++ es) (r_asked s)).

Definition close_position (t o : string) : M () := ask (Closed_ t o);; closing t o.

Definition sleep : M () := λ s,
  (Ok (), mkReleasing (d_sleep COSIGN_POLL_MS (r_world s)) (r_events s) (r_asked s)).

(** The polling loop, with [waits] more waits before it gives up. *)
Fixpoint await_cosigned (waits : nat) (t : string) : M (list byte) :=
  raw ← outside (d_getReleasePsbt t);
  match raw with
  | Some raw => mret raw
  | None =>
      match waits with
      | O => throw (Message "ReleaseNotCosigned")
      | S waits => sleep;; await_cosigned waits t
      end
  end.

(** From the position read to the loan closed. *)
Definition ensure_closed (chain : ChainPosition) (position : Position) (stellarAddress : string) : M () :=
  if negb (bool_decide (cp_depositor chain = stellarAddress)) then throw (Message "Unauthorized") else
  if bool_decide (cp_status chain = liquidated) then throw (Message "PositionNotActive") else
  if bool_decide (cp_status chain = active)
  then if cp_debtStroops chain >? 0 then throw (Message "LoanNotRepaid")
       else close_position (txid position) stellarAddress
  else mret ().

Definition expected_of (protocolPubkey : string) (position : Position) (chain : ChainPosition) : Expected := {|
  e_txid := txid position; e_protocolPubkey := protocolPubkey;
  e_userPubkey := cp_userPubkey chain; e_timelockHeight := cp_timelockHeight chain |}.

(** Checking, signing and broadcasting what the relayer published. *)
Definition sign_and_broadcast (protocolPubkey : string) (position : Position) (chain : ChainPosition)
    (raw : list byte) : M (string * string) :=
  p ← lift (of_option (fromBuffer raw) NotAPsbt);
  quote ← lift (checkReleasePsbt network p (expected_of protocolPubkey position chain));
  emit (e_awaiting_signature Rejection.bitcoin);;
  let protocolSigned := toBase64 p in
  ask (AskedToSign protocolSigned);;
  userSigned ← outside (d_signPsbt protocolSigned);
  emit (e_preparing (Some broadcasting));;
  txHex ← lift (finalizePathA protocolSigned userSigned protocolPubkey (cp_userPubkey chain));
  ask (Broadcast txHex);;
  btcTxid ← outside (d_broadcast txHex);
  let saved := released position (q_vout quote) btcTxid (recipient quote) in
  ask (Saved saved);;
  outside (d_savePosition saved);;
  emit (e_settled None);;
  mret (btcTxid, recipient quote).

Definition releaseBtc (position : Position) (stellarAddress : string) : M (string * string) :=
  match present configuredProtocolPubkey with
  | None => throw (Message "NEXT_PUBLIC_PROTOCOL_BTC_PUBKEY not configured")
  | Some protocolPubkey =>
      emit (e_preparing (Some reading));;
      chain ← outside (d_read (txid position));
      match chain with
      | None => throw (Message "PositionNotFound")
      | Some chain =>
          ensure_closed chain position stellarAddress;;
          emit (e_preparing (Some cosign));;
          raw ← await_cosigned COSIGN_POLLS (txid position);
          sign_and_broadcast protocolPubkey position chain raw
      end
  end.
End flow.

(** ** Lemmas *)

(** What [checkReleasePsbt] makes sure of. *)
Definition accepted `{ScriptLib, KeyEnv, PaymentLib} {psbt : Type} `{PsbtView psbt} (network : Network)
    (p : psbt) (e : Expected) (q : ReleaseQuote) : Prop :=
  ∃ lock data hash u out,
    deriveP2WSH network (e_protocolPubkey e) (e_userPubkey e) (e_timelockHeight e) = Ok lock
    ∧ p2wpkh_address (from_hex (e_userPubkey e)) network = Some (recipient q) ∧ recipient q ≠ ""
    ∧ txInputs p = [(hash, q_vout q)] ∧ to_hex (rev hash) = toLowerCase (e_txid e)
    ∧ txOutputs p = [out] ∧ toOutputScript (recipient q) network = Some out.1
    ∧ head (data_inputs p) = Some data
    ∧ witnessUtxo data = Some u ∧ u.1 = AppBitcoin.scriptPubKey lock
    ∧ witnessScript (signing data) = Some (AppBitcoin.redeemScript lock)
    ∧ (∃ s, s ∈ default [] (partialSig (signing data)) ∧ pubkey s = from_hex (e_protocolPubkey e))
    ∧ amountSat q = u.2 ∧ feeSat q = u.2 - out.2 ∧ 0 ≤ feeSat q.

Section lemmas.
Context `{ScriptLib, KeyEnv, PaymentLib} {psbt : Type} `{PsbtView psbt} (network : Network).

Lemma demand_ok c m u : demand c m = Ok u ↔ c = true.
Proof. unfold demand, ensure. destruct u, c; split; congruence. Qed.

Lemma map_err_ok {E E' A} (f : E → E') (r : result E A) a : map_err f r = Ok a ↔ r = Ok a.
Proof. destruct r; cbn; split; congruence. Qed.

Ltac ok_steps :=
  repeat match goal with
  | H : _ ≫= _ = Ok _ |- _ => apply bind_ok in H as (? & ? & ?)
  | H : map_err _ _ = Ok _ |- _ => apply map_err_ok in H
  | H : of_option _ _ = Ok _ |- _ => apply of_option_ok in H
  | H : demand _ _ = Ok _ |- _ => apply demand_ok in H
  | H : present _ = Some _ |- _ => apply present_some in H as [? ?]
  end.

Lemma checkReleasePsbt_ok p e q : checkReleasePsbt network p e = Ok q ↔ accepted network p e q.
Proof.
  unfold checkReleasePsbt, accepted, releaseAddressOf. split.
  - intros Hc. ok_steps. bools.
    repeat match goal with H : zlen _ = 1 |- _ => apply zlen_one in H as [? H] end.
    repeat match goal with H : txInputs _ = _ |- _ => rewrite H in * end.
    repeat match goal with H : txOutputs _ = _ |- _ => rewrite H in * end.
    unfold mret, result_ret in *. simplify_eq/=. repeat (case_match; simplify_eq/=). bools.
    match goal with H : existsb _ _ = true |- _ => apply existsb_exists in H as (s & Hs%list_elem_of_In & ?) end.
    bools. subst. match goal with H : txInputs _ = [?x] |- _ => destruct x as [hash i] end.
    eexists _, _, hash, _, _. split_and!; try done; eauto.
  - intros (lock & data & hash & u & out & -> & Ha & Hne & Ei & Hh & Eo & Es & Ed & Eu & Hl & Ew & (s & Hs & Hk) & Eam & Ef & Hf).
    cbn -[to_hex]. rewrite (proj2 (present_some _ _) (conj Ha Hne)). cbn -[to_hex]. rewrite Ei, Eo. cbn -[to_hex]. rewrite Ed. cbn -[to_hex].
    rewrite Hh, bool_decide_eq_true_2 by done. cbn -[to_hex]. rewrite Eu, Hl, bool_decide_eq_true_2 by done. cbn -[to_hex].
    rewrite Ew, bool_decide_eq_true_2 by done. cbn -[to_hex].
    rewrite (proj2 (existsb_exists _ _)). 2: { exists s. split; [by apply list_elem_of_In|by apply bool_decide_eq_true]. }
    cbn -[to_hex]. rewrite Es. cbn -[to_hex]. rewrite bool_decide_eq_true_2 by done. cbn -[to_hex].
    destruct (Z.ltb_spec (u.2 - out.2) 0); [lia|]. cbn -[to_hex]. destruct q; cbn in *; by subst.
Qed.
End lemmas.

(** ** What a run asks for *)

Section run.
Context {W : Type} `{ReleaseDeps W, ScriptLib, KeyEnv, PaymentLib} {psbt : Type} `{PsbtView psbt}
  (network : Network) (configuredProtocolPubkey : option string).

(** The computation asks for nothing. *)
Definition quiet {A} (m : io (releasing W) release_error A) : Prop :=
  preserves (λ s s', r_asked s' = r_asked s) m.

#[local] Instance same_asked_preorder : PreOrder (λ s s' : releasing W, r_asked s' = r_asked s).
Proof. split; [done|intros s1 s2 s3; congruence]. Qed.

Lemma emit_quiet e : quiet (emit e).
Proof. intros s. done. Qed.
Lemma outside_quiet {A} (f : W → result thrown A * W) : quiet (outside f).
Proof. intros s. unfold outside. by destruct (f _). Qed.
Lemma sleep_quiet : quiet sleep.
Proof. intros s. done. Qed.
Lemma await_quiet n t : quiet (await_cosigned n t).
Proof.
  induction n as [|n IH]; unfold quiet; cbn [await_cosigned]; preserve;
    (apply outside_quiet || apply sleep_quiet || apply IH).
Qed.

(** Signing and broadcasting: what is asked, and with what. *)
Definition signing_calls (protocolPubkey : string) (position : Position) (chain : ChainPosition)
    (calls : list asked) (done_ : option (string * string)) : Prop :=
  (calls = [] ∧ done_ = None) ∨
  ∃ p quote, accepted network p (expected_of protocolPubkey position chain) quote ∧
    ((calls = [AskedToSign (toBase64 p)] ∧ done_ = None) ∨
     ∃ userSigned txHex,
       finalizePathA (toBase64 p) userSigned protocolPubkey (cp_userPubkey chain) = Ok txHex ∧
       ((calls = [AskedToSign (toBase64 p); Broadcast txHex] ∧ done_ = None) ∨
        ∃ btcTxid, calls = [AskedToSign (toBase64 p); Broadcast txHex;
                            Saved (released position (q_vout quote) btcTxid (recipient quote))] ∧
          (done_ = None ∨ done_ = Some (btcTxid, recipient quote)))).

Definition answer {E A} (r : result E A) : option A := match r with Ok a => Some a | Err _ => None end.

Lemma sign_and_broadcast_calls protocolPubkey position chain raw s :
  let '(r, s') := sign_and_broadcast network protocolPubkey position chain raw s in
  ∃ calls, r_asked s' = r_asked s ++ calls ∧ signing_calls protocolPubkey position chain calls (answer r).
Proof.
  unfold sign_and_broadcast, mbind, io_bind, lift, emit, ask, modify, outside, mret, io_ret.
  destruct (of_option (fromBuffer raw) NotAPsbt) as [p|e]; [|by exists []; rewrite app_nil_r; split; [|left]].
  destruct (checkReleasePsbt network p _) as [quote|e] eqn:Ec; [|by exists []; rewrite app_nil_r; split; [|left]].
  apply checkReleasePsbt_ok in Ec. cbn.
  destruct (d_signPsbt (toBase64 p) (r_world s)) as [[userSigned|e] w1]; cbn;
    [|exists [AskedToSign (toBase64 p)]; split; [done|]; right; exists p, quote; split; [done|by left]].
  destruct (finalizePathA _ _ _ _) as [txHex|e] eqn:Ef; cbn;
    [|exists [AskedToSign (toBase64 p)]; split; [done|]; right; exists p, quote; split; [done|by left]].
  destruct (d_broadcast txHex w1) as [[btcTxid|e] w2]; cbn; rewrite <- ?app_assoc.
  2: { eexists; split; [done|]. right. exists p, quote. split; [done|]. right.
       exists userSigned, txHex. split; [done|by left]. }
  destruct (d_savePosition _ w2) as [[[]|e] w3]; cbn; rewrite <- ?app_assoc; (eexists; split; [done|];
    right; exists p, quote; split; [done|]; right; exists userSigned, txHex; split; [done|]; right;
    exists btcTxid; split; [done|by auto]).
Qed.

(** After the position is read: the loan is closed, then the release signed. *)
Lemma ensure_closed_calls chain position stellarAddress s :
  let '(r, s') := ensure_closed chain position stellarAddress s in
  (r_asked s' = r_asked s ∧ answer r = None) ∨
  (cp_depositor chain = stellarAddress ∧ cp_status chain ≠ liquidated ∧
   (cp_status chain = active → cp_debtStroops chain ≤ 0) ∧
   r_asked s' = r_asked s ++ (if decide (cp_status chain = active) then [Closed_ (txid position) stellarAddress] else [])).
Proof.
  unfold ensure_closed, throw, mret, io_ret. repeat case_bool_decide; cbn; try (by left).
  2: { right. rewrite decide_False by done. rewrite app_nil_r. by split_and!. }
  destruct (Z.gtb_spec (cp_debtStroops chain) 0); cbn; [by left|]. unfold close_position, closing, mbind, io_bind.
  cbn. destruct (d_close _ _ _) as [[es r] w]; cbn. right. rewrite decide_True by done. split_and!; try done; congruence.
Qed.

Lemma releaseBtc_calls position stellarAddress s :
  let '(r, s') := releaseBtc network configuredProtocolPubkey position stellarAddress s in
  ∃ calls, r_asked s' = r_asked s ++ calls ∧
    ((calls = [] ∧ answer r = None) ∨
     ∃ protocolPubkey chain w pre post,
       configuredProtocolPubkey = Some protocolPubkey
       ∧ d_read (txid position) (r_world s) = (Ok (Some chain), w)
       ∧ cp_depositor chain = stellarAddress ∧ cp_status chain ≠ liquidated
       ∧ (cp_status chain = active → cp_debtStroops chain ≤ 0)
       ∧ pre = (if decide (cp_status chain = active) then [Closed_ (txid position) stellarAddress] else [])
       ∧ calls = pre ++ post ∧ signing_calls protocolPubkey position chain post (answer r)).
Proof.
  unfold releaseBtc. destruct (present configuredProtocolPubkey) as [pk|] eqn:Epk;
    [|by exists []; rewrite app_nil_r; split; [|left]].
  apply present_some in Epk as [Epk _]. unfold mbind, io_bind. cbn -[ensure_closed await_cosigned COSIGN_POLLS].
  unfold outside at 1. cbn -[ensure_closed await_cosigned COSIGN_POLLS].
  destruct (d_read (txid position) (r_world s)) as [[[chain|]|e] w] eqn:Er; cbn -[ensure_closed await_cosigned COSIGN_POLLS];
    [|by exists []; rewrite app_nil_r; split; [|left]..].
  set (s1 := mkReleasing w _ _). pose proof (ensure_closed_calls chain position stellarAddress s1) as Hc.
  destruct (ensure_closed chain position stellarAddress s1) as [[[]|e] s2].
  2: { destruct Hc as [[Ha _]|(Hd & Hl & Hdebt & Ha)].
       - exists []. rewrite app_nil_r. by split; [|left].
       - eexists. split; [exact Ha|]. right. eexists pk, chain, w, _, []. split_and!; try done; [by rewrite app_nil_r|by left]. }
  destruct Hc as [[_ ?]|(Hd & Hl & Hdebt & Ha)]; [done|].
  pose proof (await_quiet COSIGN_POLLS (txid position) (mkReleasing (r_world s2) (r_events s2 ++ [e_preparing (Some cosign)]) (r_asked s2))) as Hq.
  cbn -[await_cosigned COSIGN_POLLS] in *.
  destruct (await_cosigned COSIGN_POLLS (txid position) _) as [[raw|e] s3]; cbn -[COSIGN_POLLS] in *.
  - pose proof (sign_and_broadcast_calls pk position chain raw s3) as Hs.
    destruct (sign_and_broadcast network pk position chain raw s3) as [r s'].
    destruct Hs as (calls & Hcalls & Hs). eexists. split; [by rewrite Hcalls, Hq, Ha, <- app_assoc|].
    right. eexists pk, chain, w, _, calls. by split_and!.
  - eexists. split; [by rewrite Hq, Ha|]. right. eexists pk, chain, w, _, [].
    split_and!; try done; [by rewrite app_nil_r|by left].
Qed.
End run.

(** ** Against the relayer

    Documented behaviour of bitcoinjs-lib, as far as the relayer's builder and
    the app's view of its result go: what [addInput], [addOutput] and the
    signer put in a PSBT, that a serialized one reads back, and that an address
    pays the script it was made from. *)
Class ReleaseLaws {W psbt} (network : Network) (signerPublicKey : list byte)
    `{PsbtLib psbt, PsbtView psbt, HandlerEnv W psbt, PaymentLib} : Prop := {
  view_new : txInputs psbt_new = [] ∧ txOutputs psbt_new = [] ∧ data_inputs psbt_new = [];
  view_addInput d p p' : psbt_addInput d p = Ok p' →
    txInputs p' = txInputs p ++ [(rev (from_hex (in_hash d)), in_index d)] ∧
    txOutputs p' = txOutputs p ∧
    data_inputs p' = data_inputs p ++
      [{| witnessUtxo := Some (in_witnessUtxo d);
          signing := {| partialSig := None; witnessScript := Some (in_witnessScript d) |} |}];
  view_addOutput a v p p' : psbt_addOutput a v p = Ok p' →
    txInputs p' = txInputs p ∧ data_inputs p' = data_inputs p ∧
    ∃ script, toOutputScript a network = Some script ∧ txOutputs p' = txOutputs p ++ [(script, v)];
  view_sign p w p' w' : signInput p w = (Ok p', w') →
    txInputs p' = txInputs p ∧ txOutputs p' = txOutputs p ∧
    ∃ sig, data_inputs p' =
      match data_inputs p with
      | [] => []
      | d :: ds =>
          {| witnessUtxo := witnessUtxo d;
             signing := {| partialSig := Some (default [] (partialSig (signing d))
                                               ++ [{| pubkey := signerPublicKey; signature := sig |}]);
                           witnessScript := witnessScript (signing d) |} |} :: ds
      end;
  fromBuffer_toBuffer p : fromBuffer (toBuffer p) = Some p;
}.

Section composition.
Context {W psbt : Type} `{HandlerEnv W psbt, ScriptLib, KeyEnv, PsbtLib psbt, PsbtView psbt, PaymentLib}
  (bitcoinNetwork : string) (signerPublicKey : list byte).
Let network := getBitcoinNetwork bitcoinNetwork.
Context `{!ReleaseLaws network signerPublicKey}.

(** What the app looks for, from the position on chain. *)
Definition expected_release (txid : list byte) (position : RepayHandler.Position) : Expected := {|
  e_txid := to_hex (rev txid);
  e_protocolPubkey := to_hex signerPublicKey;
  e_userPubkey := to_hex (RepayHandler.user_pubkey position);
  e_timelockHeight := RepayHandler.timelock_height position;
|}.

Lemma build_view releaseFeeSat txid vout position deposit r p :
  buildReleaseTransaction (release_params releaseFeeSat (to_hex (rev txid)) vout position deposit r) = Ok p →
  txInputs p = [(txid, vout)] ∧
  data_inputs p = [{| witnessUtxo := Some (RedeemScript.scriptPubKey deposit, RepayHandler.btc_satoshis position);
                      signing := {| partialSig := None; witnessScript := Some (RedeemScript.redeemScript deposit) |} |}] ∧
  ∃ script, toOutputScript r network = Some script ∧
    txOutputs p = [(script, RepayHandler.btc_satoshis position - releaseFeeSat)].
Proof.
  unfold buildReleaseTransaction. intros (p1 & Hi & Ho)%bind_ok.
  destruct view_new as (N1 & N2 & N3).
  apply view_addInput in Hi as (I1 & I2 & I3). apply view_addOutput in Ho as (O1 & O2 & script & Hs & O3).
  rewrite N1 in I1. rewrite N2 in I2. rewrite N3 in I3. cbn -[to_hex from_hex] in *.
  rewrite from_to_hex, rev_involutive in I1. split_and!; [by rewrite O1|by rewrite O2|].
  exists script. split; [done|]. by rewrite O3, I2.
Qed.

Lemma justified_accepted releaseFeeSat txid position w signed w' :
  justified bitcoinNetwork releaseFeeSat signerPublicKey txid position w signed w' → 0 ≤ releaseFeeSat →
  ∃ vout r, accepted network signed (expected_release txid position)
    {| q_vout := vout; amountSat := RepayHandler.btc_satoshis position; feeSat := releaseFeeSat; recipient := r |}
    ∧ pubkeyToP2WPKHAddress (RepayHandler.user_pubkey position) network = Ok r.
Proof.
  intros (deposit & raw & w1 & vout & value & script & r & p & Hd & _ & _ & _ & _ & _ & _ & Ha & Hb & Hs) Hfee.
  apply build_view in Hb as (Hi & Hdata & out & Hout & Ho).
  apply view_sign in Hs as (Si & So & sig & Sd). rewrite Hdata in Sd.
  exists vout, r. split; [|done].
  pose proof (deriveP2WSH_same network (to_hex signerPublicKey) (to_hex (RepayHandler.user_pubkey position))
                (RepayHandler.timelock_height position)) as Hsame.
  rewrite !from_to_hex in Hsame. unfold locking_params in Hd. fold network in Hd. rewrite Hd in Hsame.
  destruct (deriveP2WSH _ _ _ _) as [lock|e] eqn:El; [|done]. cbn in Hsame. injection Hsame as <-.
  unfold pubkeyToP2WPKHAddress in Ha. apply of_option_ok, present_some in Ha as [Ha Hne].
  eexists lock, _, txid, _, _. cbn -[to_hex from_hex] in *. rewrite !from_to_hex.
  rewrite Si, So, Hi, Ho, Sd. split_and!; try done; [|by eexists; split; [left|]|cbn; lia].
  symmetry. apply toLowerCase_id. unfold string_forall, to_hex. rewrite chars_of_chars. apply hex_chars_lower.
Qed.
End composition.

(** ** Properties *)



(** ** A concrete release *)

Module Demo.
#[local] Existing Instance RedeemScript.Demo.lib.

(** A PSBT with nothing but what is looked at. *)
Record demo_psbt : Type := mkPsbt {
  d_ins : list (list byte * Z);
  d_outs : list (list byte * Z);
  d_data : list input_view;
}.

#[local] Instance keys : KeyEnv := {
  fromWIF _ _ := None;
  fromPrivateKey _ _ := None;
  p2wpkh_address _ _ := Some "tb1quser"%string;
  kms_getPublicKey _ := Ok None;
  kms_sign _ _ := Ok None;
}.

#[local] Instance payments : PaymentLib := {
  toOutputScript a _ := Some [x00; x14];
  p2wpkh _ _ := Some [x00; x14];
  sign _ _ _ _ := Err "not used"%string;
}.

Definition add_input (d : input_data) (p : demo_psbt) : demo_psbt :=
  mkPsbt (d_ins p ++ [(rev (from_hex (in_hash d)), in_index d)]) (d_outs p)
    (d_data p ++ [{| witnessUtxo := Some (in_witnessUtxo d);
                     signing := {| partialSig := None; witnessScript := Some (in_witnessScript d) |} |}]).

Definition with_sigs (sigs : list partial_sig) (p : demo_psbt) : demo_psbt :=
  mkPsbt (d_ins p) (d_outs p)
    match d_data p with
    | [] => []
    | d :: ds =>
        {| witnessUtxo := witnessUtxo d;
           signing := {| partialSig := Some (default [] (partialSig (signing d)) ++ sigs);
                         witnessScript := witnessScript (signing d) |} |} :: ds
    end.

#[local] Instance builder : PsbtLib demo_psbt := {
  psbt_new := mkPsbt [] [] [];
  psbt_setLocktime _ p := p;
  psbt_addInput d p := Ok (add_input d p);
  psbt_addOutput a v p := Ok (mkPsbt (d_ins p) (d_outs p ++ [([x00; x14], v)]) (d_data p));
  psbt_input_at p i := of_option (signing <$> head (d_data p)) NoWitnessScript;
  psbt_set_witness _ _ p := Ok p;
}.

(** *** An encoding *)

#[local] Instance byte_countable : Countable byte :=
  inj_countable' b2z z2b z2b_b2z.
#[local] Instance sig_eq_dec : EqDecision partial_sig.
Proof. solve_decision. Defined.
#[local] Instance psbt_input_eq_dec : EqDecision psbt_input.
Proof. solve_decision. Defined.
#[local] Instance view_eq_dec : EqDecision input_view.
Proof. solve_decision. Defined.
#[local] Instance demo_eq_dec : EqDecision demo_psbt.
Proof. solve_decision. Defined.
#[local] Instance sig_countable : Countable partial_sig.
Proof. by refine (inj_countable' (λ s, (pubkey s, signature s)) (λ t, {| pubkey := t.1; signature := t.2 |}) _); intros []. Defined.
#[local] Instance psbt_input_countable : Countable psbt_input.
Proof. by refine (inj_countable' (λ s, (partialSig s, witnessScript s)) (λ t, {| partialSig := t.1; witnessScript := t.2 |}) _); intros []. Defined.
#[local] Instance view_countable : Countable input_view.
Proof. by refine (inj_countable' (λ s, (witnessUtxo s, signing s)) (λ t, {| witnessUtxo := t.1; signing := t.2 |}) _); intros []. Defined.
#[local] Instance demo_countable : Countable demo_psbt.
Proof. by refine (inj_countable' (λ s, (d_ins s, d_outs s, d_data s)) (λ t, mkPsbt t.1.1 t.1.2 t.2) _); intros []. Defined.

Fixpoint pos_bytes (p : positive) : list byte :=
  match p with xI p => x01 :: pos_bytes p | xO p => x00 :: pos_bytes p | xH => [] end.
Fixpoint bytes_pos (bs : list byte) : positive :=
  match bs with x01 :: bs => xI (bytes_pos bs) | _ :: bs => xO (bytes_pos bs) | [] => xH end.

Lemma bytes_pos_bytes p : bytes_pos (pos_bytes p) = p.
Proof. induction p; simpl; by f_equal. Qed.

#[local] Instance view : PsbtView demo_psbt := {
  fromBuffer b := decode (bytes_pos b);
  fromBase64 _ := None;
  toBase64 _ := "";
  txInputs := d_ins;
  txOutputs := d_outs;
  data_inputs := d_data;
  push_sigs := with_sigs;
  finalizeInput0 _ p := Ok p;
  extractHex _ := None;
}.

Definition signer : list byte := RedeemScript.Demo.protocol.
Definition txid : list byte := replicate 32 xab.

Definition position : RepayHandler.Position := {|
  RepayHandler.user_pubkey := RedeemScript.Demo.user;
  RepayHandler.timelock_height := 900000;
  RepayHandler.p2wsh_script_pubkey := RedeemScript.Demo.script;
  RepayHandler.btc_satoshis := 50000;
|}.

(** A funding transaction with one input and the lock as its only output. *)
Definition funding : list byte :=
  [x02; x00; x00; x00; x01] ++ replicate 36 x07 ++ [x00; xff; xff; xff; xff; x01] ++
  le_bytes 8 50000 ++ [z2b (zlen RedeemScript.Demo.script)] ++ RedeemScript.Demo.script ++ [x00; x00; x00; x00].

#[local] Instance env : HandlerEnv () demo_psbt := {
  get_position _ w := (Ok (Some position), w);
  get_release_psbt _ w := (Ok None, w);
  esplora_getRawTx _ w := (Ok (to_hex funding), w);
  signInput p w := (Ok (with_sigs [{| pubkey := signer; signature := [x30] |}] p), w);
  toBuffer p := pos_bytes (encode p);
  publish _ _ w := (Ok (), w);
}.

#[local] Instance release_laws : ReleaseLaws testnet signer.
Proof.
  split; simpl; try (intros; simplify_eq; by eauto).
  intros p. by rewrite bytes_pos_bytes, decode_encode.
Defined.

Definition signed : demo_psbt :=
  match deriveDepositAddress (locking_params signer position) testnet with
  | Ok deposit =>
      with_sigs [{| pubkey := signer; signature := [x30] |}]
        (mkPsbt [(txid, 0)] [([x00; x14], 49000)]
           [{| witnessUtxo := Some (RedeemScript.scriptPubKey deposit, 50000);
               signing := {| partialSig := None; witnessScript := Some (RedeemScript.redeemScript deposit) |} |}])
  | Err _ => mkPsbt [] [] []
  end.

Lemma published : justified "signet" 1000 signer txid position () signed ().
Proof.
  destruct (deriveDepositAddress (locking_params signer position) testnet) as [deposit|e] eqn:E;
    [|vm_compute in E; discriminate].
  exists deposit, (to_hex funding), (), 0, 50000, (to_hex RedeemScript.Demo.script), "tb1quser"%string,
    (mkPsbt [(txid, 0)] [([x00; x14], 49000)]
       [{| witnessUtxo := Some (RedeemScript.scriptPubKey deposit, 50000);
           signing := {| partialSig := None; witnessScript := Some (RedeemScript.redeemScript deposit) |} |}]).
  split_and!; try done; try lia.
  - vm_compute in E. injection E as <-. by vm_compute.
  - unfold signed. rewrite E. done.
Defined.

End Demo.
