(* ===== verification/SignetKey.v ===== *)
(** * The Signet test key ([frontend/app/src/lib/bitcoin/embedded/])

    The key a browser keeps for a social account: where it may exist, its
    storage, the WIF and the backup file it travels in, what it signs, and the
    payments made with it. SHA-256, the curve and the PSBT library are a class. *)

From S2P Require Import Prelude JsData JsMap JsDate JsJson CctpNet BitcoinMessage AppBitcoin DepositFlow.

Definition KEY_PREFIX : string := "writz:signet-key:".
Definition FILE_FORMAT : string := "writz-signet-test-key".

Definition embeddedSignetAllowed (target btcNetwork : string) : bool :=
  negb (bool_decide (target = "mainnet")) && bool_decide (btcNetwork = "signet").

Definition assertEmbeddedAllowed (target btcNetwork : string) : result string () :=
  ensure (embeddedSignetAllowed target btcNetwork)
    "The Signet test key only exists on Writz testnet with Bitcoin signet.".

Definition storageKeyFor (accountId : string) : result string string :=
  if bool_decide (accountId = "") then Err "A Signet test key needs an account to belong to."
  else Ok (KEY_PREFIX +:+ accountId).

(** ** Base58 *)

Definition B58 : list ascii := chars "123456789ABCDEFGHJKLMNPQRSTUVWXYZabcdefghijkmnopqrstuvwxyz".

Definition b58_digit (z : Z) : ascii := default "1"%char (B58 !! Z.to_nat z).
(** [B58.indexOf(c)], or nothing for -1 *)
Definition b58_index (c : ascii) : option Z := (λ r, Z.of_nat r.1) <$> list_find (λ d, d = c) B58.

Fixpoint b58_loop (fuel : nat) (n : Z) (out : list ascii) : list ascii :=
  match fuel with
  | O => out
  | S fuel => if n >? 0 then b58_loop fuel (n / 58) (b58_digit (n mod 58) :: out) else out
  end.

(** How many of the first elements pass. *)
Fixpoint leading {A} (p : A → bool) (l : list A) : nat :=
  match l with x :: l => if p x then S (leading p l) else O | [] => O end.

Definition is_zero (b : byte) : bool := bool_decide (b = x00).
Definition is_one (c : ascii) : bool := bool_decide (c = "1"%char).

(** [Buffer.from(hex, "hex")] of [n.toString(16)], padded to whole bytes. *)
Definition bytes_of (n : Z) : list byte := be_bytes (Z.to_nat (Z.log2 n / 8 + 1)) n.

Section base58.
Context (sha256 : list byte → list byte).

Definition checksum (payload : list byte) : list byte := take 4 (sha256 (sha256 payload)).

Definition base58 (data : list byte) : list ascii :=
  let n := be_val data in
  replicate (leading is_zero data) "1"%char ++ b58_loop (S (Z.to_nat (Z.log2 n))) n [].

Definition base58check (payload : list byte) : string := of_chars (base58 (payload ++ checksum payload)).

Definition unbase58 (cs : list ascii) : option (list byte) :=
  n ← foldl (λ acc c, n ← acc; i ← b58_index c; Some (n * 58 + i)) (Some 0) cs;
  Some (replicate (leading is_one cs) x00 ++ bytes_of n).

Definition unbase58check (text : string) : result string (list byte) :=
  data ← of_option (unbase58 (chars text)) "Not a key file or WIF.";
  let payload := take (length data - 4) data in
  if bool_decide (checksum payload = drop (length data - 4) data) then Ok payload
  else Err "That key has a typo: its checksum does not match.".

Definition toWif (privkey : list byte) : string := base58check (xef :: privkey ++ [x01]).

Definition fromWif (wif : string) : result string (list byte) :=
  payload ← unbase58check (trim wif);
  if bool_decide (head payload = Some x80) then Err "That is a mainnet key. Only Signet test keys can be imported." else
  if negb (bool_decide (head payload = Some xef) && (length payload =? 34)%nat && bool_decide (payload !! 33%nat = Some x01))
  then Err "That is not a compressed testnet or Signet key."
  else Ok (take 32 (drop 1 payload)).
End base58.

(** ** What Base58 writes is read back *)

Lemma b58_index_digit z : 0 ≤ z < 58 → b58_index (b58_digit z) = Some z ∧ is_one (b58_digit z) = (z =? 0).
Proof.
  intros Hz. assert (bool_decide (b58_index (b58_digit z) = Some z) && Bool.eqb (is_one (b58_digit z)) (z =? 0) = true) as H.
  { revert z Hz. apply (zrange_forallb (λ z, bool_decide (b58_index (b58_digit z) = Some z) &&
      Bool.eqb (is_one (b58_digit z)) (z =? 0)) 0 58). vm_compute. reflexivity. }
  apply andb_true_iff in H as [H1 H2]. bools. split; [done|by apply eqb_prop].
Qed.

(** The digits of [n], read from left to right after [acc]. *)
Definition b58_fold (acc : option Z) (cs : list ascii) : option Z :=
  foldl (λ acc c, n ← acc; i ← b58_index c; Some (n * 58 + i)) acc cs.

Lemma b58_loop_out fuel n out : b58_loop fuel n out = b58_loop fuel n [] ++ out.
Proof.
  revert n out. induction fuel as [|fuel IH]; intros n out; simpl; [done|].
  destruct (n >? 0); [|done]. rewrite IH, (IH _ [_]), <- app_assoc. done.
Qed.

Lemma b58_loop_spec fuel n :
  0 ≤ n < 2 ^ Z.of_nat fuel →
  b58_fold (Some 0) (b58_loop fuel n []) = Some n ∧ leading is_one (b58_loop fuel n []) = 0%nat.
Proof.
  revert n. induction fuel as [|fuel IH]; intros n Hn; [simpl in *; by replace n with 0 by lia|].
  simpl. destruct (n >? 0) eqn:E; [|by replace n with 0 by lia]. rewrite b58_loop_out.
  rewrite Nat2Z.inj_succ, Z.pow_succ_r in Hn by lia.
  destruct (IH (n / 58)) as [Hf Hl]; [split; [apply Z.div_pos; lia|apply Z.div_lt_upper_bound; lia]|].
  destruct (b58_index_digit (n mod 58)) as [Hi Hone]; [apply Z.mod_pos_bound; lia|].
  split.
  - unfold b58_fold in *. rewrite foldl_app, Hf. simpl. rewrite Hi. simpl. f_equal. pose proof (Z.div_mod n 58). lia.
  - destruct (b58_loop fuel (n / 58) []) as [|c cs] eqn:Ec.
    + simpl. rewrite Hone. assert (n / 58 = 0) as Hz by (simpl in Hf; congruence).
      destruct (n mod 58 =? 0) eqn:Em; [|done]. pose proof (Z.div_mod n 58). lia.
    + simpl in *. by destruct (is_one c).
Qed.

Lemma leading_replicate {A} (p : A → bool) k x l : p x = true → leading p (replicate k x ++ l) = (k + leading p l)%nat.
Proof. intros Hx. induction k as [|k IH]; simpl; [done|]. by rewrite Hx, IH. Qed.

Lemma b58_fold_ones k cs : b58_fold (Some 0) (replicate k "1"%char ++ cs) = b58_fold (Some 0) cs.
Proof. induction k as [|k IH]; [done|]. exact IH. Qed.

(** Leading zeros aside, the bytes of a number are its shortest ones. *)
Lemma leading_split data :
  ∃ rest, data = replicate (leading is_zero data) x00 ++ rest ∧
    match rest with b :: _ => b ≠ x00 | [] => True end.
Proof.
  induction data as [|b data (rest & Hd & Hr)]; [by exists []|]. simpl. unfold is_zero at 1.
  case_bool_decide as Hb; [|by exists (b :: data)]. subst b. exists rest. simpl. by rewrite <- Hd.
Qed.

Lemma be_val_zeros k bs : be_val (replicate k x00 ++ bs) = be_val bs.
Proof.
  unfold be_val. rewrite rev_app_distr, le_val_app.
  enough (le_val (rev (replicate k x00)) = 0) as -> by lia.
  induction k as [|k IH]; [done|]. simpl. rewrite le_val_app, IH. simpl. change (b2z x00) with 0. lia.
Qed.

Lemma bytes_of_val b bs : b ≠ x00 → bytes_of (be_val (b :: bs)) = b :: bs.
Proof.
  intros Hb. assert (1 ≤ b2z b) as Hb1.
  { pose proof (b2z_range b). destruct (decide (b2z b = 0)) as [E|]; [|lia]. destruct Hb. apply b2z_inj. by rewrite E. }
  assert (be_val (b :: bs) = be_val bs + 256 ^ zlen bs * b2z b) as Hv.
  { unfold be_val. simpl. rewrite le_val_app. unfold zlen. rewrite length_rev. simpl. lia. }
  pose proof (be_val_range (b :: bs)) as Hr. pose proof (be_val_range bs) as Hr'. pose proof (zlen_nonneg bs).
  rewrite zlen_cons in Hr.
  unfold bytes_of. enough (Z.to_nat (Z.log2 (be_val (b :: bs)) / 8 + 1) = length (b :: bs)) as -> by apply be_bytes_val.
  enough (Z.log2 (be_val (b :: bs)) / 8 = zlen bs) as -> by (unfold zlen; simpl; lia).
  change 256 with (2 ^ 8) in *. rewrite <- !Z.pow_mul_r in * by lia.
  symmetry. apply Z.div_unique with (Z.log2 (be_val (b :: bs)) - 8 * zlen bs); [left|lia].
  assert (8 * zlen bs ≤ Z.log2 (be_val (b :: bs))) by (apply Z.log2_le_pow2; nia).
  assert (Z.log2 (be_val (b :: bs)) < 8 * (1 + zlen bs)) by (apply Z.log2_lt_pow2; nia). lia.
Qed.

Lemma base58_reads_back data : be_val data ≠ 0 → unbase58 (base58 data) = Some data.
Proof.
  intros Hne. destruct (leading_split data) as (rest & Hd & Hr).
  assert (be_val data = be_val rest) as Hv by (by rewrite Hd, be_val_zeros).
  pose proof (be_val_range data) as [H0 _].
  destruct (b58_loop_spec (S (Z.to_nat (Z.log2 (be_val data)))) (be_val data)) as [Hf Hl].
  { split; [done|]. rewrite Nat2Z.inj_succ, Z2Nat.id by apply Z.log2_nonneg. apply Z.log2_spec. lia. }
  unfold unbase58, base58. fold (b58_fold (Some 0)).
  change (foldl _ (Some 0) ?cs) with (b58_fold (Some 0) cs). rewrite b58_fold_ones, Hf. cbn [mbind option_bind].
  rewrite leading_replicate, Hl, Nat.add_0_r by done. f_equal.
  destruct rest as [|b rest]; [by rewrite Hv in Hne|]. rewrite Hv, bytes_of_val by done. by rewrite <- Hd.
Qed.

(** Base58 text is of its 58 digits. *)
Lemma base58_chars (p : ascii → bool) data :
  forallb (λ z, p (b58_digit z)) (zrange 0 58) = true → forallb p (base58 data) = true.
Proof.
  intros Hp. assert (∀ z, 0 ≤ z < 58 → p (b58_digit z) = true) as Hd by by apply (zrange_forallb _ 0 58).
  unfold base58. rewrite forallb_app. apply andb_true_intro. split.
  - apply forallb_forall. intros c Hc. apply list_elem_of_In, elem_of_replicate in Hc as [-> _]. by apply (Hd 0).
  - generalize (S (Z.to_nat (Z.log2 (be_val data)))). intros fuel.
    enough (∀ n out, forallb p out = true → forallb p (b58_loop fuel n out) = true) as H by by apply H.
    induction fuel as [|fuel IH]; intros n out Hout; simpl; [done|]. destruct (n >? 0); [|done]. apply IH. simpl.
    rewrite Hout, andb_true_r. apply Hd, Z.mod_pos_bound. lia.
Qed.

Lemma base58_chars_plain data : string_forall (λ c, negb (is_space c)) (of_chars (base58 data)) = true.
Proof. unfold string_forall. rewrite chars_of_chars. apply base58_chars. vm_compute. reflexivity. Qed.

Section wif.
Context (sha256 : list byte → list byte) (Hsha : ∀ bs, length (sha256 bs) = 32%nat).

Lemma checksum_length payload : length (checksum sha256 payload) = 4%nat.
Proof. unfold checksum. rewrite length_take, Hsha. done. Qed.

Lemma be_val_positive b bs : b ≠ x00 → be_val (b :: bs) ≠ 0.
Proof.
  intros Hb E. pose proof (bytes_of_val b bs Hb) as H. rewrite E in H. change (bytes_of 0) with [x00] in H. by simplify_eq.
Qed.

(** A payload that does not start with a zero byte is read back. *)
Lemma base58check_reads_back b bs :
  b ≠ x00 → unbase58check sha256 (base58check sha256 (b :: bs)) = Ok (b :: bs).
Proof.
  intros Hb. unfold unbase58check, base58check. rewrite chars_of_chars. cbn [app].
  rewrite base58_reads_back by (by apply be_val_positive). cbn [of_option mbind result_bind].
  change (b :: bs ++ checksum sha256 (b :: bs)) with ((b :: bs) ++ checksum sha256 (b :: bs)).
  rewrite length_app, checksum_length, Nat.add_sub. rewrite take_app_length, drop_app_length. by rewrite bool_decide_true.
Qed.

Lemma fromWif_payload b bs :
  b ≠ x00 → fromWif sha256 (base58check sha256 (b :: bs)) =
    if bool_decide (b = x80) then Err "That is a mainnet key. Only Signet test keys can be imported." else
    if negb (bool_decide (b = xef) && (S (length bs) =? 34)%nat && bool_decide (bs !! 32%nat = Some x01))
    then Err "That is not a compressed testnet or Signet key." else Ok (take 32 bs).
Proof.
  intros Hb. unfold fromWif. rewrite trim_id by apply base58_chars_plain. rewrite base58check_reads_back by done. cbn.
  rewrite (bool_decide_ext (Some b = Some x80) (b = x80)) by (split; [by intros [= ->]|by intros ->]).
  by rewrite (bool_decide_ext (Some b = Some xef) (b = xef)) by (split; [by intros [= ->]|by intros ->]).
Qed.

Lemma fromWif_toWif privkey : length privkey = 32%nat → fromWif sha256 (toWif sha256 privkey) = Ok privkey.
Proof.
  intros Hlen. unfold toWif. rewrite fromWif_payload by done. rewrite length_app, Hlen. cbn.
  rewrite lookup_app_r, Hlen by lia. cbn. by rewrite take_app_exact.
Qed.
End wif.

(** The WIF a test key leaves the browser in is the key when it is read back;
    a mainnet WIF, whatever its key, is refused as one; and what is taken at all
    is 32 bytes that stood, with the testnet prefix and the mark of a compressed
    key, under their own checksum. *)
Theorem wif_round_trip (sha256 : list byte → list byte) (Hsha : ∀ bs, length (sha256 bs) = 32%nat) privkey :
  length privkey = 32%nat →
  fromWif sha256 (toWif sha256 privkey) = Ok privkey ∧
  fromWif sha256 (base58check sha256 (x80 :: privkey ++ [x01])) =
    Err "That is a mainnet key. Only Signet test keys can be imported." ∧
  ∀ text k, fromWif sha256 text = Ok k →
    length k = 32%nat ∧ ∃ data, unbase58 (chars (trim text)) = Some data ∧
      data = (xef :: k ++ [x01]) ++ checksum sha256 (xef :: k ++ [x01]).
Proof.
  intros Hlen. split_and!.
  - by apply fromWif_toWif.
  - by rewrite fromWif_payload.
  - intros text k E. unfold fromWif in E. apply bind_ok in E as (payload & Hp & E). unfold unbase58check in Hp.
    apply bind_ok in Hp as (data & Hd & Hp). apply of_option_ok in Hd.
    destruct (bool_decide (checksum sha256 _ = _)) eqn:Ec; [|done]. bools. simplify_eq.
    set (payload := take (length data - 4) data) in *.
    destruct (bool_decide (head payload = Some x80)); [done|]. destruct (negb _) eqn:En; [done|]. simplify_eq. bools.
    apply Nat.eqb_eq in H1. destruct payload as [|b bs] eqn:Epay; [done|]. cbn in H, H0, H1. simplify_eq.
    assert (bs = take 32 bs ++ [x01]) as Hbs.
    { pose proof (take_drop 32 bs) as Ht. by rewrite (drop_S bs x01 32), (drop_ge bs 33) in Ht by (done || lia). }
    change (take 32 (drop 1 (xef :: bs))) with (take 32 bs). split; [rewrite length_take; lia|]. exists data. split; [done|]. 
    rewrite <- Hbs, Ec, <- Epay. by rewrite take_drop.
Qed.

(** ** Indented JSON *)

Definition nl : ascii := "010"%char.

(** [JSON.stringify(object, null, 2)] of an object of texts and numbers. *)
Definition indented_field (f : string * Json) : list ascii :=
  [nl; " "%char; " "%char] ++ string_json f.1 ++ ":"%char :: " "%char :: json_chars f.2.
Definition indented (fs : list (string * Json)) : list ascii :=
  "{"%char :: commas (map indented_field fs) ++ [nl; "}"%char].

Definition leaf (j : Json) : Prop := need j = 1%nat ∧ json_wf j.

Lemma value_after_space n cs : json_value n (" "%char :: cs) = json_value n cs.
Proof. by destruct n. Qed.

Lemma indented_members n acc f fs rest :
  (length (f :: fs) < n)%nat → Forall (λ f, leaf f.2) (f :: fs) → NoDup (map fst (acc ++ f :: fs)) →
  json_members n acc (commas (map indented_field (f :: fs)) ++ nl :: "}"%char :: rest) = Some (acc ++ f :: fs, rest).
Proof.
  revert n acc f. induction fs as [|g fs IH]; intros [|n] acc [k j] Hn [[Hneed Hwf] Hfs]%Forall_cons Hnd;
    simpl in Hn, Hneed, Hwf; try lia.
  all: assert (map_set k j acc = acc ++ [(k, j)]) as Hset
    by (apply map_set_new; rewrite map_app in Hnd; apply NoDup_app in Hnd as (_ & Hd & _);
        intros Hin; apply (Hd k Hin); left).
  all: assert (∀ tail, indented_field (k, j) ++ tail = nl :: " "%char :: " "%char :: quote :: (chars k ≫= escape) ++
      quote :: ":"%char :: " "%char :: json_chars j ++ tail) as Hfield
    by (intros tail; unfold indented_field, string_json; simpl; by rewrite <- !app_assoc).
  all: assert (∀ tail, stops tail → json_value n (json_chars j ++ tail) = Some (j, tail)) as Hval
    by (intros tail Ht; apply reads_all; [lia|done|done]).
  - cbn [json_members]. simpl commas. rewrite Hfield.
    change (next_is quote (skip_space (nl :: " "%char :: " "%char :: quote :: ?l))) with (Some l).
    cbn [mbind option_bind]. rewrite string_read. cbn [mbind option_bind]. cbv beta iota. read_mark.
    rewrite value_after_space, Hval by done. cbn [mbind option_bind]. cbv beta iota.
    change (next_is "}" (skip_space (nl :: "}"%char :: rest))) with (Some rest). cbv beta iota.
    by rewrite of_chars_chars, Hset.
  - rewrite !map_cons, commas_cons. cbn [json_members]. rewrite Hfield.
    change (next_is quote (skip_space (nl :: " "%char :: " "%char :: quote :: ?l))) with (Some l).
    cbn [mbind option_bind]. rewrite string_read. cbn [mbind option_bind]. cbv beta iota. read_mark.
    rewrite value_after_space, Hval by done. cbn [mbind option_bind]. cbv beta iota. do 2 read_mark.
    rewrite of_chars_chars, Hset.
    change (indented_field g :: map indented_field fs) with (map indented_field (g :: fs)).
    rewrite (IH n (acc ++ [(k, j)]) g); [by rewrite <- app_assoc|simpl; lia|done|by rewrite <- app_assoc].
Qed.

Lemma indented_reads_back f fs :
  Forall (λ f, leaf f.2) (f :: fs) → NoDup (map fst (f :: fs)) →
  JSON_parse (of_chars (indented (f :: fs))) = Some (j_object (f :: fs)).
Proof.
  intros Hfs Hnd. unfold JSON_parse. rewrite chars_of_chars. unfold indented.
  set (body := commas (map indented_field (f :: fs)) ++ [nl; "}"%char]).
  assert (∃ l, body = nl :: " "%char :: " "%char :: quote :: l) as [l Hl].
  { unfold body. destruct fs as [|g fs]; [|rewrite !map_cons, commas_cons];
      unfold indented_field, string_json; simpl; eauto. }
  assert (json_members (length ("{"%char :: body)) [] body = Some (f :: fs, [])) as Hm.
  { apply (indented_members _ [] f fs []); [|done|done]. unfold body. cbn [length]. rewrite length_app.
    enough (length (f :: fs) ≤ length (commas (map indented_field (f :: fs))))%nat by (simpl in *; lia).
    clear. revert f. induction fs as [|g fs IH]; intros f; [simpl; lia|]. rewrite !map_cons.
    change (commas (indented_field f :: indented_field g :: map indented_field fs))
      with (indented_field f ++ ","%char :: commas (map indented_field (g :: fs))).
    rewrite length_app. specialize (IH g). cbn [length] in *. lia. }
  cbn [json_value]. change (skip_space ("{"%char :: body)) with ("{"%char :: body). cbv beta iota.
  rewrite !decide_False by done. rewrite decide_True by done.
  replace (next_is "}" (skip_space body)) with (@None (list ascii)) by (by rewrite Hl). rewrite Hm. done.
Qed.
