(* ===== verification/SignetWallet.v ===== *)
(** * Keeping and using the Signet test key ([frontend/app/src/lib/bitcoin/embedded/])

    The key in the browser's storage, its backup file, what it signs and the
    payments it makes ([key.ts], [send.ts]). The curve, the scripts and the
    PSBT library are [EmbeddedLib]; the storage may lose what it is given. *)

From S2P Require Import Prelude JsData JsMap JsDate JsJson CctpNet BitcoinMessage DepositFlow SignetKey.

(** [isPrivate] and [pointFromScalar] of the curve, the address, the output
    script and the script of an address of bitcoinjs-lib on the testnet, and
    its PSBTs as far as the code reads and signs them. *)
Class EmbeddedLib (psbt : Type) : Type := {
  sha256 : list byte → list byte;
  isPrivate : list byte → bool;
  pubkey_of : list byte → list byte;
  p2wpkh_address : list byte → string;
  p2wpkh_script : list byte → list byte;
  toOutputScript : string → result string (list byte);
  ecdsa_recoverable : list byte → list byte → list byte * Z;
  psbt_from : string → result string psbt;
  psbt_text : psbt → string;
  (** [data.inputs[0]]: the witness script and whether there is a [witnessUtxo] *)
  first_input : psbt → option (option (list byte) * bool);
  sign_first : list byte → psbt → result string psbt;
  (** the coins spent as (txid, vout, value), the outputs: the hex and the id *)
  sign_payment : list byte → list (string * Z * Z) → list (list byte * Z) → result string (string * string);
}.

Record SignetKey : Type := {
  privkey : list byte;
  pubkey : list byte;
  address : string;
  (** a number, unless another program wrote the storage *)
  createdAt : Json;
}.

(** The browser's storage: a write may throw, or be dropped. *)
Class KeyStorage (W : Type) : Type := {
  getItem : string → W → result string (option string);
  setItem : string → string → W → result string () * W;
}.

Section keys.
Context {psbt : Type} `{EmbeddedLib psbt}.

Definition keyFromPrivkey (priv : list byte) (createdAt : Json) : result string SignetKey :=
  if negb (length priv =? 32)%nat || negb (isPrivate priv) then Err "That is not a valid private key."
  else Ok {| privkey := priv; pubkey := pubkey_of priv; address := p2wpkh_address (pubkey_of priv);
             createdAt := createdAt |}.

(** [random i]: what the [i]th call of [random(32)] gives. *)
Definition generatePrivkey (random : nat → list byte) : result string (list byte) :=
  of_option (snd <$> list_find (λ candidate, isPrivate candidate = true) (map random (seq 0 16)))
    "Could not generate a key.".

(** [/^[0-9a-f]{64}$/] *)
Definition is_stored_hex (s : string) : bool := (slen s =? 64) && string_forall is_lower_hex_char s.

(** What an entry of the storage says, read at [now]. *)
Definition readStored (now : Z) (raw : string) : option SignetKey :=
  match JSON_parse raw with
  | Some (j_object stored) =>
      match map_get "v" stored, map_get "network" stored, map_get "privkey" stored with
      | Some (j_number 1), Some (j_string network), Some (j_string hex) =>
          if bool_decide (network = "signet") && is_stored_hex hex then
            match keyFromPrivkey (from_hex hex) (default (j_number now) (map_get "createdAt" stored)) with
            | Ok key => Some key
            | Err _ => None
            end
          else None
      | _, _, _ => None
      end
  | _ => None
  end.

Definition storedKey (key : SignetKey) : Json :=
  j_object [("v", j_number 1); ("network", j_string "signet"); ("privkey", j_string (to_hex (privkey key)));
            ("createdAt", createdAt key)].

(** *** The storage *)

Section storage.
Context {W : Type} `{KeyStorage W}.
Abbreviation M := (io W string).

Definition get_item (k : string) : M (option string) := λ w, (getItem k w, w).

Definition loadKey (now : Z) (accountId : string) : M (option SignetKey) :=
  k ← lift (storageKeyFor accountId);
  raw ← get_item k;
  match present raw with
  | None => mret None
  | Some raw => mret (readStored now raw)
  end.

Definition storeKey (accountId : string) (key : SignetKey) : M () :=
  k ← lift (storageKeyFor accountId);
  setItem k (JSON_stringify (storedKey key)).

Definition loadOrCreateKey (now : Z) (random : nat → list byte) (accountId : string) : M (SignetKey * bool) :=
  existing ← loadKey now accountId;
  match existing with
  | Some key => mret (key, false)
  | None =>
      priv ← lift (generatePrivkey random);
      key ← lift (keyFromPrivkey priv (j_number now));
      storeKey accountId key;;
      saved ← loadKey now accountId;
      match saved with
      | Some saved =>
          if bool_decide (address saved = address key) then mret (key, true)
          else throw "This browser did not keep the test key. Storage may be blocked."
      | None => throw "This browser did not keep the test key. Storage may be blocked."
      end
  end.
End storage.

(** *** Backup files *)

(** The time of [new Date(v)], if it has one; of texts, those [Date_parse] reads. *)
Definition date_ms (v : Json) : option Z :=
  t ← match v with
      | j_number z => Some z
      | j_decimal d => '(m, k) ← number_parts (chars d); Some (if 0 <=? k then m * 10 ^ k else Z.quot m (10 ^ (- k)))
      | j_bool b => Some (if b then 1 else 0)
      | j_null => Some 0
      | j_string s => Date_parse s
      | _ => None
      end;
  if Z.abs t <=? 8640000000000000 then Some t else None.

Definition NOTE : string :=
  "Signet test key, worthless coins. For testing Writz on testnet only. Anyone with this file can spend its Signet coins.".

Definition key_fields (key : SignetKey) (t : Z) : list (string * Json) :=
  [("format", j_string FILE_FORMAT); ("version", j_number 1); ("network", j_string "signet");
   ("note", j_string NOTE); ("address", j_string (address key)); ("wif", j_string (toWif sha256 (privkey key)));
   ("createdAt", j_string (toISOString t))].

Definition exportKeyFile (key : SignetKey) : result string string :=
  t ← of_option (date_ms (createdAt key)) "Invalid time value";
  Ok (of_chars (indented (key_fields key t) ++ [nl])).

Definition field_is (k : string) (v : string) (fs : list (string * Json)) : bool :=
  match map_get k fs with Some (j_string s) => bool_decide (s = v) | _ => false end.

(** The key a backup file holds. *)
Definition keyOfFile (now : Z) (file : list (string * Json)) : result string SignetKey :=
  match map_get "wif" file with
  | Some (j_string wif) =>
      if negb (field_is "format" FILE_FORMAT file) || negb (field_is "network" "signet" file)
      then Err "That file is not a Writz Signet test key."
      else
        let created := match map_get "createdAt" file with Some (j_string s) => Date_parse s | _ => None end in
        priv ← fromWif sha256 wif;
        key ← keyFromPrivkey priv (j_number (default now created));
        match map_get "address" file with
        | Some (j_string a) =>
            if bool_decide (a = address key) then Ok key
            else Err "The key and the address in that file do not match."
        | _ => Ok key
        end
  | _ => Err "That file is not a Writz Signet test key."
  end.

Definition parseKeyFile (now : Z) (text : string) : result string SignetKey :=
  let trimmed := trim text in
  if bool_decide (trimmed = "") then Err "The file is empty."
  else if bool_decide (head (chars trimmed) = Some "{"%char) then
    match JSON_parse trimmed with
    | Some (j_object file) => keyOfFile now file
    | _ => Err "That file is not a Writz test key."
    end
  else priv ← fromWif sha256 trimmed; keyFromPrivkey priv (j_number now).

Definition importKey {W} `{KeyStorage W} (now : Z) (accountId text : string) : io W string SignetKey :=
  key ← lift (parseKeyFile now text);
  storeKey accountId key;;
  mret key.

(** *** Signing *)

(** [varint] of [keyProof.ts]: [writeUInt16LE] throws past two bytes. *)
Definition app_varint (n : Z) : result string (list byte) :=
  if n <? 0xfd then Ok [z2b n]
  else if n <=? 0xffff then Ok (xfd :: le_bytes 2 n)
  else Err "value argument is out of bounds".

Definition signedMessageFrame (message : string) : result string (list byte) :=
  let m := utf8 message in
  magic_size ← app_varint (slen MAGIC);
  size ← app_varint (zlen m);
  Ok (magic_size ++ utf8 MAGIC ++ size ++ m).

Definition signBitcoinMessage (message : string) (key : SignetKey) : result string string :=
  frame ← signedMessageFrame message;
  let '(signature, recoveryId) := ecdsa_recoverable (sha256 (sha256 frame)) (privkey key) in
  Ok (to_base64 (z2b (39 + recoveryId) :: signature)).

(** [bytes.includes(part)] *)
Fixpoint includes_bytes (part bs : list byte) : bool :=
  bool_decide (take (length part) bs = part) || match bs with [] => false | _ :: bs => includes_bytes part bs end.

Definition signReleasePsbt (psbtBase64 : string) (key : SignetKey) : result string string :=
  p ← psbt_from psbtBase64;
  match first_input p with
  | Some (Some script, true) =>
      if includes_bytes (pubkey key) script then p ← sign_first (privkey key) p; Ok (psbt_text p)
      else Err "This release is for a different Bitcoin key."
  | _ => Err "The release is missing its lock script."
  end.
End keys.

(** ** Lemmas *)

Section lemmas.
Context {psbt : Type} `{EmbeddedLib psbt}.

Lemma keyFromPrivkey_ok priv t key :
  keyFromPrivkey priv t = Ok key →
  length priv = 32%nat ∧ isPrivate priv = true ∧ privkey key = priv ∧ createdAt key = t ∧
  pubkey key = pubkey_of priv ∧ address key = p2wpkh_address (pubkey_of priv) ∧ keyFromPrivkey (privkey key) (createdAt key) = Ok key.
Proof.
  intros Hk. pose proof Hk as Hk'. unfold keyFromPrivkey in Hk. destruct (_ || _) eqn:E; [done|]. simplify_eq. bools.
  apply Nat.eqb_eq in H0. done.
Qed.

Lemma stored_hex bs : length bs = 32%nat → is_stored_hex (to_hex bs) = true.
Proof.
  intros Hl. unfold is_stored_hex, to_hex, string_forall, slen. rewrite chars_of_chars, hex_chars_lower, <- chars_length, chars_of_chars,
    hex_chars_length, Hl. done.
Qed.

#[local] Arguments is_stored_hex : simpl never.
#[local] Arguments keyFromPrivkey : simpl never.
#[local] Arguments fromWif : simpl never.
#[local] Arguments toWif : simpl never.
#[local] Arguments Date_parse : simpl never.
#[local] Arguments toISOString : simpl never.

(** Reads the fields of an object written out. *)
Ltac read_fields := cbn; repeat first [rewrite decide_False by done|rewrite decide_True by done]; cbn.

(** What [storeKey] writes is read as the key. *)
Lemma readStored_storedKey now priv t key :
  keyFromPrivkey priv t = Ok key → json_wf t → readStored now (JSON_stringify (storedKey key)) = Some key.
Proof.
  intros Hk Ht. destruct (keyFromPrivkey_ok _ _ _ Hk) as (Hl & _ & Hp & Hc & _ & _ & Hagain). unfold readStored.
  rewrite JSON_round_trip.
  - unfold storedKey. cbv beta iota.
    assert (is_stored_hex (to_hex (privkey key)) = true) as Hx by (apply stored_hex; by rewrite Hp).
    revert Hx. rewrite <- (from_to_hex (privkey key)) in Hagain. revert Hagain. generalize (to_hex (privkey key)). intros h Hagain Hx.
    read_fields. by rewrite Hx, Hagain.
  - apply object_wf. split; [by apply (bool_decide_unpack _); vm_compute|].
    repeat constructor. simpl. by rewrite Hc.
Qed.

Lemma trim_between (c d : ascii) cs :
  is_space c = false → is_space d = false → trim (of_chars ((c :: cs ++ [d]) ++ [nl])) = of_chars (c :: cs ++ [d]).
Proof.
  intros Hc Hd. unfold trim. rewrite chars_of_chars. cbn [app drop_spaces]. rewrite Hc.
  change (c :: (cs ++ [d]) ++ [nl]) with ((c :: cs ++ [d]) ++ [nl]). rewrite rev_app_distr. cbn [rev app drop_spaces].
  change (is_space nl) with true. cbv beta iota. rewrite rev_app_distr. cbn [rev app drop_spaces]. rewrite Hd.
  f_equal. cbn [rev]. by rewrite rev_app_distr, rev_involutive.
Qed.

Lemma toWif_chars priv (p : ascii → bool) :
  forallb (λ z, p (b58_digit z)) (zrange 0 58) = true → forallb p (chars (toWif sha256 priv)) = true.
Proof. intros Hp. unfold toWif, base58check. rewrite chars_of_chars. by apply base58_chars. Qed.

Lemma toWif_nonempty priv : length priv = 32%nat → toWif sha256 priv ≠ "".
Proof.
  intros Hl E. assert (base58 ((xef :: priv ++ [x01]) ++ checksum sha256 (xef :: priv ++ [x01])) = []) as Hnil.
  { rewrite <- (chars_of_chars (base58 _)). change (chars (toWif sha256 priv) = []). by rewrite E. }
  pose proof (base58_reads_back ((xef :: priv ++ [x01]) ++ checksum sha256 (xef :: priv ++ [x01]))) as Hb.
  rewrite Hnil in Hb. discriminate Hb. by apply be_val_positive.
Qed.

(** The times of the years 1970 to 9999 are read back. *)
Lemma date_of_iso t : 0 ≤ t < 253402300800000 → Date_parse (toISOString t) = Some t.
Proof.
  intros Ht. apply Date_parse_toISOString.
  assert (0 ≤ t / DAY_MS ≤ 2932896) as Hz by (unfold DAY_MS; Z.to_euclidean_division_equations; lia).
  revert Hz. generalize (t / DAY_MS). clear. intros z Hz. unfold civil_of_days. cbn [fst snd].
  destruct (_ <? 10) eqn:Em; destruct (_ <=? 2) eqn:El; bools; Z.to_euclidean_division_equations; lia.
Qed.

Lemma parseKeyFile_object now file f fs :
  file = f :: fs → Forall (λ f, leaf f.2) file → NoDup (map fst file) →
  parseKeyFile now (of_chars (indented file ++ [nl])) = keyOfFile now file.
Proof.
  intros -> Hl Hnd. pose proof (indented_reads_back f fs Hl Hnd) as Hj. revert Hj. unfold parseKeyFile, indented.
  generalize (commas (map indented_field (f :: fs))). intros body.
  replace (body ++ [nl; "}"%char]) with ((body ++ [nl]) ++ ["}"%char]) by by rewrite <- app_assoc.
  rewrite trim_between by done. intros Hj. rewrite bool_decide_false by done. rewrite chars_of_chars.
  change (head ("{"%char :: (body ++ [nl]) ++ ["}"%char])) with (Some "{"%char). rewrite bool_decide_true by done. by rewrite Hj.
Qed.

(** The file of a key is read as the key. *)
Lemma key_file_reads (Hsha : ∀ bs, length (sha256 bs) = 32%nat) priv t key :
  keyFromPrivkey priv (j_number t) = Ok key → 0 ≤ t < 253402300800000 →
  ∃ text, exportKeyFile key = Ok text ∧ ∀ now, parseKeyFile now text = Ok key.
Proof.
  intros Hk Ht. destruct (keyFromPrivkey_ok _ _ _ Hk) as (Hl & _ & Hp & Hc & _ & Ha & Hagain).
  exists (of_chars (indented (key_fields key t) ++ [nl])). split.
  - unfold exportKeyFile. rewrite Hc. cbn [date_ms mbind option_bind].
    replace (Z.abs t <=? 8640000000000000) with true by (symmetry; apply Z.leb_le; lia). done.
  - intros now. rewrite (parseKeyFile_object now (key_fields key t) _ _ eq_refl);
      [|by repeat constructor|by apply (bool_decide_unpack _); vm_compute].
    unfold keyOfFile, field_is. read_fields. rewrite fromWif_toWif by (done || by rewrite Hp). cbn.
    rewrite !bool_decide_true by done. cbn. rewrite date_of_iso by done. cbn. rewrite <- Hc, Hagain. cbn. by rewrite bool_decide_true.
Qed.

Lemma wif_reads (Hsha : ∀ bs, length (sha256 bs) = 32%nat) priv now :
  length priv = 32%nat → parseKeyFile now (toWif sha256 priv) = keyFromPrivkey priv (j_number now).
Proof.
  intros Hl. unfold parseKeyFile. rewrite trim_id by (by apply toWif_chars).
  rewrite bool_decide_false by by apply toWif_nonempty.
  pose proof (toWif_chars priv (λ c, negb (Ascii.eqb c "{")) ltac:(vm_compute; reflexivity)) as Hb.
  rewrite bool_decide_false.
  - by rewrite fromWif_toWif.
  - destruct (chars (toWif sha256 priv)) as [|c cs]; [done|]. cbn in Hb |- *. intros [= ->]. done.
Qed.
End lemmas.

(** A storage that keeps what it is given. *)
Class StorageLaws (W : Type) `{KeyStorage W} : Prop := {
  set_kept : ∀ k v w, (setItem k v w).1 = Ok ();
  get_after_set : ∀ k v k' w, getItem k' (setItem k v w).2 = if decide (k' = k) then Ok (Some v) else getItem k' w;
}.

Section storage_lemmas.
Context {psbt : Type} `{EmbeddedLib psbt} {W : Type} `{KeyStorage W} `{!StorageLaws W}.

Lemma storageKeyFor_account acct : acct ≠ "" → storageKeyFor acct = Ok (KEY_PREFIX +:+ acct).
Proof. intros Ha. unfold storageKeyFor. by rewrite bool_decide_false. Qed.

Lemma loadKey_reads now acct (w : W) : acct ≠ "" →
  loadKey now acct w = (raw ← getItem (KEY_PREFIX +:+ acct) w; Ok (raw ← present raw; readStored now raw), w).
Proof.
  intros Ha. unfold loadKey. rewrite storageKeyFor_account by done.
  unfold lift, get_item, mret, io_ret, mbind, io_bind, result_bind, option_bind.
  destruct (getItem _ w) as [raw|e]; [|done]. by destruct (present raw).
Qed.

(** After a key is stored, its account's entry is the key and no other account's has changed. *)
Lemma storeKey_stores acct priv t key (w : W) :
  acct ≠ "" → keyFromPrivkey priv t = Ok key → json_wf t →
  ∃ w', storeKey acct key w = (Ok (), w') ∧ (∀ now, loadKey now acct w' = (Ok (Some key), w')) ∧
    ∀ other now, other ≠ acct → (loadKey now other w').1 = (loadKey now other w).1.
Proof.
  intros Ha Hk Ht. unfold storeKey. rewrite storageKeyFor_account by done. unfold lift, mbind, io_bind.
  set (v := JSON_stringify (storedKey key)). exists (setItem (KEY_PREFIX +:+ acct) v w).2.
  assert (present (Some v) = Some v) as Hv.
  { apply present_some. split; [done|]. unfold v, JSON_stringify, storedKey. cbn. by intros. }
  split_and!.
  - rewrite (surjective_pairing (setItem _ _ _)), set_kept. done.
  - intros now. rewrite loadKey_reads, get_after_set, decide_True by done. unfold mbind, result_bind, option_bind.
    rewrite Hv. unfold v. by rewrite (readStored_storedKey now priv t).
  - intros other now Ho. destruct (decide (other = "")) as [->|Hne]; [done|].
    rewrite !loadKey_reads by done. cbn. rewrite get_after_set, decide_False; [done|].
    intros E. apply Ho. by apply (inj (String.append KEY_PREFIX)).
Qed.
End storage_lemmas.

(** C27: A test key moves between browsers whole: the backup file of any key reads
    back as that key, its time included; imported for an account into a storage
    that keeps its word, it is the key that account loads from then on, and no
    other account's key has changed; the bare WIF is the same key, made now. *)
Theorem key_moves_between_browsers {psbt W} `{EmbeddedLib psbt, KeyStorage W, !StorageLaws W}
    (Hsha : ∀ bs, length (sha256 bs) = 32%nat) priv t key :
  keyFromPrivkey priv (j_number t) = Ok key → 0 ≤ t < 253402300800000 →
  (∀ now, parseKeyFile now (toWif sha256 priv) = keyFromPrivkey priv (j_number now)) ∧
  ∃ text, exportKeyFile key = Ok text ∧ ∀ now acct (w : W), acct ≠ "" →
    ∃ w', importKey now acct text w = (Ok key, w') ∧ (∀ later, loadKey later acct w' = (Ok (Some key), w')) ∧
      ∀ other later, other ≠ acct → (loadKey later other w').1 = (loadKey later other w).1.
Proof.
  intros Hk Ht. destruct (keyFromPrivkey_ok _ _ _ Hk) as (Hl & _).
  split; [intros now; by apply wif_reads|]. destruct (key_file_reads Hsha priv t key Hk Ht) as (text & He & Hr).
  exists text. split; [done|]. intros now acct w Ha.
  destruct (storeKey_stores acct priv (j_number t) key w Ha Hk I) as (w' & Hs & Hload & Hother).
  exists w'. split_and!; [|done|done]. unfold importKey, lift, mbind, io_bind. by rewrite Hr, Hs.
Qed.

(** A key this browser is given is one it keeps: a key handed out as the
    account's was read from the storage, which did not change; a new one is the
    first valid draw, when the account had none, and the storage has answered
    with its address; in a storage that keeps its word every later call gives
    it again, and no other account's key has changed. *)
Theorem created_key_is_kept {psbt W} `{EmbeddedLib psbt, KeyStorage W} now random acct (w w' : W) key created :
  loadOrCreateKey now random acct w = (Ok (key, created), w') →
  (created = false → w' = w ∧ loadKey now acct w = (Ok (Some key), w)) ∧
  (created = true →
     loadKey now acct w = (Ok None, w) ∧ generatePrivkey random = Ok (privkey key) ∧
     (∃ saved, loadKey now acct w' = (Ok (Some saved), w') ∧ address saved = address key) ∧
     (StorageLaws W →
        (∀ later random', loadOrCreateKey later random' acct w' = (Ok (key, false), w')) ∧
        ∀ other later, other ≠ acct → (loadKey later other w').1 = (loadKey later other w).1)).
Proof.
  assert (∀ now acct (w : W), (loadKey now acct w).2 = w) as Hpure.
  { intros n a v. unfold loadKey, lift, get_item, mbind, io_bind. destruct (storageKeyFor a); [|done].
    destruct (getItem _ v) as [raw|]; [|done]. by destruct (present raw). }
  unfold loadOrCreateKey at 1. unfold lift, mret, io_ret, mbind, io_bind. intros E.
  destruct (loadKey now acct w) as [[[k|]|] w1] eqn:E1; [| |done].
  { assert (w1 = w) as -> by (pose proof (Hpure now acct w) as Hw; by rewrite E1 in Hw). by simplify_eq. }
  assert (w1 = w) as -> by (pose proof (Hpure now acct w) as Hw; by rewrite E1 in Hw).
  destruct (generatePrivkey random) as [priv|] eqn:Eg; [|done].
  destruct (keyFromPrivkey priv (j_number now)) as [k|] eqn:Ek; [|done].
  destruct (storeKey acct k w) as [[[]|] w2] eqn:Es; [|done].
  destruct (loadKey now acct w2) as [[[saved|]|] w3] eqn:E3; [|done|done].
  assert (w3 = w2) as -> by (pose proof (Hpure now acct w2) as Hw; by rewrite E3 in Hw).
  destruct (bool_decide _) eqn:Ea; [|done]. bools. simplify_eq.
  destruct (keyFromPrivkey_ok _ _ _ Ek) as (_ & _ & -> & _).
  split; [done|]. intros _. split_and!; [done|done|by exists saved|]. intros Hlaws.
  assert (acct ≠ "") as Hne by (intros ->; discriminate).
  destruct (storeKey_stores acct priv (j_number now) key w Hne Ek I) as (w4 & Hs & Hload & Hother).
  rewrite Es in Hs. simplify_eq. split; [|done]. intros later random'.
  unfold loadOrCreateKey, mbind, io_bind. by rewrite Hload.
Qed.

(** ** Signing *)

Lemma frame_is_the_librarys `{MessageLib} message :
  zlen (utf8 message) < 65536 →
  ∃ frame, signedMessageFrame message = Ok frame ∧ hash256 frame = bitcoinMessageHash message.
Proof.
  intros Hm. unfold signedMessageFrame, bitcoinMessageHash, app_varint, varint.
  change (slen MAGIC) with 24. change (zlen (utf8 MAGIC)) with 24. cbn [mbind result_bind Z.ltb Z.compare].
  destruct (zlen (utf8 message) <? 253); [by eexists|].
  replace (zlen (utf8 message) <=? 65535) with true by (symmetry; apply Z.leb_le; lia). by eexists.
Qed.

(** A message signed with a test key is a key proof: when the curve recovers the
    key from what it signed, the app's own check takes the signature, and the
    relayer's verifies it under the key, up to messages of 65535 bytes. *)
Theorem signed_by_the_test_key {psbt} `{EmbeddedLib psbt, MessageLib} (Hhash : ∀ bs, hash256 bs = sha256 (sha256 bs))
    message key sig id :
  zlen (utf8 message) < 65536 →
  ecdsa_recoverable (bitcoinMessageHash message) (privkey key) = (sig, id) →
  zlen sig = 64 → 0 ≤ id < 4 → zlen (pubkey key) = 33 →
  recover (bitcoinMessageHash message) sig id = Ok (Some (pubkey key)) →
  ∃ text, signBitcoinMessage message key = Ok text ∧ parseMessageSignature text = Ok (z2b (39 + id) :: sig) ∧
    verifyBitcoinMessage message (SigText text) (pubkey key) = true.
Proof.
  intros Hm Hsign Hsig Hid Hpub Hrec. destruct (frame_is_the_librarys message Hm) as (frame & Hf & Hh).
  exists (to_base64 (z2b (39 + id) :: sig)). unfold signBitcoinMessage. rewrite Hf. cbn [mbind result_bind].
  rewrite <- Hhash, Hh, Hsign. split; [done|].
  assert (b2z (z2b (39 + id)) = 39 + id) as Hb by (rewrite b2z_z2b, Z.mod_small by lia; done).
  split.
  - unfold parseMessageSignature. rewrite from_to_base64, zlen_cons, Hsig. cbn [head]. rewrite Hb.
    rewrite (proj2 (Z.ltb_ge _ 31)), (proj2 (Z.ltb_ge 42 _)) by lia. done.
  - unfold verifyBitcoinMessage, recoverBitcoinMessagePubkey. cbn [signature_bytes]. rewrite from_to_base64, zlen_cons, Hsig, Hb.
    rewrite (proj2 (Z.ltb_ge _ 31)), (proj2 (Z.ltb_ge 42 _)) by lia.
    replace (Z.land (39 + id - 27) 3) with id by
      (assert (id = 0 ∨ id = 1 ∨ id = 2 ∨ id = 3) as [->|[->|[->| ->]]] by lia; done).
    change (1 + 64 =? 65) with true. cbn [negb orb]. rewrite Hrec, Hpub. cbn. by apply bool_decide_true.
Qed.

(** A release is signed only when its lock names the key. *)
Lemma release_names_the_key {psbt} `{EmbeddedLib psbt} text key signed :
  signReleasePsbt text key = Ok signed →
  ∃ p script, psbt_from text = Ok p ∧ first_input p = Some (Some script, true) ∧ includes_bytes (pubkey key) script = true.
Proof.
  unfold signReleasePsbt. intros (p & Hp & E)%bind_ok. destruct (first_input p) as [[[script|] []]|] eqn:Ei; try done.
  destruct (includes_bytes _ _) eqn:Eb; [|done]. eauto 10.
Qed.

Lemma includes_bytes_spec part bs : includes_bytes part bs = true ↔ ∃ pre post, bs = pre ++ part ++ post.
Proof.
  induction bs as [|b bs IH]; simpl; rewrite orb_true_iff, bool_decide_eq_true.
  - split.
    + intros [E|]; [|done]. exists [], []. rewrite take_nil in E. by rewrite <- E.
    + intros ([|? ?] & post & E); [|done]. left. simpl in E. symmetry in E. apply app_nil in E as [-> _]. done.
  - rewrite IH. split.
    + intros [E|(pre & post & ->)]; [|by exists (b :: pre), post].
      exists [], (drop (length part) (b :: bs)). simpl. rewrite <- E at 1. by rewrite take_drop.
    + intros ([|b' pre] & post & E); simpl in E.
      * left. by rewrite E, take_app_length.
      * right. simplify_eq. eauto.
Qed.

Module Demo.
#[local] Instance lib : EmbeddedLib string := {
  sha256 _ := replicate 32 x00;
  isPrivate k := bool_decide (k ≠ replicate 32 x00);
  pubkey_of k := x02 :: k;
  p2wpkh_address pub := "tb1q" +:+ to_hex pub;
  p2wpkh_script pub := x00 :: x14 :: take 20 pub;
  SignetWallet.toOutputScript a := if bool_decide (a = "") then Err "no address" else Ok (x00 :: x14 :: replicate 20 x07);
  ecdsa_recoverable h k := (replicate 64 x07, 2);
  psbt_from s := Ok s;
  psbt_text s := s;
  first_input s := Some (Some (map byte_of_ascii (chars s)), true);
  sign_first k s := Ok s;
  sign_payment k coins outs := Ok ("hex", "id");
}.

#[local] Instance storage : KeyStorage (gmap string string) := {
  getItem k w := Ok (w !! k);
  setItem k v w := (Ok (), <[k := v]> w);
}.

#[local] Instance storage_laws : StorageLaws (gmap string string).
Proof.
  split; [done|]. intros k v k' w. cbn. case_decide as E; [subst; by rewrite lookup_insert_eq|by rewrite lookup_insert_ne by done].
Defined.

Definition priv : list byte := replicate 32 x11.
Definition key : SignetKey := {|
  privkey := priv; pubkey := x02 :: priv; address := "tb1q" +:+ to_hex (x02 :: priv); createdAt := j_number 1700000000123 |}.

Lemma key_moves_between_browsers_witness :
  keyFromPrivkey priv (j_number 1700000000123) = Ok key ∧
  ∃ text, exportKeyFile key = Ok text ∧ ∃ w', importKey 5 "user" text (∅ : gmap string string) = (Ok key, w').
Proof.
  assert (keyFromPrivkey priv (j_number 1700000000123) = Ok key) as Hk by (vm_compute; reflexivity).
  split; [exact Hk|].
  assert (∀ bs : list byte, length (@sha256 string lib bs) = 32%nat) as Hsha by (intros bs; reflexivity).
  destruct (key_moves_between_browsers (psbt := string) (W := gmap string string) Hsha priv 1700000000123 key Hk ltac:(lia))
    as (_ & text & He & Hi).
  exists text. split; [exact He|]. destruct (Hi 5 "user" ∅ ltac:(done)) as (w' & Hw & _). exists w'. exact Hw.
Defined.

Lemma created_key_is_kept_witness : ∃ w',
  loadOrCreateKey 5 (λ _, priv) "user" (∅ : gmap string string) = (Ok ({| privkey := priv; pubkey := pubkey key;
    address := address key; createdAt := j_number 5 |}, true), w') ∧
  loadOrCreateKey 9 (λ _, []) "user" w' = (Ok ({| privkey := priv; pubkey := pubkey key;
    address := address key; createdAt := j_number 5 |}, false), w').
Proof.
  destruct (loadOrCreateKey 5 (λ _, priv) "user" (∅ : gmap string string)) as [r w'] eqn:E.
  assert (r = Ok ({| privkey := priv; pubkey := pubkey key; address := address key; createdAt := j_number 5 |}, true)) as ->.
  { change r with (r, w').1. rewrite <- E. vm_compute. reflexivity. }
  exists w'. split; [reflexivity|].
  destruct (created_key_is_kept 5 (λ _, priv) "user" ∅ w' _ _ E) as [_ Hc].
  destruct (Hc eq_refl) as (_ & _ & _ & Hl). destruct (Hl storage_laws) as [Hagain _]. apply Hagain.
Defined.
End Demo.
