(* ===== verification/SignetPay.v ===== *)
(** * Payments from the Signet test key ([frontend/app/src/lib/bitcoin/embedded/])

    [buildPayment] of [key.ts] and [send.ts], which asks Esplora for the coins
    and the fee rate, builds one payment and broadcasts it. A fee rate is a
    whole number of satoshis per virtual byte, as [send.ts] makes it, and an
    amount a whole number of satoshis, below 2^53. *)

From S2P Require Import Prelude JsData JsMap JsJson CctpNet SignetKey SignetWallet.
From Stdlib Require Import Sorting.Sorted.

Record Utxo : Type := { txid : string; vout : Z; value : Z }.

Definition DUST_SATS : Z := 294.

Definition outputVbytes (script : list byte) : Z :=
  if zlen script =? 22 then 31 else if zlen script =? 34 then 43 else 34.

(** [Math.ceil(10.5 + ...)] *)
Definition paymentVsize (inputs : Z) (outputScripts : list (list byte)) : Z :=
  11 + 68 * inputs + sumZ (map outputVbytes outputScripts).

Definition fee (rate inputs : Z) (outputScripts : list (list byte)) : Z := paymentVsize inputs outputScripts * rate.

Inductive payment_error : Type :=
| NotEnoughBitcoin (available needed : Z)
| Failed (m : string).

Record Payment : Type := { txHex : string; pay_txid : string; feeSats : Z; changeSats : Z }.

(** [Number.isSafeInteger(a) && a > DUST_SATS] *)
Definition is_sendable (a : Z) : bool := (DUST_SATS <? a) && (a <? 2 ^ 53).

(** Largest first; coins of one value keep their order. *)
Definition sorted (utxos : list Utxo) : list Utxo := sort_by (λ u, - value u) utxos.

Fixpoint choose (amount rate : Z) (toScript own : list byte) (chosen : list Utxo) (total : Z) (us : list Utxo) :
    list Utxo * Z :=
  match us with
  | [] => (chosen, total)
  | u :: us =>
      let chosen := chosen ++ [u] in
      let total := total + value u in
      if amount + fee rate (zlen chosen) [toScript; own] <=? total then (chosen, total)
      else choose amount rate toScript own chosen total us
  end.

Definition coin (u : Utxo) : string * Z * Z := (txid u, vout u, value u).

Definition payment_outputs (toScript own : list byte) (amount change : Z) : list (list byte * Z) :=
  (toScript, amount) :: (if change >? 0 then [(own, change)] else []).

Definition lift_error {A} (r : result string A) : result payment_error A :=
  match r with Ok a => Ok a | Err m => Err (Failed m) end.

Section payments.
Context {psbt : Type} `{EmbeddedLib psbt}.

Definition buildPayment (key : SignetKey) (utxos : list Utxo) (to : string) (amountSats feeRate : Z) :
    result payment_error Payment :=
  if negb (is_sendable amountSats) then Err (Failed "The amount is too small to send.") else
  let feeRate := Z.max 1 feeRate in
  toScript ← lift_error (toOutputScript to);
  let own := p2wpkh_script (pubkey key) in
  let '(chosen, total) := choose amountSats feeRate toScript own [] 0 (sorted utxos) in
  let feeWithChange := fee feeRate (zlen chosen) [toScript; own] in
  let feeNoChange := fee feeRate (zlen chosen) [toScript] in
  if total <? amountSats + feeNoChange then Err (NotEnoughBitcoin total (amountSats + feeNoChange)) else
  let changeSats := total - amountSats - feeWithChange in
  let changeSats := if changeSats <? DUST_SATS then 0 else changeSats in
  let feeSats := total - amountSats - changeSats in
  '(hex, id) ← lift_error (sign_payment (privkey key) (map coin chosen)
                             (payment_outputs toScript own amountSats changeSats));
  Ok {| txHex := hex; pay_txid := id; feeSats := feeSats; changeSats := changeSats |}.
End payments.

(** ** [send.ts] *)

Definition MIN_FEE_RATE : Z := 2.
Definition MAX_FEE_RATE : Z := 25.

(** The Esplora API: what a [GET] of each path answers, and a [POST] to [/tx]
    with its text. Each is one request. *)
Class EsploraIo (W : Type) : Type := {
  get_utxos : string → W → http (list Utxo) * W;
  get_estimates : string → W → http (list (string * Json)) * W;
  post_tx : string → string → W → http string * W;
  get_status : string → W → http (option bool) * W;
}.

Section send.
Context {psbt W : Type} `{EmbeddedLib psbt, EsploraIo W} (apiUrl : string).
Abbreviation M := (io W payment_error).

Definition base : string := strip_slashes apiUrl.

Definition api_error (status : Z) : payment_error := Failed ("Bitcoin API error " +:+ z_to_string status).

(** A request: it throws, or it has an answer. *)
Definition request {B} (f : W → http B * W) : M (Z * option B) := λ w,
  match f w with
  | (fetch_threw, w) => (Err (Failed "Failed to fetch"), w)
  | (answered status body, w) => (Ok (status, body), w)
  end.

(** [await res.json()] *)
Definition json_body {B} (b : option B) : M B := lift (of_option b (Failed "Unexpected token in JSON")).

Definition addressUtxos (address : string) : M (list Utxo) :=
  '(status, body) ← request (get_utxos (base +:+ "/address/" +:+ address +:+ "/utxo"));
  if negb (res_ok status) then throw (api_error status) else json_body body.

(** [Math.min(MAX_FEE_RATE, Math.max(MIN_FEE_RATE, Math.ceil(v)))] of a number;
    [None] is one past a double's range. *)
Definition rate_of (v : Json) : Z :=
  match ceil_number v with Some c => Z.min MAX_FEE_RATE (Z.max MIN_FEE_RATE c) | None => MAX_FEE_RATE end.

(** [v ?? w] *)
Definition non_null (v : option Json) : option Json := match v with Some j_null => None | _ => v end.

Definition feeRate : M Z :=
  try_catch
    ('(status, body) ← request (get_estimates (base +:+ "/fee-estimates"));
     if negb (res_ok status) then mret MIN_FEE_RATE
     else
       est ← json_body body;
       mret (match non_null (map_get "3" est), non_null (map_get "6" est) with
             | Some v, _ => rate_of v
             | None, Some v => rate_of v
             | None, None => MIN_FEE_RATE
             end))
    (λ _, mret MIN_FEE_RATE).

(** [text.slice(0, n)] *)
Definition slice_text (n : nat) (s : string) : string := of_chars (take n (chars s)).

(** The body of the answer is its text; one that cannot be read throws. *)
Definition broadcast (hex : string) : M string :=
  '(status, body) ← request (post_tx (base +:+ "/tx") hex);
  text ← json_body body;
  if negb (res_ok status)
  then throw (Failed ("The Bitcoin network refused the transaction: " +:+ slice_text 160 (trim text)))
  else mret (trim text).

(** [/^[0-9a-f]{64}$/i] *)
Definition is_txid (s : string) : bool := (slen s =? 64) && string_forall is_hex_char s.

Definition sendFromKey (key : SignetKey) (to : string) (amountSats : Z) : M string :=
  utxos ← addressUtxos (address key);
  rate ← feeRate;
  payment ← lift (buildPayment key utxos to amountSats rate);
  id ← broadcast (txHex payment);
  mret (if is_txid id then toLowerCase id else pay_txid payment).

Definition isConfirmed (id : string) : M bool :=
  '(status, body) ← request (get_status (base +:+ "/tx/" +:+ id +:+ "/status"));
  if status =? 404 then mret false
  else if negb (res_ok status) then throw (api_error status)
  else confirmed ← json_body body; mret (default false confirmed).
End send.

(** [addressBalance] of the two summaries, each (funded, spent); no mempool
    summary counts as zeros. *)
Definition balance_of (chain : Z * Z) (mempool : option (Z * Z)) : Z :=
  let m := default (0, 0) mempool in chain.1 - chain.2 + m.1 - m.2.

(** ** What a payment is *)

Definition total_of (us : list Utxo) : Z := sumZ (map value us).

Lemma total_of_app l1 l2 : total_of (l1 ++ l2) = total_of l1 + total_of l2.
Proof. unfold total_of. by rewrite map_app, sumZ_app. Qed.

Lemma total_of_perm l1 l2 : l1 ≡ₚ l2 → total_of l1 = total_of l2.
Proof. unfold total_of, sumZ. induction 1; simpl; lia. Qed.

(** The coins cover the amount and the fee of a payment with change. *)
Definition covers (amount rate : Z) (toScript own : list byte) (us : list Utxo) : Prop :=
  amount + fee rate (zlen us) [toScript; own] ≤ total_of us.

Lemma choose_spec amount rate ts own us : ∀ chosen,
  ∃ pre post, us = pre ++ post ∧
    choose amount rate ts own chosen (total_of chosen) us = (chosen ++ pre, total_of (chosen ++ pre)) ∧
    (post = [] ∨ covers amount rate ts own (chosen ++ pre)) ∧
    ∀ p1 x p2, pre = p1 ++ x :: p2 → p1 ≠ [] → ¬ covers amount rate ts own (chosen ++ p1).
Proof.
  induction us as [|u us IH]; intros chosen.
  { exists [], []. rewrite !app_nil_r. split_and!; [done|done|by left|]. intros [] ? ?; discriminate. }
  cbn [choose]. replace (total_of chosen + value u) with (total_of (chosen ++ [u]))
    by (rewrite total_of_app; unfold total_of; simpl; lia).
  destruct (_ <=? _) eqn:E.
  - bools. exists [u], us. split_and!; [done|done|by right|]. intros [|y [|z p1]] x p2 Hp; by simplify_eq.
  - apply Z.leb_gt in E. destruct (IH (chosen ++ [u])) as (pre & post & -> & Hc & Hend & Hmin).
    exists (u :: pre), post. rewrite <- app_assoc in Hc, Hend. split_and!; [done|done|done|].
    intros [|y p1] x p2 Hp Hne; [done|]. injection Hp as <- Hp. destruct p1 as [|z p1].
    + unfold covers. lia.
    + intros Hcov. apply (Hmin (z :: p1) x p2 Hp); [done|]. by rewrite <- app_assoc.
Qed.

Lemma outputVbytes_range s : 31 ≤ outputVbytes s ≤ 43.
Proof. unfold outputVbytes. repeat case_match; lia. Qed.

Lemma fee_grows rate n ts own : 1 ≤ rate → fee rate n [ts] ≤ fee rate n [ts; own].
Proof. intros Hr. unfold fee, paymentVsize. simpl. pose proof (outputVbytes_range own). nia. Qed.

(** A payment adds up: it is signed over the largest coins first, as few of
    them as cover it with change, and their total is the amount, the change and
    the fee; the change is none or no dust; the fee is at least the rate for the
    size of the very outputs signed, and at most a dust output more than the rate
    with change; and a payment is refused for want of coins only when all of them
    together do not pay the amount and its fee. *)
Theorem signet_payment_adds_up {psbt} `{EmbeddedLib psbt} key utxos to amount rate :
  let r := Z.max 1 rate in
  let own := p2wpkh_script (pubkey key) in
  match buildPayment key utxos to amount rate with
  | Ok p => ∃ ts chosen rest, toOutputScript to = Ok ts ∧ sorted utxos = chosen ++ rest ∧
      let outputs := payment_outputs ts own amount (changeSats p) in
      sign_payment (privkey key) (map coin chosen) outputs = Ok (txHex p, pay_txid p) ∧
      total_of chosen = amount + changeSats p + feeSats p ∧
      DUST_SATS < amount ∧ (changeSats p = 0 ∨ DUST_SATS ≤ changeSats p) ∧
      fee r (zlen chosen) (map fst outputs) ≤ feeSats p < fee r (zlen chosen) [ts; own] + DUST_SATS ∧
      ∀ fewer u more, chosen = fewer ++ u :: more → fewer ≠ [] → ¬ covers amount r ts own fewer
  | Err (NotEnoughBitcoin available needed) => ∃ ts, toOutputScript to = Ok ts ∧ available = total_of utxos ∧
      needed = amount + fee r (zlen utxos) [ts] ∧ available < needed
  | Err (Failed _) => True
  end.
Proof.
  intros r own. unfold buildPayment. fold r own. destruct (is_sendable amount) eqn:Ea; [|done]. unfold is_sendable in Ea. bools.
  cbn [negb]. destruct (toOutputScript to) as [ts|m]; [|done]. cbn [lift_error mbind result_bind].
  destruct (choose_spec amount r ts own (sorted utxos) []) as (pre & post & Hs & Hc & Hend & Hmin).
  change (total_of []) with 0 in Hc. rewrite Hc. cbn [app] in *. cbv beta iota zeta.
  assert (1 ≤ r) as Hr by lia. pose proof (fee_grows r (zlen pre) ts own Hr) as Hgrow.
  pose proof (outputVbytes_range own) as Hown.
  destruct (_ <? amount + fee r _ [ts]) eqn:En.
  { apply Z.ltb_lt in En. exists ts. destruct Hend as [->|Hcov]; [|unfold covers in Hcov; lia].
    rewrite app_nil_r in Hs. assert (pre ≡ₚ utxos) as Hp by (rewrite <- Hs; apply sort_by_perm).
    rewrite (total_of_perm _ _ Hp) in *. unfold zlen in *. rewrite (Permutation_length Hp) in *. done. }
  apply Z.ltb_ge in En. set (change := total_of pre - amount - fee r (zlen pre) [ts; own]).
  destruct (sign_payment _ _ _) as [[hex tid]|m] eqn:Esign; [|done]. cbn.
  exists ts, pre, post. split_and!; [done|done|done|lia|lia| | | |done].
  - destruct (change <? DUST_SATS) eqn:Ec; [by left|right; bools; lia].
  - unfold payment_outputs. destruct (change <? DUST_SATS) eqn:Ec; cbn; [lia|].
    apply Z.ltb_ge in Ec. unfold DUST_SATS in *. replace (change >? 0) with true by (symmetry; apply Z.gtb_lt; lia). cbn [map fst]. lia.
  - destruct (change <? DUST_SATS) eqn:Ec; unfold DUST_SATS in *; bools; lia.
Qed.

(** ** What is sent *)

(** The fee rate is always one, between the floor and the ceiling. *)
Lemma feeRate_bounded {W} `{EsploraIo W} apiUrl (w : W) :
  ∃ r w', feeRate apiUrl w = (Ok r, w') ∧ MIN_FEE_RATE ≤ r ≤ MAX_FEE_RATE.
Proof.
  assert (∀ j, MIN_FEE_RATE ≤ rate_of j ≤ MAX_FEE_RATE) as Hr.
  { intros j. unfold rate_of, MIN_FEE_RATE, MAX_FEE_RATE. destruct (ceil_number j); lia. }
  assert (MIN_FEE_RATE ≤ MIN_FEE_RATE ≤ MAX_FEE_RATE) as H2 by done.
  unfold feeRate, try_catch, request, json_body, lift, throw, mret, io_ret, mbind, io_bind.
  destruct (get_estimates _ w) as [[|status body] w1]; [by eexists _, _|].
  destruct (negb _); [by eexists _, _|]. destruct body as [est|]; cbn [of_option]; [|by eexists _, _].
  destruct (non_null _); [|destruct (non_null _)]; eexists _, _; (split; [reflexivity|done]).
Qed.

(** What [sendFromKey] returns is what it broadcast: one payment to the address
    given, of the coins Esplora listed, at a rate within the bounds; the id is the
    network's, or the payment's own when the network answers with no id. *)
Theorem sendFromKey_sends {psbt W} `{EmbeddedLib psbt, EsploraIo W} apiUrl key to amount (w w' : W) id :
  sendFromKey apiUrl key to amount w = (Ok id, w') →
  ∃ utxos rate payment w1 w2 status text,
    addressUtxos apiUrl (address key) w = (Ok utxos, w1) ∧ feeRate apiUrl w1 = (Ok rate, w2) ∧
    MIN_FEE_RATE ≤ rate ≤ MAX_FEE_RATE ∧ buildPayment key utxos to amount rate = Ok payment ∧
    post_tx (base apiUrl +:+ "/tx") (txHex payment) w2 = (answered status (Some text), w') ∧ res_ok status = true ∧
    id = (if is_txid (trim text) then toLowerCase (trim text) else pay_txid payment).
Proof.
  unfold sendFromKey, broadcast, lift, throw, mret, io_ret, mbind, io_bind. intros E.
  destruct (addressUtxos apiUrl (address key) w) as [[utxos|] w1]; [|done].
  destruct (feeRate_bounded apiUrl w1) as (rate & w2 & Hr & Hb). rewrite Hr in E.
  destruct (buildPayment key utxos to amount rate) as [payment|] eqn:Ep; [|done].
  unfold request, json_body, lift in E. destruct (post_tx _ _ w2) as [[|status [text|]] w3] eqn:Epost; [done| |done].
  cbn [of_option] in E. destruct (res_ok status) eqn:Es; [|done]. cbn [negb] in E. simplify_eq.
  by exists utxos, rate, payment, w1, w2, status, text.
Qed.

Module Demo.
#[local] Existing Instance SignetWallet.Demo.lib.

Definition big : Utxo := {| txid := "a"; vout := 0; value := 10000 |}.
Definition speck : Utxo := {| txid := "b"; vout := 0; value := 1 |}.
Definition pay (utxos : list Utxo) : result payment_error Payment :=
  buildPayment (psbt := string) SignetWallet.Demo.key utxos "tb1q" 9770 2.

(** One coin pays the amount and its fee, with no change; with a coin of one
    satoshi beside it, which costs 136 to spend, the same payment is refused. *)
Lemma speck_blocks_the_payment :
  pay [big] = Ok {| txHex := "hex"; pay_txid := "id"; feeSats := 230; changeSats := 0 |} ∧
  pay [big; speck] = Err (NotEnoughBitcoin 10001 10126).
Proof. split; vm_compute; reflexivity. Qed.
End Demo.
