(* ===== verification/JsNumber.v ===== *)
(** * [Number] of a text

    The IEEE double nearest to a decimal, as [Number(s)] and a literal give it,
    and the rounding the code does on doubles. *)

From Stdlib Require Import Floats.SpecFloat.
From S2P Require Import Prelude JsData JsJson Payment.

(** The double nearest to [n / d], for positive numbers: the quotient to 65
    bits or more and a sticky bit, rounded once. *)
Definition of_ratio (negative : bool) (n d : Z) : double :=
  let e := Z.log2 n - Z.log2 d - 66 in
  let num := if e <? 0 then n * 2 ^ (- e) else n in
  let den := if e <? 0 then d else d * 2 ^ e in
  let q := 2 * (num / den) + (if num mod den =? 0 then 0 else 1) in
  binary_normalize 53 1024 (if negative then - q else q) (e - 1) negative.

(** The double nearest to [v * 10^k]; past a double's range it is an infinity
    or a zero. *)
Definition of_decimal (negative : bool) (v k : Z) : double :=
  if v =? 0 then S754_zero negative
  else if 0 <=? k then
    if Z.log2 v + 3 * k >? 1100 then S754_infinity negative
    else binary_normalize 53 1024 ((if negative then - v else v) * 10 ^ k) 0 negative
  else if Z.log2 v + 1 + 3 * k <? - 1100 then S754_zero negative
  else of_ratio negative v (10 ^ (- k)).

(** [(digits [. digits?] | . digits) exponent?]: the digits as one number and
    its power of ten. *)
Definition decimal_literal (cs : list ascii) : option (Z * Z) :=
  let '(whole, rest) := run_of is_digit cs in
  let '(fraction, rest) :=
    match rest with "."%char :: rest => run_of is_digit rest | _ => ([], rest) end in
  if bool_decide (whole ++ fraction = []) then None
  else
    e ← (if bool_decide (rest = []) then Some 0 else exponent_of rest);
    Some (dec_value (whole ++ fraction), e - zlen fraction).

Definition signed_decimal (cs : list ascii) : double :=
  let '(negative, body) :=
    match cs with "-"%char :: cs => (true, cs) | "+"%char :: cs => (false, cs) | _ => (false, cs) end in
  if bool_decide (of_chars body = "Infinity") then S754_infinity negative
  else match decimal_literal body with
       | Some (v, k) => of_decimal negative v k
       | None => S754_nan
       end.

Definition js_Number (s : string) : double :=
  let cs := chars (trim s) in
  if bool_decide (cs = []) then S754_zero false
  else match base_prefix cs with
       | Some (base, digits) => match parse_base base hex_value digits with Some z => of_int z | None => S754_nan end
       | None => signed_decimal cs
       end.

Definition is_finite (x : double) : bool :=
  match x with S754_zero _ | S754_finite _ _ _ => true | _ => false end.

(** [Math.round]: the nearest integer, halves upward; [None] on no number. *)
Definition math_round (x : double) : option Z :=
  match x with
  | S754_zero _ => Some 0
  | S754_finite s m e =>
      let a := if s then Z.neg m else Z.pos m in
      Some (if 0 <=? e then a * 2 ^ e else (2 * a + 2 ^ (- e)) / (2 * 2 ^ (- e)))
  | _ => None
  end.

Example js_Number_examples :
  (js_Number "2", js_Number " 0.1 ", js_Number "1e400", js_Number "1e-400", js_Number "0x10", js_Number "5.", js_Number "1.5.2")
  = (of_int 2, S754_finite false 7205759403792794 (-56), S754_infinity false, S754_zero false, of_int 16, of_int 5, S754_nan).
Proof. vm_compute. reflexivity. Qed.

Example math_round_examples :
  (math_round (times (js_Number "0.25") (of_int 10)), math_round (js_Number "-2.5"), math_round (js_Number "1e300")) =
  (Some 3, Some (-2), Some (match js_Number "1e300" with S754_finite _ m e => Z.pos m * 2 ^ e | _ => 0 end)).
Proof. vm_compute. reflexivity. Qed.
