(* ===== verification/DeployTarget.v ===== *)
(** * Deploy targets ([relayer/src/deploy-target.ts])

    Which deployment a relayer is for, and every way its environment contradicts
    that; a relayer whose target is contradicted does not start. *)

From S2P Require Import Prelude JsData.

Inductive DeployTarget : Type := t_local | t_testnet | t_mainnet.

#[global] Instance DeployTarget_eq_dec : EqDecision DeployTarget.
Proof. solve_decision. Defined.

Definition target_name (t : DeployTarget) : string :=
  match t with t_local => "local" | t_testnet => "testnet" | t_mainnet => "mainnet" end.

Definition DEPLOY_TARGETS : list DeployTarget := [t_local; t_testnet; t_mainnet].

Definition TESTNET_PASSPHRASE : string := "Test SDF Network ; September 2015".
Definition MAINNET_PASSPHRASE : string := "Public Global Stellar Network ; September 2015".

Record RawTargetEnv : Type := {
  target : option string;
  bitcoinNetwork : option string;
  networkPassphrase : option string;
  stellarRpcUrl : option string;
  corsOrigin : option string;
  defindexVaultId : option string;
  kmsKeyId : option string;
  protocolSigningKeyWif : option string;
  (** by variable name, in the order written *)
  lending : list (string * option string);
}.

Definition lendingEnabled (t : DeployTarget) : bool := negb (bool_decide (t = t_mainnet)).

(** [l.join(sep)] *)
Fixpoint join (sep : string) (l : list string) : string :=
  match l with [] => "" | [s] => s | s :: l => s +:+ sep +:+ join sep l end.

Definition dquote : string := String "034"%char "".
Definition quoted (s : string) : string := dquote +:+ s +:+ dquote.

(** A target by its name; nothing for a text that is none. *)
Definition target_of (value : string) : option DeployTarget :=
  snd <$> list_find (λ t, target_name t = value) DEPLOY_TARGETS.

(** [WRITZ_ENV] read under the name [variable]. *)
Definition resolve (variable : string) (raw : option string) : result string DeployTarget :=
  let value := trim (default "" raw) in
  if bool_decide (value = "") then Ok t_local
  else of_option (target_of value)
    (variable +:+ " must be one of " +:+ join ", " (map target_name DEPLOY_TARGETS) +:+ ", got: "
     +:+ quoted (default "undefined" raw)).

Definition resolveDeployTarget (raw : option string) : result string DeployTarget := resolve "WRITZ_ENV" raw.

(** [v?.trim()], when it is not empty *)
Definition filled (v : option string) : option string :=
  match v with Some s => let t := trim s in if bool_decide (t = "") then None else Some t | None => None end.

(** [/testnet|futurenet/i.test(url)] *)
Definition on_test_network (url : string) : bool :=
  includes "testnet" (toLowerCase url) || includes "futurenet" (toLowerCase url).

(** [if (v && bad(v)) problems.push(text(v))] *)
Definition problem_if (v : option string) (bad : string → bool) (text : string → string) : list string :=
  match v with Some v => if bad v then [text v] else [] | None => [] end.

Definition expected_bitcoin (t : DeployTarget) : string :=
  match t with t_mainnet => "mainnet" | _ => "signet" end.
Definition expected_passphrase (t : DeployTarget) : string :=
  match t with t_mainnet => MAINNET_PASSPHRASE | _ => TESTNET_PASSPHRASE end.

Definition normalizedBitcoin (n : string) : string := if bool_decide (n = "testnet") then "signet" else n.

(** What a [testnet] or [mainnet] relayer must not contradict. *)
Definition network_conflicts (t : DeployTarget) (env : RawTargetEnv) : list string :=
  problem_if (filled (bitcoinNetwork env)) (λ n, negb (bool_decide (normalizedBitcoin n = expected_bitcoin t)))
    (λ n, "BITCOIN_NETWORK is " +:+ quoted n +:+ ", but the " +:+ target_name t +:+ " target runs on "
          +:+ expected_bitcoin t +:+ ".") ++
  problem_if (filled (networkPassphrase env)) (λ p, negb (bool_decide (p = expected_passphrase t)))
    (λ p, "STELLAR_NETWORK_PASSPHRASE is " +:+ quoted p +:+ ", but the " +:+ target_name t +:+ " target runs against "
          +:+ quoted (expected_passphrase t) +:+ ".") ++
  match filled (defindexVaultId env) with
  | Some _ => []
  | None => ["DEFINDEX_VAULT_ID is not set. Each target owns its own vault - the " +:+ target_name t
             +:+ " relayer must name it explicitly."]
  end.

Definition lending_conflicts (vars : list (string * option string)) : list string :=
  vars ≫= λ v, problem_if (filled v.2) (λ _, true)
    (λ _, v.1 +:+ " is set. Lending is not enabled on the mainnet target (Earn only), so it must be unset.").

(** What only [mainnet] must not have. *)
Definition mainnet_conflicts (env : RawTargetEnv) : list string :=
  problem_if (filled (stellarRpcUrl env)) on_test_network
    (λ u, "STELLAR_RPC_URL points at a test network (" +:+ quoted u +:+ ") on the mainnet target.") ++
  problem_if (filled (protocolSigningKeyWif env)) (λ _, true)
    (λ _, "PROTOCOL_SIGNING_KEY is set. It is a testnet/signet-only fallback and must be unset on the mainnet target.") ++
  problem_if (filled (kmsKeyId env)) (λ _, true)
    (λ _, "KMS_KEY_ID is set. The mainnet target serves Earn only and must not hold a Bitcoin co-signing key.") ++
  lending_conflicts (lending env) ++
  match filled (corsOrigin env) with
  | Some o => if bool_decide (o = "*") then ["CORS_ORIGIN is " +:+ quoted "*" +:+ " (or unset). The mainnet target must name its allowed origin(s) explicitly."] else []
  | None => ["CORS_ORIGIN is " +:+ quoted "*" +:+ " (or unset). The mainnet target must name its allowed origin(s) explicitly."]
  end.

Definition findTargetConflicts (env : RawTargetEnv) : result string (list string) :=
  t ← resolveDeployTarget (target env);
  match t with
  | t_local => Ok []
  | t_testnet => Ok (network_conflicts t env)
  | t_mainnet => Ok (network_conflicts t env ++ mainnet_conflicts env)
  end.

(** The single error that lists every conflict. *)
Definition misconfigured (variable : string) (t : DeployTarget) (problems : list string) : string :=
  "Deploy target " +:+ quoted (target_name t) +:+ " is misconfigured (" +:+ variable +:+ "):" +:+ String "010"%char "" +:+
  join (String "010"%char "") (map (String.append "  - ") problems).

Definition assertDeployTarget (env : RawTargetEnv) : result string DeployTarget :=
  t ← resolveDeployTarget (target env);
  problems ← findTargetConflicts env;
  if bool_decide (problems = []) then Ok t else Err (misconfigured "WRITZ_ENV" t problems).

(** ** What a target that stands promises *)

(** Blank, or what is expected once trimmed. *)
Definition blank_or (P : string → Prop) (v : option string) : Prop := ∀ s, filled v = Some s → P s.
Definition blank (v : option string) : Prop := filled v = None.

Record consistent (t : DeployTarget) (env : RawTargetEnv) : Prop := {
  c_bitcoin : t ≠ t_local → blank_or (λ n, normalizedBitcoin n = expected_bitcoin t) (bitcoinNetwork env);
  c_passphrase : t ≠ t_local → blank_or (λ p, p = expected_passphrase t) (networkPassphrase env);
  c_vault : t ≠ t_local → ¬ blank (defindexVaultId env);
  c_rpc : t = t_mainnet → blank_or (λ u, on_test_network u = false) (stellarRpcUrl env);
  c_keys : t = t_mainnet → blank (protocolSigningKeyWif env) ∧ blank (kmsKeyId env);
  c_lending : t = t_mainnet → Forall (λ v, blank v.2) (lending env);
  c_cors : t = t_mainnet → ∃ o, filled (corsOrigin env) = Some o ∧ o ≠ "*";
}.

Lemma problem_if_nil v bad text : problem_if v bad text = [] ↔ ∀ s, v = Some s → bad s = false.
Proof.
  unfold problem_if. destruct v as [s|]; [|by split]. destruct (bad s) eqn:E; split; try done.
  - intros H. by rewrite (H s eq_refl) in E.
  - by intros _ ? [= <-].
Qed.

Lemma lending_conflicts_nil vars : lending_conflicts vars = [] ↔ Forall (λ v, blank v.2) vars.
Proof.
  unfold lending_conflicts. induction vars as [|v vars IH]; [done|]. rewrite bind_cons, app_nil, problem_if_nil, IH, Forall_cons.
  apply and_iff_compat_r. unfold blank. destruct (filled v.2) as [s|]; split; try done. intros H. by specialize (H s eq_refl).
Qed.

Lemma network_conflicts_nil t env :
  network_conflicts t env = [] ↔
  blank_or (λ n, normalizedBitcoin n = expected_bitcoin t) (bitcoinNetwork env) ∧
  blank_or (λ p, p = expected_passphrase t) (networkPassphrase env) ∧ ¬ blank (defindexVaultId env).
Proof.
  unfold network_conflicts, blank_or. rewrite !app_nil, !problem_if_nil.
  setoid_rewrite negb_false_iff. setoid_rewrite bool_decide_eq_true.
  do 2 apply and_iff_compat_l. unfold blank. destruct (filled (defindexVaultId env)); split; by intros.
Qed.

Lemma mainnet_conflicts_nil env :
  mainnet_conflicts env = [] ↔
  blank_or (λ u, on_test_network u = false) (stellarRpcUrl env) ∧
  (blank (protocolSigningKeyWif env) ∧ blank (kmsKeyId env)) ∧ Forall (λ v, blank v.2) (lending env) ∧
  ∃ o, filled (corsOrigin env) = Some o ∧ o ≠ "*".
Proof.
  unfold mainnet_conflicts. rewrite !app_nil, !problem_if_nil, lending_conflicts_nil. unfold blank_or, blank.
  assert (∀ v : option string, (∀ s : string, v = Some s → true = false) ↔ v = None) as Hb.
  { intros [s|]; split; try done. intros H. by specialize (H s eq_refl). }
  rewrite !Hb. rewrite <- !(assoc and).
  do 4 apply and_iff_compat_l. destruct (filled (corsOrigin env)) as [o|].
  - case_bool_decide; split; try done.
    + intros (? & [= <-] & ?). done.
    + intros _. by exists o.
  - split; [done|by intros (? & ? & _)].
Qed.

(** A relayer starts as a target exactly when nothing in its environment
    contradicts it: on a real target the Bitcoin network and the passphrase, where
    given, are the target's and the vault is named; on mainnet the RPC is no test
    network, no signing key and no lending value is set, and the origins are
    named. *)
Theorem target_stands_iff_consistent env t :
  assertDeployTarget env = Ok t ↔ resolveDeployTarget (target env) = Ok t ∧ consistent t env.
Proof.
  unfold assertDeployTarget, findTargetConflicts. destruct (resolveDeployTarget (target env)) as [t'|e]; cbn [mbind result_bind];
    [|split; [done|by intros [? _]]].
  destruct t'; cbn.
  - split; [intros [= <-]; by split|by intros [? _]].
  - case_bool_decide as Hp.
    + apply network_conflicts_nil in Hp as (? & ? & ?). split; [intros [= <-]; split; [done|by split]|by intros [? _]].
    + split; [done|]. intros [[= <-] []]. destruct Hp. apply network_conflicts_nil. auto.
  - case_bool_decide as Hp.
    + apply app_nil in Hp as [(? & ? & ?)%network_conflicts_nil (? & ? & ? & ?)%mainnet_conflicts_nil].
      split; [intros [= <-]; split; [done|by split]|by intros [? _]].
    + split; [done|]. intros [[= <-] []]. destruct Hp. apply app_nil.
      split; [apply network_conflicts_nil|apply mainnet_conflicts_nil]; auto.
Qed.
