(* ===== verification/RelayerConfig.v ===== *)
(** * The relayer's configuration ([relayer/src/config.ts])

    How the environment becomes a configuration, or a refusal to start. The
    environment is a map from variable names; a number that may be fractional
    is the double [Number] reads. *)

From Stdlib Require Import Floats.SpecFloat.
From S2P Require Import Prelude JsData JsJson Payment JsNumber Esplora DeployTarget.

Inductive boot_error : Type :=
| Refused (message : string)
| FeeRateOrder (maximum minimum : double)
| NotAnInteger.   (* [BigInt] of an infinity *)

Inductive BitcoinNetwork : Type := btc_mainnet | btc_signet.

#[global] Instance BitcoinNetwork_eq_dec : EqDecision BitcoinNetwork.
Proof. solve_decision. Defined.

Record FaucetConfig : Type := {
  fct_wif : option string;
  fct_enabled : bool;
  fct_amountSat : Z;
  fct_dailyCap : Z;
  fct_ipClaimsPerWindow : Z;
  fct_ipWindowHours : double;
  fct_minFeeRate : double;
  fct_maxFeeRate : double;
  fct_feeTargetBlocks : Z;
  fct_rateLimit : Z;
  fct_rateWindowMs : Z;
  fct_pollarSecretKey : option string;
  fct_pollarApplicationId : option string;
  fct_pollarApiUrl : string;
  fct_allowEmail : bool;
}.

Record CctpRelayConfig : Type := {
  rly_evmKey : option string;
  rly_enabled : bool;
  rly_rpcUrl : string;
  rly_irisUrl : string;
  rly_confirmTimeoutMinutes : double;
  rly_dailyCap : Z;
  rly_maxOpen : Z;
  rly_mintLookbackBlocks : Z;
  rly_mintIndexerUrl : string;
  rly_rateLimit : Z;
  rly_rateWindowMs : Z;
}.

(** A number read with [parseInt] is [None] when it is NaN. *)
Record Config : Type := {
  cf_target : DeployTarget;
  cf_port : option Z;
  cf_bitcoinNetwork : BitcoinNetwork;
  cf_esploraBaseUrl : string;
  cf_corsOrigin : string;
  cf_defaultConfirmations : option Z;
  cf_maxConfirmations : option Z;
  cf_requestTimeoutMs : option Z;
  cf_esploraFallbackUrl : option string;
  cf_esploraRetries : option Z;
  cf_trustProxyHops : option Z;
  cf_spvProofRateLimit : option Z;
  cf_spvProofRateWindowMs : option Z;
  cf_spvProofCacheMaxEntries : option Z;
  cf_spvProofCacheTtlMs : option Z;
  cf_depositStatusRateLimit : option Z;
  cf_depositStatusRateWindowMs : option Z;
  cf_timelineRateLimit : option Z;
  cf_timelineRateWindowMs : option Z;
  cf_horizonUrl : string;
  cf_soroswapRouterId : string;
  cf_cctpTokenMessengerMinterId : string;
  cf_onboardingEventsRateLimit : option Z;
  cf_onboardingEventsRateWindowMs : option Z;
  cf_stellarRpcUrl : string;
  cf_networkPassphrase : string;
  cf_adminSecret : option string;
  cf_writzLendId : string;
  cf_relayerSecret : option string;
  cf_kmsKeyId : option string;
  cf_protocolSigningKeyWif : option string;
  cf_releaseFeeSat : option Z;
  cf_repayWatcherPollIntervalMs : option Z;
  cf_writzLendDeployLedger : option Z;
  cf_lendEventsPollIntervalMs : option Z;
  cf_defindexApiKey : option string;
  cf_defindexApiUrl : string;
  cf_defindexVaultId : string;
  cf_vaultWatcherPollIntervalMs : option Z;
  cf_bitcoinSpvId : string;
  cf_spvSyncFromHeight : option (option Z);
  cf_spvSyncIntervalMs : option Z;
  cf_spvMaxFeeStroops : Z;
  cf_relayerMinBalanceStroops : Z;
  cf_faucet : FaucetConfig;
  cf_cctpRelay : CctpRelayConfig;
}.

Definition ESPLORA_URLS (n : BitcoinNetwork) : string :=
  match n with btc_mainnet => "https://mempool.space/api" | btc_signet => "https://mempool.space/signet/api" end.

Definition TESTNET_RPC : string := "https://soroban-testnet.stellar.org".
Definition TESTNET_HORIZON : string := "https://horizon-testnet.stellar.org".
Definition TESTNET_SOROSWAP_ROUTER : string := "CCJUD55AG6W5HAI5LRVNKAE5WDP5XGZBUDS5WNTIVDU7O264UZZE7BRD".
Definition TESTNET_CCTP_TMM : string := "CDNG7HXAPBWICI2E3AUBP3YZWZELJLYSB6F5CC7WLDTLTHVM74SLRTHP".

(** [Math.round(xlm * 10_000_000)] as a [BigInt] *)
Definition xlmToStroops (xlm : double) : result boot_error Z :=
  of_option (math_round (times xlm (of_int 10000000))) NotAnInteger.

(** [Number.isInteger(x)], and its value *)
Definition as_integer (x : double) : option Z :=
  match x with
  | S754_zero _ => Some 0
  | S754_finite s m e =>
      let a := if s then Z.neg m else Z.pos m in
      if 0 <=? e then Some (a * 2 ^ e)
      else if a mod 2 ^ (- e) =? 0 then Some (a / 2 ^ (- e)) else None
  | _ => None
  end.

(** [/^0x[0-9a-fA-F]{64}$/] *)
Definition is_evm_key (s : string) : bool :=
  match chars s with "0"%char :: "x"%char :: cs => (zlen cs =? 64) && forallb is_hex_char cs | _ => false end.

Definition startsWith (p s : string) : bool := String.prefix p s.

Section env.
Context (env : string → option string).

(** [getEnv(key, fallback)] *)
Definition getEnv (key fallback : string) : string := default fallback (env key).

Definition intEnv (key fallback : string) : option Z := parseInt10 (getEnv key fallback).

Definition positiveIntEnv (key fallback : string) : result boot_error Z :=
  let raw := trim (getEnv key fallback) in
  if some_digits (chars raw) && (1 <=? dec_value (chars raw)) && (dec_value (chars raw) <? 2 ^ 53)
  then Ok (dec_value (chars raw))
  else Err (Refused (key +:+ " must be a positive integer, got: " +:+ raw)).

Definition positiveNumberEnv (key fallback : string) : result boot_error double :=
  let raw := trim (getEnv key fallback) in
  let n := js_Number raw in
  if bool_decide (raw = "") || negb (is_finite n) || negb (is_positive n)
  then Err (Refused (key +:+ " must be a positive number, got: " +:+ raw)) else Ok n.

Definition optionalLedger (name : string) : result boot_error (option Z) :=
  match filled (env name) with
  | None => Ok None
  | Some raw =>
      match as_integer (js_Number raw) with
      | Some ledger =>
          if 0 <? ledger then Ok (Some ledger)
          else Err (Refused (name +:+ " must be a positive ledger sequence, got: " +:+ raw))
      | None => Err (Refused (name +:+ " must be a positive ledger sequence, got: " +:+ raw))
      end
  end.

(** [a ?? b] *)
Definition or_else (a b : option string) : option string := match a with Some _ => a | None => b end.

(** [getEnv(key, "true").trim().toLowerCase() !== "false"] *)
Definition switched_on (key : string) : bool := negb (bool_decide (toLowerCase (trim (getEnv key "true")) = "false")).

Definition bitcoin_network (raw : string) : result boot_error BitcoinNetwork :=
  if bool_decide (raw = "mainnet") then Ok btc_mainnet
  else if bool_decide (raw = "testnet" ∨ raw = "signet") then Ok btc_signet
  else Err (Refused ("BITCOIN_NETWORK must be " +:+ quoted "mainnet" +:+ " or " +:+ quoted "signet" +:+ ", got: " +:+ raw)).

(** What is checked against the target. *)
Definition target_env : RawTargetEnv := {|
  target := env "WRITZ_ENV";
  bitcoinNetwork := Some (getEnv "BITCOIN_NETWORK" "mainnet");
  networkPassphrase := Some (getEnv "STELLAR_NETWORK_PASSPHRASE" TESTNET_PASSPHRASE);
  stellarRpcUrl := Some (getEnv "STELLAR_RPC_URL" TESTNET_RPC);
  corsOrigin := Some (getEnv "CORS_ORIGIN" "*");
  defindexVaultId := Some (getEnv "DEFINDEX_VAULT_ID" "");
  kmsKeyId := env "KMS_KEY_ID";
  protocolSigningKeyWif := env "PROTOCOL_SIGNING_KEY";
  lending := [
    ("ADMIN_SECRET", env "ADMIN_SECRET");
    ("RELAYER_SECRET", env "RELAYER_SECRET");
    ("WRITZ_LEND_ID", or_else (env "WRITZ_LEND_ID") (env "PRIVATE_LEND_ID"));
    ("WRITZ_LEND_DEPLOY_LEDGER", env "WRITZ_LEND_DEPLOY_LEDGER");
    ("BITCOIN_SPV_ID", env "BITCOIN_SPV_ID");
    ("FAUCET_SIGNET_WIF", env "FAUCET_SIGNET_WIF");
    ("CCTP_RELAY_EVM_KEY", env "CCTP_RELAY_EVM_KEY");
    ("POLLAR_SECRET_KEY", env "POLLAR_SECRET_KEY")];
|}.

Definition target_checked : result boot_error DeployTarget :=
  match assertDeployTarget target_env with Ok t => Ok t | Err m => Err (Refused m) end.

Definition load_faucet (faucetWif pollarSecretKey : option string) : result boot_error FaucetConfig :=
  minRate ← positiveNumberEnv "FAUCET_MIN_FEE_RATE" "2";
  maxRate ← positiveNumberEnv "FAUCET_MAX_FEE_RATE" "25";
  _ ← ensure (negb (SFltb maxRate minRate)) (FeeRateOrder maxRate minRate);
  amountSat ← positiveIntEnv "FAUCET_AMOUNT_SATS" "20000";
  dailyCap ← positiveIntEnv "FAUCET_DAILY_CAP" "300";
  ipClaimsPerWindow ← positiveIntEnv "FAUCET_IP_CLAIMS_PER_WINDOW" "20";
  ipWindowHours ← positiveNumberEnv "FAUCET_IP_WINDOW_HOURS" "1";
  feeTargetBlocks ← positiveIntEnv "FAUCET_FEE_TARGET_BLOCKS" "3";
  rateLimit ← positiveIntEnv "FAUCET_RATE_LIMIT" "30";
  rateWindowMs ← positiveIntEnv "FAUCET_RATE_WINDOW_MS" "600000";
  Ok {|
    fct_wif := faucetWif;
    fct_enabled := switched_on "FAUCET_ENABLED";
    fct_amountSat := amountSat;
    fct_dailyCap := dailyCap;
    fct_ipClaimsPerWindow := ipClaimsPerWindow;
    fct_ipWindowHours := ipWindowHours;
    fct_minFeeRate := minRate;
    fct_maxFeeRate := maxRate;
    fct_feeTargetBlocks := feeTargetBlocks;
    fct_rateLimit := rateLimit;
    fct_rateWindowMs := rateWindowMs;
    fct_pollarSecretKey := pollarSecretKey;
    fct_pollarApplicationId := filled (env "POLLAR_APPLICATION_ID");
    fct_pollarApiUrl := trim (getEnv "POLLAR_API_URL" "https://server.api.pollar.xyz/v3");
    fct_allowEmail := bool_decide (toLowerCase (trim (getEnv "FAUCET_ALLOW_EMAIL" "false")) = "true");
  |}.

Definition load_relay (cctpRelayKey : option string) : result boot_error CctpRelayConfig :=
  confirmTimeoutMinutes ← positiveNumberEnv "CCTP_RELAY_CONFIRM_TIMEOUT_MINUTES" "30";
  dailyCap ← positiveIntEnv "CCTP_RELAY_DAILY_CAP" "200";
  maxOpen ← positiveIntEnv "CCTP_RELAY_MAX_IN_FLIGHT" "50";
  mintLookbackBlocks ← positiveIntEnv "CCTP_RELAY_MINT_LOOKBACK_BLOCKS" "10000";
  rateLimit ← positiveIntEnv "CCTP_RELAY_RATE_LIMIT" "30";
  rateWindowMs ← positiveIntEnv "CCTP_RELAY_RATE_WINDOW_MS" "600000";
  Ok {|
    rly_evmKey := cctpRelayKey;
    rly_enabled := switched_on "CCTP_RELAY_ENABLED";
    rly_rpcUrl := getEnv "CCTP_RELAY_RPC_URL" "https://sepolia.base.org";
    rly_irisUrl := getEnv "CCTP_IRIS_URL" "https://iris-api-sandbox.circle.com";
    rly_confirmTimeoutMinutes := confirmTimeoutMinutes;
    rly_dailyCap := dailyCap;
    rly_maxOpen := maxOpen;
    rly_mintLookbackBlocks := mintLookbackBlocks;
    rly_mintIndexerUrl := trim (getEnv "CCTP_RELAY_MINT_INDEXER_URL" "https://base-sepolia.blockscout.com/api");
    rly_rateLimit := rateLimit;
    rly_rateWindowMs := rateWindowMs;
  |}.

(** [process.env[key]?.trim() || fallback] *)
Definition filledEnv (key fallback : string) : string := default fallback (filled (env key)).

Definition config_of (t : DeployTarget) (network : BitcoinNetwork) (faucet : FaucetConfig) (cctpRelay : CctpRelayConfig)
    (deployLedger : option Z) (maxFee minBalance : Z) : Config := {|
  cf_target := t;
  cf_port := intEnv "PORT" "3000";
  cf_bitcoinNetwork := network;
  cf_esploraBaseUrl := getEnv "ESPLORA_URL" (ESPLORA_URLS network);
  cf_corsOrigin := getEnv "CORS_ORIGIN" "*";
  cf_defaultConfirmations := intEnv "DEFAULT_CONFIRMATIONS" "6";
  cf_maxConfirmations := intEnv "MAX_CONFIRMATIONS" "20";
  cf_requestTimeoutMs := intEnv "REQUEST_TIMEOUT_MS" "10000";
  cf_esploraFallbackUrl := present (env "ESPLORA_FALLBACK_URL");
  cf_esploraRetries := intEnv "ESPLORA_RETRIES" "2";
  cf_trustProxyHops := intEnv "TRUST_PROXY_HOPS" "1";
  cf_spvProofRateLimit := intEnv "SPV_PROOF_RATE_LIMIT" "60";
  cf_spvProofRateWindowMs := intEnv "SPV_PROOF_RATE_WINDOW_MS" "60000";
  cf_spvProofCacheMaxEntries := intEnv "SPV_PROOF_CACHE_MAX_ENTRIES" "1000";
  cf_spvProofCacheTtlMs := intEnv "SPV_PROOF_CACHE_TTL_MS" "3600000";
  cf_depositStatusRateLimit := intEnv "DEPOSIT_STATUS_RATE_LIMIT" "120";
  cf_depositStatusRateWindowMs := intEnv "DEPOSIT_STATUS_RATE_WINDOW_MS" "60000";
  cf_timelineRateLimit := intEnv "TIMELINE_RATE_LIMIT" "60";
  cf_timelineRateWindowMs := intEnv "TIMELINE_RATE_WINDOW_MS" "60000";
  cf_horizonUrl := filledEnv "HORIZON_URL" TESTNET_HORIZON;
  cf_soroswapRouterId := filledEnv "SOROSWAP_ROUTER_ID" TESTNET_SOROSWAP_ROUTER;
  cf_cctpTokenMessengerMinterId := filledEnv "CCTP_TOKEN_MESSENGER_MINTER_ID" TESTNET_CCTP_TMM;
  cf_onboardingEventsRateLimit := intEnv "ONBOARDING_EVENTS_RATE_LIMIT" "60";
  cf_onboardingEventsRateWindowMs := intEnv "ONBOARDING_EVENTS_RATE_WINDOW_MS" "600000";
  cf_stellarRpcUrl := getEnv "STELLAR_RPC_URL" TESTNET_RPC;
  cf_networkPassphrase := getEnv "STELLAR_NETWORK_PASSPHRASE" TESTNET_PASSPHRASE;
  cf_adminSecret := env "ADMIN_SECRET";
  cf_writzLendId := getEnv "WRITZ_LEND_ID" (getEnv "PRIVATE_LEND_ID" "");
  cf_relayerSecret := env "RELAYER_SECRET";
  cf_kmsKeyId := env "KMS_KEY_ID";
  cf_protocolSigningKeyWif := env "PROTOCOL_SIGNING_KEY";
  cf_releaseFeeSat := intEnv "RELEASE_FEE_SAT" "1500";
  cf_repayWatcherPollIntervalMs := intEnv "REPAY_WATCHER_POLL_INTERVAL_MS" "30000";
  cf_writzLendDeployLedger := deployLedger;
  cf_lendEventsPollIntervalMs := intEnv "LEND_EVENTS_POLL_INTERVAL_MS" "30000";
  cf_defindexApiKey := env "DEFINDEX_API_KEY";
  cf_defindexApiUrl := getEnv "DEFINDEX_API_URL" "https://api.defindex.io";
  cf_defindexVaultId := getEnv "DEFINDEX_VAULT_ID" "";
  cf_vaultWatcherPollIntervalMs := intEnv "VAULT_WATCHER_POLL_INTERVAL_MS" "30000";
  cf_bitcoinSpvId := getEnv "BITCOIN_SPV_ID" "";
  cf_spvSyncFromHeight := parseInt10 <$> present (env "SPV_SYNC_FROM_HEIGHT");
  cf_spvSyncIntervalMs := intEnv "SPV_SYNC_INTERVAL_MS" "60000";
  cf_spvMaxFeeStroops := maxFee;
  cf_relayerMinBalanceStroops := minBalance;
  cf_faucet := faucet;
  cf_cctpRelay := cctpRelay;
|}.

Definition loadConfig : result boot_error Config :=
  network ← bitcoin_network (getEnv "BITCOIN_NETWORK" "mainnet");
  t ← target_checked;
  let faucetWif := filled (env "FAUCET_SIGNET_WIF") in
  _ ← ensure (negb (bool_decide (is_Some faucetWif)) || bool_decide (network = btc_signet))
        (Refused "FAUCET_SIGNET_WIF is set but BITCOIN_NETWORK is not signet. The faucet pays Signet coins only.");
  let pollarSecretKey := filled (env "POLLAR_SECRET_KEY") in
  _ ← ensure (match pollarSecretKey with Some k => startsWith "sec_testnet_" k | None => true end)
        (Refused "POLLAR_SECRET_KEY must be a Pollar testnet secret key (sec_testnet_...). The faucet serves testnet logins only.");
  faucet ← load_faucet faucetWif pollarSecretKey;
  let cctpRelayKey := filled (env "CCTP_RELAY_EVM_KEY") in
  _ ← ensure (match cctpRelayKey with Some k => is_evm_key k | None => true end)
        (Refused "CCTP_RELAY_EVM_KEY must be a 0x-prefixed 32-byte hex private key");
  cctpRelay ← load_relay cctpRelayKey;
  deployLedger ← optionalLedger "WRITZ_LEND_DEPLOY_LEDGER";
  maxFee ← (xlm ← positiveNumberEnv "SPV_MAX_FEE_XLM" "5"; xlmToStroops xlm);
  minBalance ← (xlm ← positiveNumberEnv "RELAYER_MIN_BALANCE_XLM" "100"; xlmToStroops xlm);
  Ok (config_of t network faucet cctpRelay deployLedger maxFee minBalance).
End env.
