(* ===== verification/RelayerServer.v ===== *)
(** * What a relayer serves and runs ([relayer/src/index.ts])

    From a configuration: the routes mounted, the service index, the answer to a
    browser's origin, the background jobs, and whether the faucet and the CCTP
    relay are on ([faucet/from-config.ts], [cctp/from-config.ts]). *)

From Stdlib Require Import Floats.SpecFloat.
From S2P Require Import Prelude JsData JsMap JsJson Payment Keys JsNumber DeployTarget RelayerConfig.

(** ** The faucet and the relay *)

(** A service that is on, or the reason it is off. *)
Inductive setup (A : Type) : Type :=
| On (service : A)
| Off (disabledReason : string).
Arguments On {A}. Arguments Off {A}.

Record FaucetService : Type := {
  fs_wallet : WritzKeyPair;
  fs_amountSat : Z;
  fs_dailyCap : Z;
  fs_ipClaimsPerWindow : Z;
  fs_ipWindowMs : double;
  fs_minFeeRate : double;
  fs_maxFeeRate : double;
  fs_feeTargetBlocks : Z;
  fs_secretKey : string;
  fs_applicationId : string;
  fs_apiUrl : string;
  fs_allowEmail : bool;
}.

Inductive setup_error : Type := BadKey (e : key_error) | SameKey.

Definition no_login : string :=
  "claims require a Writz testnet app social login, and this relayer has no Pollar server key or application id configured".

Section faucet.
Context `{KeyEnv}.

Definition wallet_of (wif : string) : result setup_error WritzKeyPair :=
  match keyPairFromWif wif Keys.testnet with Ok k => Ok k | Err e => Err (BadKey e) end.

Definition faucetFromConfig (c : Config) : result setup_error (setup FaucetService) :=
  let f := cf_faucet c in
  if negb (bool_decide (cf_bitcoinNetwork c = btc_signet)) then Ok (Off "this relayer does not run on Bitcoin Signet") else
  match present (fct_wif f) with
  | None => Ok (Off "no faucet key is configured")
  | Some wif =>
      if negb (fct_enabled f) then Ok (Off "the faucet is switched off by the operator") else
      match present (fct_pollarSecretKey f), present (fct_pollarApplicationId f) with
      | Some secretKey, Some applicationId =>
          wallet ← wallet_of wif;
          _ ← (match present (cf_protocolSigningKeyWif c) with
               | Some protocol =>
                   match keyPairFromWif protocol Keys.testnet with
                   | Ok protocolPair => ensure (negb (bool_decide (kp_publicKey protocolPair = kp_publicKey wallet))) SameKey
                   | Err _ => Ok ()
                   end
               | None => Ok ()
               end);
          Ok (On {|
            fs_wallet := wallet;
            fs_amountSat := fct_amountSat f;
            fs_dailyCap := fct_dailyCap f;
            fs_ipClaimsPerWindow := fct_ipClaimsPerWindow f;
            fs_ipWindowMs := times (fct_ipWindowHours f) (of_int 3600000);
            fs_minFeeRate := fct_minFeeRate f;
            fs_maxFeeRate := fct_maxFeeRate f;
            fs_feeTargetBlocks := fct_feeTargetBlocks f;
            fs_secretKey := secretKey;
            fs_applicationId := applicationId;
            fs_apiUrl := fct_pollarApiUrl f;
            fs_allowEmail := fct_allowEmail f;
          |})
      | _, _ => Ok (Off no_login)
      end
  end.
End faucet.

Record RelayService : Type := {
  rs_privateKey : string;
  rs_rpcUrl : string;
  rs_mintLookbackBlocks : Z;
  rs_irisUrl : string;
  rs_confirmTimeoutMs : double;
  rs_dailyCap : Z;
  rs_maxOpen : Z;
  rs_pollInitialMs : Z;
  rs_pollMaxMs : Z;
  rs_mintIndexerUrl : option string;
}.

Definition cctpRelayFromConfig (c : Config) : setup RelayService :=
  let r := cf_cctpRelay c in
  if negb (lendingEnabled (cf_target c)) then Off "this relayer serves mainnet, where the relay does not run" else
  match present (rly_evmKey r) with
  | None => Off "no relay key is configured"
  | Some key =>
      if negb (rly_enabled r) then Off "the relay is switched off by the operator"
      else On {|
        rs_privateKey := key;
        rs_rpcUrl := rly_rpcUrl r;
        rs_mintLookbackBlocks := rly_mintLookbackBlocks r;
        rs_irisUrl := rly_irisUrl r;
        rs_confirmTimeoutMs := times (rly_confirmTimeoutMinutes r) (of_int 60000);
        rs_dailyCap := rly_dailyCap r;
        rs_maxOpen := rly_maxOpen r;
        rs_pollInitialMs := 3000;
        rs_pollMaxMs := 30000;
        rs_mintIndexerUrl := present (Some (rly_mintIndexerUrl r));
      |}
  end.

(** ** Routes *)

(** A method and a path. *)
Definition route : Type := string * string.

Definition mount (prefix : string) (router : list route) : list route :=
  map (λ r, (r.1, if bool_decide (r.2 = "/") then prefix else prefix +:+ r.2)) router.

Definition proofRouter : list route := [("GET", "/:txid")].
Definition depositStatusRouter : list route := [("GET", "/:txid")].
Definition timelineRouter : list route := [("GET", "/:btcTxid")].
Definition lendEventsRouter : list route := [("GET", "/export")].
Definition defindexRouter : list route :=
  [("GET", "/apy"); ("GET", "/position"); ("POST", "/deposit"); ("POST", "/withdraw")].
Definition onboardingRouter : list route := [("GET", "/"); ("POST", "/events")].
Definition metricsRouter : list route := [("GET", "/tvl"); ("GET", "/retention")].
Definition faucetRouter : list route := [("GET", "/signet"); ("GET", "/signet/nonce"); ("POST", "/signet")].
Definition cctpRouter : list route := [("GET", "/relay"); ("POST", "/relay"); ("GET", "/relay/:burnHash")].

Definition LENDING (c : Config) : bool := lendingEnabled (cf_target c).
Definition FAUCET (c : Config) : bool := LENDING c && bool_decide (cf_bitcoinNetwork c = btc_signet).
Definition CCTP_RELAY (c : Config) : bool := LENDING c.

Definition when {A} (b : bool) (l : list A) : list A := if b then l else [].

(** The routes of the app, in the order they are added. *)
Definition routes (c : Config) : list route :=
  [("GET", "/"); ("GET", "/health")] ++
  when (LENDING c) (mount "/spv-proof" proofRouter ++ mount "/deposit-status" depositStatusRouter ++
    mount "/timeline" timelineRouter ++ mount "/lend-events" lendEventsRouter) ++
  mount "/defindex" defindexRouter ++
  when (LENDING c) (mount "/metrics/onboarding" onboardingRouter) ++
  mount "/metrics" metricsRouter ++
  when (FAUCET c) (mount "/faucet" faucetRouter) ++
  when (CCTP_RELAY c) (mount "/cctp" cctpRouter).

(** [endpoints] of the service index. *)
Definition index_endpoints (c : Config) : list (string * string) :=
  [("health", "GET /health")] ++
  when (LENDING c) [
    ("spvProof", "GET /spv-proof/:txid");
    ("depositStatus", "GET /deposit-status/:txid");
    ("timeline", "GET /timeline/:btcTxid");
    ("lendEventsExport", "GET /lend-events/export")] ++
  when (FAUCET c) [
    ("signetFaucet", "GET /faucet/signet");
    ("signetFaucetNonce", "GET /faucet/signet/nonce");
    ("signetFaucetClaim", "POST /faucet/signet (Writz testnet app social login only)")] ++
  when (CCTP_RELAY c) [
    ("cctpRelay", "GET /cctp/relay");
    ("cctpRelayStart", "POST /cctp/relay");
    ("cctpRelayTransfer", "GET /cctp/relay/:burnHash")] ++
  [("defindexApy", "GET /defindex/apy");
   ("defindexPosition", "GET /defindex/position?address=G...");
   ("defindexDeposit", "POST /defindex/deposit");
   ("defindexWithdraw", "POST /defindex/withdraw");
   ("metricsTvl", "GET /metrics/tvl");
   ("metricsRetention", "GET /metrics/retention")] ++
  when (LENDING c) [
    ("metricsOnboarding", "GET /metrics/onboarding");
    ("metricsOnboardingEvent", "POST /metrics/onboarding/events")].

(** ** The origin of a request *)

(** [s.split(",")] *)
Fixpoint split_commas (cs : list ascii) : list (list ascii) :=
  match cs with
  | [] => [[]]
  | c :: cs =>
      if decide (c = ","%char) then [] :: split_commas cs
      else match split_commas cs with l :: ls => (c :: l) :: ls | [] => [[c]] end
  end.

Definition allowed_origins (allowed : string) : list string := map (λ l, trim (of_chars l)) (split_commas (chars allowed)).

(** The headers the middleware sets, and whether it answers itself (204). *)
Definition cors (c : Config) (method : string) (origin : option string) : list (string * string) * bool :=
  let allowed := cf_corsOrigin c in
  let accepted := bool_decide (allowed = "*") ||
    match present origin with Some o => bool_decide (o ∈ allowed_origins allowed) | None => false end in
  (when accepted [("Access-Control-Allow-Origin", default "*" origin);
                  ("Access-Control-Allow-Methods", "GET, POST, OPTIONS");
                  ("Access-Control-Allow-Headers", "Content-Type")],
   bool_decide (method = "OPTIONS")).

(** ** Background jobs *)

Inductive job : Type :=
| claim_data_dirs | repay_watcher | lend_event_archive | vault_watcher | header_sync
| relay_resume | relay_retry_sweep.

(** What starts, in order: the relay's jobs as its routes are mounted, the rest
    once the server listens. *)
Definition jobs (c : Config) : list job :=
  when (CCTP_RELAY c) (match cctpRelayFromConfig c with On _ => [relay_resume; relay_retry_sweep] | Off _ => [] end) ++
  when (LENDING c) [claim_data_dirs; repay_watcher; lend_event_archive] ++
  [vault_watcher] ++
  when (LENDING c) [header_sync].

(** ** What a configuration promises *)

(** The parts of a configuration that was loaded. *)
Lemma loadConfig_ok env c :
  loadConfig env = Ok c →
  ∃ network faucet relay,
    bitcoin_network (getEnv env "BITCOIN_NETWORK" "mainnet") = Ok network ∧
    resolveDeployTarget (env "WRITZ_ENV") = Ok (cf_target c) ∧ consistent (cf_target c) (target_env env) ∧
    (is_Some (filled (env "FAUCET_SIGNET_WIF")) → network = btc_signet) ∧
    (∀ k, filled (env "POLLAR_SECRET_KEY") = Some k → startsWith "sec_testnet_" k = true) ∧
    (∀ k, filled (env "CCTP_RELAY_EVM_KEY") = Some k → is_evm_key k = true) ∧
    load_faucet env (filled (env "FAUCET_SIGNET_WIF")) (filled (env "POLLAR_SECRET_KEY")) = Ok faucet ∧
    load_relay env (filled (env "CCTP_RELAY_EVM_KEY")) = Ok relay ∧
    ∃ ledger maxFee minBalance, c = config_of env (cf_target c) network faucet relay ledger maxFee minBalance.
Proof.
  unfold loadConfig. intros (network & Hn & (t & Ht & (u1 & H1 & (u2 & H2 & (faucet & Hf & (u3 & H3 & (relay & Hr &
    (ledger & Hl & (maxFee & Hm & (minBalance & Hb & E)%bind_ok)%bind_ok)%bind_ok)%bind_ok)%bind_ok)%bind_ok)%bind_ok)%bind_ok)%bind_ok)%bind_ok.
  simplify_eq. unfold target_checked in Ht. destruct (assertDeployTarget _) as [t'|] eqn:Ea; [|done]. simplify_eq.
  apply target_stands_iff_consistent in Ea as [Hres Hcons].
  exists network, faucet, relay. split_and!; [done|done|done| | | |done|done|by eexists _, _, _].
  - unfold ensure in H1. destruct (_ || _) eqn:E; [|done]. intros Hw.
    rewrite (bool_decide_true _ Hw) in E. by apply bool_decide_eq_true in E.
  - intros k Hk. rewrite Hk in H2. unfold ensure in H2. by destruct (startsWith _ k).
  - intros k Hk. rewrite Hk in H3. unfold ensure in H3. by destruct (is_evm_key k).
Qed.

Lemma load_faucet_keys env wif key f : load_faucet env wif key = Ok f → fct_wif f = wif ∧ fct_pollarSecretKey f = key.
Proof. unfold load_faucet. intros E. repeat (apply bind_ok in E as (? & _ & E)). by simplify_eq. Qed.

Lemma load_relay_key env key r : load_relay env key = Ok r → rly_evmKey r = key.
Proof. unfold load_relay. intros E. repeat (apply bind_ok in E as (? & _ & E)). by simplify_eq. Qed.

Lemma lending_blank env k v :
  consistent t_mainnet env → (k, v) ∈ lending env → blank v.
Proof. intros Hc Hin. pose proof (c_lending _ _ Hc eq_refl) as Hl. rewrite Forall_forall in Hl. by apply (Hl (k, v)). Qed.

Ltac lending_entry := repeat (first [apply list_elem_of_here | apply list_elem_of_further]).

Lemma bitcoin_network_is raw n :
  bitcoin_network raw = Ok n → normalizedBitcoin raw = match n with btc_mainnet => "mainnet" | btc_signet => "signet" end.
Proof.
  unfold bitcoin_network. case_bool_decide as Hm; [intros [= <-]; by subst|]. case_bool_decide as Hs; [|done].
  intros [= <-]. destruct Hs as [->| ->]; done.
Qed.

(** On a real target the Bitcoin network is the target's. *)
Lemma network_of_target env n t :
  bitcoin_network (getEnv env "BITCOIN_NETWORK" "mainnet") = Ok n → consistent t (target_env env) → t ≠ t_local →
  n = match t with t_mainnet => btc_mainnet | _ => btc_signet end.
Proof.
  intros Hn Hc Ht. pose proof (c_bitcoin _ _ Hc Ht) as Hb. unfold blank_or, target_env in Hb. cbn [bitcoinNetwork] in Hb.
  pose proof Hn as Hn'. unfold bitcoin_network in Hn'. revert Hn Hn' Hb. generalize (getEnv env "BITCOIN_NETWORK" "mainnet").
  intros raw Hn Hn' Hb. apply bitcoin_network_is in Hn.
  assert (filled (Some raw) = Some raw) as Hf.
  { case_bool_decide as Hm; [subst; vm_compute; done|]. case_bool_decide as Hs; [|done]. destruct Hs as [->| ->]; by vm_compute. }
  rewrite (Hb raw Hf) in Hn. by destruct t, n.
Qed.

(** C8: A mainnet relayer serves Earn only, whatever its environment: one that
    starts mounts the vault's routes and metrics and nothing else, runs the vault
    watcher alone, holds no signing key, no faucet, relay or login key and no
    lending contract, reads Bitcoin's mainnet and no test RPC, and lets a browser
    in only from an origin it names. *)
Theorem mainnet_serves_earn_only env c :
  loadConfig env = Ok c → cf_target c = t_mainnet →
  routes c = [("GET", "/"); ("GET", "/health"); ("GET", "/defindex/apy"); ("GET", "/defindex/position");
              ("POST", "/defindex/deposit"); ("POST", "/defindex/withdraw"); ("GET", "/metrics/tvl");
              ("GET", "/metrics/retention")] ∧
  jobs c = [vault_watcher] ∧ cf_bitcoinNetwork c = btc_mainnet ∧
  Forall blank [cf_adminSecret c; cf_relayerSecret c; cf_kmsKeyId c; cf_protocolSigningKeyWif c;
                Some (cf_writzLendId c); Some (cf_bitcoinSpvId c)] ∧
  fct_wif (cf_faucet c) = None ∧ fct_pollarSecretKey (cf_faucet c) = None ∧ rly_evmKey (cf_cctpRelay c) = None ∧
  filled (Some (cf_defindexVaultId c)) ≠ None ∧
  blank_or (λ p, p = MAINNET_PASSPHRASE) (Some (cf_networkPassphrase c)) ∧
  blank_or (λ u, on_test_network u = false) (Some (cf_stellarRpcUrl c)) ∧
  ∀ method origin, (cors c method origin).1 ≠ [] → ∃ o, origin = Some o ∧ o ∈ allowed_origins (cf_corsOrigin c).
Proof.
  intros Hc Ht. destruct (loadConfig_ok env c Hc) as (n & f & r & Hn & _ & Hcons & _ & _ & _ & Hf & Hr & (l & mf & mb & E)).
  rewrite Ht in *. pose proof (network_of_target _ _ _ Hn Hcons ltac:(done)) as ->.
  apply load_faucet_keys in Hf as [Hwif Hpollar]. apply load_relay_key in Hr.
  assert (∀ k v, (k, v) ∈ lending (target_env env) → blank v) as Hl by (intros k v; by apply lending_blank).
  destruct (c_keys _ _ Hcons eq_refl) as [Hkey Hkms]. cbn in Hkey, Hkms.
  assert (LENDING c = false) as Hlend by (unfold LENDING; by rewrite Ht).
  split_and!.
  - unfold routes, FAUCET, CCTP_RELAY. by rewrite Hlend.
  - unfold jobs, CCTP_RELAY. by rewrite Hlend.
  - by rewrite E.
  - rewrite E. cbn. repeat constructor; try done; unfold getEnv.
    + apply (Hl "ADMIN_SECRET"). lending_entry.
    + apply (Hl "RELAYER_SECRET"). lending_entry.
    + assert (blank (or_else (env "WRITZ_LEND_ID") (env "PRIVATE_LEND_ID"))) as Hb by (apply (Hl "WRITZ_LEND_ID"); lending_entry).
      unfold or_else in Hb. destruct (env "WRITZ_LEND_ID"); [done|]. cbn. by destruct (env "PRIVATE_LEND_ID").
    + assert (blank (env "BITCOIN_SPV_ID")) as Hb by (apply (Hl "BITCOIN_SPV_ID"); lending_entry).
      by destruct (env "BITCOIN_SPV_ID").
  - rewrite E. cbn. rewrite Hwif. apply (Hl "FAUCET_SIGNET_WIF"). lending_entry.
  - rewrite E. cbn. rewrite Hpollar. apply (Hl "POLLAR_SECRET_KEY"). lending_entry.
  - rewrite E. cbn. rewrite Hr. apply (Hl "CCTP_RELAY_EVM_KEY"). lending_entry.
  - rewrite E. cbn. apply (c_vault _ _ Hcons). done.
  - rewrite E. cbn. by apply (c_passphrase _ _ Hcons).
  - rewrite E. cbn. by apply (c_rpc _ _ Hcons).
  - intros method origin. unfold cors. cbn. destruct (c_cors _ _ Hcons eq_refl) as (o & Ho & Hne). cbn in Ho.
    assert (cf_corsOrigin c ≠ "*") as Hstar by (rewrite E; cbn; intros Eq; rewrite Eq in Ho; vm_compute in Ho; congruence).
    rewrite (bool_decide_false _ Hstar). destruct (present origin) as [o'|] eqn:Ep; [|by intros []].
    apply present_some in Ep as [-> _].
    destruct (bool_decide (o' ∈ _)) eqn:Hin; [|by intros []]. apply bool_decide_eq_true in Hin. intros _. by exists o'.
Qed.

(** What is tested of a route's text in the index: its method and its path. *)
Definition endpoint_route (text : string) : route :=
  let '(method, rest) := run_of (λ c, negb (Ascii.eqb c " ")) (chars text) in
  let path := (run_of (λ c, negb (Ascii.eqb c " " || Ascii.eqb c "?")) (drop 1 rest)).1 in
  (of_chars method, of_chars path).

(** The service index lists every route the server has besides itself, and no
    other, each once. *)
Theorem index_lists_the_routes c :
  ("GET", "/") :: map (λ e, endpoint_route e.2) (index_endpoints c) ≡ₚ routes c ∧ NoDup (routes c) ∧
  NoDup (map fst (index_endpoints c)).
Proof.
  unfold routes, index_endpoints. assert (FAUCET c = true → LENDING c = true) as Hf by (unfold FAUCET; by intros [? _]%andb_true_iff).
  unfold CCTP_RELAY. destruct (LENDING c), (FAUCET c); try (specialize (Hf eq_refl); discriminate).
  all: split_and!; [|apply (bool_decide_unpack _); vm_compute; exact I|apply (bool_decide_unpack _); vm_compute; exact I].
  all: apply (bool_decide_unpack _); vm_compute; exact I.
Qed.

(** The faucet is on only where it can do no harm: on a relayer of Bitcoin Signet
    that is no mainnet target, switched on, with a testnet key to check logins
    with, paying from a key that is not the protocol's. *)
Theorem faucet_is_on_where_it_may `{KeyEnv} env c s :
  loadConfig env = Ok c → faucetFromConfig c = Ok (On s) →
  cf_target c ≠ t_mainnet ∧ cf_bitcoinNetwork c = btc_signet ∧ FAUCET c = true ∧ fct_enabled (cf_faucet c) = true ∧
  startsWith "sec_testnet_" (fs_secretKey s) = true ∧
  (∃ wif, keyPairFromWif wif Keys.testnet = Ok (fs_wallet s) ∧ fct_wif (cf_faucet c) = Some wif) ∧
  ∀ wif pair, cf_protocolSigningKeyWif c = Some wif → wif ≠ "" → keyPairFromWif wif Keys.testnet = Ok pair →
    kp_publicKey pair ≠ kp_publicKey (fs_wallet s).
Proof.
  intros Hc. destruct (loadConfig_ok env c Hc) as (n & f & r & Hn & _ & Hcons & _ & Hpollar & _ & Hf & _ & (l & mf & mb & E)).
  unfold faucetFromConfig. destruct (negb _) eqn:Es; [done|]. apply negb_false_iff, bool_decide_eq_true in Es.
  assert (cf_target c ≠ t_mainnet) as Ht.
  { intros Ht. rewrite Ht in *. pose proof (network_of_target _ _ _ Hn Hcons ltac:(done)) as ->. by rewrite E in Es. }
  destruct (present (fct_wif (cf_faucet c))) as [wif|] eqn:Ew; [|done]. destruct (fct_enabled _) eqn:Een; [|done]. cbn [negb].
  destruct (present (fct_pollarSecretKey _)) as [k|] eqn:Ek; [|done].
  destruct (present (fct_pollarApplicationId _)) as [app|]; [|done].
  intros (wallet & Hw & ([] & Hp & Eon)%bind_ok)%bind_ok. simplify_eq/=. unfold wallet_of in Hw.
  apply load_faucet_keys in Hf as [_ Hkey]. apply present_some in Ek as [Ek _], Ew as [Ew _].
  split_and!; [done|done| |done| |exists wif; by destruct (keyPairFromWif wif _); simplify_eq|].
  - unfold FAUCET, LENDING, lendingEnabled. by rewrite Es, !bool_decide_false, bool_decide_true by done.
  - apply Hpollar. rewrite <- Hkey. by rewrite E in Ek.
  - intros pw pair Hpw Hne Hpair. rewrite (proj2 (present_some _ _) (conj Hpw Hne)), Hpair in Hp. unfold ensure in Hp.
    destruct (negb _) eqn:En; [|done]. by apply negb_true_iff, bool_decide_eq_false in En.
Qed.

Module Demo.
Definition env_of (vars : list (string * string)) : string → option string := λ k, map_get k vars.

Definition mainnet_vars : list (string * string) := [
  ("WRITZ_ENV", "mainnet"); ("BITCOIN_NETWORK", "mainnet"); ("STELLAR_NETWORK_PASSPHRASE", MAINNET_PASSPHRASE);
  ("STELLAR_RPC_URL", "https://mainnet.sorobanrpc.com"); ("CORS_ORIGIN", "https://app.writz.xyz");
  ("DEFINDEX_VAULT_ID", "CDODNWQY54F4WS7AZ5Z3AAIWRLKBFUMXHNOFEM4H3UNCTMFK4RF2A6GU")].

Definition config : Config :=
  match loadConfig (env_of mainnet_vars) with
  | Ok c => c
  | Err _ => config_of (env_of []) t_local btc_signet
      {| fct_wif := None; fct_enabled := false; fct_amountSat := 0; fct_dailyCap := 0; fct_ipClaimsPerWindow := 0;
         fct_ipWindowHours := S754_nan; fct_minFeeRate := S754_nan; fct_maxFeeRate := S754_nan; fct_feeTargetBlocks := 0;
         fct_rateLimit := 0; fct_rateWindowMs := 0; fct_pollarSecretKey := None; fct_pollarApplicationId := None;
         fct_pollarApiUrl := ""; fct_allowEmail := false |}
      {| rly_evmKey := None; rly_enabled := false; rly_rpcUrl := ""; rly_irisUrl := "";
         rly_confirmTimeoutMinutes := S754_nan; rly_dailyCap := 0; rly_maxOpen := 0; rly_mintLookbackBlocks := 0;
         rly_mintIndexerUrl := ""; rly_rateLimit := 0; rly_rateWindowMs := 0 |} None 0 0
  end.

Lemma mainnet_serves_earn_only_witness :
  loadConfig (env_of mainnet_vars) = Ok config ∧ cf_spvMaxFeeStroops config = 50000000 ∧ jobs config = [vault_watcher].
Proof.
  assert (loadConfig (env_of mainnet_vars) = Ok config) as H by (vm_compute; reflexivity).
  split; [exact H|]. split; [vm_compute; reflexivity|].
  destruct (mainnet_serves_earn_only (env_of mainnet_vars) config H ltac:(vm_compute; reflexivity)) as (_ & Hj & _). exact Hj.
Defined.

(** One key of the testnet service left in the environment, and it does not start. *)
Example copied_key_is_refused :
  match loadConfig (env_of (("RELAYER_SECRET", "S...") :: mainnet_vars)) with Ok _ => false | Err _ => true end = true.
Proof. vm_compute. reflexivity. Qed.

(** The check trims what the configuration keeps as it is: a passphrase that is no
    network's starts as mainnet. *)
Lemma passphrase_is_checked_trimmed :
  match loadConfig (env_of (map_set "STELLAR_NETWORK_PASSPHRASE" (MAINNET_PASSPHRASE +:+ " ") mainnet_vars)) with
  | Ok c => bool_decide (cf_target c = t_mainnet) && negb (bool_decide (cf_networkPassphrase c = MAINNET_PASSPHRASE))
  | Err _ => false
  end = true.
Proof. vm_compute. reflexivity. Qed.
End Demo.
