(* ===== verification/AppTarget.v ===== *)
(** * The app's build configuration ([frontend/app/src/config/target.ts], [config.ts])

    Which deployment a build of the app is for, what contradicts it, and the
    configuration a build that stands carries. The variables are those Next.js
    writes into the build. *)

From S2P Require Import Prelude JsData JsMap Esplora Receive DeployTarget RelayerConfig RelayerServer.

Record TargetProfile : Type := { pf_networkPassphrase : string; pf_siteUrl : string }.

Definition TARGET_PROFILES (t : DeployTarget) : TargetProfile :=
  match t with
  | t_local => {| pf_networkPassphrase := TESTNET_PASSPHRASE; pf_siteUrl := "https://writz.xyz" |}
  | t_testnet => {| pf_networkPassphrase := TESTNET_PASSPHRASE; pf_siteUrl := "https://testnet.writz.xyz" |}
  | t_mainnet => {| pf_networkPassphrase := MAINNET_PASSPHRASE; pf_siteUrl := "https://app.writz.xyz" |}
  end.

Record RawTargetEnv : Type := {
  ae_target : option string;
  ae_networkPassphrase : option string;
  ae_rpcUrl : option string;
  ae_horizonUrl : option string;
  ae_relayerUrl : option string;
  (** by variable name, in the order written *)
  ae_required : list (string * option string);
  ae_lendingOnly : list (string * option string);
  ae_testnetOnly : list (string * option string);
}.

Definition lendingEnabled (t : DeployTarget) : bool := negb (bool_decide (t = t_mainnet)).

Definition resolveDeployTarget (raw : option string) : result string DeployTarget := resolve "NEXT_PUBLIC_WRITZ_ENV" raw.

(** [/^0[23][0-9a-fA-F]{64}$/] *)
Definition is_pubkey_hex (s : string) : bool :=
  match chars s with
  | "0"%char :: c :: cs => (Ascii.eqb c "2" || Ascii.eqb c "3") && (zlen cs =? 64) && forallb is_hex_char cs
  | _ => false
  end.

(** [/^C[A-Z2-7]{55}$/] *)
Definition is_contract_id (s : string) : bool :=
  match chars s with
  | "C"%char :: cs => (zlen cs =? 55) && forallb (λ c, in_range "A" "Z" c || in_range "2" "7" c) cs
  | _ => false
  end.

Definition malformed (name v : string) : list string :=
  if bool_decide (name = "NEXT_PUBLIC_PROTOCOL_BTC_PUBKEY") then
    if is_pubkey_hex v then []
    else [name +:+ " must be a 33-byte compressed public key in hex (66 characters, starting 02 or 03), got: " +:+ quoted v]
  else if endsWith "_ID" name && negb (is_contract_id v)
  then [name +:+ " must be a Stellar contract ID (C followed by 55 characters), got: " +:+ quoted v]
  else [].

Definition passphrase_conflict (t : DeployTarget) (env : RawTargetEnv) : list string :=
  let expected := pf_networkPassphrase (TARGET_PROFILES t) in
  problem_if (filled (ae_networkPassphrase env)) (λ p, negb (bool_decide (p = expected)))
    (λ p, "NEXT_PUBLIC_NETWORK_PASSPHRASE is " +:+ quoted p +:+ ", but the " +:+ target_name t +:+ " target runs against "
          +:+ quoted expected +:+ ".").

Definition malformed_conflicts (env : RawTargetEnv) : list string :=
  ae_lendingOnly env ≫= λ v, match filled v.2 with Some s => malformed v.1 s | None => [] end.

Definition relayer_conflicts (env : RawTargetEnv) : list string :=
  match filled (ae_relayerUrl env) with
  | None => ["NEXT_PUBLIC_RELAYER_URL is not set. The mainnet target must name its own relayer explicitly rather than fall back to an empty default."]
  | Some u =>
      (if startsWith "https://" u then []
       else ["NEXT_PUBLIC_RELAYER_URL must be https on the mainnet target, got: " +:+ quoted u]) ++
      (if on_test_network u
       then ["NEXT_PUBLIC_RELAYER_URL points at a test deployment (" +:+ quoted u +:+ ") on the mainnet target."] else [])
  end.

Definition horizon_conflicts (env : RawTargetEnv) : list string :=
  match filled (ae_horizonUrl env) with
  | None => ["NEXT_PUBLIC_HORIZON_URL is not set. Without it the app reads balances from the testnet Horizon."]
  | Some u => if on_test_network u
              then ["NEXT_PUBLIC_HORIZON_URL points at a test network (" +:+ quoted u +:+ ") on the mainnet target."] else []
  end.

Definition unset (env : RawTargetEnv) : list string :=
  ae_required env ≫= λ v, match filled v.2 with
    | Some _ => [] | None => [v.1 +:+ " is not set. It must be set explicitly on the mainnet target."] end.

Definition testnet_only (env : RawTargetEnv) : list string :=
  ae_testnetOnly env ≫= λ v, problem_if (filled v.2) (λ _, true)
    (λ _, v.1 +:+ " is set. It enables a testnet-only path, so it must be unset on the mainnet target.").

Definition mainnet_rules (env : RawTargetEnv) : list string :=
  problem_if (filled (ae_rpcUrl env)) on_test_network
    (λ u, "NEXT_PUBLIC_SOROBAN_RPC_URL points at a test network (" +:+ quoted u +:+ ") on the mainnet target.") ++
  relayer_conflicts env ++ horizon_conflicts env ++ unset env ++ lending_conflicts (ae_lendingOnly env) ++ testnet_only env.

Definition findTargetConflicts (env : RawTargetEnv) : result string (list string) :=
  t ← resolveDeployTarget (ae_target env);
  match t with
  | t_local => Ok []
  | t_testnet => Ok (passphrase_conflict t env ++ malformed_conflicts env)
  | t_mainnet => Ok (passphrase_conflict t env ++ mainnet_rules env)
  end.

Definition assertDeployTarget (env : RawTargetEnv) : result string DeployTarget :=
  t ← resolveDeployTarget (ae_target env);
  problems ← findTargetConflicts env;
  if bool_decide (problems = []) then Ok t else Err (misconfigured "NEXT_PUBLIC_WRITZ_ENV" t problems).

(** ** [config.ts] *)

Record AppConfig : Type := {
  ap_target : DeployTarget;
  ap_explorerNetwork : string;
  ap_rpcUrl : string;
  ap_horizonUrl : string;
  ap_networkPassphrase : string;
  ap_usdc : string * string;
  ap_bitcoinSpv : string;
  ap_writzLend : string;
  ap_btcOracle : string;
  ap_receive : ReceiveConfig;
  ap_relayUrl : string;
  ap_destinationName : string;
  ap_relayerUrl : string;
  ap_proverUrl : string;
  ap_depositAddress : string;
  ap_vaultId : string;
  ap_earnAsset : string * string;
  ap_faucetUrl : string;
  ap_btcNetwork : string;
  ap_protocolPubkey : string;
  ap_apiUrl : string;
  ap_fallbackApiUrl : string;
  ap_minConfirmations : option Z;
  ap_minDepositSats : Z;
  ap_avgBlockMinutes : Z;
  ap_pollarApiKey : string;
  ap_umamiWebsiteId : string;
}.

Definition TESTNET_BTC_ORACLE : string := "CCYOZJCOPG34LLQQ7N24YXBM7LL62R7ONMZ3G6WZAAYPB5OYKOMJRN63".
Definition TESTNET_EARN_VAULT : string := "CBMHGL7GGGHODEDDJ5H2LKJEFHJWBRSQUKOXMC4FKOFDZK5HBKW6PI2S".
Definition TESTNET_XLM_SAC : string := "CDLZFC3SYJYDZT7K67VZ75HPJVIEUVNIXF47ZG2FB2RMQQVU2HHGCYSC".
Definition TESTNET_SWAP_ASSETS : jsmap string SwapEntry := [
  ("eurc", {| se_code := "EURC"; se_issuer := "GB3Q6QDZYTHWT7E5PVS3W7FUT5GVAFC5KSZFFLPU25GO7VTC3NM2ZTVO";
              se_token := "CCUUDM434BMZMYWYDITHFXHDMIVTGGD6T2I5UKNX5BSLXLW7HVR4MCGZ" |});
  ("pyusd", {| se_code := "PYUSD"; se_issuer := "GBT2KJDKUZYZTQPCSR57VZT5NJHI4H7FOB5LT5FPRWSR7I5B4FS3UU7G";
               se_token := "CACZL3MGXXP3O6ROMB4Q36ROFULRWD6QARPE3AKWPSWMYZVF2474CBXP" |});
  ("usdt0", {| se_code := "USDT0"; se_issuer := "GCZS6UMPQDE5QVDFCJWRKLM3NR77IT7KSGEH3THSZNTWOH53E66KZ2CC";
               se_token := "CBBUGWDNLXMEFRECTRWUE2AV7VISS5ICC5OKPKY3B4ZEYXSQE2LTVKN6" |})].
Definition TESTNET_SWAP_OFFER : string := "eurc,pyusd,usdt0,xlm".

Section config.
Context (env : string → option string).

(** [process.env.k ?? fallback] *)
Definition env_or (k fallback : string) : string := default fallback (env k).

Definition BTC_NETWORK : string := normalizedBitcoin (env_or "NEXT_PUBLIC_BITCOIN_NETWORK" "signet").

Definition BLOCKSTREAM_API : string :=
  if bool_decide (BTC_NETWORK = "mainnet") then "https://blockstream.info/api"
  else "https://blockstream.info/" +:+ BTC_NETWORK +:+ "/api".

Definition writz_lend : option string := or_else (env "NEXT_PUBLIC_WRITZ_LEND_ID") (env "NEXT_PUBLIC_PRIVATE_LEND_ID").

Definition build_env : RawTargetEnv := {|
  ae_target := env "NEXT_PUBLIC_WRITZ_ENV";
  ae_networkPassphrase := env "NEXT_PUBLIC_NETWORK_PASSPHRASE";
  ae_rpcUrl := env "NEXT_PUBLIC_SOROBAN_RPC_URL";
  ae_horizonUrl := env "NEXT_PUBLIC_HORIZON_URL";
  ae_relayerUrl := env "NEXT_PUBLIC_RELAYER_URL";
  ae_required := [
    ("NEXT_PUBLIC_EARN_ASSET_ISSUER", env "NEXT_PUBLIC_EARN_ASSET_ISSUER");
    ("NEXT_PUBLIC_EARN_VAULT_ID", env "NEXT_PUBLIC_EARN_VAULT_ID")];
  ae_lendingOnly := [
    ("NEXT_PUBLIC_BITCOIN_SPV_ID", env "NEXT_PUBLIC_BITCOIN_SPV_ID");
    ("NEXT_PUBLIC_WRITZ_LEND_ID", writz_lend);
    ("NEXT_PUBLIC_PROTOCOL_BTC_PUBKEY", env "NEXT_PUBLIC_PROTOCOL_BTC_PUBKEY");
    ("NEXT_PUBLIC_BTC_ORACLE_ID", env "NEXT_PUBLIC_BTC_ORACLE_ID")];
  ae_testnetOnly := [("NEXT_PUBLIC_POLLAR_API_KEY", env "NEXT_PUBLIC_POLLAR_API_KEY")];
|}.

(** [list.split(",").map(trim).filter(Boolean)] *)
Definition comma_list (s : string) : list string := filter (λ a, a ≠ "") (allowed_origins s).

Definition receive_config (t : DeployTarget) : ReceiveConfig :=
  let main := bool_decide (t = t_mainnet) in
  let off_mainnet (s : string) := if main then "" else s in {|
  cf_usdcToken := env_or "NEXT_PUBLIC_USDC_TOKEN_ID" "";
  cf_tokenMessengerMinter := env_or "NEXT_PUBLIC_CCTP_TOKEN_MESSENGER_MINTER_ID" (off_mainnet TESTNET_CCTP_TMM);
  cf_irisUrl := env_or "NEXT_PUBLIC_CCTP_IRIS_URL"
    (if main then "https://iris-api.circle.com" else "https://iris-api-sandbox.circle.com");
  cf_destinationDomain := 6;
  cf_explorerUrl := if main then "https://basescan.org" else "https://sepolia.basescan.org";
  cf_soroswapRouter := env_or "NEXT_PUBLIC_SOROSWAP_ROUTER_ID" (off_mainnet TESTNET_SOROSWAP_ROUTER);
  cf_xlmToken := env_or "NEXT_PUBLIC_XLM_TOKEN_ID" (off_mainnet TESTNET_XLM_SAC);
  cf_swapOffer := comma_list (env_or "NEXT_PUBLIC_RECEIVE_SWAP_ASSETS" (off_mainnet TESTNET_SWAP_OFFER));
  cf_swapAssets := if main then None else Some TESTNET_SWAP_ASSETS;
|}.

Definition app_config_of (t : DeployTarget) (minDeposit : Z) : AppConfig :=
  let main := bool_decide (t = t_mainnet) in {|
  ap_target := t;
  ap_explorerNetwork := if main then "public" else "testnet";
  ap_rpcUrl := env_or "NEXT_PUBLIC_SOROBAN_RPC_URL" TESTNET_RPC;
  ap_horizonUrl := env_or "NEXT_PUBLIC_HORIZON_URL" "https://horizon-testnet.stellar.org";
  ap_networkPassphrase := env_or "NEXT_PUBLIC_NETWORK_PASSPHRASE" TESTNET_PASSPHRASE;
  ap_usdc := (env_or "NEXT_PUBLIC_USDC_CODE" "USDC", env_or "NEXT_PUBLIC_USDC_ISSUER" "");
  ap_bitcoinSpv := env_or "NEXT_PUBLIC_BITCOIN_SPV_ID" "";
  ap_writzLend := default "" writz_lend;
  ap_btcOracle := env_or "NEXT_PUBLIC_BTC_ORACLE_ID" (if main then "" else TESTNET_BTC_ORACLE);
  ap_receive := receive_config t;
  ap_relayUrl := default "" (or_else (env "NEXT_PUBLIC_CCTP_RELAY_URL") (env "NEXT_PUBLIC_RELAYER_URL"));
  ap_destinationName := if main then "Base" else "Base Sepolia";
  ap_relayerUrl := env_or "NEXT_PUBLIC_RELAYER_URL" "";
  ap_proverUrl := env_or "NEXT_PUBLIC_PROVER_URL" "";
  ap_depositAddress := env_or "NEXT_PUBLIC_DEPOSIT_ADDRESS" "";
  ap_vaultId := env_or "NEXT_PUBLIC_EARN_VAULT_ID" (if main then "" else TESTNET_EARN_VAULT);
  ap_earnAsset := (env_or "NEXT_PUBLIC_EARN_ASSET_CODE" "USDC", env_or "NEXT_PUBLIC_EARN_ASSET_ISSUER" "");
  ap_faucetUrl := env_or "NEXT_PUBLIC_EARN_FAUCET_URL" "";
  ap_btcNetwork := BTC_NETWORK;
  ap_protocolPubkey := env_or "NEXT_PUBLIC_PROTOCOL_BTC_PUBKEY" "";
  ap_apiUrl := env_or "NEXT_PUBLIC_BITCOIN_API_URL" BLOCKSTREAM_API;
  ap_fallbackApiUrl := BLOCKSTREAM_API;
  ap_minConfirmations := parseInt10 (env_or "NEXT_PUBLIC_BITCOIN_MIN_CONFIRMATIONS" (if main then "6" else "1"));
  ap_minDepositSats := minDeposit;
  ap_avgBlockMinutes := 10;
  ap_pollarApiKey := env_or "NEXT_PUBLIC_POLLAR_API_KEY" "";
  ap_umamiWebsiteId := env_or "NEXT_PUBLIC_UMAMI_WEBSITE_ID" "";
|}.

Definition load_app : result string AppConfig :=
  t ← assertDeployTarget build_env;
  minDeposit ← of_option (BigInt (env_or "NEXT_PUBLIC_MIN_DEPOSIT_SATS" (if bool_decide (t = t_mainnet) then "100000" else "5000")))
    "Cannot convert to a BigInt";
  Ok (app_config_of t minDeposit).
End config.

Definition LENDING_ENABLED (c : AppConfig) : bool := lendingEnabled (ap_target c).

(** ** What a build promises *)

(** A variable list with none of its values set. *)
Lemma rule_blank (vars : list (string * option string)) (f : string * option string → list string) k v :
  (∀ x, filled x.2 ≠ None → f x ≠ []) → (vars ≫= f) = [] → (k, v) ∈ vars → blank v.
Proof.
  intros Hf E Hin. unfold blank. destruct (filled v) as [s|] eqn:Ev; [|done]. exfalso.
  apply (Hf (k, v)); [cbn; by rewrite Ev|]. apply list_elem_of_split in Hin as (l1 & l2 & ->).
  rewrite bind_app, bind_cons, !app_nil in E. tauto.
Qed.

Lemma app_target_ok env t :
  assertDeployTarget env = Ok t →
  (t ≠ t_local → blank_or (λ p, p = pf_networkPassphrase (TARGET_PROFILES t)) (ae_networkPassphrase env)) ∧
  (t = t_mainnet → mainnet_rules env = []) ∧ (t = t_testnet → malformed_conflicts env = []).
Proof.
  unfold assertDeployTarget, findTargetConflicts. destruct (resolveDeployTarget _) as [t'|]; [|done]. cbn [mbind result_bind].
  assert (∀ t, passphrase_conflict t env = [] →
    blank_or (λ p, p = pf_networkPassphrase (TARGET_PROFILES t)) (ae_networkPassphrase env)) as Hp.
  { intros t0 H0 s Hs. unfold passphrase_conflict in H0. rewrite problem_if_nil in H0. specialize (H0 s Hs).
    by apply negb_false_iff, bool_decide_eq_true in H0. }
  destruct t'; cbn; [by intros [= <-]| |]; case_bool_decide as E; try done; apply app_nil in E as [E1 E2]; intros [= <-].
  - split_and!; [intros _; by apply Hp|done|done].
  - split_and!; [intros _; by apply Hp|done|done].
Qed.

Lemma testnet_values env k v s :
  malformed_conflicts env = [] → (k, v) ∈ ae_lendingOnly env → filled v = Some s → malformed k s = [].
Proof.
  unfold malformed_conflicts. intros E Hin Hs. apply list_elem_of_split in Hin as (l1 & l2 & Heq).
  rewrite Heq, bind_app, bind_cons, !app_nil in E. destruct E as (_ & E & _). cbn in E. by rewrite Hs in E.
Qed.


Module Demo.
Import RelayerServer.Demo.

Definition app_vars : list (string * string) := [
  ("NEXT_PUBLIC_WRITZ_ENV", "mainnet"); ("NEXT_PUBLIC_NETWORK_PASSPHRASE", MAINNET_PASSPHRASE);
  ("NEXT_PUBLIC_SOROBAN_RPC_URL", "https://mainnet.sorobanrpc.com"); ("NEXT_PUBLIC_HORIZON_URL", "https://horizon.stellar.org");
  ("NEXT_PUBLIC_RELAYER_URL", "https://api.app.writz.xyz");
  ("NEXT_PUBLIC_EARN_ASSET_ISSUER", "GA5ZSEJYB37JRC5AVCIA5MOP4RHTM335X2KGX3IHOJAPP5RE34K4KZVN");
  ("NEXT_PUBLIC_EARN_VAULT_ID", "CVAULTMAINNET")].

Definition app_config : AppConfig := app_config_of (env_of app_vars) t_mainnet 100000.


(** Two variables left out of a mainnet build, and it stands with the testnet's
    passphrase and the testnet's RPC: the check looks at what is set, and the
    defaults are the testnet's. *)
Lemma mainnet_inherits_the_testnet :
  match load_app (env_of (filter (λ v, v.1 ∉ ["NEXT_PUBLIC_NETWORK_PASSPHRASE"; "NEXT_PUBLIC_SOROBAN_RPC_URL"]) app_vars)) with
  | Ok c => bool_decide (ap_target c = t_mainnet) && bool_decide (ap_networkPassphrase c = TESTNET_PASSPHRASE) &&
            bool_decide (ap_rpcUrl c = TESTNET_RPC)
  | Err _ => false
  end = true.
Proof. vm_compute. reflexivity. Qed.
End Demo.
