(* ===== verification/Funding.v ===== *)
(** * Funding a new account ([frontend/app/src/lib/faucet/claim.ts], [lib/onboarding/autoClaim.ts])

    After a social sign-in the app asks the relayer's faucet for one payout to
    the account's Signet test key, and follows it to its first confirmation.
    The network, the key's signature and the browser's storage are [FundingEnv]. *)

From S2P Require Import Prelude JsData JsMap JsJson CctpNet BitcoinMessage Keys Payment Faucet SignetKey SignetWallet.

Definition faucetClaimMessage (nonce stellarAddress signetAddress : string) : string :=
  "Writz Signet faucet" +:+ NL +:+ "nonce:" +:+ nonce +:+ NL +:+ "stellar:" +:+ stellarAddress +:+ NL
  +:+ "signet:" +:+ signetAddress.

Record SignetClaimInput : Type := {
  ci_relayerUrl : string;
  ci_accessToken : string;
  ci_stellarAddress : string;
  ci_signetAddress : string;
  ci_signetPubkey : string;
}.

(** A payout as the relayer answered it: each field as it came. *)
Record SavedClaim : Type := {
  sv_txid : option Json;
  sv_explorerUrl : option Json;
  sv_amountSats : option Json;
}.

Inductive claim_error : Type :=
| SignetFaucetError (code message : string) (status : Z) (retryAfterSeconds : option Json) (publicFaucets : list string)
| OtherError.

(** [e.code.endsWith("_already_claimed")] *)
Definition alreadyClaimed (e : claim_error) : bool :=
  match e with SignetFaucetError code _ _ _ _ => endsWith "_already_claimed" code | OtherError => false end.

Definition fields : Type := list (string * Json).

Definition text_of (k fallback : string) (body : fields) : string :=
  match map_get k body with Some (j_string s) => s | _ => fallback end.

Definition number_of_field (k : string) (body : fields) : option Json :=
  match map_get k body with Some (j_number z) => Some (j_number z) | Some (j_decimal t) => Some (j_decimal t) | _ => None end.

Definition texts_of (k : string) (body : fields) : list string :=
  match map_get k body with
  | Some (j_array l) => omap (λ j, match j with j_string s => Some s | _ => None end) l
  | _ => []
  end.

(** What [call] makes of an answer. A body that is no JSON counts as empty, and
    one that is [null] throws where it is read. *)
Definition call_answer (r : http Json) : result claim_error fields :=
  match r with
  | fetch_threw => Err (SignetFaucetError "network_error" "The Writz faucet could not be reached. Try again shortly." 0 None [])
  | answered status body =>
      let body := default (j_object []) body in
      match body with
      | j_null => Err OtherError
      | _ =>
          let fs := match body with j_object fs => fs | _ => [] end in
          if res_ok status then Ok fs
          else Err (SignetFaucetError (text_of "error" "faucet_error" fs)
                     (text_of "message" ("The Writz faucet answered " +:+ z_to_string status +:+ ".") fs)
                     status (number_of_field "retryAfterSeconds" fs) (texts_of "publicFaucets" fs))
      end
  end.

Class FundingEnv (W : Type) : Type := {
  fe_get : string → W → http Json * W;
  fe_post : string → string → W → http Json * W;
  fe_sign : string → W → result () string * W;
  fe_balance : W → result () Z * W;
  fe_confirmed : option Json → W → result () bool * W;
  fe_saved : W → option SavedClaim;
  fe_save : SavedClaim → W → W;
  fe_sleep : Z → W → W;
  fe_aborted : W → bool;
}.

(** The body of the claim, in the order it is written. *)
Definition claim_body (i : SignetClaimInput) (nonce : string) (keySig : string) : Json :=
  j_object [
    ("pollarAccessToken", j_string (ci_accessToken i));
    ("stellarAddress", j_string (ci_stellarAddress i));
    ("signetAddress", j_string (ci_signetAddress i));
    ("signetPubkey", j_string (ci_signetPubkey i));
    ("nonce", j_string nonce);
    ("keySig", j_string keySig)].

Section claim.
Context {W : Type} `{FundingEnv W} (i : SignetClaimInput).
Abbreviation M := (io W claim_error).

Definition faucet_base : string := strip_slashes (ci_relayerUrl i).

Definition call (f : W → http Json * W) : M fields := λ w, let '(r, w) := f w in (call_answer r, w).

(** A nonce that is no text is signed and sent as JavaScript writes it; here it
    is one the relayer does not know. *)
Definition claimSignetCoins : M SavedClaim :=
  answer ← call (fe_get (faucet_base +:+ "/faucet/signet/nonce"));
  let nonce := text_of "nonce" "undefined" answer in
  keySig ← (λ w, match fe_sign (faucetClaimMessage nonce (ci_stellarAddress i) (ci_signetAddress i)) w with
                  | (Ok s, w) => (Ok s, w) | (Err _, w) => (Err OtherError, w) end);
  paid ← call (fe_post (faucet_base +:+ "/faucet/signet") (JSON_stringify (claim_body i nonce keySig)));
  mret {| sv_txid := map_get "txid" paid; sv_explorerUrl := map_get "explorerUrl" paid;
          sv_amountSats := map_get "amountSats" paid |}.
End claim.

(** ** [autoClaim.ts] *)

Record ClaimCopy : Type := { cp_title : string; cp_message : string; cp_retryable : bool }.

Record ClaimFailure : Type := {
  cl_code : string;
  cl_copy : ClaimCopy;
  cl_retryAfterSeconds : option Json;
  cl_publicFaucets : list string;
}.

Inductive ClaimState : Type :=
| cs_idle
| cs_checking
| cs_funded (sats : Z)
| cs_claiming
| cs_sent (c : SavedClaim)
| cs_confirmed (c : SavedClaim)
| cs_failed (f : ClaimFailure).

Definition PUBLIC : list string := ["https://bitcoinsignetfaucet.com/"; "https://signet.dcorral.com/"].

Definition COPY : jsmap string ClaimCopy := [
  ("faucet_disabled", {| cp_title := "Faucet off"; cp_retryable := false;
    cp_message := "The Writz faucet is off right now. Get free test BTC from a public Signet faucet." |});
  ("faucet_empty", {| cp_title := "Faucet empty"; cp_retryable := true;
    cp_message := "The Writz faucet is out of test BTC. Get some from a public Signet faucet." |});
  ("daily_cap_reached", {| cp_title := "Daily limit reached"; cp_retryable := true;
    cp_message := "The Writz faucet paid its daily maximum. It resets at 00:00 UTC, or use a public Signet faucet now." |});
  ("already_claimed", {| cp_title := "Already funded once"; cp_retryable := false;
    cp_message := "This account already received its test BTC. The faucet pays each account once. Use a public Signet faucet for more." |});
  ("login_check_unavailable", {| cp_title := "Sign-in check unavailable"; cp_retryable := true;
    cp_message := "We could not confirm your sign-in right now. Try again in a minute, or use a public Signet faucet." |});
  ("login_expired", {| cp_title := "Sign-in expired"; cp_retryable := true;
    cp_message := "Your sign-in expired. Sign out and sign in again, then try again." |});
  ("login_provider_not_allowed", {| cp_title := "Not for email sign-in"; cp_retryable := false;
    cp_message := "Test BTC is sent automatically to Google and GitHub sign-ins. Use a public Signet faucet instead." |});
  ("busy", {| cp_title := "Try again shortly"; cp_retryable := true;
    cp_message := "The faucet is busy. Try again in a minute, or use a public Signet faucet." |});
  ("network_error", {| cp_title := "Faucet unreachable"; cp_retryable := true;
    cp_message := "The Writz faucet could not be reached. Try again shortly." |});
  ("other", {| cp_title := "Test BTC not sent"; cp_retryable := true;
    cp_message := "The faucet could not send test BTC. Try again, or use a public Signet faucet." |})].

Definition OTHER_COPY : ClaimCopy := {| cp_title := "Test BTC not sent"; cp_retryable := true;
  cp_message := "The faucet could not send test BTC. Try again, or use a public Signet faucet." |}.

Definition ALIASES : jsmap string string := [
  ("account_already_claimed", "already_claimed");
  ("stellar_address_already_claimed", "already_claimed");
  ("signet_address_already_claimed", "already_claimed");
  ("login_invalid", "login_expired");
  ("login_not_social", "login_provider_not_allowed");
  ("upstream_unavailable", "busy");
  ("broadcast_rejected", "busy");
  ("rate_limited", "busy");
  ("ip_cooldown", "busy")].

(** A code that names a member every object has, such as [toString], is not one
    the relayer sends, and is taken here as unknown. *)
Definition copy_of (code : string) : ClaimCopy := default OTHER_COPY (map_get (default code (map_get code ALIASES)) COPY).

Definition describeClaimError (e : claim_error) : ClaimFailure :=
  match e with
  | SignetFaucetError code _ _ retry faucets =>
      {| cl_code := code; cl_copy := copy_of code; cl_retryAfterSeconds := retry;
         cl_publicFaucets := if bool_decide (faucets = []) then PUBLIC else faucets |}
  | OtherError => {| cl_code := "other"; cl_copy := copy_of "other"; cl_retryAfterSeconds := None; cl_publicFaucets := PUBLIC |}
  end.

Definition isFunded (s : ClaimState) : bool :=
  match s with cs_funded _ | cs_sent _ | cs_confirmed _ => true | _ => false end.

Definition POLL_MS : Z := 15000.

(** A run: what it has shown, the last state it set, and the claims it made. *)
Record run (W : Type) : Type := mkRun {
  rn_world : W;
  rn_shown : list ClaimState;
  rn_last : ClaimState;
  rn_claims : nat;
}.
Arguments mkRun {W}. Arguments rn_world {W}. Arguments rn_shown {W}. Arguments rn_last {W}. Arguments rn_claims {W}.

Section auto.
Context {W : Type} `{FundingEnv W} (i : SignetClaimInput).

Definition set_state (s : ClaimState) (r : run W) : run W :=
  mkRun (rn_world r) (if fe_aborted (rn_world r) then rn_shown r else rn_shown r ++ [s]) s (rn_claims r).

Definition with_world (w : W) (r : run W) : run W := mkRun w (rn_shown r) (rn_last r) (rn_claims r).

(** The loop of [follow]: [None] is still waiting after [patience] polls. *)
Fixpoint follow_loop (patience : nat) (c : SavedClaim) (r : run W) : option ClaimState * run W :=
  match patience with
  | O => (None, r)
  | S patience =>
      if fe_aborted (rn_world r) then (Some (rn_last r), r)
      else
        let '(answer, w) := fe_confirmed (sv_txid c) (rn_world r) in
        match answer with
        | Ok true => let r := set_state (cs_confirmed c) (with_world w r) in (Some (rn_last r), r)
        | _ => follow_loop patience c (with_world (fe_sleep POLL_MS w) r)
        end
  end.

Definition follow (patience : nat) (c : SavedClaim) (r : run W) : option ClaimState * run W :=
  follow_loop patience c (set_state (cs_sent c) r).

(** [deps.claim()], which counts. *)
Definition make_claim (r : run W) : result claim_error SavedClaim * run W :=
  let '(paid, w) := claimSignetCoins i (rn_world r) in
  (paid, mkRun w (rn_shown r) (rn_last r) (S (rn_claims r))).

Definition runAutoClaim (patience : nat) (w : W) : option ClaimState * run W :=
  let r := mkRun w [] cs_idle 0 in
  match fe_saved w with
  | Some c => follow patience c r
  | None =>
      let r := set_state cs_checking r in
      let '(balance, w) := fe_balance (rn_world r) in
      let r := with_world w r in
      let sats := match balance with Ok sats => sats | Err _ => 0 end in
      if fe_aborted w then (Some (rn_last r), r)
      else if sats >? 0 then let r := set_state (cs_funded sats) r in (Some (rn_last r), r)
      else
        let '(paid, r) := make_claim (set_state cs_claiming r) in
        match paid with
        | Err e => let r := set_state (cs_failed (describeClaimError e)) r in (Some (rn_last r), r)
        | Ok c => follow patience c (with_world (fe_save c (rn_world r)) r)
        end
  end.
End auto.

(** ** One claim *)

(** What is saved stays, and nothing but a payout saves. *)
Class FundingLaws (W : Type) `{FundingEnv W} : Prop := {
  saved_kept : ∀ c w, fe_saved (fe_save c w) = Some c;
  get_saves_not : ∀ u w, fe_saved (fe_get u w).2 = fe_saved w;
  post_saves_not : ∀ u b w, fe_saved (fe_post u b w).2 = fe_saved w;
  sign_saves_not : ∀ m w, fe_saved (fe_sign m w).2 = fe_saved w;
  balance_saves_not : ∀ w, fe_saved (fe_balance w).2 = fe_saved w;
  confirmed_saves_not : ∀ t w, fe_saved (fe_confirmed t w).2 = fe_saved w;
  sleep_saves_not : ∀ ms w, fe_saved (fe_sleep ms w) = fe_saved w;
}.

Section once.
Context {W : Type} `{FundingEnv W} `{!FundingLaws W} (i : SignetClaimInput).

Lemma follow_loop_keeps patience c (r : run W) :
  let '(out, r') := follow_loop patience c r in
  fe_saved (rn_world r') = fe_saved (rn_world r) ∧ rn_claims r' = rn_claims r ∧
  (rn_shown r' = rn_shown r ∨ rn_shown r' = rn_shown r ++ [cs_confirmed c]) ∧
  (rn_last r' = rn_last r ∨ rn_last r' = cs_confirmed c) ∧ (∀ s, out = Some s → s = rn_last r').
Proof.
  revert r. induction patience as [|n IH]; intros r; cbn [follow_loop]; [split_and!; auto; done|].
  destruct (fe_aborted _); [split_and!; auto; by intros ? [= <-]|].
  pose proof (confirmed_saves_not (sv_txid c) (rn_world r)) as Hc. destruct (fe_confirmed _ _) as [[[]|] w]; cbn in Hc.
  - split_and!; [done|done| | |by intros ? [= <-]]; cbn; [destruct (fe_aborted w)|]; auto.
  - specialize (IH (with_world (fe_sleep POLL_MS w) r)). destruct (follow_loop n _ _) as [out r']. cbn in IH.
    by rewrite sleep_saves_not, Hc in IH.
  - specialize (IH (with_world (fe_sleep POLL_MS w) r)). destruct (follow_loop n _ _) as [out r']. cbn in IH.
    by rewrite sleep_saves_not, Hc in IH.
Qed.

(** The states a run may show, in order; a run whose page is left shows fewer. *)
Inductive path : list ClaimState → Prop :=
| path_saved c : path [cs_sent c; cs_confirmed c]
| path_funded sats : 0 < sats → path [cs_checking; cs_funded sats]
| path_refused f : path [cs_checking; cs_claiming; cs_failed f]
| path_paid c : path [cs_checking; cs_claiming; cs_sent c; cs_confirmed c].

Lemma set_shown s (r : run W) : rn_shown (set_state s r) = rn_shown r ∨ rn_shown (set_state s r) = rn_shown r ++ [s].
Proof. unfold set_state. cbn. destruct (fe_aborted _); auto. Qed.

Lemma sublist_set s (r : run W) l : rn_shown r `sublist_of` l → rn_shown (set_state s r) `sublist_of` l ++ [s].
Proof.
  intros Hs. destruct (set_shown s r) as [->| ->]; [by apply sublist_inserts_r|by apply sublist_app].
Qed.

Lemma follow_keeps patience c (r : run W) :
  let '(out, r') := follow patience c r in
  fe_saved (rn_world r') = fe_saved (rn_world r) ∧ rn_claims r' = rn_claims r ∧
  (∀ l, rn_shown r `sublist_of` l → rn_shown r' `sublist_of` l ++ [cs_sent c; cs_confirmed c]) ∧
  (rn_last r' = cs_sent c ∨ rn_last r' = cs_confirmed c) ∧ (∀ s, out = Some s → s = rn_last r').
Proof.
  unfold follow. pose proof (follow_loop_keeps patience c (set_state (cs_sent c) r)) as Hl.
  destruct (follow_loop _ _ _) as [out r']. destruct Hl as (Hs & Hn & Hshown & Hlast & Hout). split_and!; [done|done| |done|done].
  intros l Hr. change [cs_sent c; cs_confirmed c] with ([cs_sent c] ++ [cs_confirmed c]). rewrite (assoc_L (++)).
  apply (sublist_set (cs_sent c)) in Hr. destruct Hshown as [->| ->]; [by apply sublist_inserts_r|by apply sublist_app].
Qed.

Lemma claim_saves_not (w : W) : fe_saved (claimSignetCoins i w).2 = fe_saved w.
Proof.
  unfold claimSignetCoins, call, mret, io_ret, mbind, io_bind.
  pose proof (get_saves_not (faucet_base i +:+ "/faucet/signet/nonce") w) as H1. destruct (fe_get _ w) as [a w1]. cbn in H1.
  destruct (call_answer a) as [fs|]; [|done].
  pose proof (sign_saves_not (faucetClaimMessage (text_of "nonce" "undefined" fs) (ci_stellarAddress i) (ci_signetAddress i)) w1) as H2.
  destruct (fe_sign _ w1) as [[sig|] w2]; cbn in H2; [|cbn; congruence].
  pose proof (post_saves_not (faucet_base i +:+ "/faucet/signet")
    (JSON_stringify (claim_body i (text_of "nonce" "undefined" fs) sig)) w2) as H3.
  destruct (fe_post _ _ w2) as [b w3]. cbn in H3. destruct (call_answer b); cbn; congruence.
Qed.

(** The app asks the faucet for an account at most once a run, only when it
    knows of no payout and of no coins, and keeps a payout before it follows it:
    after a run that was paid, no later run asks again, however the browser was
    closed in between; and what it shows is one of the four courses of a run. *)
Theorem account_is_funded_once patience (w : W) :
  let '(out, r) := runAutoClaim i patience w in
  (rn_claims r ≤ 1)%nat ∧
  (rn_claims r = 1%nat → fe_saved w = None ∧ ∀ sats, (fe_balance w).1 = Ok sats → sats ≤ 0) ∧
  (∃ p, path p ∧ rn_shown r `sublist_of` p) ∧
  (∀ s, out = Some s → s = rn_last r) ∧
  ((∃ c, rn_last r = cs_sent c ∨ rn_last r = cs_confirmed c) →
     is_Some (fe_saved (rn_world r)) ∧
     ∀ patience', let '(_, r') := runAutoClaim i patience' (rn_world r) in rn_claims r' = 0%nat ∧ is_Some (fe_saved (rn_world r'))).
Proof.
  assert (∀ patience' (v : W), is_Some (fe_saved v) →
    let '(_, r') := runAutoClaim i patience' v in rn_claims r' = 0%nat ∧ is_Some (fe_saved (rn_world r'))) as Hlater.
  { intros n v [c Hc]. unfold runAutoClaim. rewrite Hc. pose proof (follow_keeps n c (mkRun v [] cs_idle 0)) as Hf.
    destruct (follow _ _ _) as [o r]. destruct Hf as (Hs & Hn & _). cbn in Hs, Hn. rewrite Hs, Hc. by split. }
  unfold runAutoClaim. destruct (fe_saved w) as [c|] eqn:Esaved.
  { pose proof (follow_keeps patience c (mkRun w [] cs_idle 0)) as Hf. destruct (follow _ _ _) as [out r].
    destruct Hf as (Hs & Hn & Hp & Hl & Ho). cbn in Hs, Hn. rewrite Esaved in Hs. split_and!; [lia|by rewrite Hn| |done|].
    - exists [cs_sent c; cs_confirmed c]. split; [constructor|]. by apply (Hp []).
    - intros _. assert (is_Some (fe_saved (rn_world r))) as His by (rewrite Hs; by eexists). split; [done|].
      intros n. by apply (Hlater n). }
  cbn [rn_world set_state]. pose proof (balance_saves_not w) as Hb. destruct (fe_balance w) as [balance w1]. cbn in Hb.
  set (r1 := with_world w1 (set_state cs_checking (mkRun w [] cs_idle 0))).
  assert (rn_shown r1 `sublist_of` [cs_checking]) as Hr1.
  { unfold r1. cbn. destruct (fe_aborted w); [apply sublist_nil_l|done]. }
  destruct (fe_aborted w1).
  { split_and!; [cbn; lia|done| |by intros ? [= <-]|by intros (? & [?|?])].
    eexists. split; [by eapply (path_refused (describeClaimError OtherError))|]. etransitivity; [exact Hr1|].
    apply sublist_skip, sublist_nil_l. }
  destruct (_ >? 0) eqn:Egt.
  { apply Z.gtb_lt in Egt. split_and!; [cbn; lia|done| |by intros ? [= <-]|by intros (? & [?|?])].
    eexists. split; [by apply path_funded|]. by apply (sublist_set _ _ [_]). }
  rewrite Z.gtb_ltb in Egt. apply Z.ltb_ge in Egt.
  unfold make_claim. pose proof (claim_saves_not (rn_world (set_state cs_claiming r1))) as Hclaim.
  pose proof (sublist_set cs_claiming r1 _ Hr1) as Hr2. destruct (claimSignetCoins i _) as [[c|e] w2].
  - set (r3 := with_world _ _). pose proof (follow_keeps patience c r3) as Hf. destruct (follow _ _ _) as [out r].
    destruct Hf as (Hs & Hn & Hp & Hl & Ho). cbn in Hs, Hn. rewrite saved_kept in Hs. split_and!; [lia| | |done|].
    + intros _. split; [done|]. intros sats E. cbn in E. by rewrite E in Egt.
    + eexists. split; [apply path_paid|]. by apply (Hp [_; _]).
    + intros _. assert (is_Some (fe_saved (rn_world r))) as His by (rewrite Hs; by eexists). split; [done|].
      intros n. by apply (Hlater n).
  - split_and!; [cbn; lia| | |by intros ? [= <-]|by intros (? & [?|?])].
    + intros _. split; [done|]. intros sats E. cbn in E. by rewrite E in Egt.
    + eexists. split; [apply path_refused|]. apply (sublist_set _ _ [_; _]). exact Hr2.
Qed.
End once.

(** ** A claim of the app at the relayer *)

Lemma b64_digit_is_base64 z : 0 ≤ z < 64 → is_base64 (b64_digit z) = true.
Proof. revert z. apply (zrange_forallb (λ z, is_base64 (b64_digit z)) 0 64). vm_compute. reflexivity. Qed.

Lemma b64_shape n : ∀ bs, length bs = (3 * n + 2)%nat →
  ∃ l, b64_chars bs = l ++ ["="%char] ∧ length l = (4 * n + 3)%nat ∧ forallb is_base64 l = true.
Proof.
  induction n as [|n IH]; intros [|a [|b [|c bs]]] Hl; simpl in Hl; try lia; cbn [b64_chars]; sextet_bounds.
  - eexists [_; _; _]. split_and!; [reflexivity|done|]. cbn [forallb].
    rewrite !b64_digit_is_base64 by (Z.to_euclidean_division_equations; lia). done.
  - destruct (IH bs) as (l & E & Hlen & Hall); [lia|]. rewrite E.
    eexists (_ :: _ :: _ :: _ :: l). split_and!; [reflexivity|simpl; lia|]. cbn [forallb].
    rewrite !b64_digit_is_base64 by (Z.to_euclidean_division_equations; lia). done.
Qed.

Lemma signature_is_base64 h sig : zlen sig = 64 → BASE64 (to_base64 (h :: sig)) = true.
Proof.
  intros Hs. destruct (b64_shape 21 (h :: sig)) as (l & E & Hl & Hall); [unfold zlen in Hs; simpl; lia|].
  unfold BASE64, slen, to_base64. rewrite <- chars_length, chars_of_chars, E, length_app, Hl.
  change (Z.of_nat (87 + length ["="%char]) =? 88) with true. cbn [andb].
  rewrite take_app_le, drop_app_le by lia. rewrite forallb_app. cbn [forallb]. rewrite orb_true_r, !andb_true_r.
  rewrite <- (take_drop 86 l), forallb_app in Hall. apply andb_true_iff in Hall as [H1 H2]. rewrite H1. cbn [andb].
  eapply forallb_weaken; [|exact H2]. intros c Hc. by rewrite Hc.
Qed.

(** What the relayer's [express.json] makes of a body, as [str] reads it. *)
Definition posted (fs : fields) : json_body := λ k, match map_get k fs with Some (j_string v) => Some v | _ => None end.

Lemma no_spaces_trim s : forallb is_bech32 (drop 3 (chars s)) = true → take 3 (chars s) = chars "tb1" → trim s = s ∧ s ≠ "".
Proof.
  intros Hd Ht. split; [|by intros ->]. apply trim_id. unfold string_forall. rewrite <- (take_drop 3 (chars s)), forallb_app, Ht.
  apply andb_true_intro. split; [done|]. eapply forallb_weaken; [|exact Hd]. intros c Hc.
  assert (implb (is_bech32 c) (negb (is_space c)) = true) as Hi by (apply (ascii_forallb (λ c, implb (is_bech32 c) (negb (is_space c)))); vm_compute; reflexivity).
  by rewrite Hc in Hi.
Qed.

Lemma normalized_bech32 `{PaymentLib} raw a : normalizeSignetAddress (Some raw) = Ok a →
  trim a = a ∧ a ≠ "" ∧ (length (chars a) <= 90)%nat.
Proof.
  unfold normalizeSignetAddress. set (v := if bool_decide _ then _ else _). destruct (BECH32_CHARS v) eqn:Eb; [|done]. cbn [negb].
  destruct (addressToOutputScript v testnet); [|done]. destruct (segwit_script _); [|done]. intros [= <-].
  unfold BECH32_CHARS in Eb. destruct (chars v) as [|x [|y [|z cs]]] eqn:Ev; try done. bools.
  repeat match goal with E : Ascii.eqb _ _ = true |- _ => apply Ascii.eqb_eq in E; subst end.
  assert (trim v = v ∧ v ≠ "") as [? ?] by (apply no_spaces_trim; rewrite Ev; done).
  split_and!; [done|done|]. simpl. apply Nat.leb_le in H2. lia.
Qed.

Lemma pubkey_hex_form b rest : b = x02 ∨ b = x03 → length rest = 32%nat → PUBKEY_HEX (to_hex (b :: rest)) = true.
Proof.
  intros Hb Hl. unfold PUBKEY_HEX, to_hex. rewrite chars_of_chars. cbn [hex_chars].
  assert (forallb is_hex_char (hex_chars rest) = true) as Hh.
  { eapply forallb_weaken; [|apply hex_chars_lower]. intros c Hc. by apply lower_hex_char_facts in Hc as (_ & _ & ?). }
  rewrite Hh, hex_chars_length, Hl. by destruct Hb as [->| ->].
Qed.

Lemma str_reads fs k v : map_get k fs = Some (j_string v) → trim v = v → v ≠ "" → str (posted fs) k = Ok v.
Proof. intros Hk Ht Hv. unfold str, posted. rewrite Hk, Ht. by rewrite bool_decide_false. Qed.

Lemma plain_text (p : ascii → bool) s :
  (∀ c, implb (p c) (negb (is_space c)) = true) → string_forall p s = true → trim s = s.
Proof.
  intros Hp Hs. apply trim_id. eapply forallb_weaken; [|exact Hs]. intros c Hc. specialize (Hp c). by rewrite Hc in Hp.
Qed.

Section meets.
Context {psbt : Type} `{EmbeddedLib psbt} {F : Type} `{FaucetEnv F, PaymentLib, MessageLib, KeyEnv}.
Context (settings : FaucetSettings) (self ip : string) (i : SignetClaimInput) (key : SignetKey).

(** The account as the app has it: the address and the public key of the test
    key, a Stellar account, and a login token with no space around it. *)
Record account_ready : Prop := {
  r_address : ci_signetAddress i = SignetWallet.address key;
  r_pubkey : ci_signetPubkey i = to_hex (pubkey key);
  r_key : ∃ b rest, pubkey key = b :: rest ∧ (b = x02 ∨ b = x03) ∧ length rest = 32%nat;
  r_normal : normalizeSignetAddress (Some (SignetWallet.address key)) = Ok (SignetWallet.address key);
  r_p2wpkh : pubkeyToP2WPKHAddress (pubkey key) testnet = Ok (SignetWallet.address key);
  r_other : SignetWallet.address key ≠ self;
  r_stellar : STELLAR_ACCOUNT (ci_stellarAddress i) = true;
  r_token : trim (ci_accessToken i) = ci_accessToken i ∧ ci_accessToken i ≠ "" ∧ slen (ci_accessToken i) ≤ MAX_TOKEN_LENGTH;
}.

Definition app_request (nonce keySig_ : string) : ClaimRequest := {|
  pollarAccessToken := ci_accessToken i; req_stellar := ci_stellarAddress i; signetAddress := ci_signetAddress i;
  signetPubkey := ci_signetPubkey i; req_nonce := nonce; keySig := keySig_ |}.

Lemma stellar_plain s : STELLAR_ACCOUNT s = true → trim s = s ∧ s ≠ "" ∧ length (chars s) = 56%nat.
Proof.
  unfold STELLAR_ACCOUNT. destruct (chars s) as [|c cs] eqn:E; [done|]. intros Hs. bools. apply Ascii.eqb_eq in H4. subst c.
  apply Nat.eqb_eq in H6. split_and!; [|intros ->; done|simpl; lia].
  apply (plain_text (λ c, Ascii.eqb c "G" || is_base32 c)).
  - apply (ascii_forallb (λ c, implb (Ascii.eqb c "G" || is_base32 c) (negb (is_space c)))). vm_compute. reflexivity.
  - unfold string_forall. rewrite E. cbn. eapply forallb_weaken; [|exact H5]. intros c Hc. by rewrite Hc, orb_true_r.
Qed.

Lemma app_request_parses nonce sig :
  account_ready → NONCE_FORMAT nonce = true → BASE64 sig = true →
  ∃ fs, JSON_parse (JSON_stringify (claim_body i nonce sig)) = Some (j_object fs) ∧
    parseClaimRequest (posted fs) = Ok (app_request nonce sig).
Proof.
  intros Hr Hn Hs. eexists. split.
  { rewrite JSON_round_trip; [reflexivity|]. apply object_wf.
    split; [by apply (bool_decide_unpack _); vm_compute|by repeat constructor]. }
  destruct (r_token Hr) as (Ht & Hne & Hlen). destruct (stellar_plain _ (r_stellar Hr)) as (Hst & Hsne & _).
  destruct (r_key Hr) as (b & rest & Ek & Hb & Hl). pose proof (pubkey_hex_form b rest Hb Hl) as Hpk. rewrite <- Ek, <- (r_pubkey Hr) in Hpk.
  destruct (normalized_bech32 _ _ (r_normal Hr)) as (Hat & Hane & _). rewrite <- (r_address Hr) in Hat, Hane.
  assert (string_forall is_lower_hex_char (ci_signetPubkey i) = true) as Hlow.
  { rewrite (r_pubkey Hr). unfold string_forall, to_hex. rewrite chars_of_chars. apply hex_chars_lower. }
  assert (∀ c, implb (is_lower_hex_char c) (negb (is_space c)) = true) as Hhex
    by (apply (ascii_forallb (λ c, implb (is_lower_hex_char c) (negb (is_space c)))); vm_compute; reflexivity).
  unfold NONCE_FORMAT in Hn. apply andb_true_iff in Hn as [Hn1 Hn2].
  assert (trim sig = sig) as Hst'.
  { unfold BASE64 in Hs. bools. apply (plain_text (λ c, is_base64 c || Ascii.eqb c "=")).
    - apply (ascii_forallb (λ c, implb (is_base64 c || Ascii.eqb c "=") (negb (is_space c)))). vm_compute. reflexivity.
    - unfold string_forall. rewrite <- (take_drop 86 (chars sig)), forallb_app. apply andb_true_intro. split; [|done].
      eapply forallb_weaken; [|eassumption]. intros c Hc. by rewrite Hc. }
  unfold parseClaimRequest.
  rewrite (str_reads _ "pollarAccessToken" (ci_accessToken i)) by done. cbn [mbind result_bind].
  replace (MAX_TOKEN_LENGTH <? _) with false by (symmetry; apply Z.ltb_ge; lia).
  rewrite (str_reads _ "stellarAddress" (ci_stellarAddress i)) by done. cbn [mbind result_bind]. rewrite (r_stellar Hr). cbn [negb].
  rewrite (str_reads _ "signetAddress" (ci_signetAddress i)) by done. cbn [mbind result_bind].
  rewrite (str_reads _ "signetPubkey" (ci_signetPubkey i));
    [|done|by apply (plain_text is_lower_hex_char)|by intros E; rewrite E in Hpk].
  cbn [mbind result_bind]. rewrite Hpk. cbn [negb].
  rewrite (str_reads _ "nonce" nonce); [|done|by apply (plain_text is_lower_hex_char)|by intros ->].
  cbn [mbind result_bind]. unfold NONCE_FORMAT. rewrite Hn1, Hn2. cbn [negb andb].
  rewrite (str_reads _ "keySig" sig); [|done|done|by intros ->]. cbn [mbind result_bind]. rewrite Hs. cbn [negb].
  unfold app_request. by rewrite (toLowerCase_id _ Hlow).
Qed.

Lemma zlen_utf8 t : zlen (utf8 t) = slen t.
Proof. unfold utf8, slen, zlen. by rewrite length_map, chars_length. Qed.

Lemma slen_app a b : slen (a +:+ b) = slen a + slen b.
Proof. unfold slen. rewrite <- !chars_length, chars_app, length_app. lia. Qed.

Lemma claim_message_short nonce : account_ready → NONCE_FORMAT nonce = true →
  zlen (utf8 (faucetClaimMessage nonce (ci_stellarAddress i) (ci_signetAddress i))) < 65536.
Proof.
  intros Hr Hn. unfold NONCE_FORMAT in Hn. bools. apply Z.eqb_eq in H4.
  destruct (stellar_plain _ (r_stellar Hr)) as (_ & _ & Hs). destruct (normalized_bech32 _ _ (r_normal Hr)) as (_ & _ & Ha).
  rewrite <- (r_address Hr) in Ha. rewrite chars_length in Hs, Ha. rewrite zlen_utf8. unfold faucetClaimMessage.
  rewrite !slen_app. unfold slen in *. cbn. lia.
Qed.

End meets.

Module Demo.
#[local] Existing Instances Faucet.Demo.demo_env Faucet.Demo.demo_payment Faucet.Demo.demo_message Faucet.Demo.demo_keys.

#[local] Instance lib : EmbeddedLib string := {
  sha256 bs := bs;
  isPrivate _ := true;
  pubkey_of _ := Faucet.Demo.demo_key;
  SignetWallet.p2wpkh_address _ := Faucet.Demo.demo_address;
  p2wpkh_script _ := Faucet.Demo.demo_script;
  SignetWallet.toOutputScript _ := Ok Faucet.Demo.demo_script;
  ecdsa_recoverable _ _ := (replicate 64 x07, 2);
  psbt_from s := Ok s;
  psbt_text s := s;
  first_input _ := None;
  sign_first _ s := Ok s;
  sign_payment _ _ _ := Ok ("hex", "id");
}.

Definition key : SignetKey := {|
  privkey := replicate 32 x11; pubkey := Faucet.Demo.demo_key; SignetWallet.address := Faucet.Demo.demo_address;
  SignetWallet.createdAt := j_number 0 |}.

Definition input : SignetClaimInput := {|
  ci_relayerUrl := "https://relayer/"; ci_accessToken := "token"; ci_stellarAddress := Faucet.Demo.demo_stellar;
  ci_signetAddress := Faucet.Demo.demo_address; ci_signetPubkey := to_hex Faucet.Demo.demo_key |}.

Definition nonce : string := to_hex (replicate 16 x01).

Lemma is_ready : account_ready "tb1qfaucet" input key.
Proof.
  split; try (vm_compute; reflexivity).
  - exists x02, (replicate 32 x01). split_and!; [reflexivity|by left|reflexivity].
  - intros E. discriminate.
  - split_and!; [vm_compute; reflexivity|discriminate|vm_compute; discriminate].
Qed.


(** A browser: the payout it keeps, and how many polls until it is confirmed. *)
#[local] Instance browser : FundingEnv (option SavedClaim * nat) := {
  fe_get _ w := (answered 200 (Some (j_object [("nonce", j_string nonce)])), w);
  fe_post _ _ w := (answered 200 (Some (j_object [("txid", j_string "ab"); ("amountSats", j_number 20000)])), w);
  fe_sign _ w := (Ok "sig", w);
  fe_balance w := (Err (), w);
  fe_confirmed _ w := (Ok (bool_decide (w.2 = 0%nat)), w);
  fe_saved w := w.1;
  fe_save c w := (Some c, w.2);
  fe_sleep _ w := (w.1, pred w.2);
  fe_aborted _ := false;
}.

#[local] Instance browser_laws : FundingLaws (option SavedClaim * nat).
Proof. split; by intros. Defined.

Definition first_run : option ClaimState * run (option SavedClaim * nat) := runAutoClaim input 5 (None, 2%nat).

Lemma account_is_funded_once_witness :
  match first_run.1 with Some (cs_confirmed _) => true | _ => false end = true ∧ rn_claims first_run.2 = 1%nat ∧
  rn_claims (runAutoClaim input 5 (rn_world first_run.2)).2 = 0%nat.
Proof.
  split; [vm_compute; reflexivity|]. split; [vm_compute; reflexivity|].
  pose proof (account_is_funded_once input 5 (None, 2%nat)) as H. fold first_run in H.
  destruct first_run as [out r] eqn:E. destruct H as (_ & _ & _ & _ & H).
  assert (rn_last r = cs_confirmed {| sv_txid := Some (j_string "ab"); sv_explorerUrl := None; sv_amountSats := Some (j_number 20000) |}) as Hl.
  { change r with (out, r).2. rewrite <- E. vm_compute. reflexivity. }
  destruct H as [_ H]; [eexists; right; exact Hl|]. specialize (H 5%nat). cbn [snd].
  destruct (runAutoClaim input 5 (rn_world r)) as [o r']. exact (proj1 H).
Defined.
End Demo.
