(* ===== verification/Guide.v ===== *)
(** * The guided loop ([frontend/app/src/lib/onboarding/guide.ts], [funnel.ts])

    The checklist of the five steps, and how a step reached in the browser is
    remembered and reported to the relayer once. The browser's storage and the
    relayer's answers are [GuideEnv]; stored JSON is what this code wrote. *)

From S2P Require Import Prelude JsData JsMap JsJson CctpNet Pollar DepositStatus Faucet Funnel Funding.

(** ** The checklist *)

Inductive GuideStepId : Type := g_fund | g_deposit | g_borrow | g_repay | g_release.

#[global] Instance GuideStepId_eq_dec : EqDecision GuideStepId.
Proof. solve_decision. Defined.

Inductive GuideStepState : Type := g_done | g_now | g_next.

Definition GUIDE_STEPS : list GuideStepId := [g_fund; g_deposit; g_borrow; g_repay; g_release].

Inductive loan_status : Type := l_active | l_closed | l_released | l_liquidated.

Record GuideLoan : Type := { gl_index : Z; gl_txid : string; gl_status : loan_status; gl_debtStroops : Z }.

(** A step's name and when it was reached, as the storage has it. *)
Definition Milestones : Type := list (string * Json).

Definition reached (m : Milestones) (step : string) : bool := json_truthy (map_get step m).

Record GuideFacts : Type := {
  gf_claim : ClaimState;
  gf_balanceSats : option Z;
  gf_depositPending : bool;
  gf_loan : option GuideLoan;
  gf_milestones : Milestones;
}.

Definition loan_is (p : loan_status → bool) (l : option GuideLoan) : bool :=
  match l with Some l => p (gl_status l) | None => false end.
Definition is_released (s : loan_status) : bool := match s with l_released => true | _ => false end.
Definition is_closed (s : loan_status) : bool := match s with l_closed | l_released => true | _ => false end.

(** What the facts say of each step, before the later ones imply the earlier. *)
Definition step_seen (f : GuideFacts) (s : GuideStepId) : bool :=
  let loan := gf_loan f in
  let closed := loan_is is_closed loan in
  let borrowed := reached (gf_milestones f) "borrow" || match loan with Some l => gl_debtStroops l >? 0 | None => false end in
  match s with
  | g_fund => isFunded (gf_claim f) || match gf_balanceSats f with Some b => b >? 0 | None => false end ||
              gf_depositPending f || bool_decide (is_Some loan)
  | g_deposit => bool_decide (is_Some loan)
  | g_borrow => borrowed || (closed && reached (gf_milestones f) "repay")
  | g_repay => reached (gf_milestones f) "repay" || (closed && borrowed)
  | g_release => reached (gf_milestones f) "release" || loan_is is_released loan
  end.

(** The loop from the last step down: a step done makes the one before it done. *)
Fixpoint imply (seen : list bool) : list bool :=
  match seen with
  | [] => []
  | b :: seen => let rest := imply seen in (b || match rest with b' :: _ => b' | [] => false end) :: rest
  end.

Definition done_flags (f : GuideFacts) : list bool := imply (map (step_seen f) GUIDE_STEPS).

Definition step_done (f : GuideFacts) (s : GuideStepId) : bool :=
  match s, done_flags f with
  | g_fund, b :: _ => b
  | g_deposit, _ :: b :: _ => b
  | g_borrow, _ :: _ :: b :: _ => b
  | g_repay, _ :: _ :: _ :: b :: _ => b
  | g_release, _ :: _ :: _ :: _ :: b :: _ => b
  | _, _ => false
  end.

Definition current (f : GuideFacts) : option GuideStepId :=
  snd <$> list_find (λ s, step_done f s = false) GUIDE_STEPS.

Definition guide_state (f : GuideFacts) (s : GuideStepId) : GuideStepState :=
  if step_done f s then g_done else if bool_decide (current f = Some s) then g_now else g_next.

(** The newest of the loans, the first among equals. *)
Definition guideLoan {L} (index : L → Z) (loans : list L) : option L :=
  foldl (λ best l, match best with None => Some l | Some b => if index l >? index b then Some l else best end) None loans.

(** ** Reporting a step *)

Definition APP_CHAIN_STEPS : list string := ["deposit"; "borrow"; "repay"; "release"].
Definition MILESTONES : string := "writz:onboarding:".
Definition SENT : string := "writz:funnel-sent:".

(** [read] gives nothing when there is no storage or it throws; [write] may do
    nothing; [post] is the status of the answer, nothing when it throws. *)
Class GuideEnv (W : Type) : Type := {
  ge_read : string → W → option string;
  ge_write : string → string → W → W;
  ge_post : string → string → W → option Z * W;
}.

Record StepEvent : Type := { ev_stellarAddress : string; ev_channel : string; ev_txid : option string }.

(** The module's cache, and the steps posted, oldest first. *)
Record reporter (W : Type) : Type := mkReporter {
  gr_cache : jsmap string Milestones;
  gr_world : W;
  gr_posted : list (string * StepEvent);
}.
Arguments mkReporter {W}. Arguments gr_cache {W}. Arguments gr_world {W}. Arguments gr_posted {W}.

Section report.
Context {W : Type} `{GuideEnv W}.

Definition read_json (key : string) (w : W) : option Json := raw ← present (ge_read key w); JSON_parse raw.

Definition stored_milestones (j : option Json) : Milestones := match j with Some (j_object fs) => fs | _ => [] end.

(** [milestones], which remembers what it read. *)
Definition milestones (address : string) (r : reporter W) : Milestones * reporter W :=
  match map_get address (gr_cache r) with
  | Some hit => (hit, r)
  | None =>
      let value := stored_milestones (read_json (MILESTONES +:+ address) (gr_world r)) in
      (value, mkReporter (map_set address value (gr_cache r)) (gr_world r) (gr_posted r))
  end.

Definition markMilestone (address step : string) (now : Z) (r : reporter W) : reporter W :=
  let '(m, r) := milestones address r in
  if reached m step then r
  else
    let next := map_set step (j_number now) m in
    mkReporter (map_set address next (gr_cache r))
      (ge_write (MILESTONES +:+ address) (JSON_stringify (j_object next)) (gr_world r)) (gr_posted r).

(** The steps sent for an address, as the storage has them. *)
Definition sent_steps (address : string) (w : W) : list string :=
  match read_json (SENT +:+ address) w with
  | Some (j_array l) => omap (λ j, match j with j_string s => Some s | _ => None end) l
  | _ => []
  end.

Definition event_body (step : string) (e : StepEvent) : Json :=
  j_object ([("step", j_string step); ("stellarAddress", j_string (ev_stellarAddress e)); ("channel", j_string (ev_channel e))] ++
            match present (ev_txid e) with Some t => [("txid", j_string t)] | None => [] end).

(** A status after which the step is not sent again. *)
Definition is_final (status : Z) : bool :=
  res_ok status || ((400 <=? status) && (status <? 500) && negb (status =? 429) && negb (status =? 422)).

Definition reportStep (relayerUrl step : string) (e : StepEvent) (now : Z) (r : reporter W) : bool * reporter W :=
  let address := ev_stellarAddress e in
  let r := markMilestone address step now r in
  if bool_decide (relayerUrl = "") then (false, r)
  else if bool_decide (step ∈ APP_CHAIN_STEPS) && bool_decide (present (ev_txid e) = None) then (false, r)
  else if bool_decide (step ∈ sent_steps address (gr_world r)) then (true, r)
  else
    let '(answer, w) := ge_post (strip_slashes relayerUrl +:+ "/metrics/onboarding/events")
                          (JSON_stringify (event_body step e)) (gr_world r) in
    let posted := gr_posted r ++ [(step, e)] in
    match answer with
    | None => (false, mkReporter (gr_cache r) w posted)
    | Some status =>
        let w := if is_final status
                 then ge_write (SENT +:+ address) (JSON_stringify (j_array (map j_string (sent_steps address w ++ [step])))) w
                 else w in
        (res_ok status, mkReporter (gr_cache r) w posted)
    end.
End report.

(** ** The steps are done in order *)

Definition rank (s : GuideStepId) : nat :=
  match s with g_fund => 0 | g_deposit => 1 | g_borrow => 2 | g_repay => 3 | g_release => 4 end.

Lemma step_done_later f s : step_done f s = existsb (step_seen f) (drop (rank s) GUIDE_STEPS).
Proof.
  unfold step_done, done_flags, imply, GUIDE_STEPS. cbn [map]. generalize (step_seen f). intros p.
  destruct s; cbn; rewrite ?orb_false_r; done.
Qed.

Lemma done_before f s s' : (rank s ≤ rank s')%nat → step_done f s' = true → step_done f s = true.
Proof.
  rewrite !step_done_later, !existsb_exists. intros Hr (x & Hx & Hp). exists x. split; [|done].
  replace (rank s') with (rank s + (rank s' - rank s))%nat in Hx by lia. rewrite <- drop_drop in Hx.
  apply list_elem_of_In. apply list_elem_of_In, list_elem_of_lookup in Hx as [k Hk].
  apply list_elem_of_lookup. rewrite lookup_drop in Hk. eauto.
Qed.

Lemma rank_step s : GUIDE_STEPS !! rank s = Some s.
Proof. by destruct s. Qed.

(** The checklist is one line: a step is done when it or a later one was seen, the
    steps done are those before the current one and no other, and without a
    current step all are done. *)
Theorem checklist_is_in_order f :
  (∀ s, step_done f s = existsb (step_seen f) (drop (rank s) GUIDE_STEPS)) ∧
  match current f with
  | Some c => ∀ s, step_done f s = bool_decide (rank s < rank c)%nat ∧
      guide_state f s = if decide (rank s < rank c)%nat then g_done else if decide (s = c) then g_now else g_next
  | None => ∀ s, step_done f s = true ∧ guide_state f s = g_done
  end.
Proof.
  split; [apply step_done_later|]. unfold guide_state. destruct (current f) as [c|] eqn:Ec; unfold current in Ec.
  - destruct (list_find _ _) as [[k c']|] eqn:Ef; [|done]. cbn in Ec. simplify_eq.
    apply list_find_Some in Ef as (Hk & Hc & Hbefore).
    assert (∀ s, step_done f s = bool_decide (rank s < rank c)%nat) as Hd.
    { assert (k = rank c) as -> by (do 5 (destruct k as [|k]; [by simplify_eq/=|]); done).
      intros s. case_bool_decide as Hs.
      - specialize (Hbefore (rank s) s (rank_step s) Hs). by destruct (step_done f s).
      - destruct (step_done f s) eqn:E; [|done]. rewrite (done_before f c s) in Hc; [done|lia|done]. }
    intros s. split; [apply Hd|]. rewrite Hd. case_bool_decide as Hs; [by rewrite decide_True|]. rewrite decide_False by done.
    unfold current.
    case_bool_decide as Hs'; case_decide as Hs''; simplify_eq; done.
  - destruct (list_find _ _) as [[k c']|] eqn:Ef; [done|]. apply list_find_None in Ef. rewrite Forall_forall in Ef.
    intros s. assert (step_done f s = true) as Hd.
    { assert (s ∈ GUIDE_STEPS) as Hin by (apply list_elem_of_lookup; eexists; apply rank_step).
      specialize (Ef s Hin). by destruct (step_done f s). }
    by rewrite Hd.
Qed.

(** ** A step is reported once *)

(** A storage that keeps what it is given, which the relayer does not touch. *)
Class GuideLaws (W : Type) `{GuideEnv W} : Prop := {
  read_written : ∀ k v k' w, ge_read k' (ge_write k v w) = if decide (k' = k) then Some v else ge_read k' w;
  post_keeps : ∀ u b k w, ge_read k (ge_post u b w).2 = ge_read k w;
}.

Section once.
Context {W : Type} `{GuideEnv W} `{!GuideLaws W}.

Lemma sent_written address l (w : W) :
  sent_steps address (ge_write (SENT +:+ address) (JSON_stringify (j_array (map j_string l))) w) = l.
Proof.
  unfold sent_steps, read_json. rewrite read_written, decide_True by done.
  assert (present (Some (JSON_stringify (j_array (map j_string l)))) = Some (JSON_stringify (j_array (map j_string l)))) as ->.
  { apply present_some. split; [done|]. unfold JSON_stringify. cbn. by intros. }
  cbn [mbind option_bind]. rewrite JSON_round_trip.
  - induction l as [|x l IH]; cbn; [done|]. by f_equal.
  - apply array_wf, Forall_forall. intros j (x & -> & _)%list_elem_of_fmap. done.
Qed.

Lemma sent_other address k v (w : W) : k ≠ SENT +:+ address → sent_steps address (ge_write k v w) = sent_steps address w.
Proof. intros Hk. unfold sent_steps, read_json. by rewrite read_written, decide_False by done. Qed.

Lemma prefixes_differ a b : MILESTONES +:+ a ≠ SENT +:+ b.
Proof. discriminate. Qed.

Lemma mark_keeps address step now (r : reporter W) a :
  sent_steps a (gr_world (markMilestone address step now r)) = sent_steps a (gr_world r) ∧
  gr_posted (markMilestone address step now r) = gr_posted r.
Proof.
  unfold markMilestone, milestones. destruct (map_get address (gr_cache r)) as [m|]; destruct (reached _ _); cbn;
    rewrite ?sent_other by apply prefixes_differ; done.
Qed.

Lemma sent_posted a u b (w : W) : sent_steps a (ge_post u b w).2 = sent_steps a w.
Proof. unfold sent_steps, read_json. by rewrite post_keeps. Qed.

(** A step the relayer took, or refused for good, is never posted again from this
    browser; what is true of a report is that the relayer has the step; and one it
    could not take now is posted the next time. *)
Theorem step_is_reported_once url step e now (r : reporter W) :
  url ≠ "" →
  let '(ok, r') := reportStep url step e now r in
  (ok = true → step ∈ sent_steps (ev_stellarAddress e) (gr_world r')) ∧
  (step ∈ sent_steps (ev_stellarAddress e) (gr_world r) → gr_posted r' = gr_posted r) ∧
  (step ∉ sent_steps (ev_stellarAddress e) (gr_world r) → step ∉ APP_CHAIN_STEPS ∨ present (ev_txid e) ≠ None →
     gr_posted r' = gr_posted r ++ [(step, e)]) ∧
  ∀ a s, s ∈ sent_steps a (gr_world r) → s ∈ sent_steps a (gr_world r').
Proof.
  intros Hu. unfold reportStep. rewrite (bool_decide_false (url = "")) by done. set (r1 := markMilestone _ _ _ _).
  assert (∀ a, sent_steps a (gr_world r1) = sent_steps a (gr_world r)) as Hs by (intros a; apply mark_keeps).
  assert (gr_posted r1 = gr_posted r) as Hp by apply (mark_keeps _ _ _ _ "").
  destruct (bool_decide (step ∈ APP_CHAIN_STEPS) && _) eqn:Ec.
  { bools. split_and!; [done|done| |intros a s; by rewrite Hs]. intros _ [?|?]; done. }
  destruct (bool_decide (step ∈ sent_steps _ (gr_world r1))) eqn:Hin;
    [apply bool_decide_eq_true in Hin; split_and!; [done|done|by rewrite <- Hs|intros a s; by rewrite Hs]|].
  apply bool_decide_eq_false in Hin. rewrite Hs in Hin.
  pose proof (λ a, sent_posted a (strip_slashes url +:+ "/metrics/onboarding/events") (JSON_stringify (event_body step e)) (gr_world r1)) as Hpost.
  destruct (ge_post _ _ _) as [[status|] w]; cbn in Hpost.
  - assert (∀ a s, s ∈ sent_steps a (gr_world r) → s ∈ sent_steps a (if is_final status
       then ge_write (SENT +:+ ev_stellarAddress e)
              (JSON_stringify (j_array (map j_string (sent_steps (ev_stellarAddress e) w ++ [step])))) w else w)) as Hkeep.
    { intros a s Ha. rewrite <- Hs, <- Hpost in Ha. destruct (is_final status); [|done].
      destruct (decide (a = ev_stellarAddress e)) as [->|Hne]; [rewrite sent_written; set_solver|].
      rewrite sent_other; [done|]. intros E. apply Hne. symmetry. by apply (inj (String.append SENT)). }
    split_and!; [|done|by rewrite <- Hp|exact Hkeep]. intros Hok. cbn [gr_world]. unfold is_final. rewrite Hok. cbn [orb].
    rewrite sent_written. set_solver.
  - split_and!; [done|done|by rewrite <- Hp|]. intros a s Ha. cbn. by rewrite Hpost, Hs.
Qed.
End once.

(** ** What the app posts, the relayer reads *)

Definition field_param (k : string) (fs : list (string * Json)) : query_param :=
  match map_get k fs with None => q_absent | Some (j_string s) => q_text s | Some _ => q_other end.

Definition report_of (fs : list (string * Json)) : report_body := {|
  rb_step := field_param "step" fs; rb_stellarAddress := field_param "stellarAddress" fs;
  rb_channel := field_param "channel" fs; rb_txid := field_param "txid" fs |}.

(** An event of a step the app knows, for a Stellar account and, where the chain
    can show it, a deposit's txid, is one the relayer parses as that step. *)
Theorem app_events_are_read step e :
  step ∈ REPORTED_STEPS → STELLAR_ACCOUNT (ev_stellarAddress e) = true → ev_channel e ∈ ["social"; "wallet"] →
  (step ∈ CHAIN_STEPS → ∃ t, ev_txid e = Some t ∧ is_hex64 t = true) →
  ∃ fs, JSON_parse (JSON_stringify (event_body step e)) = Some (j_object fs) ∧
    parseStepReport (report_of fs) = Ok {| sr_step := step; sr_stellarAddress := ev_stellarAddress e; sr_channel := ev_channel e;
      sr_txid := if bool_decide (step ∈ CHAIN_STEPS) then toLowerCase <$> ev_txid e else None |}.
Proof.
  intros Hstep Hst Hch Htx. eexists. split.
  { rewrite JSON_round_trip; [reflexivity|]. apply object_wf. destruct (present (ev_txid e)); cbn [app].
    - split; [by apply (bool_decide_unpack _); vm_compute|by repeat constructor].
    - split; [by apply (bool_decide_unpack _); vm_compute|by repeat constructor]. }
  unfold parseStepReport, report_of. cbn [rb_step rb_stellarAddress rb_channel rb_txid].
  set (fs := _ ++ _). assert (field_param "step" fs = q_text step) as -> by done.
  assert (field_param "stellarAddress" fs = q_text (ev_stellarAddress e)) as -> by done.
  assert (field_param "channel" fs = q_text (ev_channel e)) as -> by done.
  cbn [text_that]. rewrite (bool_decide_true (step ∈ _)), Hst by done. cbn [mbind result_bind]. rewrite (bool_decide_true (ev_channel e ∈ _)) by done.
  cbn [mbind result_bind]. case_bool_decide as Hc; [|done]. destruct (Htx Hc) as (t & Et & Hh).
  assert (field_param "txid" fs = q_text t) as ->.
  { unfold fs. rewrite Et. assert (present (Some t) = Some t) as -> by (apply present_some; split; [done|by intros ->]). done. }
  cbn [text_that]. by rewrite Hh, Et.
Qed.
