(* ===== verification/SdkContracts.v ===== *)
(** * The SDK's contract clients ([packages/sdk/src/])

    Hex ([hex.ts]), the contracts' errors ([errors.ts]), simulated reads,
    prepared and submitted transactions ([soroban.ts]), and the clients of
    bitcoin-spv ([spv.ts]) and writz-lend ([lend.ts]). The Stellar SDK and the
    RPC are [StellarLib] and [SdkRpc]; a value of a contract is what
    [scValToNative] makes of it. *)

From S2P Require Import Prelude JsData JsMap Payment JsNumber LendArchive ProofRoute ErrorText Receive.

(** ** Errors ([errors.ts]) *)

Definition SPV_ERRORS : ErrorTable := [
  (1, "NoHeaders"); (2, "InsufficientConfirmations"); (3, "ZeroMinConfirmations"); (4, "HeaderChainBroken");
  (5, "MerkleProofInvalid"); (6, "InvalidHeaderSlice"); (7, "EmptyTransaction"); (8, "InsufficientProofOfWork");
  (9, "InvalidDifficultyBits"); (10, "NotInitialized"); (11, "AlreadyInitialized"); (12, "Unauthorized");
  (13, "CheckpointNotSet"); (14, "DifficultyBelowCheckpointFloor"); (15, "AmbiguousTransactionLength");
  (16, "CheckpointAlreadySet"); (17, "InvalidCheckpoint"); (18, "TooManyHeaders"); (19, "UnknownParent");
  (20, "UnexpectedDifficulty"); (21, "TimestampTooFarInFuture"); (22, "HeaderNotFound"); (23, "NotOnBestChain");
  (24, "BlockNotAfterCheckpoint"); (25, "ReorgTooDeep"); (26, "TxidAlreadyConsumed"); (27, "NotAConsumer");
  (28, "InvalidEntryTtl")].

Definition WRITZ_LEND_ERRORS : ErrorTable := [
  (1, "AlreadyInitialized"); (2, "NotInitialized"); (3, "Unauthorized"); (4, "SpvVerificationFailed");
  (5, "OutputNotFound"); (6, "DepositTooSmall"); (7, "PositionAlreadyExists"); (8, "PositionNotFound");
  (9, "PositionNotActive"); (10, "ExceedsCollateralRatio"); (11, "InsufficientLiquidity"); (12, "RepayExceedsDebt");
  (13, "InsufficientSupply"); (14, "PositionHealthy"); (15, "Overflow"); (16, "InvalidScriptPubKey"); (17, "Paused");
  (18, "OraclePriceUnavailable"); (19, "OraclePriceStale"); (20, "InvalidUserPubkey"); (21, "ScriptPubKeyMismatch");
  (22, "InvalidTimelock"); (23, "InvalidProtocolPubkey"); (24, "ExposureCapExceeded"); (25, "InvalidKeyProof");
  (26, "ZeroShareAmount"); (27, "InvalidDepositParams"); (28, "InvalidEntryTtl"); (29, "UserKeyIsProtocolKey");
  (30, "TimelockTooSoon"); (31, "StaleBitcoinTip"); (32, "LiquidationWindowClosed"); (33, "InvalidTimelockParams")].

(** [/Error\(Contract, #(\d+)\)/], here and anywhere. *)
Definition sdk_code_here (cs : list ascii) : option (list ascii) :=
  cs ← literal (chars "Error(Contract, #") cs;
  let '(ds, cs) := digits_of cs in
  if bool_decide (ds = []) then None else _ ← literal [")"%char] cs; Some ds.

Fixpoint sdk_code_in (cs : list ascii) : option (list ascii) :=
  match sdk_code_here cs with
  | Some ds => Some ds
  | None => match cs with _ :: cs => sdk_code_in cs | [] => None end
  end.

Definition contractErrorCode (message : string) : option Z := dec_value <$> sdk_code_in (chars message).

Definition error_table (c : ContractName) : ErrorTable :=
  match c with bitcoin_spv => SPV_ERRORS | writz_lend => WRITZ_LEND_ERRORS end.

Definition contract_name (c : ContractName) : string :=
  match c with bitcoin_spv => "bitcoin-spv" | writz_lend => "writz-lend" end.

(** The errors the package throws, those of the language, and those of a
    library, with their message. [Malformed] is a value no contract gives. *)
Inductive SdkError : Type :=
| ContractError (contract : ContractName) (method : string) (code : option Z) (detail : string)
| RelayerError (message : string) (status : Z) (code : string) (retryAfterSeconds : option double) (body : option Json)
| TypeError (message : string)
| RangeError (message : string)
| Thrown (message : string)
| Malformed.

Definition errorName (contract : ContractName) (code : option Z) : option string :=
  code ≫= λ n, entry n (error_table contract).

(** [detail.split(newline)[0]] *)
Fixpoint to_newline (cs : list ascii) : list ascii :=
  match cs with c :: cs => if decide (c = newline) then [] else c :: to_newline cs | [] => [] end.

Definition contract_message (contract : ContractName) (method : string) (code : option Z) (detail : string) : string :=
  contract_name contract +:+ "." +:+ method +:+
  match code with
  | None => " failed: " +:+ of_chars (to_newline (chars detail))
  | Some n => " failed with #" +:+ z_to_string n +:+
      match errorName contract code with Some e => " " +:+ e | None => "" end
  end.

Abbreviation R := (result SdkError).

(** ** Hex ([hex.ts]) *)

(** [HEX_RE.test(hex)] *)
Definition is_hex (s : string) : bool := (slen s mod 2 =? 0) && string_forall is_hex_char s.

Definition hexToBytes (hex : string) : R (list byte) :=
  if is_hex hex then Ok (from_hex hex)
  else Err (TypeError ("not a hex string: " +:+ of_chars (take 16 (chars hex)) +:+ "...")).

Definition bytesToHex (bs : list byte) : string := to_hex bs.

Definition reverseHex (hex : string) : R string := bs ← hexToBytes hex; Ok (bytesToHex (rev bs)).

Definition isHash (hex : string) : bool := (slen hex =? 64) && string_forall is_hex_char hex.

(** ** The arguments of a call *)

(** [nativeToScVal] and [Address]; an address that is none is refused. *)
Class StellarLib (Sc : Type) : Type := {
  sc_bytes : list byte → Sc;
  sc_vec : list Sc → Sc;
  sc_u32 : Z → Sc;
  sc_i128 : Z → Sc;
  sc_address : string → result string Sc;
}.

(** What a simulation, a submission and its poll say. *)
Inductive SimAnswer : Type :=
| sim_error (error : string)
| sim_result (retval : option Native).

Class SdkRpc (Sc W : Type) : Type := {
  rpc_simulate : string → string → list Sc → W → result string SimAnswer * W;
  rpc_getAccount : string → W → result string () * W;
  rpc_prepare : string → string → string → list Sc → W → result string string * W;
  rpc_fromXDR : string → string → result string string;
  rpc_send : string → W → result string (string * string) * W;
  rpc_poll : string → W → result string (string * Z * option Native) * W;
}.

Section calls.
Context {Sc : Type} `{StellarLib Sc} {W : Type} `{SdkRpc Sc W}.
Abbreviation M := (io W SdkError).

Definition bytes (hex : string) : R Sc := bs ← hexToBytes hex; Ok (sc_bytes bs).

Definition hash (hex what : string) : R Sc :=
  if isHash hex then bytes hex else Err (TypeError (what +:+ " must be 64 hex characters")).

Definition verifyTransactionArgs (a : SorobanArgs) : R (list Sc) :=
  if arg_min_confirmations a <? 1 then Err (RangeError "min_confirmations must be an integer >= 1")
  else
    block_hash ← hash (arg_block_hash a) "block_hash";
    siblings ← mapM (λ h, hash h "merkle_proof item") (arg_merkle_proof a);
    raw_tx ← bytes (arg_raw_tx a);
    Ok [block_hash; sc_vec siblings; sc_u32 (arg_tx_index a); raw_tx; sc_u32 (arg_min_confirmations a)].

Definition txidArg (txid : string) : R Sc :=
  if isHash txid then bytes txid else Err (TypeError "txid must be 64 hex characters, internal byte order").

Definition positiveAmount (amount : Z) : R Z :=
  if amount <=? 0 then Err (RangeError "amount must be a positive bigint of USDC stroops") else Ok amount.

Definition address (a : string) : R Sc :=
  match sc_address a with Ok s => Ok s | Err m => Err (Thrown m) end.

(** ** Reads and transactions ([soroban.ts]) *)

Record ContractCaller : Type := { cc_name : ContractName; cc_contractId : string }.

Definition thrown {A} (r : result string A) : R A := match r with Ok a => Ok a | Err m => Err (Thrown m) end.

Definition lib_call {A} (f : W → result string A * W) : M A := λ w, let '(r, w) := f w in (thrown r, w).

Definition read (c : ContractCaller) (method : string) (args : list Sc) : M Native :=
  sim ← lib_call (rpc_simulate (cc_contractId c) method args);
  match sim with
  | sim_error e => throw (ContractError (cc_name c) method (contractErrorCode e) e)
  | sim_result None => throw (ContractError (cc_name c) method None "simulation returned no result")
  | sim_result (Some v) => mret v
  end.

(** A failure of the assembly is the contract's; one before it passes through. *)
Definition assemble (c : ContractCaller) (source method : string) (args : list Sc) : M string := λ w,
  match rpc_prepare (cc_contractId c) source method args w with
  | (Ok xdr, w) => (Ok xdr, w)
  | (Err detail, w) => (Err (ContractError (cc_name c) method (contractErrorCode detail) detail), w)
  end.

Definition prepare (c : ContractCaller) (source method : string) (args : list Sc) : M string :=
  _ ← lib_call (rpc_getAccount source); assemble c source method args.

Record SubmitResult : Type := { sr_hash : string; sr_ledger : Z; sr_returnValue : option Native }.

Definition submitTransaction (signedXdr networkPassphrase : string) : M SubmitResult :=
  tx ← lift (thrown (rpc_fromXDR signedXdr networkPassphrase));
  '(h, sent) ← lib_call (rpc_send tx);
  if bool_decide (sent = "ERROR") || bool_decide (sent = "TRY_AGAIN_LATER")
  then throw (Thrown ("transaction " +:+ h +:+ " was not accepted: " +:+ sent))
  else
    '(done, ledger, value) ← lib_call (rpc_poll h);
    if bool_decide (done = "SUCCESS") then mret {| sr_hash := h; sr_ledger := ledger; sr_returnValue := value |}
    else throw (Thrown ("transaction " +:+ h +:+ " ended with status " +:+ done)).
End calls.

(** ** What the contracts' values decode to *)

(** [v as Raw], then a field of it. *)
Definition raw_field (k : string) (v : Native) : R Native :=
  match v with
  | n_object fs => match map_get k fs with Some x => Ok x | None => Err Malformed end
  | _ => Err Malformed
  end.

Definition hexOf (v : Native) : R string := match v with n_bytes bs => Ok (bytesToHex bs) | _ => Err Malformed end.

(** [Number(v)] and [BigInt(v)] of a contract's integer. *)
Definition num (v : Native) : R Z := match v with n_number z | n_bigint z => Ok z | _ => Err Malformed end.
Definition big (v : Native) : R Z := num v.

Definition text (v : Native) : R string := match v with n_string s => Ok s | _ => Err Malformed end.

(** [!v] *)
Definition falsy (v : Native) : bool :=
  match v with
  | n_null => true
  | n_string s => bool_decide (s = "")
  | n_bigint z | n_number z => z =? 0
  | n_bool b => negb b
  | _ => false
  end.

Definition get {A} (as_ : Native → R A) (k : string) (v : Native) : R A := x ← raw_field k v; as_ x.

Definition or_null {A} (decode : Native → R A) (v : Native) : R (option A) :=
  if falsy v then Ok None else a ← decode v; Ok (Some a).

Record VerificationResult : Type := {
  vr_txid : string;
  vr_txidDisplay : string;
  vr_blockHash : string;
  vr_blockHeight : Z;
  vr_confirmations : Z;
}.

Definition decodeVerificationResult (v : Native) : R VerificationResult :=
  txid ← get hexOf "txid" v;
  display ← reverseHex txid;
  block_hash ← get hexOf "block_hash" v;
  height ← get num "block_height" v;
  confirmations ← get num "confirmations" v;
  Ok {| vr_txid := txid; vr_txidDisplay := display; vr_blockHash := block_hash; vr_blockHeight := height;
        vr_confirmations := confirmations |}.

Record BestTip : Type := { bt_hash : string; bt_height : Z; bt_chainwork : Z }.

Definition decodeBestTip (v : Native) : R BestTip :=
  h ← get hexOf "hash" v; height ← get num "height" v; work ← get big "chainwork" v;
  Ok {| bt_hash := h; bt_height := height; bt_chainwork := work |}.

Record Checkpoint : Type := {
  cp_height : Z; cp_blockHash : string; cp_bits : Z; cp_time : Z; cp_periodStartTime : Z; cp_setAtLedger : Z }.

Definition decodeCheckpoint (v : Native) : R Checkpoint :=
  height ← get num "height" v; h ← get hexOf "block_hash" v; bits ← get num "bits" v; time ← get num "time" v;
  start ← get num "period_start_time" v; ledger ← get num "set_at_ledger" v;
  Ok {| cp_height := height; cp_blockHash := h; cp_bits := bits; cp_time := time; cp_periodStartTime := start;
        cp_setAtLedger := ledger |}.

Record HeaderEntry : Type := {
  he_prev : string; he_merkleRoot : string; he_height : Z; he_bits : Z; he_time : Z; he_periodStartTime : Z;
  he_chainwork : Z }.

Definition decodeHeaderEntry (v : Native) : R HeaderEntry :=
  prev ← get hexOf "prev" v; root ← get hexOf "merkle_root" v; height ← get num "height" v;
  bits ← get num "bits" v; time ← get num "time" v; start ← get num "period_start_time" v; work ← get big "chainwork" v;
  Ok {| he_prev := prev; he_merkleRoot := root; he_height := height; he_bits := bits; he_time := time;
        he_periodStartTime := start; he_chainwork := work |}.

Record ProtocolState : Type := {
  ps_totalScaledSupply : Z; ps_supplyIndex : Z; ps_totalBorrowed : Z; ps_reserveUsdc : Z; ps_borrowIndex : Z;
  ps_indexLedger : Z; ps_lastKeeperHeartbeat : Z }.

Definition decodeProtocolState (v : Native) : R ProtocolState :=
  supply ← get big "total_scaled_supply" v; supply_index ← get big "supply_index" v;
  borrowed ← get big "total_borrowed" v; reserve ← get big "reserve_usdc" v; borrow_index ← get big "borrow_index" v;
  ledger ← get num "index_ledger" v; heartbeat ← get big "last_keeper_heartbeat" v;
  Ok {| ps_totalScaledSupply := supply; ps_supplyIndex := supply_index; ps_totalBorrowed := borrowed;
        ps_reserveUsdc := reserve; ps_borrowIndex := borrow_index; ps_indexLedger := ledger;
        ps_lastKeeperHeartbeat := heartbeat |}.

(** A contract's enum is its name, alone or first in a list. *)
Definition status_text (v : Native) : R string := match v with n_array (x :: _) => text x | _ => text v end.

Record LendPosition : Type := {
  lp_btcTxid : string; lp_btcSatoshis : Z; lp_usdcDebt : Z; lp_p2wshScriptPubkey : string; lp_timelockHeight : Z;
  lp_lastUpdateLedger : Z; lp_debtIndex : Z; lp_depositor : string; lp_status : string; lp_userPubkey : string }.

Definition decodePosition (v : Native) : R LendPosition :=
  status ← get status_text "status" v;
  txid ← get hexOf "btc_txid" v; sats ← get big "btc_satoshis" v; debt ← get big "usdc_debt" v;
  script ← get hexOf "p2wsh_script_pubkey" v; timelock ← get num "timelock_height" v;
  ledger ← get num "last_update_ledger" v; index ← get big "debt_index" v; depositor ← get text "depositor" v;
  pubkey ← get hexOf "user_pubkey" v;
  Ok {| lp_btcTxid := txid; lp_btcSatoshis := sats; lp_usdcDebt := debt; lp_p2wshScriptPubkey := script;
        lp_timelockHeight := timelock; lp_lastUpdateLedger := ledger; lp_debtIndex := index;
        lp_depositor := depositor; lp_status := status; lp_userPubkey := pubkey |}.

(** ** The clients *)

Section methods.
Context {Sc : Type} `{StellarLib Sc} {W : Type} `{SdkRpc Sc W} (c : ContractCaller).
Abbreviation M := (io W SdkError).

Definition read_as {A} (decode : Native → R A) (method : string) (args : R (list Sc)) : M A :=
  a ← lift args; v ← read c method a; lift (decode v).

(** *** bitcoin-spv ([spv.ts]) *)

Definition with_confirmations (a : SorobanArgs) (minConfirmations : option Z) : SorobanArgs :=
  match minConfirmations with
  | None => a
  | Some n => {| arg_block_hash := arg_block_hash a; arg_merkle_proof := arg_merkle_proof a;
                 arg_tx_index := arg_tx_index a; arg_raw_tx := arg_raw_tx a; arg_min_confirmations := n |}
  end.

Definition verifyTransaction (a : SorobanArgs) (minConfirmations : option Z) : M VerificationResult :=
  read_as decodeVerificationResult "verify_transaction" (verifyTransactionArgs (with_confirmations a minConfirmations)).

Definition buildVerifyTransaction (source : string) (a : SorobanArgs) : M string :=
  args ← lift (verifyTransactionArgs a); prepare c source "verify_transaction" args.

Definition getBestTip : M (option BestTip) := read_as (or_null decodeBestTip) "get_best_tip" (Ok []).
Definition getCheckpoint : M (option Checkpoint) := read_as (or_null decodeCheckpoint) "get_checkpoint" (Ok []).
Definition getHeader (blockHash : string) : M (option HeaderEntry) :=
  read_as (or_null decodeHeaderEntry) "get_header" (h ← hash blockHash "blockHash"; Ok [h]).
Definition getCanonicalHash (height : Z) : M (option string) :=
  read_as (or_null hexOf) "get_canonical_hash" (Ok [sc_u32 height]).

(** *** writz-lend ([lend.ts]) *)

Definition getProtocolState : M ProtocolState := read_as decodeProtocolState "get_protocol_state" (Ok []).
Definition getBorrowRateBp : M Z := read_as num "get_borrow_rate_bp" (Ok []).
Definition getSupplyRateBp : M Z := read_as num "get_supply_rate_bp" (Ok []).
Definition getSupplyBalance (lender : string) : M Z :=
  read_as big "get_supply_balance" (a ← address lender; Ok [a]).
Definition getPosition (txid : string) : M (option LendPosition) :=
  read_as (or_null decodePosition) "get_position" (t ← txidArg txid; Ok [t]).
Definition getHealthRatioBp (txid : string) : M Z := read_as big "get_health_ratio_bp" (t ← txidArg txid; Ok [t]).

(** The amount is checked after the address is read. *)
Definition supply_args (supplier : string) (amount : Z) : R (list Sc) :=
  a ← address supplier; n ← positiveAmount amount; Ok [a; sc_i128 n].
Definition buildSupplyUsdc (supplier : string) (amount : Z) : M string :=
  args ← lift (supply_args supplier amount); prepare c supplier "supply_usdc" args.
Definition buildWithdrawSupply (supplier : string) (amount : Z) : M string :=
  args ← lift (supply_args supplier amount); prepare c supplier "withdraw_supply" args.
End methods.

(** ** Hex is read as it is written *)

Lemma is_hex_to_hex bs : is_hex (to_hex bs) = true.
Proof.
  unfold is_hex, slen, string_forall, to_hex. rewrite <- chars_length, chars_of_chars, hex_chars_length.
  apply andb_true_intro. split; [apply Z.eqb_eq; rewrite Nat2Z.inj_mul, Z.mul_comm; by apply Z.mod_mul|].
  eapply forallb_weaken; [|apply hex_chars_lower]. intros c Hc. by apply lower_hex_char_facts in Hc as (_ & _ & ?).
Qed.

Lemma hexToBytes_hex bs : hexToBytes (to_hex bs) = Ok bs.
Proof. unfold hexToBytes. by rewrite is_hex_to_hex, from_to_hex. Qed.

Lemma isHash_hex bs : isHash (to_hex bs) = (zlen bs =? 32).
Proof.
  pose proof (is_hex_to_hex bs) as Hh. unfold is_hex in Hh. apply andb_true_iff in Hh as [_ Hh]. unfold isHash. rewrite Hh, andb_true_r.
  unfold slen, zlen, to_hex. rewrite <- chars_length, chars_of_chars, hex_chars_length.
  destruct (_ =? 64) eqn:E; bools; symmetry; [apply Z.eqb_eq|apply Z.eqb_neq]; lia.
Qed.

(** [reverseHex] turns the byte order of any hex around, and back: the second
    time gives the text it started from, in lower case. *)
Theorem reverseHex_is_its_own_inverse s :
  match reverseHex s with
  | Ok r => is_hex s = true ∧ from_hex r = rev (from_hex s) ∧ reverseHex r = Ok (toLowerCase s)
  | Err e => is_hex s = false ∧ ∃ m, e = TypeError m
  end.
Proof.
  unfold reverseHex, hexToBytes. destruct (is_hex s) eqn:Hs; cbn [mbind result_bind]; [|split; [done|by eexists]].
  unfold bytesToHex. rewrite from_to_hex, is_hex_to_hex. cbn [mbind result_bind]. rewrite rev_involutive.
  split_and!; [done|done|]. f_equal. unfold is_hex in Hs. apply andb_true_iff in Hs as [He Hs]. apply Z.eqb_eq in He.
  apply to_from_hex_any; [|done]. unfold slen in He. apply Z.mod_divide in He as [k Hk]; [|done]. exists (Z.to_nat k). lia.
Qed.

(** ** The arguments are the proof's bytes *)

Section args.
Context {Sc : Type} `{StellarLib Sc}.

Definition args_of (block raw : list byte) (siblings : list (list byte)) (index confs : Z) : SorobanArgs := {|
  arg_block_hash := to_hex block; arg_merkle_proof := map to_hex siblings; arg_tx_index := index;
  arg_raw_tx := to_hex raw; arg_min_confirmations := confs |}.

Lemma hash_hex bs what : zlen bs = 32 → hash (to_hex bs) what = Ok (sc_bytes bs).
Proof. intros Hl. unfold hash, bytes. rewrite isHash_hex, Hl, hexToBytes_hex. done. Qed.

Lemma hashes_hex l what : Forall (λ bs, zlen bs = 32) l → mapM (λ h, hash h what) (map to_hex l) = Ok (map sc_bytes l).
Proof.
  induction 1 as [|bs l Hl _ IH]; cbn; [done|]. rewrite hash_hex by done. cbn [mbind result_bind]. by rewrite IH.
Qed.

(** The five arguments, in the contract's order: every proof with hashes of 32
    bytes and at least one confirmation is passed byte for byte. *)
Lemma verify_arguments block raw siblings index confs :
  zlen block = 32 → Forall (λ bs, zlen bs = 32) siblings → 1 ≤ confs →
  verifyTransactionArgs (args_of block raw siblings index confs) =
  Ok [sc_bytes block; sc_vec (map sc_bytes siblings); sc_u32 index; sc_bytes raw; sc_u32 confs].
Proof.
  intros Hb Hs Hc. unfold verifyTransactionArgs, args_of. cbn [arg_block_hash arg_merkle_proof arg_tx_index arg_raw_tx arg_min_confirmations].
  replace (confs <? 1) with false by (symmetry; apply Z.ltb_ge; lia). rewrite hash_hex by done. cbn [mbind result_bind].
  rewrite hashes_hex by done. cbn [mbind result_bind]. unfold bytes. by rewrite hexToBytes_hex.
Qed.
End args.

(** ** The code of a failed call *)

(** The tables name every code the app's tables name, and the same way. *)
Lemma tables_agree c n e : entry n (TABLES c) = Some e → entry n (error_table c) = Some e.
Proof.
  destruct c; [done|]. cbn [TABLES error_table]. unfold BitcoinSpvError, SPV_ERRORS. cbn [entry].
  repeat (case_match; [done|]). done.
Qed.

Lemma sdk_code_read n rest : 0 ≤ n →
  sdk_code_in (chars "Error(Contract, #" ++ dec_chars n ++ chars ")" ++ rest) = Some (dec_chars n).
Proof.
  intros Hn. destruct (dec_chars_spec n Hn) as [_ Hd]. cbn [chars app sdk_code_in].
  unfold sdk_code_here. change (chars "Error(Contract, #") with (chars "Error(Contract, #" ++ []) at 1. cbn.
  rewrite (digits_of_app _ ")"%char) by done. by rewrite bool_decide_false by apply dec_chars_nonempty.
Qed.

(** Text before the first code: no code starts in it. *)
Fixpoint no_code (t : list ascii) : Prop :=
  match t with [] => True | c :: t' => (∀ rest, sdk_code_here (c :: t' ++ rest) = None) ∧ no_code t' end.

(** A host error names the contract's first code, and the error the code's name. *)
Theorem contract_code_is_read pre n post c method :
  no_code pre → 0 ≤ n →
  let detail := of_chars (pre ++ chars "Error(Contract, #" ++ dec_chars n ++ chars ")" ++ post) in
  contractErrorCode detail = Some n ∧
  ∀ e, entry n (error_table c) = Some e →
    errorName c (contractErrorCode detail) = Some e ∧
    contract_message c method (contractErrorCode detail) detail =
      contract_name c +:+ "." +:+ method +:+ " failed with #" +:+ z_to_string n +:+ " " +:+ e.
Proof.
  intros Hpre Hn. cbv zeta. set (detail := of_chars _). destruct (dec_chars_spec n Hn) as [Hv _].
  assert (contractErrorCode detail = Some n) as ->.
  { unfold contractErrorCode, detail. rewrite chars_of_chars.
    assert (sdk_code_in (pre ++ chars "Error(Contract, #" ++ dec_chars n ++ chars ")" ++ post) = Some (dec_chars n)) as ->.
    { induction pre as [|a pre IH]; [by apply sdk_code_read|]. destruct Hpre as [Ha Hpre]. cbn [app sdk_code_in].
      rewrite Ha. by apply IH. }
    change (Some (dec_value (dec_chars n)) = Some n). by rewrite Hv. }
  split; [done|]. intros e He. cbn [errorName mbind option_bind]. unfold contract_message, errorName. cbn [mbind option_bind].
  rewrite He. done.
Qed.

(** A code the contract raises for a block it does not hold, which the app's table
    does not have. *)
Example app_cannot_name_a_missing_header :
  entry 22 (error_table bitcoin_spv) = Some "HeaderNotFound" ∧ entry 22 (TABLES bitcoin_spv) = None.
Proof. done. Qed.
