(* ===== verification/SdkRelayer.v ===== *)
(** * The SDK's relayer client ([packages/sdk/src/relayer.ts], [index.ts])

    The requests of [RelayerClient], their retries, and [verifyBitcoinTx], which
    passes the proof the relayer serves to bitcoin-spv. The network and the
    waiting are [SdkNet]. *)

From Stdlib Require Import Floats.SpecFloat.
From S2P Require Import Prelude JsData JsMap JsJson LendArchive Payment JsNumber HeaderSync Esplora SpvProof.
From S2P Require Import RateLimit ProofCache ProofRoute ErrorText SdkContracts.

(** ** One request *)

Record SdkRequest : Type := { rq_method : string; rq_url : string; rq_body : option Json }.

(** A response; its text is absent when reading it throws. *)
Record SdkResponse : Type := {
  rs_status : Z;
  rs_statusText : string;
  rs_text : option string;
  rs_retryAfter : option string;
}.

Class SdkNet (W : Type) : Type := {
  sn_fetch : SdkRequest → W → result string SdkResponse * W;
  sn_sleep : double → W → W;
}.

Record RelayerClient : Type := {
  rc_baseUrl : string;
  rc_maxRetries : Z;
  rc_maxRetryWaitSeconds : double;
}.

Record RelayerClientOptions : Type := {
  op_network : option string;            (* the preset's [relayerUrl] *)
  op_relayerUrl : option string;
  op_maxRetries : option Z;
  op_maxRetryWaitSeconds : option double;
}.

(** The constructor. *)
Definition new_client (o : RelayerClientOptions) : R RelayerClient :=
  match present (match op_relayerUrl o with Some u => Some u | None => op_network o end) with
  | None => Err (TypeError "RelayerClient needs a network preset or a relayerUrl")
  | Some url => Ok {| rc_baseUrl := CctpNet.strip_slashes url; rc_maxRetries := default 2 (op_maxRetries o);
                      rc_maxRetryWaitSeconds := default (of_int 120) (op_maxRetryWaitSeconds o) |}
  end.

(** What [JSON.parse] makes of the text; a text that is no JSON is itself. *)
Definition response_body (text : string) : option Json :=
  if bool_decide (text = "") then None else Some (default (j_string text) (JSON_parse text)).

Definition body_fields (body : option Json) : list (string * Json) :=
  match body with Some (j_object fs) => fs | _ => [] end.

Definition json_text (j : option Json) : option string := match j with Some (j_string s) => Some s | _ => None end.

(** A number of a body, as the double it is. *)
Definition json_double (j : option Json) : option double :=
  match j with Some (j_number z) => Some (of_int z) | Some (j_decimal t) => Some (js_Number t) | _ => None end.

(** [/^[a-z_]+$/] *)
Definition is_error_code (s : string) : bool :=
  negb (bool_decide (s = "")) && string_forall (λ c, in_range "a" "z" c || Ascii.eqb c "_") s.

Definition header_seconds (header : option string) : option double :=
  match header with
  | None => None
  | Some h => let n := js_Number h in if is_finite n && negb (SFltb n (S754_zero false)) then Some n else None
  end.

Definition error_code (body : option Json) : string :=
  match json_text (map_get "error" (body_fields body)) with
  | Some e => if is_error_code e then e else "http_error"
  | None => "http_error"
  end.

Definition error_text (statusText : string) (body : option Json) : string :=
  match json_text (map_get "message" (body_fields body)), json_text (map_get "error" (body_fields body)) with
  | Some m, _ => m
  | None, Some e => e
  | None, None => statusText
  end.

Definition retry_after (header : option string) (body : option Json) : option double :=
  match json_double (map_get "retryAfterSeconds" (body_fields body)) with
  | Some n => Some n
  | None => header_seconds header
  end.

Definition toRelayerError (r : SdkResponse) (body : option Json) : SdkError :=
  RelayerError ("relayer " +:+ z_to_string (rs_status r) +:+ " " +:+ error_code body +:+ ": " +:+ error_text (rs_statusText r) body)
    (rs_status r) (error_code body) (retry_after (rs_retryAfter r) body) body.

(** [wait > maxRetryWaitSeconds] *)
Definition too_long (c : RelayerClient) (wait : double) : bool := SFltb (rc_maxRetryWaitSeconds c) wait.

Section client.
Context {W : Type} `{SdkNet W} (c : RelayerClient).
Abbreviation M := (io W SdkError).

(** The loop of [request]: [more] is how many retries are left, [maxRetries - attempt]. *)
Fixpoint request_loop (rq : SdkRequest) (more : nat) : M (option Json) := λ w,
  match sn_fetch rq w with
  | (Err m, w) => (Err (RelayerError ("relayer request failed: " +:+ m) 0 "network_error" None None), w)
  | (Ok r, w) =>
      match rs_text r with
      | None => (Err (Thrown "body"), w)
      | Some text =>
          let body := response_body text in
          if CctpNet.res_ok (rs_status r) then (Ok body, w)
          else
            let e := toRelayerError r body in
            match more, retry_after (rs_retryAfter r) body with
            | S more, Some wait =>
                if too_long c wait then (Err e, w) else request_loop rq more (sn_sleep (times wait (of_int 1000)) w)
            | _, _ => (Err e, w)
            end
      end
  end.

Definition request (method path : string) (json : option Json) (maxRetries : option Z) : M (option Json) :=
  request_loop {| rq_method := method; rq_url := rc_baseUrl c +:+ path; rq_body := json |}
    (Z.to_nat (default (rc_maxRetries c) maxRetries)).

(** ** The calls *)

Definition getSpvProof (txid : string) (confirmations maxRetries : option Z) : M (option Json) :=
  let q := match confirmations with None => "" | Some n => "?confirmations=" +:+ z_to_string n end in
  request "GET" ("/spv-proof/" +:+ toLowerCase txid +:+ q) None maxRetries.

(** A field of a body that is taken to be an object. *)
Definition body_field (k : string) (body : option Json) : R (option Json) :=
  match body with
  | None | Some j_null => Err (TypeError k)
  | _ => Ok (map_get k (body_fields body))
  end.

(** [body.apy], whatever it is. *)
Definition getEarnApy : M (option Json) :=
  body ← request "GET" "/defindex/apy" None None; lift (body_field "apy" body).

(** [encodeURIComponent] on the bytes of a text. *)
Definition is_unreserved (c : ascii) : bool :=
  in_range "A" "Z" c || in_range "a" "z" c || in_range "0" "9" c || bool_decide (c ∈ chars "-_.!~*'()").
Definition encodeURIComponent (s : string) : string :=
  of_chars (chars s ≫= λ c, if is_unreserved c then [c]
    else ["%"%char; char_upper (hex_digit (ascii_z c / 16)); char_upper (hex_digit (ascii_z c mod 16))]).

Record EarnPosition : Type := { ep_dfTokens : Z; ep_underlyingStroops : Z }.

(** [BigInt] of a field that is a text, a number or a boolean. *)
Definition big_field (k : string) (body : option Json) : R Z :=
  f ← body_field k body;
  match f with
  | Some (j_string s) => match BigInt s with Some z => Ok z | None => Err (Thrown "SyntaxError") end
  | Some (j_number z) => Ok z
  | Some (j_bool b) => Ok (if b then 1 else 0)
  | None | Some j_null | Some (j_decimal _) => Err (Thrown "BigInt")
  | Some (j_array _) | Some (j_object _) => Err Malformed
  end.

Definition getEarnPosition (address : string) : M EarnPosition :=
  body ← request "GET" ("/defindex/position?address=" +:+ encodeURIComponent address) None None;
  tokens ← lift (big_field "dfTokens" body);
  stroops ← lift (big_field "underlyingStroops" body);
  mret {| ep_dfTokens := tokens; ep_underlyingStroops := stroops |}.

Definition buildEarn (path caller : string) (amountStroops : Z) : M (option Json) :=
  if amountStroops <=? 0 then throw (RangeError "amountStroops must be positive")
  else
    body ← request "POST" path
      (Some (j_object [("caller", j_string caller); ("amountStroops", j_string (z_to_string amountStroops))])) None;
    lift (body_field "xdr" body).

Definition buildEarnDeposit (caller : string) (amountStroops : Z) : M (option Json) :=
  buildEarn "/defindex/deposit" caller amountStroops.
Definition buildEarnWithdraw (caller : string) (amountStroops : Z) : M (option Json) :=
  buildEarn "/defindex/withdraw" caller amountStroops.
End client.

(** ** A proof, from the relayer to the contract ([index.ts]) *)

Definition texts_of_json (j : option Json) : option (list string) :=
  match j with
  | Some (j_array l) => mapM (λ x, match x with j_string s => Some s | _ => None end) l
  | _ => None
  end.
Definition json_number (j : option Json) : option Z := match j with Some (j_number z) => Some z | _ => None end.

(** [proof.sorobanArgs], where it is of its type. *)
Definition sorobanArgs (body : option Json) : R SorobanArgs :=
  a ← body_field "sorobanArgs" body;
  let fs := body_fields a in
  of_option (
    block_hash ← json_text (map_get "block_hash" fs);
    siblings ← texts_of_json (map_get "merkle_proof" fs);
    index ← json_number (map_get "tx_index" fs);
    raw ← json_text (map_get "raw_tx" fs);
    confs ← json_number (map_get "min_confirmations" fs);
    Some {| arg_block_hash := block_hash; arg_merkle_proof := siblings; arg_tx_index := index; arg_raw_tx := raw;
            arg_min_confirmations := confs |}) Malformed.

Section verify.
Context {Sc : Type} `{StellarLib Sc} {W : Type} `{SdkRpc Sc W, SdkNet W}.

Definition verifyBitcoinTx (relayer : RelayerClient) (spv : ContractCaller) (txid : string) (confirmations : option Z) :
    io W SdkError (option Json * VerificationResult) :=
  proof ← getSpvProof relayer txid (Some (default 6 confirmations)) None;
  args ← lift (sorobanArgs proof);
  result ← verifyTransaction spv args None;
  mret (proof, result).
End verify.

(** ** What the proof route sends ([relayer/src/routes/proof.ts]) *)

Definition args_json (a : SorobanArgs) : Json := j_object [
  ("block_hash", j_string (arg_block_hash a));
  ("merkle_proof", j_array (map j_string (arg_merkle_proof a)));
  ("tx_index", j_number (arg_tx_index a));
  ("raw_tx", j_string (arg_raw_tx a));
  ("min_confirmations", j_number (arg_min_confirmations a))].

Definition proof_json (p : ProofBody) : Json := j_object [
  ("txid", j_string (p_txid p));
  ("rawTxNoWitness", j_string (p_rawTxNoWitness p));
  ("blockHash", j_string (p_blockHash p));
  ("txIndex", j_number (p_txIndex p));
  ("merkleProof", j_array (map j_string (p_merkleProof p)));
  ("headers", j_array (map j_string (p_headers p)));
  ("blockHeight", j_number (p_blockHeight p));
  ("confirmations", j_number (p_confirmations p));
  ("sorobanArgs", args_json (p_sorobanArgs p))].

Definition refusal (code message : string) (more : list (string * Json)) : Json :=
  j_object (("error", j_string code) :: ("message", j_string message) :: more).

(** [res.json(body)]; the text of an unexpected error is an argument. *)
Definition route_json (error_message : proof_error → string) (b : ProofRoute.Body) : Json :=
  match b with
  | rate_limited m s => refusal "rate_limited" m [("retryAfterSeconds", j_number s)]
  | invalid_txid m => refusal "invalid_txid" m []
  | invalid_confirmations m => refusal "invalid_confirmations" m []
  | proof_found p => proof_json p
  | unconfirmed m => refusal "unconfirmed" m []
  | insufficient_confirmations m requested available =>
      refusal "insufficient_confirmations" m [("requested", j_number requested); ("available", j_number available)]
  | tx_not_found m => refusal "tx_not_found" m []
  | upstream_unavailable m s => refusal "upstream_unavailable" m [("retryAfterSeconds", j_number s)]
  | upstream_error e => refusal "upstream_error" (error_message e) []
  | light_client_behind m requested available height tip s =>
      refusal "light_client_behind" m [("requested", j_number requested); ("available", j_number available);
        ("blockHeight", j_number height); ("lightClientTipHeight", j_number tip); ("retryAfterSeconds", j_number s)]
  end.

Definition route_response (error_message : proof_error → string) (statusText : string) (a : Answer) : SdkResponse := {|
  rs_status := ProofRoute.status (sent a); rs_statusText := statusText;
  rs_text := Some (JSON_stringify (route_json error_message (ProofRoute.body (sent a))));
  rs_retryAfter := z_to_string <$> retryAfter a |}.

(** ** A request ends *)

Section bounded.
Context {W : Type} `{SdkNet W} (c : RelayerClient).

(** Attempts that failed and were waited for: each answer said when to come back,
    and no longer than the client waits. *)
Inductive retried (rq : SdkRequest) : W → list double → W → Prop :=
| retried_none w : retried rq w [] w
| retried_once w r w1 text wait waits w2 :
    sn_fetch rq w = (Ok r, w1) → rs_text r = Some text → CctpNet.res_ok (rs_status r) = false →
    retry_after (rs_retryAfter r) (response_body text) = Some wait → too_long c wait = false →
    retried rq (sn_sleep (times wait (of_int 1000)) w1) waits w2 →
    retried rq w (wait :: waits) w2.

(** What the last attempt makes of its answer, after [n] retries of [most]. *)
Definition last_attempt (rq : SdkRequest) (most n : nat) (w : W) (out : result SdkError (option Json) * W) : Prop :=
  match sn_fetch rq w with
  | (Err m, w') => out = (Err (RelayerError ("relayer request failed: " +:+ m) 0 "network_error" None None), w')
  | (Ok r, w') =>
      match rs_text r with
      | None => out = (Err (Thrown "body"), w')
      | Some text =>
          let body := response_body text in
          if CctpNet.res_ok (rs_status r) then out = (Ok body, w')
          else out = (Err (toRelayerError r body), w') ∧
               match retry_after (rs_retryAfter r) body with
               | Some wait => n = most ∨ too_long c wait = true
               | None => True
               end
      end
  end.

(** A request makes at most one attempt more than its retries; it waits only
    after an answer that says when to come back, for exactly that long and never
    longer than the client's limit, and ends with what its last attempt gave: the
    body of an answer that is ok, or the error of one that cannot be retried. *)
Theorem request_is_bounded rq most (w : W) :
  ∃ waits w1, retried rq w waits w1 ∧ (length waits ≤ most)%nat ∧
    Forall (λ wait, too_long c wait = false) waits ∧
    last_attempt rq most (length waits) w1 (request_loop c rq most w).
Proof.
  revert w. induction most as [|n IH]; intros w; cbn [request_loop]; destruct (sn_fetch rq w) as [[r|m] w1] eqn:Ef.
  2, 4: exists [], w; split_and!; [constructor|simpl; lia|done|unfold last_attempt; by rewrite Ef].
  all: destruct (rs_text r) as [text|] eqn:Et;
    [|exists [], w; split_and!; [constructor|simpl; lia|done|unfold last_attempt; by rewrite Ef, Et]].
  all: destruct (CctpNet.res_ok (rs_status r)) eqn:Eo;
    [exists [], w; split_and!; [constructor|simpl; lia|done|unfold last_attempt; by rewrite Ef, Et, Eo]|].
  - exists [], w. split_and!; [constructor|simpl; lia|done|]. unfold last_attempt. rewrite Ef, Et, Eo.
    split; [done|]. destruct (retry_after _ _); auto.
  - destruct (retry_after (rs_retryAfter r) (response_body text)) as [wait|] eqn:Er;
      [destruct (too_long c wait) eqn:El|].
    + exists [], w. split_and!; [constructor|simpl; lia|done|]. unfold last_attempt. rewrite Ef, Et, Eo, Er. auto.
    + destruct (IH (sn_sleep (times wait (of_int 1000)) w1)) as (waits & w2 & Hr & Hl & Ha & Hlast).
      exists (wait :: waits), w2. split_and!; [by eapply retried_once|simpl; lia|by apply Forall_cons|].
      unfold last_attempt in *. destruct (sn_fetch rq w2) as [[r2|m2] w3]; [|done].
      destruct (rs_text r2) as [text2|]; [|done]. cbv zeta in *. destruct (CctpNet.res_ok (rs_status r2)); [done|]. destruct Hlast as [? Hw]. split; [done|].
      destruct (retry_after (rs_retryAfter r2) _); [|done]. destruct Hw; [left; simpl; lia|auto].
    + exists [], w. split_and!; [constructor|simpl; lia|done|]. unfold last_attempt. by rewrite Ef, Et, Eo, Er.
Qed.
End bounded.

(** ** The answers of the proof route are read as they are *)

Section route.
Context (deps : ProofRouterDeps) (error_message : proof_error → string).

(** Every way the route answers. *)
Inductive route_gives : Answer → Prop :=
| gives_too_many seconds : route_gives (too_many_answer seconds)
| gives_refusal t conf a : parse_request deps t conf = Err a → route_gives a
| gives_failure e : route_gives (upstream_answer e)
| gives_proof id o x confs tip : computeProof deps id o = Ok x → route_gives (final_answer deps confs (computed x) tip).

Definition answers_given (s : Route) : Prop := ∀ q tip a, q ∈ requests s → r_stage q = answered tip a → route_gives a.

Lemma answers_step s s' : route_inv deps s → answers_given s → route_step deps s s' → answers_given s'.
Proof.
  intros Hi Ha Hstep q tip a. destruct Hstep as [t Ht|key t conf|p b o Hb Hn Hg|j q0 confs r lcTip Hq Hs].
  - apply Ha.
  - unfold ProofRoute.receive. destruct (rateLimit _ _ _ _) as [[|seconds] ws].
    + destruct (parse_request deps t conf) as [[id confs]|a'] eqn:Ep.
      * destruct (getOrCompute _ _ _ _) as [[v|p|p] c']; cbn [requests]; rewrite elem_of_app, list_elem_of_singleton;
          (intros [Hq| ->]; [by apply Ha|done]).
      * cbn [requests]. rewrite elem_of_app, list_elem_of_singleton. intros [Hq| ->]; [by apply Ha|].
        cbn. intros [= <- <-]. by eapply gives_refusal.
    + cbn [requests]. rewrite elem_of_app, list_elem_of_singleton. intros [Hq| ->]; [by apply Ha|].
      cbn. intros [= <- <-]. constructor.
  - cbn [build_settles requests]. intros (q0 & -> & Hq0)%list_elem_of_fmap. unfold deliver.
    destruct (r_stage q0) as [cf p'|cf r|lt a0] eqn:E; [|by rewrite E|by rewrite E; intros [= <- <-]; eapply Ha].
    case_decide; [|by rewrite E]. cbn. destruct (computeProof _ _ _); [done|]. intros [= <- <-]. constructor.
  - cbn [respond requests]. intros [k Hk]%list_elem_of_lookup.
    destruct (decide (k = j)) as [->|Hne].
    + rewrite list_lookup_insert_eq in Hk by (by eapply lookup_lt_Some). simplify_eq. cbn. intros [= <- <-].
      pose proof (Forall_lookup_1 _ _ _ _ (ri_requests _ s Hi) Hq) as Hqi. unfold request_inv in Hqi. rewrite Hs in Hqi.
      destruct Hqi as (id & t & x & _ & (p & b & o & _ & _ & _ & _ & _ & Hx) & ->). by eapply gives_proof.
    + rewrite list_lookup_insert_ne in Hk by done. apply Ha. by eapply list_elem_of_lookup_2.
Qed.

Lemma reachable_answers s : 0 ≤ defaultConfirmations deps → rtc (route_step deps) start_route s → answers_given s.
Proof.
  intros Hd Hr. assert (route_inv deps start_route ∧ answers_given start_route) as [Hi Ha].
  { split; [apply (route_reachable_inv deps Hd); constructor|]. intros q tip a Hq. by apply not_elem_of_nil in Hq. }
  induction Hr as [|s1 s2 s3 Hstep _ IH]; [done|]. apply IH; [by eapply route_step_inv|by eapply answers_step].
Qed.

(** The code a refusal carries, the seconds it asks to wait, and its status. *)
Definition code_of (b : ProofRoute.Body) : string :=
  match b with
  | rate_limited _ _ => "rate_limited" | invalid_txid _ => "invalid_txid" | invalid_confirmations _ => "invalid_confirmations"
  | proof_found _ => "http_error" | unconfirmed _ => "unconfirmed"
  | insufficient_confirmations _ _ _ => "insufficient_confirmations" | tx_not_found _ => "tx_not_found"
  | upstream_unavailable _ _ => "upstream_unavailable" | upstream_error _ => "upstream_error"
  | light_client_behind _ _ _ _ _ _ => "light_client_behind"
  end.

Definition seconds_of (b : ProofRoute.Body) : option Z :=
  match b with
  | rate_limited _ s | upstream_unavailable _ s | light_client_behind _ _ _ _ _ s => Some s
  | _ => None
  end.

Definition status_of (b : ProofRoute.Body) : Z :=
  match b with
  | rate_limited _ _ => 429 | invalid_txid _ | invalid_confirmations _ => 400 | proof_found _ => 200
  | unconfirmed _ | tx_not_found _ => 404 | insufficient_confirmations _ _ _ | light_client_behind _ _ _ _ _ _ => 409
  | upstream_unavailable _ _ => 503 | upstream_error _ => 502
  end.

Lemma route_gives_shape a : route_gives a →
  ProofRoute.status (sent a) = status_of (ProofRoute.body (sent a)) ∧ retryAfter a = seconds_of (ProofRoute.body (sent a)).
Proof.
  intros [seconds|t conf a' Hp|e|id o x confs tip Hx].
  - done.
  - unfold parse_request in Hp. repeat split_in Hp; done.
  - unfold upstream_answer. by destruct e as [| | |[]| |]; cbn; repeat case_match.
  - assert (ProofRoute.status (computed x) = status_of (ProofRoute.body (computed x)) ∧ seconds_of (ProofRoute.body (computed x)) = None) as [Hst Hn].
    { unfold computeProof, short in Hx. repeat split_in Hx; done. }
    assert (ProofRoute.status (computed x) = status_of (ProofRoute.body (computed x)) ∧
            None = seconds_of (ProofRoute.body (computed x))) as Hplain by (split; [done|by rewrite Hn]).
    unfold final_answer. destruct (ProofRoute.status (computed x) =? 200); [|done].
    destruct (ProofRoute.body (computed x)) eqn:E, tip; try (cbn; by rewrite E). cbv zeta.
    case_match; cbn; [done|by rewrite E].
Qed.
End route.

Lemma texts_read l : texts_of_json (Some (j_array (map j_string l))) = Some l.
Proof. unfold texts_of_json. induction l as [|x l IH]; cbn in *; [done|]. by rewrite IH. Qed.

Lemma texts_wf l : json_wf (j_array (map j_string l)).
Proof. apply array_wf, Forall_forall. by intros j (x & -> & _)%list_elem_of_fmap. Qed.

Lemma args_read p : sorobanArgs (Some (proof_json p)) = Ok (p_sorobanArgs p).
Proof.
  unfold sorobanArgs. change (body_field "sorobanArgs" (Some (proof_json p))) with (Ok (E := SdkError) (Some (args_json (p_sorobanArgs p)))).
  cbn [mbind result_bind]. cbv zeta. set (a := p_sorobanArgs p).
  change (map_get "merkle_proof" (body_fields (Some (args_json a)))) with (Some (j_array (map j_string (arg_merkle_proof a)))).
  rewrite texts_read. by destruct a.
Qed.

Lemma route_json_wf em b : json_wf (route_json em b).
Proof.
  destruct b; unfold route_json, refusal; apply object_wf;
    (split; [by apply (bool_decide_unpack _); vm_compute|repeat (apply Forall_cons; split; [cbn [snd]|])]); try done;
    try apply texts_wf.
  apply object_wf. split; [by apply (bool_decide_unpack _); vm_compute|].
  repeat (apply Forall_cons; split; [cbn [snd]|]); try done. apply texts_wf.
Qed.

Lemma route_body_read em b : response_body (JSON_stringify (route_json em b)) = Some (route_json em b).
Proof.
  unfold response_body. rewrite JSON_round_trip by apply route_json_wf. rewrite bool_decide_false; [done|].
  destruct b; unfold JSON_stringify; cbn; discriminate.
Qed.

Section read.
Context {W : Type} `{SdkNet W} (c : RelayerClient).

(** What a client makes of an answer [a] of the route, with [more] retries left
    and the network after it in state [w]. *)
Definition route_outcome (em : proof_error → string) (statusText : string) (rq : SdkRequest) (a : Answer) (more : nat) (w : W) :
    result SdkError (option Json) * W :=
  let b := ProofRoute.body (sent a) in
  let body := Some (route_json em b) in
  let e := RelayerError ("relayer " +:+ z_to_string (status_of b) +:+ " " +:+ code_of b +:+ ": " +:+ error_text statusText body)
             (status_of b) (code_of b) (of_int <$> seconds_of b) body in
  match b with
  | proof_found _ => (Ok body, w)
  | _ =>
      match more, seconds_of b with
      | S more, Some s => if too_long c (of_int s) then (Err e, w)
                          else request_loop c rq more (sn_sleep (times (of_int s) (of_int 1000)) w)
      | _, _ => (Err e, w)
      end
  end.

(** C33: Every answer the proof route gives, in any course of its requests, is what
    the client makes of it: a proof is returned with the arguments it was served
    with, and a refusal is an error with the route's own status and code that is
    retried exactly when the route said when, after just the seconds it said. *)
Theorem sdk_reads_the_proof_route deps em statusText s i q tip a rq more (w w1 : W) :
  0 ≤ defaultConfirmations deps → rtc (route_step deps) start_route s →
  requests s !! i = Some q → r_stage q = answered tip a →
  sn_fetch rq w = (Ok (route_response em statusText a), w1) →
  request_loop c rq more w = route_outcome em statusText rq a more w1 ∧
  retryAfter a = seconds_of (ProofRoute.body (sent a)) ∧
  ∀ p, ProofRoute.body (sent a) = proof_found p →
    sorobanArgs (Some (route_json em (ProofRoute.body (sent a)))) = Ok (p_sorobanArgs p).
Proof.
  intros Hd Hr Hq Hs Hf. pose proof (reachable_answers deps s Hd Hr q tip a (list_elem_of_lookup_2 _ _ _ Hq) Hs) as Hg.
  destruct (route_gives_shape deps a Hg) as [Hst Hsec]. split_and!; [|done|by intros p ->; apply args_read].
  assert (∀ body, toRelayerError (route_response em statusText a) body =
    RelayerError ("relayer " +:+ z_to_string (status_of (ProofRoute.body (sent a))) +:+ " " +:+ error_code body +:+ ": " +:+
      error_text statusText body) (status_of (ProofRoute.body (sent a))) (error_code body)
      (retry_after (z_to_string <$> retryAfter a) body) body) as He.
  { intros body. unfold toRelayerError, route_response. cbn [rs_status rs_statusText rs_retryAfter]. by rewrite Hst. }
  destruct more; cbn [request_loop]; rewrite Hf; cbn [rs_text route_response]; rewrite route_body_read, He;
    cbn [rs_status rs_retryAfter route_response]; rewrite Hst, Hsec; unfold route_outcome;
    destruct (ProofRoute.body (sent a)); reflexivity.
Qed.
End read.

(** ** A served proof reaches the contract *)

(** [SpvVerificationResult] as a simulation gives it. *)
Definition verification_native (id block : list byte) (height confs : Z) : Native := n_object [
  ("block_hash", n_bytes block); ("block_height", n_number height); ("confirmations", n_number confs); ("txid", n_bytes id)].

Lemma verification_read id block height confs : decodeVerificationResult (verification_native id block height confs) =
  Ok {| vr_txid := to_hex id; vr_txidDisplay := to_hex (rev id); vr_blockHash := to_hex block; vr_blockHeight := height;
        vr_confirmations := confs |}.
Proof.
  unfold decodeVerificationResult. change (get hexOf "txid" (verification_native id block height confs)) with (Ok (E := SdkError) (to_hex id)).
  cbn [mbind result_bind]. unfold reverseHex. rewrite hexToBytes_hex. reflexivity.
Qed.

Section reaches.
Context {Sc : Type} `{StellarLib Sc} {W : Type} `{SdkRpc Sc W, SdkNet W} (relayer : RelayerClient) (spv : ContractCaller).

Definition spv_url (txid : string) (confs : Z) : string :=
  rc_baseUrl relayer +:+ "/spv-proof/" +:+ toLowerCase txid +:+ "?confirmations=" +:+ z_to_string confs.

(** A proof the route serves, of a block hash, siblings and a transaction of any
    bytes, is the call of [verify_transaction] on just those bytes, in the
    contract's order; what the contract answers is the result, its txid in both
    byte orders, and what it refuses is its error, by its code. *)
Theorem served_proof_reaches_the_contract em statusText id confs b block siblings raw answer (w w1 w2 : W) :
  blockHash b = to_hex block → merkleProof b = map to_hex siblings → rawTxNoWitness b = to_hex raw →
  zlen block = 32 → Forall (λ bs, zlen bs = 32) siblings → 1 ≤ confirmations b →
  let proof := proof_body b in
  sn_fetch {| rq_method := "GET"; rq_url := spv_url id (default 6 confs); rq_body := None |} w =
    (Ok (route_response em statusText (reply 200 (proof_found proof))), w1) →
  rpc_simulate (cc_contractId spv) "verify_transaction"
    [sc_bytes block; sc_vec (map sc_bytes siblings); sc_u32 (txIndex b); sc_bytes raw; sc_u32 (confirmations b)] w1 = (answer, w2) →
  let out := verifyBitcoinTx relayer spv id confs w in
  (∀ txid height depth, answer = Ok (sim_result (Some (verification_native txid block height depth))) →
     out = (Ok (Some (proof_json proof),
              {| vr_txid := to_hex txid; vr_txidDisplay := to_hex (rev txid); vr_blockHash := blockHash b;
                 vr_blockHeight := height; vr_confirmations := depth |}), w2)) ∧
  (∀ e, answer = Ok (sim_error e) →
     out = (Err (ContractError (cc_name spv) "verify_transaction" (contractErrorCode e) e), w2)).
Proof.
  intros Hb Hs Hr Hbl Hsl Hc proof Hf Hsim out.
  assert (out = (verifyTransaction spv (args_of block raw siblings (txIndex b) (confirmations b)) None ≫=
                 λ result, mret (Some (proof_json proof), result)) w1) as ->.
  { unfold out, verifyBitcoinTx, getSpvProof, request. unfold mbind at 1, io_bind at 1.
    assert (request_loop relayer {| rq_method := "GET"; rq_url := spv_url id (default 6 confs); rq_body := None |}
      (Z.to_nat (default (rc_maxRetries relayer) None)) w = (Ok (Some (proof_json proof)), w1)) as Hreq.
    { destruct (Z.to_nat _); cbn [request_loop]; rewrite Hf; cbn [rs_text route_response]; rewrite route_body_read; done. }
    unfold spv_url in Hreq. rewrite Hreq. unfold mbind at 1, io_bind at 1, lift at 1. rewrite args_read.
    unfold proof, proof_body, args_of. cbn [p_sorobanArgs]. by rewrite Hb, Hs, Hr. }
  unfold mbind, io_bind, verifyTransaction, with_confirmations, read_as, lift, mbind, io_bind. rewrite verify_arguments by done.
  unfold read, lib_call, mbind, io_bind. rewrite Hsim. split.
  - intros txid height depth ->. cbn [thrown mret io_ret]. unfold mret, io_ret. rewrite verification_read. by rewrite Hb.
  - by intros e ->.
Qed.
End reaches.

Module Demo.
(** A network that gives its answers in turn, and a contract that gives its one. *)
#[local] Instance net : SdkNet (list SdkResponse) := {
  sn_fetch _ w := match w with r :: w => (Ok r, w) | [] => (Err "offline", []) end;
  sn_sleep _ w := w;
}.

#[local] Instance lib : StellarLib (list byte) := {
  sc_bytes bs := bs; sc_vec l := concat l; sc_u32 z := [z2b z]; sc_i128 z := [z2b z]; sc_address _ := Err "no address";
}.

Definition demo_txid : list byte := replicate 32 x01.
Definition block : list byte := replicate 32 x02.

#[local] Instance rpc : SdkRpc (list byte) (list SdkResponse) := {
  rpc_simulate _ _ _ w := (Ok (sim_result (Some (verification_native demo_txid block 100 7))), w);
  rpc_getAccount _ w := (Ok (), w);
  rpc_prepare _ _ _ _ w := (Err "HostError: Error(Contract, #22)", w);
  rpc_fromXDR x _ := Ok x;
  rpc_send _ w := (Ok ("hash", "PENDING"), w);
  rpc_poll _ w := (Ok ("SUCCESS", 1, None), w);
}.

Definition client : RelayerClient := {| rc_baseUrl := "https://relayer"; rc_maxRetries := 2; rc_maxRetryWaitSeconds := of_int 120 |}.
Definition spv : ContractCaller := {| cc_name := bitcoin_spv; cc_contractId := "SPV" |}.

Definition busy : SdkResponse := {|
  rs_status := 429; rs_statusText := "Too Many Requests"; rs_retryAfter := Some "7";
  rs_text := Some (JSON_stringify (j_object [("error", j_string "rate_limited")])) |}.
Definition fine : SdkResponse := {| rs_status := 200; rs_statusText := "OK"; rs_text := Some "{}"; rs_retryAfter := None |}.

(** Two retries reach the third answer, and one does not. *)
Example retries_run_out :
  (request client "GET" "/" None None [busy; busy; fine]).1 = Ok (Some (j_object [])) ∧
  match (request client "GET" "/" None (Some 1) [busy; busy; fine]).1 with
  | Err (RelayerError _ 429 "rate_limited" (Some wait) _) => wait = of_int 7
  | _ => False
  end.
Proof. split; vm_compute; reflexivity. Qed.

(** A body that breaks off is no [RelayerError]. *)
Example broken_body_is_thrown :
  (request client "GET" "/" None None [{| rs_status := 200; rs_statusText := "OK"; rs_text := None; rs_retryAfter := None |}]).1
  = Err (Thrown "body").
Proof. reflexivity. Qed.

Example code_examples :
  contractErrorCode "HostError: Error(Contract, #22)" = Some 22 ∧ contractErrorCode "Error(Contract,  #2)" = None ∧
  contract_message bitcoin_spv "verify_transaction" (Some 22) "" = "bitcoin-spv.verify_transaction failed with #22 HeaderNotFound".
Proof. by vm_compute. Qed.

(** The proof route with the light client a block short. *)
Definition behind : Route :=
  respond ProofRoute.Demo.deps 0 ProofRoute.Demo.asked 2 ProofRoute.Demo.proof (Some 100) ProofRoute.Demo.proved.

Lemma behind_reachable : rtc (route_step ProofRoute.Demo.deps) start_route behind.
Proof.
  etrans; [apply ProofRoute.Demo.waiting_reachable|].
  eapply rtc_l; [apply (step_build _ _ 0 ProofRoute.Demo.build ProofRoute.Demo.outcome); [vm_compute; reflexivity|done|]|].
  - by exists unit, (source_api ProofRoute.Demo.chain), tt.
  - eapply rtc_l; [apply (step_respond _ _ 0 ProofRoute.Demo.asked 2 ProofRoute.Demo.proof (Some 100)); vm_compute; reflexivity|].
    apply rtc_refl.
Qed.

Definition answer : Answer := final_answer ProofRoute.Demo.deps 2 ProofRoute.Demo.proof (Some 100).
Definition answer_response : SdkResponse := route_response (λ _, "failed") "Conflict" answer.

Lemma sdk_reads_the_proof_route_witness :
  ∃ m body, (request_loop client {| rq_method := "GET"; rq_url := ""; rq_body := None |} 2 [answer_response]).1 =
    Err (RelayerError m 409 "light_client_behind" (Some (of_int 600)) body).
Proof.
  destruct (sdk_reads_the_proof_route client ProofRoute.Demo.deps (λ _, "failed") "Conflict" behind 0
    {| r_txid := toUpperCase ProofRoute.Demo.id; r_rawConf := Some "2"; r_stage := answered (Some 100) answer |}
    (Some 100) answer {| rq_method := "GET"; rq_url := ""; rq_body := None |} 2 [answer_response] []
    ltac:(simpl; lia) behind_reachable ltac:(vm_compute; reflexivity) eq_refl eq_refl) as (H & _ & _).
  rewrite H. eexists _, _. vm_compute. reflexivity.
Defined.

Definition bundle : SPVProofBundle := {|
  txid := to_hex (rev demo_txid); rawTxNoWitness := to_hex [x02]; blockHash := to_hex block; txIndex := 3;
  merkleProof := map to_hex [replicate 32 x03]; headers := []; blockHeight := 100; confirmations := 6; bitcoinTip := 107 |}.

Lemma served_proof_reaches_the_contract_witness :
  verifyBitcoinTx client spv "AB" None
    [route_response (λ _, "failed") "OK" (reply 200 (proof_found (proof_body bundle)))] =
  (Ok (Some (proof_json (proof_body bundle)),
     {| vr_txid := to_hex demo_txid; vr_txidDisplay := to_hex (rev demo_txid); vr_blockHash := to_hex block; vr_blockHeight := 100;
        vr_confirmations := 7 |}), []).
Proof.
  apply (served_proof_reaches_the_contract client spv (λ _, "failed") "OK" "AB" None bundle block [replicate 32 x03] [x02]
    (Ok (sim_result (Some (verification_native demo_txid block 100 7)))) _ [] []); try reflexivity.
  - repeat constructor.
  - vm_compute. discriminate.
Defined.
End Demo.
