(* ===== verification/Growth.v ===== *)
(** * The app's metrics and Earn reads
    ([frontend/app/src/lib/metrics/api.ts, cohort.ts], [lib/earn/api.ts])

    The two clients of the relayer, which ask the same way, and the retention
    page's figures from the cohorts the relayer computes. *)

From Stdlib Require Import Floats.SpecFloat.
From S2P Require Import Prelude JsData JsMap JsDate JsJson Payment JsNumber CctpNet VaultWatcher Amounts Defindex SdkRelayer.

(** ** Asking the relayer *)

Inductive read_error : Type :=
| NotConfigured
| Unreachable
| RelayerSays (message : Json)
| RelayerStatus (status : Z)
| BodyThrows.

Record Ask : Type := { ask_path : string; ask_body : option Json }.

Class RelayerNet (W : Type) : Type := { rn_fetch : string → option Json → W → http Json * W }.

Definition one_slash (s : string) : string :=
  match rev (chars s) with c :: cs => if Ascii.eqb c "/" then of_chars (rev cs) else s | [] => s end.

(** [body?.error ?? ...] *)
Definition says (body : option Json) : option Json :=
  match body with
  | Some (j_object fs) => match map_get "error" fs with Some j_null | None => None | Some e => Some e end
  | _ => None
  end.

Section reads.
Context {W : Type} `{RelayerNet W} (relayerUrl : option string).
Abbreviation M := (io W read_error).

Definition relayerBase : result read_error string :=
  of_option (one_slash <$> present relayerUrl) NotConfigured.

Definition read_answer (r : http Json) : result read_error Json :=
  match r with
  | fetch_threw => Err Unreachable
  | CctpNet.answered status body =>
      if res_ok status then of_option body BodyThrows
      else match says body with Some e => Err (RelayerSays e) | None => Err (RelayerStatus status) end
  end.

Definition fetch_at (base : string) (q : Ask) : M Json := λ w,
  let '(r, w) := rn_fetch (base +:+ ask_path q) (ask_body q) w in (read_answer r, w).

Definition request (q : Ask) : M Json := base ← lift relayerBase; fetch_at base q.

(** A field of an answer; [null] has none. *)
Definition answer_field (k : string) (j : Json) : result read_error (option Json) :=
  match j with j_null => Err BodyThrows | j_object fs => Ok (map_get k fs) | _ => Ok None end.

Definition big_of (j : option Json) : result read_error Z :=
  match j with
  | Some (j_string s) => of_option (BigInt s) BodyThrows
  | Some (j_number z) => Ok z
  | _ => Err BodyThrows
  end.

Definition get_big (k : string) (j : Json) : result read_error Z := f ← answer_field k j; big_of f.

(** *** Earn *)

Definition getApy : M (option Json) :=
  j ← request {| ask_path := "/defindex/apy"; ask_body := None |}; lift (answer_field "apy" j).

Definition getVaultPosition (address : string) : M EarnPosition :=
  j ← request {| ask_path := "/defindex/position?address=" +:+ encodeURIComponent address; ask_body := None |};
  tokens ← lift (get_big "dfTokens" j);
  stroops ← lift (get_big "underlyingStroops" j);
  mret {| ep_dfTokens := tokens; ep_underlyingStroops := stroops |}.

Definition vault_ask (path caller : string) (amountStroops : Z) : Ask := {|
  ask_path := path;
  ask_body := Some (j_object [("caller", j_string caller); ("amountStroops", j_string (z_to_string amountStroops))]) |}.

Definition buildDeposit (caller : string) (amountStroops : Z) : M Json := request (vault_ask "/defindex/deposit" caller amountStroops).
Definition buildWithdraw (caller : string) (amountStroops : Z) : M Json := request (vault_ask "/defindex/withdraw" caller amountStroops).

(** *** Metrics *)

Record TvlMetrics : Type := { tm_tvlStroops : Z; tm_onChainTvlStroops : Z; tm_uniqueDepositors : option Json }.

Definition getTvlMetrics : M TvlMetrics :=
  j ← request {| ask_path := "/metrics/tvl"; ask_body := None |};
  tvl ← lift (get_big "tvlStroops" j);
  on_chain ← lift (get_big "onChainTvlStroops" j);
  unique ← lift (answer_field "uniqueDepositors" j);
  mret {| tm_tvlStroops := tvl; tm_onChainTvlStroops := on_chain; tm_uniqueDepositors := unique |}.

Definition getRetentionCohorts : M (option Json) :=
  j ← request {| ask_path := "/metrics/retention"; ask_body := None |}; lift (answer_field "cohorts" j).
End reads.

(** ** The age of a cohort *)

(** [s.split("-")] *)
Fixpoint split_dash (acc cs : list ascii) : list (list ascii) :=
  match cs with
  | [] => [rev acc]
  | c :: cs => if Ascii.eqb c "-" then rev acc :: split_dash [] cs else split_dash (c :: acc) cs
  end.

(** A finite number, cut to an integer as [Date.UTC] does. *)
Definition integer_part (x : double) : option Z :=
  match x with
  | S754_zero _ => Some 0
  | S754_finite s m e =>
      let a := if 0 <=? e then Z.pos m * 2 ^ e else Z.pos m / 2 ^ (- e) in Some (if s then - a else a)
  | _ => None
  end.

Definition MAX_TIME : Z := 8640000000000000.

(** [Date.UTC(y, m, d)]; [None] past the range of a date. *)
Definition Date_UTC (y m d : Z) : option Z :=
  let y := if (0 <=? y) && (y <=? 99) then 1900 + y else y in
  let t := (days_of_civil (y + m / 12) (m mod 12 + 1) 1 + d - 1) * DAY_MS in
  if Z.abs t <=? MAX_TIME then Some t else None.

Definition getCohortAgeDays (cohortDateStr : string) (now : Z) : Z :=
  match map (λ p, integer_part (js_Number (of_chars p))) (split_dash [] (chars cohortDateStr)) with
  | [Some y; Some m; Some d] =>
      match Date_UTC y (m - 1) d with
      | None => 0
      | Some t => if now - t <=? 0 then 1 else Z.max 1 ((now - t) / DAY_MS)
      end
  | _ => 0
  end.

(** ** The figures of the page ([cohort.ts]) *)

Inductive CohortState : Type := seasoning | retained_all | churned_all | mixed.

Record CohortAnalysis : Type := {
  an_cohort : string;
  an_depositors : Z;
  an_eligible : Z;
  an_retained : Z;
  an_churned : Z;
  an_pendingSeasoning : Z;
  an_retentionPercent : option Z;
  an_state : CohortState;
  an_seasoningDays : Z;
  an_isFullySeasoned : bool;
}.

(** [Math.round((a / b) * 100)] *)
Definition percent (a b : Z) : option Z := math_round (times (divide (of_int a) (of_int b)) (of_int 100)).

Definition analyzeCohort (c : CohortRetention) (now : Z) : CohortAnalysis :=
  let ageDays := getCohortAgeDays (cohort c) now in
  let eligible_ := Z.max 0 (eligible c) in
  let retained_ := Z.max 0 (Z.min eligible_ (retained c)) in
  {| an_cohort := cohort c;
     an_depositors := depositors c;
     an_eligible := eligible_;
     an_retained := retained_;
     an_churned := Z.max 0 (eligible_ - retained_);
     an_pendingSeasoning := Z.max 0 (depositors c - eligible_);
     an_retentionPercent := if 0 <? eligible_ then percent retained_ eligible_ else None;
     an_state := if 0 <? eligible_
                 then if retained_ =? eligible_ then retained_all else if retained_ =? 0 then churned_all else mixed
                 else seasoning;
     an_seasoningDays := Z.min 30 ageDays;
     an_isFullySeasoned := 30 <=? ageDays |}.

Record CohortsSummary : Type := {
  su_totalCohorts : Z;
  su_maturedCohorts : Z;
  su_seasoningCohorts : Z;
  su_totalDepositors : Z;
  su_totalEligible : Z;
  su_totalRetained : Z;
  su_aggregateRetentionPercent : option Z;
}.

Record totals : Type := { tt_depositors : Z; tt_eligible : Z; tt_retained : Z; tt_matured : Z; tt_seasoning : Z }.

Definition add_cohort (now : Z) (t : totals) (c : CohortRetention) : totals :=
  let a := analyzeCohort c now in
  {| tt_depositors := tt_depositors t + an_depositors a;
     tt_eligible := tt_eligible t + an_eligible a;
     tt_retained := tt_retained t + an_retained a;
     tt_matured := if 0 <? an_eligible a then tt_matured t + 1 else tt_matured t;
     tt_seasoning := if 0 <? an_eligible a then tt_seasoning t else tt_seasoning t + 1 |}.

Definition summarizeCohorts (cohorts : list CohortRetention) (now : Z) : CohortsSummary :=
  let t := foldl (add_cohort now) {| tt_depositors := 0; tt_eligible := 0; tt_retained := 0; tt_matured := 0; tt_seasoning := 0 |}
             cohorts in
  {| su_totalCohorts := zlen cohorts; su_maturedCohorts := tt_matured t; su_seasoningCohorts := tt_seasoning t;
     su_totalDepositors := tt_depositors t; su_totalEligible := tt_eligible t; su_totalRetained := tt_retained t;
     su_aggregateRetentionPercent := if 0 <? tt_eligible t then percent (tt_retained t) (tt_eligible t) else None |}.

(** *** The vault's total *)

Record TvlParts : Type := { tp_whole : string; tp_frac : string; tp_formatted : string }.

Definition formatTvlParts (stroops : option Z) : TvlParts :=
  match stroops with
  | None => {| tp_whole := "-"; tp_frac := ""; tp_formatted := "-" |}
  | Some n =>
      let sign := if n <? 0 then "-" else "" in
      let whole := toLocaleString (Z.abs n ÷ STROOP) in
      let rawFrac := chars (padded 7 (Z.rem (Z.abs n) STROOP)) in
      let trimmed := strip_zeros rawFrac in
      let frac := of_chars (if (length trimmed <? 2)%nat then take 2 rawFrac else trimmed) in
      {| tp_whole := sign +:+ whole; tp_frac := "." +:+ frac; tp_formatted := sign +:+ whole +:+ "." +:+ frac |}
  end.

Example growth_examples :
  getCohortAgeDays "2026-09-24" 1792844812000 = 30 ∧ getCohortAgeDays "2026-9" 1792844812000 = 0 ∧
  getCohortAgeDays "2026-10-25" 1792844812000 = 1 ∧ percent 2 3 = Some 67 ∧
  tp_formatted (formatTvlParts (Some 12345670000000)) = "1,234,567.00" ∧
  tp_formatted (formatTvlParts (Some (-15000001))) = "-1.5000001".
Proof. by vm_compute. Qed.

(** ** What the page adds up *)

Lemma count_if_le {A} (p q : A → bool) l : (∀ x, p x = true → q x = true) → count_if p l ≤ count_if q l.
Proof.
  intros Hpq. induction l as [|x l IH] using rev_ind; [done|]. rewrite !count_if_snoc.
  specialize (Hpq x). destruct (p x); [rewrite Hpq by done; lia|]. destruct (q x); lia.
Qed.

(** The sum of a figure over a list. *)
Definition total {A} (f : A → Z) (l : list A) : Z := foldr (λ x acc, f x + acc) 0 l.

Lemma total_ext {A} (f g : A → Z) l : (∀ x, x ∈ l → f x = g x) → total f l = total g l.
Proof.
  induction l as [|x l IH]; intros H; simpl; [done|]. rewrite H by set_solver. rewrite IH; [done|]. intros y Hy. apply H. set_solver.
Qed.

Lemma total_add {A} (f g : A → Z) l : total (λ x, f x + g x) l = total f l + total g l.
Proof. induction l as [|x l IH]; simpl; [done|]. rewrite IH. lia. Qed.

Lemma total_map {A B} (f : B → Z) (h : A → B) l : total f (map h l) = total (λ x, f (h x)) l.
Proof. induction l as [|x l IH]; simpl; [done|]. by rewrite IH. Qed.

(** One element of a list without doubles, or none, is the one asked for. *)
Lemma total_one {A} `{EqDecision A} (o : option A) l :
  NoDup l → (∀ x, o = Some x → x ∈ l) →
  total (λ x, if bool_decide (o = Some x) then 1 else 0) l = match o with Some _ => 1 | None => 0 end.
Proof.
  intros Hnd Ho. destruct o as [x|].
  - specialize (Ho x eq_refl). induction Hnd as [|y l Hy Hnd IH]; [by apply not_elem_of_nil in Ho|]. simpl.
    destruct (decide (x = y)) as [->|Hne].
    + rewrite bool_decide_true by done. enough (total (λ x, if bool_decide (Some y = Some x) then 1 else 0) l = 0) as -> by done.
      clear -Hy. induction l as [|z l IH]; [done|]. simpl. rewrite bool_decide_false by set_solver. rewrite IH; [done|set_solver].
    + rewrite bool_decide_false by congruence. rewrite IH; [done|set_solver].
  - clear. induction l as [|y l IH]; [done|]. cbn [total foldr]. rewrite bool_decide_false by done. exact IH.
Qed.

Section totals_facts.
Implicit Types (g events : list VaultEvent) (day : string) (gs : list (list VaultEvent)).

Definition ever_deposited g : bool := bool_decide (is_Some (first_deposit g)).

(** Counting day by day counts each depositor once. *)
Lemma days_count (p : list VaultEvent → bool) days gs :
  NoDup days → (∀ g day, g ∈ gs → joined day g = true → day ∈ days) →
  total (λ day, count_if (λ g, joined day g && p g) gs) days = count_if (λ g, ever_deposited g && p g) gs.
Proof.
  intros Hnd. induction gs as [|g gs IH] using rev_ind; intros Hd.
  - clear. induction days as [|d days IH]; [done|]. simpl. by rewrite IH.
  - rewrite count_if_snoc, <- IH by (intros g' day Hg; apply Hd; set_solver).
    rewrite (total_ext _ (λ day, count_if (λ g, joined day g && p g) gs +
      (if p g then if bool_decide (utcDay <$> first_deposit g = Some day) then 1 else 0 else 0))).
    2: { intros day _. rewrite count_if_snoc. unfold joined. destruct (bool_decide _), (p g); done. }
    rewrite total_add. f_equal. unfold ever_deposited. destruct (p g); [|rewrite andb_false_r; clear; induction days; simpl; lia].
    rewrite (total_one (utcDay <$> first_deposit g) days Hnd).
    + by destruct (first_deposit g).
    + intros day Hday. apply (Hd g); [set_solver|]. unfold joined. by apply bool_decide_eq_true.
Qed.

(** A cohort whose counts are in order. *)
Definition ordered_counts (c : CohortRetention) : Prop := 0 ≤ retained c ≤ eligible c ∧ eligible c ≤ depositors c.

Lemma tally_ordered t day gs : ordered_counts (tally t day gs).
Proof.
  unfold ordered_counts, tally. cbn [depositors eligible retained]. split; [split; [apply count_if_nonneg|]|]; apply count_if_le;
    intros g Hg; by bools; repeat (apply andb_true_intro; split).
Qed.

Lemma analysis_of_ordered c now : ordered_counts c →
  let a := analyzeCohort c now in
  an_eligible a = eligible c ∧ an_retained a = retained c ∧ an_eligible a = an_retained a + an_churned a ∧
  an_depositors a = an_eligible a + an_pendingSeasoning a.
Proof. unfold ordered_counts, analyzeCohort. cbn. lia. Qed.

Lemma summary_totals now cs : Forall ordered_counts cs →
  ∀ t, let t' := foldl (add_cohort now) t cs in
  tt_depositors t' = tt_depositors t + total depositors cs ∧ tt_eligible t' = tt_eligible t + total eligible cs ∧
  tt_retained t' = tt_retained t + total retained cs ∧
  tt_matured t' + tt_seasoning t' = tt_matured t + tt_seasoning t + zlen cs.
Proof.
  induction 1 as [|c cs Hc _ IH]; intros t; cbn [foldl total foldr]; [unfold zlen; simpl; lia|].
  destruct (IH (add_cohort now t c)) as (-> & -> & -> & ->). destruct (analysis_of_ordered c now Hc) as (He & Hr & _ & _).
  unfold add_cohort. cbn [tt_depositors tt_eligible tt_retained tt_matured tt_seasoning]. rewrite He, Hr.
  unfold total, zlen. cbn [an_depositors analyzeCohort length]. destruct (0 <? eligible c); lia.
Qed.

(** The page's totals over the relayer's cohorts count the vault's depositors,
    each once: all that ever deposited, those past their own 30-day mark, and
    those of them that still held at it; each cohort splits into retained, churned
    and still seasoning without remainder. *)
Theorem growth_page_counts_depositors events asked now :
  Forall readable events →
  ∃ cs, computeRetentionCohorts events asked = Ok cs ∧
    let gs := per_depositor events in
    let s := summarizeCohorts cs now in
    su_totalDepositors s = count_if ever_deposited gs ∧
    su_totalEligible s = count_if (reached_mark (asked / 1000)) gs ∧
    su_totalRetained s = count_if (λ g, reached_mark (asked / 1000) g && held_at_mark g) gs ∧
    su_maturedCohorts s + su_seasoningCohorts s = su_totalCohorts s ∧
    ∀ c, c ∈ cs → let a := analyzeCohort c now in
      an_eligible a = an_retained a + an_churned a ∧ an_depositors a = an_eligible a + an_pendingSeasoning a.
Proof.
  intros Hr. destruct (retention_counts_depositors events asked Hr) as (cs & Hcs & _ & Hnd & Hall).
  exists cs. split; [done|]. cbv zeta. set (gs := per_depositor events) in *. set (t := asked / 1000) in *.
  assert (∀ c, c ∈ cs → c = tally t (cohort c) gs) as Hc by (intros c; apply Hall).
  assert (Forall ordered_counts cs) as Hord.
  { apply Forall_forall. intros c Hin. rewrite (Hc c Hin). apply tally_ordered. }
  assert (∀ g day, g ∈ gs → joined day g = true → day ∈ map cohort cs) as Hdays.
  { intros g day Hg Hj. apply list_elem_of_fmap. exists (tally t day gs). split; [done|]. apply Hall. split; [done|].
    cbn [tally depositors]. apply list_elem_of_split in Hg as (l1 & l2 & ->).
    rewrite (count_if_perm _ _ ((l1 ++ l2) ++ [g])) by (rewrite <- app_assoc; apply Permutation_app_head, Permutation_cons_append).
    rewrite count_if_snoc, Hj. pose proof (count_if_nonneg (joined day) (l1 ++ l2)). lia. }
  destruct (summary_totals now cs Hord {| tt_depositors := 0; tt_eligible := 0; tt_retained := 0; tt_matured := 0; tt_seasoning := 0 |})
    as (Hd & He & Ht & Hm).
  assert (∀ f p, (∀ c, c ∈ cs → f c = count_if (λ g, joined (cohort c) g && p g) gs) →
    total f cs = count_if (λ g, ever_deposited g && p g) gs) as Hcount.
  { intros f p Hf. rewrite (total_ext f (λ c, count_if (λ g, joined (cohort c) g && p g) gs)) by done.
    rewrite <- (days_count p (map cohort cs) gs Hnd Hdays). symmetry. apply (total_map (λ day, count_if (λ g, joined day g && p g) gs)). }
  unfold summarizeCohorts. cbn [su_totalDepositors su_totalEligible su_totalRetained su_maturedCohorts su_seasoningCohorts su_totalCohorts].
  rewrite Hd, He, Ht, Hm. cbn [tt_depositors tt_eligible tt_retained tt_matured tt_seasoning].
  split_and!; [| | |lia|].
  - rewrite (Hcount depositors (λ _, true)).
    + rewrite Z.add_0_l. apply count_if_ext. intros g _. by rewrite andb_true_r.
    + intros c Hin. rewrite (Hc c Hin) at 1. cbn [tally depositors]. apply count_if_ext. intros g _. by rewrite andb_true_r.
  - rewrite (Hcount eligible (reached_mark t)) by (intros c Hin; by rewrite (Hc c Hin) at 1).
    rewrite Z.add_0_l. apply count_if_ext. intros g _. unfold ever_deposited, reached_mark. by destruct (first_deposit g).
  - rewrite (Hcount retained (λ g, reached_mark t g && held_at_mark g)).
    + rewrite Z.add_0_l. apply count_if_ext. intros g _. unfold ever_deposited, reached_mark. by destruct (first_deposit g).
    + intros c Hin. rewrite (Hc c Hin) at 1. cbn [tally retained]. apply count_if_ext. intros g _. by rewrite andb_assoc.
  - intros c Hin. rewrite Forall_forall in Hord. by apply analysis_of_ordered, Hord.
Qed.
End totals_facts.
