(* ===== verification/EarnFlow.v ===== *)
(** * Earn transactions ([frontend/app/src/lib/flows/earn.ts])

    A deposit to the vault or a withdrawal: the relayer builds the transaction,
    the wallet signs it, and the browser records it, sends it and polls for its
    ledger. The wallet and the RPC are [EarnEnv]. *)

From S2P Require Import Prelude JsData JsMap JsJson Rejection FlowEngine AppStore PositionTx SdkRelayer Growth.

(** The answer of [sendTransaction], and of the poll. *)
Inductive sent_status : Type := st_pending | st_duplicate | st_try_again_later | st_error (result : string).
Inductive final_status : Type := fs_success | fs_not_found | fs_failed (result : string).

Class EarnEnv (W : Type) : Type := {
  ea_net :: RelayerNet W;
  ea_relayerUrl : option string;
  ea_now : W → Z;
  ea_sign : string → W → result exn string * W;
  ea_hash : string → result exn string;
  ea_send : string → W → result exn (string * sent_status) * W;
  ea_poll : string → W → result exn final_status * W;
}.

(** The error a request throws. *)
Definition read_exn (e : read_error) : exn := error
  match e with
  | NotConfigured => "NEXT_PUBLIC_RELAYER_URL is not configured"
  | Unreachable => "Relayer unreachable"
  | RelayerSays (j_string m) => m
  | RelayerSays j => JSON_stringify j
  | RelayerStatus s => "Relayer error " +:+ z_to_string s
  | BodyThrows => "TypeError"
  end.

Section earn.
Context {W : Type} `{EarnEnv W}.
Abbreviation M := (io (device W) exn).

Definition ask_relayer {A} (m : io W read_error A) : M A := await (λ w,
  let '(r, w) := m w in (match r with Ok a => Ok a | Err e => Err (read_exn e) end, w)).

Definition sign (xdr : string) : M string :=
  catching (await (ea_sign xdr)) (λ e,
    match e with
    | Thrown t =>
        match asRejection t Rejection.stellar None with
        | Some rejected =>
            emit (e_signature_cancelled (match rejected with SignatureRejectedError _ n => n | _ => None end));;
            throw (Thrown rejected)
        | None => throw e
        end
    | _ => throw e
    end).

(** What follows a transaction the network has. *)
Definition await_ledger (owner hash sentHash : string) : M string :=
  final ← await (ea_poll sentHash);
  match final with
  | fs_not_found => emit (e_timed_out hash);; throw (error "ConfirmationTimedOut")
  | fs_failed result => removeTx owner hash;; throw (error ("Transaction failed on-chain: " +:+ result))
  | fs_success => removeTx owner hash;; emit (e_settled (Some hash));; mret sentHash
  end.

Definition send (owner hash signed : string) : M string :=
  r ← catching (await (ea_send signed)) (λ e, removeTx owner hash;; throw e);
  match r.2 with
  | st_error result => removeTx owner hash;; throw (error ("Transaction rejected by the network: " +:+ result))
  | st_try_again_later => removeTx owner hash;; throw (error "SubmissionThrottled")
  | st_pending | st_duplicate => await_ledger owner hash r.1
  end.

Definition signAndSubmit (xdr owner : string) (kind : PendingTxKind) : M string :=
  emit (e_awaiting_signature Rejection.stellar);;
  signed ← sign xdr;
  hash ← lift (ea_hash signed);
  now ← gets (λ d, ea_now (dv_world d));
  addTx owner {| ptx_hash := hash; ptx_kind := kind; ptx_createdAt := now; ptx_positionUpdate := None |};;
  emit (e_submitted hash);;
  send owner hash signed.

(** [const { xdr } = await build(...)] *)
Definition built_xdr (j : Json) : M string :=
  match j with
  | j_object fs => match map_get "xdr" fs with Some (j_string x) => mret x | _ => throw (error "TypeError") end
  | _ => throw (error "TypeError")
  end.

Definition depositToVault (caller : string) (amountStroops : Z) : M string :=
  j ← ask_relayer (buildDeposit ea_relayerUrl caller amountStroops);
  xdr ← built_xdr j; signAndSubmit xdr caller k_earn_deposit.

Definition withdrawFromVault (caller : string) (amountStroops : Z) : M string :=
  j ← ask_relayer (buildWithdraw ea_relayerUrl caller amountStroops);
  xdr ← built_xdr j; signAndSubmit xdr caller k_earn_withdraw.
End earn.

(** ** The record follows the transaction *)

Section record.
Context {W : Type} `{EarnEnv W}.
Implicit Types (d : device W).

(** Whether, after [send] in this world, the poll of a transaction the network took
    has no end yet, or the tab closed before it; and the hash of one that landed. *)
Definition left_open (signed : string) (w : W) : bool :=
  match ea_send signed w with
  | (Ok (h, (st_pending | st_duplicate)), w) =>
      match (ea_poll h w).1 with Ok (fs_success | fs_failed _) => false | _ => true end
  | (Err TabClosed, _) => true
  | _ => false
  end.

Definition landed (signed : string) (w : W) : option string :=
  match ea_send signed w with
  | (Ok (h, (st_pending | st_duplicate)), w) => match (ea_poll h w).1 with Ok fs_success => Some h | _ => None end
  | _ => None
  end.

Definition ok_of {E A} (r : result E A) : option A := match r with Ok a => Some a | Err _ => None end.

Lemma pending_set_other o o' ts d : o' ≠ o → pending_of o' (set_activity (<[o := ts]> (activity d)) d) = pending_of o' d.
Proof. intros Hne. unfold pending_of. cbn. by rewrite lookup_insert_ne. Qed.

Lemma sign_keeps xdr d :
  ok_of (sign xdr d).1 = ok_of (ea_sign xdr (dv_world d)).1 ∧ activity (sign xdr d).2 = activity d ∧
  dv_world (sign xdr d).2 = (ea_sign xdr (dv_world d)).2.
Proof.
  unfold sign, catching, try_catch, await. destruct (ea_sign xdr (dv_world d)) as [[s|e] w]; [done|].
  destruct e as [t| |]; [|done..]. by destruct (asRejection t _ None).
Qed.

Lemma send_records o h signed d :
  let '(r, d') := send o h signed d in
  ok_of r = landed signed (dv_world d) ∧ (∀ o', o' ≠ o → pending_of o' d' = pending_of o' d) ∧
  pending_of o d' = if left_open signed (dv_world d) then pending_of o d else filter (λ t, ptx_hash t ≠ h) (pending_of o d).
Proof.
  unfold send, catching, try_catch, await, left_open, landed, mbind, io_bind.
  destruct (ea_send signed (dv_world d)) as [[[sh st]|e] w]; cbn [fst snd].
  - destruct st; unfold await_ledger, await, mbind, io_bind; cbn [dv_world set_world];
      try (destruct (ea_poll sh w) as [[[| |res]|e] w']; cbn [fst snd]);
      (split_and!; [done| |]; [intros o' Ho; try done; apply (pending_set_other o o' _ (set_world _ d) Ho)|]); try done;
      apply (pending_insert o _ (set_world _ d)).
  - destruct e; (split_and!; [done| |]; [intros o' Ho; try done; apply (pending_set_other o o' _ (set_world w d) Ho)|]);
      try done; apply (pending_insert o _ (set_world w d)).
Qed.

(** A signed Earn transaction is recorded before it is sent, under its own hash
    and account; the record is gone once the network has settled it, failed it or
    not taken it, or sending it threw, and stays while its poll has no end; what
    was never signed leaves the records alone, and success is reported only of
    what landed. *)
Theorem earn_record_follows_the_transaction xdr o kind d :
  let '(r, d') := signAndSubmit xdr o kind d in
  (∀ o', o' ≠ o → pending_of o' d' = pending_of o' d) ∧
  match ok_of (ea_sign xdr (dv_world d)).1 ≫= λ signed, pair signed <$> ok_of (ea_hash signed) with
  | Some (signed, h) =>
      let w := (ea_sign xdr (dv_world d)).2 in
      ok_of r = landed signed w ∧
      pending_of o d' = filter (λ t, ptx_hash t ≠ h) (pending_of o d) ++
        if left_open signed w
        then [{| ptx_hash := h; ptx_kind := kind; ptx_createdAt := ea_now w; ptx_positionUpdate := None |}] else []
  | None => ok_of r = None ∧ pending_of o d' = pending_of o d
  end.
Proof.
  unfold signAndSubmit, emit, modify. unfold mbind at 1, io_bind at 1. set (d0 := set_events _ d).
  pose proof (sign_keeps xdr d0) as (Hok & Hact & Hw). unfold mbind at 1, io_bind at 1.
  change (dv_world d0) with (dv_world d) in Hok, Hw.
  assert (∀ o', pending_of o' (sign xdr d0).2 = pending_of o' d) as Hp by (intros o'; unfold pending_of; by rewrite Hact).
  destruct (sign xdr d0) as [[signed|e] d1]; cbn [fst snd] in Hok, Hact, Hw, Hp; cbn [ok_of] in Hok; rewrite <- Hok;
    cbn [mbind option_bind]; [|done].
  unfold lift. unfold mbind at 1, io_bind at 1. destruct (ea_hash signed) as [h|e]; cbn [ok_of fmap option_fmap option_map]; [|done].
  unfold gets. unfold mbind at 1, io_bind at 1. rewrite Hw. set (w := (ea_sign xdr (dv_world d)).2) in *. set (t := {| ptx_hash := h |}).
  unfold mbind at 1, io_bind at 1. rewrite addTx_run. unfold mbind at 1, io_bind at 1.
  set (d2 := set_events _ _). pose proof (send_records o h signed d2) as Hs.
  assert (dv_world d2 = w) as Ew by done. rewrite Ew in Hs.
  assert (pending_of o d2 = filter (λ t', ptx_hash t' ≠ h) (pending_of o d) ++ [t]) as E2.
  { unfold d2. change (pending_of o (set_events _ ?x)) with (pending_of o x). rewrite pending_insert. by rewrite Hp. }
  destruct (send o h signed d2) as [r d']. destruct Hs as (Hr & Ho & Hpend). split_and!; [|done|].
  - intros o' Hne. rewrite Ho by done. unfold d2. change (pending_of o' (set_events _ ?x)) with (pending_of o' x).
    rewrite pending_set_other by done. apply Hp.
  - rewrite Hpend, E2. destruct (left_open signed w); [done|]. rewrite filter_app, app_nil_r.
    assert (filter (λ t', ptx_hash t' ≠ h) [t] = []) as ->.
    { rewrite filter_cons. destruct (decide _) as [Hn|]; [by destruct Hn|done]. }
    rewrite app_nil_r. apply list_filter_filter_l. naive_solver.
Qed.
End record.
