(* ===== verification/LoanCycle.v ===== *)
(** * The cycle of a loan, as the app shows it ([frontend/app/src/lib/receive/timeline.ts])

    The events of a loan in chain order, and the rows of its page: every step of
    the cycle, done or not. *)

From Stdlib Require Import Sorting.Sorted.
From S2P Require Import Prelude JsData JsMap Timeline.

Record CycleEvent : Type := {
  ce_kind : TimelineKind;
  ce_chain : TimelineChain;
  ce_hash : string;
  ce_at : option Z;
  ce_label : option string;
}.

Definition cycle_id (e : CycleEvent) : TimelineKind * string := (ce_kind e, ce_hash e).

(** The first of each kind and hash. *)
Fixpoint unique_events (seen : list (TimelineKind * string)) (events : list CycleEvent) : list CycleEvent :=
  match events with
  | [] => []
  | e :: rest =>
      if bool_decide (cycle_id e ∈ seen) then unique_events seen rest
      else e :: unique_events (cycle_id e :: seen) rest
  end.

(** [ta < tb ? -1 : 1] where they differ, no time being infinity. *)
Definition compare_at (a b : option Z) : Z :=
  match a, b with
  | Some x, Some y => if x =? y then 0 else if x <? y then -1 else 1
  | Some _, None => -1
  | None, Some _ => 1
  | None, None => 0
  end.

Definition compare_cycle (a b : nat * CycleEvent) : Z :=
  let p := PHASE (ce_kind a.2) - PHASE (ce_kind b.2) in
  if negb (p =? 0) then p
  else
    let t := compare_at (ce_at a.2) (ce_at b.2) in
    if negb (t =? 0) then t
    else
      let r := RANK (ce_kind a.2) - RANK (ce_kind b.2) in
      if negb (r =? 0) then r else Z.of_nat a.1 - Z.of_nat b.1.

Definition orderTimeline (events : list CycleEvent) : list CycleEvent :=
  (sort_with (λ a b, compare_cycle a b <=? 0) (imap pair (unique_events [] events))).*2.

Record TimelineRow : Type := { row_kind : TimelineKind; row_event : option CycleEvent; row_passed : bool }.

Definition event_row (e : CycleEvent) : TimelineRow := {| row_kind := ce_kind e; row_event := Some e; row_passed := false |}.

(** The row of a step without a transaction, before the first row of a later step
    or at the end. *)
Fixpoint place (k : TimelineKind) (rows : list TimelineRow) : list TimelineRow :=
  match rows with
  | [] => [{| row_kind := k; row_event := None; row_passed := false |}]
  | r :: rest =>
      if RANK k <? RANK (row_kind r) then {| row_kind := k; row_event := None; row_passed := true |} :: r :: rest
      else r :: place k rest
  end.

Definition KINDS : list TimelineKind := [tk_btc_lock; tk_verified; tk_borrowed; tk_received; tk_repaid; tk_released].

Definition has_kind (ordered : list CycleEvent) (k : TimelineKind) : bool :=
  existsb (λ e, bool_decide (ce_kind e = k)) ordered.

(** A loan borrowed as it is has no row of its own for being received. *)
Definition has_row (ordered : list CycleEvent) (k : TimelineKind) : bool :=
  has_kind ordered k || (bool_decide (k = tk_received) && has_kind ordered tk_borrowed).

Definition timelineRows (events : list CycleEvent) : list TimelineRow :=
  let ordered := orderTimeline events in
  foldl (λ rows k, if has_row ordered k then rows else place k rows) (map event_row ordered) KINDS.

(** ** The order is the relayer's *)

Definition relayed (e : CycleEvent) : TimelineEvent := {|
  te_kind := ce_kind e; te_chain := ce_chain e; te_hash := ce_hash e;
  te_at := match ce_at e with Some t => at_ms t | None => at_null end; te_detail := None |}.

Lemma unique_relayed seen es : unique_from seen (map relayed es) = map relayed (unique_events seen es).
Proof.
  revert seen. induction es as [|e es IH]; intros seen; [done|]. cbn [map unique_from unique_events].
  change (event_id (relayed e)) with (cycle_id e). case_bool_decide; [apply IH|]. cbn [map]. by rewrite IH.
Qed.

Lemma compare_relayed a b : compare_events (prod_map id relayed a) (prod_map id relayed b) = compare_cycle a b.
Proof.
  by destruct a as [i [? ? ? [] ?]], b as [j [? ? ? [] ?]].
Qed.

Lemma sort_with_map {A B} (f : A → B) (le : A → A → bool) (le' : B → B → bool) l :
  (∀ a b, le' (f a) (f b) = le a b) → sort_with le' (map f l) = map f (sort_with le l).
Proof.
  intros Hle. induction l as [|x l IH]; [done|]. cbn. fold (sort_with le' (map f l)) (sort_with le l). rewrite IH.
  generalize (sort_with le l). clear l IH. intros l. induction l as [|y l IH]; [done|]. cbn. rewrite Hle.
  destruct (le x y); [done|]. cbn. by rewrite IH.
Qed.

(** The app puts a loan's events in the order the relayer serves them in. *)
Theorem app_orders_as_the_relayer es : map relayed (orderTimeline es) = Timeline.orderTimeline (map relayed es).
Proof.
  unfold Timeline.orderTimeline, orderTimeline. rewrite unique_relayed.
  assert (imap pair (map relayed (unique_events [] es)) = map (prod_map id relayed) (imap pair (unique_events [] es))) as ->.
  { generalize (unique_events [] es). intros l. apply list_eq. intros i.
    rewrite list_lookup_imap, !list_lookup_fmap, list_lookup_imap. by destruct (l !! i). }
  rewrite (sort_with_map _ (λ a b, compare_cycle a b <=? 0)) by (intros a b; by rewrite compare_relayed).
  generalize (sort_with (λ a b, compare_cycle a b <=? 0) (imap pair (unique_events [] es))). intros l.
  induction l as [|x l IH]; [done|]. cbn. f_equal. exact IH.
Qed.

(** ** The rows *)

Definition empties (rows : list TimelineRow) : list TimelineKind :=
  omap (λ r, match row_event r with None => Some (row_kind r) | Some _ => None end) rows.

Definition empty_row (k : TimelineKind) (rows : list TimelineRow) : TimelineRow := {|
  row_kind := k; row_event := None; row_passed := existsb (λ r, RANK k <? RANK (row_kind r)) rows |}.

Lemma place_split k rows : ∃ before after, rows = before ++ after ∧ place k rows = before ++ empty_row k rows :: after ∧
  Forall (λ r, RANK (row_kind r) ≤ RANK k) before ∧
  match after with r :: _ => RANK k < RANK (row_kind r) | [] => True end.
Proof.
  induction rows as [|r rows (b & a & E & Hp & Hb & Ha)]; [by exists [], []|]. cbn [place].
  destruct (RANK k <? RANK (row_kind r)) eqn:Er; bools.
  - exists [], (r :: rows). unfold empty_row. cbn. rewrite (proj2 (Z.ltb_lt _ _) Er). by split_and!.
  - exists (r :: b), a. unfold empty_row in *. cbn. rewrite (proj2 (Z.ltb_ge _ _) Er), Hp, E. split_and!; [done|done|by constructor|done].
Qed.

Lemma rank_phase j k : RANK j ≤ RANK k → PHASE j ≤ PHASE k.
Proof. by destruct j, k. Qed.

Definition by_phase (a b : TimelineRow) : Prop := PHASE (row_kind a) ≤ PHASE (row_kind b).

Lemma place_sorted k rows : StronglySorted by_phase rows → StronglySorted by_phase (place k rows).
Proof.
  intros Hs. destruct (place_split k rows) as (b & a & E & -> & Hb & Ha). rewrite E in Hs. clear E.
  assert (StronglySorted by_phase a) as Hsa.
  { clear Hb. induction b as [|r b IH]; [done|]. inversion Hs. auto. }
  induction Hb as [|r b Hr Hb IH]; cbn [app] in *.
  - constructor; [done|]. destruct a as [|r a]; [done|]. inversion Hsa as [|? ? _ Hall]; subst.
    assert (by_phase (empty_row k rows) r) as Hr by (apply rank_phase; cbn; lia).
    constructor; [done|]. eapply Forall_impl; [exact Hall|]. intros x Hx. unfold by_phase in *. lia.
  - inversion Hs as [|? ? Hs' Hall]; subst. constructor; [by apply IH|]. apply Forall_app in Hall as [H1 H2].
    apply Forall_app. split; [done|]. constructor; [by apply rank_phase|done].
Qed.

Lemma empties_app a b : empties (a ++ b) = empties a ++ empties b.
Proof. unfold empties. apply omap_app. Qed.

Section rows.
Context (ordered : list CycleEvent).

(** The rows once the steps [ks] were looked at. *)
Record rows_inv (ks : list TimelineKind) (rows : list TimelineRow) : Prop := {
  ri_events : omap row_event rows = ordered;
  ri_empties : empties rows ≡ₚ filter (λ k, has_row ordered k = false) ks;
  ri_sorted : StronglySorted by_phase rows;
  ri_done : ∀ r e, r ∈ rows → row_event r = Some e → row_kind r = ce_kind e ∧ row_passed r = false;
  ri_passed : ∀ r, r ∈ rows → row_event r = None →
    row_passed r = true ↔ ∃ e, e ∈ ordered ∧ RANK (row_kind r) < RANK (ce_kind e);
}.

Lemma empty_rank ks rows r k : rows_inv ks rows → (∀ j, j ∈ ks → RANK j < RANK k) → r ∈ rows → row_event r = None →
  RANK (row_kind r) < RANK k.
Proof.
  intros Hi Hks Hr He. apply Hks. assert (row_kind r ∈ empties rows) as Hin.
  { apply list_elem_of_omap. exists r. by rewrite He. }
  rewrite (ri_empties _ _ Hi) in Hin. by apply list_elem_of_filter in Hin as [_ ?].
Qed.

Lemma rows_step ks rows k : rows_inv ks rows → (∀ j, j ∈ ks → RANK j < RANK k) →
  rows_inv (ks ++ [k]) (if has_row ordered k then rows else place k rows).
Proof.
  intros Hi Hks. destruct (has_row ordered k) eqn:Eh.
  - destruct Hi as [? He ? ? ?]. split; try done. rewrite He, filter_app, filter_cons, decide_False by congruence. by rewrite app_nil_r.
  - destruct (place_split k rows) as (b & a & E & Hp & _ & _). pose proof (place_sorted k rows (ri_sorted _ _ Hi)) as Hs.
    assert (∀ r, r ∈ place k rows → r = empty_row k rows ∨ r ∈ rows) as Hin by 
      (intros r; rewrite Hp; assert (r ∈ b ∨ r ∈ a → r ∈ rows) by (rewrite E; set_solver); set_solver).
    assert (empties (place k rows) = empties b ++ k :: empties a) as Hk by (rewrite Hp, empties_app; done).
    assert (empties rows = empties b ++ empties a) as Hba by (rewrite E; apply empties_app).
    assert (omap row_event rows = omap row_event b ++ omap row_event a) as Ho by (rewrite E; apply omap_app).
    split; [| |done| |].
    + rewrite Hp, omap_app. cbn. rewrite <- Ho. apply Hi.
    + rewrite Hk, filter_app, filter_cons, decide_True, filter_nil, <- (ri_empties _ _ Hi), Hba by done.
      rewrite <- app_assoc. apply Permutation_app_head, Permutation_cons_append.
    + intros r e [->|Hr]%Hin He; [done|]. by apply (ri_done _ _ Hi).
    + intros r [->|Hr]%Hin He; [|by apply (ri_passed _ _ Hi)]. cbn. rewrite existsb_exists. split.
      * intros (r & Hr%list_elem_of_In & Hlt%Z.ltb_lt). destruct (row_event r) as [e|] eqn:Ee.
        -- destruct (ri_done _ _ Hi r e Hr Ee) as [Hke _]. exists e. rewrite <- Hke. split; [|done].
           rewrite <- (ri_events _ _ Hi). apply list_elem_of_omap. by exists r.
        -- pose proof (empty_rank _ _ r k Hi Hks Hr Ee). lia.
      * intros (e & He' & Hlt). rewrite <- (ri_events _ _ Hi) in He'. apply list_elem_of_omap in He' as (r & Hr & Ee).
        exists r. split; [by apply list_elem_of_In|]. apply Z.ltb_lt. by rewrite (proj1 (ri_done _ _ Hi r e Hr Ee)).
Qed.
End rows.

Lemma first_rows events : rows_inv (orderTimeline events) [] (map event_row (orderTimeline events)).
Proof.
  set (l := orderTimeline events).
  assert (StronglySorted by_phase (map event_row l)) as Hs.
  { destruct (orderTimeline_spec (map relayed events)) as (_ & _ & _ & Ho). rewrite <- app_orders_as_the_relayer in Ho. fold l in Ho.
    assert (StronglySorted no_later (map relayed l)) as Hl.
    { apply Ho. intros e (c & -> & _)%list_elem_of_fmap. unfold known_order. cbn. by destruct (ce_at c). }
    clear -Hl. clearbody l. induction l as [|x l IH]; [constructor|]. inversion Hl as [|? ? Hl' Hx]; subst. cbn. constructor; [by apply IH|].
    apply Forall_forall. intros r (c & -> & Hc)%list_elem_of_fmap. rewrite Forall_forall in Hx.
    specialize (Hx (relayed c) (list_elem_of_fmap_2 relayed _ _ Hc)). unfold no_later, by_phase in *. cbn in *. lia. }
  split; [| |done| |].
  - clear. induction l as [|x l IH]; cbn; [done|]. by f_equal.
  - clear. rewrite filter_nil. induction l as [|x l IH]; cbn; done.
  - intros r e (c & -> & _)%list_elem_of_fmap [= ->]. done.
  - intros r (c & -> & _)%list_elem_of_fmap. done.
Qed.

(** The page of a loan shows every transaction once, in chain order, and one empty
    row for each step that has none (being received apart, once something was
    borrowed); its rows go from the lock to the release, and an empty step is
    marked as passed exactly when a later step has a transaction. *)
Theorem loan_page_is_the_cycle events :
  let rows := timelineRows events in
  let ordered := orderTimeline events in
  omap row_event rows = ordered ∧
  empties rows ≡ₚ filter (λ k, has_row ordered k = false) KINDS ∧
  StronglySorted by_phase rows ∧
  (∀ r, r ∈ rows → row_event r = None → row_passed r = true ↔ ∃ e, e ∈ ordered ∧ RANK (row_kind r) < RANK (ce_kind e)) ∧
  ∀ e, e ∈ events → cycle_id e ∈ cycle_id <$> ordered.
Proof.
  cbv zeta. assert (rows_inv (orderTimeline events) KINDS (timelineRows events)) as [H1 H2 H3 _ H5].
  { unfold timelineRows. set (l := orderTimeline events). unfold KINDS at 2. cbn [foldl].
    change KINDS with ((((([] ++ [tk_btc_lock]) ++ [tk_verified]) ++ [tk_borrowed]) ++ [tk_received]) ++ [tk_repaid] ++ [tk_released]).
    rewrite (assoc_L (++)).
    repeat (apply rows_step; [|intros j; cbn; rewrite ?elem_of_cons, ?elem_of_nil; intros Hj; destruct_or?; subst; by vm_compute]).
    apply first_rows. }
  split_and!; [done..|]. intros e He. destruct (orderTimeline_spec (map relayed events)) as (_ & _ & Hall & _).
  rewrite <- app_orders_as_the_relayer in Hall.
  specialize (Hall (relayed e) (list_elem_of_fmap_2 relayed _ _ He)). change (event_id (relayed e)) with (cycle_id e) in Hall.
  apply list_elem_of_fmap in Hall as (x & Ex & (c & -> & Hc)%list_elem_of_fmap). apply list_elem_of_fmap. exists c. split; [exact Ex|done].
Qed.
