(* ===== verification/FaucetRoute.v ===== *)
(** * The faucet's routes ([relayer/src/routes/faucet.ts])

    The status, the challenge and the claim as the relayer answers them, in
    JSON, and what the app makes of the answers ([Funding]). The words of the
    faucet's errors are an argument. *)

From S2P Require Import Prelude JsData JsMap JsJson RateLimit CctpNet BitcoinMessage Keys Payment Faucet DepositStatus Funding Guide.

Definition PUBLIC_SIGNET_FAUCETS : list string :=
  ["https://signetfaucet.com"; "https://bitcoinsignetfaucet.com"; "https://signet.dcorral.com"].

Definition SOCIAL_LOGIN_ONLY_MESSAGE : string :=
  "The Writz Signet faucet only funds accounts created through the Writz testnet app's social login, " +:+
  "once per account. Builders: use a public Signet faucet.".

Definition code_text (c : FaucetErrorCode) : string :=
  match c with
  | invalid_request => "invalid_request" | invalid_address => "invalid_address" | faucet_address => "faucet_address"
  | nonce_invalid => "nonce_invalid" | address_key_mismatch => "address_key_mismatch" | bad_signature => "bad_signature"
  | login_expired => "login_expired" | login_invalid => "login_invalid" | login_wrong_app => "login_wrong_app"
  | login_wrong_network => "login_wrong_network" | login_not_social => "login_not_social"
  | login_address_mismatch => "login_address_mismatch" | login_provider_not_allowed => "login_provider_not_allowed"
  | login_check_unavailable => "login_check_unavailable" | account_already_claimed => "account_already_claimed"
  | stellar_address_already_claimed => "stellar_address_already_claimed"
  | signet_address_already_claimed => "signet_address_already_claimed" | ip_cooldown => "ip_cooldown"
  | daily_cap_reached => "daily_cap_reached" | faucet_empty => "faucet_empty"
  | upstream_unavailable => "upstream_unavailable" | broadcast_rejected => "broadcast_rejected"
  end.

Record faucet_reply : Type := { fr_status : Z; fr_retryAfter : option Z; fr_body : Json }.

Definition public_faucets : Json := j_array (map j_string PUBLIC_SIGNET_FAUCETS).

Definition faucet_limited (seconds : Z) : faucet_reply := {|
  fr_status := 429; fr_retryAfter := Some seconds;
  fr_body := j_object [("error", j_string "rate_limited");
                       ("message", j_string "too many faucet requests from this address; slow down");
                       ("retryAfterSeconds", j_number seconds)] |}.

Definition faucet_off (reason : string) : faucet_reply := {|
  fr_status := 503; fr_retryAfter := None;
  fr_body := j_object [("error", j_string "faucet_disabled");
                       ("message", j_string ("the Writz Signet faucet is not available: " +:+ reason));
                       ("reason", j_string reason); ("publicFaucets", public_faucets)] |}.

Definition names_others (c : FaucetErrorCode) : bool :=
  match c with faucet_empty | upstream_unavailable | daily_cap_reached => true | _ => false end.

(** What a [FaucetError] is answered with, its words an argument. *)
Definition refused (message : string) (c : FaucetErrorCode) (retry : option Z) : faucet_reply := {|
  fr_status := HTTP_STATUS c; fr_retryAfter := retry;
  fr_body := j_object (
    [("error", j_string (code_text c)); ("message", j_string message)] ++
    match retry with Some s => [("retryAfterSeconds", j_number s)] | None => [] end ++
    if names_others c then [("publicFaucets", public_faucets)] else []) |}.

Definition internal_error : faucet_reply := {|
  fr_status := 500; fr_retryAfter := None;
  fr_body := j_object [("error", j_string "internal_error"); ("message", j_string "the faucet could not complete this claim")] |}.

Definition sent_reply (r : string * string * Z * Z) : faucet_reply :=
  let '(id, address, sats, fee) := r in {|
  fr_status := 200; fr_retryAfter := None;
  fr_body := j_object [("txid", j_string id); ("address", j_string address); ("amountSats", j_number sats);
                       ("feeSats", j_number fee); ("explorerUrl", j_string ("https://mempool.space/signet/tx/" +:+ id))] |}.

Definition ok_reply (j : Json) : faucet_reply := {| fr_status := 200; fr_retryAfter := None; fr_body := j |}.

Definition status_json (st : FaucetStatus) : Json := j_object [
  ("enabled", j_bool true); ("network", j_string "signet"); ("access", j_string "testnet_app_social_login");
  ("message", j_string SOCIAL_LOGIN_ONLY_MESSAGE); ("address", j_string (st_address st));
  ("amountSats", j_number (st_amountSats st)); ("dailyCap", j_number (st_dailyCap st));
  ("remainingToday", j_number (st_remainingToday st)); ("resetsAt", j_string (st_resetsAt st));
  ("funded", match st_funded st with Some b => j_bool b | None => j_null end); ("publicFaucets", public_faucets)].

(** The router: its two limiters, the faucet when there is one, and the outcomes
    reported to the funnel, oldest first. *)
Record faucet_app (F : Type) : Type := mkFaucetApp {
  fa_attempts : jsmap string Window;
  fa_nonces : jsmap string Window;
  fa_faucet : option (faucet F);
  fa_reports : list (query_param * string);
}.
Arguments mkFaucetApp {F}. Arguments fa_attempts {F}. Arguments fa_nonces {F}. Arguments fa_faucet {F}. Arguments fa_reports {F}.

Section routes.
Context {F : Type} `{FaucetEnv F, PaymentLib, MessageLib, KeyEnv}.
Context (settings : FaucetSettings) (wallet : WritzKeyPair) (self : string) (words : FaucetErrorCode → string).
Context (limits : RateLimitOptions) (disabledReason : string).

(** GET /faucet/signet; a failure to answer is the server's own error ([RelayerServer]). *)
Definition get_signet (s : faucet_app F) : result faucet_exn faucet_reply * faucet_app F :=
  match fa_faucet s with
  | None =>
      (Ok (ok_reply (j_object [
         ("enabled", j_bool false); ("network", j_string "signet"); ("access", j_string "testnet_app_social_login");
         ("message", j_string SOCIAL_LOGIN_ONLY_MESSAGE); ("reason", j_string disabledReason); ("publicFaucets", public_faucets)])), s)
  | Some f =>
      let '(r, f) := status settings self f in
      (match r with Ok st => Ok (ok_reply (status_json st)) | Err e => Err e end,
       mkFaucetApp (fa_attempts s) (fa_nonces s) (Some f) (fa_reports s))
  end.

(** GET /faucet/signet/nonce *)
Definition get_nonce (client : string) (now : Z) (s : faucet_app F) : result faucet_exn faucet_reply * faucet_app F :=
  let '(v, windows) := rateLimit limits now client (fa_nonces s) in
  match v with
  | too_many seconds => (Ok (faucet_limited seconds), mkFaucetApp (fa_attempts s) windows (fa_faucet s) (fa_reports s))
  | next =>
      match fa_faucet s with
      | None => (Ok (faucet_off disabledReason), mkFaucetApp (fa_attempts s) windows None (fa_reports s))
      | Some f =>
          let '(r, f) := issueNonce f in
          (match r with
           | Ok (nonce, expiresAt) =>
               Ok (ok_reply (j_object [("nonce", j_string nonce); ("expiresAt", j_string (toISOString expiresAt))]))
           | Err e => Err e
           end, mkFaucetApp (fa_attempts s) windows (Some f) (fa_reports s))
      end
  end.

(** The answer to a claim and the outcome it is reported with, if any. *)
Definition claim_reply (r : result faucet_exn (string * string * Z * Z)) : faucet_reply * option string :=
  match r with
  | Ok p => (sent_reply p, Some "paid")
  | Err (FaucetError c retry) => (refused (words c) c retry, Some (code_text c))
  | Err (Rethrown _) => (internal_error, None)
  end.

(** POST /faucet/signet, with the fields of its body. *)
Definition post_claim (client : string) (body : fields) (now : Z) (s : faucet_app F) : faucet_reply * faucet_app F :=
  let '(v, windows) := rateLimit limits now client (fa_attempts s) in
  let report outcome := fa_reports s ++ [(field_param "stellarAddress" body, outcome)] in
  match v with
  | too_many seconds => (faucet_limited seconds, mkFaucetApp windows (fa_nonces s) (fa_faucet s) (fa_reports s))
  | next =>
      match fa_faucet s with
      | None => (faucet_off disabledReason, mkFaucetApp windows (fa_nonces s) None (report "faucet_disabled"))
      | Some f =>
          let '(r, f) := claim settings wallet self (posted body) client f in
          let '(answer, outcome) := claim_reply r in
          (answer, mkFaucetApp windows (fa_nonces s) (Some f)
                     match outcome with Some o => report o | None => fa_reports s end)
      end
  end.
End routes.

(** ** The app reads what the relayer answers *)

(** An answer as it reaches [call_answer]. *)
Definition received (a : faucet_reply) : http Json := answered (fr_status a) (JSON_parse (JSON_stringify (fr_body a))).

Definition others_of (c : FaucetErrorCode) : list string := if names_others c then PUBLIC_SIGNET_FAUCETS else [].

Lemma refused_read m c retry :
  call_answer (received (refused m c retry)) =
  Err (SignetFaucetError (code_text c) m (HTTP_STATUS c) (j_number <$> retry) (others_of c)).
Proof.
  unfold received, refused. cbn [fr_status fr_body]. rewrite JSON_round_trip.
  - destruct c, retry; reflexivity.
  - apply object_wf. destruct retry, (names_others c); cbn [app map fst];
      (split; [by apply (bool_decide_unpack _); vm_compute|repeat (apply Forall_cons; split; [done|]); done]).
Qed.

Lemma sent_read id address sats fee :
  call_answer (received (sent_reply (id, address, sats, fee))) =
  Ok [("txid", j_string id); ("address", j_string address); ("amountSats", j_number sats); ("feeSats", j_number fee);
      ("explorerUrl", j_string ("https://mempool.space/signet/tx/" +:+ id))].
Proof.
  unfold received, sent_reply. cbn [fr_status fr_body]. rewrite JSON_round_trip; [reflexivity|].
  apply object_wf. split; [by apply (bool_decide_unpack _); vm_compute|by repeat constructor].
Qed.

Lemma disabled_read reason :
  call_answer (received (faucet_off reason)) =
  Err (SignetFaucetError "faucet_disabled" ("the Writz Signet faucet is not available: " +:+ reason) 503 None PUBLIC_SIGNET_FAUCETS).
Proof.
  unfold received, faucet_off. cbn [fr_status fr_body]. rewrite JSON_round_trip; [reflexivity|].
  apply object_wf. split; [by apply (bool_decide_unpack _); vm_compute|repeat (apply Forall_cons; split; [done|]); done].
Qed.

Lemma limited_read seconds :
  call_answer (received (faucet_limited seconds)) =
  Err (SignetFaucetError "rate_limited" "too many faucet requests from this address; slow down" 429 (Some (j_number seconds)) []).
Proof.
  unfold received, faucet_limited. cbn [fr_status fr_body]. rewrite JSON_round_trip; [reflexivity|].
  apply object_wf. split; [by apply (bool_decide_unpack _); vm_compute|by repeat constructor].
Qed.

(** The codes the app has no words of its own for: a request of the app does not
    raise them, or they are the sign-in provider's settings. *)
Definition unworded (c : FaucetErrorCode) : bool :=
  match c with
  | invalid_request | invalid_address | faucet_address | nonce_invalid | address_key_mismatch | bad_signature
  | login_wrong_app | login_wrong_network | login_address_mismatch => true
  | _ => false
  end.

Lemma unworded_title c : bool_decide (cp_title (copy_of (code_text c)) = cp_title OTHER_COPY) = unworded c.
Proof. by destruct c; vm_compute. Qed.

Lemma unworded_copy c : unworded c = true → copy_of (code_text c) = OTHER_COPY.
Proof. by destruct c; vm_compute. Qed.

Section read.
Context {F : Type} `{FaucetEnv F, PaymentLib, MessageLib, KeyEnv}.
Context (settings : FaucetSettings) (wallet : WritzKeyPair) (self : string) (words : FaucetErrorCode → string).
Context (limits : RateLimitOptions) (disabledReason : string).

(** Whatever a claim comes to, the app has it as it was: what was paid, with its
    page, or the faucet's own code, words, status and delay, with the relayer's
    other faucets where it names them and the app's where it does not; it takes a
    claim for one already made exactly on the three codes of the limits; and it has
    words of its own for every code but those of a malformed request. *)
Theorem app_reads_the_faucets_answers r :
  let '(a, outcome) := claim_reply words r in
  match r with
  | Ok (id, address, sats, fee) =>
      outcome = Some "paid" ∧
      ∃ fs, call_answer (received a) = Ok fs ∧ map_get "txid" fs = Some (j_string id) ∧
        map_get "amountSats" fs = Some (j_number sats) ∧
        map_get "explorerUrl" fs = Some (j_string ("https://mempool.space/signet/tx/" +:+ id))
  | Err (FaucetError c retry) =>
      outcome = Some (code_text c) ∧
      let e := SignetFaucetError (code_text c) (words c) (HTTP_STATUS c) (j_number <$> retry) (others_of c) in
      call_answer (received a) = Err e ∧
      alreadyClaimed e = bool_decide (HTTP_STATUS c = 409) ∧
      cl_code (describeClaimError e) = code_text c ∧ cl_retryAfterSeconds (describeClaimError e) = j_number <$> retry ∧
      cl_publicFaucets (describeClaimError e) = (if names_others c then PUBLIC_SIGNET_FAUCETS else PUBLIC) ∧
      (cl_copy (describeClaimError e) = OTHER_COPY ↔ unworded c = true)
  | Err (Rethrown _) =>
      outcome = None ∧ call_answer (received a) =
        Err (SignetFaucetError "internal_error" "the faucet could not complete this claim" 500 None [])
  end.
Proof.
  destruct r as [[[[id address] sats] fee]|[c retry|e]]; cbn [claim_reply].
  - split; [done|]. rewrite sent_read. by eexists.
  - split; [done|]. cbv zeta. rewrite refused_read.
    assert (copy_of (code_text c) = OTHER_COPY ↔ unworded c = true) as Hcopy.
    { split; [|apply unworded_copy]. intros He. rewrite <- unworded_title, He. by apply bool_decide_eq_true. }
    split_and!; [done|by destruct c|done|done|by destruct c|exact Hcopy].
  - split; [done|]. unfold received, internal_error. cbn [fr_status fr_body]. rewrite JSON_round_trip; [reflexivity|].
    apply object_wf. split; [by apply (bool_decide_unpack _); vm_compute|by repeat constructor].
Qed.

(** A claim reaches the faucet only past the limiter, and its outcome is reported
    once, under the address its body named; a refused attempt changes nothing but
    the window. *)
Theorem claims_are_reported_once client body now (s : faucet_app F) :
  let '(a, s') := post_claim settings wallet self words limits disabledReason client body now s in
  match (rateLimit limits now client (fa_attempts s)).1 with
  | too_many seconds => a = faucet_limited seconds ∧ fa_faucet s' = fa_faucet s ∧ fa_reports s' = fa_reports s
  | next =>
      let r := (λ f, claim settings wallet self (posted body) client f) <$> fa_faucet s in
      fa_faucet s' = snd <$> r ∧
      let answer := match r with None => (faucet_off disabledReason, Some "faucet_disabled") | Some r => claim_reply words r.1 end in
      a = answer.1 ∧
      fa_reports s' = fa_reports s ++ match answer.2 with Some o => [(field_param "stellarAddress" body, o)] | None => [] end
  end ∧ fa_nonces s' = fa_nonces s.
Proof.
  unfold post_claim. destruct (rateLimit _ _ _ _) as [[|seconds] windows]; cbn [fst]; [|done].
  destruct (fa_faucet s) as [f|]; cbn [fmap option_fmap option_map]; [|done].
  destruct (claim _ _ _ _ _ f) as [r f']. cbn [fst snd]. destruct (claim_reply words r) as [answer [o|]]; cbn; [done|].
  by rewrite app_nil_r.
Qed.
End read.
